(* ===== verification/_CoqProject ===== *)
-Q . S2P
Prelude.v
PtyRing.v
Wire.v
PtySession.v
Terminal.v
Events.v
Telemetry.v
Network.v
Privd.v
PrivdSafe.v
PrivdSystem.v
PrivdRuns.v
Text.v
Auth.v
AuthRuns.v
Segment.v
SpoolWriter.v
SpoolDurable.v
SpoolCrash.v
Importer.v
SpoolImport.v
SpoolSystem.v
SpoolLive.v
ImportHealth.v
ImportRuns.v
StatusFile.v
Store.v
AuthStore.v
SpoolStore.v
RunStore.v
VmStore.v
StoreRules.v
Registry.v
History.v
EventQuery.v
EventsAPI.v
AttentionStore.v
AttentionRules.v
AttentionRuns.v
Redact.v
RedactStore.v
Situation.v
SituationRuns.v
SituationLive.v
Idempotency.v
RunHistory.v
Float64.v
Admission.v
BatchStore.v
BatchRules.v
BatchRuns.v
BatchPlan.v
Manager.v
ManagerSystem.v
ManagerView.v
ManagerSafe.v
ManagerOps.v
ManagerHost.v
ManagerRuns.v
SituationView.v
Reports.v
ReportRuns.v
ReportGen.v
BatchLaunch.v
BatchWave.v
BatchEnd.v
