(* ===== verification/Prelude.v ===== *)
(** * Observatory

    Observatory runs microVMs on one host and records what happens in them. The
    program is a set of Go processes: [vmobsd], the controller, owns an SQLite
    event store and an HTTP API; [vmobs-runner], one per VM, supervises the VMM
    and forwards terminals and telemetry; [vmobs-guestd] runs inside the VM and
    owns its terminals; [vmobs-privd] executes the privileged operations. This
    library models the parts that carry the program's own logic and proves what
    the rest of the program relies on.

    ** How the parts interact

    A terminal session is a process under a PTY in the guest. Its output goes
    into a replay ring; a stream pump sends it, in frames, over the guest channel
    to the runner and on to a browser, which holds a window and possibly the
    writer lease. Sensors in the guest push events into a bounded telemetry ring;
    the runner receives them over a telemetry port, stamps them as envelopes and
    appends them to its spool, a directory of checksummed segments; the controller
    imports the spools, survives crashes of either side, and prunes what it has
    committed. The store validates every envelope, deduplicates it by source
    and sequence number, and appends it to the log. The controller's own changes
    (VMs, operations, reservations, runs) are transactions of the same store that
    write their rows and the events about them together; a create or a restart
    is admitted in that transaction against the reserved totals. The manager runs
    each lifecycle operation as a sequence of store transactions and calls of the
    runtime that drives the VMMs, many operations at once, and reconciles rows
    with the host after a restart.

    ** Files

    - [Prelude]: machine integers ([Int]), slices ([Slice]), results, decimal
      strings ([Strconv]), big-endian words ([BigEndian]); the hint databases and
      tactics the other files share.
    - [PtyRing] (internal/guest/pty/ring.go): the circular replay buffer, refined
      to the window of an unbounded stream ([rep]).
    - [Wire] (internal/guest/proto/frame.go, internal/privd/proto.go): the frame
      and message codecs as functions of byte lists.
    - [PtySession] (internal/guest/pty/broker.go, internal/guest/terminal.go,
      [authHello] of internal/guest/agent.go): sessions, input, attachments, the
      output pump and the session table.
    - [Terminal] (internal/terminal): modules [Window], [Lease] and [Registry],
      the browser's flow control, the writer lease and the session registry.
    - [Events] (internal/events): envelopes, their validation, the kind registry.
    - [Telemetry] (internal/guest/telemetry, internal/guest/telemetry.go,
      internal/runner/telemetry.go): modules [TelRing], [Sensors], [Runner] and
      [Delivery], the last being the interleaving of sensors, port and runner.
    - [Network] (internal/network): the allocator of point-to-point subnets over
      prefixes of both address families.
    - [Privd] (internal/privd: server.go, operations.go, ledger.go, proto.go,
      pid_linux.go): the verbs as programs ([Prog]) of calls of the ledger's files,
      the backend and the kernel; the journal of mutations; the daemon as steps
      ([pstep]) with failures, crashes, restarts and reboots; [PrivdSafe]: a Hoare
      logic for the host and ledger ([winv], [pwp]) and every handler in it;
      [PrivdSystem]: the invariants of the journal and of the host; [PrivdRuns]:
      their consequences and an interpreter for schedules.
    - [Text]: base64, hex and string functions of Go's library; [Auth]
      (internal/auth, internal/api/auth.go): the credential store, tokens, sessions,
      the middleware ([withAuth]) and the /auth handlers; [AuthRuns]: concurrent
      requests and restarts ([astep]), and what holds in all executions; [AuthStore]:
      its events at the store.
    - [Segment] (internal/spool/segment.go, reader.go): the segment codec, reading
      and recovery; [SpoolWriter] (writer.go, state.go): the writer over a file
      system with durable and volatile contents; [SpoolDurable], [SpoolCrash]:
      what it keeps across a crash.
    - [Importer] (importer.go): the importer as steps; [SpoolImport],
      [SpoolSystem], [SpoolLive], [SpoolStore]: writer, importer and store
      together, step by step.
    - [ImportHealth] (health.go and the cycle of importer.go): retry times, failure
      episodes and writer outages, a cycle being a function of everything it meets;
      [ImportRuns]: the account of any sequence of cycles; [StatusFile] (status.go):
      the frame the writer overwrites and the importer reads.
    - [Store] (internal/store/store.go, append.go): module [Sql] is the little
      SQL the statements use, [Store] the tables, the transaction monad and
      ingestion, [Log] the log's invariant and what ingestion does.
    - [RunStore] (internal/store/runs.go) and [VmStore] (internal/store/vms.go,
      cleanup.go): the transactions on runs, VMs, operations and reservations.
    - [StoreRules]: compositional rules for the monad, with the class [LogBlind]
      for relations that emission does not disturb.
    - [Registry]: the store as a state machine ([Op], [step], [steps]): any
      sequence of its operations and restarts.
    - [History], [Idempotency], [RunHistory]: what holds in all its executions.
    - [EventQuery] (internal/store/query.go): paging and tailing the log;
      [EventsAPI] (internal/api/events.go): the endpoint over it, from the text of the
      request's target.
    - [AttentionStore] (internal/store/attention.go, annotations.go): the attention
      queue, the engine's cursors and the annotations beside the other tables;
      [AttentionRules]: what a raise does, case by case; [AttentionRuns]: the queue
      in all executions.
    - [Redact] (internal/redact): the redaction policy, its regular expressions as
      functions of bytes; [RedactStore]: the store under the policy.
    - [Situation] (internal/situation): the trigger rules and [Evaluate], access by
      access; [SituationRuns]: passes beside everything else that happens to the
      store ([sstep]); [SituationLive]: a pass left alone, and two at once;
      [SituationView]: telemetry health and the snapshot.
    - [Float64]: binary64 sums and comparisons of whole numbers, from [SpecFloat];
      [Admission] (internal/runtime/admission.go, the request resolution and the
      restart admission of internal/runtime/manager.go): capacity arithmetic and
      the proof that reservations stay within it.
    - [BatchStore] (internal/store/batches.go): the batch tables beside the
      registry's and the transaction that records a batch; [BatchRules],
      [BatchRuns]: what it does, as operations of [Registry], and what holds in all
      executions with batches; [BatchPlan] (internal/runtime/batch.go, up to the
      call of the store): resolution, request hash, admission callbacks.
    - [Manager] (internal/runtime/manager.go, runs.go, cleanup_retry.go): every
      lifecycle operation as a program, a tree of store, runtime and process
      calls ([Prog]); [ManagerSystem] (runtime.go): the contract of the [Runtime]
      interface, and the operations side by side with host events and restarts
      ([mstep]); [ManagerView]: what one VM's operations see ([View]) and what a
      call does to it; [ManagerSafe]: a Hoare logic over views; [ManagerOps]:
      every operation in it; [ManagerHost]: the system's invariant;
      [ManagerRuns]: its consequences, an interpreter for schedules, and schedules
      that break it.
    - [Reports] (internal/report, internal/store/report.go): run reports, read from a
      store that changes between the reads; [ReportRuns]: what they say of the log;
      [ReportGen]: their generator beside everything else that happens to the store.
    - [BatchLaunch] (internal/runtime/batch.go, the launches): one program per
      admitted member, their coordinator, the stop wave, side by side ([bmove]);
      [BatchWave]: the invariant of the count-down and a schedule in which the wave
      overtakes a launch; [BatchEnd]: [CreateBatch] from request to conclusion.

    ** What the theorems show

    - Terminals: a stream delivers the session's output byte for byte, and every
      byte it does not deliver is in an announced dropped range; an input with a
      given sequence number is typed once; the window and the lease keep their
      bounds; attachments do not outlive their session.
    - Wire: written frames read back, whatever follows them; a declared length
      is checked before memory is reserved.
    - Telemetry: what is acknowledged has been spooled, is counted as dropped or is of a kind
      a guest may not report, with one connection at a time and in the schedule where
      an item is read, written and advanced over without an acknowledgement in
      between; without that a lost event is exhibited.
    - Network: with pools of at most 30 bits no two leases overlap, nor a lease an
      excluded route; an acquisition
      ends, with fuel one more than the number of occupied prefixes; the overlap
      test is exactly the sharing of an address.
    - Privileged daemon: subnets, uids and CIDs on the host are exclusive whatever
      fails; an operation executes at most once and its receipt never changes; the
      inventory of leases names every network on the host.
    - Authentication: every identity the middleware grants is accounted for by a
      login or a token of the operator that is within its time and not revoked, with
      CSRF and origin checks where they apply; handed-out tokens work; passwords
      round trip; the store accepts every event about all this.
    - Spool: a segment cut at any byte reads back the records before the cut; what
      [Append] acknowledged survives a crash at any point, or is in a written loss
      record; every acknowledged record reaches the store unless it is pruned by
      the race that [prune_race_loses_record] exhibits, and an importer that keeps
      running imports everything. A failure episode and a writer's outage are
      reported once, a failing directory is retried no earlier than its back-off
      allows and delays no other; a status written is the status read.
    - Store: ingestion is exactly the abstract verdict (append, duplicate,
      integrity failure, scope mismatch, invalid); the log only grows and stays
      ordered; the VM table is the replay of the log; a VM's life is a walk of
      the state machine; a keyed create has one outcome for ever; runs are
      exclusive per VM and their counters agree with the log.
    - Queries: pages read one after the other, while the log grows, return exactly
      the matching events, each once and in order.
    - Reports: every count in a run's report comes with a target that returns exactly
      that many events, then and later; a later generation makes the same report but
      for the attention items and the VM's profile ([report_depends_on_time]); a generator that
      gets to generating leaves one stored report, which never changes.
    - Attention: every item counts exactly the events that raised it and links the
      first and the last; an acknowledged item never changes again.
    - Redaction: no text matches the policy after it, whatever the text, and all of
      it that did not match is kept; so no stored item or annotation matches.
    - Situation: passes that do not overlap raise each event the rules fire on once,
      however often they are cut off, and a pass left alone ends with every event
      evaluated, with fuel two per event and three per raise. Nothing in the code
      keeps passes apart: [concurrent_passes_raise_twice] and
      [concurrent_passes_move_back] are executions in which they overlap. The
      snapshot's counts, head and quiet flag are exact, over all pages of VMs.
    - Admission: no execution in which creates, batches and restarts are admitted
      by the policy reserves more memory, CPU or disk than the host offers.
    - Batches: recording a batch is a sequence of registry operations, all or none,
      with one outcome per member in order; a keyed batch is recorded once and
      replayed for ever; the batch's operation is concluded once, by the last
      member, from what every member reported. [stop_wave_overtakes_launch] is an
      execution in which a member's VM keeps running after the wave stopped it.
    - Manager: in every orderly execution, whatever runs on the host, or may still
      start to run, has an unreleased reservation, so the memory of the running
      VMs fits the host; and a deleted VM has left nothing behind. [orderly] asks
      that operations on one VM come one after the other, which the code does not
      enforce: [delete_races_launch] shows what happens otherwise.

    ** Bounds and assumptions

    Integers keep their Go width: wrap-around is written out with [Int.u64] and
    [Int.i64], and a theorem that needs a counter not to wrap says so. [ready n]
    asks for [n] free values of the event cursor and of the process's sequence
    counter; no operation of the store emits more than four events, so [step] asks
    for four. [legal] excludes events forged under the store's own instance id or
    kinds, which the API and the importer never append, and asks a restart for a
    fresh instance id. [governed] and [sane] (with [room], 2^62) say that requests
    come from the manager with one policy whose figures leave head room in 64 bits.
    Loops over byte lists are structural; functions with fuel take the length of
    the list they consume, which suffices because a round consumes at least one
    byte. A call of the writer is atomic for the importer's steps. [callStep] of [Privd] is
    the contract of the daemon's backend: a failed call may have had its effect, a
    successful release or abort leaves nothing. [orderly] also
    asks that an exit notice of the current boot is true, that the scan at a
    restart finds every VMM, that the runtime is available to the reconciliation,
    and that the forced stop behind a failed on-completion stop is proven
    ([unproven_stop_releases_compute] is the execution without it). SHA-256 of an envelope's JSON, JSON texts themselves, clocks, random
    identifiers and the operating system's answers are arguments.

    ** Not modelled

    Simplified: a query returns the stored envelope where the code parses
    the stored JSON again; a snapshot reads one state of the store; an
    import is not cancelled between its end and the record of its outcome.

    SQLite's I/O failures, the HTTP layer beyond authentication and GET /events,
    process supervision and the privileged operations, which are effects of the operating system, and the web client.
    Of the manager, the time budgets and contexts of its calls, the paging of the
    cleanup sweep, and closing.
    The encoding of run reports, the durable-file helpers and the evidence tool are not modelled. *)

From stdpp Require Export base numbers list strings gmap sorting pretty.
From Stdlib Require Export ZArith Lia.
From Stdlib Require Ascii.

#[export] Set Warnings "-clear-no-such-hyp".

(** * Machine integers *)

Declare Scope go_scope.
Delimit Scope go_scope with go.

Module Int.

Definition modulus (w : Z) : Z := (2 ^ w)%Z.

(** [uint64(x)] and [uint32(x)]: reduction to the low bits. *)
Definition u64 (x : Z) : Z := (x mod 2 ^ 64)%Z.
Definition u32 (x : Z) : Z := (x mod 2 ^ 32)%Z.

(** [int64(x)]: two's complement reinterpretation of the low 64 bits. *)
Definition i64 (x : Z) : Z := ((x + 2 ^ 63) mod 2 ^ 64 - 2 ^ 63)%Z.

Definition MaxInt64 : Z := (2 ^ 63 - 1)%Z.
Definition MinInt64 : Z := (- 2 ^ 63)%Z.
Definition MaxUint64 : Z := (2 ^ 64 - 1)%Z.

Lemma u64_small x : (0 ≤ x < 2 ^ 64)%Z → u64 x = x.
Proof. apply Z.mod_small. Qed.

Lemma u32_small x : (0 ≤ x < 2 ^ 32)%Z → u32 x = x.
Proof. apply Z.mod_small. Qed.

Lemma u64_range x : (0 ≤ u64 x < 2 ^ 64)%Z.
Proof. apply Z.mod_pos_bound. lia. Qed.

Lemma u32_range x : (0 ≤ u32 x < 2 ^ 32)%Z.
Proof. apply Z.mod_pos_bound. lia. Qed.

Lemma i64_small x : (- 2 ^ 63 ≤ x < 2 ^ 63)%Z → i64 x = x.
Proof. intros ?. unfold i64. rewrite Z.mod_small; lia. Qed.

Lemma i64_range x : (- 2 ^ 63 ≤ i64 x < 2 ^ 63)%Z.
Proof. unfold i64. pose proof (Z.mod_pos_bound (x + 2 ^ 63) (2 ^ 64)). lia. Qed.

End Int.

Create HintDb go_int.
#[export] Hint Resolve Int.u64_range Int.u32_range Int.i64_range : go_int.

(** * Time *)

(** A Go [time.Time] is modelled by its distance in nanoseconds from the zero
    time (January 1, year 1), so [IsZero] is a comparison with 0; a
    [time.Duration] is a signed 64-bit count of nanoseconds. *)
Module GoTime.

Definition IsZero (t : Z) : bool := (t =? 0)%Z.

(** [t.Sub(u)] saturates at the ends of the 64-bit range. *)
Definition Sub (t u : Z) : Z :=
  let d := (t - u)%Z in
  if (d <? Int.MinInt64)%Z then Int.MinInt64
  else if (Int.MaxInt64 <? d)%Z then Int.MaxInt64 else d.

Lemma Sub_mono t t' u : (t ≤ t')%Z → (Sub t u ≤ Sub t' u)%Z.
Proof.
  intros ?. unfold Sub, Int.MinInt64, Int.MaxInt64.
  repeat case_match; lia.
Qed.

Lemma Sub_small t u :
  (Int.MinInt64 ≤ t - u ≤ Int.MaxInt64)%Z → Sub t u = (t - u)%Z.
Proof.
  intros ?. unfold Sub. repeat case_match; lia.
Qed.

End GoTime.

(** * Slices *)

Module Slice.
Section slice.
Context {A : Type}.
Implicit Types l dst src : list A.

(** [copy(dst, src)]: the destination after the copy. The number of elements
    copied is the shorter of the two lengths. *)
Definition copy dst src : list A :=
  take (length dst) src ++ drop (length src) dst.

Definition copied dst src : nat := min (length dst) (length src).

(** [copy(dst[off:], src)]: the whole of [dst] after copying into its suffix. *)
Definition copy_at (off : nat) dst src : list A :=
  take off dst ++ copy (drop off dst) src.

Lemma length_copy dst src : length (copy dst src) = length dst.
Proof. unfold copy. rewrite length_app, length_take, length_drop. lia. Qed.

Lemma length_copy_at off dst src : length (copy_at off dst src) = length dst.
Proof.
  unfold copy_at. rewrite length_app, length_copy, length_take, length_drop. lia.
Qed.

Lemma lookup_copy dst src i :
  i < length dst →
  copy dst src !! i = if decide (i < length src) then src !! i else dst !! i.
Proof.
  intros Hi. unfold copy. case_decide.
  - rewrite lookup_app_l by (rewrite length_take; lia).
    apply lookup_take_lt; lia.
  - rewrite lookup_app_r by (rewrite length_take; lia).
    rewrite length_take, lookup_drop. f_equal. lia.
Qed.

Lemma lookup_copy_at off dst src i :
  i < length dst →
  copy_at off dst src !! i =
    if decide (off ≤ i ∧ i - off < length src) then src !! (i - off) else dst !! i.
Proof.
  intros Hi. unfold copy_at.
  destruct (decide (i < off)).
  - rewrite lookup_app_l by (rewrite length_take; lia).
    rewrite lookup_take_lt by lia. rewrite decide_False by lia. done.
  - rewrite lookup_app_r by (rewrite length_take; lia).
    rewrite length_take, min_l by lia.
    rewrite lookup_copy by (rewrite length_drop; lia).
    rewrite lookup_drop.
    replace (off + (i - off)) with i by lia.
    repeat case_decide; tauto || lia.
Qed.

Lemma copy_ge dst src :
  length dst ≤ length src → copy dst src = take (length dst) src.
Proof. intros. unfold copy. rewrite drop_ge, app_nil_r by lia. done. Qed.

End slice.
End Slice.

(** Index arithmetic of a circular buffer: one wrap at most. *)
Lemma mod_wrap (x n : nat) :
  x < 2 * n → x mod n = if decide (x < n) then x else x - n.
Proof.
  intros Hx. case_decide as Hd.
  - by apply Nat.mod_small.
  - rewrite <- (Nat.mod_small (x - n) n) by lia.
    rewrite <- (Nat.Div0.mod_add (x - n) 1 n). f_equal. lia.
Qed.

(** The last [n] elements of a list. *)
Definition last_n {A} (n : nat) (l : list A) : list A := drop (length l - n) l.

Lemma length_last_n {A} n (l : list A) : length (last_n n l) = min n (length l).
Proof. unfold last_n. rewrite length_drop. lia. Qed.

Lemma last_n_all {A} n (l : list A) : length l ≤ n → last_n n l = l.
Proof. intros. unfold last_n. by replace (length l - n) with 0 by lia. Qed.

Lemma last_cons_default {A} (x : A) l d : List.last (x :: l) d = List.last l x.
Proof.
  revert x d. induction l as [|y l IH]; intros x d; [done|].
  change (List.last (y :: l) d = List.last (y :: l) x). by rewrite !IH.
Qed.

(** * Errors *)

(** A Go [(T, error)] pair of a function whose value is meaningless when the
    error is set. *)
Inductive result (E A : Type) : Type :=
  | Ok (a : A)
  | Err (e : E).
Arguments Ok {E A} a.
Arguments Err {E A} e.

#[export] Instance result_ret {E} : MRet (result E) := λ A a, Ok a.
#[export] Instance result_bind {E} : MBind (result E) := λ A B f r,
  match r with Ok a => f a | Err e => Err e end.
#[export] Instance result_fmap {E} : FMap (result E) := λ A B f r,
  match r with Ok a => Ok (f a) | Err e => Err e end.

#[export] Instance result_eq_dec {E A} `{EqDecision E, EqDecision A} :
  EqDecision (result E A).
Proof. solve_decision. Defined.

Definition guard_err {E} (b : bool) (e : E) : result E unit :=
  if b then Ok tt else Err e.

Definition is_ok {E A} (r : result E A) : bool :=
  match r with Ok _ => true | Err _ => false end.

Lemma result_bind_Ok {E A B} (r : result E A) (f : A → result E B) b :
  r ≫= f = Ok b ↔ ∃ a, r = Ok a ∧ f a = Ok b.
Proof.
  unfold mbind, result_bind. destruct r; split; [by eauto| |done|].
  - by intros (? & [= ->] & ?).
  - by intros (? & ? & ?).
Qed.

Lemma guard_err_Ok {E} b (e : E) : guard_err b e = Ok tt ↔ b = true.
Proof. destruct b; done. Qed.

(** * Strings *)

Lemma string_app_assoc (s1 s2 s3 : string) : s1 +:+ (s2 +:+ s3) = (s1 +:+ s2) +:+ s3.
Proof. induction s1 as [|c s1 IH]; [done|]. exact (f_equal (String c) IH). Qed.

Lemma string_app_nil_r (s : string) : s +:+ "" = s.
Proof. induction s as [|c s IH]; [done|]. exact (f_equal (String c) IH). Qed.

(** * Decimal strings *)

Module Strconv.

(** [strconv.FormatUint(v, 10)] and [strconv.FormatInt(v, 10)]. *)
Definition FormatInt (v : Z) : string := pretty v.
Definition FormatUint (v : Z) : string := pretty v.

Definition digit_val (c : Ascii.ascii) : option Z :=
  let n := Z.of_N (Ascii.N_of_ascii c) in
  if (48 <=? n)%Z && (n <=? 57)%Z then Some (n - 48)%Z else None.

Fixpoint parse_digits (acc : Z) (s : string) : option Z :=
  match s with
  | EmptyString => Some acc
  | String c s' => d ← digit_val c; parse_digits (10 * acc + d) s'
  end.

(** [strconv.ParseUint(s, 10, bits)]: at least one character, digits only, and
    a value that fits. *)
Definition ParseUint (s : string) (bits : Z) : option Z :=
  match s with
  | EmptyString => None
  | _ =>
    v ← parse_digits 0 s;
    if (v <? 2 ^ bits)%Z then Some v else None
  end.

(** [strconv.ParseInt(s, 10, 64)]: an optional sign, digits, and a value in the
    signed 64-bit range. *)
Definition ParseInt (s : string) : option Z :=
  let range v := if (Int.MinInt64 <=? v)%Z && (v <=? Int.MaxInt64)%Z then Some v else None in
  let digits s' := match s' with EmptyString => None | _ => parse_digits 0 s' end in
  match s with
  | EmptyString => None
  | String c s' =>
    if (Ascii.N_of_ascii c =? 43)%N then v ← digits s'; range v
    else if (Ascii.N_of_ascii c =? 45)%N then v ← digits s'; range (- v)%Z
    else v ← digits s; range v
  end.

Lemma digit_val_char x :
  (x < 10)%N → digit_val (pretty_N_char x) = Some (Z.of_N x).
Proof.
  intros. assert (x = 0 ∨ x = 1 ∨ x = 2 ∨ x = 3 ∨ x = 4 ∨ x = 5 ∨ x = 6 ∨
    x = 7 ∨ x = 8 ∨ x = 9)%N as Hx by lia.
  destruct_or! Hx; subst; reflexivity.
Qed.

Lemma parse_digits_go x s :
  parse_digits 0 (pretty_N_go x s) = parse_digits (Z.of_N x) s.
Proof.
  revert s. induction (N.lt_wf_0 x) as [x _ IH]; intros s.
  destruct (decide (x = 0%N)) as [->|Hx]; [by rewrite pretty_N_go_0|].
  rewrite pretty_N_go_step by lia. rewrite IH by (apply N.div_lt; lia). simpl.
  rewrite digit_val_char by (apply N.mod_lt; lia). simpl. f_equal.
  pose proof (N.div_mod x 10). lia.
Qed.

Lemma FormatUint_nonempty v : FormatUint v ≠ "".
Proof.
  unfold FormatUint, pretty, pretty_Z, pretty, pretty_positive, pretty, pretty_N.
  destruct v; try done. case_decide; [done|].
  rewrite pretty_N_go_step by lia. intros Hs.
  pose proof (parse_digits_go (N.pos p `div` 10)
    (String (pretty_N_char (N.pos p `mod` 10)) "")) as Hd.
  rewrite Hs in Hd. simpl in Hd.
  rewrite digit_val_char in Hd by (apply N.mod_lt; lia). simpl in Hd.
  pose proof (N.div_mod (N.pos p) 10). injection Hd. lia.
Qed.

Lemma ParseUint_FormatUint v bits :
  (0 ≤ v < 2 ^ bits)%Z → ParseUint (FormatUint v) bits = Some v.
Proof.
  intros Hv.
  assert (H : parse_digits 0 (FormatUint v) = Some v).
  { unfold FormatUint, pretty, pretty_Z, pretty, pretty_positive, pretty, pretty_N.
    destruct v; [done| |lia]. rewrite decide_False by done. by rewrite parse_digits_go. }
  unfold ParseUint. pose proof (FormatUint_nonempty v).
  destruct (FormatUint v); [done|]. rewrite H. simpl.
  by rewrite (proj2 (Z.ltb_lt _ _)) by lia.
Qed.

Lemma parse_digits_FormatUint v : (0 ≤ v)%Z → parse_digits 0 (FormatUint v) = Some v.
Proof.
  intros Hv. unfold FormatUint, pretty, pretty_Z, pretty, pretty_positive, pretty, pretty_N.
  destruct v; [done| |lia]. rewrite decide_False by done. by rewrite parse_digits_go.
Qed.

Lemma ParseInt_FormatInt v :
  (0 ≤ v ≤ Int.MaxInt64)%Z → ParseInt (FormatInt v) = Some v.
Proof.
  intros Hv. pose proof (parse_digits_FormatUint v ltac:(lia)) as H.
  change (FormatInt v) with (FormatUint v). unfold ParseInt.
  pose proof (FormatUint_nonempty v).
  assert (Hr : (Int.MinInt64 <=? v)%Z && (v <=? Int.MaxInt64)%Z = true).
  { rewrite andb_true_iff, !Z.leb_le. unfold Int.MinInt64 in *. lia. }
  destruct (FormatUint v) as [|c s] eqn:E; [done|].
  assert (Hc : ∃ d, digit_val c = Some d).
  { simpl in H. destruct (digit_val c); [eauto|done]. }
  destruct Hc as [d Hc]. unfold digit_val in Hc.
  destruct (Ascii.N_of_ascii c =? 43)%N eqn:E1.
  { apply N.eqb_eq in E1. by rewrite E1 in Hc. }
  destruct (Ascii.N_of_ascii c =? 45)%N eqn:E2.
  { apply N.eqb_eq in E2. by rewrite E2 in Hc. }
  rewrite H. simpl. by rewrite Hr.
Qed.

#[export] Instance FormatInt_inj : Inj (=) (=) FormatInt.
Proof. unfold FormatInt. apply _. Qed.

End Strconv.

(** * Bytes *)

(** A byte is a number below 256. *)
Definition is_byte (b : Z) : Prop := (0 ≤ b < 256)%Z.
Definition is_bytes (l : list Z) : Prop := Forall is_byte l.

Module BigEndian.

(** [binary.BigEndian.PutUint<8k>]: the [k] bytes of [v], most significant
    first. *)
Fixpoint put (k : nat) (v : Z) : list Z :=
  match k with
  | 0 => []
  | S k' => Z.land (Z.shiftr v (8 * Z.of_nat k')) 255 :: put k' v
  end.

(** [binary.BigEndian.Uint<8k>]. *)
Definition get (l : list Z) : Z :=
  fold_left (λ acc b, Z.lor (Z.shiftl acc 8) b) l 0%Z.

Definition PutUint32 (v : Z) : list Z := put 4 v.
Definition PutUint64 (v : Z) : list Z := put 8 v.
Definition Uint32 (l : list Z) : Z := get (take 4 l).
Definition Uint64 (l : list Z) : Z := get (take 8 l).

Lemma length_put k v : length (put k v) = k.
Proof. induction k; simpl; lia. Qed.

Lemma put_digit k v :
  Z.land (Z.shiftr v (8 * Z.of_nat k)) 255 = ((v / 256 ^ Z.of_nat k) mod 256)%Z.
Proof.
  change 255%Z with (Z.ones 8). rewrite Z.land_ones by lia.
  rewrite Z.shiftr_div_pow2 by lia. rewrite Z.pow_mul_r by lia. done.
Qed.

Lemma put_bytes k v : is_bytes (put k v).
Proof.
  induction k as [|k IH]; constructor; [|done].
  rewrite put_digit. unfold is_byte. apply Z.mod_pos_bound. lia.
Qed.

Lemma land_shift_byte acc b : is_byte b → Z.land (Z.shiftl acc 8) b = 0%Z.
Proof.
  intros Hb. apply Z.bits_inj'. intros n Hn.
  rewrite Z.land_spec, Z.bits_0, Z.shiftl_spec by done.
  destruct (decide (n < 8)%Z); [by rewrite Z.testbit_neg_r by lia|].
  rewrite <- (Z.mod_small b (2 ^ 8)) by exact Hb.
  by rewrite Z.mod_pow2_bits_high, andb_false_r by lia.
Qed.

Lemma lor_shift acc b : is_byte b → Z.lor (Z.shiftl acc 8) b = (256 * acc + b)%Z.
Proof.
  intros Hb. pose proof (land_shift_byte acc b Hb).
  rewrite <- Z.lxor_lor, <- Z.add_nocarry_lxor by done.
  rewrite Z.shiftl_mul_pow2 by lia. lia.
Qed.

Lemma get_app_acc l acc :
  is_bytes l →
  fold_left (λ acc b, Z.lor (Z.shiftl acc 8) b) l acc
  = (256 ^ Z.of_nat (length l) * acc + get l)%Z.
Proof.
  unfold get. intros Hl. revert acc. induction Hl as [|b l Hb Hl IH]; intros acc.
  - simpl. lia.
  - cbn [fold_left]. rewrite IH, (IH (Z.lor _ _)), !lor_shift by done.
    change (length (b :: l)) with (S (length l)).
    rewrite Nat2Z.inj_succ, Z.pow_succ_r by lia. ring.
Qed.

Lemma get_cons b l :
  is_byte b → is_bytes l → get (b :: l) = (256 ^ Z.of_nat (length l) * b + get l)%Z.
Proof.
  intros. unfold get at 1. cbn [fold_left].
  rewrite get_app_acc, lor_shift by done. do 2 f_equal.
Qed.

Lemma get_put k v : get (put k v) = (v mod 256 ^ Z.of_nat k)%Z.
Proof.
  induction k as [|k IH].
  - change (0 = v mod 1)%Z. by rewrite Z.mod_1_r.
  - cbn [put]. rewrite put_digit, get_cons, IH, length_put;
      [|apply Z.mod_pos_bound; lia|apply put_bytes].
    rewrite Nat2Z.inj_succ, Z.pow_succ_r by lia.
    rewrite (Z.mul_comm 256), Z.rem_mul_r by lia. lia.
Qed.

Lemma get_range l :
  is_bytes l → (0 ≤ get l < 256 ^ Z.of_nat (length l))%Z.
Proof.
  induction 1 as [|b l Hb Hl IH]; [done|].
  rewrite get_cons by done. unfold is_byte in Hb.
  change (length (b :: l)) with (S (length l)).
  rewrite Nat2Z.inj_succ, Z.pow_succ_r by lia. nia.
Qed.

Lemma put_high j b v k : k ≤ j → put k (256 ^ Z.of_nat j * b + v) = put k v.
Proof.
  induction k as [|k IH]; intros Hk; [done|].
  cbn [put]. rewrite !put_digit, IH by lia. f_equal.
  replace (256 ^ Z.of_nat j)%Z
    with (256 ^ Z.of_nat k * 256 * 256 ^ Z.of_nat (j - S k))%Z.
  2: { rewrite <- (Z.mul_assoc (256 ^ _)%Z), <- Z.pow_succ_r, <- Z.pow_add_r by lia.
       f_equal. lia. }
  rewrite (Z.add_comm _ v), <- !Z.mul_assoc, (Z.mul_comm (256 ^ Z.of_nat k)).
  rewrite Z.div_add, (Z.mul_comm 256), Z.mod_add by lia. done.
Qed.

Lemma put_get l : is_bytes l → put (length l) (get l) = l.
Proof.
  induction 1 as [|b l Hb Hl IH]; [done|].
  pose proof (get_range l Hl). unfold is_byte in Hb.
  change (length (b :: l)) with (S (length l)). cbn [put].
  rewrite get_cons, put_digit, put_high, IH by done. f_equal.
  rewrite (Z.mul_comm _ b), Z.div_add_l, Z.div_small, Z.add_0_r by lia.
  by apply Z.mod_small.
Qed.

Lemma Uint32_Put v (rest : list Z) : Uint32 (PutUint32 v ++ rest) = Int.u32 v.
Proof.
  unfold Uint32, PutUint32.
  rewrite take_app_le, take_ge by (rewrite length_put; lia).
  apply get_put.
Qed.

Lemma Uint64_Put v (rest : list Z) : Uint64 (PutUint64 v ++ rest) = Int.u64 v.
Proof.
  unfold Uint64, PutUint64.
  rewrite take_app_le, take_ge by (rewrite length_put; lia).
  apply get_put.
Qed.

End BigEndian.
