(* ===== verification/PtyRing.v ===== *)
(** The guest's per-session replay ring (internal/guest/pty/ring.go) and the
    abstract byte stream it is a window of. *)

From S2P Require Import Prelude.

Local Open Scope nat_scope.

Module PtyRing.

(** ** Data *)

(** [Range]: the half-open span [[From, To)] of stream offsets. *)
Record Range := mkRange { From : Z; To : Z }.

#[export] Instance Range_eq_dec : EqDecision Range.
Proof. solve_decision. Defined.

Definition zeroRange : Range := mkRange 0 0.

(** [Ring]. [buf] is the allocated slice, [start] and [count] are the [int]
    fields, [head] is the [uint64] offset one past the newest byte. *)
Record Ring := mkRing {
  buf : list Z;
  start : nat;
  count : nat;
  head : Z
}.

(** ** Operations *)

Definition NewRing (size : Z) : Ring :=
  let size := if (size <? 1)%Z then 1%Z else size in
  mkRing (replicate (Z.to_nat size) 0%Z) 0 0 0.

Definition Size (r : Ring) : nat := length (buf r).
Definition Head (r : Ring) : Z := head r.
Definition Tail (r : Ring) : Z := Int.u64 (head r - Z.of_nat (count r)).
Definition seek (r : Ring) (offset : Z) : Ring := mkRing (buf r) 0 0 offset.

(** [Append]: the ring after the write, the dropped range and whether bytes
    were lost. *)
Definition Append (r : Ring) (p : list Z) : Ring * Range * bool :=
  if decide (length p = 0) then (r, zeroRange, false)
  else
    let before := Tail r in
    let n := length (buf r) in
    let '(b', s', c') :=
      if decide (n ≤ length p) then
        (Slice.copy (buf r) (drop (length p - n) p), 0, n)
      else
        let e := (start r + count r) mod n in
        let k := Slice.copied (drop e (buf r)) p in
        let b1 := Slice.copy_at e (buf r) p in
        let b2 := Slice.copy b1 (drop k p) in
        if decide (n < count r + length p) then
          (b2, (start r + (count r + length p - n)) mod n, n)
        else (b2, start r, count r + length p) in
    let r' := mkRing b' s' c' (Int.u64 (head r + Z.of_nat (length p))) in
    let after := Tail r' in
    if (before <? after)%Z then (r', mkRange before after, true)
    else (r', zeroRange, false).

(** [ReadFrom]: the bytes, the next offset, the gap flag. *)
Definition ReadFrom (r : Ring) (offset : Z) : list Z * Z * bool :=
  let tail := Tail r in
  let '(offset, gap) :=
    if (offset <? tail)%Z then (tail, true) else (offset, false) in
  if (head r <=? offset)%Z then ([], head r, gap)
  else
    let out := replicate (Z.to_nat (Int.u64 (head r - offset))) 0%Z in
    let from := (start r + Z.to_nat (Int.u64 (offset - tail))) mod length (buf r) in
    let k := Slice.copied out (drop from (buf r)) in
    let out1 := Slice.copy out (drop from (buf r)) in
    let out2 := Slice.copy_at k out1 (buf r) in
    (out2, head r, gap).

(** ** Specification *)

(** The bytes a ring holds, oldest first. *)
Definition contents (r : Ring) : list Z :=
  take (count r) (drop (start r) (buf r) ++ take (start r) (buf r)).

(** [rep base s r]: the ring [r] is the window on the output stream [s] whose
    first byte has offset [base]. This is what the broker's session promises:
    the newest [Size r] bytes of everything the shell wrote. *)
Record rep (base : Z) (s : list Z) (r : Ring) : Prop := {
  rep_size : 0 < Size r;
  rep_start : start r < Size r;
  rep_base : (0 ≤ base)%Z;
  rep_bound : (base + Z.of_nat (length s) < 2 ^ 64)%Z;
  rep_head : head r = (base + Z.of_nat (length s))%Z;
  rep_count : count r = min (Size r) (length s);
  rep_contents : contents r = last_n (Size r) s
}.

(** The window of the stream [s] from absolute offset [off] on. *)
Definition from_offset (base : Z) (s : list Z) (off : Z) : list Z :=
  drop (Z.to_nat (off - base)) s.

(** ** Lemmas *)

Lemma length_contents r :
  count r ≤ Size r → start r < Size r → length (contents r) = count r.
Proof.
  unfold contents, Size. intros.
  rewrite length_take, length_app, length_drop, length_take. lia.
Qed.

Lemma lookup_contents r i :
  count r ≤ Size r → start r < Size r → i < count r →
  contents r !! i = buf r !! ((start r + i) mod Size r).
Proof.
  unfold contents, Size. intros Hc Hs Hi.
  rewrite lookup_take_lt by done.
  rewrite mod_wrap by lia. case_decide.
  - rewrite lookup_app_l by (rewrite length_drop; lia). by rewrite lookup_drop.
  - rewrite lookup_app_r by (rewrite length_drop; lia).
    rewrite length_drop, lookup_take_lt by lia. f_equal. lia.
Qed.

Lemma rep_tail base s r :
  rep base s r → Tail r = (base + Z.of_nat (length s - Size r))%Z.
Proof.
  intros [? ? ? ? Hh Hc _]. unfold Tail. rewrite Hh, Hc.
  rewrite Int.u64_small; lia.
Qed.

(** The small write: [p] lands in the circular buffer from the position after
    the newest byte. *)
Lemma lookup_append_small (b : list Z) (s c : nat) (p : list Z) j :
  let n := length b in let e := (s + c) mod n in
  let k := Slice.copied (drop e b) p in
  s < n → c ≤ n → length p < n → j < n →
  Slice.copy (Slice.copy_at e b p) (drop k p) !! j =
    if decide (e ≤ j) then
      (if decide (j - e < length p) then p !! (j - e) else b !! j)
    else (if decide (j + n - e < length p) then p !! (j + n - e) else b !! j).
Proof.
  intros n e k Hs Hc Hp Hj.
  assert (He : e < n) by (apply Nat.mod_upper_bound; lia).
  assert (Hk : k = min (n - e) (length p))
    by (unfold k, Slice.copied; rewrite length_drop; done).
  rewrite Slice.lookup_copy by (rewrite Slice.length_copy_at; done).
  rewrite length_drop, lookup_drop, Slice.lookup_copy_at by done.
  repeat case_decide; try lia; f_equal; lia.
Qed.

Lemma append_small_contents (b : list Z) (s c : nat) h (p : list Z) :
  let n := length b in
  s < n → c ≤ n → 0 < length p → length p < n →
  let e := (s + c) mod n in
  let k := Slice.copied (drop e b) p in
  let b2 := Slice.copy (Slice.copy_at e b p) (drop k p) in
  contents
    (if decide (n < c + length p)
     then mkRing b2 ((s + (c + length p - n)) mod n) n h
     else mkRing b2 s (c + length p) h)
  = last_n n (contents (mkRing b s c h) ++ p).
Proof.
  intros n Hs Hc Hp0 Hp e k b2.
  assert (Hlb2 : length b2 = n)
    by (unfold b2; rewrite Slice.length_copy, Slice.length_copy_at; done).
  assert (Hlen : length (contents (mkRing b s c h)) = c)
    by (apply length_contents; unfold Size; simpl; lia).
  assert (Hlhs : ∀ j, j < n → b2 !! j = _)
    by (intros j Hj; apply lookup_append_small; done).
  fold n e in Hlhs.
  assert (He : s + c < n ∧ e = s + c ∨ n ≤ s + c ∧ e = s + c - n).
  { unfold e. rewrite mod_wrap by lia. case_decide; lia. }
  clearbody e b2. clear k.
  set (r' := if decide _ then _ else _).
  assert (Hr' : count r' = min n (c + length p) ∧ Size r' = n ∧ start r' < n ∧
    ∀ i, i < count r' → let i' := c + length p - n + i in
      (start r' + i) mod n = (s + i') mod n ∧ buf r' = b2).
  { unfold r', Size. case_decide; simpl; (split; [lia|]); (split; [done|]).
    - split; [apply Nat.mod_upper_bound; lia|]. intros i Hi.
      rewrite Nat.Div0.add_mod_idemp_l. split; [f_equal; lia|done].
    - split; [lia|]. intros i Hi. split; [f_equal; lia|done]. }
  destruct Hr' as (Hc' & Hn' & Hs' & Hi'). clearbody r'.
  apply list_eq_same_length with (n := min n (c + length p)).
  - rewrite length_last_n, length_app, Hlen. lia.
  - rewrite length_contents; lia.
  - intros i x y Hi Hx Hy. rewrite <- Hc' in Hi.
    destruct (Hi' i Hi) as [Hm Hb].
    rewrite lookup_contents, Hn', Hm, Hb in Hx by lia.
    unfold last_n in Hy. rewrite lookup_drop, length_app, Hlen in Hy.
    rewrite Hlhs in Hx by (apply Nat.mod_upper_bound; lia).
    assert (Hlt : c + length p - n ≤ c + length p - n + i < c + length p) by lia.
    revert Hx Hy Hlt. generalize (c + length p - n + i) as i'. intros i' Hx Hy Hlt.
    destruct (decide (i' < c)).
    + rewrite lookup_app_l, lookup_contents in Hy by (unfold Size; simpl; lia).
      unfold Size in Hy; simpl in Hy; fold n in Hy.
      rewrite mod_wrap in Hx, Hy by lia.
      repeat case_decide; try lia; congruence.
    + rewrite lookup_app_r in Hy by lia. rewrite Hlen in Hy.
      replace ((s + i') mod n) with ((e + (i' - c)) mod n) in Hx.
      2: { destruct He as [[? ->]|[? ->]]; [f_equal; lia|].
           rewrite <- (Nat.Div0.mod_add (s + c - n + (i' - c)) 1 n). f_equal; lia. }
      rewrite mod_wrap in Hx by lia.
      repeat case_decide; try lia;
        match type of Hx with p !! ?j = _ => replace j with (i' - c) in Hx by lia end;
        congruence.
Qed.

Lemma last_n_app_window {A} n (s p : list A) :
  last_n n (last_n n s ++ p) = last_n n (s ++ p).
Proof.
  unfold last_n. rewrite !length_app, length_drop.
  rewrite <- drop_app_le by lia. rewrite drop_drop. f_equal. lia.
Qed.

Lemma rep_NewRing size base :
  (0 ≤ base < 2 ^ 64)%Z → rep base [] (seek (NewRing size) base).
Proof.
  intros. unfold NewRing.
  assert (0 < Z.to_nat (if (size <? 1)%Z then 1 else size)) by (case_match; lia).
  split; unfold seek, Size, contents; simpl; rewrite ?length_replicate; try lia.
  done.
Qed.

(** The ring a write leaves, without the loss report. *)
Definition append_ring (r : Ring) (p : list Z) : Ring := (Append r p).1.1.

Lemma append_ring_rep base s r p :
  rep base s r → (base + Z.of_nat (length s + length p) < 2 ^ 64)%Z →
  rep base (s ++ p) (append_ring r p) ∧ Size (append_ring r p) = Size r.
Proof.
  intros Hrep Hb. pose proof Hrep as [Hsz Hst Hb0 _ Hh Hc Hcont].
  unfold append_ring, Append. case_decide as Hp.
  { simpl. destruct p; [|done]. by rewrite app_nil_r. }
  set (n := length (buf r)).
  pose proof (append_small_contents (buf r) (start r) (count r)
    (Int.u64 (head r + Z.of_nat (length p))) p) as Hsmall.
  cbv zeta in Hsmall. fold n in Hsmall.
  unfold Size in Hsz, Hst. fold n in Hsz, Hst.
  assert (Hcn : count r ≤ n) by (rewrite Hc; unfold Size, n; lia).
  assert (Hheads : Int.u64 (head r + Z.of_nat (length p)) =
    (base + Z.of_nat (length (s ++ p)))%Z).
  { rewrite Hh, length_app, Int.u64_small; lia. }
  destruct (decide (n ≤ length p)) as [Hbig|Hbig].
  - assert (Hcopy : Slice.copy (buf r) (drop (length p - n) p) = last_n n p).
    { rewrite Slice.copy_ge; [|rewrite length_drop; fold n; lia].
      fold n. rewrite take_ge; [done|rewrite length_drop; lia]. }
    match goal with |- context [mkRing _ _ _ _] =>
      set (r' := mkRing _ _ _ _); assert (Hgoal : rep base (s ++ p) r' ∧ Size r' = n) end.
    { unfold r', Size. rewrite Hcopy. split.
      - split; unfold Size, contents; simpl;
          rewrite ?length_last_n, ?length_app; try lia; [by rewrite Hheads, length_app|].
        rewrite drop_0, app_nil_r, take_ge by (rewrite length_last_n; lia).
        rewrite min_l by lia.
        unfold last_n. rewrite length_app, drop_app_ge by lia. f_equal; lia.
      - simpl. rewrite length_last_n. lia. }
    destruct (_ <? _)%Z; exact Hgoal.
  - specialize (Hsmall ltac:(lia) ltac:(lia) ltac:(lia) ltac:(lia)).
    set (b2 := Slice.copy _ _) in *.
    assert (Hlb2 : length b2 = n)
      by (unfold b2; rewrite Slice.length_copy, Slice.length_copy_at; done).
    assert (Hold : contents {| buf := buf r; start := start r; count := count r;
        head := Int.u64 (head r + Z.of_nat (length p)) |} = last_n n s)
      by (exact Hcont).
    rewrite Hold, last_n_app_window in Hsmall.
    case_decide as Hover; match goal with |- context [mkRing ?b ?st ?c ?h] =>
      assert (Hgoal : rep base (s ++ p) (mkRing b st c h) ∧ Size (mkRing b st c h) = n) end;
      try (destruct (_ <? _)%Z; exact Hgoal).
    all: rewrite Hc in *; unfold Size in *; fold n in Hover, Hsmall |- *; simpl;
      rewrite ?Hlb2; split; [split; unfold Size; simpl; rewrite ?Hlb2, ?length_app; try lia|done].
    + apply Nat.mod_upper_bound; lia.
    + by rewrite Hheads, length_app.
    + exact Hsmall.
    + by rewrite Hheads, length_app.
    + exact Hsmall.
Qed.

(** The loss report of a write is the movement of the tail. *)
Lemma append_report r p :
  let r' := append_ring r p in
  (Append r p).1.2 = (if (Append r p).2 then mkRange (Tail r) (Tail r') else zeroRange) ∧
  ((Append r p).2 = true ↔ (Tail r < Tail r')%Z).
Proof.
  unfold append_ring, Append. case_decide; simpl.
  - split; [done|]. split; [done|lia].
  - repeat case_match; simplify_eq/=; split; try done; split; try done; lia.
Qed.

(** The circular read that [ReadFrom] performs. *)
Lemma read_wrapped (b : list Z) (from m : nat) :
  let n := length b in
  from < n → m ≤ n →
  let out := replicate m 0%Z in
  let k := Slice.copied out (drop from b) in
  Slice.copy_at k (Slice.copy out (drop from b)) b
  = take m (drop from b ++ take from b).
Proof.
  intros n Hf Hm out k.
  assert (Hlo : length out = m) by apply length_replicate.
  assert (Hk : k = min m (n - from))
    by (unfold k, Slice.copied; rewrite length_drop, Hlo; done).
  apply list_eq_same_length with (n := m).
  - rewrite length_take, length_app, length_drop, length_take. lia.
  - by rewrite Slice.length_copy_at, Slice.length_copy.
  - intros i x y Hi Hx Hy.
    rewrite Slice.lookup_copy_at in Hx by (rewrite Slice.length_copy; lia).
    rewrite lookup_take_lt in Hy by done.
    case_decide.
    + rewrite lookup_app_r in Hy by (rewrite length_drop; lia).
      rewrite length_drop, lookup_take_lt in Hy by lia.
      replace (i - k) with (i - (length b - from)) in Hx by lia. congruence.
    + rewrite Slice.lookup_copy in Hx by lia.
      rewrite length_drop, decide_True in Hx by lia.
      rewrite lookup_app_l in Hy by (rewrite length_drop; lia). congruence.
Qed.

Lemma contents_drop r d :
  count r ≤ Size r → start r < Size r → d < count r →
  let from := (start r + d) mod Size r in
  take (count r - d) (drop from (buf r) ++ take from (buf r)) = drop d (contents r).
Proof.
  intros Hc Hs Hd from.
  assert (from < Size r) by (apply Nat.mod_upper_bound; lia).
  set (r2 := mkRing (buf r) from (count r - d) (head r)).
  change (take _ _) with (contents r2).
  apply list_eq_same_length with (n := count r - d).
  - rewrite length_drop, length_contents; lia.
  - rewrite length_contents; unfold r2, Size in *; simpl; lia.
  - intros i x y Hi Hx Hy. rewrite lookup_drop in Hy.
    rewrite lookup_contents in Hy by lia.
    rewrite lookup_contents in Hx by (unfold r2, Size in *; simpl; lia).
    unfold r2, Size in Hx; simpl in Hx. unfold from, Size in Hx.
    rewrite Nat.Div0.add_mod_idemp_l in Hx.
    unfold Size in Hy. rewrite Nat.add_assoc in Hy. congruence.
Qed.

(** ** Properties *)

(** [Append] refines the abstract stream. If the ring is the window on a
    stream [s] that starts at offset [base], then after [Append p] it is the
    window (of the same capacity) on [s ++ p]; bytes are reported lost exactly
    when some offset at or after the old tail is below the new tail, and the
    reported range holds exactly those offsets. *)
Theorem Append_refines base s r p :
  rep base s r → (base + Z.of_nat (length s + length p) < 2 ^ 64)%Z →
  let '(r', dropped, lost) := Append r p in
  rep base (s ++ p) r' ∧ Size r' = Size r ∧
  (∀ o, (From dropped ≤ o < To dropped)%Z ↔ (Tail r ≤ o < Tail r')%Z) ∧
  (lost = true ↔ ∃ o, (Tail r ≤ o < Tail r')%Z).
Proof.
  intros Hrep Hb. destruct (append_ring_rep _ _ _ p Hrep Hb) as [Hrep' Hsz].
  destruct (append_report r p) as [Hd Hl].
  unfold append_ring in *. destruct (Append r p) as [[r' d] lost]. simpl in *.
  split; [done|]. split; [done|]. split.
  - intros o. rewrite Hd. destruct lost; simpl; [done|].
    assert (¬ (Tail r < Tail r')%Z) by (rewrite <- Hl; done). lia.
  - rewrite Hl. split; [intros; exists (Tail r); lia|intros [o ?]; lia].
Qed.

(** What a read from [off] returns: the stream from [off], or from the tail
    when [off] is older than anything held, with the gap flag telling which. *)
Lemma ReadFrom_rep base s r off :
  rep base s r → (0 ≤ off < 2 ^ 64)%Z →
  ReadFrom r off =
    (from_offset base s (Z.max off (Tail r)), head r, bool_decide (off < Tail r)%Z).
Proof.
  intros Hrep Hoff. pose proof (rep_tail _ _ _ Hrep) as Ht.
  pose proof Hrep as [Hsz Hst Hb0 Hbd Hh Hc Hcont].
  unfold ReadFrom. set (off' := Z.max off (Tail r)).
  assert (E : (if (off <? Tail r)%Z then (Tail r, true) else (off, false))
    = (off', bool_decide (off < Tail r)%Z)).
  { unfold off'. destruct (Z.ltb_spec off (Tail r)).
    - rewrite bool_decide_eq_true_2 by done. f_equal; lia.
    - rewrite bool_decide_eq_false_2 by lia. f_equal; lia. }
  rewrite E. clear E.
  destruct (Z.leb_spec (head r) off') as [Hge|Hlt].
  - unfold from_offset. rewrite drop_ge by lia. done.
  - assert (Hd : Z.to_nat (off' - Tail r) < count r) by lia.
    rewrite !Int.u64_small by lia. fold (Size r).
    rewrite read_wrapped; fold (Size r); [|apply Nat.mod_upper_bound; lia|lia].
    replace (Z.to_nat (head r - off')) with (count r - Z.to_nat (off' - Tail r)) by lia.
    rewrite contents_drop by (rewrite ?Hc; lia).
    rewrite Hcont. unfold from_offset, last_n. rewrite drop_drop.
    do 3 f_equal. lia.
Qed.

(** [ReadFrom] returns exactly the bytes of the stream from the requested
    offset to the head. An offset older than the tail resumes at the tail and
    sets the gap flag, so [next - len(b)] is where the read resumed; an offset
    at or past the head returns nothing and is not a gap. *)
Theorem ReadFrom_exact base s r off :
  rep base s r → (0 ≤ off < 2 ^ 64)%Z →
  let '(b, next, gap) := ReadFrom r off in
  next = (base + Z.of_nat (length s))%Z ∧
  (gap = true ↔ (off < Tail r)%Z) ∧
  (off ≤ next → next - Z.of_nat (length b) = Z.max off (Tail r))%Z ∧
  b = from_offset base s (Z.max off (Tail r)) ∧
  (next ≤ off → b = [] ∧ gap = false)%Z.
Proof.
  intros Hrep Hoff. rewrite (ReadFrom_rep base s) by done.
  pose proof (rep_tail _ _ _ Hrep) as Ht.
  pose proof Hrep as [Hsz Hst Hb0 Hbd Hh Hc Hcont].
  split; [done|]. split; [apply bool_decide_eq_true|].
  split; [unfold from_offset; rewrite length_drop; lia|]. split; [done|].
  intros. split; [apply drop_ge; lia|apply bool_decide_eq_false_2; lia].
Qed.

(** ** Witnesses *)

Definition ring_ex : Ring := append_ring (NewRing 4) [1; 2; 3]%Z.

Lemma ring_ex_rep : rep 0 [1; 2; 3]%Z ring_ex.
Proof.
  apply (append_ring_rep 0 [] (NewRing 4)); [apply (rep_NewRing 4 0); lia|simpl; lia].
Qed.

Lemma Append_refines_witness :
  Append ring_ex [4; 5; 6]%Z
    = (mkRing [5; 6; 3; 4]%Z 2 4 6, mkRange 0 2, true) ∧
  rep 0 [1; 2; 3; 4; 5; 6]%Z (mkRing [5; 6; 3; 4]%Z 2 4 6).
Proof.
  split; [reflexivity|].
  pose proof (Append_refines 0 [1; 2; 3]%Z ring_ex [4; 5; 6]%Z ring_ex_rep
    ltac:(simpl; lia)) as H.
  exact (proj1 H).
Defined.

Lemma ReadFrom_exact_witness :
  ReadFrom (append_ring ring_ex [4; 5; 6]%Z) 1 = ([3; 4; 5; 6]%Z, 6%Z, true) ∧
  from_offset 0 [1; 2; 3]%Z 1 = [2; 3]%Z.
Proof.
  split; [reflexivity|].
  pose proof (ReadFrom_exact 0 [1; 2; 3]%Z ring_ex 1 ring_ex_rep ltac:(lia)) as H.
  destruct H as (_ & _ & _ & H & _). exact (eq_sym H).
Defined.

End PtyRing.
