(* ===== verification/Wire.v ===== *)
(** Wire formats: the guest channel frames (internal/guest/proto/frame.go) and
    the privd message framing (internal/privd/proto.go). A connection is the
    list of bytes still to be read; a writer is the list of bytes it put on the
    connection. *)

From S2P Require Import Prelude.

Local Open Scope nat_scope.

(** [io.ReadFull]: exactly [n] bytes, or an error that tells an end of input
    before the first byte from one in the middle. *)
Inductive ReadErr := EOF | UnexpectedEOF.

Definition ReadFull (n : nat) (r : list Z) : result ReadErr (list Z * list Z) :=
  if decide (n ≤ length r) then Ok (take n r, drop n r)
  else if decide (length r = 0) then Err EOF else Err UnexpectedEOF.

Lemma ReadFull_app (l r : list Z) : ReadFull (length l) (l ++ r) = Ok (l, r).
Proof.
  unfold ReadFull. rewrite decide_True by (rewrite length_app; lia).
  by rewrite take_app_length, drop_app_length.
Qed.

Lemma ReadFull_Ok n r l r' :
  ReadFull n r = Ok (l, r') → r = l ++ r' ∧ length l = n.
Proof.
  unfold ReadFull. repeat case_decide; intros [= <- <-].
  rewrite take_drop, length_take. split; [done|lia].
Qed.

Lemma ReadFull_short n r : length r < n → is_ok (ReadFull n r) = false.
Proof. intros. unfold ReadFull. rewrite decide_False by lia. by case_decide. Qed.

Module Frame.

Definition FrameControl : Z := 0x01.
Definition FramePTY : Z := 0x02.
Definition FrameArtifact : Z := 0x03.

Definition MaxControlFrame : Z := Z.shiftl 1 20.
Definition MaxBinaryFrame : Z := Z.shiftl 256 10.

Inductive FrameErr :=
  | ErrUnknownType (typ : Z)
  | ErrLength (len max typ : Z)
  | ErrReadHeader (e : ReadErr)
  | ErrReadPayload (e : ReadErr).

(** [maxLen]: 0 for an unknown type. *)
Definition maxLen (typ : Z) : Z :=
  if (typ =? FrameControl)%Z then MaxControlFrame
  else if (typ =? FramePTY)%Z || (typ =? FrameArtifact)%Z then MaxBinaryFrame
  else 0%Z.

(** [WriteFrame]: the bytes written. The length test is made on
    [uint32(len(payload))], the header carries the same truncation. *)
Definition WriteFrame (typ : Z) (payload : list Z) : result FrameErr (list Z) :=
  let max := maxLen typ in
  if (max =? 0)%Z then Err (ErrUnknownType typ)
  else
    let len := Z.of_nat (length payload) in
    if (max <? Int.u32 len)%Z then Err (ErrLength len max typ)
    else Ok (typ :: BigEndian.PutUint32 (Int.u32 len) ++ payload).

(** [ReadFrame]: the frame and the rest of the input. *)
Definition ReadFrame (r : list Z) : result FrameErr (Z * list Z * list Z) :=
  match ReadFull 5 r with
  | Err e => Err (ErrReadHeader e)
  | Ok (hdr, r1) =>
    let typ := hd 0%Z hdr in
    let max := maxLen typ in
    if (max =? 0)%Z then Err (ErrUnknownType typ)
    else
      let length := BigEndian.Uint32 (drop 1 hdr) in
      if (max <? length)%Z then Err (ErrLength length max typ)
      else if (length =? 0)%Z then Ok (typ, [], r1)
      else
        match ReadFull (Z.to_nat length) r1 with
        | Err e => Err (ErrReadPayload e)
        | Ok (payload, r2) => Ok (typ, payload, r2)
        end
  end.

(** The size of the buffer [ReadFrame] allocates for the payload. *)
Definition alloc (r : list Z) : Z :=
  match ReadFull 5 r with
  | Err _ => 0
  | Ok (hdr, _) =>
    let max := maxLen (hd 0%Z hdr) in
    let length := BigEndian.Uint32 (drop 1 hdr) in
    if (max =? 0)%Z || (max <? length)%Z then 0 else length
  end%Z.

(** The sequence of frames a reader sees, until the first error. *)
Fixpoint read_all (fuel : nat) (r : list Z) : list (Z * list Z) * FrameErr :=
  match fuel with
  | 0 => ([], ErrReadHeader EOF)
  | S fuel =>
    match ReadFrame r with
    | Err e => ([], e)
    | Ok (typ, payload, r') =>
      let '(fs, e) := read_all fuel r' in ((typ, payload) :: fs, e)
    end
  end.

(** A frame within the limits its writer is meant to enforce. *)
Definition frame_ok (f : Z * list Z) : Prop :=
  (0 < maxLen f.1 ∧ Z.of_nat (length f.2) ≤ maxLen f.1)%Z.

#[export] Instance frame_ok_dec f : Decision (frame_ok f).
Proof. unfold frame_ok. apply _. Defined.

Definition encode (f : Z * list Z) : list Z :=
  f.1 :: BigEndian.PutUint32 (Z.of_nat (length f.2)) ++ f.2.

Lemma maxLen_range typ : (0 ≤ maxLen typ ≤ MaxControlFrame)%Z.
Proof. unfold maxLen. repeat case_match; vm_compute; split; congruence. Qed.

Lemma frame_ok_len f : frame_ok f → (Z.of_nat (length f.2) < 2 ^ 32)%Z.
Proof.
  intros [_ H]. pose proof (maxLen_range f.1).
  change MaxControlFrame with 1048576%Z in *. lia.
Qed.

Lemma WriteFrame_encode f : frame_ok f → WriteFrame f.1 f.2 = Ok (encode f).
Proof.
  intros Hf. pose proof (frame_ok_len f Hf). destruct Hf as [H0 Hm].
  unfold WriteFrame, encode. rewrite Int.u32_small by lia.
  by rewrite (proj2 (Z.eqb_neq _ _)), (proj2 (Z.ltb_ge _ _)) by lia.
Qed.

Lemma ReadFrame_header typ len (r : list Z) :
  (0 ≤ len < 2 ^ 32)%Z →
  ReadFrame (typ :: BigEndian.PutUint32 len ++ r) =
    (if (maxLen typ =? 0)%Z then Err (ErrUnknownType typ)
     else if (maxLen typ <? len)%Z then Err (ErrLength len (maxLen typ) typ)
     else if (len =? 0)%Z then Ok (typ, [], r)
     else match ReadFull (Z.to_nat len) r with
          | Err e => Err (ErrReadPayload e)
          | Ok (payload, r2) => Ok (typ, payload, r2)
          end).
Proof.
  intros Hlen. unfold ReadFrame.
  change (typ :: _ ++ r) with ((typ :: BigEndian.PutUint32 len) ++ r).
  change 5 with (length (typ :: BigEndian.PutUint32 len)) at 1.
  rewrite ReadFull_app. cbv zeta. change (hd 0%Z _) with typ.
  change (drop 1 _) with (BigEndian.PutUint32 len).
  rewrite <- (app_nil_r (BigEndian.PutUint32 len)), BigEndian.Uint32_Put.
  by rewrite Int.u32_small.
Qed.

Lemma ReadFrame_encode f (r : list Z) :
  frame_ok f → ReadFrame (encode f ++ r) = Ok (f.1, f.2, r).
Proof.
  intros Hf. pose proof (frame_ok_len f Hf). destruct Hf as [H0 Hm].
  unfold encode. change ((?x :: ?l) ++ r) with (x :: (l ++ r)).
  rewrite <- (assoc_L (++)), ReadFrame_header by lia.
  rewrite (proj2 (Z.eqb_neq _ _)), (proj2 (Z.ltb_ge _ _)) by lia.
  destruct (Z.eqb_spec (Z.of_nat (length f.2)) 0).
  - destruct f as [t [|x p]]; [done|simpl in *; lia].
  - by rewrite Nat2Z.id, ReadFull_app.
Qed.

Lemma take_encode_short f k :
  frame_ok f → k < length (encode f) → is_ok (ReadFrame (take k (encode f))) = false.
Proof.
  intros Hf Hk. pose proof (frame_ok_len f Hf). destruct Hf as [H0 Hm].
  unfold encode in *. cbn [length] in Hk. rewrite length_app in Hk.
  change (length (BigEndian.PutUint32 _)) with 4 in Hk.
  destruct (decide (k < 5)).
  { unfold ReadFrame.
    assert (Hs := ReadFull_short 5 (take k (encode f))
      ltac:(rewrite length_take; lia)).
    unfold encode in Hs. destruct (ReadFull 5 _); done. }
  replace k with (S (4 + (k - 5))) by lia. rewrite firstn_cons.
  change 4 with (length (BigEndian.PutUint32 (Z.of_nat (length f.2)))) at 1.
  rewrite take_app_add, ReadFrame_header by lia.
  repeat (case_match; [done|]).
  pose proof (ReadFull_short (Z.to_nat (Z.of_nat (length f.2))) (take (k - 5) f.2)
    ltac:(rewrite length_take; lia)) as Hs.
  destruct (Z.eqb_spec (Z.of_nat (length f.2)) 0); [lia|].
  by destruct (ReadFull _ _).
Qed.

Lemma read_all_encode fs fuel :
  Forall frame_ok fs → length fs < fuel →
  read_all fuel (concat (encode <$> fs)) = (fs, ErrReadHeader EOF).
Proof.
  intros Hfs. revert fuel. induction Hfs as [|f fs Hf Hfs IH]; intros [|fuel] Hfuel;
    simpl in Hfuel; try lia; [done|].
  rewrite fmap_cons. cbn [concat read_all].
  rewrite ReadFrame_encode, IH by (done || lia). by destruct f.
Qed.

(** C33: the guest channel carries frames faithfully. Frames of known types and
    within their type's limit are accepted by [WriteFrame], and a reader of the
    concatenated bytes sees exactly those frames, in order, and then a clean end
    of input; a connection cut inside a frame never yields that frame. *)
Theorem frames_roundtrip fs fuel :
  Forall frame_ok fs → length fs < fuel →
  Forall (λ f, WriteFrame f.1 f.2 = Ok (encode f)) fs ∧
  read_all fuel (concat (encode <$> fs)) = (fs, ErrReadHeader EOF) ∧
  ∀ f k, f ∈ fs → k < length (encode f) →
    is_ok (ReadFrame (take k (encode f))) = false.
Proof.
  intros Hfs Hfuel. split; [|split].
  - eapply Forall_impl; [done|]. intros f Hf. by apply WriteFrame_encode.
  - by apply read_all_encode.
  - intros f k Hin. apply take_encode_short.
    rewrite Forall_forall in Hfs. by apply Hfs.
Qed.

(** a hostile length field cannot make the reader allocate: whatever the
    bytes, the payload buffer is at most the frame type's maximum (1 MiB), and
    every frame returned is one the limits allow, is a prefix of the input,
    and is within those bytes. *)
Theorem ReadFrame_bounded r :
  is_bytes r →
  (0 ≤ alloc r ≤ MaxControlFrame)%Z ∧
  ∀ typ payload r', ReadFrame r = Ok (typ, payload, r') →
    frame_ok (typ, payload) ∧ alloc r = Z.of_nat (length payload) ∧
    r = encode (typ, payload) ++ r'.
Proof.
  intros Hb. unfold alloc, ReadFrame.
  destruct (ReadFull 5 r) as [[hdr r1]|] eqn:E; [|by split; [vm_compute; split; congruence|]].
  apply ReadFull_Ok in E as [-> H5].
  destruct hdr as [|typ [|b0 [|b1 [|b2 [|b3 [|? ?]]]]]]; try discriminate H5.
  apply Forall_app in Hb as [Hh _]. apply Forall_cons in Hh as [_ Hh].
  simpl hd. change (drop 1 _) with [b0; b1; b2; b3].
  pose proof (BigEndian.get_range [b0; b1; b2; b3] Hh) as Hr.
  unfold BigEndian.Uint32. change (take 4 _) with [b0; b1; b2; b3].
  set (len := BigEndian.get _) in *. pose proof (maxLen_range typ).
  assert (Hput : BigEndian.PutUint32 len = [b0; b1; b2; b3])
    by exact (BigEndian.put_get [b0; b1; b2; b3] Hh).
  destruct (Z.eqb_spec (maxLen typ) 0); simpl; [by split; [lia|]|].
  destruct (Z.ltb_spec (maxLen typ) len); [by split; [lia|]|].
  split; [lia|]. intros t p r' Hok. 
  destruct (Z.eqb_spec len 0) as [Hz|].
  - injection Hok as <- <- <-. unfold frame_ok, encode; simpl.
    split; [lia|]. split; [lia|].
    rewrite Hz in Hput. vm_compute in Hput. by injection Hput as <- <- <- <-.
  - destruct (ReadFull (Z.to_nat len) r1) as [[p1 r2]|] eqn:E; [|done].
    injection Hok as <- <- <-. apply ReadFull_Ok in E as [-> Hl].
    unfold frame_ok, encode; cbn [fst snd]. split; [lia|]. split; [lia|].
    replace (Z.of_nat (length p1)) with len by lia.
    change (typ :: [b0; b1; b2; b3] ++ p1 ++ r2
      = typ :: BigEndian.PutUint32 len ++ p1 ++ r2).
    by rewrite Hput.
Qed.

(** the size check of [WriteFrame] is made on the length truncated to 32
    bits. A payload of 2^32 bytes or more whose truncated length is within the
    limit is accepted, and the reader then sees a frame of the truncated length:
    the rest of the payload is read as frames. *)
Theorem WriteFrame_truncates typ payload :
  let len := Z.of_nat (length payload) in
  (0 < maxLen typ)%Z → (2 ^ 32 ≤ len)%Z → (len mod 2 ^ 32 ≤ maxLen typ)%Z →
  let n := Z.to_nat (len mod 2 ^ 32) in
  ∃ w, WriteFrame typ payload = Ok w ∧
    ReadFrame w = Ok (typ, take n payload, drop n payload) ∧
    drop n payload ≠ [].
Proof.
  intros len H0 Hlen Hmod n. unfold WriteFrame. fold len.
  rewrite (proj2 (Z.eqb_neq _ _)), (proj2 (Z.ltb_ge _ _)) by (unfold Int.u32; lia).
  eexists; split; [done|].
  pose proof (Z.mod_pos_bound len (2 ^ 32)).
  assert (Hn : n < length payload) by lia. split.
  - assert (Hf : frame_ok (typ, take n payload))
      by (unfold frame_ok; simpl; rewrite length_take; lia).
    assert (El : Z.of_nat (length (take n payload)) = Int.u32 len)
      by (rewrite length_take; unfold Int.u32; lia).
    rewrite <- (ReadFrame_encode (typ, take n payload)) by done.
    f_equal. unfold encode; simpl fst; simpl snd. rewrite El.
    cbn [app]. rewrite <- (assoc_L (++)), take_drop. done.
  - intros E. apply (f_equal length) in E. rewrite length_drop in E. simpl in E. lia.
Qed.

Lemma frames_roundtrip_witness :
  read_all 3 (concat (encode <$> [(FramePTY, [7; 8]%Z); (FrameControl, [])]))
    = ([(FramePTY, [7; 8]%Z); (FrameControl, [])], ErrReadHeader EOF) ∧
  is_ok (ReadFrame [2; 0; 0; 0; 2; 7]%Z) = false.
Proof.
  split.
  - apply (frames_roundtrip [(FramePTY, [7; 8]%Z); (FrameControl, [])] 3).
    + repeat constructor; vm_compute; congruence.
    + simpl; lia.
  - vm_compute. reflexivity.
Defined.

Lemma ReadFrame_bounded_witness :
  alloc [1; 255; 255; 255; 255; 0]%Z = 0%Z ∧
  [2; 0; 0; 0; 1; 9; 4]%Z = encode (FramePTY, [9]%Z) ++ [4]%Z.
Proof.
  split; [reflexivity|].
  assert (H : is_bytes [2; 0; 0; 0; 1; 9; 4]%Z)
    by (repeat constructor; vm_compute; congruence).
  destruct (ReadFrame_bounded _ H) as [_ H2].
  exact (proj2 (proj2 (H2 FramePTY [9]%Z [4]%Z eq_refl))).
Defined.

Lemma WriteFrame_truncates_witness :
  ∃ w, WriteFrame FrameControl (replicate (Z.to_nat (2 ^ 32)) 7%Z) = Ok w ∧
    ∃ rest, ReadFrame w = Ok (FrameControl, [], rest) ∧ rest ≠ [].
Proof.
  pose proof (WriteFrame_truncates FrameControl (replicate (Z.to_nat (2 ^ 32)) 7%Z)) as H.
  cbv zeta in H. rewrite length_replicate, Z2Nat.id in H by lia.
  change (2 ^ 32 mod 2 ^ 32)%Z with 0%Z in H.
  destruct H as (w & Hw & Hr & Hd); [reflexivity|lia|vm_compute; congruence|].
  exists w. split; [exact Hw|]. eexists. split; [exact Hr|exact Hd].
Defined.

End Frame.

(** ** privd messages *)

Module PrivdMsg.

Definition MaxMsgBytes : Z := (64 * 1024)%Z.

Inductive MsgErr :=
  | ErrMarshal
  | ErrTooLarge (n : Z)
  | ErrReadPrefix (e : ReadErr)
  | ErrReadBody (e : ReadErr)
  | ErrDecode.

(** The JSON codec of the message type is a parameter. *)
Section msg.
Context {T : Type} (marshal : T → option (list Z)) (unmarshal : list Z → option T).

Definition WriteMsg (v : T) : result MsgErr (list Z) :=
  match marshal v with
  | None => Err ErrMarshal
  | Some body =>
    let n := Z.of_nat (length body) in
    if (MaxMsgBytes <? n)%Z then Err (ErrTooLarge n)
    else Ok (BigEndian.PutUint32 (Int.u32 n) ++ body)
  end.

Definition ReadMsg (r : list Z) : result MsgErr (T * list Z) :=
  match ReadFull 4 r with
  | Err e => Err (ErrReadPrefix e)
  | Ok (prefix, r1) =>
    let n := BigEndian.Uint32 prefix in
    if (MaxMsgBytes <? n)%Z then Err (ErrTooLarge n)
    else
      match ReadFull (Z.to_nat n) r1 with
      | Err e => Err (ErrReadBody e)
      | Ok (body, r2) =>
        match unmarshal body with
        | None => Err ErrDecode
        | Some v => Ok (v, r2)
        end
      end
  end.

(** a privd message that [WriteMsg] accepts is read back by [ReadMsg] as
    the same value, leaving the rest of the connection untouched, provided the
    JSON codec decodes what it encodes; and what it writes never exceeds the
    64 KiB body limit plus the four prefix bytes. *)
Theorem WriteMsg_ReadMsg v w rest :
  (∀ x b, marshal x = Some b → unmarshal b = Some x) →
  WriteMsg v = Ok w →
  ReadMsg (w ++ rest) = Ok (v, rest) ∧ (Z.of_nat (length w) ≤ MaxMsgBytes + 4)%Z.
Proof.
  intros Hcodec. unfold WriteMsg.
  destruct (marshal v) as [body|] eqn:Em; [|done].
  destruct (Z.ltb_spec MaxMsgBytes (Z.of_nat (length body))) as [|Hle]; [done|].
  intros Hw. assert (Z.of_nat (length body) < 2 ^ 32)%Z
    by (unfold MaxMsgBytes in Hle; lia).
  rewrite Int.u32_small in Hw by lia.
  assert (w = BigEndian.PutUint32 (Z.of_nat (length body)) ++ body) as -> by congruence.
  clear Hw. split.
  - unfold ReadMsg. rewrite <- (assoc_L (++)).
    set (P := BigEndian.PutUint32 _).
    change 4 with (length P). rewrite ReadFull_app. unfold P.
    rewrite <- (app_nil_r (BigEndian.PutUint32 _)), BigEndian.Uint32_Put.
    rewrite Int.u32_small, (proj2 (Z.ltb_ge _ _)), Nat2Z.id, ReadFull_app by lia.
    by rewrite (Hcodec _ _ Em).
  - rewrite length_app. change (length (BigEndian.PutUint32 _)) with 4. lia.
Qed.

End msg.

(** A codec for the message type [list Z] that is its own encoding. *)
Lemma WriteMsg_ReadMsg_witness :
  ReadMsg Some ([0; 0; 0; 2; 5; 6; 9]%Z) = Ok ([5; 6]%Z, [9]%Z).
Proof.
  apply (WriteMsg_ReadMsg Some Some [5; 6]%Z [0; 0; 0; 2; 5; 6]%Z [9]%Z).
  - intros x b H. congruence.
  - reflexivity.
Defined.

End PrivdMsg.
