(* ===== verification/PtySession.v ===== *)
(** Guest terminal sessions: the PTY broker (internal/guest/pty/broker.go) and
    the stream pumps above it (internal/guest/terminal.go, the admission rule of
    internal/guest/agent.go).

    A session's process, terminal and clock are the operating system's: what
    they answer is an argument of the operation that asks. Everything a session
    keeps under its mutex is in [Session]; the bytes the terminal accepted are
    recorded in [typed], the ghost stream of everything it produced is an index
    of the representation predicate [PtyRing.rep]. *)

From S2P Require Import Prelude PtyRing Wire.

Local Open Scope nat_scope.

Module PtySession.
Import PtyRing.

(** ** Data *)

Definition MinRingBytes : Z := Z.shiftl 4 10.
Definition DefaultRingBytes : Z := Z.shiftl 256 10.
Definition MaxRingBytes : Z := Z.shiftl 4 20.
Definition readChunk : nat := Z.to_nat (Z.shiftl 32 10).
Definition streamChunk : nat := Z.to_nat (Z.shiftl 32 10).
Definition guestPath : string :=
  "/usr/local/sbin:/usr/local/bin:/usr/sbin:/usr/bin:/sbin:/bin".

(** The broker's error values; [ErrOS] stands for a failed system call. *)
Inductive PtyErr :=
  | ErrArgvInvalid
  | ErrSessionExists
  | ErrUnknownSession
  | ErrSessionExited
  | ErrUserUnknown
  | ErrOffsetAhead
  | ErrResize
  | ErrOS.

Record SessionSpec := mkSpec {
  SessionID : string;
  User : string;
  Cwd : string;
  Argv : list string;
  Term : string;
  Rows : Z;
  Cols : Z;
  RingBytes : Z
}.

Record ExitStatus := mkExitStatus {
  Code : option Z;
  Signal : string;
  Reason : string
}.

Definition noStatus : ExitStatus := mkExitStatus None "" "".

(** An entry of the guest's user database. [GroupIds] is [None] when the group
    lookup fails. *)
Record UserEntry := mkUser {
  Uid : string;
  Gid : string;
  Username : string;
  HomeDir : string;
  GroupIds : option (list string)
}.

Record Credential := mkCred { CUid : Z; CGid : Z; CGroups : list Z }.

(** The command the child runs. *)
Record Cmd := mkCmd {
  Path : string;
  Args : list string;
  Dir : string;
  Env : list string;
  Cred : option Credential
}.

Record Session := mkSession {
  id : string;
  cmd : Cmd;
  pid : Z;
  slaveName : string;
  startedAt : Z;
  ring : Ring;
  rows : Z;
  cols : Z;
  eof : bool;
  exited : bool;
  status : ExitStatus;
  lastSeq : Z;
  typed : list Z
}.

Definition Broker := gmap string Session.

(** ** Creating a session *)

Definition clampRing (n : Z) : Z :=
  if (n <=? 0)%Z then DefaultRingBytes
  else if (n <? MinRingBytes)%Z then MinRingBytes
  else if (MaxRingBytes <? n)%Z then MaxRingBytes
  else n.

(** [filepath.IsAbs] on Unix. *)
Definition IsAbs (s : string) : bool := String.prefix "/" s.

Definition validateArgv (argv : list string) : result PtyErr unit :=
  match argv with
  | [] => Err ErrArgvInvalid
  | a0 :: rest =>
    if negb (IsAbs a0) then Err ErrArgvInvalid
    else if existsb (String.eqb "-c") rest then Err ErrArgvInvalid
    else Ok tt
  end.

(** The supplementary groups: an entry that does not parse is skipped. *)
Definition groups (u : UserEntry) : list Z :=
  match GroupIds u with
  | None => []
  | Some ids => omap (λ raw, Strconv.ParseUint raw 32) ids
  end.

(** [childUser]: [self] is the outcome of [user.Current], [lookup] is
    [user.Lookup]. *)
Definition childUser (self : option UserEntry) (lookup : string → option UserEntry)
    (name : string) : result PtyErr (UserEntry * option Credential) :=
  match self with
  | None => Err ErrOS
  | Some self =>
    if (name =? "")%string || (name =? Username self)%string then Ok (self, None)
    else
      match lookup name with
      | None => Err ErrUserUnknown
      | Some u =>
        if (Uid u =? Uid self)%string then Ok (u, None)
        else
          match Strconv.ParseUint (Uid u) 32, Strconv.ParseUint (Gid u) 32 with
          | Some uid, Some gid => Ok (u, Some (mkCred uid gid (groups u)))
          | _, _ => Err ErrUserUnknown
          end
      end
  end.

(** What the operating system answers to one [Create]. *)
Record CreateOS := mkOS {
  osSelf : option UserEntry;
  osLookup : string → option UserEntry;
  osOpen : option string;
  osOpenSlave : bool;
  osStart : option Z;
  osNow : Z
}.

Definition sessionCmd (spec : SessionSpec) (u : UserEntry) (cred : option Credential)
    : Cmd :=
  let argv0 := hd "" (Argv spec) in
  let cwd := if (Cwd spec =? "")%string then HomeDir u else Cwd spec in
  let cwd := if (cwd =? "")%string then "/" else cwd in
  let term := if (Term spec =? "")%string then "xterm-256color" else Term spec in
  mkCmd argv0 (tl (Argv spec)) cwd
    ["TERM=" +:+ term; "PATH=" +:+ guestPath; "HOME=" +:+ cwd;
     "USER=" +:+ Username u; "LOGNAME=" +:+ Username u; "SHELL=" +:+ argv0;
     "LANG=C.UTF-8"]
    cred.

(** [Create] up to the second look at the session table: the broker's mutex is
    released while the terminal is opened and the child started. *)
Definition createStart (b : Broker) (spec : SessionSpec) (os : CreateOS)
    : result PtyErr Session :=
  _ ← guard_err (negb (SessionID spec =? "")%string) ErrArgvInvalid;
  _ ← validateArgv (Argv spec);
  _ ← guard_err ((Cwd spec =? "")%string || IsAbs (Cwd spec)) ErrArgvInvalid;
  _ ← guard_err (negb ((Rows spec =? 0)%Z || (Cols spec =? 0)%Z)) ErrArgvInvalid;
  uc ← childUser (osSelf os) (osLookup os) (User spec);
  match b !! SessionID spec with
  | Some _ => Err ErrSessionExists
  | None =>
    match osOpen os, osOpenSlave os, osStart os with
    | Some slave, true, Some pid =>
      Ok (mkSession (SessionID spec) (sessionCmd spec uc.1 uc.2) pid slave (osNow os)
            (NewRing (clampRing (RingBytes spec))) (Rows spec) (Cols spec)
            false false noStatus 0 [])
    | _, _, _ => Err ErrOS
    end
  end.

(** The rest of [Create]: [b] is the table as it is found then. *)
Definition createCommit (b : Broker) (s : Session) : result PtyErr Broker :=
  match b !! id s with
  | Some _ => Err ErrSessionExists
  | None => Ok (<[id s := s]> b)
  end.

Definition Create (b b' : Broker) (spec : SessionSpec) (os : CreateOS)
    : result PtyErr (Session * Broker) :=
  s ← createStart b spec os;
  b'' ← createCommit b' s;
  Ok (s, b'').

Definition Get (b : Broker) (sid : string) : option Session := b !! sid.

(** [Close] without the wait for the child: the table after it and the session
    that was removed. *)
Definition Close (b : Broker) (sid : string) : result PtyErr (Session * Broker) :=
  match b !! sid with
  | None => Err ErrUnknownSession
  | Some s => Ok (s, delete sid b)
  end.

Record SessionInfo := mkInfo {
  iSessionID : string; iPID : Z; iRows : Z; iCols : Z; iHead : Z; iTail : Z;
  iRingBytes : nat; iStartedAt : Z; iExited : bool; iExit : ExitStatus
}.

Definition Info (s : Session) : SessionInfo :=
  mkInfo (id s) (pid s) (rows s) (cols s) (Head (ring s)) (Tail (ring s))
    (Size (ring s)) (startedAt s) (exited s) (status s).

Definition info_le (i j : SessionInfo) : Prop := (iSessionID i ≤ iSessionID j)%string.

#[export] Instance info_le_dec i j : Decision (info_le i j).
Proof. unfold info_le. apply _. Defined.

Definition List (b : Broker) : list SessionInfo :=
  merge_sort info_le (Info <$> (map_to_list b).*2).

(** ** Running a session *)

(** What the reaper learns of the child. *)
Inductive WaitResult :=
  | NoProcessState (waitErr : option string)
  | Signaled (name : option string) (sig : Z)
  | Exited (code : Z).

Definition signalName (name : option string) (sig : Z) : string :=
  match name with
  | Some n => n
  | None => "signal " +:+ Strconv.FormatInt sig
  end.

Definition exitStatus (w : WaitResult) : ExitStatus :=
  match w with
  | NoProcessState None => mkExitStatus None "" "unknown"
  | NoProcessState (Some msg) => mkExitStatus None "" msg
  | Signaled name sig => mkExitStatus None (signalName name sig) "signaled"
  | Exited code => mkExitStatus (Some code) "" "exited"
  end.

(** One read of the [drain] loop, and what it does once the terminal is done. *)
Definition drainRead (s : Session) (p : list Z) : Session :=
  mkSession (id s) (cmd s) (pid s) (slaveName s) (startedAt s)
    (append_ring (ring s) p) (rows s) (cols s) (eof s) (exited s) (status s)
    (lastSeq s) (typed s).

Definition drainEnd (s : Session) (w : WaitResult) : Session :=
  mkSession (id s) (cmd s) (pid s) (slaveName s) (startedAt s)
    (ring s) (rows s) (cols s) true true (exitStatus w) (lastSeq s) (typed s).

(** The outcome of a write to the terminal: accepted whole, or failed after the
    first [n] bytes. *)
Inductive WriteResult := WroteAll | WroteErr (n : nat).

Definition Input (s : Session) (seq : Z) (b : list Z) (w : WriteResult)
    : Session * bool :=
  if (seq <=? lastSeq s)%Z then (s, false)
  else
    match w with
    | WroteErr n =>
      (mkSession (id s) (cmd s) (pid s) (slaveName s) (startedAt s) (ring s)
         (rows s) (cols s) (eof s) (exited s) (status s) (lastSeq s)
         (typed s ++ take n b), false)
    | WroteAll =>
      (mkSession (id s) (cmd s) (pid s) (slaveName s) (startedAt s) (ring s)
         (rows s) (cols s) (eof s) (exited s) (status s) seq (typed s ++ b), true)
    end.

(** [Resize]: [ok] is the outcome of the ioctl. *)
Definition Resize (s : Session) (r c : Z) (ok : bool) : result PtyErr Session :=
  if (r =? 0)%Z || (c =? 0)%Z then Err ErrResize
  else if negb ok then Err ErrResize
  else
    Ok (mkSession (id s) (cmd s) (pid s) (slaveName s) (startedAt s) (ring s)
          r c (eof s) (exited s) (status s) (lastSeq s) (typed s)).

(** ** Attachments *)

Record attachment := mkAtt {
  off : Z;
  closed : bool;
  dropRange : Range;
  dropped : bool
}.

(** [Attach]: the reader, the offset it resumes from and the gap flag. *)
Definition Attach (s : Session) (after : Z) : result PtyErr (attachment * Z * bool) :=
  if exited s then Err ErrSessionExited
  else if (Head (ring s) <? after)%Z then Err ErrOffsetAhead
  else
    let tail := Tail (ring s) in
    let '(resume, gap) := if (after <? tail)%Z then (tail, true) else (after, false) in
    Ok (mkAtt resume false zeroRange false, resume, gap).

Definition recordDrop (a : attachment) (r : Range) : attachment :=
  if dropped a then mkAtt (off a) (closed a) (mkRange (From (dropRange a)) (To r)) true
  else mkAtt (off a) (closed a) r true.

Definition Dropped (a : attachment) : attachment * Range * bool :=
  (mkAtt (off a) (closed a) zeroRange false, dropRange a, dropped a).

Definition closeAtt (a : attachment) : attachment :=
  mkAtt (off a) true (dropRange a) (dropped a).

(** One turn of the loop of [Read] under the session's mutex: wait on the
    condition, end of stream, or the bytes of this call ([size] is [len(p)]). *)
Inductive ReadOutcome := RWait | REOF | RBytes (b : list Z).

Definition Read (s : Session) (a : attachment) (size : nat)
    : attachment * ReadOutcome :=
  if decide (size = 0) then (a, RBytes [])
  else if closed a then (a, REOF)
  else
    let tail := Tail (ring s) in
    let a :=
      if (off a <? tail)%Z then
        let a := recordDrop a (mkRange (off a) tail) in
        mkAtt tail (closed a) (dropRange a) (dropped a)
      else a in
    if (off a <? Head (ring s))%Z then
      let b := (ReadFrom (ring s) (off a)).1.1 in
      let n := min size (length b) in
      (mkAtt (Int.u64 (off a + Z.of_nat n)) (closed a) (dropRange a) (dropped a),
       RBytes (take n b))
    else if eof s then (a, REOF)
    else (a, RWait).

(** ** The connection above a session *)

(** [authHello]: the refusal, or [None] for a good hello. *)
Inductive Refusal :=
  | VersionMismatch
  | AuthFailed
  | NoSuchSession
  | BadOffset
  | AttachRefused (e : PtyErr).

Record Hello := mkHello {
  ProtocolVersion : Z;
  AuthProof : string;
  hSessionID : string;
  AfterOffset : string
}.

Definition authHello (token : string) (h : Hello) : option Refusal :=
  if negb (ProtocolVersion h =? 1)%Z then Some VersionMismatch
  else if negb (String.length (AuthProof h) =? String.length token)
    || negb (AuthProof h =? token)%string then Some AuthFailed
  else None.

(** The state a session stream runs in: the session, its reader, the pump's
    cursor and what the connection has carried. *)
Inductive Out :=
  | OPTY (payload : list Z)
  | ODropped (from to : string)
  | OClosed (exit : ExitStatus).

Inductive Phase :=
  | PRead
  | PPoll (b : list Z) (err : bool)
  | PWrite (b : list Z) (err : bool)
  | PEnd
  | PStop.

Record Stream := mkStream {
  sess : Session;
  att : attachment;
  cur : Z;
  phase : Phase;
  detached : bool;
  out : list Out
}.

(** [handleStream] up to the pumps: the hello ack's refusal, or the stream with
    its resume offset (rendered in the ack) and gap flag. *)
Definition handleStream (token : string) (b : Broker) (h : Hello)
    : result Refusal (Stream * string * bool) :=
  match authHello token h with
  | Some r => Err r
  | None =>
    match Get b (hSessionID h) with
    | None => Err NoSuchSession
    | Some s =>
      let after :=
        if (AfterOffset h =? "")%string then Some 0%Z
        else Strconv.ParseUint (AfterOffset h) 64 in
      match after with
      | None => Err BadOffset
      | Some after =>
        match Attach s after with
        | Err e => Err (AttachRefused e)
        | Ok (a, resume, gap) =>
          Ok (mkStream s a resume PRead false [], Strconv.FormatUint resume, gap)
        end
      end
    end
  end.

(** One action of [streamOut]. [ok] is whether a write to the connection made
    in this action succeeds. *)
Definition pump (ok : bool) (st : Stream) : Stream :=
  match phase st with
  | PRead =>
    let '(a, o) := Read (sess st) (att st) streamChunk in
    let ph := match o with RWait => PRead | REOF => PPoll [] true | RBytes b => PPoll b false end in
    mkStream (sess st) a (cur st) ph (detached st) (out st)
  | PPoll b err =>
    let '(a, r, lost) := Dropped (att st) in
    if lost then
      if ok then
        mkStream (sess st) a (To r) (PWrite b err) (detached st)
          (out st ++ [ODropped (Strconv.FormatUint (From r)) (Strconv.FormatUint (To r))])
      else mkStream (sess st) a (cur st) PStop (detached st) (out st)
    else mkStream (sess st) a (cur st) (PWrite b err) (detached st) (out st)
  | PWrite b err =>
    let next := if err : bool then PEnd else PRead in
    if decide (0 < length b) then
      if ok then
        mkStream (sess st) (att st) (Int.u64 (cur st + Z.of_nat (length b))) next
          (detached st) (out st ++ [OPTY (BigEndian.PutUint64 (cur st) ++ b)])
      else mkStream (sess st) (att st) (cur st) PStop (detached st) (out st)
    else mkStream (sess st) (att st) (cur st) next (detached st) (out st)
  | PEnd =>
    if detached st then mkStream (sess st) (att st) (cur st) PStop (detached st) (out st)
    else mkStream (sess st) (att st) (cur st) PStop (detached st)
           (if ok then out st ++ [OClosed (status (sess st))] else out st)
  | PStop => st
  end.

(** One frame of [streamIn]: the session after it, or [None] when the pump ends.
    [decodeResize] is the JSON decoding of a resize envelope; [w], [ioctl] and
    [reply] are the outcomes of the terminal write, of the window-size ioctl and
    of writing an error reply. *)
Definition streamInFrame (decodeResize : list Z → option (Z * Z)) (s : Session)
    (f : Z * list Z) (w : WriteResult) (ioctl reply : bool) : option Session :=
  let '(typ, payload) := f in
  if (typ =? Frame.FramePTY)%Z then
    if decide (length payload < 8) then None
    else Some (Input s (BigEndian.Uint64 payload) (skipn 8 payload) w).1
  else if (typ =? Frame.FrameControl)%Z then
    match decodeResize payload with
    | None => Some s
    | Some (r, c) =>
      match Resize s r c ioctl with
      | Ok s' => Some s'
      | Err _ => if reply then Some s else None
      end
    end
  else Some s.

(** [streamIn] on the frames of a connection whose writes all succeed. *)
Fixpoint streamIn (decodeResize : list Z → option (Z * Z)) (s : Session)
    (fs : list (Z * list Z)) : Session :=
  match fs with
  | [] => s
  | f :: fs =>
    match streamInFrame decodeResize s f WroteAll true true with
    | None => s
    | Some s' => streamIn decodeResize s' fs
    end
  end.

Definition with_sess (st : Stream) (s : Session) : Stream :=
  mkStream s (att st) (cur st) (phase st) (detached st) (out st).

(** The interleaving of the output pump with everything else that touches the
    session: the drain goroutine appends what the shell wrote ([h] is the whole
    stream so far) until the terminal ends, the input pump types and resizes,
    and when the caller hangs up it marks the stream detached and then closes
    the reader. *)
Inductive step : list Z * Stream → list Z * Stream → Prop :=
  | step_pump h st ok : step (h, st) (h, pump ok st)
  | step_drain h st p :
      eof (sess st) = false → (Z.of_nat (length h + length p) < 2 ^ 64)%Z →
      step (h, st) (h ++ p, with_sess st (drainRead (sess st) p))
  | step_exit h st w :
      step (h, st) (h, with_sess st (drainEnd (sess st) w))
  | step_input h st seq b w :
      step (h, st) (h, with_sess st (Input (sess st) seq b w).1)
  | step_resize h st r c ok s' :
      Resize (sess st) r c ok = Ok s' → step (h, st) (h, with_sess st s')
  | step_detach h st :
      step (h, st) (h, mkStream (sess st) (att st) (cur st) (phase st) true (out st))
  | step_close h st :
      detached st = true →
      step (h, st) (h, mkStream (sess st) (closeAtt (att st)) (cur st) (phase st)
                         (detached st) (out st)).

(** ** Specification of the output stream *)

(** The half-open slice [[o, o + n)] of the shell's output. *)
Definition slice (h : list Z) (o : Z) (n : nat) : list Z := take n (skipn (Z.to_nat o) h).

(** [account h pos outs]: read as its receiver decodes it, every message of
    [outs] continues the stream [h] exactly where the previous one left it: a
    PTY frame carries the offset it starts at and the bytes at that offset, a
    dropped message names a non-empty range. The result is where the messages
    leave off. *)
Fixpoint account (h : list Z) (pos : Z) (outs : list Out) : option Z :=
  match outs with
  | [] => Some pos
  | OPTY payload :: outs =>
    let b := skipn 8 payload in
    if decide (BigEndian.Uint64 payload = pos ∧ 0 < length b ∧
               b = slice h pos (length b))
    then account h (pos + Z.of_nat (length b)) outs else None
  | ODropped from to :: outs =>
    match Strconv.ParseUint from 64, Strconv.ParseUint to 64 with
    | Some f, Some t => if decide (f = pos ∧ (f < t ≤ Z.of_nat (length h))%Z)
                        then account h t outs else None
    | _, _ => None
    end
  | OClosed _ :: outs =>
    if decide (outs = [] ∧ pos = Z.of_nat (length h)) then Some pos else None
  end.

Definition isClosed (o : Out) : bool := match o with OClosed _ => true | _ => false end.

(** ** Lemmas *)

Lemma streamChunk_pos : 0 < streamChunk.
Proof. unfold streamChunk. change (Z.shiftl 32 10) with 32768%Z. lia. Qed.

Lemma slice_full h o n :
  0 < n → length (slice h o n) = n → Z.to_nat o + n ≤ length h.
Proof. unfold slice. rewrite length_take, length_drop. lia. Qed.

Lemma slice_app h q o n :
  Z.to_nat o + n ≤ length h → slice (h ++ q) o n = slice h o n.
Proof.
  intros. unfold slice.
  rewrite drop_app_le, take_app_le by (rewrite ?length_drop; lia). done.
Qed.

Lemma account_grow h q outs pos p :
  existsb isClosed outs = false → account h pos outs = Some p →
  account (h ++ q) pos outs = Some p.
Proof.
  revert pos. induction outs as [|[payload|f t|e] outs IH]; intros pos Hc Ha;
    [done| | |done]; simpl in *.
  - case_decide as Hd; [|done]. destruct Hd as (Ho & Hl & Hb).
    rewrite decide_True; [by apply IH|]. split_and!; try done.
    rewrite slice_app; [done|]. apply slice_full; [done|]. by rewrite <- Hb.
  - destruct (Strconv.ParseUint f 64), (Strconv.ParseUint t 64); try done.
    case_decide as Hd; [|done]. rewrite decide_True; [by apply IH|].
    rewrite length_app. lia.
Qed.

Lemma account_snoc h outs pos p o :
  existsb isClosed outs = false → account h pos outs = Some p →
  account h pos (outs ++ [o]) = account h p [o].
Proof.
  revert pos. induction outs as [|[payload|f t|e] outs IH]; intros pos Hc Ha;
    [by injection Ha as ->| | |done]; simpl in *.
  - case_decide; [|done]. by apply IH.
  - destruct (Strconv.ParseUint f 64), (Strconv.ParseUint t 64); try done.
    case_decide; [|done]. by apply IH.
Qed.

Lemma account_PTY h pos b :
  (0 ≤ pos < 2 ^ 64)%Z → 0 < length b → b = slice h pos (length b) →
  account h pos [OPTY (BigEndian.PutUint64 pos ++ b)]
    = Some (pos + Z.of_nat (length b))%Z.
Proof.
  intros Hp Hl Hb. cbn [account].
  change (skipn 8 (BigEndian.PutUint64 pos ++ b)) with b.
  rewrite decide_True; [done|]. split; [|done].
  by rewrite BigEndian.Uint64_Put, Int.u64_small.
Qed.

Lemma account_Dropped h f t :
  (0 ≤ f < t)%Z → (t ≤ Z.of_nat (length h))%Z → (Z.of_nat (length h) < 2 ^ 64)%Z →
  account h f [ODropped (Strconv.FormatUint f) (Strconv.FormatUint t)] = Some t.
Proof.
  intros. cbn [account]. rewrite !Strconv.ParseUint_FormatUint by lia.
  by rewrite decide_True by lia.
Qed.

(** ** The invariant of a running stream *)

(** The reader has reached the end: it was closed, or the terminal is done and
    everything it wrote is behind the cursor. *)
Definition ended (h : list Z) (st : Stream) : Prop :=
  closed (att st) = true ∨
  eof (sess st) = true ∧ off (att st) = Z.of_nat (length h).

Definition pending (h : list Z) (st : Stream) (b : list Z) (err : bool) : Prop :=
  b = slice h (off (att st) - Z.of_nat (length b)) (length b) ∧
  length b ≤ streamChunk ∧ (err = true → b = [] ∧ ended h st).

Definition phase_inv (h : list Z) (st : Stream) : Prop :=
  let a := att st in
  match phase st with
  | PRead => dropped a = false ∧ off a = cur st
  | PPoll b err => pending h st b err ∧
      if dropped a then
        From (dropRange a) = cur st ∧ (cur st < To (dropRange a))%Z ∧
        off a = (To (dropRange a) + Z.of_nat (length b))%Z
      else off a = (cur st + Z.of_nat (length b))%Z
  | PWrite b err => pending h st b err ∧ dropped a = false ∧
      off a = (cur st + Z.of_nat (length b))%Z
  | PEnd => ended h st ∧ dropped a = false ∧ off a = cur st
  | PStop => True
  end.

Record stream_inv (resume : Z) (h : list Z) (st : Stream) : Prop := {
  inv_rep : rep 0 h (ring (sess st));
  inv_off : (0 ≤ off (att st) ≤ Z.of_nat (length h))%Z;
  inv_cur : (0 ≤ cur st)%Z;
  inv_account : account h resume (out st) = Some (cur st);
  inv_closed : closed (att st) = true → detached st = true;
  inv_out : existsb isClosed (out st) = true →
    phase st = PStop ∧ eof (sess st) = true;
  inv_phase : phase_inv h st
}.

Lemma inv_bound resume h st :
  stream_inv resume h st → (Z.of_nat (length h) < 2 ^ 64)%Z.
Proof. intros [[] _ _ _ _ _ _]. lia. Qed.

Lemma inv_out_open resume h st :
  stream_inv resume h st → phase st ≠ PStop → existsb isClosed (out st) = false.
Proof.
  intros Hi Hp. destruct (existsb isClosed (out st)) eqn:E; [|done].
  by destruct (inv_out _ _ _ Hi E).
Qed.

(** What a turn of [Read] does to a reader whose cursor is within the stream. *)
Lemma Read_spec h s a :
  rep 0 h (ring s) → (0 ≤ off a ≤ Z.of_nat (length h))%Z → dropped a = false →
  let '(a', o) := Read s a streamChunk in
  closed a' = closed a ∧ (0 ≤ off a' ≤ Z.of_nat (length h))%Z ∧
  match o with
  | RWait => a' = a
  | REOF => a' = a ∧ (closed a = true ∨ eof s = true ∧ off a = Z.of_nat (length h))
  | RBytes b =>
    0 < length b ∧ length b ≤ streamChunk ∧
    b = slice h (off a' - Z.of_nat (length b)) (length b) ∧
    if dropped a' then
      From (dropRange a') = off a ∧ (off a < To (dropRange a'))%Z ∧
      off a' = (To (dropRange a') + Z.of_nat (length b))%Z
    else off a' = (off a + Z.of_nat (length b))%Z
  end.
Proof.
  intros Hrep Hoff Hd. pose proof (rep_tail _ _ _ Hrep) as Ht.
  pose proof Hrep as [Hsz _ _ Hbd Hh _ _]. rewrite Z.add_0_l in Hh, Hbd, Ht.
  unfold Read. rewrite decide_False by (pose proof streamChunk_pos; lia).
  destruct (closed a) eqn:Ec; [rewrite Ec; auto|].
  unfold Head. rewrite Hh.
  (* after the drop check the cursor is [o] and the rest is a read from [o] *)
  assert (Hread : ∀ o, (Tail (ring s) ≤ o < Z.of_nat (length h))%Z →
    let b := (ReadFrom (ring s) o).1.1 in
    let n := min streamChunk (length b) in
    0 < n ∧ n ≤ streamChunk ∧ length (take n b) = n ∧ Int.u64 (o + Z.of_nat n) = (o + Z.of_nat n)%Z ∧
    (o + Z.of_nat n ≤ Z.of_nat (length h))%Z ∧ take n b = slice h o n).
  { intros o Ho b n.
    assert (Hb : b = skipn (Z.to_nat o) h).
    { unfold b. rewrite (ReadFrom_rep 0 h) by (done || lia). simpl.
      unfold from_offset. f_equal. lia. }
    assert (length b = length h - Z.to_nat o) by (rewrite Hb; apply length_drop).
    pose proof streamChunk_pos.
    unfold n. rewrite length_take. rewrite Int.u64_small by lia.
    split_and!; try lia. unfold slice. by rewrite <- Hb. }
  destruct (Z.ltb_spec (off a) (Tail (ring s))) as [Hlt|Hge].
  - unfold recordDrop. rewrite Hd. cbn [off closed dropRange dropped].
    rewrite (proj2 (Z.ltb_lt _ _)) by lia.
    destruct (Hread (Tail (ring s))) as (?&?&Hl&Hu&?&Hs); [lia|].
    cbn [off closed dropRange dropped From To]. rewrite Hl, Hu.
    split_and!; try done; try lia; rewrite Hs; f_equal; lia.
  - destruct (Z.ltb_spec (off a) (Z.of_nat (length h))).
    + destruct (Hread (off a)) as (?&?&Hl&Hu&?&Hs); [lia|].
      cbn [off closed dropRange dropped]. rewrite Hl, Hu, Hd.
      split_and!; try done; try lia; rewrite Hs; f_equal; lia.
    + clear Hread. assert (Ho : off a = Z.of_nat (length h)) by lia.
      destruct (eof s); rewrite ?Ec; repeat split; auto; lia.
Qed.

(** What a step outside the pump must leave alone for the phase to stay sound:
    the reader's cursor and loss report, the pump, and the bytes already read. *)
Lemma phase_inv_impl h st h' st' :
  off (att st') = off (att st) → dropRange (att st') = dropRange (att st) →
  dropped (att st') = dropped (att st) → cur st' = cur st → phase st' = phase st →
  (ended h st → ended h' st') →
  (∀ o b, b = slice h o (length b) → b = slice h' o (length b)) →
  phase_inv h st → phase_inv h' st'.
Proof.
  intros Ho Hr Hd Hc Hph He Hs. unfold phase_inv, pending.
  rewrite Ho, Hr, Hd, Hc, Hph.
  destruct (phase st) as [|b err|b err| |]; intros Hp; try done.
  - destruct Hp as [(? & ? & Herr) ?]. split; [|done]. split_and!; auto.
    intros E. destruct (Herr E). auto.
  - destruct Hp as [(? & ? & Herr) ?]. split; [|done]. split_and!; auto.
    intros E. destruct (Herr E). auto.
  - destruct Hp as (? & ? & ?). auto.
Qed.

Lemma slice_grow h q o b :
  b = slice h o (length b) → b = slice (h ++ q) o (length b).
Proof.
  intros Hs. destruct (decide (length b = 0)) as [E|].
  - destruct b; [|done]. unfold slice. done.
  - rewrite slice_app; [done|]. apply slice_full; [lia|]. by rewrite <- Hs.
Qed.

(** A step that leaves the ring alone and does not take the end-of-stream mark
    back keeps the invariant. *)
Lemma inv_with_sess resume h st s' :
  stream_inv resume h st → ring s' = ring (sess st) →
  (eof (sess st) = true → eof s' = true) →
  stream_inv resume h (with_sess st s').
Proof.
  intros [Hr Ho Hcur Ha Hc Hout Hp] Hring Heof.
  split; simpl; try done; [by rewrite Hring| |].
  - intros Hx. destruct (Hout Hx). auto.
  - eapply phase_inv_impl; [..|exact Hp]; try done.
    unfold ended; simpl. intros [?|[? ?]]; auto.
Qed.

Lemma inv_drain resume h st p :
  stream_inv resume h st → eof (sess st) = false →
  (Z.of_nat (length h + length p) < 2 ^ 64)%Z →
  stream_inv resume (h ++ p) (with_sess st (drainRead (sess st) p)).
Proof.
  intros [Hr Ho Hcur Ha Hc Hout Hp] Heof Hb.
  assert (Hopen : existsb isClosed (out st) = false).
  { destruct (existsb isClosed (out st)); [|done].
    destruct (Hout eq_refl). congruence. }
  split; simpl; try done.
  - apply append_ring_rep; [done|lia].
  - rewrite length_app. lia.
  - by apply account_grow.
  - eapply phase_inv_impl; [..|exact Hp]; try done; [|intros ? ?; apply slice_grow].
    unfold ended; simpl. intros [?|[? ?]]; [auto|congruence].
Qed.

Lemma inv_pump_read resume h st :
  stream_inv resume h st → phase st = PRead →
  ∀ ok, stream_inv resume h (pump ok st).
Proof.
  intros Hi Hph ok. pose proof (inv_out_open _ _ _ Hi ltac:(congruence)) as Hopen.
  destruct Hi as [Hr Ho Hcur Ha Hc Hout Hp]. unfold pump. rewrite Hph.
  unfold phase_inv in Hp. rewrite Hph in Hp. destruct Hp as [Hd Hoc].
  pose proof (Read_spec h (sess st) (att st) Hr Ho Hd) as Hs.
  destruct (Read (sess st) (att st) streamChunk) as [a o].
  destruct Hs as (Hcl & Ho' & Hs).
  split; simpl; try done; [by rewrite Hcl|by rewrite Hopen|].
  unfold phase_inv, pending, ended; simpl. destruct o as [| |b]; simpl.
  - by rewrite Hs.
  - destruct Hs as [-> He]. rewrite Hd.
    split_and!; [done|lia| |lia]. intros _. split; [done|].
    destruct He as [?|[? ?]]; auto.
  - destruct Hs as (? & ? & ? & Hm). split; [done|].
    rewrite Hoc in Hm. by destruct (dropped a).
Qed.

Lemma inv_pump_poll resume h st b err :
  stream_inv resume h st → phase st = PPoll b err →
  ∀ ok, stream_inv resume h (pump ok st).
Proof.
  intros Hi Hph ok. pose proof (inv_out_open _ _ _ Hi ltac:(congruence)) as Hopen.
  pose proof (inv_bound _ _ _ Hi) as Hbd.
  destruct Hi as [Hr Ho Hcur Ha Hc Hout Hp]. unfold pump. rewrite Hph.
  unfold phase_inv in Hp. rewrite Hph in Hp. destruct Hp as [Hpd Hm].
  unfold Dropped. destruct (dropped (att st)).
  - destruct Hm as (Hf & Hlt & Hoff). destruct ok.
    + split; simpl; try done; try lia.
      * erewrite account_snoc by done. rewrite Hf.
        apply account_Dropped; lia.
      * rewrite existsb_app, Hopen. done.
    + split; simpl; try done. by rewrite Hopen.
  - split; simpl; try done. by rewrite Hopen.
Qed.

Lemma inv_pump_write resume h st b err :
  stream_inv resume h st → phase st = PWrite b err →
  ∀ ok, stream_inv resume h (pump ok st).
Proof.
  intros Hi Hph ok. pose proof (inv_out_open _ _ _ Hi ltac:(congruence)) as Hopen.
  pose proof (inv_bound _ _ _ Hi) as Hbd.
  destruct Hi as [Hr Ho Hcur Ha Hc Hout Hp]. unfold pump. rewrite Hph.
  unfold phase_inv in Hp. rewrite Hph in Hp. destruct Hp as ((Hsl & _ & He) & Hd & Hoff).
  rewrite Hoff in Hsl. replace (cur st + _ - _)%Z with (cur st) in Hsl by lia.
  case_decide as Hlen; [destruct ok|].
  - assert (err = false) as -> by (destruct err; [destruct He as [-> _]; done || (simpl in Hlen; lia)|done]).
    rewrite Int.u64_small by lia.
    split; simpl; try done; try lia.
    + erewrite account_snoc by done. by apply account_PTY; [lia|..].
    + rewrite existsb_app, Hopen. done.
  - split; simpl; try done. by rewrite Hopen.
  - assert (length b = 0) as Hz by lia. rewrite Hz in Hoff.
    split; simpl; try done; [by rewrite Hopen|].
    unfold phase_inv; simpl. destruct err; simpl.
    + destruct He as [_ He]; [done|]. split_and!; [done|done|lia].
    + split; [done|lia].
Qed.

Lemma inv_pump_end resume h st :
  stream_inv resume h st → phase st = PEnd →
  ∀ ok, stream_inv resume h (pump ok st).
Proof.
  intros Hi Hph ok. pose proof (inv_out_open _ _ _ Hi ltac:(congruence)) as Hopen.
  destruct Hi as [Hr Ho Hcur Ha Hc Hout Hp]. unfold pump. rewrite Hph.
  unfold phase_inv in Hp. rewrite Hph in Hp. destruct Hp as (He & Hd & Hoff).
  destruct (detached st) eqn:Hdet; [|destruct ok].
  - split; simpl; try done. by rewrite Hopen.
  - destruct He as [Hx|[Heof Hall]]; [by specialize (Hc Hx)|].
    split; simpl; try done.
    erewrite account_snoc by done. simpl. rewrite decide_True; [done|].
    split; [done|congruence].
  - split; simpl; try done. by rewrite Hopen.
Qed.

Lemma inv_step resume h st h' st' :
  step (h, st) (h', st') → stream_inv resume h st → stream_inv resume h' st'.
Proof.
  inversion 1 as [? ? ok|? ? p|? ? w|? ? seq b w|? ? r c ok s' Hrz| |? ? Hdet]; subst;
    intros Hi.
  - destruct (phase st) eqn:Hph.
    + by apply inv_pump_read.
    + by eapply inv_pump_poll.
    + by eapply inv_pump_write.
    + by apply inv_pump_end.
    + unfold pump. by rewrite Hph.
  - by apply inv_drain.
  - by apply inv_with_sess.
  - apply inv_with_sess; [done|..]; unfold Input; repeat case_match; done.
  - unfold Resize in Hrz. repeat case_match; simplify_eq. by apply inv_with_sess.
  - destruct Hi; split; simpl; done.
  - destruct Hi as [Hr Ho Hcur Ha Hc Hout Hp]. split; simpl; try done.
    eapply phase_inv_impl; [..|exact Hp]; try done. unfold ended; simpl. auto.
Qed.

Lemma Attach_inv h s after a resume gap :
  rep 0 h (ring s) → (0 ≤ after)%Z → Attach s after = Ok (a, resume, gap) →
  stream_inv resume h (mkStream s a resume PRead false []) ∧
  resume = Z.max after (Tail (ring s)) ∧ (gap = true ↔ (after < Tail (ring s))%Z).
Proof.
  intros Hrep Hafter. unfold Attach.
  destruct (exited s); [done|].
  pose proof (rep_tail _ _ _ Hrep) as Ht. pose proof Hrep as [_ _ _ Hb Hh _ _].
  unfold Head. destruct (Z.ltb_spec (head (ring s)) after); [done|].
  destruct (Z.ltb_spec after (Tail (ring s))) as [Hlt|Hge]; intros Hok; injection Hok as <- <- <-.
  - split; [split; simpl; try done; lia|]. split; [lia|done].
  - split; [split; simpl; try done; lia|]. split; [lia|]. split; [done|lia].
Qed.

Lemma inv_steps resume c c' :
  rtc step c c' → stream_inv resume c.1 c.2 → stream_inv resume c'.1 c'.2.
Proof.
  induction 1 as [|[h st] [h' st'] ? Hs _ IH]; [done|].
  intros. apply IH. by eapply inv_step.
Qed.

(** ** Properties *)

(** C24: a session stream accounts for every byte. Attach a reader to a session
    whose ring is the window on the shell's output, then interleave the output
    pump in any way with the drain goroutine, the input pump, resizes, the
    child's exit and the caller hanging up. Decoded by its receiver, everything
    the connection carried is a contiguous account of the output from the
    resume offset: PTY frames stamped with the offset of their first byte and
    holding exactly the bytes at that offset, and dropped messages for the
    ranges in between; and a closed message is sent only when that account has
    reached the end of all the output. *)
Theorem stream_exact h s after a resume gap h' st' :
  rep 0 h (ring s) → (0 ≤ after)%Z → Attach s after = Ok (a, resume, gap) →
  rtc step (h, mkStream s a resume PRead false []) (h', st') →
  account h' resume (out st') = Some (cur st') ∧
  (gap = true ↔ (after < resume)%Z) ∧ (after ≤ resume)%Z ∧
  ((∃ e, OClosed e ∈ out st') → cur st' = Z.of_nat (length h')).
Proof.
  intros Hrep Hafter Hat Hsteps.
  destruct (Attach_inv _ _ _ _ _ _ Hrep Hafter Hat) as (Hi & Hr & Hg).
  pose proof (inv_steps resume _ _ Hsteps Hi) as Hi'. simpl in Hi'.
  pose proof (inv_account _ _ _ Hi') as Ha. split; [done|].
  split; [rewrite Hg; lia|]. split; [lia|].
  intros [e He]. revert Ha. clear -He.
  generalize resume. induction (out st') as [|o os IH]; [by apply elem_of_nil in He|].
  intros pos. apply elem_of_cons in He as [<-|He]; simpl.
  - case_decide as Hd; [|done]. intros [= <-]. by destruct Hd.
  - destruct o; simpl.
    + case_decide; [|done]. by apply IH.
    + repeat (case_match; try done). by apply IH.
    + case_decide as Hd; [|done]. destruct Hd as [-> _]. by apply elem_of_nil in He.
Qed.

(** A sequence of [Input] calls: the session after them and each call's result. *)
Fixpoint inputs (s : Session) (l : list (Z * list Z * WriteResult))
    : Session * list (Z * bool) :=
  match l with
  | [] => (s, [])
  | (seq, b, w) :: l =>
    let '(s1, ok) := Input s seq b w in
    let '(s2, rs) := inputs s1 l in (s2, (seq, ok) :: rs)
  end.

(** The sequence numbers of the accepted calls. *)
Definition accepted (rs : list (Z * bool)) : list Z :=
  omap (λ r, if r.2 : bool then Some r.1 else None) rs.

Lemma Input_cases s seq b w s' ok :
  Input s seq b w = (s', ok) →
  (ok = true ∧ (lastSeq s < seq)%Z ∧ lastSeq s' = seq ∧ typed s' = typed s ++ b) ∨
  (ok = false ∧ lastSeq s' = lastSeq s ∧
   typed s' = typed s ++ (if (seq <=? lastSeq s)%Z then [] else
     match w with WroteAll => b | WroteErr n => take n b end) ∧
   ((seq ≤ lastSeq s)%Z ∨ ∃ n, w = WroteErr n)).
Proof.
  unfold Input. destruct (Z.leb_spec seq (lastSeq s)).
  - intros [= <- <-]. rewrite app_nil_r. right. auto.
  - destruct w; intros [= <- <-]; simpl; [left|right]; split_and!; eauto.
Qed.

(** no keystroke frame is typed twice. Over any sequence of [Input] calls
    (retransmissions, stale frames, failed writes), the sequence numbers of the
    calls that were applied are strictly increasing and above the session's
    last one, so each is applied at most once; a call whose sequence is at or
    below an applied one types nothing; and when no write fails the terminal
    receives exactly the payloads of the applied calls, in order. *)
Theorem inputs_once s l :
  let '(s', rs) := inputs s l in
  StronglySorted Z.lt (lastSeq s :: accepted rs) ∧
  lastSeq s' = List.last (accepted rs) (lastSeq s) ∧
  (Forall (λ c, c.2 = WroteAll) l →
   typed s' = typed s ++ concat (zip_with (λ c r, if r.2 : bool then c.1.2 else []) l rs)).
Proof.
  revert s. induction l as [|[[seq b] w] l IH]; intros s; simpl.
  - split; [repeat constructor|]. split; [done|]. by rewrite app_nil_r.
  - destruct (Input s seq b w) as [s1 ok] eqn:Ei. specialize (IH s1).
    destruct (inputs s1 l) as [s2 rs]. destruct IH as (Hs & Hl & Ht).
    destruct (Input_cases _ _ _ _ _ _ Ei) as [(-> & Hlt & Hls & Hty)|(-> & Hls & Hty & Hw)].
    + rewrite Hls in Hs, Hl. simpl. split; [|split].
      * constructor; [done|]. apply StronglySorted_inv in Hs as [Hs Hf].
        constructor; [done|]. eapply Forall_impl; [exact Hf|]. simpl. lia.
      * rewrite Hl. symmetry. exact (last_cons_default seq (accepted rs) (lastSeq s)).
      * intros Hall. apply Forall_cons in Hall as [_ Hall].
        rewrite Ht, Hty by done. by rewrite <- (assoc_L (++)).
    + rewrite Hls in Hs, Hl. simpl. split; [done|]. split; [done|].
      intros Hall. apply Forall_cons in Hall as [Hw0 Hall].
      rewrite Ht, Hty by done. destruct Hw as [Hle|[n ->]]; [|done].
      by rewrite (proj2 (Z.leb_le _ _)), app_nil_r.
Qed.

Lemma validateArgv_Ok argv :
  validateArgv argv = Ok tt →
  ∃ a0 rest, argv = a0 :: rest ∧ IsAbs a0 = true ∧ "-c" ∉ rest.
Proof.
  unfold validateArgv. destruct argv as [|a0 rest]; [done|].
  destruct (IsAbs a0) eqn:Ha; [|done]. cbn [negb].
  destruct (existsb (String.eqb "-c") rest) eqn:Ec; [done|]. intros _.
  exists a0, rest. split_and!; [done|done|]. intros Hin.
  rewrite (proj2 (existsb_exists _ _)) in Ec; [done|].
  exists "-c". split; [by apply list_elem_of_In|apply String.eqb_refl].
Qed.

Lemma clampRing_range n : (MinRingBytes ≤ clampRing n ≤ MaxRingBytes)%Z.
Proof.
  unfold clampRing. change MinRingBytes with 4096%Z.
  change MaxRingBytes with 4194304%Z. change DefaultRingBytes with 262144%Z.
  repeat case_match; lia.
Qed.

Lemma childUser_cases self lookup name u cred :
  childUser self lookup name = Ok (u, cred) →
  ∃ me, self = Some me ∧
    ((cred = None ∧ u = me ∧ (name = "" ∨ name = Username me)) ∨
     (cred = None ∧ lookup name = Some u ∧ Uid u = Uid me) ∨
     (∃ c, cred = Some c ∧ lookup name = Some u ∧
        Strconv.ParseUint (Uid u) 32 = Some (CUid c) ∧
        Strconv.ParseUint (Gid u) 32 = Some (CGid c))).
Proof.
  unfold childUser. destruct self as [me|]; [|done]. intros H. exists me.
  split; [done|]. revert H.
  destruct (String.eqb_spec name ""); simpl; [intros [= <- <-]; auto|].
  destruct (String.eqb_spec name (Username me)); simpl; [intros [= <- <-]; auto|].
  destruct (lookup name) as [v|] eqn:El; [|done].
  destruct (String.eqb_spec (Uid v) (Uid me)); [intros [= <- <-]; auto|].
  destruct (Strconv.ParseUint (Uid v) 32) eqn:E1; [|done].
  destruct (Strconv.ParseUint (Gid v) 32) eqn:E2; [|done].
  intros [= <- <-]. right; right. eexists. split_and!; done.
Qed.

(** what [Create] starts is what was asked, and nothing else. A session that
    is created runs the request's argument array verbatim, its program is an
    absolute path and no argument is [-c]; it runs as the broker's own user
    only when that is the user named (or none is), otherwise with the uid and
    gid of the named user; its ring holds between 4 KiB and 4 MiB and starts
    empty at offset 0; the table gains exactly that session, under an id that
    was not in use, whatever happened to the table meanwhile. *)
Theorem Create_safe b b' spec os s b'' :
  Create b b' spec os = Ok (s, b'') →
  Path (cmd s) :: Args (cmd s) = Argv spec ∧
  IsAbs (Path (cmd s)) = true ∧ ("-c" ∉ Args (cmd s)) ∧
  (match Cred (cmd s) with
   | Some c => ∃ u, osLookup os (User spec) = Some u ∧
       Strconv.ParseUint (Uid u) 32 = Some (CUid c) ∧
       Strconv.ParseUint (Gid u) 32 = Some (CGid c)
   | None => ∃ me, osSelf os = Some me ∧
       (User spec = "" ∨ User spec = Username me ∨
        ∃ u, osLookup os (User spec) = Some u ∧ Uid u = Uid me)
   end) ∧
  (MinRingBytes ≤ Z.of_nat (Size (ring s)) ≤ MaxRingBytes)%Z ∧ rep 0 [] (ring s) ∧
  b !! SessionID spec = None ∧ b' !! SessionID spec = None ∧
  b'' = <[SessionID spec := s]> b'.
Proof.
  unfold Create. rewrite result_bind_Ok. intros (s0 & Hs & Hc).
  apply result_bind_Ok in Hc as (b1 & Hc & [= -> ->]).
  unfold createStart in Hs.
  apply result_bind_Ok in Hs as (_ & _ & Hs).
  apply result_bind_Ok in Hs as ([] & Hargv & Hs).
  apply result_bind_Ok in Hs as (_ & _ & Hs).
  apply result_bind_Ok in Hs as (_ & _ & Hs).
  apply result_bind_Ok in Hs as ([u cred] & Hu & Hs).
  destruct (validateArgv_Ok _ Hargv) as (a0 & rest & Hav & Ha0 & Hc0).
  destruct (b !! SessionID spec) eqn:Eb; [done|].
  destruct (osOpen os), (osOpenSlave os), (osStart os); try done.
  injection Hs as <-.
  unfold createCommit in Hc. cbn [id] in Hc.
  destruct (b' !! SessionID spec) eqn:Eb'; [done|].
  injection Hc as <-.
  pose proof (clampRing_range (RingBytes spec)) as Hr.
  cbn [cmd ring sessionCmd Path Args Cred fst snd]. rewrite Hav.
  split_and!; try done.
  - destruct (childUser_cases _ _ _ _ _ Hu) as (me & Hme & [(-> & -> & Hn)|[(-> & ? & ?)|(c & -> & ? & ? & ?)]]).
    + exists me. split; [done|]. destruct Hn; auto.
    + exists me. split; [done|]. eauto.
    + eauto.
  - unfold NewRing, Size; cbn [buf]. rewrite length_replicate.
    destruct (Z.ltb_spec (clampRing (RingBytes spec)) 1);
      change MinRingBytes with 4096%Z in Hr |- *; lia.
  - unfold NewRing, Size; cbn [buf]. rewrite length_replicate.
    destruct (Z.ltb_spec (clampRing (RingBytes spec)) 1);
      change MinRingBytes with 4096%Z in Hr; lia.
  - apply (rep_NewRing _ 0). lia.
Qed.

(** [List] reports every session the broker holds exactly once, in
    increasing order of session id. *)
Theorem List_sorted_complete b :
  Sorted info_le (List b) ∧ List b ≡ₚ Info <$> (map_to_list b).*2.
Proof.
  assert (Total info_le).
  { intros i j. unfold info_le. apply (total String.le). }
  split; [by apply Sorted_merge_sort|apply merge_sort_Permutation].
Qed.

(** a stream connection is admitted only with the right protocol version
    and the boot's capability token, only for a session the broker holds and
    that has not exited, and only from an offset the stream has reached; the
    acknowledgement carries the offset the first frame will start at. *)
Theorem handleStream_admits token b h st resume gap :
  handleStream token b h = Ok (st, resume, gap) →
  ProtocolVersion h = 1%Z ∧ AuthProof h = token ∧
  b !! hSessionID h = Some (sess st) ∧ exited (sess st) = false ∧
  ∃ after, (AfterOffset h = "" ∧ after = 0%Z ∨
            Strconv.ParseUint (AfterOffset h) 64 = Some after) ∧
    Attach (sess st) after = Ok (att st, cur st, gap) ∧
    (after ≤ Head (ring (sess st)))%Z ∧
    cur st = Z.max after (Tail (ring (sess st))) ∧
    resume = Strconv.FormatUint (cur st) ∧ phase st = PRead ∧ out st = [].
Proof.
  unfold handleStream, authHello, Get.
  destruct (Z.eqb_spec (ProtocolVersion h) 1); [|done]. cbn [negb].
  destruct (String.length (AuthProof h) =? String.length token); [|done].
  destruct (String.eqb_spec (AuthProof h) token); [|done]. cbn [negb orb].
  destruct (b !! hSessionID h) as [s|]; [|done].
  set (o := if (AfterOffset h =? "")%string then _ else _).
  destruct o as [after|] eqn:Eo; [|done].
  destruct (Attach s after) as [[[a r] g]|] eqn:Ea; [|done].
  intros [= <- <- <-]. cbn [sess att cur phase out].
  pose proof Ea as Ea'. unfold Attach in Ea'.
  destruct (exited s) eqn:Ex; [done|].
  destruct (Z.ltb_spec (Head (ring s)) after); [done|].
  split_and!; try done. exists after. split_and!; try done.
  - subst o. destruct (String.eqb_spec (AfterOffset h) ""); [|auto].
    left. split; [done|congruence].
  - destruct (Z.ltb_spec after (Tail (ring s))); injection Ea' as <- <- <-; lia.
Qed.

(** ** Witnesses *)

Definition sess_ex : Session :=
  mkSession "s1" (mkCmd "/bin/sh" [] "/" [] None) 42 "/dev/pts/0" 0 ring_ex 24 80
    false false noStatus 0 [].

(** A reader attached at offset 0 sees the first drop of a four byte ring: two
    bytes are reported lost, the other four are delivered. *)
Definition stream_ex : Stream :=
  pump true (pump true (pump true
    (with_sess (mkStream sess_ex (mkAtt 0 false zeroRange false) 0 PRead false [])
       (drainRead sess_ex [4; 5; 6]%Z)))).

Lemma stream_exact_witness :
  out stream_ex = [ODropped "0" "2"; OPTY [0; 0; 0; 0; 0; 0; 0; 2; 3; 4; 5; 6]%Z] ∧
  account [1; 2; 3; 4; 5; 6]%Z 0 (out stream_ex) = Some (cur stream_ex).
Proof.
  split; [vm_compute; reflexivity|].
  refine (proj1 (stream_exact [1; 2; 3]%Z sess_ex 0 (mkAtt 0 false zeroRange false) 0 false
    [1; 2; 3; 4; 5; 6]%Z stream_ex ring_ex_rep ltac:(lia) eq_refl _)).
  unfold stream_ex.
  eapply rtc_l; [apply (step_drain [1; 2; 3]%Z _ [4; 5; 6]%Z); [reflexivity|simpl; lia]|].
  do 3 (eapply rtc_l; [apply (step_pump _ _ true)|]). apply rtc_refl.
Defined.

Definition os_ex : CreateOS :=
  mkOS (Some (mkUser "0" "0" "root" "/root" None))
    (λ n, if (n =? "dev")%string then Some (mkUser "1000" "1000" "dev" "/home/dev" (Some ["1000"; "x"; "27"])) else None)
    (Some "/dev/pts/3") true (Some 77%Z) 5.

Definition spec_ex : SessionSpec :=
  mkSpec "s1" "dev" "" ["/bin/bash"; "-l"] "" 24 80 8192.

Definition created_ex : Session :=
  mkSession "s1" (sessionCmd spec_ex (mkUser "1000" "1000" "dev" "/home/dev" (Some ["1000"; "x"; "27"]))
    (Some (mkCred 1000 1000 [1000; 27]%Z))) 77 "/dev/pts/3" 5
    (NewRing 8192) 24 80 false false noStatus 0 [].

Lemma Create_safe_witness :
  Create ∅ ∅ spec_ex os_ex = Ok (created_ex, <["s1" := created_ex]> ∅) ∧
  ("-c" ∉ Args (cmd created_ex)).
Proof.
  assert (H : Create ∅ ∅ spec_ex os_ex = Ok (created_ex, <["s1" := created_ex]> ∅))
    by reflexivity.
  split; [exact H|]. exact (proj1 (proj2 (proj2 (Create_safe _ _ _ _ _ _ H)))).
Defined.

Lemma handleStream_admits_witness :
  exited (sess (mkStream sess_ex (mkAtt 1 false zeroRange false) 1 PRead false [])) = false.
Proof.
  assert (H : handleStream "tok" {["s1" := sess_ex]} (mkHello 1 "tok" "s1" "1")
    = Ok (mkStream sess_ex (mkAtt 1 false zeroRange false) 1 PRead false [], "1", false))
    by reflexivity.
  exact (proj1 (proj2 (proj2 (proj2 (handleStream_admits _ _ _ _ _ _ H))))).
Defined.

End PtySession.
