(* ===== verification/Terminal.v ===== *)
(** Host terminals (internal/terminal): the in-flight window of one browser, the
    writer lease of one session, and the session registry with its attachments.
    The clock's reading and the runner's replies are arguments of the operation
    that asks for them. *)

From S2P Require Import Prelude Wire PtyRing PtySession.

Local Open Scope Z_scope.

(** * window.go *)

Module Window.

Record Window := mkWindow { max : Z; sent : Z; acked : Z }.

Definition NewWindow (max startOffset : Z) : Window :=
  mkWindow (if max <=? 0 then 1 else max) startOffset startOffset.

Definition sentMinusAcked (w : Window) : Z := Int.u64 (sent w - acked w).

(** [Reserve]: the test is made in int64 arithmetic. *)
Definition Reserve (w : Window) (n : Z) : Window * bool :=
  if n <=? 0 then (w, true)
  else if max w <? Int.i64 (Int.i64 (sentMinusAcked w) + n) then (w, false)
  else (mkWindow (max w) (Int.u64 (sent w + Int.u64 n)) (acked w), true).

Definition Ack (w : Window) (offset : Z) : Window :=
  if offset <=? acked w then w
  else mkWindow (max w) (sent w) (if sent w <? offset then sent w else offset).

Definition InFlight (w : Window) : Z := Int.i64 (sentMinusAcked w).
Definition Available (w : Window) : Z := Int.i64 (max w - Int.i64 (sentMinusAcked w)).

Inductive op := OpReserve (n : Z) | OpAck (offset : Z).

Definition apply (w : Window) (o : op) : Window :=
  match o with OpReserve n => (Reserve w n).1 | OpAck off => Ack w off end.

(** The abstract window: at most [max] bytes are unacknowledged. *)
Record ok (w : Window) : Prop := {
  ok_max : 0 < max w < 2 ^ 63;
  ok_acked : 0 ≤ acked w ≤ sent w;
  ok_sent : sent w < 2 ^ 64;
  ok_bound : sent w - acked w ≤ max w
}.

Lemma ok_InFlight w : ok w → InFlight w = sent w - acked w.
Proof.
  intros []. unfold InFlight, sentMinusAcked.
  rewrite Int.u64_small, Int.i64_small; lia.
Qed.

(** The room a reservation may ask for without leaving the int64 range. *)
Definition admissible (w : Window) (o : op) : Prop :=
  match o with
  | OpReserve n => n < 2 ^ 63 - max w ∧ sent w + n < 2 ^ 64
  | OpAck off => 0 ≤ off < 2 ^ 64
  end.

Lemma Reserve_spec w n :
  ok w → admissible w (OpReserve n) →
  let '(w', granted) := Reserve w n in
  ok w' ∧ max w' = max w ∧ acked w' = acked w ∧
  granted = bool_decide (n ≤ 0 ∨ sent w - acked w + n ≤ max w) ∧
  sent w' = if granted then sent w + Z.max 0 n else sent w.
Proof.
  intros Hok [Hn Hs]. pose proof (ok_InFlight w Hok) as Hif. unfold InFlight in Hif.
  pose proof Hok as [? ? ? ?]. unfold Reserve.
  destruct (Z.leb_spec n 0).
  { rewrite bool_decide_eq_true_2 by lia. split_and!; try done; lia. }
  rewrite Hif, Int.i64_small by lia.
  destruct (Z.ltb_spec (max w) (sent w - acked w + n)).
  - rewrite bool_decide_eq_false_2 by lia. done.
  - rewrite bool_decide_eq_true_2 by lia. simpl.
    rewrite (Int.u64_small n), Int.u64_small by lia.
    split_and!; try done; [split; simpl; lia|lia].
Qed.

Lemma Ack_spec w off :
  ok w → ok (Ack w off) ∧ max (Ack w off) = max w ∧ sent (Ack w off) = sent w ∧
  acked (Ack w off) = Z.max (acked w) (Z.min off (sent w)).
Proof.
  intros Hok. pose proof Hok as [? ? ? ?]. unfold Ack.
  destruct (Z.leb_spec off (acked w)); [split_and!; done || lia|].
  destruct (Z.ltb_spec (sent w) off); simpl; split_and!; try done;
    try (split; simpl; lia); lia.
Qed.

(** the browser window is a bound. From a new window, over any sequence of
    reservations and acknowledgements (each within the int64 and uint64 ranges
    the counters have), the bytes in flight stay between 0 and the maximum,
    acknowledgements never move back and never pass what was sent; and in the
    state reached a reservation is granted exactly when the bytes in flight
    leave room for it. *)
Theorem window_bounded m start ops w' :
  0 < m < 2 ^ 63 → 0 ≤ start < 2 ^ 64 →
  w' = fold_left apply ops (NewWindow m start) →
  (∀ pre o post, ops = pre ++ o :: post →
     admissible (fold_left apply pre (NewWindow m start)) o) →
  max w' = m ∧ start ≤ acked w' ≤ sent w' ∧ InFlight w' = sent w' - acked w' ∧
  0 ≤ InFlight w' ≤ m ∧ Available w' = m - InFlight w' ∧
  ∀ n, 0 < n → admissible w' (OpReserve n) →
    ((Reserve w' n).2 = true ↔ n ≤ Available w').
Proof.
  intros Hm Hs Hw Hadm.
  assert (Hinv : ok w' ∧ max w' = m ∧ start ≤ acked w').
  { revert w' Hw. induction ops as [|o ops IH] using rev_ind; intros w' ->.
    - simpl. unfold NewWindow. rewrite (proj2 (Z.leb_gt _ _)) by lia.
      split; [split; simpl; lia|simpl; lia].
    - rewrite fold_left_app. simpl.
      destruct (IH) with (w' := fold_left apply ops (NewWindow m start))
        as (Hok & Hmx & Hst); [|done|].
      { intros pre o' post E. apply (Hadm pre o' (post ++ [o])). subst.
        by rewrite <- (assoc_L (++)). }
      specialize (Hadm ops o [] eq_refl).
      destruct o as [n|off]; simpl.
      + pose proof (Reserve_spec _ n Hok Hadm) as Hr. destruct (Reserve _ n) as [w2 g].
        destruct Hr as (? & ? & ? & _). simpl. split_and!; [done|lia|lia].
      + destruct (Ack_spec _ off Hok) as (? & ? & ? & ?). split_and!; [done|lia|lia]. }
  destruct Hinv as (Hok & Hmx & Hst). pose proof (ok_InFlight _ Hok) as Hif.
  pose proof Hok as [? ? ? ?].
  assert (Hav : Available w' = m - InFlight w').
  { unfold Available. fold (InFlight w'). rewrite Int.i64_small; lia. }
  split_and!; try done; try lia.
  intros n Hn Ha. pose proof (Reserve_spec _ n Hok Ha) as Hr.
  destruct (Reserve w' n) as [w2 g]. destruct Hr as (_ & _ & _ & -> & _). simpl.
  rewrite bool_decide_eq_true. lia.
Qed.

Lemma window_bounded_witness :
  let w := fold_left apply [OpReserve 60; OpReserve 50; OpAck 30; OpReserve 50]
             (NewWindow 100 7) in
  sent w = 117 ∧ acked w = 30 ∧ InFlight w ≤ 100.
Proof.
  split; [reflexivity|]. split; [reflexivity|].
  refine (proj2 (proj1 (proj2 (proj2 (proj2 (window_bounded 100 7
    [OpReserve 60; OpReserve 50; OpAck 30; OpReserve 50] _
    ltac:(lia) ltac:(lia) eq_refl _)))))).
  intros pre o post E.
  repeat (destruct pre as [|? pre]; [injection E as <- _; vm_compute; split; congruence|
                                     injection E as <- E]).
  by destruct pre.
Defined.

End Window.

(** * lease.go *)

Module Lease.

(** [changed] is a channel that is closed and replaced: a generation number. *)
Record Lease := mkLease {
  grace : Z;
  holder : string;
  releasedAt : Z;
  changed : nat
}.

Definition NewLease (grace : Z) : Lease :=
  mkLease (if grace <? 0 then 0 else grace) "" 0 0.

Definition notifyLocked (l : Lease) : Lease :=
  mkLease (grace l) (holder l) (releasedAt l) (S (changed l)).

Definition setHolder (l : Lease) (h : string) : Lease :=
  mkLease (grace l) h 0 (changed l).

Definition expireLocked (now : Z) (l : Lease) : Lease :=
  if (holder l =? "")%string || GoTime.IsZero (releasedAt l) then l
  else if grace l <=? GoTime.Sub now (releasedAt l) then notifyLocked (setHolder l "")
  else l.

Definition Acquire (now : Z) (l : Lease) (connID : string) : Lease * (bool * string) :=
  let l := expireLocked now l in
  if (holder l =? "")%string || (holder l =? connID)%string then
    let l' := if negb (holder l =? connID)%string then notifyLocked l else l in
    (setHolder l' connID, (true, connID))
  else (l, (false, holder l)).

Definition Release (now : Z) (l : Lease) (connID : string) : Lease :=
  let l := expireLocked now l in
  if negb (holder l =? connID)%string || negb (GoTime.IsZero (releasedAt l)) then l
  else mkLease (grace l) (holder l) now (changed l).

Definition Steal (now : Z) (l : Lease) (connID : string) : Lease * string :=
  let l := expireLocked now l in
  let previous := holder l in
  let l := setHolder l connID in
  if (previous =? connID)%string then (l, "") else (notifyLocked l, previous).

Definition Holder (now : Z) (l : Lease) : Lease * string :=
  let l := expireLocked now l in (l, holder l).

Definition IsWriter (now : Z) (l : Lease) (connID : string) : Lease * bool :=
  let l := expireLocked now l in
  (l, negb (holder l =? "")%string && (holder l =? connID)%string).

(** Every operation on a lease, with the reading of the clock it is made at. *)
Inductive op :=
  | OpAcquire (connID : string)
  | OpRelease (connID : string)
  | OpSteal (connID : string)
  | OpHolder
  | OpIsWriter (connID : string).

Definition apply (l : Lease) (e : Z * op) : Lease :=
  match e.2 with
  | OpAcquire c => (Acquire e.1 l c).1
  | OpRelease c => Release e.1 l c
  | OpSteal c => (Steal e.1 l c).1
  | OpHolder => (Holder e.1 l).1
  | OpIsWriter c => (IsWriter e.1 l c).1
  end.

Definition run (l : Lease) (es : list (Z * op)) : Lease := fold_left apply es l.

(** An event that takes the shell from [c]: a steal by another connection. *)
Definition steals_from (c : string) (e : Z * op) : bool :=
  match e.2 with OpSteal d => negb (d =? c)%string | _ => false end.

(** An event in which the holder itself lets go. *)
Definition releases (c : string) (e : Z * op) : bool :=
  match e.2 with OpRelease d => (d =? c)%string | _ => false end.

Lemma expireLocked_live now l :
  releasedAt l = 0 ∨ GoTime.Sub now (releasedAt l) < grace l → expireLocked now l = l.
Proof.
  unfold expireLocked, GoTime.IsZero. intros H.
  destruct (String.eqb_spec (holder l) ""); simpl; [done|].
  destruct (Z.eqb_spec (releasedAt l) 0); simpl; [done|].
  rewrite (proj2 (Z.leb_gt _ _)); [done|]. lia.
Qed.

Lemma expireLocked_grace now l : grace (expireLocked now l) = grace l.
Proof. unfold expireLocked. by repeat case_match. Qed.

(** What one event does to a holder [c] that is attached, or is within its
    grace window when the event happens. *)
Lemma apply_keeps l c e :
  c ≠ "" → holder l = c → steals_from c e = false →
  releasedAt l = 0 ∨ GoTime.Sub e.1 (releasedAt l) < grace l →
  holder (apply l e) = c ∧ grace (apply l e) = grace l ∧
  changed (apply l e) = changed l ∧
  (releases c e = false → releasedAt l = 0 → releasedAt (apply l e) = 0) ∧
  (releasedAt (apply l e) = 0 ∨ releasedAt (apply l e) = releasedAt l ∨
   releases c e = true ∧ releasedAt (apply l e) = e.1).
Proof.
  intros Hc Hh Hs Hlive. destruct e as [now o].
  pose proof (expireLocked_live now l Hlive) as Hx. simpl in *.
  unfold apply, steals_from, releases in *; cbn [fst snd] in *.
  destruct o as [d|d|d| |d]; unfold Acquire, Release, Steal, Holder, IsWriter in *;
    rewrite Hx; rewrite ?Hh; cbv zeta; simpl in *.
  - destruct (String.eqb_spec c ""); [done|].
    destruct (String.eqb_spec c d) as [->|]; simpl; split_and!; auto.
  - destruct (String.eqb_spec c d) as [->|Hne]; simpl.
    + rewrite String.eqb_refl. unfold GoTime.IsZero.
      destruct (Z.eqb_spec (releasedAt l) 0); simpl; split_and!; auto; done.
    + rewrite (proj2 (String.eqb_neq d c)) by congruence. split_and!; auto.
  - destruct (String.eqb_spec d c) as [->|]; [|done].
    rewrite String.eqb_refl. simpl. split_and!; auto.
  - split_and!; auto.
  - split_and!; auto.
Qed.

(** an attached writer keeps the shell. While a connection holds the
    lease and has not disconnected, no sequence of events (others acquiring,
    releasing or asking, at any times) that contains neither a steal by another
    connection nor its own release takes the lease away, and nobody watching is
    woken. *)
Theorem lease_attached_stable l c es :
  c ≠ "" → holder l = c → releasedAt l = 0 →
  Forall (λ e, steals_from c e = false ∧ releases c e = false) es →
  holder (run l es) = c ∧ changed (run l es) = changed l ∧
  ∀ now, (IsWriter now (run l es) c).2 = true ∧
    ∀ d, d ≠ c → (IsWriter now (run l es) d).2 = false ∧
                 (Acquire now (run l es) d).2 = (false, c).
Proof.
  intros Hc Hh Hr Hes.
  assert (Hinv : holder (run l es) = c ∧ changed (run l es) = changed l ∧
    releasedAt (run l es) = 0).
  { revert l Hh Hr. induction Hes as [|e es [He1 He2] _ IH]; intros l Hh Hr; [done|].
    destruct (apply_keeps l c e Hc Hh He1 (or_introl Hr)) as (H1 & H2 & H3 & H4 & _).
    simpl. unfold run in *. simpl. rewrite <- H3. apply IH; auto. }
  destruct Hinv as (H1 & H2 & H3). split; [done|]. split; [done|].
  intros now. unfold IsWriter, Acquire. rewrite expireLocked_live by auto.
  rewrite H1. destruct (String.eqb_spec c ""); [done|]. simpl.
  split; [apply String.eqb_refl|]. intros d Hd.
  by rewrite (proj2 (String.eqb_neq c d)) by congruence.
Qed.

(** A disconnect keeps the shell for the grace window and no longer. If the
    holder releases at a time [t], then after any sequence of events before
    [t + grace] that contains no steal and no return of the holder, it still
    holds the lease and nobody else can type; it regains it permanently by
    acquiring in that window; and from [t + grace] on the lease is free for
    the next one to ask. *)
Theorem lease_grace l c t es :
  c ≠ "" → holder l = c → releasedAt l = 0 → 0 < t → 0 < grace l →
  Forall (λ e, t ≤ e.1 < t + grace l ∧ e.1 - t ≤ Int.MaxInt64 ∧
               steals_from c e = false ∧ e.2 ≠ OpAcquire c ∧ e.2 ≠ OpSteal c) es →
  let l' := run (Release t l c) es in
  holder l' = c ∧ releasedAt l' = t ∧
  (∀ now, t ≤ now < t + grace l → now - t ≤ Int.MaxInt64 →
     (∀ d, d ≠ c → (Acquire now l' d).2 = (false, c)) ∧
     let '(l2, r) := Acquire now l' c in
     r = (true, c) ∧ holder l2 = c ∧ releasedAt l2 = 0) ∧
  (∀ now, t + grace l ≤ now → grace l ≤ Int.MaxInt64 →
     (Holder now l').2 = "" ∧
     ∀ d, d ≠ "" → (Acquire now l' d).2 = (true, d)).
Proof.
  intros Hc Hh Hr Ht Hg Hes l'.
  assert (Hsub : ∀ now, t ≤ now < t + grace l → now - t ≤ Int.MaxInt64 →
    GoTime.Sub now t < grace l).
  { intros now ? ?. rewrite GoTime.Sub_small; [lia|].
    unfold Int.MinInt64. lia. }
  assert (Hinv : holder l' = c ∧ releasedAt l' = t ∧ grace l' = grace l).
  { subst l'. assert (H0 : Release t l c = mkLease (grace l) c t (changed l)).
    { unfold Release. rewrite expireLocked_live by auto. rewrite Hh, Hr.
      by rewrite ?String.eqb_refl. }
    rewrite H0. set (l0 := mkLease _ _ _ _).
    assert (H1 : holder l0 = c ∧ releasedAt l0 = t ∧ grace l0 = grace l) by done.
    clearbody l0. clear H0.
    induction es as [|e es IH] using rev_ind; [done|].
    apply Forall_app in Hes as [Hes He]. apply Forall_singleton in He as (He1&He2&He3&He4&He5).
    unfold run. rewrite fold_left_app. simpl. fold (run l0 es).
    destruct (IH Hes) as (Ha & Hb & Hd).
    pose proof (Hsub e.1 He1 He2).
    destruct (apply_keeps (run l0 es) c e Hc Ha He3) as (K1 & K2 & _ & _ & K5).
    { right. rewrite Hb, Hd. done. }
    split_and!; [done| |congruence].
    destruct e as [now o]. unfold apply in *; cbn [fst snd] in *.
    pose proof (expireLocked_live now (run l0 es)) as Hx.
    rewrite Hb, Hd in Hx. specialize (Hx (or_intror H)).
    destruct o as [d|d|d| |d]; unfold Acquire, Release, Steal, Holder, IsWriter in *;
      rewrite Hx in *; rewrite ?Ha in *; cbv zeta; simpl in *.
    - destruct (String.eqb_spec c ""); [done|].
      destruct (String.eqb_spec c d); [congruence|done].
    - unfold GoTime.IsZero. rewrite Hb, (proj2 (Z.eqb_neq t 0)) by lia.
      by rewrite orb_true_r.
    - unfold steals_from in He3. simpl in He3.
      destruct (String.eqb_spec d c); [congruence|done].
    - done.
    - done. }
  destruct Hinv as (Ha & Hb & Hd). clearbody l'.
  split; [done|]. split; [done|]. split.
  - intros now Hn1 Hn2. pose proof (Hsub now Hn1 Hn2) as Hs.
    unfold Acquire. rewrite expireLocked_live by (rewrite Hb, Hd; auto).
    rewrite Ha. destruct (String.eqb_spec c ""); [done|]. simpl. split.
    + intros d Hdc. by rewrite (proj2 (String.eqb_neq c d)) by congruence.
    + by rewrite ?String.eqb_refl.
  - intros now Hn Hgm. unfold Holder, Acquire.
    assert (Hx : expireLocked now l' = notifyLocked (setHolder l' "")).
    { unfold expireLocked, GoTime.IsZero. rewrite Ha, Hb, Hd.
      rewrite (proj2 (String.eqb_neq c "")), (proj2 (Z.eqb_neq t 0)) by (done || lia).
      simpl. rewrite (proj2 (Z.leb_le _ _)); [done|].
      unfold GoTime.Sub. repeat case_match; unfold Int.MinInt64, Int.MaxInt64 in *; lia. }
    rewrite Hx. simpl. split; [done|]. intros d Hd0. done.
Qed.

(** no watcher sleeps through a change of writer. Whatever the event, if
    the holder after it differs from the holder before it, the notification
    channel of before has been closed; and every connection that an operation
    reports as the writer is the holder it leaves. *)
Theorem lease_notifies l e :
  (holder (apply l e) ≠ holder l → (changed l < changed (apply l e))%nat) ∧
  (changed l ≤ changed (apply l e))%nat ∧
  (∀ c, (Acquire e.1 l c).2.1 = true → holder (Acquire e.1 l c).1 = c) ∧
  (∀ c, (IsWriter e.1 l c).2 = true → holder (IsWriter e.1 l c).1 = c ∧ c ≠ "") ∧
  (∀ c, holder (Steal e.1 l c).1 = c).
Proof.
  destruct e as [now o]. simpl.
  assert (Hexp : (holder (expireLocked now l) ≠ holder l →
      (changed l < changed (expireLocked now l))%nat) ∧
    (changed l ≤ changed (expireLocked now l))%nat).
  { unfold expireLocked. repeat case_match; simpl; split; lia || done. }
  destruct Hexp as [Hx1 Hx2].
  unfold apply, Acquire, Release, Steal, Holder, IsWriter; cbn [fst snd]; cbv zeta.
  set (x := expireLocked now l) in *. clearbody x.
  assert (Hsn : ∀ c, holder x ≠ c → (changed l < changed (notifyLocked x))%nat)
    by (simpl; lia).
  split_and!.
  - destruct o as [c|c|c| |c]; simpl; try done.
    + destruct (String.eqb_spec (holder x) ""), (String.eqb_spec (holder x) c);
        simpl; try done; try lia; intros; apply Hx1; congruence.
    + destruct (negb _ || negb _); done.
    + destruct (String.eqb_spec (holder x) c); simpl; [|lia].
      intros; apply Hx1; congruence.
  - destruct o; simpl; try done; repeat case_match; simpl; lia.
  - intros c. destruct (_ || _); simpl; done.
  - intros c. rewrite andb_true_iff, negb_true_iff, String.eqb_eq, String.eqb_neq.
    intros [? ?]. split; congruence.
  - intros c. case_match; done.
Qed.

Lemma lease_attached_stable_witness :
  (IsWriter 99 (run (mkLease 30 "a" 0 4) [(50, OpAcquire "b"); (60, OpRelease "b")]) "a").2
    = true.
Proof.
  refine (proj1 (proj2 (proj2 (lease_attached_stable (mkLease 30 "a" 0 4) "a"
    [(50, OpAcquire "b"); (60, OpRelease "b")] _ eq_refl eq_refl _)) 99)).
  - discriminate.
  - repeat constructor.
Defined.

Lemma lease_grace_witness :
  holder (run (Release 100 (mkLease 30 "a" 0 4) "a") [(129, OpAcquire "b")]) = "a" ∧
  (Holder 130 (run (Release 100 (mkLease 30 "a" 0 4) "a") [(129, OpAcquire "b")])).2 = "".
Proof.
  assert (Hes : Forall (λ e, 100 ≤ e.1 < 100 + 30 ∧ e.1 - 100 ≤ Int.MaxInt64 ∧
    steals_from "a" e = false ∧ e.2 ≠ OpAcquire "a" ∧ e.2 ≠ OpSteal "a")
    [(129, OpAcquire "b")]).
  { repeat constructor; simpl; done || lia. }
  destruct (lease_grace (mkLease 30 "a" 0 4) "a" 100 [(129, OpAcquire "b")]
    ltac:(done) eq_refl eq_refl ltac:(lia) ltac:(simpl; lia) Hes) as (H1 & _ & _ & H2).
  split; [exact H1|]. apply H2; simpl; unfold Int.MaxInt64; lia.
Defined.

End Lease.

(** * session.go and transport.go *)

Module Registry.

Inductive State := StateOpen | StateClosed.
#[export] Instance State_eq_dec : EqDecision State.
Proof. solve_decision. Defined.

(** The machine-readable causes of a terminal [Error]. *)
Inductive Cause :=
  | session_not_found
  | session_closed
  | session_stale
  | runner_unreachable
  | runner_refused
  | attach_refused
  | invalid_lease_mode
  | read_only
  | write_failed.

Record Spec := mkSpec {
  sOwner : string; sUser : string; sCwd : string; sArgv : list string;
  sTerm : string; sRows : Z; sCols : Z
}.

Record Session := mkSession {
  ID : string;
  VMID : string;
  BootID : string;
  Owner : string;
  CreatedAt : Z;
  state : State;
  Rows : Z;
  Cols : Z;
  Argv : list string;
  PID : Z;
  OutputBytes : Z;
  InputBytes : Z;
  WriterHolder : string;
  ClosedAt : Z;
  Reason : string;
  ExitCode : option Z;
  Signal : string
}.

Record Options := mkOptions {
  MaxReplayBytesPerSession : Z;
  MaxInflightBrowserBytes : Z;
  WriterLease : Z
}.

(** The defaults [NewRegistry] resolves. *)
Definition resolve (o : Options) : Options :=
  mkOptions
    (if MaxReplayBytesPerSession o <=? 0 then Z.shiftl 256 10 else MaxReplayBytesPerSession o)
    (if MaxInflightBrowserBytes o <=? 0 then Z.shiftl 1 20 else MaxInflightBrowserBytes o)
    (if WriterLease o <=? 0 then 30 * 1000000000 else WriterLease o).

(** [sessionState]. [live] holds the handles of the attachments that have a
    runner connection. *)
Record sessionState := mkState {
  session : Session;
  seq : Z;
  lease : Lease.Lease;
  live : gset nat;
  outputBytes : Z;
  inputBytes : Z;
  inputSeq : Z
}.

Record Registry := mkRegistry {
  opts : Options;
  sessions : gmap string sessionState;
  nextSeq : Z
}.

Definition NewRegistry (o : Options) : Registry := mkRegistry (resolve o) ∅ 0.

Definition with_lease (st : sessionState) (l : Lease.Lease) : sessionState :=
  mkState (session st) (seq st) l (live st) (outputBytes st) (inputBytes st) (inputSeq st).
Definition with_session (st : sessionState) (s : Session) : sessionState :=
  mkState s (seq st) (lease st) (live st) (outputBytes st) (inputBytes st) (inputSeq st).
Definition with_live (st : sessionState) (v : gset nat) : sessionState :=
  mkState (session st) (seq st) (lease st) v (outputBytes st) (inputBytes st) (inputSeq st).
Definition with_sessions (r : Registry) (m : gmap string sessionState) : Registry :=
  mkRegistry (opts r) m (nextSeq r).

(** [snapshot] asks the lease for its holder, which expires it when due. *)
Definition snapshot (now : Z) (st : sessionState) : sessionState * Session :=
  let '(l, h) := Lease.Holder now (lease st) in
  let s := session st in
  (with_lease st l,
   mkSession (ID s) (VMID s) (BootID s) (Owner s) (CreatedAt s) (state s) (Rows s)
     (Cols s) (Argv s) (PID s) (outputBytes st) (inputBytes st) h (ClosedAt s)
     (Reason s) (ExitCode s) (Signal s)).

(** The runner's terminal reply, and the outcome of one control verb. *)
Record TermReply := mkReply {
  rPID : Z; rBootID : string; rResumeOffset : string; rGap : bool;
  rReason : string; rExitCode : option Z; rSignal : string
}.

Inductive CtlOutcome :=
  | Unreachable
  | Refused
  | Reply (t : option TermReply).

(** [do]. *)
Definition do (o : CtlOutcome) : result Cause (option TermReply) :=
  match o with
  | Unreachable => Err runner_unreachable
  | Refused => Err runner_refused
  | Reply t => Ok t
  end.

(** [Create]: [id] is the minted session id. *)
Definition Create (r : Registry) (vmID : string) (spec : Spec) (id : string)
    (o : CtlOutcome) (now : Z) : result Cause (Session * Registry) :=
  reply ← do o;
  let s := mkSession id vmID (match reply with Some t => rBootID t | None => "" end)
             (sOwner spec) now StateOpen (sRows spec) (sCols spec) (sArgv spec)
             (match reply with Some t => rPID t | None => 0 end)
             0 0 "" 0 "" None "" in
  let n := Int.u64 (nextSeq r + 1) in
  Ok (s, mkRegistry (opts r)
           (<[id := mkState s n (Lease.NewLease (WriterLease (opts r))) ∅ 0 0 0]>
              (sessions r)) n).

Definition Get (now : Z) (r : Registry) (id : string) : Registry * option Session :=
  match sessions r !! id with
  | None => (r, None)
  | Some st =>
    let '(st', s) := snapshot now st in
    (with_sessions r (<[id := st']> (sessions r)), Some s)
  end.

Definition seq_le (a b : sessionState) : Prop := seq a ≤ seq b.
#[export] Instance seq_le_dec a b : Decision (seq_le a b).
Proof. unfold seq_le. apply _. Defined.

(** The states of one VM's sessions, oldest first. *)
Definition statesForVM (r : Registry) (vmID : string) : list sessionState :=
  merge_sort seq_le
    (filter (λ st, VMID (session st) = vmID) (map_to_list (sessions r)).*2).

Definition ListForVM (now : Z) (r : Registry) (vmID : string) : Registry * list Session :=
  (with_sessions r
     ((λ st, if decide (VMID (session st) = vmID) then (snapshot now st).1 else st)
        <$> sessions r),
   (λ st, (snapshot now st).2) <$> statesForVM r vmID).

(** [Close], in its two critical sections: the first decides whether there is
    anything to close, the second (on the registry as it is after the runner's
    reply) closes it and returns the attachments whose streams are to be closed. *)
Definition closeBegin (r : Registry) (id : string) : option string :=
  match sessions r !! id with
  | None => None
  | Some st =>
    if decide (state (session st) = StateClosed) then None else Some (VMID (session st))
  end.

Definition closeSession (s : Session) (t : option TermReply) (now : Z) : Session :=
  mkSession (ID s) (VMID s) (BootID s) (Owner s) (CreatedAt s) StateClosed (Rows s)
    (Cols s) (Argv s) (PID s) (OutputBytes s) (InputBytes s) (WriterHolder s) now
    (match t with Some t => rReason t | None => Reason s end)
    (match t with Some t => rExitCode t | None => ExitCode s end)
    (match t with Some t => rSignal t | None => Signal s end).

Definition closeEnd (r : Registry) (id : string) (o : CtlOutcome) (now : Z)
    : result Cause (Registry * gset nat) :=
  reply ← do o;
  match sessions r !! id with
  | None => Ok (r, ∅)
  | Some st =>
    let st' := with_live (with_session st (closeSession (session st) reply now)) ∅ in
    Ok (with_sessions r (<[id := st']> (sessions r)), live st)
  end.

(** ** Attachments *)

Record AttachRequest := mkAttachRequest {
  aSessionID : string;
  aAfterOffset : Z;
  aBootID : string;
  aConnID : string;
  aSteal : bool
}.

Record Attachment := mkAttachment {
  attSession : string;
  attConn : string;
  handle : nat;
  ResumeOffset : Z;
  Gap : bool;
  window : Window.Window
}.

(** [Attach] up to the runner's reply. *)
Definition attachBegin (r : Registry) (req : AttachRequest) : result Cause Session :=
  match sessions r !! aSessionID req with
  | None => Err session_not_found
  | Some st =>
    let s := session st in
    if decide (state s = StateClosed) then Err session_closed
    else if negb (aBootID req =? "")%string && negb (BootID s =? aBootID req)%string
    then Err session_stale
    else Ok s
  end.

Definition parseOffset (s : string) : option Z :=
  if (s =? "")%string then Some 0 else Strconv.ParseUint s 64.

(** The runner's answer to an attach: not reachable, refused, or a stream. *)
Definition attachReply (s : Session) (o : CtlOutcome) : result Cause (Z * bool) :=
  match o with
  | Unreachable => Err runner_unreachable
  | Refused => Err attach_refused
  | Reply None => Ok (0, false)
  | Reply (Some t) =>
    match parseOffset (rResumeOffset t) with
    | None => Err attach_refused
    | Some off =>
      if negb (rBootID t =? "")%string && negb (BootID s =? "")%string
         && negb (rBootID t =? BootID s)%string
      then Err session_stale
      else Ok (off, rGap t)
    end
  end.

(** The rest of [Attach], on the registry as it is after the reply: the lease
    is asked for before the session is looked at again. [h] is the handle of
    the new attachment. *)
Definition attachEnd (now : Z) (r : Registry) (s : Session) (req : AttachRequest)
    (o : CtlOutcome) (h : nat) : Registry * result Cause Attachment :=
  match attachReply s o with
  | Err e => (r, Err e)
  | Ok (off, gap) =>
    match sessions r !! ID s with
    | None => (r, Err session_not_found)
    | Some st =>
      let l := if aSteal req then (Lease.Steal now (lease st) (aConnID req)).1
               else (Lease.Acquire now (lease st) (aConnID req)).1 in
      let st := with_lease st l in
      if decide (state (session st) = StateClosed) then
        (with_sessions r (<[ID s := st]> (sessions r)), Err session_closed)
      else
        (with_sessions r (<[ID s := with_live st ({[h]} ∪ live st)]> (sessions r)),
         Ok (mkAttachment (ID s) (aConnID req) h off gap
               (Window.NewWindow (MaxInflightBrowserBytes (opts r)) off)))
    end
  end.

(** [Attachment.Close]. *)
Definition closeAttachment (now : Z) (r : Registry) (a : Attachment) : Registry :=
  match sessions r !! attSession a with
  | None => r
  | Some st =>
    let st := with_lease st (Lease.Release now (lease st) (attConn a)) in
    with_sessions r
      (<[attSession a := with_live st (live st ∖ {[handle a]})]> (sessions r))
  end.

Definition ptyHeaderBytes : nat := 8.
Definition maxPTYInputBytes : nat :=
  (Z.to_nat Frame.MaxBinaryFrame - ptyHeaderBytes)%nat.

(** The loop of [WriteInput]: at least one frame, each with the next sequence
    number of the session; [out] is what is on the stream so far. A refused
    frame ends it. The fuel is one more than the payload's length. *)
Fixpoint writeLoop (fuel : nat) (st : sessionState) (b out : list Z)
    : sessionState * result Cause (list Z) :=
  match fuel with
  | O => (st, Ok out)
  | S fuel =>
    let chunk := take maxPTYInputBytes b in
    let sq := Int.u64 (inputSeq st + 1) in
    let st := mkState (session st) (seq st) (lease st) (live st) (outputBytes st)
                (inputBytes st) sq in
    match Frame.WriteFrame Frame.FramePTY (BigEndian.PutUint64 sq ++ chunk) with
    | Err _ => (st, Err write_failed)
    | Ok w =>
      let st := mkState (session st) (seq st) (lease st) (live st) (outputBytes st)
                  (Int.u64 (inputBytes st + Z.of_nat (length chunk))) sq in
      match drop (length chunk) b with
      | [] => (st, Ok (out ++ w))
      | rest => writeLoop fuel st rest (out ++ w)
      end
    end
  end.

(** [WriteInput] over a connection whose writes succeed: the bytes put on the
    stream, refused unless the attachment holds the lease. *)
Definition WriteInput (now : Z) (st : sessionState) (connID : string) (b : list Z)
    : sessionState * result Cause (list Z) :=
  let '(l, w) := Lease.IsWriter now (lease st) connID in
  let st := with_lease st l in
  if negb w then (st, Err read_only)
  else writeLoop (S (length b)) st b [].

(** [RequestLease]. *)
Inductive LeaseMode := LeaseAcquire | LeaseSteal | LeaseRelease | LeaseOther.

Definition RequestLease (now : Z) (r : Registry) (sessionID connID : string)
    (mode : LeaseMode) : Registry * result Cause (bool * string) :=
  match sessions r !! sessionID with
  | None => (r, Err session_not_found)
  | Some st =>
    if decide (state (session st) = StateClosed) then (r, Err session_closed)
    else
      let put l := with_sessions r (<[sessionID := with_lease st l]> (sessions r)) in
      match mode with
      | LeaseAcquire =>
        let '(l, (ok, h)) := Lease.Acquire now (lease st) connID in (put l, Ok (ok, h))
      | LeaseSteal => (put (Lease.Steal now (lease st) connID).1, Ok (true, connID))
      | LeaseRelease =>
        let '(l, h) := Lease.Holder now (Lease.Release now (lease st) connID) in
        (put l, Ok (false, h))
      | LeaseOther => (r, Err invalid_lease_mode)
      end
  end.

(** ** Typing through the host and the guest *)

Lemma maxPTYInputBytes_val : Z.of_nat maxPTYInputBytes = 262136.
Proof. reflexivity. Qed.

#[local] Opaque maxPTYInputBytes.

Lemma pty_frame_ok sq chunk :
  (length chunk ≤ maxPTYInputBytes)%nat →
  Frame.frame_ok (Frame.FramePTY, BigEndian.PutUint64 sq ++ chunk).
Proof.
  intros H. pose proof maxPTYInputBytes_val. unfold Frame.frame_ok; cbn [fst snd].
  rewrite length_app. change (length (BigEndian.PutUint64 sq)) with 8%nat.
  change (Frame.maxLen Frame.FramePTY) with 262144. lia.
Qed.

Lemma streamIn_pty dec g sq chunk fs :
  0 ≤ sq < 2 ^ 64 → PtySession.lastSeq g < sq →
  ∃ g', PtySession.streamIn dec g ((Frame.FramePTY, BigEndian.PutUint64 sq ++ chunk) :: fs)
          = PtySession.streamIn dec g' fs ∧
    PtySession.typed g' = PtySession.typed g ++ chunk ∧ PtySession.lastSeq g' = sq.
Proof.
  intros Hsq Hlt. cbn [PtySession.streamIn].
  unfold PtySession.streamInFrame. rewrite Z.eqb_refl.
  rewrite decide_False by (rewrite length_app;
    change (length (BigEndian.PutUint64 sq)) with 8%nat; lia).
  rewrite BigEndian.Uint64_Put, Int.u64_small by lia.
  change (skipn 8 (BigEndian.PutUint64 sq ++ chunk)) with chunk.
  unfold PtySession.Input. rewrite (proj2 (Z.leb_gt _ _)) by lia.
  eexists. split; [reflexivity|]. done.
Qed.

Lemma writeLoop_spec fuel st b out :
  (length b < fuel)%nat → 0 ≤ inputSeq st → inputSeq st + Z.of_nat fuel < 2 ^ 64 →
  ∃ st' fs, writeLoop fuel st b out
      = (st', Ok (out ++ concat (Frame.encode <$> fs))) ∧
    Forall Frame.frame_ok fs ∧ lease st' = lease st ∧
    inputBytes st' = Int.u64 (Int.u64 (inputBytes st) + Z.of_nat (length b)) ∧
    ∀ dec g, PtySession.lastSeq g ≤ inputSeq st →
      PtySession.typed (PtySession.streamIn dec g fs) = PtySession.typed g ++ b ∧
      PtySession.lastSeq (PtySession.streamIn dec g fs) = inputSeq st'.
Proof.
  revert st b out. induction fuel as [|fuel IH]; intros st b out Hl H0 Hb; [lia|].
  pose proof maxPTYInputBytes_val as Hmax. cbn [writeLoop].
  set (chunk := take maxPTYInputBytes b). cbn [inputSeq inputBytes session seq lease live outputBytes].
  rewrite (Int.u64_small (inputSeq st + 1)) by lia.
  set (f := (Frame.FramePTY, BigEndian.PutUint64 (inputSeq st + 1) ++ chunk)).
  assert (Hf : Frame.frame_ok f) by (apply pty_frame_ok; unfold chunk; rewrite length_take; lia).
  pose proof (Frame.WriteFrame_encode f Hf) as Hw. cbn [f fst snd] in Hw. rewrite Hw.
  assert (Hsplit : b = chunk ++ drop (length chunk) b).
  { unfold chunk. rewrite length_take.
    destruct (decide (maxPTYInputBytes ≤ length b)%nat).
    - rewrite min_l by lia. by rewrite take_drop.
    - rewrite min_r by lia. rewrite drop_all, app_nil_r, take_ge by lia. done. }
  set (rest := drop (length chunk) b) in *.
  destruct rest as [|x rest'] eqn:Er.
  - rewrite app_nil_r in Hsplit. eexists _, [f]. split_and!.
    + change (concat (Frame.encode <$> [f])) with (Frame.encode f ++ []).
      rewrite (app_nil_r (Frame.encode f)). reflexivity.
    + by constructor.
    + done.
    + cbn [inputBytes]. rewrite <- Hsplit. unfold Int.u64.
      by rewrite Z.add_mod_idemp_l by lia.
    + intros dec g Hg.
      destruct (streamIn_pty dec g (inputSeq st + 1) chunk []) as (g' & E & Ht & Hls); [lia..|].
      fold f in E. rewrite E.
      cbn [PtySession.streamIn]. split; [by rewrite Ht, <- Hsplit|done].
  - rewrite <- Er. set (st1 := mkState _ _ _ _ _ _ _).
    assert (Hlen : (length chunk + length rest = length b)%nat).
    { unfold rest, chunk. rewrite length_drop, !length_take. lia. }
    assert (Hc : (0 < length chunk)%nat).
    { assert (0 < length b)%nat by (rewrite <- Hlen; rewrite Er; simpl; lia).
      unfold chunk. rewrite length_take. lia. }
    destruct (IH st1 rest (out ++ Frame.encode f)) as (st' & fs & Hr & Hfs & Hle & Hib & Hg);
      [lia|simpl; lia|simpl; lia|].
    exists st', (f :: fs). split_and!.
    + rewrite Hr. f_equal. f_equal. rewrite fmap_cons. cbn [concat].
      by rewrite (assoc_L (++)).
    + by constructor.
    + done.
    + rewrite Hib. cbn [st1 inputBytes]. rewrite <- Hlen. unfold Int.u64.
      rewrite Z.mod_mod, !Z.add_mod_idemp_l by lia. f_equal. lia.
    + intros dec g Hgl.
      destruct (streamIn_pty dec g (inputSeq st + 1) chunk fs) as (g' & E & Ht & Hls); [lia..|].
      fold f in E. rewrite E.
      destruct (Hg dec g') as [Ht' Hls']; [simpl; lia|]. split; [|done].
      rewrite Ht', Ht, <- (assoc_L (++)). f_equal. rewrite Hsplit. by rewrite Er.
Qed.

(** what the writer types reaches the shell once and in full. If the
    attachment holds the lease, [WriteInput b] succeeds however long the paste
    is; the connection carries well-formed frames, and a guest that has not seen
    a higher sequence number types exactly the bytes of [b], in order, after
    what it typed before, and ends at the session's own input sequence, so the
    next write continues from there. An attachment without the lease writes
    nothing. *)
Theorem WriteInput_types now st connID b dec g :
  0 ≤ inputSeq st → inputSeq st + Z.of_nat (S (length b)) < 2 ^ 64 →
  PtySession.lastSeq g ≤ inputSeq st →
  let '(st', r) := WriteInput now st connID b in
  match r with
  | Ok w =>
    (Lease.IsWriter now (lease st) connID).2 = true ∧
    ∃ fs, Frame.read_all (S (length fs)) w = (fs, Frame.ErrReadHeader EOF) ∧
      PtySession.typed (PtySession.streamIn dec g fs) = PtySession.typed g ++ b ∧
      PtySession.lastSeq (PtySession.streamIn dec g fs) = inputSeq st'
  | Err e =>
    e = read_only ∧ (Lease.IsWriter now (lease st) connID).2 = false ∧
    inputSeq st' = inputSeq st
  end.
Proof.
  intros H0 Hb Hg. unfold WriteInput.
  destruct (Lease.IsWriter now (lease st) connID) as [l w].
  destruct w; cbn [negb]; [|done].
  destruct (writeLoop_spec (S (length b)) (with_lease st l) b [])
    as (st' & fs & -> & Hfs & _ & _ & Hty); [lia|done|done|].
  split; [done|]. exists fs. split; [|by apply Hty].
  by apply (Frame.read_all_encode fs); [|lia].
Qed.

(** ** The registry as a state machine *)

(** Every operation that changes the registry, with any runner outcome, clock
    reading and interleaving of the critical sections of [Close] and [Attach]
    (whose second halves run on whatever the registry has become). Session ids
    are minted fresh. *)
Inductive rstep : Registry → Registry → Prop :=
  | rs_create r vm spec id o now s r' :
      sessions r !! id = None → nextSeq r + 1 < 2 ^ 64 →
      Create r vm spec id o now = Ok (s, r') → rstep r r'
  | rs_get r now id : rstep r (Get now r id).1
  | rs_list r now vm : rstep r (ListForVM now r vm).1
  | rs_close r id o now r' hs : closeEnd r id o now = Ok (r', hs) → rstep r r'
  | rs_attach r now s req o h : rstep r (attachEnd now r s req o h).1
  | rs_detach r now a : rstep r (closeAttachment now r a)
  | rs_lease r now id c m : rstep r (RequestLease now r id c m).1
  | rs_write r now id st c b :
      sessions r !! id = Some st →
      rstep r (with_sessions r (<[id := (WriteInput now st c b).1]> (sessions r))).

(** What an operation may do to one session: keep its identity and creation
    rank, never reopen it, and leave no attachment on a closed one. *)
Definition evolves (st st' : sessionState) : Prop :=
  ID (session st') = ID (session st) ∧ VMID (session st') = VMID (session st) ∧
  BootID (session st') = BootID (session st) ∧ seq st' = seq st ∧
  (state (session st) = StateClosed → state (session st') = StateClosed) ∧
  ((state (session st) = StateClosed → live st = ∅) →
   state (session st') = StateClosed → live st' = ∅).

#[export] Instance evolves_refl : Reflexive evolves.
Proof. intros st. by split_and!. Qed.

Lemma evolves_lease st l : evolves st (with_lease st l).
Proof. by split_and!. Qed.

Lemma evolves_snapshot now st : evolves st (snapshot now st).1.
Proof. unfold snapshot. destruct (Lease.Holder _ _). apply evolves_lease. Qed.

Lemma evolves_writeLoop fuel st b out : evolves st (writeLoop fuel st b out).1.
Proof.
  revert st b out. induction fuel as [|fuel IH]; intros st b out; [done|].
  cbn [writeLoop]. destruct (Frame.WriteFrame _ _); [|by split_and!].
  destruct (drop _ b); [by split_and!|]. set (st1 := mkState _ _ _ _ _ _ _).
  pose proof (IH st1 (z :: l) (out ++ a)) as (?&?&?&?&?&?). by split_and!.
Qed.

(** The invariant: sessions are filed under their own id, ranks are distinct
    and bounded, a closed session has no attachment. *)
Record reg_ok (r : Registry) : Prop := {
  ok_id : ∀ id st, sessions r !! id = Some st → ID (session st) = id;
  ok_seq : ∀ id st, sessions r !! id = Some st → 0 < seq st ≤ nextSeq r;
  ok_inj : ∀ id1 id2 st1 st2, sessions r !! id1 = Some st1 →
    sessions r !! id2 = Some st2 → seq st1 = seq st2 → id1 = id2;
  ok_live : ∀ id st, sessions r !! id = Some st →
    state (session st) = StateClosed → live st = ∅
}.

(** [refines_to r r']: [r'] has the sessions of [r], each evolved. *)
Definition same_sessions (r r' : Registry) : Prop :=
  nextSeq r' = nextSeq r ∧
  ∀ id, option_Forall2 evolves (sessions r !! id) (sessions r' !! id).

Lemma same_sessions_refl r : same_sessions r r.
Proof. split; [done|]. intros id. destruct (sessions r !! id); by constructor. Qed.

Lemma same_sessions_insert r id st st' :
  sessions r !! id = Some st → evolves st st' →
  same_sessions r (with_sessions r (<[id := st']> (sessions r))).
Proof.
  intros Hid Hev. split; [done|]. intros k. simpl.
  destruct (decide (k = id)) as [->|].
  - rewrite Hid, lookup_insert_eq. by constructor.
  - rewrite lookup_insert_ne by done. destruct (sessions r !! k); by constructor.
Qed.

Lemma same_sessions_ok r r' : same_sessions r r' → reg_ok r → reg_ok r'.
Proof.
  intros [Hn Hs] [H1 H2 H3 H4].
  assert (Hinv : ∀ id st', sessions r' !! id = Some st' →
    ∃ st, sessions r !! id = Some st ∧ evolves st st').
  { intros id st' E. specialize (Hs id). rewrite E in Hs.
    inversion Hs; subst. eauto. }
  split; rewrite ?Hn.
  - intros id st' E. destruct (Hinv _ _ E) as (st & E' & Hev).
    destruct Hev as (-> & _). by apply H1.
  - intros id st' E. destruct (Hinv _ _ E) as (st & E' & (_&_&_&Hq&_)).
    rewrite Hq. by eapply H2.
  - intros id1 id2 st1 st2 E1 E2 Hq.
    destruct (Hinv _ _ E1) as (s1 & E1' & (_&_&_&Hq1&_)).
    destruct (Hinv _ _ E2) as (s2 & E2' & (_&_&_&Hq2&_)).
    eapply H3; [done..|congruence].
  - intros id st' E. destruct (Hinv _ _ E) as (st & E' & (_&_&_&_&_&Hl)).
    apply Hl. by eapply H4.
Qed.

Lemma Create_Ok r vm spec id o now s r' :
  Create r vm spec id o now = Ok (s, r') → nextSeq r + 1 < 2 ^ 64 → 0 ≤ nextSeq r →
  r' = mkRegistry (opts r)
         (<[id := mkState s (nextSeq r + 1) (Lease.NewLease (WriterLease (opts r))) ∅ 0 0 0]>
            (sessions r)) (nextSeq r + 1) ∧
  ID s = id ∧ VMID s = vm ∧ state s = StateOpen.
Proof.
  unfold Create. intros H Hn H0. apply result_bind_Ok in H as (rep & _ & H).
  rewrite Int.u64_small in H by lia. injection H as <- <-. done.
Qed.

(** A step is a creation or leaves the set of sessions alone. *)
Lemma rstep_cases r r' :
  rstep r r' → same_sessions r r' ∨
  ∃ vm spec id o now s, sessions r !! id = None ∧ nextSeq r + 1 < 2 ^ 64 ∧
    Create r vm spec id o now = Ok (s, r').
Proof.
  destruct 1 as [r vm spec id o now s r' ? ? ?|r now id|r now vm|r id o now r' hs Hc
    |r now s req o h|r now a|r now id c m|r now id st c b Hid];
    [right; by repeat eexists|left..].
  - unfold Get. destruct (sessions r !! id) as [st|] eqn:E; [|apply same_sessions_refl].
    pose proof (evolves_snapshot now st). destruct (snapshot now st).
    by eapply same_sessions_insert.
  - split; [done|]. intros id. simpl. rewrite lookup_fmap.
    destruct (sessions r !! id); simpl; constructor.
    case_decide; [apply evolves_snapshot|done].
  - unfold closeEnd in Hc. apply result_bind_Ok in Hc as (t & _ & Hc).
    destruct (sessions r !! id) as [st|] eqn:E; injection Hc as <- <-;
      [|apply same_sessions_refl].
    eapply same_sessions_insert; [done|]. by split_and!.
  - unfold attachEnd. destruct (attachReply s o) as [[off gap]|]; [|apply same_sessions_refl].
    destruct (sessions r !! ID s) as [st|] eqn:E; [|apply same_sessions_refl].
    set (l := if aSteal req then _ else _).
    case_decide; (eapply same_sessions_insert; [done|]); [apply evolves_lease|].
    by split_and!.
  - unfold closeAttachment. destruct (sessions r !! attSession a) eqn:E; [|apply same_sessions_refl].
    eapply same_sessions_insert; [done|]. split_and!; try done. simpl.
    intros Hl Hst. rewrite (Hl Hst). set_solver.
  - unfold RequestLease. destruct (sessions r !! id) as [st|] eqn:E; [|apply same_sessions_refl].
    case_decide; [apply same_sessions_refl|].
    destruct m; [destruct (Lease.Acquire _ _ _) as [l [ok h]]| |
      destruct (Lease.Holder _ _) as [l h]|apply same_sessions_refl];
      (eapply same_sessions_insert; [done|apply evolves_lease]).
  - eapply same_sessions_insert; [done|]. unfold WriteInput.
    destruct (Lease.IsWriter _ _ _) as [l w]. destruct w; cbn [negb fst].
    + destruct (evolves_writeLoop (S (length b)) (with_lease st l) b []) as (?&?&?&?&?&?).
      by split_and!.
    + apply evolves_lease.
Qed.

Definition reg_inv (r : Registry) : Prop := reg_ok r ∧ 0 ≤ nextSeq r.

Lemma create_ok r vm spec id o now s r' :
  reg_inv r → sessions r !! id = None → nextSeq r + 1 < 2 ^ 64 →
  Create r vm spec id o now = Ok (s, r') → reg_inv r'.
Proof.
  intros [[H1 H2 H3 H4] H0] Hid Hn Hc.
  destruct (Create_Ok _ _ _ _ _ _ _ _ Hc Hn H0) as (-> & HID & _ & Hst).
  split; [|simpl; lia]. split; simpl.
  - intros k st [[<- <-]|[? ?]]%lookup_insert_Some; [done|by apply H1].
  - intros k st [[<- <-]|[? E]]%lookup_insert_Some; [simpl; lia|].
    specialize (H2 _ _ E). lia.
  - intros k1 k2 st1 st2 [[<- <-]|[? E1]]%lookup_insert_Some
      [[<- <-]|[? E2]]%lookup_insert_Some; simpl; intros Hq; try done.
    + specialize (H2 _ _ E2). lia.
    + specialize (H2 _ _ E1). lia.
    + by eapply H3.
  - intros k st [[<- <-]|[? E]]%lookup_insert_Some; [done|by eapply H4].
Qed.

Lemma rstep_inv r r' : rstep r r' → reg_inv r → reg_inv r'.
Proof.
  intros Hs Hi. destruct (rstep_cases _ _ Hs) as [Hss|(vm&spec&id&o&now&s&Hid&Hn&Hc)].
  - destruct Hi as [Hok H0]. split; [by eapply same_sessions_ok|].
    destruct Hss as [-> _]. done.
  - by eapply create_ok.
Qed.

Lemma rstep_closed r r' id st :
  rstep r r' → reg_inv r → sessions r !! id = Some st → state (session st) = StateClosed →
  ∃ st', sessions r' !! id = Some st' ∧ state (session st') = StateClosed.
Proof.
  intros Hs [_ H0] Hid Hc. destruct (rstep_cases _ _ Hs) as [[_ Hss]|(vm&spec&id'&o&now&s&Hid'&Hn&Hcr)].
  - specialize (Hss id). rewrite Hid in Hss. inversion Hss as [? st' Hev|]; subst.
    exists st'. split; [done|]. by apply Hev.
  - destruct (Create_Ok _ _ _ _ _ _ _ _ Hcr Hn H0) as (-> & _). simpl.
    exists st. rewrite lookup_insert_ne by congruence. done.
Qed.

Lemma reachable_inv o r : rtc rstep (NewRegistry o) r → reg_inv r.
Proof.
  intros H. assert (Hi : reg_inv (NewRegistry o)).
  { split; [|simpl; lia]. split; simpl; intros *; by rewrite lookup_empty. }
  revert Hi. induction H as [|? ? ? Hs _ IH]; [done|]. intros. by apply IH, (rstep_inv _ _ Hs).
Qed.

Lemma closed_forever r r' id st :
  rtc rstep r r' → reg_inv r → sessions r !! id = Some st →
  state (session st) = StateClosed →
  reg_inv r' ∧
  ∃ st', sessions r' !! id = Some st' ∧ state (session st') = StateClosed.
Proof.
  intros Hsteps. revert st. induction Hsteps as [r|r r1 r2 Hs _ IH]; intros st Hi Hid Hc; [eauto|].
  destruct (rstep_closed _ _ _ _ Hs Hi Hid Hc) as (st1 & E & Hc1).
  by apply (IH st1); [apply (rstep_inv _ _ Hs)|..].
Qed.

(** a closed terminal session leaks nothing and stays closed. In every
    registry reachable from a new one, whatever the interleaving of creates,
    attaches, closes, lease requests and runner outcomes: a closed session has
    no live attachment; closing it again is a no-op; an attach to it is
    refused, and an attach that was already in flight when it closed is refused
    at registration; and all of that remains so in every later state. *)
Theorem closed_session_no_leak o r r' id st :
  rtc rstep (NewRegistry o) r → sessions r !! id = Some st →
  state (session st) = StateClosed → rtc rstep r r' →
  ∃ st', sessions r' !! id = Some st' ∧ state (session st') = StateClosed ∧
    live st' = ∅ ∧ closeBegin r' id = None ∧
    (∀ req, aSessionID req = id → attachBegin r' req = Err session_closed) ∧
    (∀ now s req oc h, ID s = id →
       let '(r2, res) := attachEnd now r' s req oc h in
       is_ok res = false ∧ ∃ st2, sessions r2 !! id = Some st2 ∧ live st2 = ∅).
Proof.
  intros Hr Hid Hc Hsteps. pose proof (reachable_inv _ _ Hr) as Hi.
  destruct (closed_forever _ _ _ _ Hsteps Hi Hid Hc) as (Hi' & st' & Hid' & Hc').
  pose proof (ok_live _ (proj1 Hi') _ _ Hid' Hc') as Hl.
  exists st'. split_and!; try done.
  - unfold closeBegin. rewrite Hid'. by rewrite decide_True.
  - intros req <-. unfold attachBegin. rewrite Hid'. by rewrite decide_True.
  - intros now s req oc h <-. unfold attachEnd.
    destruct (attachReply s oc) as [[off gap]|]; [|eauto].
    rewrite Hid'. set (l := if aSteal req then _ else _). cbn [with_lease session].
    rewrite decide_True by done. split; [done|]. simpl.
    rewrite lookup_insert_eq. by eexists.
Qed.

(** An attachment that [Attach] hands out is to the shell it names. It is
    given only when the session was open when it was asked for and still is at
    registration, when the boot the caller asserts and the boot the runner
    reports are both the session's, and its window starts, empty, at the offset
    the runner resumes from. *)
Theorem attach_current r r1 req s now oc h r2 a :
  attachBegin r req = Ok s → attachEnd now r1 s req oc h = (r2, Ok a) →
  (∃ st, sessions r !! aSessionID req = Some st ∧ session st = s) ∧
  state s = StateOpen ∧ (aBootID req = "" ∨ BootID s = aBootID req) ∧
  (∃ st1 st2, sessions r1 !! ID s = Some st1 ∧ state (session st1) = StateOpen ∧
     sessions r2 !! ID s = Some st2 ∧ h ∈ live st2) ∧
  (∀ t, oc = Reply (Some t) →
     (rBootID t = "" ∨ BootID s = "" ∨ rBootID t = BootID s) ∧
     parseOffset (rResumeOffset t) = Some (ResumeOffset a) ∧ Gap a = rGap t) ∧
  Window.sent (window a) = ResumeOffset a ∧ Window.acked (window a) = ResumeOffset a ∧
  handle a = h ∧ attSession a = ID s.
Proof.
  unfold attachBegin, attachEnd. intros Hb He.
  destruct (sessions r !! aSessionID req) as [st|]; [|done].
  case_decide as Hst; [done|].
  destruct (negb (aBootID req =? "")%string && negb (BootID (session st) =? aBootID req)%string)
    eqn:Eb; [done|]. injection Hb as <-.
  destruct (attachReply (session st) oc) as [[off gap]|] eqn:Er; [|done].
  destruct (sessions r1 !! ID (session st)) as [st1|]; [|done].
  set (l := if aSteal req then _ else _) in He. cbn [with_lease session] in He.
  case_decide as Hst1; [done|]. injection He as <- <-. simpl.
  split; [eauto|]. split; [by destruct (state (session st))|]. split.
  { destruct (String.eqb_spec (aBootID req) ""); [auto|].
    destruct (String.eqb_spec (BootID (session st)) (aBootID req)); [auto|done]. }
  split.
  { eexists st1, _. split; [done|]. split; [by destruct (state (session st1))|].
    rewrite lookup_insert_eq. split; [done|]. simpl. set_solver. }
  split; [|done]. intros t ->. unfold attachReply in Er.
  destruct (parseOffset (rResumeOffset t)) as [off'|]; [|done].
  destruct (String.eqb_spec (rBootID t) ""), (String.eqb_spec (BootID (session st)) ""),
    (String.eqb_spec (rBootID t) (BootID (session st))); simpl in Er;
    try discriminate Er; injection Er as <- <-; auto.
Qed.

Lemma statesForVM_perm r vm :
  statesForVM r vm ≡ₚ filter (λ st, VMID (session st) = vm) (map_to_list (sessions r)).*2.
Proof. apply merge_sort_Permutation. Qed.

#[export] Instance seq_le_total : Total seq_le.
Proof. intros a b. unfold seq_le. lia. Qed.
#[export] Instance seq_le_trans : Transitive seq_le.
Proof. intros a b c. unfold seq_le. lia. Qed.

Lemma elem_of_statesForVM r vm st :
  st ∈ statesForVM r vm ↔
  VMID (session st) = vm ∧ ∃ id, sessions r !! id = Some st.
Proof.
  rewrite statesForVM_perm, list_elem_of_filter, list_elem_of_fmap.
  split; intros [H1 H2]; (split; [done|]).
  - destruct H2 as ([id st'] & -> & H%elem_of_map_to_list). simpl. eauto.
  - destruct H2 as (id & H%elem_of_map_to_list). by exists (id, st).
Qed.

(** a VM's sessions are listed in creation order, and a cursor over the
    list stays stable: creating a session appends it at the end of its VM's
    list and leaves every other VM's list as it was. *)
Theorem sessions_listed_in_order o r vm spec id oc now s r' vm' :
  rtc rstep (NewRegistry o) r → sessions r !! id = None → nextSeq r + 1 < 2 ^ 64 →
  Create r vm spec id oc now = Ok (s, r') →
  StronglySorted (λ a b, seq a < seq b) (statesForVM r vm') ∧
  ∃ st, session st = s ∧
    statesForVM r' vm' =
      statesForVM r vm' ++ (if decide (vm = vm') then [st] else []).
Proof.
  intros Hr Hid Hn Hc. pose proof (reachable_inv _ _ Hr) as [Hok H0].
  destruct (Create_Ok _ _ _ _ _ _ _ _ Hc Hn H0) as (-> & HID & HVM & _).
  assert (HS : StronglySorted seq_le (statesForVM r vm'))
    by (apply StronglySorted_merge_sort; apply _).
  split.
  { assert (Hnd : NoDup (statesForVM r vm')).
    { rewrite statesForVM_perm. apply NoDup_filter.
      apply NoDup_fmap_2_strong; [|apply NoDup_map_to_list].
      intros [k1 x1] [k2 x2] E1%elem_of_map_to_list E2%elem_of_map_to_list. simpl. intros ->.
      f_equal. by eapply (ok_inj _ Hok). }
    assert (Hin : ∀ st, st ∈ statesForVM r vm' → ∃ k, sessions r !! k = Some st)
      by (intros st Hst; by apply elem_of_statesForVM in Hst as [_ ?]).
    revert HS Hnd Hin. induction (statesForVM r vm') as [|a l IH]; intros HS Hnd Hin; [constructor|].
    apply StronglySorted_inv in HS as [HS Hf]. apply NoDup_cons in Hnd as [Ha Hnd].
    constructor; [apply IH; [done..|]; intros; apply Hin; by right|].
    rewrite Forall_forall in Hf |- *. intros b Hb. specialize (Hf b Hb). unfold seq_le in Hf.
    destruct (Hin a) as [ka Ea]; [by left|]. destruct (Hin b) as [kb Eb]; [by right|].
    assert (seq a ≠ seq b); [|lia]. intros E. apply Ha.
    assert (ka = kb) as -> by (by eapply (ok_inj _ Hok)). congruence. }
  eexists (mkState s (nextSeq r + 1) _ ∅ 0 0 0). split; [done|].
  set (new := mkState s _ _ _ _ _ _).
  apply (StronglySorted_unique_strong seq_le).
  - intros a b Ha Hb Hab Hba.
    apply elem_of_statesForVM in Ha as [_ [ka Ea]]. simpl in Ea.
    assert (Eb : ∃ kb, <[id := new]> (sessions r) !! kb = Some b).
    { apply elem_of_app in Hb as [Hb|Hb].
      - apply elem_of_statesForVM in Hb as [_ [kb Eb]].
        exists kb. rewrite lookup_insert_ne; [done|congruence].
      - case_decide; [|by apply elem_of_nil in Hb].
        apply list_elem_of_singleton in Hb as ->. exists id. apply lookup_insert_eq. }
    destruct Eb as [kb Eb].
    pose proof (create_ok _ _ _ _ _ _ _ _ (conj Hok H0) Hid Hn Hc) as [Hok' _].
    destruct (Create_Ok _ _ _ _ _ _ _ _ Hc Hn H0) as (Er & _).
    assert (ka = kb) as -> by (eapply (ok_inj _ Hok'); [rewrite ?Er; done..|unfold seq_le in *; lia]).
    congruence.
  - apply StronglySorted_merge_sort; apply _.
  - apply StronglySorted_app. split_and!; [|done|case_decide; repeat constructor].
    intros a b Ha Hb. apply elem_of_statesForVM in Ha as [_ [k Ek]].
    case_decide; [|by apply elem_of_nil in Hb].
    apply list_elem_of_singleton in Hb as ->.
    pose proof (ok_seq _ Hok _ _ Ek). unfold seq_le, new; simpl. lia.
  - rewrite !statesForVM_perm. simpl.
    rewrite map_to_list_insert by done. rewrite fmap_cons, filter_cons. simpl.
    rewrite HVM. case_decide; [|by rewrite app_nil_r]. by rewrite Permutation_app_comm.
Qed.

(** ** Witnesses *)

Definition opts_ex : Options := mkOptions 0 0 0.
Definition reply_ex : TermReply := mkReply 7 "boot-1" "5" true "" None "".
Definition spec_ex : Spec := mkSpec "op" "" "" ["/bin/sh"] "" 24 80.
Definition reg_ex : Registry :=
  match Create (NewRegistry opts_ex) "vm-1" spec_ex "t1" (Reply (Some reply_ex)) 9 with
  | Ok (_, r) => r | Err _ => NewRegistry opts_ex end.
Definition reg_closed : Registry :=
  match closeEnd reg_ex "t1" (Reply None) 11 with Ok (r, _) => r | Err _ => reg_ex end.

Lemma reg_ex_reach : rtc rstep (NewRegistry opts_ex) reg_ex.
Proof.
  apply rtc_once.
  apply (rs_create (NewRegistry opts_ex) "vm-1" spec_ex "t1" (Reply (Some reply_ex)) 9
    (mkSession "t1" "vm-1" "boot-1" "op" 9 StateOpen 24 80 ["/bin/sh"] 7 0 0 "" 0 "" None "") reg_ex);
    vm_compute; reflexivity.
Qed.

Lemma reg_closed_reach : rtc rstep (NewRegistry opts_ex) reg_closed.
Proof.
  eapply rtc_r; [apply reg_ex_reach|].
  apply (rs_close reg_ex "t1" (Reply None) 11 reg_closed ∅). vm_compute. reflexivity.
Qed.

Lemma WriteInput_types_witness :
  let st := mkState (mkSession "t1" "vm-1" "b" "o" 0 StateOpen 24 80 [] 1 0 0 "" 0 "" None "")
              1 (Lease.mkLease 30 "c1" 0 0) ∅ 0 0 4 in
  (WriteInput 50 st "c1" [104; 105]).2
    = Ok [2; 0; 0; 0; 10; 0; 0; 0; 0; 0; 0; 0; 5; 104; 105] ∧
  ∃ fs, PtySession.typed (PtySession.streamIn (λ _, None) PtySession.sess_ex fs)
    = [104; 105].
Proof.
  intros st. split; [vm_compute; reflexivity|].
  pose proof (WriteInput_types 50 st "c1" [104; 105] (λ _, None) PtySession.sess_ex
    ltac:(vm_compute; congruence) ltac:(vm_compute; congruence)
    ltac:(vm_compute; congruence)) as H.
  destruct (WriteInput 50 st "c1" [104; 105]) as [st' [w|e]] eqn:E.
  - destruct H as (_ & fs & _ & Ht & _). exists fs. exact Ht.
  - exfalso. vm_compute in E. discriminate E.
Defined.

Lemma closed_session_no_leak_witness :
  ∃ st', sessions reg_closed !! "t1" = Some st' ∧ live st' = ∅.
Proof.
  destruct (sessions reg_closed !! "t1") as [st|] eqn:E; [|vm_compute in E; discriminate].
  destruct (closed_session_no_leak opts_ex reg_closed reg_closed "t1" st
    reg_closed_reach E) as (st' & E' & _ & Hl & _).
  - vm_compute in E. injection E as <-. reflexivity.
  - apply rtc_refl.
  - exists st'. rewrite E in E'. split; assumption.
Defined.

Lemma attach_current_witness :
  ∃ s a r2, attachBegin reg_ex (mkAttachRequest "t1" 3 "boot-1" "c1" false) = Ok s ∧
    attachEnd 10 reg_ex s (mkAttachRequest "t1" 3 "boot-1" "c1" false)
      (Reply (Some reply_ex)) 0 = (r2, Ok a) ∧ Window.sent (window a) = ResumeOffset a.
Proof.
  do 3 eexists. split; [vm_compute; reflexivity|]. split; [vm_compute; reflexivity|].
  refine (proj1 (proj2 (proj2 (proj2 (proj2 (proj2 (attach_current reg_ex reg_ex
    (mkAttachRequest "t1" 3 "boot-1" "c1" false) _ 10 (Reply (Some reply_ex)) 0 _ _ _ _))))))).
  - vm_compute. reflexivity.
  - vm_compute. reflexivity.
Defined.

Lemma sessions_listed_in_order_witness :
  ∃ s r', Create reg_ex "vm-1" spec_ex "t2" (Reply None) 12 = Ok (s, r') ∧
    ∃ st, session st = s ∧ statesForVM r' "vm-1" = statesForVM reg_ex "vm-1" ++ [st].
Proof.
  do 2 eexists. split; [reflexivity|].
  refine (proj2 (sessions_listed_in_order opts_ex reg_ex "vm-1" spec_ex "t2" (Reply None) 12
    _ _ "vm-1" reg_ex_reach _ _ eq_refl)); vm_compute; reflexivity.
Defined.

End Registry.
