(* ===== verification/Events.v ===== *)
(** The event vocabulary (internal/events): the envelope, its validation and the
    registry of event kinds. The registry entries carry kind, family, schema
    version and provenance; the explanatory texts (semantics, caveats) that the
    code serves with them are left out. JSON objects are association lists. *)

From S2P Require Import Prelude.

Local Open Scope Z_scope.

Module Events.

(** * Envelope *)

#[local] Set Warnings "-register-all".

Inductive json :=
  | JNull
  | JBool (b : bool)
  | JNum (n : Z)
  | JStr (s : string)
  | JArr (l : list json)
  | JObj (l : list (string * json)).

Definition object := list (string * json).

(** Field access on a decoded object: the last binding of a key wins. *)
Fixpoint field (o : object) (k : string) : option json :=
  match o with
  | [] => None
  | (k', v) :: o' =>
    match field o' k with
    | Some w => Some w
    | None => if (k' =? k)%string then Some v else None
    end
  end.

Definition Provenance := string.
Definition HostObserved : Provenance := "host_observed".
Definition GuestReported : Provenance := "guest_reported".
Definition Derived : Provenance := "derived".

Definition PathNotApplicable : string := "not_applicable".
Definition AttributionNotApplicable : string := "not_applicable".

Record Quality := mkQuality {
  PathResolution : string;
  Attribution : string;
  Truncated : bool;
  Redacted : bool;
  RedactionPolicyID : string;
  Notes : list string
}.

Record Envelope := mkEnvelope {
  SchemaVersion : Z;
  EventID : option string;
  VMID : option string;
  BootID : option string;
  SourceInstanceID : string;
  SourceSeq : string;
  Kind : string;
  EProvenance : Provenance;
  Sensor : string;
  HostReceivedAt : Z;
  HostBootID : string;
  HostMonotonicNS : string;
  GuestWallAt : option Z;
  GuestMonotonicNS : option string;
  ProcessKey : option string;
  RunID : option string;
  RelatedEventIDs : list string;
  EQuality : Quality;
  Data : option object
}.

(** * Validation *)

Definition code (c : Ascii.ascii) : Z := Z.of_N (Ascii.N_of_ascii c).
Definition isDigit (c : Ascii.ascii) : bool := (48 <=? code c) && (code c <=? 57).
Definition isLower (c : Ascii.ascii) : bool := (97 <=? code c) && (code c <=? 122).
Definition isHex (c : Ascii.ascii) : bool := isDigit c || ((97 <=? code c) && (code c <=? 102)).
Definition isWord (c : Ascii.ascii) : bool := isLower c || isDigit c || (code c =? 95).

Fixpoint allChars (p : Ascii.ascii → bool) (s : string) : bool :=
  match s with
  | EmptyString => true
  | String c s' => p c && allChars p s'
  end.

(** decimalPattern: zero, or a digit sequence that does not start with zero. *)
Definition DecimalString (s : string) : bool :=
  match s with
  | EmptyString => false
  | String c EmptyString => isDigit c
  | String c s' => isDigit c && negb (code c =? 48) && allChars isDigit s'
  end.

(** uuidPattern: groups of lowercase hexadecimal digits of the given lengths,
    separated by dashes. *)
Fixpoint hexRun (n : nat) (k : string → bool) (s : string) : bool :=
  match n with
  | O => k s
  | S n' => match s with
            | EmptyString => false
            | String c s' => isHex c && hexRun n' k s'
            end
  end.

Definition dash (k : string → bool) (s : string) : bool :=
  match s with
  | EmptyString => false
  | String c s' => (code c =? 45) && k s'
  end.

Definition UUIDString (s : string) : bool :=
  hexRun 8 (dash (hexRun 4 (dash (hexRun 4 (dash (hexRun 4 (dash
    (hexRun 12 (λ s', String.eqb s' ""))))))))) s.

(** kindPattern: two or more dot-separated words, each a lowercase letter
    followed by letters, digits and underscores. [inWord] tells whether the
    current word has its first letter, [dots] whether a dot was seen. *)
Fixpoint kindRun (inWord dots : bool) (s : string) : bool :=
  match s with
  | EmptyString => inWord && dots
  | String c s' =>
    if inWord then
      if code c =? 46 then kindRun false true s'
      else isWord c && kindRun true dots s'
    else isLower c && kindRun true dots s'
  end.

Definition KindString (s : string) : bool := kindRun false false s.

(** The rules an envelope can break, as [Validate] lists them. *)
Inductive Problem :=
  | PSchemaVersion (v : Z)
  | PEventID (s : string)
  | PVMID (s : string)
  | PBootID (s : string)
  | PBootWithoutVM
  | PSourceInstanceID (s : string)
  | PSourceSeq (s : string)
  | PKind (s : string)
  | PProvenance (s : string)
  | PSensor (n : nat)
  | PHostReceivedAt
  | PHostBootID (s : string)
  | PHostMonotonicNS (s : string)
  | PGuestMonotonicNS (s : string)
  | PProcessKey
  | PRunID (s : string)
  | PRelatedCount
  | PRelatedID (s : string)
  | PRelatedRepeated (s : string)
  | PPathResolution (s : string)
  | PAttribution (s : string)
  | PNotes
  | PData.

Definition check (broken : bool) (p : Problem) : list Problem :=
  if broken then [p] else [].

Definition checkOpt (p : string → bool) (mk : string → Problem) (o : option string)
    : list Problem :=
  match o with Some s => check (negb (p s)) (mk s) | None => [] end.

Definition isSome {A} (o : option A) : bool := match o with Some _ => true | None => false end.

(** The loop over the related event ids, with the set of those seen. *)
Fixpoint relatedProblems (seen : list string) (ids : list string) : list Problem :=
  match ids with
  | [] => []
  | i :: ids =>
    check (negb (DecimalString i)) (PRelatedID i)
    ++ check (existsb (String.eqb i) seen) (PRelatedRepeated i)
    ++ relatedProblems (i :: seen) ids
  end.

Definition knownProvenance (p : Provenance) : bool :=
  existsb (String.eqb p) [HostObserved; GuestReported; Derived].
Definition knownPathResolution (p : string) : bool :=
  existsb (String.eqb p) ["exact_at_capture"; "inferred"; "unresolved"; "not_applicable"].
Definition knownAttribution (p : string) : bool :=
  existsb (String.eqb p) ["exact"; "inferred"; "unknown"; "not_applicable"].

Definition inRange (lo hi : nat) (s : string) : bool :=
  (lo <=? String.length s)%nat && (String.length s <=? hi)%nat.

Definition Validate (e : Envelope) : list Problem :=
  check (negb (SchemaVersion e =? 1)) (PSchemaVersion (SchemaVersion e))
  ++ checkOpt DecimalString PEventID (EventID e)
  ++ checkOpt UUIDString PVMID (VMID e)
  ++ checkOpt UUIDString PBootID (BootID e)
  ++ check (negb (isSome (VMID e)) && isSome (BootID e)) PBootWithoutVM
  ++ check (negb (UUIDString (SourceInstanceID e))) (PSourceInstanceID (SourceInstanceID e))
  ++ check (negb (DecimalString (SourceSeq e))) (PSourceSeq (SourceSeq e))
  ++ check (negb (inRange 3 96 (Kind e)) || negb (KindString (Kind e))) (PKind (Kind e))
  ++ check (negb (knownProvenance (EProvenance e))) (PProvenance (EProvenance e))
  ++ check (negb (inRange 1 64 (Sensor e))) (PSensor (String.length (Sensor e)))
  ++ check (GoTime.IsZero (HostReceivedAt e)) PHostReceivedAt
  ++ check (negb (HostBootID e =? "")%string && negb (UUIDString (HostBootID e)))
       (PHostBootID (HostBootID e))
  ++ check (negb (HostMonotonicNS e =? "")%string && negb (DecimalString (HostMonotonicNS e)))
       (PHostMonotonicNS (HostMonotonicNS e))
  ++ checkOpt DecimalString PGuestMonotonicNS (GuestMonotonicNS e)
  ++ checkOpt (inRange 1 256) (λ _, PProcessKey) (ProcessKey e)
  ++ checkOpt UUIDString PRunID (RunID e)
  ++ check (64 <? length (RelatedEventIDs e))%nat PRelatedCount
  ++ relatedProblems [] (RelatedEventIDs e)
  ++ check (negb (knownPathResolution (PathResolution (EQuality e))))
       (PPathResolution (PathResolution (EQuality e)))
  ++ check (negb (knownAttribution (Attribution (EQuality e))))
       (PAttribution (Attribution (EQuality e)))
  ++ check (16 <? length (Notes (EQuality e)))%nat PNotes
  ++ check (negb (isSome (Data e))) PData.

(** * The kind registry *)

Record KindInfo := mkKind {
  KKind : string;
  KFamily : string;
  KSchemaVersion : Z;
  KProvenance : Provenance
}.

#[export] Instance KindInfo_eq_dec : EqDecision KindInfo.
Proof. solve_decision. Defined.

Definition registry : list KindInfo :=
  [mkKind "fs.modify" "fs" 1 GuestReported;
   mkKind "telemetry.loss" "telemetry" 1 HostObserved;
   mkKind "telemetry.integrity_failure" "telemetry" 1 HostObserved;
   mkKind "telemetry.unregistered_kind" "telemetry" 1 HostObserved;
   mkKind "attention.raised" "attention" 1 HostObserved;
   mkKind "attention.queue_overflow" "attention" 1 HostObserved;
   mkKind "annotation.created" "annotation" 1 HostObserved;
   mkKind "vm.created" "vm" 1 HostObserved;
   mkKind "vm.state_changed" "vm" 1 HostObserved;
   mkKind "vm.cleanup_failed" "vm" 1 HostObserved;
   mkKind "vm.reconcile_ambiguous" "vm" 1 HostObserved;
   mkKind "vm.deleted" "vm" 1 HostObserved;
   mkKind "operation.state_changed" "operation" 1 HostObserved;
   mkKind "run.created" "run" 1 HostObserved;
   mkKind "run.state_changed" "run" 1 HostObserved;
   mkKind "run.progress" "run" 1 GuestReported;
   mkKind "run.result_recorded" "run" 1 HostObserved;
   mkKind "run.submission_rejected" "run" 1 HostObserved;
   mkKind "auth.session_created" "auth" 1 HostObserved;
   mkKind "auth.session_ended" "auth" 1 HostObserved;
   mkKind "auth.login_failed" "auth" 1 HostObserved;
   mkKind "auth.token_created" "auth" 1 HostObserved;
   mkKind "auth.token_revoked" "auth" 1 HostObserved;
   mkKind "guest.channel_established" "guest" 1 HostObserved;
   mkKind "guest.channel_lost" "guest" 1 HostObserved;
   mkKind "guest.sensor_health" "guest" 1 GuestReported;
   mkKind "vm.vmm_exited" "vm" 1 HostObserved;
   mkKind "spool.recovery_gap" "spool" 1 HostObserved;
   mkKind "net.flow.observed" "net.flow" 1 HostObserved;
   mkKind "dns.query" "dns" 1 HostObserved;
   mkKind "policy.denial" "policy" 1 HostObserved;
   mkKind "terminal.session_opened" "terminal" 1 HostObserved;
   mkKind "terminal.session_closed" "terminal" 1 HostObserved;
   mkKind "terminal.output_dropped" "terminal" 1 HostObserved].

(** [registryByKind]: a later entry of the same kind would replace an earlier one. *)
Definition registryByKind : gmap string KindInfo :=
  foldl (λ m k, <[KKind k := k]> m) ∅ registry.

Definition LookupKind (kind : string) : option KindInfo := registryByKind !! kind.

Definition kind_le (a b : KindInfo) : Prop := (KKind a ≤ KKind b)%string.
#[export] Instance kind_le_dec a b : Decision (kind_le a b).
Proof. unfold kind_le. apply _. Defined.

Definition Kinds : list KindInfo := merge_sort kind_le registry.

Definition KindsByFamily (family : string) : list string :=
  KKind <$> filter (λ k, KFamily k = family) registry.

Definition Families : list string :=
  merge_sort String.le (elements (list_to_set (KFamily <$> registry) : gset string)).

(** * Lemmas *)

Lemma check_nil b p : check b p = [] ↔ b = false.
Proof. destruct b; done. Qed.

Lemma checkOpt_nil p mk o :
  checkOpt p mk o = [] ↔ ∀ s, o = Some s → p s = true.
Proof.
  destruct o as [s|]; simpl; [|naive_solver].
  rewrite check_nil, negb_false_iff. naive_solver.
Qed.

Lemma allChars_digits_parse acc s :
  allChars isDigit s = true → ∃ n, Strconv.parse_digits acc s = Some n.
Proof.
  revert acc. induction s as [|c s IH]; intros acc; simpl; [eauto|].
  rewrite andb_true_iff. intros [Hc Hs]. unfold Strconv.digit_val.
  unfold isDigit, code in Hc. rewrite Hc. simpl. by apply IH.
Qed.

Lemma digit_char c d :
  Strconv.digit_val c = Some d → (0 ≤ d < 10) ∧ c = pretty_N_char (Z.to_N d).
Proof.
  unfold Strconv.digit_val.
  destruct ((48 <=? Z.of_N (Ascii.N_of_ascii c)) && (Z.of_N (Ascii.N_of_ascii c) <=? 57)) eqn:E;
    [|done]. intros [= <-].
  apply andb_true_iff in E as [H1%Z.leb_le H2%Z.leb_le]. split; [lia|].
  rewrite <- (Ascii.ascii_N_embedding c). generalize dependent (Ascii.N_of_ascii c).
  intros n H1 H2.
  assert (n = 48 ∨ n = 49 ∨ n = 50 ∨ n = 51 ∨ n = 52 ∨ n = 53 ∨ n = 54 ∨ n = 55 ∨
    n = 56 ∨ n = 57)%N as Hn by lia.
  destruct_or! Hn; subst; reflexivity.
Qed.

Lemma pretty_step acc d :
  0 < acc → 0 ≤ d < 10 →
  Strconv.FormatUint (10 * acc + d)
  = Strconv.FormatUint acc +:+ String (pretty_N_char (Z.to_N d)) "".
Proof.
  intros Ha Hd.
  assert (Happ : ∀ x s, pretty_N_go x s = pretty_N_go x "" +:+ s).
  { intros x. induction (N.lt_wf_0 x) as [x _ IH]; intros s.
    destruct (decide (x = 0%N)) as [->|]; [by rewrite !pretty_N_go_0|].
    rewrite !(pretty_N_go_step x) by lia.
    assert (Hlt : (x `div` 10 < x)%N) by (apply N.div_lt; lia).
    rewrite (IH _ Hlt (String _ s)), (IH _ Hlt (String _ "")).
    by rewrite <- string_app_assoc. }
  assert (Hp : ∀ z, 0 < z → Strconv.FormatUint z = pretty_N_go (Z.to_N z) "").
  { intros [|p|p] ?; try lia.
    unfold Strconv.FormatUint, pretty, pretty_Z, pretty, pretty_positive, pretty, pretty_N.
    by rewrite decide_False by done. }
  rewrite !Hp by lia. rewrite (pretty_N_go_step (Z.to_N (10 * acc + d))) by lia.
  replace (Z.to_N (10 * acc + d) `div` 10)%N with (Z.to_N acc).
  2: { apply (N.div_unique _ _ _ (Z.to_N d)); lia. }
  replace (Z.to_N (10 * acc + d) `mod` 10)%N with (Z.to_N d).
  2: { apply (N.mod_unique _ _ (Z.to_N acc)); lia. }
  apply Happ.
Qed.

Lemma parse_digits_format acc s n :
  0 < acc → Strconv.parse_digits acc s = Some n →
  0 < n ∧ Strconv.FormatUint n = Strconv.FormatUint acc +:+ s.
Proof.
  revert acc. induction s as [|c s IH]; intros acc Hacc; simpl.
  - intros [= ->]. split; [done|]. by rewrite string_app_nil_r.
  - destruct (Strconv.digit_val c) as [d|] eqn:Ed; [|done]. simpl.
    apply digit_char in Ed as [Hd ->]. intros H. destruct (IH (10 * acc + d)) as [Hn Hf]; [lia|done|].
    split; [done|]. rewrite Hf, pretty_step by done. by rewrite <- string_app_assoc.
Qed.

Lemma isDigit_char x : (x < 10)%N → isDigit (pretty_N_char x) = true.
Proof.
  intros Hx. pose proof (Strconv.digit_val_char x Hx) as H.
  unfold Strconv.digit_val in H. unfold isDigit, code. by destruct (_ && _).
Qed.

Lemma pretty_go_digits x s :
  (0 < x)%N → allChars isDigit s = true →
  ∃ c s', pretty_N_go x s = String c s' ∧ isDigit c = true ∧ code c ≠ 48 ∧
          allChars isDigit s' = true.
Proof.
  revert s. induction (N.lt_wf_0 x) as [x _ IH]; intros s Hx Hs.
  rewrite pretty_N_go_step by done.
  destruct (decide (x < 10)%N) as [Hlt|Hge].
  - rewrite N.div_small, N.mod_small, pretty_N_go_0 by done.
    eexists _, s. split; [done|]. split; [by apply isDigit_char|]. split; [|done].
    assert (x = 1 ∨ x = 2 ∨ x = 3 ∨ x = 4 ∨ x = 5 ∨ x = 6 ∨ x = 7 ∨ x = 8 ∨ x = 9)%N
      as Hn by lia. destruct_or! Hn; subst; vm_compute; congruence.
  - apply IH; [apply N.div_lt; lia|apply N.div_str_pos; lia|].
    simpl. rewrite Hs, isDigit_char; [done|]. apply N.mod_lt. lia.
Qed.

Lemma DecimalString_FormatUint n : 0 ≤ n → DecimalString (Strconv.FormatUint n) = true.
Proof.
  intros Hn. destruct (decide (n = 0)) as [->|]; [done|].
  unfold Strconv.FormatUint, pretty, pretty_Z, pretty, pretty_positive, pretty, pretty_N.
  destruct n as [|p|p]; [done| |lia]. rewrite decide_False by done.
  destruct (pretty_go_digits (N.pos p) "") as (c & s' & -> & H1 & H2 & H3); [lia|done|].
  simpl. destruct s'; [done|]. rewrite H1, H3.
  by rewrite (proj2 (Z.eqb_neq _ _)).
Qed.

Lemma DecimalString_parse s :
  DecimalString s = true → ∃ n, 0 ≤ n ∧ s = Strconv.FormatUint n.
Proof.
  assert (Hdig : ∀ c, isDigit c = true → ∃ d, 0 ≤ d < 10 ∧ c = pretty_N_char (Z.to_N d) ∧
    code c = 48 + d).
  { intros c Hc. destruct (Strconv.digit_val c) as [d|] eqn:E.
    - destruct (digit_char _ _ E) as [Hd Hcc]. exists d. split_and!; [lia|lia|done|].
      unfold Strconv.digit_val in E. unfold isDigit in Hc. unfold code in *.
      rewrite Hc in E. injection E. lia.
    - unfold Strconv.digit_val in E. unfold isDigit, code in Hc. by rewrite Hc in E. }
  destruct s as [|c s]; [done|]. intros Hs.
  destruct s as [|c2 s].
  - simpl in Hs. destruct (Hdig _ Hs) as (d & Hd & -> & _). exists d. split; [lia|].
    assert (d = 0 ∨ d = 1 ∨ d = 2 ∨ d = 3 ∨ d = 4 ∨ d = 5 ∨ d = 6 ∨ d = 7 ∨ d = 8 ∨ d = 9)
      as Hn by lia. destruct_or! Hn; subst; reflexivity.
  - cbn [DecimalString] in Hs. apply andb_true_iff in Hs as [[H1 H2]%andb_true_iff H3].
    destruct (Hdig _ H1) as (d & Hd & -> & Hcode).
    apply negb_true_iff, Z.eqb_neq in H2.
    destruct (allChars_digits_parse d _ H3) as [n Hn].
    destruct (parse_digits_format d _ _ ltac:(lia) Hn) as [Hpos Hf].
    exists n. split; [lia|]. rewrite Hf.
    assert (d = 1 ∨ d = 2 ∨ d = 3 ∨ d = 4 ∨ d = 5 ∨ d = 6 ∨ d = 7 ∨ d = 8 ∨ d = 9)
      as Hd' by lia. destruct_or! Hd'; subst; reflexivity.
Qed.

Lemma relatedProblems_nil seen ids :
  relatedProblems seen ids = [] ↔
  Forall (λ i, DecimalString i = true) ids ∧ NoDup ids ∧ ∀ i, i ∈ ids → i ∉ seen.
Proof.
  revert seen. induction ids as [|i ids IH]; intros seen; simpl.
  - split; [|done]. intros _. split_and!; [done|apply NoDup_nil_2|].
    intros i Hi. by apply elem_of_nil in Hi.
  - rewrite !app_nil, !check_nil, IH, negb_false_iff.
    assert (Hex : existsb (String.eqb i) seen = false ↔ i ∉ seen).
    { rewrite <- not_true_iff_false, existsb_exists. setoid_rewrite String.eqb_eq.
      rewrite <- list_elem_of_In || idtac. split.
      - intros H Hin. apply H. exists i. split; [by apply list_elem_of_In|done].
      - intros H (x & Hx & <-). by apply H, list_elem_of_In. }
    rewrite Hex, Forall_cons, NoDup_cons. setoid_rewrite elem_of_cons.
    split.
    + intros (Hd & Hs & Hf & Hnd & Hn). split_and!; try done.
      * intros Hin. specialize (Hn i Hin). tauto.
      * intros j [->|Hj]; [done|]. specialize (Hn j Hj). tauto.
    + intros ([Hd Hf] & [Hi Hnd] & Hn). split_and!; try done; [by apply Hn; left|].
      intros j Hj [->|Hs]; [done|]. by apply (Hn j (or_intror Hj)).
Qed.

(** * Properties *)

(** What the interchange contract requires of an envelope. *)
Definition decimal (s : string) : Prop := ∃ n, 0 ≤ n ∧ s = Strconv.FormatUint n.

Record well_formed (e : Envelope) : Prop := {
  wf_schema : SchemaVersion e = 1;
  wf_event : ∀ s, EventID e = Some s → decimal s;
  wf_vm : ∀ s, VMID e = Some s → UUIDString s = true;
  wf_boot : ∀ s, BootID e = Some s → UUIDString s = true ∧ is_Some (VMID e);
  wf_source : UUIDString (SourceInstanceID e) = true;
  wf_seq : decimal (SourceSeq e);
  wf_kind : KindString (Kind e) = true ∧ inRange 3 96 (Kind e) = true;
  wf_provenance : EProvenance e ∈ [HostObserved; GuestReported; Derived];
  wf_sensor : inRange 1 64 (Sensor e) = true;
  wf_received : HostReceivedAt e ≠ 0;
  wf_hostboot : HostBootID e = "" ∨ UUIDString (HostBootID e) = true;
  wf_hostmono : HostMonotonicNS e = "" ∨ decimal (HostMonotonicNS e);
  wf_guestmono : ∀ s, GuestMonotonicNS e = Some s → decimal s;
  wf_process : ∀ s, ProcessKey e = Some s → inRange 1 256 s = true;
  wf_run : ∀ s, RunID e = Some s → UUIDString s = true;
  wf_related : (length (RelatedEventIDs e) ≤ 64)%nat ∧ NoDup (RelatedEventIDs e) ∧
    Forall decimal (RelatedEventIDs e);
  wf_path : knownPathResolution (PathResolution (EQuality e)) = true;
  wf_attribution : knownAttribution (Attribution (EQuality e)) = true;
  wf_notes : (length (Notes (EQuality e)) ≤ 16)%nat;
  wf_data : is_Some (Data e)
}.

Lemma DecimalString_decimal s : DecimalString s = true ↔ decimal s.
Proof.
  split; [apply DecimalString_parse|]. intros (n & Hn & ->). by apply DecimalString_FormatUint.
Qed.

Lemma existsb_eqb_In s l : existsb (String.eqb s) l = true ↔ s ∈ l.
Proof.
  rewrite existsb_exists, list_elem_of_In. setoid_rewrite String.eqb_eq. naive_solver.
Qed.

Lemma empty_or b s : negb (s =? "")%string && negb b = false ↔ s = "" ∨ b = true.
Proof. destruct (String.eqb_spec s ""), b; simpl; naive_solver. Qed.

Lemma Validate_iff e : Validate e = [] ↔ well_formed e.
Proof.
  unfold Validate. rewrite !app_nil, !check_nil, !checkOpt_nil, relatedProblems_nil.
  rewrite !empty_or, !negb_false_iff, orb_false_iff, !negb_false_iff, Z.eqb_eq,
    !DecimalString_decimal, !Nat.ltb_ge.
  unfold knownProvenance. rewrite existsb_eqb_In.
  assert (Hboot : negb (isSome (VMID e)) && isSome (BootID e) = false ↔
    (is_Some (BootID e) → is_Some (VMID e))).
  { unfold is_Some. destruct (VMID e), (BootID e); simpl; naive_solver. }
  rewrite Hboot.
  assert (Hrec : GoTime.IsZero (HostReceivedAt e) = false ↔ HostReceivedAt e ≠ 0)
    by (apply Z.eqb_neq). rewrite Hrec.
  assert (Hdata : isSome (Data e) = true ↔ is_Some (Data e))
    by (unfold is_Some; destruct (Data e); simpl; naive_solver).
  rewrite Hdata.
  assert (Hrel : Forall (λ i, DecimalString i = true) (RelatedEventIDs e) ↔
    Forall decimal (RelatedEventIDs e)) by (apply Forall_iff, DecimalString_decimal).
  rewrite Hrel. setoid_rewrite DecimalString_decimal.
  split.
  - intros (?&?&?&H4&H5&?&?&[? ?]&?&?&?&?&?&?&?&?&?&(?&?&?)&?&?&?&?). split; auto.
  - intros [Hsc Hev Hvm Hbt Hso Hsq [Hk1 Hk2] Hpr Hse Hre Hhb Hhm Hgm Hpk Hru
      (Hr1&Hr2&Hr3) Hpa Hat Hno Hda].
    split_and!; try assumption.
    + intros s Hs. by apply Hbt.
    + intros [s Hs]. by eapply Hbt.
    + intros i _ Hin. by apply elem_of_nil in Hin.
Qed.

(** [Validate] accepts exactly the envelopes the interchange contract
    describes, whatever the envelope: no rule is missed and none is invented. *)
Theorem Validate_spec e : Validate e = [] ↔ well_formed e.
Proof. apply Validate_iff. Qed.

(** sequence numbers, event ids and other wire counters have one spelling.
    A string is a valid counter exactly when it is the decimal rendering of a
    non-negative integer, and of only one; so comparing two valid counters as
    strings (which is what deduplication does) compares the numbers. *)
Theorem DecimalString_canonical s :
  DecimalString s = true ↔
  ∃ n, 0 ≤ n ∧ s = Strconv.FormatUint n ∧
       (∀ m, s = Strconv.FormatUint m → m = n) ∧
       (n < 2 ^ 64 → Strconv.ParseUint s 64 = Some n).
Proof.
  rewrite DecimalString_decimal. split.
  - intros (n & Hn & ->). exists n. split_and!; try done.
    + intros m Hm. by apply (inj Strconv.FormatInt) in Hm.
    + intros. by apply Strconv.ParseUint_FormatUint.
  - intros (n & Hn & -> & _). by exists n.
Qed.

Lemma registry_nodup : NoDup (KKind <$> registry).
Proof. apply (bool_decide_unpack _). vm_compute. exact I. Qed.

Lemma byKind_lookup (l : list KindInfo) (m : gmap string KindInfo) k i :
  NoDup (KKind <$> l) →
  foldl (λ m k, <[KKind k := k]> m) m l !! k = Some i ↔
  (i ∈ l ∧ KKind i = k) ∨ ((∀ j, j ∈ l → KKind j ≠ k) ∧ m !! k = Some i).
Proof.
  revert m. induction l as [|x l IH]; intros m Hnd; simpl.
  - split; [intros; right; split; [|done]|intros [[Hin _]|[_ ?]]; [|done]].
    + intros j Hj. by apply elem_of_nil in Hj.
    + by apply elem_of_nil in Hin.
  - apply NoDup_cons in Hnd as [Hx Hnd]. rewrite IH by done.
    setoid_rewrite elem_of_cons. rewrite lookup_insert_Some.
    assert (Hx' : ∀ j, j ∈ l → KKind j ≠ KKind x).
    { intros j Hj E. apply Hx. rewrite <- E. by apply list_elem_of_fmap_2. }
    split.
    + intros [[? ?]|[Hn [[<- <-]|[Hne Hm]]]].
      * left. auto.
      * left. auto.
      * right. split; [|done]. intros j [->|Hj]; auto.
    + intros [[[->|Hi] <-]|[Hn Hm]].
      * right. split; [done|]. auto.
      * left. auto.
      * right. split; [intros; apply Hn; auto|]. right. split; [|done]. apply Hn. auto.
Qed.

Lemma LookupKind_In k i : LookupKind k = Some i ↔ i ∈ registry ∧ KKind i = k.
Proof.
  unfold LookupKind, registryByKind.
  rewrite byKind_lookup by apply registry_nodup. rewrite lookup_empty. naive_solver.
Qed.

Lemma registry_kind_ok i :
  i ∈ registry → KindString (KKind i) = true ∧ inRange 3 96 (KKind i) = true ∧
    KSchemaVersion i = 1 ∧ knownProvenance (KProvenance i) = true.
Proof.
  intros Hi. assert (Forall (λ i, KindString (KKind i) = true ∧
    inRange 3 96 (KKind i) = true ∧ KSchemaVersion i = 1 ∧
    knownProvenance (KProvenance i) = true) registry) as HF.
  { unfold registry. repeat (constructor; [vm_compute; done|]). constructor. }
  rewrite Forall_forall in HF. by apply HF.
Qed.

(** the registry answers for each kind by exactly one entry. [LookupKind]
    finds an entry if and only if it is in the table under that kind, every
    registered kind satisfies the kind grammar ingress enforces, each is a
    member of its family and of no other, and [Kinds] lists every entry once,
    in order of kind. *)
Theorem registry_consistent :
  (∀ k i, LookupKind k = Some i ↔ i ∈ registry ∧ KKind i = k) ∧
  (∀ i, i ∈ registry → KindString (KKind i) = true ∧ inRange 3 96 (KKind i) = true ∧
     KSchemaVersion i = 1 ∧ knownProvenance (KProvenance i) = true) ∧
  (∀ i f, i ∈ registry → KKind i ∈ KindsByFamily f ↔ f = KFamily i) ∧
  (∀ f, f ∈ Families ↔ KindsByFamily f ≠ []) ∧
  Sorted kind_le Kinds ∧ Kinds ≡ₚ registry.
Proof.
  split_and!.
  - apply LookupKind_In.
  - apply registry_kind_ok.
  - intros i f Hi. unfold KindsByFamily. rewrite list_elem_of_fmap.
    setoid_rewrite list_elem_of_filter. split.
    + intros (j & Hk & Hf & Hj). pose proof registry_nodup as Hnd.
      assert (j = i) as ->; [|done].
      apply list_elem_of_lookup in Hj as [a Ha]. apply list_elem_of_lookup in Hi as [b Hb].
      assert (a = b) as ->; [|congruence].
      eapply (NoDup_lookup _ _ _ (KKind i) Hnd); rewrite list_lookup_fmap;
        [rewrite Ha; simpl; by rewrite Hk|by rewrite Hb].
    + intros ->. exists i. done.
  - intros f. unfold Families. rewrite merge_sort_Permutation, elem_of_elements,
      elem_of_list_to_set, list_elem_of_fmap. unfold KindsByFamily.
    split.
    + intros (i & -> & Hi) E. apply fmap_nil_inv in E.
      assert (Hin : i ∈ filter (λ k, KFamily k = KFamily i) registry)
        by (by apply list_elem_of_filter). rewrite E in Hin. by apply elem_of_nil in Hin.
    + intros Hne. destruct (filter (λ k, KFamily k = f) registry) as [|j l] eqn:E; [done|].
      assert (Hin : j ∈ filter (λ k, KFamily k = f) registry) by (rewrite E; left).
      apply list_elem_of_filter in Hin as [? ?]. eauto.
  - assert (Total kind_le) by (intros a b; apply (total String.le)).
    apply Sorted_merge_sort. apply _.
  - apply merge_sort_Permutation.
Qed.

End Events.
