(* ===== verification/Telemetry.v ===== *)
(** Guest telemetry: the guest's bounded ring (internal/guest/telemetry/ring.go,
    health.go), the port that drains it (internal/guest/telemetry.go), and the
    runner that spools what it receives (internal/runner/telemetry.go,
    internal/guest/proto/telemetry.go).

    JSON payloads are opaque strings; decoding one as an object and parsing a
    wall-clock string are parameters. *)

From S2P Require Import Prelude Events.

Local Open Scope Z_scope.

(** * The guest's ring *)

Module TelRing.

Record Item := mkItem {
  Seq : string;
  Kind : string;
  Data : string;
  GuestWallAt : string;
  GuestMonotonicNS : string
}.

Record Ring := mkRing {
  items : list Item;
  sent : nat;
  cap : nat;
  seq : Z;
  dropped : Z;
  epoch : string;
  notify : bool
}.

Record RingStats := mkStats { Capacity : nat; Queued : nat; Dropped : string }.

Definition NewRing (capacity : Z) (epoch : string) : Ring :=
  mkRing [] 0 (Z.to_nat (if capacity <? 1 then 1 else capacity)) 0 0 epoch false.

Definition Push (r : Ring) (kind data wall mono : string) : Ring :=
  let seq := Int.u64 (seq r + 1) in
  let '(its, dr, se) :=
    if decide (length (items r) = cap r) then
      (drop 1 (items r), Int.u64 (dropped r + 1), if decide (0 < sent r)%nat then (sent r - 1)%nat else sent r)
    else (items r, dropped r, sent r) in
  mkRing (its ++ [mkItem (Strconv.FormatUint seq) kind data wall mono]) se (cap r) seq dr
    (epoch r) true.

Definition Next (r : Ring) : option Item :=
  if decide (length (items r) ≤ sent r)%nat then None else items r !! sent r.

Definition Advance (r : Ring) : Ring :=
  if decide (sent r < length (items r))%nat
  then mkRing (items r) (S (sent r)) (cap r) (seq r) (dropped r) (epoch r) (notify r)
  else r.

Definition Rewind (r : Ring) : Ring :=
  mkRing (items r) 0 (cap r) (seq r) (dropped r) (epoch r) true.

(** The items an acknowledgement of [n] covers: a prefix. *)
Fixpoint keptPrefix (n : Z) (its : list Item) : nat :=
  match its with
  | [] => 0
  | i :: its =>
    match Strconv.ParseUint (Seq i) 64 with
    | Some s => if (n <? s)%Z then 0 else S (keptPrefix n its)
    | None => 0
    end
  end%nat.

Definition AckThrough (r : Ring) (s : string) : Ring :=
  match Strconv.ParseUint s 64 with
  | None => r
  | Some n =>
    let kept := keptPrefix n (items r) in
    if decide (kept = 0%nat) then r
    else mkRing (drop kept (items r)) (sent r - kept) (cap r) (seq r) (dropped r)
           (epoch r) (notify r)
  end.

Definition Stats (r : Ring) : RingStats :=
  mkStats (cap r) (length (items r)) (Strconv.FormatUint (dropped r)).

(** ** The ring's invariant *)

(** The number of the oldest item held; one more than [seq] when none is. *)
Definition lo (r : Ring) : Z := seq r - Z.of_nat (length (items r)) + 1.

Record ring_ok (r : Ring) : Prop := {
  ok_cap : (1 ≤ cap r)%nat;
  ok_len : (length (items r) ≤ cap r)%nat;
  ok_sent : (sent r ≤ length (items r))%nat;
  ok_lo : 1 ≤ lo r;
  ok_seq : seq r < 2 ^ 64;
  ok_items : ∀ k i, items r !! k = Some i → Seq i = Strconv.FormatUint (lo r + Z.of_nat k)
}.

Lemma ring_ok_New c e : ring_ok (NewRing c e).
Proof. split; simpl; try done; try lia. case_match; lia. Qed.

Lemma length_items_le r : ring_ok r → Z.of_nat (length (items r)) ≤ seq r.
Proof. intros [_ _ _ H _ _]. unfold lo in H. lia. Qed.

(** [Push] in the two cases. *)
Lemma Push_spec r k d w m :
  ring_ok r → seq r + 1 < 2 ^ 64 → 0 ≤ dropped r < seq r + 1 →
  let r' := Push r k d w m in
  ring_ok r' ∧ seq r' = seq r + 1 ∧ cap r' = cap r ∧
  (if decide (length (items r) = cap r) then
     lo r' = lo r + 1 ∧ dropped r' = dropped r + 1 ∧ sent r' = (sent r - 1)%nat ∧
     items r' = drop 1 (items r) ++ [mkItem (Strconv.FormatUint (seq r + 1)) k d w m]
   else
     lo r' = lo r ∧ dropped r' = dropped r ∧ sent r' = sent r ∧
     items r' = items r ++ [mkItem (Strconv.FormatUint (seq r + 1)) k d w m]).
Proof.
  intros [H1 H2 H3 H4 H5 H6] Hs Hd r'. pose proof (length_items_le r) as Hl.
  assert (H0 : 0 ≤ seq r) by (unfold lo in H4; lia).
  unfold r', Push. rewrite (Int.u64_small (seq r + 1)) by lia.
  case_decide as Hfull; simpl.
  - rewrite Int.u64_small by lia.
    assert (Hse : (if decide (0 < sent r)%nat then (sent r - 1)%nat else sent r) = (sent r - 1)%nat)
      by (case_decide; lia).
    rewrite Hse. unfold lo in *; simpl. rewrite length_app, length_drop; simpl.
    split; [|split_and!; try done; lia].
    split; unfold lo; simpl; rewrite ?length_app, ?length_drop; simpl; try lia.
    intros j i Hj. apply lookup_app_Some in Hj as [Hj|[Hge Hj]].
    + rewrite lookup_drop in Hj. rewrite (H6 _ _ Hj). f_equal. lia.
    + rewrite length_drop in Hge, Hj.
      apply list_lookup_singleton_Some in Hj as [Hj <-]. simpl. f_equal. lia.
  - unfold lo in *; simpl. rewrite length_app; simpl.
    split; [|split_and!; try done; lia].
    split; unfold lo; simpl; rewrite ?length_app; simpl; try lia.
    intros j i Hj. apply lookup_app_Some in Hj as [Hj|[Hge Hj]].
    + rewrite (H6 _ _ Hj). f_equal. lia.
    + apply list_lookup_singleton_Some in Hj as [Hj <-]. simpl. f_equal. lia.
Qed.

Lemma keptPrefix_spec n its l0 :
  0 ≤ l0 → l0 + Z.of_nat (length its) ≤ 2 ^ 64 →
  (∀ k i, its !! k = Some i → Seq i = Strconv.FormatUint (l0 + Z.of_nat k)) →
  Z.of_nat (keptPrefix n its) = Z.max 0 (Z.min (Z.of_nat (length its)) (n - l0 + 1)).
Proof.
  revert l0. induction its as [|i its IH]; intros l0 H0 Hb Hi; [simpl; lia|].
  simpl. simpl in Hb. rewrite (Hi 0%nat i eq_refl), Strconv.ParseUint_FormatUint by lia.
  rewrite Z.add_0_r. destruct (Z.ltb_spec n l0); [lia|].
  rewrite Nat2Z.inj_succ, (IH (l0 + 1)); [lia|lia|lia|].
  intros k j Hk. rewrite (Hi (S k) j Hk). f_equal. lia.
Qed.

Lemma AckThrough_spec r s n :
  ring_ok r → Strconv.ParseUint s 64 = Some n →
  let r' := AckThrough r s in
  ring_ok r' ∧ seq r' = seq r ∧ cap r' = cap r ∧ dropped r' = dropped r ∧
  lo r' = Z.max (lo r) (Z.min (seq r + 1) (n + 1)) ∧
  items r' = drop (Z.to_nat (lo r' - lo r)) (items r) ∧
  lo r' + Z.of_nat (sent r') = Z.max (lo r') (lo r + Z.of_nat (sent r)).
Proof.
  intros [H1 H2 H3 H4 H5 H6] Hn r'. unfold r', AckThrough. rewrite Hn.
  pose proof (keptPrefix_spec n (items r) (lo r)) as Hk.
  specialize (Hk ltac:(lia) ltac:(unfold lo; lia) H6).
  set (kept := keptPrefix n (items r)) in *. unfold lo in *.
  case_decide as Hz; simpl.
  - split; [by split|]. split_and!; try done; try lia.
    replace (Z.to_nat _) with 0%nat by lia. done.
  - rewrite length_drop.
    split; [split; unfold lo; simpl; rewrite ?length_drop; try lia|].
    { intros k i Hi. rewrite lookup_drop in Hi. rewrite (H6 _ _ Hi). f_equal. lia. }
    split_and!; try done; try lia. f_equal. lia.
Qed.

Lemma Advance_ok r : ring_ok r → ring_ok (Advance r).
Proof.
  intros [H1 H2 H3 H4 H5 H6]. unfold Advance. case_decide; [|by split].
  split; simpl; try done; lia.
Qed.

Lemma Rewind_ok r : ring_ok r → ring_ok (Rewind r).
Proof. intros [H1 H2 H3 H4 H5 H6]. split; simpl; try done; lia. Qed.

(** ** Sequences of operations *)

Inductive op :=
  | OPush (kind data wall mono : string)
  | OAdvance
  | ORewind
  | OAck (s : string).

(** The ring and the number of items that acknowledgements removed. *)
Definition apply (st : Ring * Z) (o : op) : Ring * Z :=
  let '(r, acked) := st in
  match o with
  | OPush k d w m => (Push r k d w m, acked)
  | OAdvance => (Advance r, acked)
  | ORewind => (Rewind r, acked)
  | OAck s =>
    let r' := AckThrough r s in
    (r', acked + Z.of_nat (length (items r) - length (items r')))
  end.

Definition is_push (o : op) : bool := match o with OPush _ _ _ _ => true | _ => false end.

Definition pushes (ops : list op) : Z := Z.of_nat (length (filter (λ o, is_push o = true) ops)).

Lemma pushes_app ops o : pushes (ops ++ [o]) = pushes ops + (if is_push o then 1 else 0).
Proof.
  unfold pushes. rewrite filter_app, length_app. simpl. destruct (is_push o) eqn:E.
  - rewrite filter_cons_True by done. simpl. lia.
  - rewrite filter_cons_False by congruence. simpl. lia.
Qed.

(** The guest's telemetry ring loses nothing uncounted. After any sequence
    of pushes, send-cursor moves, rewinds and acknowledgements, every event
    ever pushed is accounted for once: it is queued, or it was removed by an
    acknowledgement that covered its sequence number, or it is in the drop
    count the heartbeat reports. The queue never exceeds the capacity and holds
    the newest events, in order, under consecutive sequence numbers. *)
Theorem ring_conservation c e ops :
  pushes ops < 2 ^ 64 →
  let '(r, acked) := foldl apply (NewRing c e, 0) ops in
  seq r = pushes ops ∧
  pushes ops = Z.of_nat (Queued (Stats r)) + acked + dropped r ∧
  Strconv.ParseUint (Dropped (Stats r)) 64 = Some (dropped r) ∧
  (Queued (Stats r) ≤ Capacity (Stats r))%nat ∧ 0 ≤ acked ∧ 0 ≤ dropped r ∧
  (sent r ≤ Queued (Stats r))%nat ∧
  (∀ k i, items r !! k = Some i →
     Seq i = Strconv.FormatUint (pushes ops - Z.of_nat (Queued (Stats r)) + 1 + Z.of_nat k)).
Proof.
  intros Hb.
  assert (Hinv : let '(r, acked) := foldl apply (NewRing c e, 0) ops in
    ring_ok r ∧ seq r = pushes ops ∧ 0 ≤ acked ∧ 0 ≤ dropped r ∧
    pushes ops = Z.of_nat (length (items r)) + acked + dropped r).
  { induction ops as [|o ops IH] using rev_ind.
    - simpl. split; [apply ring_ok_New|]. done.
    - rewrite pushes_app in *. rewrite foldl_snoc. assert (0 ≤ pushes ops) by (unfold pushes; lia).
      destruct (foldl apply (NewRing c e, 0) ops) as [r acked].
      destruct IH as (Hok & Hs & Ha & Hd & Hc); [destruct (is_push o); lia|].
      pose proof (length_items_le r Hok).
      destruct o as [k d w m| | |s]; simpl in *.
      + pose proof (Push_spec r k d w m Hok ltac:(lia) ltac:(lia)) as (Hok' & Hs' & Hcap & Hcase).
        split; [done|]. split; [lia|]. split; [done|].
        pose proof Hok as [? ? ? ? ? ?].
        case_decide; destruct Hcase as (_ & Hd' & _ & Hi); rewrite Hd', Hi, length_app, ?length_drop;
          simpl; lia.
      + split; [by apply Advance_ok|]. unfold Advance. case_decide; simpl; lia.
      + split; [by apply Rewind_ok|]. simpl. lia.
      + destruct (Strconv.ParseUint s 64) as [n|] eqn:En.
        * pose proof (AckThrough_spec r s n Hok En) as (Hok' & Hs' & _ & Hd' & _ & Hi & _).
          split; [done|]. rewrite Hs', Hd'.
          assert (length (items (AckThrough r s)) ≤ length (items r))%nat
            by (rewrite Hi, length_drop; lia). 
          lia.
        * assert (AckThrough r s = r) as -> by (unfold AckThrough; by rewrite En).
          split; [done|]. lia. }
  destruct (foldl apply (NewRing c e, 0) ops) as [r acked].
  destruct Hinv as ([H1 H2 H3 H4 H5 H6] & Hs & Ha & Hd & Hc). simpl.
  split_and!; try done; try lia.
  - apply Strconv.ParseUint_FormatUint. lia.
  - intros k i Hk. rewrite (H6 _ _ Hk). unfold lo. f_equal. lia.
Qed.

Lemma ring_conservation_witness :
  let '(r, acked) := foldl apply (NewRing 2 "e", 0)
    [OPush "k" "" "" ""; OPush "k" "" "" ""; OPush "k" "" "" ""; OAdvance; OAck "2"] in
  acked = 1 ∧ dropped r = 1 ∧
  3 = Z.of_nat (Queued (Stats r)) + acked + dropped r.
Proof.
  pose proof (ring_conservation 2 "e"
    [OPush "k" "" "" ""; OPush "k" "" "" ""; OPush "k" "" "" ""; OAdvance; OAck "2"]
    ltac:(vm_compute; reflexivity)) as H.
  split; [vm_compute; reflexivity|]. split; [vm_compute; reflexivity|].
  exact (proj1 (proj2 H)).
Defined.

End TelRing.

(** * The sensor registry and the heartbeat *)

Module Sensors.

Record Sensor := mkSensor {
  ID : string;
  State : string;
  LastEventAt : string;
  SDropped : string;
  UnknownLossIntervals : Z;
  CaptureMode : string;
  Exclusions : list string
}.

Record Registry := mkRegistry { sensors : gmap string Sensor; order : list string }.

Definition NewRegistry : Registry := mkRegistry ∅ [].

Definition Set_ (g : Registry) (s : Sensor) : Registry :=
  mkRegistry (<[ID s := s]> (sensors g))
    (match sensors g !! ID s with Some _ => order g | None => order g ++ [ID s] end).

(** A Go map read of an absent key would give the zero sensor; [Snapshot_spec]
    shows that every id of the order is present. *)
Definition zeroSensor : Sensor := mkSensor "" "" "" "" 0 "" [].

Definition Snapshot (g : Registry) : list Sensor :=
  (λ id, default zeroSensor (sensors g !! id)) <$> order g.

(** The agent's self-report. *)
Record AgentInfo := mkAgent {
  Version : string; StartedAt : string; UptimeNS : string; HeartbeatIntervalNS : string
}.

Record Health := mkHealth {
  HAgent : AgentInfo; HRing : TelRing.RingStats; HSensors : list Sensor
}.

Record Reporter := mkReporter {
  rVersion : string; rInterval : Z; rRing : TelRing.Ring; rSensors : Registry; rStarted : Z
}.

(** [Health]: [fmt] renders a time in RFC 3339. *)
Definition Health_ (fmt : Z → string) (r : Reporter) (now : Z) : Health :=
  mkHealth
    (mkAgent (rVersion r) (fmt (rStarted r))
       (Strconv.FormatInt (GoTime.Sub now (rStarted r))) (Strconv.FormatInt (rInterval r)))
    (TelRing.Stats (rRing r)) (Snapshot (rSensors r)).

(** [Beat]: [marshal] is the JSON rendering of a health block. *)
Definition Beat (fmt : Z → string) (marshal : Health → option string) (r : Reporter)
    (now : Z) (wall mono : string) : Reporter :=
  match marshal (Health_ fmt r now) with
  | None => r
  | Some data =>
    mkReporter (rVersion r) (rInterval r)
      (TelRing.Push (rRing r) "guest.sensor_health" data wall mono) (rSensors r) (rStarted r)
  end.

(** The last report of a sensor in a sequence of reports. *)
Definition latest (l : list Sensor) (id : string) : option Sensor :=
  last (filter (λ s, ID s = id) l).

Lemma Set_inv l :
  let g := foldl Set_ NewRegistry l in
  NoDup (order g) ∧ (∀ id, id ∈ order g ↔ is_Some (sensors g !! id)) ∧
  ∀ id, sensors g !! id = latest l id.
Proof.
  induction l as [|s l IH] using rev_ind.
  - simpl. split; [apply NoDup_nil_2|]. split; [|done].
    intros id. rewrite elem_of_nil. split; [done|by intros [? ?]].
  - rewrite foldl_snoc. set (g := foldl Set_ NewRegistry l) in *.
    destruct IH as (Hnd & Hin & Hl). unfold Set_. cbv zeta. simpl.
    assert (Hlat : ∀ id, <[ID s:=s]> (sensors g) !! id = latest (l ++ [s]) id).
    { intros id. unfold latest. rewrite filter_app. destruct (decide (ID s = id)) as [<-|Hne].
      - rewrite filter_cons_True, filter_nil, last_snoc by done. apply lookup_insert_eq.
      - rewrite filter_cons_False, filter_nil, app_nil_r, lookup_insert_ne by done. apply Hl. }
    destruct (sensors g !! ID s) eqn:E.
    + split; [done|]. split; [|done]. intros id. rewrite Hin.
      destruct (decide (ID s = id)) as [<-|]; [rewrite lookup_insert_eq, E; by split; eauto|].
      by rewrite lookup_insert_ne.
    + split.
      { apply NoDup_app. split; [done|]. split; [|apply NoDup_singleton].
        intros x Hx Hs%list_elem_of_singleton. subst x. apply Hin in Hx as [? ?]. congruence. }
      split; [|done]. intros id. rewrite elem_of_app, list_elem_of_singleton, Hin.
      destruct (decide (ID s = id)) as [<-|]; [rewrite lookup_insert_eq; by split; eauto|].
      rewrite lookup_insert_ne by done. split; [intros [?|?]; congruence|auto].
Qed.

(** a heartbeat reports each sensor once, with its latest self-report: after
    any sequence of reports, the snapshot lists exactly the sensors that ever
    reported, in first-report order, none twice. *)
Theorem Snapshot_latest l :
  let g := foldl Set_ NewRegistry l in
  NoDup (order g) ∧ length (Snapshot g) = length (order g) ∧
  (∀ k s, Snapshot g !! k = Some s ↔
     ∃ id, order g !! k = Some id ∧ latest l id = Some s ∧ ID s = id) ∧
  (∀ s, s ∈ l → ID s ∈ order g).
Proof.
  intros g. destruct (Set_inv l) as (Hnd & Hin & Hl). fold g in Hnd, Hin, Hl.
  split; [done|]. split; [apply length_fmap|]. split.
  - intros k s. unfold Snapshot. rewrite list_lookup_fmap, fmap_Some.
    split.
    + intros (id & Hk & ->). exists id.
      assert (is_Some (sensors g !! id)) as [x Hx] by (apply Hin, list_elem_of_lookup; eauto).
      rewrite Hx. simpl. rewrite <- Hl, Hx. split_and!; try done.
      rewrite Hl in Hx. unfold latest in Hx. apply last_Some_elem_of in Hx.
      by apply list_elem_of_filter in Hx as [? _].
    + intros (id & Hk & Hlat & _). exists id. rewrite Hl, Hlat. done.
  - intros s Hs. apply Hin. rewrite Hl. unfold latest. apply last_is_Some.
    intros E. assert (Hf : s ∈ filter (λ s0, ID s0 = ID s) l) by (by apply list_elem_of_filter).
    rewrite E in Hf. by apply elem_of_nil in Hf.
Qed.

End Sensors.

(** * The runner *)

Module Runner.
Import Events.

Record TelemetryPush := mkPush {
  pSeq : string;
  pKind : string;
  pGuestWallAt : string;
  pGuestMonotonicNS : string;
  pData : string
}.

#[export] Instance TelemetryPush_eq_dec : EqDecision TelemetryPush.
Proof. solve_decision. Defined.

Definition MaxTelemetryPayload : Z := Z.shiftl 64 10.
Definition telemetryPushKeys : list string :=
  ["seq"; "kind"; "guest_wall_at"; "guest_monotonic_ns"; "data"].

Inductive PushErr :=
  | ErrPushTooLarge
  | ErrPushNotObject
  | ErrPushKey (k : string)
  | ErrPushShape
  | ErrPushSeq
  | ErrPushKind
  | ErrPushMonotonic
  | ErrPushWall.

Section runner.
(** [parseTime]: [time.Parse] with the RFC 3339 layout. [decodeObject]:
    [json.Unmarshal] into a map, whose result is nil for a JSON null. *)
Context (parseTime : string → option Z) (decodeObject : string → option (option object)).

(** [DecodeTelemetryPush] on a frame of [rawLen] bytes whose decoding as a map
    has the given keys and whose decoding as the struct is [shape]. *)
Definition DecodeTelemetryPush (rawLen : Z) (keys : option (list string))
    (shape : option TelemetryPush) : result PushErr TelemetryPush :=
  if MaxTelemetryPayload <? rawLen then Err ErrPushTooLarge
  else
    match keys with
    | None => Err ErrPushNotObject
    | Some ks =>
      match list_find (λ k, existsb (String.eqb k) telemetryPushKeys = false) ks with
      | Some (_, k) => Err (ErrPushKey k)
      | None =>
        match shape with
        | None => Err ErrPushShape
        | Some push =>
          if negb (DecimalString (pSeq push)) then Err ErrPushSeq
          else if (pKind push =? "")%string then Err ErrPushKind
          else if negb (pGuestMonotonicNS push =? "")%string
                  && negb (DecimalString (pGuestMonotonicNS push)) then Err ErrPushMonotonic
          else if negb (pGuestWallAt push =? "")%string
                  && negb (isSome (parseTime (pGuestWallAt push))) then Err ErrPushWall
          else Ok push
        end
      end
    end.

Record Config := mkConfig { cVMID : string; cBootID : string; cInstanceID : string }.

Definition telemetrySensor : string := "guestd".

Definition newGuestEnvelope (cfg : Config) (streamID : string) (push : TelemetryPush)
    (data : option object) (now : Z) : Envelope :=
  mkEnvelope 1 None (Some (cVMID cfg)) (Some (cBootID cfg)) streamID (pSeq push)
    (pKind push) GuestReported telemetrySensor now "" ""
    (if (pGuestWallAt push =? "")%string then None else parseTime (pGuestWallAt push))
    (if (pGuestMonotonicNS push =? "")%string then None else Some (pGuestMonotonicNS push))
    None None []
    (mkQuality PathNotApplicable AttributionNotApplicable false false "" [])
    data.

(** What became of an append to the spool: accepted, or refused, possibly after
    the record reached the segment. *)
Inductive AppendOutcome := AppendOK | AppendErr (stored : bool).

(** The runner's own observations about the channel. *)
Inductive HealthRecord :=
  | UnregisteredKind (kind stream seq : string)
  | GuestProvenanceClaim (kind registeredAs stream seq : string).

(** The telemetry goroutine's memory ([spooled], [lastRefusal]) and what it put
    in the spool: guest envelopes and its own health records. *)
Record Tel := mkTel {
  spooled : gmap string Z;
  lastRefusal : option (string * TelemetryPush * Envelope);
  spool : list Envelope;
  health : list HealthRecord
}.

Definition newTel : Tel := mkTel ∅ None [] [].

Definition reuse (t : Tel) (streamID : string) (push : TelemetryPush) : option Envelope :=
  match lastRefusal t with
  | None => None
  | Some (sid, p, env) =>
    if negb (sid =? streamID)%string then None
    else if bool_decide (p = push) then Some env else None
  end.

Definition refuseTelemetryKind (streamID : string) (push : TelemetryPush)
    (info : option KindInfo) : HealthRecord :=
  match info with
  | None => UnregisteredKind (pKind push) streamID (pSeq push)
  | Some i => GuestProvenanceClaim (pKind push) (KProvenance i) streamID (pSeq push)
  end.

Definition guestReported (info : option KindInfo) : bool :=
  match info with Some i => (KProvenance i =? GuestReported)%string | None => false end.

(** [spoolTelemetryPush]: the memory after it and the sequence to acknowledge,
    or [None] when the connection is to end. *)
Definition spoolTelemetryPush (cfg : Config) (streamID : string) (push : TelemetryPush)
    (now : Z) (o : AppendOutcome) (t : Tel) : Tel * option string :=
  match Strconv.ParseUint (pSeq push) 64 with
  | None => (t, None)
  | Some seq =>
    if seq <=? default 0 (spooled t !! streamID) then (t, Some (pSeq push))
    else
      let info := LookupKind (pKind push) in
      if negb (guestReported info) then
        (* the refusal's own append may fail; that is only logged *)
        (mkTel (<[streamID := seq]> (spooled t)) (lastRefusal t) (spool t)
           (match o with
            | AppendErr false => health t
            | _ => health t ++ [refuseTelemetryKind streamID push info]
            end), Some (pSeq push))
      else
        match decodeObject (pData push) with
        | None => (t, None)
        | Some data =>
          let env := match reuse t streamID push with
                     | Some env => env
                     | None => newGuestEnvelope cfg streamID push data now
                     end in
          match o with
          | AppendErr stored =>
            (mkTel (spooled t) (Some (streamID, push, env))
               (if stored then spool t ++ [env] else spool t) (health t), None)
          | AppendOK =>
            (mkTel (<[streamID := seq]> (spooled t)) None (spool t ++ [env]) (health t),
             Some (pSeq push))
          end
        end
  end.

(** what the runner spools for a guest, the store accepts: for a push that
    [DecodeTelemetryPush] let through, of a registered kind, on a runner and a
    stream with well-formed identities, the stamped envelope passes validation
    exactly when the payload decoded to an object. A JSON null decodes to no
    object without an error, so a guest can get an envelope spooled that the
    store will refuse. *)
Theorem guest_envelope_valid cfg streamID rawLen keys shape push data now :
  DecodeTelemetryPush rawLen keys shape = Ok push →
  is_Some (LookupKind (pKind push)) →
  UUIDString (cVMID cfg) = true → UUIDString (cBootID cfg) = true →
  UUIDString streamID = true → now ≠ 0 →
  Validate (newGuestEnvelope cfg streamID push data now) = [] ↔ is_Some data.
Proof.
  intros Hdec [info Hk] Hvm Hboot Hst Hnow. unfold DecodeTelemetryPush in Hdec.
  destruct (_ <? _); [discriminate Hdec|]. destruct keys as [ks|]; [|discriminate Hdec].
  destruct (list_find _ ks) as [[? ?]|]; [discriminate Hdec|]. destruct shape as [push'|]; [|discriminate Hdec].
  destruct (DecimalString (pSeq push')) eqn:Hseq; [|discriminate Hdec]. cbn [negb] in Hdec.
  destruct (pKind push' =? "")%string; [discriminate Hdec|].
  destruct (negb (pGuestMonotonicNS push' =? "")%string && _) eqn:Hmono; [discriminate Hdec|].
  destruct (negb (pGuestWallAt push' =? "")%string && _); [discriminate Hdec|].
  injection Hdec as ->. apply LookupKind_In in Hk as [Hin Hkind].
  destruct (registry_kind_ok _ Hin) as (Hk1 & Hk2 & _). rewrite Hkind in Hk1, Hk2.
  rewrite Validate_iff. split; [by intros []|]. intros Hdata. unfold newGuestEnvelope.
  split; cbn; try done; try lia.
  - by intros s [= <-].
  - intros s [= <-]. eauto.
  - by apply DecimalString_decimal.
  - right. left.
  - auto.
  - auto.
  - intros s. destruct (String.eqb_spec (pGuestMonotonicNS push) ""); [done|].
    intros [= <-]. apply DecimalString_decimal.
    cbn [negb andb] in Hmono. by apply negb_false_iff in Hmono.
  - split; [lia|]. split; [apply NoDup_nil_2|done].
Qed.

End runner.

Lemma guest_envelope_valid_witness :
  let u := "0b0b0b0b-0000-4000-8000-00000000000a" in
  let push := mkPush "7" "guest.sensor_health" "" "12" "null" in
  Events.Validate (newGuestEnvelope (λ _, None) (mkConfig u u u) u push (Some []) 9) = [] ∧
  Events.Validate (newGuestEnvelope (λ _, None) (mkConfig u u u) u push None 9) ≠ [].
Proof.
  intros u push. split.
  - apply (guest_envelope_valid (λ _, None) (mkConfig u u u) u 40 (Some ["seq"; "data"])
      (Some push) push (Some []) 9); try reflexivity; try eexists; vm_compute; reflexivity || discriminate.
  - vm_compute. discriminate.
Defined.

End Runner.

(** * End to end *)

(** One guest stream, from the sensors' pushes to the runner's spool. The ghost
    fields are [log], every item ever pushed, and [drops], the numbers of the
    items the ring overwrote. [picked] is set between the sender's [Next] (and
    the write that follows it) and its [Advance]. *)
Module Delivery.
Import TelRing Runner.

Section delivery.
Context (parseTime : string → option Z)
        (decodeObject : string → option (option Events.object))
        (cfg : Config) (stream : string).

Record Sys := mkSys {
  ring : Ring;
  log : list Item;
  drops : list Z;
  conn : bool;
  wire : list Item;
  acks : list string;
  picked : bool;
  host : Tel
}.

Definition init (capacity : Z) (e : string) : Sys :=
  mkSys (NewRing capacity e) [] [] false [] [] false newTel.

(** The frame [drainTelemetry] writes for an item. *)
Definition push_of (i : Item) : TelemetryPush :=
  mkPush (Seq i) (Kind i) (GuestWallAt i) (GuestMonotonicNS i) (Data i).

(** [fine = true] lets anything happen between a pick and its [Advance], as the
    code does; [fine = false] is the discipline in which they are one action. *)
Inductive step (fine : bool) : Sys → Sys → Prop :=
  | s_push st k d w m :
      fine = true ∨ picked st = false → seq (ring st) + 1 < 2 ^ 64 →
      step fine st
        (mkSys (Push (ring st) k d w m)
           (log st ++ [mkItem (Strconv.FormatUint (seq (ring st) + 1)) k d w m])
           (if decide (length (items (ring st)) = cap (ring st))
            then drops st ++ [lo (ring st)] else drops st)
           (conn st) (wire st) (acks st) (picked st) (host st))
  | s_pick st i :
      picked st = false → Next (ring st) = Some i →
      step fine st
        (mkSys (ring st) (log st) (drops st) (conn st)
           (if conn st then wire st ++ [i] else wire st) (acks st) true (host st))
  | s_advance st :
      picked st = true →
      step fine st
        (mkSys (Advance (ring st)) (log st) (drops st) (conn st) (wire st) (acks st)
           false (host st))
  | s_deliver st i w now o t a :
      fine = true ∨ picked st = false → conn st = true → wire st = i :: w →
      spoolTelemetryPush parseTime decodeObject cfg stream (push_of i) now o (host st)
        = (t, Some a) →
      step fine st
        (mkSys (ring st) (log st) (drops st) true w (acks st ++ [a]) (picked st) t)
  | s_refuse st i w now o t :
      fine = true ∨ picked st = false → conn st = true → wire st = i :: w →
      spoolTelemetryPush parseTime decodeObject cfg stream (push_of i) now o (host st)
        = (t, None) →
      step fine st
        (mkSys (ring st) (log st) (drops st) false [] (acks st) (picked st) t)
  | s_ack st a l :
      fine = true ∨ picked st = false → acks st = a :: l →
      step fine st
        (mkSys (AckThrough (ring st) a) (log st) (drops st) (conn st) (wire st) l
           (picked st) (host st))
  | s_lost st :
      fine = true ∨ picked st = false →
      step fine st
        (mkSys (ring st) (log st) (drops st) false [] [] (picked st) (host st))
  | s_connect st :
      fine = true ∨ picked st = false →
      step fine st
        (mkSys (Rewind (ring st)) (log st) (drops st) true [] [] (picked st) (host st)).

(** ** The invariant of the disciplined system *)

Definition high (st : Sys) : Z := default 0 (spooled (host st) !! stream).

(** The number of the next item to be written. *)
Definition cursor (st : Sys) : Z :=
  lo (ring st) + Z.of_nat (sent (ring st)) + (if picked st then 1 else 0).

Definition numbered (l : list Item) (i : Item) (m : Z) : Prop :=
  1 ≤ m ∧ l !! Z.to_nat (m - 1) = Some i.

Definition stored (st : Sys) (m : Z) (env : Events.Envelope) : Prop :=
  env ∈ spool (host st) ∧ Events.SourceSeq env = Strconv.FormatUint m.

(** An event of a kind the registry does not let a guest report. *)
Definition unreportable (l : list Item) (m : Z) : Prop :=
  ∃ i, numbered l i m ∧ guestReported (Events.LookupKind (Kind i)) = false.

Record inv (st : Sys) (ws : list Z) : Prop := {
  i_ring : ring_ok (ring st);
  i_picked : picked st = true → (sent (ring st) < length (items (ring st)))%nat;
  i_len : Z.of_nat (length (log st)) = seq (ring st);
  i_log : ∀ k i, log st !! k = Some i →
    Seq i = Strconv.FormatUint (Z.of_nat k + 1);
  i_items : items (ring st) = drop (Z.to_nat (lo (ring st) - 1)) (log st);
  i_drops : Z.of_nat (length (drops st)) = dropped (ring st) ∧
    dropped (ring st) ≤ lo (ring st) - 1;
  i_wire : Forall2 (numbered (log st)) (wire st) ws;
  i_sorted : StronglySorted Z.lt ws;
  i_below : Forall (λ m, m < cursor st) ws;
  i_sent : conn st = true →
    ∀ m, lo (ring st) ≤ m < cursor st → m ≤ high st ∨ m ∈ ws;
  i_high : 0 ≤ high st ≤ seq (ring st);
  i_handled : ∀ m, 1 ≤ m ≤ high st →
    (∃ env, stored st m env) ∨ m ∈ drops st ∨ unreportable (log st) m;
  i_gone : ∀ m, 1 ≤ m < lo (ring st) → m ≤ high st ∨ m ∈ drops st;
  i_acks : ∀ a, a ∈ acks st → ∃ n, Strconv.ParseUint a 64 = Some n ∧ n ≤ high st;
  i_env : ∀ env, env ∈ spool (host st) → ∃ m, 1 ≤ m ∧ stored st m env;
  i_unique : ∀ m e1 e2, stored st m e1 → stored st m e2 → e1 = e2;
  i_again : ∀ m env, stored st m env → high st < m →
    (m < lo (ring st) ∧ m ∉ ws) ∨
    ∃ i, numbered (log st) i m ∧ lastRefusal (host st) = Some (stream, push_of i, env);
  i_refused : ∀ sid p env, lastRefusal (host st) = Some (sid, p, env) →
    ∃ i m, numbered (log st) i m ∧ p = push_of i ∧ sid = stream ∧
      Events.SourceSeq env = Strconv.FormatUint m ∧
      ∀ x, lo (ring st) ≤ x ∨ x ∈ ws → x < m → x ≤ high st
}.

Lemma numbered_app l x i m : numbered l i m → numbered (l ++ [x]) i m.
Proof. intros [? H]. split; [done|]. by apply lookup_app_l_Some. Qed.

Lemma unreportable_app l x m : unreportable l m → unreportable (l ++ [x]) m.
Proof. intros (i & Hi & ?). exists i. split; [by apply numbered_app|done]. Qed.

Lemma numbered_fun l i j m : numbered l i m → numbered l j m → i = j.
Proof. intros [_ H1] [_ H2]. congruence. Qed.

Lemma numbered_le l i m : numbered l i m → m ≤ Z.of_nat (length l).
Proof. intros [? H]. apply lookup_lt_Some in H. lia. Qed.

Lemma numbered_Seq st ws i m :
  inv st ws → numbered (log st) i m →
  Seq i = Strconv.FormatUint m ∧ Strconv.ParseUint (Seq i) 64 = Some m.
Proof.
  intros Hi Hn. pose proof (numbered_le _ _ _ Hn) as Hle. destruct Hn as [H1 Hl].
  pose proof (i_log _ _ Hi _ _ Hl) as Hs. rewrite Z2Nat.id in Hs by lia.
  replace (m - 1 + 1) with m in Hs by lia. split; [done|].
  rewrite Hs. apply Strconv.ParseUint_FormatUint.
  pose proof (i_len _ _ Hi). pose proof (ok_seq _ (i_ring _ _ Hi)). lia.
Qed.

Lemma stored_fun st m1 m2 env : stored st m1 env → stored st m2 env → m1 = m2.
Proof. intros [_ H1] [_ H2]. rewrite H1 in H2. by apply (inj Strconv.FormatInt) in H2. Qed.

Lemma inv_init c e : inv (init c e) [].
Proof.
  unfold init. split; simpl; try done; try apply ring_ok_New; try by constructor.
  all: unfold cursor, high, lo, stored; simpl; try lia; intros *.
  all: rewrite ?elem_of_nil; try done; try lia; try (by intros []).
  rewrite lookup_empty. simpl. lia.
Qed.

Lemma inv_push st ws k d w m :
  inv st ws → picked st = false → seq (ring st) + 1 < 2 ^ 64 →
  inv (mkSys (Push (ring st) k d w m)
         (log st ++ [mkItem (Strconv.FormatUint (seq (ring st) + 1)) k d w m])
         (if decide (length (items (ring st)) = cap (ring st))
          then drops st ++ [lo (ring st)] else drops st)
         (conn st) (wire st) (acks st) (picked st) (host st)) ws.
Proof.
  intros Hi Hp Hb. pose proof Hi as [Hring Hpk Hlen Hlog Hits [Hd1 Hd2] Hwire Hsort Hbel Hsent Hhigh
    Hhand Hgone Hacks Henv Huniq Hagain Href].
  destruct (Push_spec (ring st) k d w m Hring Hb) as (Hok & Hseq & Hcap & Hcase).
  { unfold lo in Hd2. pose proof (length_items_le _ Hring). lia. }
  set (r' := Push _ _ _ _ _) in *. pose proof (ok_lo _ Hring) as Hlo.
  pose proof (ok_sent _ Hring) as Hse. pose proof (ok_cap _ Hring) as Hca.
  assert (Hlo' : lo (ring st) ≤ lo r' ≤ lo (ring st) + 1 ∧ lo r' - 1 ≤ Z.of_nat (length (log st))).
  { unfold lo in *. pose proof (length_items_le _ Hring). case_decide; lia. }
  assert (Hcur : cursor st ≤ lo r' + Z.of_nat (sent r') ∧
    (lo r' + Z.of_nat (sent r') = cursor st ∨ sent r' = 0%nat)).
  { unfold cursor. rewrite Hp. case_decide; lia. }
  assert (Hitems' : items r' = drop (Z.to_nat (lo r' - 1))
    (log st ++ [mkItem (Strconv.FormatUint (seq (ring st) + 1)) k d w m])).
  { rewrite drop_app_le by lia. case_decide; destruct Hcase as (Hl & _ & _ & ->);
      rewrite Hits, Hl; [|done]. rewrite drop_drop. do 2 f_equal. lia. }
  assert (Hdr : Z.of_nat (length (if decide (length (items (ring st)) = cap (ring st))
      then drops st ++ [lo (ring st)] else drops st)) = dropped r' ∧ dropped r' ≤ lo r' - 1).
  { case_decide; destruct Hcase as (Hl & -> & _); rewrite ?length_app; simpl; lia. }
  split; unfold cursor, high, stored in *; simpl; try done.
  - by rewrite Hp.
  - rewrite length_app. simpl. lia.
  - intros j i Hj. apply lookup_app_Some in Hj as [Hj|[Hge Hj]]; [by apply Hlog|].
    apply list_lookup_singleton_Some in Hj as [Hj <-]. simpl. f_equal. lia.
  - eapply Forall2_impl; [done|]. intros i x. apply numbered_app.
  - eapply Forall_impl; [done|]. simpl. rewrite Hp in *. lia.
  - rewrite Hp in *. intros Hc x Hx. destruct Hcur as [? [E|E]].
    + apply Hsent; [done|]. lia.
    + lia.
  - lia.
  - intros x Hx. destruct (Hhand x Hx) as [?|[?|?]]; [auto| |right; right; by apply unreportable_app].
    right. left. case_decide; [apply elem_of_app; auto|done].
  - intros x Hx. destruct (decide (x < lo (ring st))) as [Hxl|].
    + destruct (Hgone x) as [?|?]; [lia|auto|]. right.
      case_decide; [apply elem_of_app; auto|done].
    + assert (x = lo (ring st)) by lia. case_decide; [|lia]. right. subst x.
      apply elem_of_app. right. by apply list_elem_of_singleton.
  - intros x env Hst Hx. destruct (Hagain x env Hst Hx) as [[? ?]|(i & Hn & ?)].
    + left. split; [lia|done].
    + right. exists i. split; [by apply numbered_app|done].
  - intros sid p env He. destruct (Href _ _ _ He) as (i & x & Hn & ? & ? & ? & Hx).
    exists i, x. split_and!; try done; [by apply numbered_app|].
    intros y Hy. apply Hx. destruct Hy; [left; lia|auto].
Qed.

Lemma inv_pick st ws i :
  inv st ws → picked st = false → Next (ring st) = Some i →
  inv (mkSys (ring st) (log st) (drops st) (conn st)
         (if conn st then wire st ++ [i] else wire st) (acks st) true (host st))
      (if conn st then ws ++ [cursor st] else ws).
Proof.
  intros Hi Hp Hnext. pose proof Hi as [Hring Hpk Hlen Hlog Hits Hd Hwire Hsort Hbel Hsent Hhigh
    Hhand Hgone Hacks Henv Huniq Hagain Href].
  unfold Next in Hnext. case_decide as Hlt; [done|].
  assert (Hn : numbered (log st) i (cursor st)).
  { unfold cursor. rewrite Hp, Z.add_0_r. pose proof (ok_lo _ Hring). split; [lia|].
    rewrite Hits, lookup_drop in Hnext. rewrite <- Hnext. f_equal. lia. }
  assert (Hcl : lo (ring st) ≤ cursor st) by (unfold cursor; rewrite Hp; lia).
  split; unfold high, stored in *; simpl; try done.
  - intros _. lia.
  - destruct (conn st); [|done]. apply Forall2_app; [done|]. by constructor.
  - destruct (conn st); [|done]. apply StronglySorted_app. split_and!; [|done|repeat constructor].
    intros x y Hx Hy%list_elem_of_singleton. subst. rewrite Forall_forall in Hbel. by apply Hbel.
  - assert (Hb' : Forall (λ m, m < cursor st + 1) ws)
      by (eapply Forall_impl; [done|]; simpl; lia).
    unfold cursor in *; simpl. rewrite Hp, Z.add_0_r in *.
    destruct (conn st); [|done]. apply Forall_app. split; [done|]. constructor; [lia|done].
  - intros Hc x Hx. rewrite Hc. unfold cursor in *; simpl in *. rewrite Hp, Z.add_0_r in *.
    destruct (decide (x = lo (ring st) + Z.of_nat (sent (ring st)))) as [->|].
    + right. apply elem_of_app. right. by apply list_elem_of_singleton.
    + destruct (Hsent Hc x) as [?|?]; [lia|auto|]. right. apply elem_of_app. auto.
  - intros x env Hst Hx. destruct (Hagain x env Hst Hx) as [[? Hnw]|?]; [|auto]. left.
    split; [done|]. destruct (conn st); [|done]. rewrite elem_of_app, list_elem_of_singleton.
    intros [?|?]; [done|lia].
  - intros sid p env He. destruct (Href _ _ _ He) as (j & x & ? & ? & ? & ? & Hx).
    exists j, x. split_and!; try done. intros y Hy Hlt'. apply Hx; [|done].
    destruct Hy as [?|Hy]; [auto|]. destruct (conn st); [|auto].
    apply elem_of_app in Hy as [?|Hy%list_elem_of_singleton]; [auto|]. subst. auto.
Qed.

Lemma inv_advance st ws :
  inv st ws → picked st = true →
  inv (mkSys (Advance (ring st)) (log st) (drops st) (conn st) (wire st) (acks st)
         false (host st)) ws.
Proof.
  intros [Hring Hpk Hlen Hlog Hits Hd Hwire Hsort Hbel Hsent Hhigh
    Hhand Hgone Hacks Henv Huniq Hagain Href] Hp. pose proof (Hpk Hp) as Hlt.
  assert (Hcur : lo (Advance (ring st)) = lo (ring st) ∧
    seq (Advance (ring st)) = seq (ring st) ∧ items (Advance (ring st)) = items (ring st) ∧
    dropped (Advance (ring st)) = dropped (ring st) ∧
    Z.of_nat (sent (Advance (ring st))) = Z.of_nat (sent (ring st)) + 1).
  { unfold Advance. rewrite decide_True by done. unfold lo; simpl. split_and!; try done; lia. }
  destruct Hcur as (Hlo & Hseq & Hit & Hdr & Hse).
  assert (Hc : cursor (mkSys (Advance (ring st)) (log st) (drops st) (conn st) (wire st) (acks st)
    false (host st)) = cursor st) by (unfold cursor; simpl; rewrite Hp; lia).
  split; rewrite ?Hc; unfold high, stored in *; simpl;
    rewrite ?Hlo, ?Hseq, ?Hit, ?Hdr; try done. by apply Advance_ok.
Qed.

(** The cases of [spoolTelemetryPush] on an item of the stream. *)
Lemma spool_cases st ws i m now o t res :
  inv st ws → numbered (log st) i m →
  spoolTelemetryPush parseTime decodeObject cfg stream (push_of i) now o (host st) = (t, res) →
  (m ≤ high st ∧ t = host st ∧ res = Some (Seq i)) ∨
  (high st < m ∧ res = None ∧ t = host st) ∨
  (high st < m ∧ guestReported (Events.LookupKind (Kind i)) = false ∧ res = Some (Seq i) ∧ ∃ hl,
     t = mkTel (<[stream := m]> (spooled (host st))) (lastRefusal (host st)) (spool (host st)) hl) ∨
  (high st < m ∧ ∃ env, Events.SourceSeq env = Strconv.FormatUint m ∧
     (∀ e, stored st m e → m ∈ ws → e = env) ∧
     ((res = Some (Seq i) ∧
       t = mkTel (<[stream := m]> (spooled (host st))) None (spool (host st) ++ [env]) (health (host st))) ∨
      (res = None ∧ ∃ kept : bool,
       t = mkTel (spooled (host st)) (Some (stream, push_of i, env))
             (if kept then spool (host st) ++ [env] else spool (host st)) (health (host st))))).
Proof.
  intros Hi Hn Hs. destruct (numbered_Seq _ _ _ _ Hi Hn) as (Hseq & Hpa).
  unfold spoolTelemetryPush in Hs. cbn [push_of pSeq pKind pData] in Hs. rewrite Hpa in Hs.
  fold (high st) in Hs. destruct (Z.leb_spec m (high st)); [injection Hs as <- <-; auto|].
  right. destruct (guestReported (Events.LookupKind (Kind i))) eqn:Hk; cbn [negb] in Hs.
  2: { right. left. apply pair_equal_spec in Hs as [<- <-]. split; [assumption|]. split; [reflexivity|].
       split; [reflexivity|]. eexists. reflexivity. }
  clear Hk. destruct (decodeObject (Data i)) as [data|]; [|left; by injection Hs as <- <-].
  right. right. split; [done|].
  set (env := match reuse _ _ _ with Some e => e | None => _ end) in Hs.
  assert (Henv : Events.SourceSeq env = Strconv.FormatUint m ∧
    (∀ e, lastRefusal (host st) = Some (stream, push_of i, e) → e = env)).
  { unfold env, reuse. destruct (lastRefusal (host st)) as [[[sid p] e0]|] eqn:El; [|done].
    destruct (i_refused _ _ Hi _ _ _ El) as (j & x & Hj & -> & -> & Hx & _).
    rewrite String.eqb_refl. cbn [negb]. case_bool_decide as Hpe.
    - split; [|intros e E; congruence].
      assert (Seq j = Seq i) as Hji by (by injection Hpe).
      destruct (numbered_Seq _ _ _ _ Hi Hj) as (Hsj & _). rewrite Hx, <- Hsj. congruence.
    - split; [done|]. intros e E. congruence. }
  destruct Henv as [He1 He2]. exists env. split; [done|]. split.
  { intros e Hst Hw. destruct (i_again _ _ Hi _ _ Hst) as [[_ ?]|(j & Hj & Hl)]; [lia|done|].
    rewrite (numbered_fun _ _ _ _ Hj Hn) in Hl. by apply He2. }
  destruct o as [|kept]; injection Hs as <- <-; [by left|]. right. split; [done|]. by exists kept.
Qed.

Lemma head_rest st ws h ws' :
  inv st ws → ws = h :: ws' → conn st = true →
  (∀ x, x ∈ ws' → h < x) ∧ h < cursor st ∧
  (∀ x, lo (ring st) ≤ x < h → x ≤ high st).
Proof.
  intros Hi -> Hc. pose proof (i_sorted _ _ Hi) as Hs. pose proof (i_below _ _ Hi) as Hb.
  apply StronglySorted_inv in Hs as [_ Hf]. rewrite Forall_forall in Hf.
  apply Forall_cons in Hb as [Hh _]. split; [done|]. split; [done|].
  intros x Hx. destruct (i_sent _ _ Hi Hc x) as [?|Hin]; [lia|done|].
  apply elem_of_cons in Hin as [->|Hin]; [lia|]. specialize (Hf x Hin). lia.
Qed.

(** A connection that ends takes what was in flight to the host with it. *)
Lemma inv_cut st ws l :
  inv st ws → picked st = false → (∀ a, a ∈ l → a ∈ acks st) →
  inv (mkSys (ring st) (log st) (drops st) false [] l (picked st) (host st)) [].
Proof.
  intros [Hring Hpk Hlen Hlog Hits Hd Hwire Hsort Hbel Hsent Hhigh
    Hhand Hgone Hacks Henv Huniq Hagain Href] Hp Hl.
  split; unfold cursor, high, stored in *; simpl; try done.
  - constructor.
  - intros b Hb. by apply Hacks, Hl.
  - intros x e Hx Hxh. destruct (Hagain x e Hx Hxh) as [[? ?]|?]; [|auto].
    left. split; [done|apply not_elem_of_nil].
  - intros sid p e Hr. destruct (Href _ _ _ Hr) as (j & x & ? & ? & ? & ? & Hx).
    exists j, x. split_and!; try done. intros y [?|Hy]; [|by apply elem_of_nil in Hy].
    apply Hx. auto.
Qed.

Lemma inv_deliver st ws i w now o t a :
  inv st ws → picked st = false → conn st = true → wire st = i :: w →
  spoolTelemetryPush parseTime decodeObject cfg stream (push_of i) now o (host st) = (t, Some a) →
  ∃ ws', inv (mkSys (ring st) (log st) (drops st) true w (acks st ++ [a]) (picked st) t) ws'.
Proof.
  intros Hi Hp Hc Hw Hs. pose proof Hi as [Hring Hpk Hlen Hlog Hits Hd Hwire Hsort Hbel Hsent Hhigh
    Hhand Hgone Hacks Henv Huniq Hagain Href].
  rewrite Hw in Hwire. inversion Hwire as [|? h ? ws' Hn Hwire']; subst.
  destruct (head_rest st _ h ws' Hi eq_refl Hc) as (Hgt & Hhc & Hin).
  destruct (numbered_Seq _ _ _ _ Hi Hn) as (Hseq & Hpa).
  pose proof (StronglySorted_inv Hsort) as [Hsort' _].
  apply Forall_cons in Hbel as [_ Hbel']. exists ws'.
  assert (Hnin : h ∉ ws') by (intros Hx; specialize (Hgt h Hx); lia).
  pose proof (numbered_le _ _ _ Hn) as Hhl.
  assert (Hhigh' : default 0 (<[stream := h]> (spooled (host st)) !! stream) = h)
    by (by rewrite lookup_insert_eq).
  assert (Hup : ∀ x, x ≤ h → x ≠ h → high st < h →
    x < 1 ∨ (∃ e, stored st x e) ∨ x ∈ drops st ∨ unreportable (log st) x).
  { intros x Hx Hxh Hh. destruct (decide (x < 1)); [by left|]. right.
    destruct (decide (x ≤ high st)); [apply Hhand; lia|].
    destruct (decide (x < lo (ring st))) as [|Hxl]; [destruct (Hgone x); [lia|lia|auto]|].
    exfalso. assert (x ≤ high st) by (apply Hin; lia). lia. }
  destruct (spool_cases _ _ _ _ _ _ _ _ Hi Hn Hs)
    as [(Hle & -> & Ha)|[(_ & ? & _)|[(Hlt & Hk & Ha & hl & ->)|
        (Hlt & env & He & Hsame & [(Ha & ->)|[? _]])]]]; [|done| | |done].
  - injection Ha as ->. split; unfold cursor, high, stored in *; simpl; try done.
    + intros _ x Hx. rewrite Hc in Hsent. destruct (Hsent eq_refl x Hx) as [?|Hx']; [auto|].
      apply elem_of_cons in Hx' as [->|?]; auto.
    + intros b [Hb|Hb%list_elem_of_singleton]%elem_of_app; [by apply Hacks|]. subst. eauto.
    + intros x e Hx Hxh. destruct (Hagain x e Hx Hxh) as [[? Hx']|?]; [|auto]. left.
      split; [done|]. intros Hin'. apply Hx'. by right.
    + intros sid p e Hl. destruct (Href _ _ _ Hl) as (j & x & ? & ? & ? & ? & Hx).
      exists j, x. split_and!; try done. intros y Hy. apply Hx. destruct Hy; [auto|]. right. by right.
  - injection Ha as ->. assert (Hun : unreportable (log st) h) by (exists i; split; [exact Hn|exact Hk]).
    clear Hk. assert (Hh' : high st < h) by done.
    split; unfold cursor, high, stored in *; simpl in *; rewrite ?Hhigh'; try done.
    + intros _ x Hx. rewrite Hc in Hsent. destruct (Hsent eq_refl x Hx) as [?|Hx']; [left; lia|].
      apply elem_of_cons in Hx' as [->|?]; [left; lia|auto].
    + lia.
    + intros x Hx. destruct (decide (x = h)) as [->|]; [right; right; exact Hun|].
      destruct (Hup x) as [?|?]; [lia..|done].
    + intros x Hx. destruct (Hgone x Hx); [left; lia|auto].
    + intros b [Hb|Hb%list_elem_of_singleton]%elem_of_app.
      * destruct (Hacks b Hb) as (n & ? & ?). exists n. split; [done|]. lia.
      * subst. exists h. split; [done|lia].
    + intros x e Hx Hxh. destruct (Hagain x e Hx) as [[? Hx']|?]; [lia| |auto].
      left. split; [done|]. intros Hin'. apply Hx'. by right.
    + intros sid p e Hl. destruct (Href _ _ _ Hl) as (j & x & ? & ? & ? & ? & Hx).
      exists j, x. split_and!; try done. intros y Hy Hyx. enough (y ≤ default 0 (spooled (host st) !! stream)) by lia.
      apply Hx; [|done]. destruct Hy; [auto|]. right. by right.
  - injection Ha as ->.
    assert (Hst : ∀ x e, (e ∈ spool (host st) ++ [env] ∧ Events.SourceSeq e = Strconv.FormatUint x)
      ↔ stored st x e ∨ (e = env ∧ x = h)).
    { intros x e. unfold stored. rewrite elem_of_app, list_elem_of_singleton. split.
      - intros [[?| ->] Hx]; [auto|]. right. split; [done|].
        rewrite He in Hx. by apply (inj Strconv.FormatInt) in Hx.
      - intros [[? ?]|[-> ->]]; auto. }
    assert (Hh' : high st < h) by done.
    split; unfold cursor, high, stored in *; simpl in *; rewrite ?Hhigh'; try done.
    + intros _ x Hx. rewrite Hc in Hsent. destruct (Hsent eq_refl x Hx) as [?|Hx']; [left; lia|].
      apply elem_of_cons in Hx' as [->|?]; [left; lia|auto].
    + lia.
    + intros x Hx. setoid_rewrite Hst.
      destruct (decide (x = h)) as [->|]; [left; exists env; auto|].
      destruct (Hup x) as [?|[[e ?]|?]]; [lia..| |auto]. left. exists e. by left.
    + intros x Hx. destruct (Hgone x Hx); [left; unfold high in *; lia|auto].
    + intros b [Hb|Hb%list_elem_of_singleton]%elem_of_app.
      * destruct (Hacks b Hb) as (n & ? & ?). exists n. split; [done|]. unfold high in *. lia.
      * subst. exists h. split; [done|lia].
    + intros e [Hb|Hb%list_elem_of_singleton]%elem_of_app.
      * destruct (Henv e Hb) as (x & ? & ?). exists x. split; [done|]. apply Hst. by left.
      * exists h. split; [destruct Hn; lia|]. apply Hst. auto.
    + intros x e1 e2 [H1|[-> ->]]%Hst [H2|[E2 E2']]%Hst; subst; try done.
      * by eapply Huniq.
      * apply Hsame; [done|by left].
      * symmetry. apply Hsame; [done|by left].
    + intros x e [Hx|[-> ->]]%Hst Hxh; [|lia].
      destruct (Hagain x e Hx) as [[? Hx']|(j & Hj & Hl)]; [unfold high in *; lia| |].
      * left. split; [done|]. intros Hin'. apply Hx'. by right.
      * exfalso. destruct (Href _ _ _ Hl) as (j' & x' & Hj' & Hpe & _ & Hsx & Hall).
        assert (x' = x) as ->.
        { destruct Hx as [_ Hx]. rewrite Hx in Hsx. by apply (inj Strconv.FormatInt) in Hsx. }
        assert (h ≤ high st); [|unfold high in *; lia]. apply Hall; [right; by left|lia].
Qed.

Lemma inv_refuse st ws i w now o t :
  inv st ws → picked st = false → conn st = true → wire st = i :: w →
  spoolTelemetryPush parseTime decodeObject cfg stream (push_of i) now o (host st) = (t, None) →
  inv (mkSys (ring st) (log st) (drops st) false [] (acks st) (picked st) t) [].
Proof.
  intros Hi Hp Hc Hw Hs. pose proof Hi as [Hring Hpk Hlen Hlog Hits Hd Hwire Hsort Hbel Hsent Hhigh
    Hhand Hgone Hacks Henv Huniq Hagain Href].
  rewrite Hw in Hwire. inversion Hwire as [|? h ? ws' Hn Hwire']; subst.
  destruct (head_rest st _ h ws' Hi eq_refl Hc) as (Hgt & Hhc & Hin).
  destruct (spool_cases _ _ _ _ _ _ _ _ Hi Hn Hs)
    as [(_ & _ & ?)|[(_ & _ & ->)|[(_ & _ & ? & _)|(Hlt & env & He & Hsame & [(? & _)|[_ [kept ->]]])]]];
    [done|by apply (inv_cut _ _ _ Hi Hp)|done|done|].
  assert (Hst : ∀ x e, (e ∈ (if kept then spool (host st) ++ [env] else spool (host st)) ∧
      Events.SourceSeq e = Strconv.FormatUint x) ↔ stored st x e ∨ (kept = true ∧ e = env ∧ x = h)).
  { intros x e. unfold stored. destruct kept.
    - rewrite elem_of_app, list_elem_of_singleton. split.
      + intros [[?| ->] Hx]; [auto|]. right. split_and!; try done.
        rewrite He in Hx. by apply (inj Strconv.FormatInt) in Hx.
      + intros [[? ?]|(_ & -> & ->)]; auto.
    - split; [auto|]. intros [?|[? _]]; done. }
  assert (Hmine : ∀ e, stored st h e → e = env) by (intros e Hx; apply Hsame; [done|by left]).
  split; unfold cursor, high, stored in *; simpl in *; try done.
  - constructor.
  - intros x Hx. setoid_rewrite Hst. destruct (Hhand x Hx) as [[e ?]|?]; [|auto]. left.
    exists e. by left.
  - intros e Hx. assert (Hx' : e ∈ spool (host st) ∨ e = env).
    { destruct kept; [apply elem_of_app in Hx as [?|?%list_elem_of_singleton]; auto|auto]. }
    destruct Hx' as [Hx'| ->].
    + destruct (Henv e Hx') as (x & ? & ?). exists x. split; [done|]. apply Hst. by left.
    + exists h. split; [destruct Hn; lia|]. split; [|done]. done.
  - intros x e1 e2 [H1|(_ & E1 & ->)]%Hst [H2|(_ & E2 & E2')]%Hst; subst; try done.
    + by eapply Huniq.
    + by apply Hmine.
    + symmetry. by apply Hmine.
  - intros x e [Hx|(_ & -> & ->)]%Hst Hxh; [|right; by exists i].
    destruct (decide (x = h)) as [->|Hne]; [right; exists i; by rewrite (Hmine e Hx)|].
    destruct (decide (x < lo (ring st))) as [|Hxl]; [left; split; [done|apply not_elem_of_nil]|].
    exfalso. destruct (Hagain x e Hx) as [[? _]|(j & Hj & Hl)]; [done|lia|].
    destruct (Href _ _ _ Hl) as (j' & x' & Hj' & _ & _ & Hsx & Hall).
    assert (x' = x) as ->.
    { destruct Hx as [_ Hx]. rewrite Hx in Hsx. by apply (inj Strconv.FormatInt) in Hsx. }
    destruct (decide (h < x)) as [Hhx|].
    + assert (h ≤ high st); [|unfold high in *; lia]. apply Hall; [right; by left|done].
    + assert (x ≤ high st); [|unfold high in *; lia]. apply Hin. lia.
  - intros sid p e [= <- <- <-]. exists i, h. split_and!; try done.
    intros x [Hx|Hx] Hxh; [|by apply elem_of_nil in Hx]. apply Hin. lia.
Qed.

Lemma inv_ack st ws b l :
  inv st ws → picked st = false → acks st = b :: l →
  inv (mkSys (AckThrough (ring st) b) (log st) (drops st) (conn st) (wire st) l
         (picked st) (host st)) ws.
Proof.
  intros [Hring Hpk Hlen Hlog Hits Hd Hwire Hsort Hbel Hsent Hhigh
    Hhand Hgone Hacks Henv Huniq Hagain Href] Hp Ha.
  destruct (Hacks b) as (n & Hn & Hnh); [rewrite Ha; by left|].
  destruct (AckThrough_spec _ _ _ Hring Hn) as (Hok & Hseq & _ & Hdr & Hlo & Hit & Hcur).
  set (r' := AckThrough _ _) in *. pose proof (ok_lo _ Hring) as Hlo1.
  assert (Hlo2 : lo (ring st) ≤ lo r') by lia.
  split; unfold cursor, high, stored in *; simpl; rewrite ?Hp in *; rewrite ?Hseq, ?Hdr; try done.
  - rewrite Hit, Hits, drop_drop. f_equal. lia.
  - destruct Hd. split; [done|lia].
  - eapply Forall_impl; [done|]. simpl. lia.
  - intros Hc x Hx. apply Hsent; [done|]. lia.
  - intros x Hx. destruct (decide (x < lo (ring st))); [apply Hgone; lia|]. left. lia.
  - intros c Hc. apply Hacks. rewrite Ha. by right.
  - intros x e Hx Hxh. destruct (Hagain x e Hx Hxh) as [[? ?]|?]; [left; split; [lia|done]|auto].
  - intros sid p e Hl. destruct (Href _ _ _ Hl) as (j & x & ? & ? & ? & ? & Hx).
    exists j, x. split_and!; try done. intros y Hy. apply Hx. destruct Hy; [left; lia|auto].
Qed.

Lemma inv_connect st ws :
  inv st ws → picked st = false →
  inv (mkSys (Rewind (ring st)) (log st) (drops st) true [] [] (picked st) (host st)) [].
Proof.
  intros Hi Hp. destruct (inv_cut _ _ [] Hi Hp ltac:(set_solver)) as [Hring Hpk Hlen Hlog Hits Hd Hwire Hsort Hbel
    Hsent Hhigh Hhand Hgone Hacks Henv Huniq Hagain Href].
  split; unfold cursor, high, stored in *; simpl in *; try done.
  - by apply Rewind_ok.
  - by rewrite Hp.
  - rewrite Hp. unfold lo; simpl. intros _ x. lia.
Qed.

Lemma step_inv st st' ws : step false st st' → inv st ws → ∃ ws', inv st' ws'.
Proof.
  intros Hs Hi. assert (Hq : ∀ q, false = true ∨ q = false → q = false) by (intros ? [?|?]; done).
  destruct Hs as [? ? ? ? ? Hp|? ? Hp|? Hp|? ? ? ? ? ? ? Hp|? ? ? ? ? ? Hp|? ? ? Hp|? Hp|? Hp];
    try apply Hq in Hp.
  - eexists. by apply inv_push.
  - eexists. by apply inv_pick.
  - eexists. by apply inv_advance.
  - by eapply inv_deliver.
  - eexists. by eapply inv_refuse.
  - eexists. by eapply inv_ack.
  - eexists. eapply inv_cut; [done..|set_solver].
  - eexists. by eapply inv_connect.
Qed.

(** ** Running the system *)

Inductive action :=
  | APush (kind data wall mono : string)
  | APick
  | AAdvance
  | ADeliver (now : Z) (o : AppendOutcome)
  | AAck
  | ALost
  | AConnect.

(** The successor of a state under an action, when the action is possible. *)
Definition act (fine : bool) (st : Sys) (a : action) : option Sys :=
  let quiet := fine || negb (picked st) in
  match a with
  | APush k d w m =>
    if quiet && (seq (ring st) + 1 <? 2 ^ 64) then Some (mkSys (Push (ring st) k d w m)
           (log st ++ [mkItem (Strconv.FormatUint (seq (ring st) + 1)) k d w m])
           (if decide (length (items (ring st)) = cap (ring st))
            then drops st ++ [lo (ring st)] else drops st)
           (conn st) (wire st) (acks st) (picked st) (host st))
    else None
  | APick =>
    if picked st then None
    else i ← Next (ring st);
      Some (mkSys (ring st) (log st) (drops st) (conn st)
           (if conn st then wire st ++ [i] else wire st) (acks st) true (host st))
  | AAdvance =>
    if picked st then
      Some (mkSys (Advance (ring st)) (log st) (drops st) (conn st) (wire st) (acks st)
           false (host st))
    else None
  | ADeliver now o =>
    match wire st with
    | [] => None
    | i :: w =>
      if quiet && conn st then
        match spoolTelemetryPush parseTime decodeObject cfg stream (push_of i) now o (host st) with
        | (t, Some a) =>
          Some (mkSys (ring st) (log st) (drops st) true w (acks st ++ [a]) (picked st) t)
        | (t, None) =>
          Some (mkSys (ring st) (log st) (drops st) false [] (acks st) (picked st) t)
        end
      else None
    end
  | AAck =>
    match acks st with
    | [] => None
    | a :: l =>
      if quiet then
        Some (mkSys (AckThrough (ring st) a) (log st) (drops st) (conn st) (wire st) l
           (picked st) (host st))
      else None
    end
  | ALost =>
    if quiet then Some (mkSys (ring st) (log st) (drops st) false [] [] (picked st) (host st))
    else None
  | AConnect =>
    if quiet then
      Some (mkSys (Rewind (ring st)) (log st) (drops st) true [] [] (picked st) (host st))
    else None
  end.

Fixpoint runActs (fine : bool) (st : Sys) (l : list action) : option Sys :=
  match l with
  | [] => Some st
  | a :: l => st' ← act fine st a; runActs fine st' l
  end.

Lemma act_step fine st a st' : act fine st a = Some st' → step fine st st'.
Proof.
  assert (Hquiet : fine || negb (picked st) = true → fine = true ∨ picked st = false)
    by (destruct fine, (picked st); auto).
  destruct a as [k d w m| | |now o| | |]; unfold act; cbv zeta.
  - intros Ha. destruct (fine || negb (picked st)) eqn:Eq; [|discriminate Ha].
    destruct (Z.ltb_spec (seq (ring st) + 1) (2 ^ 64)); [|discriminate Ha]. injection Ha as <-.
    apply s_push; auto.
  - destruct (picked st) eqn:Ep; [done|]. destruct (Next (ring st)) as [i|] eqn:En; [|done].
    intros [= <-]. by apply s_pick.
  - destruct (picked st) eqn:Ep; [|done]. intros [= <-]. by apply s_advance.
  - destruct (wire st) as [|i w] eqn:Ew; [done|].
    destruct (fine || negb (picked st)) eqn:Eq; [|done]. destruct (conn st) eqn:Ec; [|done].
    cbn [andb]. destruct (spoolTelemetryPush _ _ _ _ _ _ _ _) as [t [a|]] eqn:Es; intros [= <-].
    + eapply s_deliver; auto; done.
    + eapply s_refuse; auto; done.
  - destruct (acks st) as [|b l] eqn:Ea; [done|].
    destruct (fine || negb (picked st)) eqn:Eq; [|done]. intros [= <-]. by apply s_ack; auto.
  - destruct (fine || negb (picked st)) eqn:Eq; [|done]. intros [= <-]. apply s_lost. auto.
  - destruct (fine || negb (picked st)) eqn:Eq; [|done]. intros [= <-]. apply s_connect. auto.
Qed.

Lemma runActs_steps fine st l st' : runActs fine st l = Some st' → rtc (step fine) st st'.
Proof.
  revert st. induction l as [|a l IH]; intros st; simpl; [intros [= <-]; apply rtc_refl|].
  destruct (act fine st a) as [st1|] eqn:E; [|done]. simpl. intros H.
  eapply rtc_l; [by eapply act_step|by apply IH].
Qed.

(** C32: guest telemetry is delivered, counted as dropped, or refused for its kind,
    as long as one connection is served at a time and the sender's write of an item
    and its cursor move are one action. In every state reachable from a new ring, over
    any interleaving of pushes of any kind and data, sends, deliveries, refused
    appends (whether or not the record reached the segment), acknowledgements, broken
    connections and new ones: every event ever pushed is still in the ring, or is in
    the runner's spool under its own sequence number, or is one of the drops the
    heartbeat counts, or is of a kind that the registry does not let a guest report;
    and two records in the spool under one sequence number are the same envelope, so
    that the store sees a retransmission and not a conflict. (The counter of the ring
    is assumed not to reach 2^64.) *)
Theorem telemetry_delivered c e st :
  rtc (step false) (init c e) st →
  Z.of_nat (length (drops st)) = dropped (ring st) ∧
  (∀ m, 1 ≤ m ≤ seq (ring st) →
     (∃ i, i ∈ items (ring st) ∧ Seq i = Strconv.FormatUint m) ∨
     (∃ env, stored st m env) ∨ m ∈ drops st ∨ unreportable (log st) m) ∧
  (∀ m e1 e2, stored st m e1 → stored st m e2 → e1 = e2).
Proof.
  intros Hr. assert (Hi : ∃ ws, inv st ws).
  { remember (init c e) as st0. assert (Hi : ∃ ws, inv st0 ws) by (subst; eexists; apply inv_init).
    clear Heqst0. induction Hr as [|? ? ? Hs _ IH]; [done|].
    apply IH. destruct Hi as [ws Hi]. by eapply step_inv. }
  destruct Hi as [ws [Hring Hpk Hlen Hlog Hits Hd Hwire Hsort Hbel Hsent Hhigh
    Hhand Hgone Hacks Henv Huniq Hagain Href]].
  split; [by destruct Hd|]. split; [|done]. intros m Hm.
  destruct (decide (lo (ring st) ≤ m)) as [Hl|Hl].
  - left. assert (is_Some (items (ring st) !! Z.to_nat (m - lo (ring st)))) as [i Hi].
    { apply lookup_lt_is_Some. unfold lo in *. lia. }
    exists i. split; [by apply list_elem_of_lookup_2 in Hi|].
    rewrite (ok_items _ Hring _ _ Hi). f_equal. lia.
  - right. destruct (Hgone m) as [Hmh|?]; [lia| |auto]. apply Hhand. lia.
Qed.

End delivery.

(** ** Runs *)

Definition parse_ex (s : string) : option Z := None.
Definition decode_ex (s : string) : option (option Events.object) := Some (Some []).
Definition cfg_ex : Config := mkConfig "vm" "boot" "inst".
Definition beat : action := APush "guest.sensor_health" "{}" "" "".

(** A two item ring overflows before the host connects; the first append is
    refused although its record reached the segment, the connection is lost and
    the item is sent again; the last event is of no registered kind. *)
Definition run_ex : list action :=
  [beat; beat; APush "guest.made_up" "{}" "" ""; AConnect; APick; AAdvance; ADeliver 5 (AppendErr true);
   AConnect; APick; AAdvance; ADeliver 6 AppendOK; AAck; APick; AAdvance; ADeliver 7 AppendOK; AAck].

Lemma telemetry_delivered_witness :
  ∃ st, runActs parse_ex decode_ex cfg_ex "s" false (init 2 "e") run_ex = Some st ∧
    (Events.SourceSeq <$> spool (host st)) = ["2"; "2"] ∧ drops st = [1] ∧
    items (ring st) = [] ∧ health (host st) = [UnregisteredKind "guest.made_up" "s" "3"] ∧
    Z.of_nat (length (drops st)) = dropped (ring st).
Proof.
  destruct (runActs parse_ex decode_ex cfg_ex "s" false (init 2 "e") run_ex) as [st|] eqn:E;
    [|exfalso; vm_compute in E; discriminate E].
  exists st. split; [reflexivity|].
  pose proof (telemetry_delivered parse_ex decode_ex cfg_ex "s" 2 "e" st
    (runActs_steps _ _ _ _ _ _ _ _ E)) as [H _].
  vm_compute in E. injection E as <-.
  do 4 (split; [reflexivity|]). exact H.
Defined.

(** the discipline matters, and the code does not keep it: between the
    sender's [Next] and its [Advance] the ring is unlocked. If the host's
    acknowledgement of an item is folded in before the sender moves its cursor
    past it, the move skips the next item; the host then acknowledges a later
    one and the ring forgets the skipped event, which was never sent, is not in
    the spool, and is not counted as dropped. *)
Theorem ack_race_loses_event :
  ∃ st, rtc (step parse_ex decode_ex cfg_ex "s" true) (init 8 "e") st ∧
    seq (ring st) = 3 ∧ dropped (ring st) = 0 ∧ drops st = [] ∧
    items (ring st) = [] ∧ wire st = [] ∧
    (∀ env, env ∈ spool (host st) → Events.SourceSeq env ≠ Strconv.FormatUint 2).
Proof.
  destruct (runActs parse_ex decode_ex cfg_ex "s" true (init 8 "e")
    [beat; beat; AConnect; APick; ADeliver 5 AppendOK; AAck; AAdvance;
     beat; APick; AAdvance; ADeliver 6 AppendOK; AAck]) as [st|] eqn:E;
    [|exfalso; vm_compute in E; discriminate E].
  exists st. split; [by eapply runActs_steps|].
  vm_compute in E. injection E as <-. split_and!; try reflexivity.
  intros env [->|[->|[]%elem_of_nil]%elem_of_cons]%elem_of_cons; vm_compute; congruence.
Qed.

End Delivery.
