(* ===== verification/Network.v ===== *)
(** The transit-subnet allocator (internal/network/alloc.go, names.go): host-route
    overlap, and one /30 per VM. *)

From S2P Require Import Prelude.

Local Open Scope Z_scope.

(** * Addresses and prefixes, as net/netip has them *)

Module Netip.

Inductive Addr :=
  | NoAddr
  | IP4 (n : Z)
  | IP6 (n : Z) (zone : string).

#[export] Instance Addr_eq_dec : EqDecision Addr.
Proof. solve_decision. Defined.
#[export] Instance Addr_countable : Countable Addr.
Proof.
  refine (inj_countable'
    (λ a, match a with NoAddr => inl () | IP4 n => inr (inl n) | IP6 n z => inr (inr (n, z)) end)
    (λ c, match c with inl _ => NoAddr | inr (inl n) => IP4 n | inr (inr (n, z)) => IP6 n z end) _).
  by intros [].
Defined.

Definition Is4 (a : Addr) : bool := match a with IP4 _ => true | _ => false end.
Definition BitLen (a : Addr) : Z := match a with NoAddr => 0 | IP4 _ => 32 | IP6 _ _ => 128 end.
Definition withoutZone (a : Addr) : Addr := match a with IP6 n _ => IP6 n "" | a => a end.
Definition hasZone (a : Addr) : bool :=
  match a with IP6 _ z => negb (z =? "")%string | _ => false end.

(** [Bits] is -1 for an invalid prefix. *)
Record Prefix := mkPrefix { addr : Addr; Bits : Z }.

#[export] Instance Prefix_eq_dec : EqDecision Prefix.
Proof. solve_decision. Defined.
#[export] Instance Prefix_countable : Countable Prefix.
Proof.
  refine (inj_countable' (λ p, (addr p, Bits p)) (λ '(a, b), mkPrefix a b) _). by intros [].
Defined.

Definition IsValid (p : Prefix) : bool := 0 <=? Bits p.

Definition PrefixFrom (a : Addr) (bits : Z) : Prefix :=
  mkPrefix (withoutZone a)
    (match a with
     | NoAddr => -1
     | _ => if (0 <=? bits) && (bits <=? BitLen a) then bits else -1
     end).

Definition sameNet (w bits n m : Z) : bool := Z.shiftr (Z.lxor n m) (w - bits) =? 0.

Definition Contains (p : Prefix) (a : Addr) : bool :=
  IsValid p && negb (hasZone a) &&
  match addr p, a with
  | IP4 n, IP4 m => sameNet 32 (Bits p) n m
  | IP6 n _, IP6 m _ => sameNet 128 (Bits p) n m
  | _, _ => false
  end.

Definition clearLow (k n : Z) : Z := Z.shiftl (Z.shiftr n k) k.

Definition Masked (p : Prefix) : Prefix :=
  if negb (IsValid p) then mkPrefix NoAddr (-1) else
  match addr p with
  | IP4 n => mkPrefix (IP4 (clearLow (32 - Bits p) n)) (Bits p)
  | IP6 n _ => mkPrefix (IP6 (clearLow (128 - Bits p) n) "") (Bits p)
  | NoAddr => mkPrefix NoAddr (-1)
  end.

(** A prefix as [PrefixFrom] makes them. *)
Definition proper (p : Prefix) : Prop :=
  match addr p with
  | IP4 n => 0 ≤ n < 2 ^ 32 ∧ 0 ≤ Bits p ≤ 32
  | IP6 n z => 0 ≤ n < 2 ^ 128 ∧ 0 ≤ Bits p ≤ 128 ∧ z = ""
  | NoAddr => False
  end.

(** ** Prefixes as ranges *)

Lemma lxor_shiftr_0 n m k :
  0 ≤ k → Z.shiftr (Z.lxor n m) k = 0 ↔ Z.shiftr n k = Z.shiftr m k.
Proof. intros Hk. rewrite Z.shiftr_lxor. apply Z.lxor_eq_0_iff. Qed.

Lemma sameNet_spec w bits n m :
  bits ≤ w → sameNet w bits n m = true ↔ n / 2 ^ (w - bits) = m / 2 ^ (w - bits).
Proof.
  intros Hb. unfold sameNet. rewrite Z.eqb_eq, lxor_shiftr_0 by lia.
  by rewrite !Z.shiftr_div_pow2 by lia.
Qed.

Lemma clearLow_spec k n : 0 ≤ k → clearLow k n = n / 2 ^ k * 2 ^ k.
Proof. intros Hk. unfold clearLow. rewrite Z.shiftl_mul_pow2, Z.shiftr_div_pow2 by lia. done. Qed.

(** Of two aligned ranges whose widths are powers of two, one contains the other or
    they are apart. *)
Lemma nested_ranges a b k x :
  0 ≤ k → 0 ≤ b → x / 2 ^ k = a / 2 ^ k → x / 2 ^ (k + b) = a / 2 ^ (k + b).
Proof.
  intros Hk Hb H. rewrite Z.pow_add_r by lia.
  rewrite <- !Z.div_div, H by (try apply Z.pow_nonzero; try apply Z.pow_pos_nonneg; lia). done.
Qed.

End Netip.

(** * The allocator *)

Module Alloc.
Import Netip.

Record Route := mkRoute { Dst : Prefix; Dev : string; Gateway : string }.

(** One decoded entry of the output of [ip -json route]. *)
Record ipRouteEntry := mkEntry { eDst : string; eType : string; eDev : string; eGateway : string }.

(** The parsers of netip are arguments. *)
Section parse.
Context (ParsePrefix : string → option Prefix) (ParseAddr : string → option Addr).

Definition routeDst (dst : string) : option Prefix :=
  let dst := if (dst =? "default")%string then "0.0.0.0/0" else dst in
  match ParsePrefix dst with
  | Some p => Some (Masked p)
  | None =>
    match ParseAddr dst with
    | Some a => Some (PrefixFrom a (BitLen a))
    | None => None
    end
  end.

(** The entries are those of the JSON document, in its order. *)
Fixpoint ParseIPRoutes (entries : list ipRouteEntry) : option (list Route) :=
  match entries with
  | [] => Some []
  | e :: rest =>
    if negb (eType e =? "")%string && negb (eType e =? "unicast")%string
    then ParseIPRoutes rest else
    p ← routeDst (eDst e);
    routes ← ParseIPRoutes rest;
    Some (mkRoute p (eDev e) (eGateway e) :: routes)
  end.
End parse.

(** [hexSum]: the SHA-256 of an id, in hexadecimal. *)
Definition VethName (hexSum : string → string) (id : string) : string :=
  "veth-" +:+ String.substring 0 10 (hexSum id).

(** The leases come in the order the map is walked in. *)
Definition ExcludeOwnedRoutes (hexSum : string → string) (routes : list Route)
    (leases : list (string * Prefix)) : list Route :=
  let owned := foldl (λ m '(vm, p), <[VethName hexSum vm := p]> m) (∅ : gmap string Prefix) leases in
  List.filter (λ r, negb (bool_decide (owned !! Dev r = Some (Dst r)) &&
    (Gateway r =? "")%string)) routes.

Record Allocator := mkAlloc {
  pools : list Prefix;
  exclusions : list (Prefix * Prefix);
  leases : gmap string Prefix;
  occupied : gmap Prefix string
}.

Definition prefixesOverlap (a b : Prefix) : bool := Contains a (addr b) || Contains b (addr a).

Inductive AllocErr :=
  | ErrNotIPv4 (pool : Prefix)
  | ErrAllPoolsOverlap
  | ErrPoolExhausted
  | ErrOwnerRequired
  | ErrInvalidLease
  | ErrPrefixTaken (owner : string)
  | ErrOwnerHolds (p : Prefix).

(** The first route that excludes a pool. *)
Definition excludedBy (routes : list Route) (pool : Prefix) : option Route :=
  List.find (λ r, negb (Bits (Dst r) =? 0) && prefixesOverlap pool (Dst r)) routes.

(** The allocator is built even when no pool is usable. *)
Definition NewAllocator (routes : list Route) (pools : list Prefix)
    : option Allocator * option AllocErr :=
  match List.find (λ pool, negb (Is4 (addr pool))) pools with
  | Some pool => (None, Some (ErrNotIPv4 pool))
  | None =>
    let usable := List.filter (λ pool, bool_decide (excludedBy routes pool = None)) pools in
    let excluded := omap (λ pool, r ← excludedBy routes pool; Some (pool, Dst r)) pools in
    (Some (mkAlloc usable excluded ∅ ∅),
     match usable with [] => Some ErrAllPoolsOverlap | _ => None end)
  end.

Definition addrOf (a : Addr) : Z := match a with IP4 n => n | _ => 0 end.

Definition lastAddr (p : Prefix) : Addr :=
  let hostBits := 32 - Bits p in
  let mask := Int.u32 (Int.u32 (Z.shiftl 1 hostBits) - 1) in
  IP4 (Z.lor (addrOf (addr p)) mask).

Definition addUint32 (a : Addr) (delta : Z) : Addr * bool :=
  let n := addrOf a in
  let sum := Int.u32 (n + delta) in
  (IP4 sum, sum <? n).

(** The walk over a pool's blocks; [None] when [fuel] is spent. *)
Fixpoint firstFree (fuel : nat) (occ : gmap Prefix string) (pool : Prefix) (a : Addr)
    : option (option Prefix) :=
  match fuel with
  | O => None
  | S fuel =>
    let p := PrefixFrom a 30 in
    if negb (Contains pool a) || negb (Contains pool (lastAddr p)) then Some None else
    match occ !! p with
    | None => Some (Some p)
    | Some _ =>
      let '(next, overflow) := addUint32 a 4 in
      if overflow then Some None else firstFree fuel occ pool next
    end
  end.

Fixpoint firstFreeIn (fuel : nat) (occ : gmap Prefix string) (pools : list Prefix)
    : option (option Prefix) :=
  match pools with
  | [] => Some None
  | pool :: rest =>
    r ← firstFree fuel occ pool (addr (Masked pool));
    match r with Some p => Some (Some p) | None => firstFreeIn fuel occ rest end
  end.

Definition reserve (vm : string) (p : Prefix) (a : Allocator) : Allocator :=
  mkAlloc (pools a) (exclusions a) (<[vm := p]> (leases a)) (<[p := vm]> (occupied a)).

(** The walk meets each occupied prefix once at most, so one round more than there
    are occupied prefixes is fuel enough. *)
Definition Acquire (vm : string) (a : Allocator) : option (result AllocErr Prefix * Allocator) :=
  if (vm =? "")%string then Some (Err ErrOwnerRequired, a) else
  match leases a !! vm with
  | Some p => Some (Ok p, a)
  | None =>
    r ← firstFreeIn (S (size (occupied a))) (occupied a) (pools a);
    Some (match r with
          | Some p => (Ok p, reserve vm p a)
          | None => (Err ErrPoolExhausted, a)
          end)
  end.

Definition Restore (vm : string) (p : Prefix) (a : Allocator)
    : option AllocErr * Allocator :=
  if (vm =? "")%string || negb (Is4 (addr p)) || negb (Bits p =? 30) ||
     negb (bool_decide (p = Masked p)) then (Some ErrInvalidLease, a) else
  match occupied a !! p ≫= λ owner, if (owner =? vm)%string then None else Some owner with
  | Some owner => (Some (ErrPrefixTaken owner), a)
  | None =>
    match leases a !! vm ≫= λ old, if bool_decide (old = p) then None else Some old with
    | Some old => (Some (ErrOwnerHolds old), a)
    | None => (None, reserve vm p a)
    end
  end.

Definition Release (vm : string) (a : Allocator) : Allocator :=
  match leases a !! vm with
  | Some p => mkAlloc (pools a) (exclusions a) (delete vm (leases a)) (delete p (occupied a))
  | None => a
  end.

(** * Overlap *)

(** The numbers of a prefix's addresses. *)
Definition width (p : Prefix) : Z := BitLen (addr p).
Definition number (a : Addr) : Z := match a with NoAddr => 0 | IP4 n | IP6 n _ => n end.
Definition firstNum (p : Prefix) : Z :=
  number (addr p) / 2 ^ (width p - Bits p) * 2 ^ (width p - Bits p).
Definition lastNum (p : Prefix) : Z := firstNum p + 2 ^ (width p - Bits p) - 1.

Lemma same_block k n x :
  0 ≤ k → x / 2 ^ k = n / 2 ^ k ↔ n / 2 ^ k * 2 ^ k ≤ x ≤ n / 2 ^ k * 2 ^ k + 2 ^ k - 1.
Proof.
  intros Hk. assert (0 < 2 ^ k) by by apply Z.pow_pos_nonneg. split.
  - intros <-. pose proof (Z.div_mod x (2 ^ k)). pose proof (Z.mod_pos_bound x (2 ^ k)). lia.
  - intros Hx. symmetry. apply (Z.div_unique x (2 ^ k) (n / 2 ^ k) (x - n / 2 ^ k * 2 ^ k)); lia.
Qed.

Lemma Contains_range p a :
  proper p → hasZone a = false →
  Contains p a = true ↔ BitLen a = width p ∧ firstNum p ≤ number a ≤ lastNum p.
Proof.
  intros Hp Hz. unfold Contains. rewrite Hz, andb_true_r. unfold proper in Hp.
  unfold lastNum, firstNum, width, IsValid.
  destruct (addr p) as [|n|n z] eqn:Ea; [done|..]; destruct Hp as [Hn Hb];
    rewrite (proj2 (Z.leb_le 0 (Bits p))) by lia; destruct a as [|m|m y]; cbn [BitLen number];
    try (split; [done|intros [? _]; done]).
  - rewrite andb_true_l, sameNet_spec, <- same_block by lia. naive_solver.
  - rewrite andb_true_l, sameNet_spec, <- same_block by lia. naive_solver.
Qed.

Lemma proper_zone p : proper p → hasZone (addr p) = false.
Proof. unfold proper. destruct (addr p); cbn; [done|done|]. by intros (_ & _ & ->). Qed.

Lemma proper_own p : proper p → firstNum p ≤ number (addr p) ≤ lastNum p.
Proof.
  intros Hp. unfold lastNum, firstNum. apply same_block; [|done].
  unfold proper, width in *. destruct (addr p); cbn; lia.
Qed.

(** Two ranges that meet are nested. *)
Lemma ranges_nested p q x :
  proper p → proper q → width p = width q → Bits q ≤ Bits p →
  firstNum p ≤ x ≤ lastNum p → firstNum q ≤ x ≤ lastNum q →
  firstNum q ≤ number (addr p) ≤ lastNum q.
Proof.
  intros Hp Hq Hw Hb Hx Hy. assert (Hk : 0 ≤ width p - Bits p).
  { unfold proper, width in *. destruct (addr p); cbn; lia. }
  unfold lastNum, firstNum in *. rewrite <- Hw in *. apply same_block in Hx, Hy; [|lia..].
  apply same_block; [lia|]. rewrite <- Hy.
  replace (width p - Bits q) with (width p - Bits p + (Bits p - Bits q)) by lia.
  symmetry. apply nested_ranges; [lia|lia|done].
Qed.

Definition meets (p q : Prefix) : Prop :=
  width p = width q ∧ ∃ x, firstNum p ≤ x ≤ lastNum p ∧ firstNum q ≤ x ≤ lastNum q.

Lemma overlap_meets p q : proper p → proper q → prefixesOverlap p q = true ↔ meets p q.
Proof.
  intros Hp Hq. unfold prefixesOverlap. rewrite orb_true_iff.
  rewrite !Contains_range by auto using proper_zone. fold (width p) (width q). split.
  - pose proof (proper_own _ Hp). pose proof (proper_own _ Hq).
    intros [[Hw Hx]|[Hw Hx]]; (split; [done|]); [exists (number (addr q))|exists (number (addr p))]; done.
  - intros (Hw & x & Hx & Hy). destruct (Z.le_ge_cases (Bits q) (Bits p)).
    + right. split; [done|]. by apply (ranges_nested p q x).
    + left. split; [done|]. by apply (ranges_nested q p x).
Qed.

(** C36: the allocator's overlap test is exact. Two prefixes, masked or not, overlap
    by [prefixesOverlap] exactly when they are of one family and their address
    ranges share an address. *)
Theorem prefixesOverlap_exact p q :
  proper p → proper q →
  prefixesOverlap p q = true ↔
  width p = width q ∧ ∃ x, firstNum p ≤ x ≤ lastNum p ∧ firstNum q ≤ x ≤ lastNum q.
Proof. apply overlap_meets. Qed.

Definition exNet (a b c d bits : Z) : Prefix :=
  mkPrefix (IP4 (((a * 256 + b) * 256 + c) * 256 + d)) bits.

Lemma prefixesOverlap_exact_witness :
  prefixesOverlap (exNet 10 190 3 7 16) (exNet 10 190 200 0 24) = true ∧
  ∃ x, firstNum (exNet 10 190 3 7 16) ≤ x ≤ lastNum (exNet 10 190 3 7 16) ∧
    firstNum (exNet 10 190 200 0 24) ≤ x ≤ lastNum (exNet 10 190 200 0 24).
Proof.
  assert (H : prefixesOverlap (exNet 10 190 3 7 16) (exNet 10 190 200 0 24) = true)
    by (vm_compute; reflexivity).
  split; [exact H|].
  apply (proj1 (prefixesOverlap_exact (exNet 10 190 3 7 16) (exNet 10 190 200 0 24)
    ltac:(vm_compute; intuition discriminate) ltac:(vm_compute; intuition discriminate)) H).
Defined.

(** * Blocks *)

Definition blockAt (n : Z) : Prefix := mkPrefix (IP4 n) 30.

(** A /30 of its own four addresses. *)
Definition block (p : Prefix) : Prop := ∃ n, p = blockAt n ∧ 0 ≤ n < 2 ^ 32 ∧ n mod 4 = 0.

(** An IPv4 pool with room for a block. *)
Definition poolOk (p : Prefix) : Prop :=
  ∃ n b, p = mkPrefix (IP4 n) b ∧ 0 ≤ n < 2 ^ 32 ∧ 0 ≤ b ≤ 30.

Definition blockOf (pool p : Prefix) : Prop :=
  ∃ n, p = blockAt n ∧ n mod 4 = 0 ∧ firstNum pool ≤ n ≤ lastNum pool.

Lemma poolOk_proper p : poolOk p → proper p.
Proof. intros (n & b & -> & ? & ?). unfold proper. cbn. lia. Qed.

Lemma block_proper p : block p → proper p.
Proof. intros (n & -> & ? & ?). unfold proper. cbn. lia. Qed.

(** A pool's range starts and ends on a block's. *)
Lemma pool_range pool :
  poolOk pool → ∃ f l, firstNum pool = 4 * f ∧ lastNum pool = 4 * l + 3 ∧ 0 ≤ f ≤ l ∧ l < 2 ^ 30.
Proof.
  intros (n & b & -> & Hn & Hb). unfold lastNum, firstNum, width. cbn [addr Bits BitLen number].
  set (k := 30 - b). replace (32 - b) with (2 + k) by lia. rewrite Z.pow_add_r by lia.
  assert (Hk : 0 < 2 ^ k) by (apply Z.pow_pos_nonneg; lia). change (2 ^ 2) with 4.
  set (q := n / (4 * 2 ^ k)). exists (q * 2 ^ k), (q * 2 ^ k + 2 ^ k - 1).
  assert (Hq : 0 ≤ q) by (apply Z.div_pos; lia).
  assert (Hq2 : q < 2 ^ b).
  { apply Z.div_lt_upper_bound; [lia|].
    replace (4 * 2 ^ k * 2 ^ b) with (2 ^ 32); [lia|].
    replace 32 with (2 + k + b) by lia. rewrite !Z.pow_add_r by lia. lia. }
  assert (Hm : (q + 1) * 2 ^ k ≤ 2 ^ 30).
  { replace 30 with (b + k) by lia. rewrite Z.pow_add_r by lia. nia. }
  nia.
Qed.

Lemma Masked_pool pool : poolOk pool → addr (Masked pool) = IP4 (firstNum pool).
Proof.
  intros (n & b & -> & Hn & Hb). unfold Masked, IsValid. cbn [addr Bits].
  rewrite (proj2 (Z.leb_le 0 b)) by lia. cbn [negb addr]. by rewrite clearLow_spec by lia.
Qed.

Lemma pool_contains pool n :
  poolOk pool → Contains pool (IP4 n) = true ↔ firstNum pool ≤ n ≤ lastNum pool.
Proof.
  intros Hp. rewrite Contains_range by auto using poolOk_proper.
  destruct Hp as (m & b & -> & _). cbn. naive_solver.
Qed.

Lemma lastAddr_block n : n mod 4 = 0 → lastAddr (blockAt n) = IP4 (n + 3).
Proof.
  intros Hn. unfold lastAddr, blockAt. cbn [addr Bits addrOf].
  change (Int.u32 (Int.u32 (Z.shiftl 1 (32 - 30)) - 1)) with (Z.ones 2). f_equal.
  pose proof (Z.add_lor_land n (Z.ones 2)) as H. rewrite Z.land_ones in H by lia.
  change (Z.ones 2) with 3 in *. change (2 ^ 2) with 4 in H. lia.
Qed.

(** ** The walk *)

Lemma firstFree_step fuel occ pool n :
  poolOk pool → n mod 4 = 0 → 0 ≤ n < 2 ^ 32 →
  firstFree (S fuel) occ pool (IP4 n) =
  if decide (firstNum pool ≤ n ≤ lastNum pool) then
    match occ !! blockAt n with
    | None => Some (Some (blockAt n))
    | Some _ => if decide (n + 4 < 2 ^ 32) then firstFree fuel occ pool (IP4 (n + 4)) else Some None
    end
  else Some None.
Proof.
  intros Hp Hm Hn. cbn [firstFree]. change (PrefixFrom (IP4 n) 30) with (blockAt n).
  rewrite lastAddr_block by done. case_decide as Hd.
  - assert (Hd' : firstNum pool ≤ n + 3 ≤ lastNum pool).
    { destruct (pool_range _ Hp) as (f & l & E1 & E2 & _). rewrite E1, E2 in *.
      pose proof (Z.div_mod n 4 ltac:(lia)). lia. }
    rewrite (proj2 (pool_contains _ _ Hp) Hd), (proj2 (pool_contains _ _ Hp) Hd'). cbn [negb orb].
    destruct (occ !! blockAt n); [|done]. unfold addUint32. cbn [addrOf]. case_decide.
    + rewrite Int.u32_small by lia. rewrite (proj2 (Z.ltb_ge _ _)) by lia. done.
    + replace (Int.u32 (n + 4)) with (n + 4 - 2 ^ 32).
      * rewrite (proj2 (Z.ltb_lt _ _)) by lia. done.
      * unfold Int.u32. apply (Z.mod_unique _ _ 1); lia.
  - destruct (Contains pool (IP4 n)) eqn:E; [|done]. by apply (pool_contains _ _ Hp) in E.
Qed.

(** The occupied blocks at or after an address. *)
Definition ahead (n : Z) (occ : gmap Prefix string) : gmap Prefix string :=
  filter (λ kv, n ≤ addrOf (addr kv.1)) occ.

Lemma ahead_lt n occ : is_Some (occ !! blockAt n) → (size (ahead (n + 4) occ) < size (ahead n occ))%nat.
Proof.
  intros [vm Hvm]. apply map_subset_size. apply map_subset_alt. split.
  - apply map_subseteq_spec. intros p v [E Hp]%map_lookup_filter_Some.
    apply map_lookup_filter_Some. cbn in *. split; [done|lia].
  - exists (blockAt n). split.
    + apply map_lookup_filter_None. right. cbn. intros v _ ?. lia.
    + exists vm. apply map_lookup_filter_Some. cbn. done.
Qed.

(** What the walk from an address finds: with enough fuel it ends, on the first
    free block of the pool, or past its last one. *)
Lemma firstFree_spec fuel occ pool n :
  poolOk pool → n mod 4 = 0 → firstNum pool ≤ n < 2 ^ 32 → (size (ahead n occ) < fuel)%nat →
  (∃ m, firstFree fuel occ pool (IP4 n) = Some (Some (blockAt m)) ∧ blockOf pool (blockAt m) ∧
     occ !! blockAt m = None ∧
     ∀ m', n ≤ m' < m → m' mod 4 = 0 → is_Some (occ !! blockAt m')) ∨
  firstFree fuel occ pool (IP4 n) = Some None ∧
  ∀ m, n ≤ m ≤ lastNum pool → m mod 4 = 0 → is_Some (occ !! blockAt m).
Proof.
  intros Hp. assert (Hf : 0 ≤ firstNum pool) by (destruct (pool_range _ Hp) as (f & l & -> & ?); lia).
  assert (Hl : lastNum pool < 2 ^ 32) by (destruct (pool_range _ Hp) as (f & l & _ & -> & ?); lia).
  revert n. induction fuel as [|fuel IH]; intros n Hm Hn Hfuel; [lia|].
  rewrite firstFree_step by (done || lia). case_decide as Hd; [|right; split; [done|]; intros; lia].
  destruct (occ !! blockAt n) as [vm|] eqn:Eo.
  - assert (Hn4 : (n + 4) mod 4 = 0) by (rewrite <- Hm; apply (Z.mod_add n 1 4); lia).
    assert (Hstep : ∀ m, n ≤ m → m mod 4 = 0 → m < n + 4 → m = n).
    { intros m ? Hm0 ?. pose proof (Z.div_mod n 4 ltac:(lia)). pose proof (Z.div_mod m 4 ltac:(lia)). lia. }
    case_decide as H4.
    + destruct (IH (n + 4)) as [(m & E & Hb & Ho & Hbefore)|[E Hall]]; [done|lia| | |].
      * eapply Nat.lt_le_trans; [by apply ahead_lt; eexists|lia].
      * left. exists m. split_and!; [done..|]. intros m' ? Hm'.
        destruct (Z.lt_ge_cases m' (n + 4)); [|apply Hbefore; lia || done].
        rewrite (Hstep m') by lia. by eexists.
      * right. split; [done|]. intros m ? Hm'.
        destruct (Z.lt_ge_cases m (n + 4)); [|apply Hall; lia || done].
        rewrite (Hstep m) by lia. by eexists.
    + right. split; [done|]. intros m ? Hm'. rewrite (Hstep m) by lia. by eexists.
  - left. exists n. split_and!; [done| |done|intros; lia]. by exists n.
Qed.

Lemma firstFreeIn_spec fuel occ pls :
  Forall poolOk pls → (size occ < fuel)%nat →
  (∃ p, firstFreeIn fuel occ pls = Some (Some p) ∧ occ !! p = None ∧
     ∃ pre pool post, pls = pre ++ pool :: post ∧ blockOf pool p ∧
       (∀ q, q ∈ pre → ∀ p', blockOf q p' → is_Some (occ !! p')) ∧
       ∀ m, blockOf pool (blockAt m) → m < addrOf (addr p) → is_Some (occ !! blockAt m)) ∨
  firstFreeIn fuel occ pls = Some None ∧
  ∀ pool, pool ∈ pls → ∀ p, blockOf pool p → is_Some (occ !! p).
Proof.
  intros Hp Hf. induction Hp as [|pool pls Hpool Hp IH]; [right; split; [done|]; intros ? []%elem_of_nil|].
  cbn [firstFreeIn]. rewrite (Masked_pool _ Hpool).
  destruct (pool_range _ Hpool) as (f & l & Ef & El & Hfl).
  assert (Hah : (size (ahead (firstNum pool) occ) < fuel)%nat).
  { eapply Nat.le_lt_trans; [|exact Hf]. apply map_subseteq_size, map_filter_subseteq. }
  destruct (firstFree_spec fuel occ pool (firstNum pool) Hpool) as [(m & E & Hb & Ho & Hbef)|[E Hall]];
    [rewrite Ef, Z.mul_comm; by apply Z_mod_mult|lia|done|..]; rewrite E; cbn [mbind option_bind].
  - left. exists (blockAt m). split; [done|]. split; [done|]. exists [], pool, pls.
    split_and!; [done|done|intros ? []%elem_of_nil|]. intros m' (x & [= <-] & Hx & Hr) Hlt.
    cbn in Hlt. apply Hbef; [lia|done].
  - assert (Hpool' : ∀ p, blockOf pool p → is_Some (occ !! p)).
    { intros p (x & -> & Hx & Hr). apply Hall; [lia|done]. }
    destruct IH as [(p & E' & Ho & pre & q & post & -> & Hb & Hpre & Hfirst)|[E' Hall']].
    + left. exists p. split_and!; [done..|]. exists (pool :: pre), q, post. split_and!; [done..| |done].
      intros q' [->|Hq]%elem_of_cons; [done|by apply Hpre].
    + right. split; [done|]. intros q [->|Hq]%elem_of_cons; [done|by apply Hall'].
Qed.

(** * The allocator's invariant *)

Record allocOk (a : Allocator) : Prop := {
  al_pools : Forall poolOk (pools a);
  al_inverse : ∀ vm p, leases a !! vm = Some p ↔ occupied a !! p = Some vm;
  al_blocks : ∀ vm p, leases a !! vm = Some p → block p
}.

Lemma blockOf_block pool p : poolOk pool → blockOf pool p → block p.
Proof.
  intros Hp (n & -> & Hn & Hr). destruct (pool_range _ Hp) as (f & l & Ef & El & ?).
  exists n. split_and!; [done|lia|lia|done].
Qed.

Lemma allocOk_reserve a vm p :
  allocOk a → block p → leases a !! vm = None ∨ leases a !! vm = Some p →
  occupied a !! p = None ∨ occupied a !! p = Some vm → allocOk (reserve vm p a).
Proof.
  intros [Hp Hi Hb] Hbl Hl Ho. split; cbn [reserve pools leases occupied]; [done| |].
  - intros u q. rewrite !lookup_insert_Some. specialize (Hi u q).
    destruct (decide (vm = u)) as [->|Hu], (decide (p = q)) as [->|Hq]; [naive_solver|..|naive_solver].
    + split; [naive_solver|]. intros [[? _]|[_ E]]; [done|]. apply Hi in E. naive_solver.
    + split; [|naive_solver]. intros [[? _]|[_ E]]; [done|]. apply Hi in E. naive_solver.
  - intros u q. rewrite lookup_insert_Some. naive_solver.
Qed.

(** [Acquire], on every branch; it always answers. *)
Definition acquired (vm : string) (a : Allocator) (r : result AllocErr Prefix) (a' : Allocator)
    : Prop :=
  match r with
  | Ok p => leases a !! vm = Some p ∧ a' = a ∨
      leases a !! vm = None ∧ occupied a !! p = None ∧ a' = reserve vm p a ∧
      ∃ pre pool post, pools a = pre ++ pool :: post ∧ blockOf pool p ∧
        (∀ q, q ∈ pre → ∀ p', blockOf q p' → is_Some (occupied a !! p')) ∧
        ∀ m, blockOf pool (blockAt m) → m < addrOf (addr p) → is_Some (occupied a !! blockAt m)
  | Err ErrOwnerRequired => vm = "" ∧ a' = a
  | Err ErrPoolExhausted => leases a !! vm = None ∧ a' = a ∧
      ∀ pool, pool ∈ pools a → ∀ p, blockOf pool p → is_Some (occupied a !! p)
  | Err _ => False
  end.

Lemma Acquire_acquired vm a :
  Forall poolOk (pools a) → ∃ r a', Acquire vm a = Some (r, a') ∧ acquired vm a r a'.
Proof.
  intros Hp. unfold Acquire. destruct (vm =? "")%string eqn:Ev.
  { apply String.eqb_eq in Ev. eexists _, _. split; [done|]. by split. }
  destruct (leases a !! vm) as [p|] eqn:El.
  { eexists _, _. split; [done|]. left. done. }
  destruct (firstFreeIn_spec (S (size (occupied a))) (occupied a) (pools a) Hp)
    as [(p & E & Ho & Hb)|[E Hall]]; [lia|..]; rewrite E; eexists _, _; (split; [done|]).
  - right. done.
  - done.
Qed.

Lemma Acquire_ok vm a r a' : allocOk a → Acquire vm a = Some (r, a') → allocOk a'.
Proof.
  intros Hok E. destruct (Acquire_acquired vm a (al_pools _ Hok)) as (r0 & a0 & E0 & H).
  rewrite E in E0. injection E0 as <- <-. unfold acquired in H.
  destruct r as [p|[]]; try naive_solver.
  destruct H as [[_ ->]|(El & Eo & -> & pre & pool & post & Ep & Hb & _)]; [done|].
  apply allocOk_reserve; [done| |by left|by left]. eapply blockOf_block; [|exact Hb].
  apply (proj1 (Forall_forall _ _) (al_pools _ Hok)). rewrite Ep. set_solver.
Qed.

Lemma masked_block n b : 0 ≤ n < 2 ^ 32 → b = 30 → mkPrefix (IP4 n) b = Masked (mkPrefix (IP4 n) b) →
  n mod 4 = 0.
Proof.
  intros Hn -> E. cbn in E. injection E as E. rewrite clearLow_spec in E by lia.
  change (2 ^ (32 - 30)) with 4 in E. pose proof (Z.div_mod n 4 ltac:(lia)). lia.
Qed.

Lemma Restore_ok vm p a : allocOk a → (∀ n, addr p = IP4 n → 0 ≤ n < 2 ^ 32) →
  allocOk (Restore vm p a).2.
Proof.
  intros Hok Hp. unfold Restore. destruct (_ || _) eqn:Ec; [done|].
  rewrite !orb_false_iff, !negb_false_iff, bool_decide_eq_true, Z.eqb_eq in Ec.
  destruct Ec as [[[_ E4] E30] Em].
  assert (Hb : block p).
  { destruct p as [[|n|] b]; try done. exists n. cbn in *. subst b.
    split_and!; [done|by apply Hp..|by eapply masked_block; [apply Hp| |]]. }
  destruct (occupied a !! p) as [owner|] eqn:Eo; cbn [mbind option_bind].
  - destruct (owner =? vm)%string eqn:Ew; [|done]. apply String.eqb_eq in Ew. subst owner.
    rewrite (proj2 (al_inverse _ Hok vm p) Eo). cbn [mbind option_bind].
    rewrite bool_decide_eq_true_2 by done. apply allocOk_reserve; [done|done| |by right].
    right. by apply (al_inverse _ Hok).
  - destruct (leases a !! vm) as [old|] eqn:El; cbn [mbind option_bind].
    + case_bool_decide as E; [|done]. subst old. apply (al_inverse _ Hok) in El. congruence.
    + apply allocOk_reserve; auto.
Qed.

Lemma Release_ok vm a : allocOk a → allocOk (Release vm a).
Proof.
  intros Hok. unfold Release. destruct (leases a !! vm) as [p|] eqn:El; [|done].
  destruct Hok as [Hp Hi Hb]. pose proof (proj1 (Hi _ _) El) as Eo.
  split; cbn [pools leases occupied]; [done| |].
  - intros u q. rewrite !lookup_delete_Some. rewrite (Hi u q). split.
    + intros [Hu E]. split; [|done]. intros <-. rewrite E in Eo. naive_solver.
    + intros [Hq E]. split; [|done]. intros <-. apply Hi in E. congruence.
  - intros u q [_ E]%lookup_delete_Some. by eapply Hb.
Qed.

(** ** Executions *)

Inductive AllocOp := AAcquire (vm : string) | ARestore (vm : string) (p : Prefix) | ARelease (vm : string).

Definition allocStep (a : Allocator) (o : AllocOp) : Allocator :=
  match o with
  | AAcquire vm => match Acquire vm a with Some (_, a') => a' | None => a end
  | ARestore vm p => (Restore vm p a).2
  | ARelease vm => Release vm a
  end.

(** Prefixes that are restored are values of netip. *)
Definition opProper (o : AllocOp) : Prop :=
  match o with ARestore _ p => ∀ n, addr p = IP4 n → 0 ≤ n < 2 ^ 32 | _ => True end.

Lemma allocOk_steps ops a : allocOk a → Forall opProper ops → allocOk (foldl allocStep a ops).
Proof.
  revert a. induction ops as [|o ops IH]; intros a Hok Ho; [done|].
  apply Forall_cons in Ho as [Ho Hos]. cbn. apply IH; [|done]. destruct o as [vm|vm p|vm]; cbn.
  - destruct (Acquire vm a) as [[r a']|] eqn:E; [|done]. by eapply Acquire_ok.
  - by apply Restore_ok.
  - by apply Release_ok.
Qed.

Lemma pools_steps ops a : pools (foldl allocStep a ops) = pools a.
Proof.
  revert a. induction ops as [|o ops IH]; intros a; [done|]. cbn. rewrite IH.
  destruct o as [vm|vm p|vm]; cbn.
  - unfold Acquire. repeat case_match; try done; simplify_option_eq; repeat case_match; by simplify_eq.
  - unfold Restore. by repeat case_match.
  - unfold Release. by repeat case_match.
Qed.

Lemma NewAllocator_ok routes pls a e :
  NewAllocator routes pls = (Some a, e) → Forall (λ p, proper p ∧ Bits p ≤ 30) pls →
  allocOk a ∧ ∀ pool, pool ∈ pools a → excludedBy routes pool = None.
Proof.
  unfold NewAllocator. destruct (List.find _ pls) eqn:Ef; [done|]. intros [= <- _] Hp.
  assert (Hin : ∀ pool, pool ∈ List.filter (λ pool, bool_decide (excludedBy routes pool = None)) pls →
    pool ∈ pls ∧ excludedBy routes pool = None).
  { intros pool [H1 H2]%list_elem_of_In%filter_In. apply bool_decide_eq_true in H2.
    by apply list_elem_of_In in H1. }
  split; [|by intros pool [_ ?]%Hin]. split; cbn [pools leases occupied].
  - apply Forall_forall. intros pool [H1 _]%Hin. rewrite Forall_forall in Hp.
    destruct (Hp _ H1) as [Hpr Hb]. pose proof (find_none _ _ Ef pool (proj1 (list_elem_of_In _ _) H1)) as H4.
    destruct pool as [[|n|] b]; try done. unfold proper in Hpr. cbn in *. exists n, b. naive_solver lia.
  - intros vm p. by rewrite !lookup_empty.
  - intros vm p. by rewrite lookup_empty.
Qed.

Lemma block_range n : n mod 4 = 0 → firstNum (blockAt n) = n ∧ lastNum (blockAt n) = n + 3.
Proof.
  intros Hn. unfold lastNum, firstNum, width, blockAt. cbn [addr Bits BitLen number].
  change (2 ^ (32 - 30)) with 4. pose proof (Z.div_mod n 4 ltac:(lia)). lia.
Qed.

Lemma blocks_apart p q : block p → block q → p ≠ q → ¬ meets p q.
Proof.
  intros (n & -> & _ & Hn) (m & -> & _ & Hm) Hne (_ & x & Hx & Hy).
  destruct (block_range n Hn) as [E1 E2], (block_range m Hm) as [E3 E4]. rewrite E1, E2, E3, E4 in *.
  apply Hne. f_equal. pose proof (Z.div_mod n 4 ltac:(lia)). pose proof (Z.div_mod m 4 ltac:(lia)). lia.
Qed.

Lemma blockOf_meets pool p q : poolOk pool → blockOf pool p → meets p q → meets pool q.
Proof.
  intros Hp (n & -> & Hn & Hr) (Hw & x & Hx & Hy).
  destruct (block_range n Hn) as [E1 E2]. destruct (pool_range _ Hp) as (f & l & Ef & El & _).
  split.
  - destruct Hp as (m & b & -> & _). exact Hw.
  - exists x. split; [|done]. rewrite E1, E2, Ef, El in *. pose proof (Z.div_mod n 4 ltac:(lia)). lia.
Qed.

Lemma excludedBy_None routes pool r :
  excludedBy routes pool = None → r ∈ routes → Bits (Dst r) ≠ 0 → prefixesOverlap pool (Dst r) = false.
Proof.
  intros He Hr Hb. pose proof (find_none _ _ He r (proj1 (list_elem_of_In _ _) Hr)) as H.
  cbn in H. rewrite andb_false_iff, negb_false_iff, Z.eqb_eq in H. by destruct H.
Qed.

Section reachable.
Context (routes : list Route) (pls : list Prefix) (a0 : Allocator) (e : option AllocErr)
  (ops : list AllocOp).
Hypothesis Hnew : NewAllocator routes pls = (Some a0, e).
Hypothesis Hpls : Forall (λ p, proper p ∧ Bits p ≤ 30) pls.
Hypothesis Hops : Forall opProper ops.

Lemma reachable_ok : allocOk (foldl allocStep a0 ops).
Proof. apply allocOk_steps; [|done]. by eapply NewAllocator_ok. Qed.

(** C35: a VM's network is its own. Take an allocator constructed with IPv4 pools of
    at most 30 prefix bits, as the daemon's two /16 pools are, and reached by
    acquisitions, restorations of manifests and releases in any order, all prefixes
    and routes being well-formed: the two maps are inverse to each other, the leases
    of two VMs share no address, and a lease that is newly acquired meets no route of
    the host but the default one. ([small_pool_overlaps] shows that the bound on the
    pools is needed, though construction does not check it.) *)
Theorem leases_exclusive :
  Forall (λ r, proper (Dst r)) routes →
  let a := foldl allocStep a0 ops in
  (∀ vm p, leases a !! vm = Some p ↔ occupied a !! p = Some vm) ∧
  (∀ v w p q, leases a !! v = Some p → leases a !! w = Some q → v ≠ w → ¬ meets p q) ∧
  (∀ vm p a', Acquire vm a = Some (Ok p, a') → leases a !! vm = None →
     ∀ r, r ∈ routes → Bits (Dst r) ≠ 0 → ¬ meets p (Dst r)).
Proof.
  intros Hr a. pose proof reachable_ok as [Hp Hi Hb]. fold a in Hp, Hi, Hb. split_and!; [done|..].
  - intros v w p q Ep Eq Hne. apply blocks_apart; [by eapply Hb..|]. intros ->.
    apply Hi in Ep, Eq. congruence.
  - intros vm p a' E El r Hin Hbits Hm.
    destruct (Acquire_acquired vm a Hp) as (r0 & a1 & E0 & H). rewrite E in E0. injection E0 as <- <-.
    destruct H as [[? _]|(_ & _ & _ & pre & pool & post & Ep & Hbl & _)]; [congruence|].
    assert (Hpool : pool ∈ pools a) by (rewrite Ep; set_solver).
    assert (Hok : poolOk pool) by (by apply (proj1 (Forall_forall _ _) Hp)).
    rewrite Forall_forall in Hr. unfold a in Hpool. rewrite pools_steps in Hpool.
    destruct (NewAllocator_ok _ _ _ _ Hnew Hpls) as [_ Hex].
    pose proof (excludedBy_None _ _ _ (Hex _ Hpool) Hin Hbits) as Hf.
    apply not_true_iff_false in Hf. apply Hf, overlap_meets; auto using poolOk_proper.
    by eapply blockOf_meets.
Qed.

(** [Acquire] always answers, and answers right. Its walk over the pools ends;
    an owner gets the lease it has, or the first free block of the first pool that
    has one, and is refused only without a name or when every block of every
    usable pool is taken; nothing else changes. *)
Theorem Acquire_total vm :
  let a := foldl allocStep a0 ops in
  ∃ r a', Acquire vm a = Some (r, a') ∧ acquired vm a r a'.
Proof. intros a. apply Acquire_acquired. exact (al_pools _ reachable_ok). Qed.

End reachable.

(** A host whose LAN covers the first pool; two VMs, one restored from a manifest
    outside the pools, one released. *)
Definition exRoutes : list Route :=
  [mkRoute (exNet 0 0 0 0 0) "eth0" "192.168.1.1"; mkRoute (exNet 10 190 7 0 24) "eth1" ""].
Definition exPools : list Prefix := [exNet 10 190 0 0 16; exNet 10 191 0 0 16].
Definition exNewAlloc : Allocator :=
  default (mkAlloc [] [] ∅ ∅) (NewAllocator exRoutes exPools).1.
Definition exAllocOps : list AllocOp :=
  [AAcquire "a"; ARestore "b" (exNet 10 190 0 4 30); AAcquire "c"; ARelease "a"; AAcquire "d"].

Lemma exPools_ok : Forall (λ p, proper p ∧ Bits p ≤ 30) exPools.
Proof. repeat constructor; vm_compute; intuition discriminate. Qed.
Lemma exAllocOps_ok : Forall opProper exAllocOps.
Proof.
  unfold exAllocOps. rewrite !Forall_cons. split_and!; try done.
  intros n E. injection E as <-. lia.
Qed.

Lemma leases_exclusive_witness :
  let a := foldl allocStep exNewAlloc exAllocOps in
  leases a !! "b" = Some (exNet 10 190 0 4 30) ∧ leases a !! "c" = Some (exNet 10 191 0 4 30) ∧
  leases a !! "d" = Some (exNet 10 191 0 0 30) ∧
  ¬ meets (exNet 10 191 0 4 30) (exNet 10 191 0 0 30).
Proof.
  split; [vm_compute; reflexivity|]. split; [vm_compute; reflexivity|].
  split; [vm_compute; reflexivity|].
  destruct (leases_exclusive exRoutes exPools exNewAlloc None exAllocOps eq_refl exPools_ok
    exAllocOps_ok ltac:(repeat constructor; vm_compute; intuition discriminate)) as (_ & H & _).
  refine (H "c" "d" _ _ _ _ _); [vm_compute; reflexivity|vm_compute; reflexivity|discriminate].
Defined.

(** A pool of 31 bits gives out an unmasked block that overlaps another VM's. *)
Lemma small_pool_overlaps :
  let a0 := default (mkAlloc [] [] ∅ ∅) (NewAllocator [] [exNet 10 0 0 2 31; exNet 10 0 0 0 30]).1 in
  let a := foldl allocStep a0 [AAcquire "a"; AAcquire "b"] in
  leases a !! "a" = Some (exNet 10 0 0 2 30) ∧ leases a !! "b" = Some (exNet 10 0 0 0 30) ∧
  prefixesOverlap (exNet 10 0 0 2 30) (exNet 10 0 0 0 30) = true.
Proof. vm_compute. done. Qed.

Lemma Acquire_total_witness :
  let a := foldl allocStep exNewAlloc exAllocOps in
  ∃ r a', Acquire "e" a = Some (r, a') ∧ acquired "e" a r a' ∧ r = Ok (exNet 10 191 0 8 30).
Proof.
  destruct (Acquire_total exRoutes exPools exNewAlloc None exAllocOps eq_refl exPools_ok
    exAllocOps_ok "e") as (r & a' & E & H).
  exists r, a'. split; [exact E|]. split; [exact H|].
  assert (E' : fst <$> Acquire "e" (foldl allocStep exNewAlloc exAllocOps) =
    Some (Ok (exNet 10 191 0 8 30))) by (vm_compute; reflexivity).
  rewrite E in E'. by injection E'.
Defined.

End Alloc.
