(* ===== verification/Privd.v ===== *)
(** The privileged daemon (internal/privd: server.go, operations.go, ledger.go,
    proto.go, pid_linux.go): the verbs, the ledger of host identities and the
    journal of mutations.

    A handler is a program of calls of the ledger's files, of the backend that
    changes the host, and of the kernel. The texts of messages are left out. *)

From S2P Require Import Prelude.

Local Open Scope Z_scope.

Module Privd.

(** * The protocol *)

Definition ProtoVersion : Z := 1.

(** [^[a-z0-9][a-z0-9-]{0,62}$] *)
Definition code (c : Ascii.ascii) : Z := Z.of_N (Ascii.N_of_ascii c).
Definition digit (c : Ascii.ascii) : bool := (48 <=? code c) && (code c <=? 57).
Definition idChar (c : Ascii.ascii) : bool := digit c || ((97 <=? code c) && (code c <=? 122)).

Fixpoint allChars (f : Ascii.ascii → bool) (s : string) : bool :=
  match s with "" => true | String c s => f c && allChars f s end.

Definition ValidVMID (id : string) : bool :=
  match id with
  | "" => false
  | String c rest =>
    idChar c && allChars (λ c, idChar c || (code c =? 45)) rest && (String.length rest <=? 62)%nat
  end.

Definition StagedFileNames : list string :=
  ["vmlinux"; "rootfs.ext4"; "config.ext4"; "workspace.ext4"; "fc-config.json"].
Definition ValidStagedName (name : string) : bool := existsb (String.eqb name) StagedFileNames.

Record Request := mkRequest { V : Z; Verb : string; OpID : string; Payload : string }.

Record AllocateNetworkReq := mkAllocate { anVMID : string; anCIDR : string }.
Record StagedFile := mkStaged { sfName : string; sfSHA256 : string }.
Record StartVMReq := mkStart {
  svVMID : string; svUID : Z; svGID : Z; svCID : Z; svStageDir : string; svFiles : list StagedFile }.
Record SignalVMReq := mkSignal { sgVMID : string; sgKind : string }.

(** What a response carries. *)
Inductive Body :=
  | NoBody
  | StartVMResp (pid : Z) (startTime : string)
  | Leases (l : gmap string string).

Record Response := mkResponse { rOK : bool; rCause : string; rBody : Body }.
Definition okResp (b : Body) : Response := mkResponse true "" b.
Definition errResp (cause : string) : Response := mkResponse false cause NoBody.

Inductive BackendError := Typed (cause : string) | Untyped.
Definition backendErrResp (e : BackendError) : Response :=
  match e with Typed cause => errResp cause | Untyped => errResp "exec_failed" end.

(** * The ledger *)

Record VMEntry := mkEntry {
  eNetworkOpID : string; eStartOpID : string; eVMID : string; eUID : Z; eGID : Z; eCID : Z;
  ePID : Z; eStartTime : string; eBootID : string; ePIDNamespace : string;
  eNetCIDR : string; eCreatedAtUnix : Z }.

Definition minGuestCID : Z := 3.

(** [strconv.ParseUint(s, 10, 64)] succeeds. *)
Fixpoint decimal (s : string) (acc : Z) : option Z :=
  match s with
  | "" => Some acc
  | String c s => if digit c then decimal s (acc * 10 + (code c - 48)) else None
  end.
Definition uint64 (s : string) : bool :=
  negb (s =? "")%string &&
  match decimal s 0 with Some n => n <? 2 ^ 64 | None => false end.

(** What [ledger.get] asks of a record it decoded. *)
Definition entryValid (vm : string) (e : VMEntry) : bool :=
  (eVMID e =? vm)%string && (0 <=? ePID e) &&
  if ePID e =? 0 then
    (eUID e =? 0) && (eGID e =? 0) && (eCID e =? 0) && (eStartTime e =? "")%string &&
    (eBootID e =? "")%string && (ePIDNamespace e =? "")%string
  else uint64 (eStartTime e) && (minGuestCID <=? eCID e) && (0 <=? eUID e) && (0 <=? eGID e).

(** * Calls *)

Inductive Call :=
  | LGet (vm : string)
  | LAll
  | LPut (e : VMEntry)
  | LDelete (vm : string)
  | BAllocateNetwork (e : VMEntry) (r : AllocateNetworkReq)
  | BReleaseNetwork (e : VMEntry)
  | BStartVM (e : VMEntry) (r : StartVMReq)
  | BAbortStartVM (e : VMEntry)
  | BSignalVM (e : VMEntry) (kind : string)
  | BReleaseVM (e : VMEntry)
  | KIdentity
  | KProcessAlive (e : VMEntry)
  | KNow
  | KContext.

Inductive GetAns := Got (e : VMEntry) | NotExist | GetErr.

(** A started VM: its process, and the boot and namespace it was started in. *)
Definition Ans (c : Call) : Type :=
  match c with
  | LGet _ => GetAns
  | LAll => option (list VMEntry)
  | LPut _ | LDelete _ => bool
  | BStartVM _ _ => result BackendError (Z * string * string * string)
  | BAllocateNetwork _ _ | BReleaseNetwork _ | BAbortStartVM _ | BSignalVM _ _ | BReleaseVM _
  | KContext => option BackendError
  | KIdentity => option (string * string)
  | KProcessAlive _ => option bool
  | KNow => Z
  end.

Inductive Prog (A : Type) :=
  | Ret (a : A)
  | Do (c : Call) (k : Ans c → Prog A).
Arguments Ret {A} a.
Arguments Do {A} c k.

#[export] Instance prog_ret : MRet Prog := λ A a, Ret a.
#[export] Instance prog_bind : MBind Prog := λ A B f,
  fix go p := match p with Ret a => f a | Do c k => Do c (λ r, go (k r)) end.

Definition call (c : Call) : Prog (Ans c) := Do c Ret.

(** * Process identity *)

Definition hexChar (c : Ascii.ascii) : bool := digit c || ((97 <=? code c) && (code c <=? 102)).

(** [^[0-9a-f]{8}-[0-9a-f]{4}-[0-9a-f]{4}-[0-9a-f]{4}-[0-9a-f]{12}$] *)
Definition bootIDPattern (s : string) : bool :=
  (String.length s =? 36)%nat &&
  forallb (λ '(i, c), if existsb (Nat.eqb i) [8; 13; 18; 23]%nat then code c =? 45 else hexChar c)
    (imap pair (String.list_ascii_of_string s)).

(** [^pid:\[[0-9]+\]$] *)
Definition pidNamespacePattern (s : string) : bool :=
  let n := String.length s in
  (7 <=? n)%nat && (String.substring 0 5 s =? "pid:[")%string &&
  (String.substring (n - 1) 1 s =? "]")%string && allChars digit (String.substring 5 (n - 6) s).

(** Whether the process of an entry is alive; [None] when that cannot be told. *)
Definition entryAlive (e : VMEntry) : Prog (option bool) :=
  if ePID e =? 0 then mret (Some false) else
  if negb (bootIDPattern (eBootID e)) || negb (pidNamespacePattern (ePIDNamespace e))
  then mret None else
  i ← call KIdentity;
  match i with
  | None => mret None
  | Some (boot, ns) =>
    if negb (eBootID e =? boot)%string then mret (Some false)
    else if negb (ePIDNamespace e =? ns)%string then mret None
    else call (KProcessAlive e)
  end.

(** * The verbs *)

(** [filepath.Base(filepath.Clean(path))]: the components that survive cleaning. *)
Fixpoint splitPath (acc : string) (s : string) : list string :=
  match s with
  | "" => [acc]
  | String c s => if code c =? 47 then acc :: splitPath "" s
                  else splitPath (acc +:+ String c "") s
  end.
Definition cleanStep (rooted : bool) (stack : list string) (c : string) : list string :=
  if (c =? "")%string || (c =? ".")%string then stack
  else if (c =? "..")%string then
    match stack with
    | top :: rest => if (top =? "..")%string then c :: stack else rest
    | [] => if rooted then [] else [c]
    end
  else c :: stack.
Definition cleanBase (path : string) : string :=
  let rooted := match path with String c _ => code c =? 47 | "" => false end in
  match foldl (cleanStep rooted) [] (splitPath "" path) with
  | top :: _ => top
  | [] => if rooted then "/" else "."
  end.

(** The JSON decoder of payloads, and the length of an encoded inventory. *)
Record Codec := mkCodec {
  lenLeases : gmap string string → Z;
  decAllocate : string → option AllocateNetworkReq;
  decVM : string → option string;
  decStart : string → option StartVMReq;
  decSignal : string → option SignalVMReq;
  decOpID : string → option string }.

Record ServerCfg := mkCfg { UIDMin : Z; UIDMax : Z }.

Section server.
Context (cd : Codec) (cfg : ServerCfg).

(** [release_network] and [release_vm] take the VM's id alone, as this does. *)
Definition operationVMID (r : Request) : string := default "" (decVM cd (Payload r)).

Definition subnetHolder (cidr : string) : Prog (option string) :=
  l ← call LAll;
  mret (match l with
        | None => None
        | Some l => Some (from_option eVMID "" (List.find (λ e, eNetCIDR e =? cidr)%string l))
        end).

Definition identityHolder (uid cid : Z) : Prog (option string) :=
  l ← call LAll;
  mret (match l with
        | None => None
        | Some l => Some (from_option eVMID ""
                            (List.find (λ e, (eUID e =? uid) || (eCID e =? cid)) l))
        end).

Definition handleAllocateNetwork (op raw : string) : Prog Response :=
  match decAllocate cd raw with
  | None => mret (errResp "bad_request")
  | Some r =>
    if negb (ValidVMID (anVMID r)) || (anCIDR r =? "")%string then mret (errResp "bad_request") else
    g ← call (LGet (anVMID r));
    match g with
    | Got existing =>
      mret (if (eNetCIDR existing =? anCIDR r)%string then okResp NoBody else errResp "invalid_state")
    | GetErr => mret (errResp "internal")
    | NotExist =>
      h ← subnetHolder (anCIDR r);
      match h with
      | None => mret (errResp "internal")
      | Some holder =>
        if negb (holder =? "")%string then mret (errResp "invalid_state") else
        now ← call KNow;
        let entry := mkEntry op "" (anVMID r) 0 0 0 0 "" "" "" (anCIDR r) now in
        a ← call (BAllocateNetwork entry r);
        match a with
        | Some _ =>
          b ← call (BReleaseNetwork entry);
          mret (match b with Some _ => errResp "outcome_unknown" | None => errResp "exec_failed" end)
        | None =>
          ok ← call (LPut entry);
          mret (match ok with true => okResp NoBody | false => errResp "internal" end)
        end
      end
    end
  end.

Definition withNetCIDR (c : string) (e : VMEntry) : VMEntry :=
  mkEntry (eNetworkOpID e) (eStartOpID e) (eVMID e) (eUID e) (eGID e) (eCID e) (ePID e)
    (eStartTime e) (eBootID e) (ePIDNamespace e) c (eCreatedAtUnix e).

(** The entry of a VM the ledger must know. *)
Definition withEntry (id : option string) (next : string → VMEntry → Prog Response) : Prog Response :=
  match id with
  | None => mret (errResp "bad_request")
  | Some vm =>
    if negb (ValidVMID vm) then mret (errResp "bad_request") else
    g ← call (LGet vm);
    match g with
    | NotExist => mret (errResp "not_found")
    | GetErr => mret (errResp "internal")
    | Got e => next vm e
    end
  end.

(** Writes back what is left of an entry, or removes it. *)
Definition keepOrDelete (vm : string) (empty : bool) (e : VMEntry) : Prog Response :=
  ok ← (match empty with true => call (LDelete vm) | false => call (LPut e) end);
  mret (match ok with true => okResp NoBody | false => errResp "internal" end).

Definition handleReleaseNetwork (raw : string) : Prog Response :=
  withEntry (decVM cd raw) (λ vm e,
    a ← call (BReleaseNetwork e);
    match a with
    | Some _ => mret (errResp "exec_failed")
    | None => keepOrDelete vm (ePID e =? 0) (withNetCIDR "" e)
    end).

Definition handleStartVM (op raw : string) : Prog Response :=
  match decStart cd raw with
  | None => mret (errResp "bad_request")
  | Some r =>
    if negb (ValidVMID (svVMID r)) || (svUID r <? UIDMin cfg) || (UIDMax cfg <=? svUID r) ||
       (svCID r <? minGuestCID) || negb (forallb (λ f, ValidStagedName (sfName f)) (svFiles r)) ||
       negb (cleanBase (svStageDir r) =? svVMID r)%string
    then mret (errResp "bad_request") else
    g ← call (LGet (svVMID r));
    match g with
    | NotExist => mret (errResp "bad_request")
    | GetErr => mret (errResp "internal")
    | Got e =>
      if negb (ePID e =? 0) then mret (errResp "invalid_state") else
      h ← identityHolder (svUID r) (svCID r);
      match h with
      | None => mret (errResp "internal")
      | Some holder =>
        if negb (holder =? "")%string then mret (errResp "invalid_state") else
        let entry := mkEntry (eNetworkOpID e) op (eVMID e) (svUID r) (svGID r) (svCID r) (ePID e)
          (eStartTime e) (eBootID e) (ePIDNamespace e) (eNetCIDR e) (eCreatedAtUnix e) in
        s ← call (BStartVM entry r);
        match s with
        | Err err =>
          b ← call (BAbortStartVM entry);
          mret (match b with Some _ => errResp "outcome_unknown" | None => backendErrResp err end)
        | Ok (pid, start, boot, ns) =>
          ok ← call (LPut (mkEntry (eNetworkOpID e) op (eVMID e) (svUID r) (svGID r) (svCID r) pid
                 start boot ns (eNetCIDR e) (eCreatedAtUnix e)));
          mret (match ok with
                | true => okResp (StartVMResp pid start)
                | false => errResp "internal"
                end)
        end
      end
    end
  end.

Definition handleSignalVM (raw : string) : Prog Response :=
  let r := decSignal cd raw in
  withEntry (sgVMID <$> r) (λ _ e,
    a ← call (BSignalVM e (from_option sgKind "" r));
    mret (match a with Some err => backendErrResp err | None => okResp NoBody end)).

Definition vmReleased (e : VMEntry) : VMEntry :=
  mkEntry (eNetworkOpID e) (eStartOpID e) (eVMID e) 0 0 0 0 "" "" "" (eNetCIDR e) (eCreatedAtUnix e).

Definition handleReleaseVM (raw : string) : Prog Response :=
  withEntry (decVM cd raw) (λ vm e,
    alive ← entryAlive e;
    match alive with
    | None | Some true => mret (errResp "invalid_state")
    | Some false =>
      a ← call (BReleaseVM e);
      match a with
      | Some err => mret (backendErrResp err)
      | None => keepOrDelete vm (eNetCIDR e =? "")%string (vmReleased e)
      end
    end).

Definition execute (r : Request) : Prog Response :=
  c ← call KContext;
  match c with
  | Some err => mret (backendErrResp err)
  | None =>
    if (Verb r =? "allocate_network")%string then handleAllocateNetwork (OpID r) (Payload r)
    else if (Verb r =? "release_network")%string then handleReleaseNetwork (Payload r)
    else if (Verb r =? "start_vm")%string then handleStartVM (OpID r) (Payload r)
    else if (Verb r =? "signal_vm")%string then handleSignalVM (Payload r)
    else if (Verb r =? "release_vm")%string then handleReleaseVM (Payload r)
    else mret (errResp "bad_request")
  end.

(** * The journal *)

Inductive OpState := Pending | Succeeded | OpFailed | Unknown.
Definition stateText (s : OpState) : string :=
  match s with
  | Pending => "pending" | Succeeded => "succeeded" | OpFailed => "failed" | Unknown => "unknown"
  end.

Record operationRecord := mkRecord {
  oRequest : Request; oState : OpState; oResponse : option Response }.

(** [durable.WriteFile] of a record: done, or failed with the old record or the new
    one in place. *)
Inductive SaveAns := Saved | NotSaved (wrote : bool).
Definition saved (a : SaveAns) : bool := match a with Saved => true | NotSaved _ => false end.
Definition saveOperation (a : SaveAns) (r : operationRecord)
    (files : gmap string operationRecord) : gmap string operationRecord :=
  match a with NotSaved false => files | _ => <[OpID (oRequest r) := r]> files end.

(** The host and the ledger's files. *)
Record World := mkWorld {
  ledger : gmap string VMEntry;
  nets : gmap string string;
  vmms : gmap string (Z * Z);
  hostBoot : string }.

(** [queue]: mutations that are recorded and wait for the execution lock;
    [running]: the one that holds it; [begun]: those that ever began to execute. *)
Record Server := mkServer {
  world : World;
  opfiles : gmap string operationRecord;
  records : gmap string operationRecord;
  journal : bool;
  queue : gset string;
  running : option (string * Prog Response);
  begun : list string }.

Definition isUnknown (r : operationRecord) : bool :=
  match oState r with Unknown => true | _ => false end.

(** An unresolved operation stops every claim of an identity, and everything about
    its own VM. *)
Definition blocks (req : Request) (old : operationRecord) : bool :=
  isUnknown old && ((Verb req =? "allocate_network")%string || (Verb req =? "start_vm")%string ||
    (operationVMID (oRequest old) =? operationVMID req)%string).
Definition blocked (req : Request) (rs : gmap string operationRecord) : bool :=
  bool_decide (map_Exists (λ _ old, blocks req old = true) rs).

(** [dispatchMutation] up to the execution lock: an answer, or a place in the queue. *)
Definition admitMutation (req : Request) (a : SaveAns) (s : Server) : option Response * Server :=
  if negb (ValidVMID (OpID req)) then (Some (errResp "bad_request"), s) else
  if negb (journal s) then (Some (errResp "outcome_unknown"), s) else
  match records s !! OpID req with
  | Some old =>
    (Some (if negb (Verb (oRequest old) =? Verb req)%string ||
              negb (Payload (oRequest old) =? Payload req)%string
           then errResp "invalid_state"
           else match oResponse old with
           | Some r => r
           | None => errResp ("outcome_" +:+ stateText (oState old))
           end), s)
  | None =>
    if blocked req (records s) then (Some (errResp "outcome_unknown"), s) else
    let r := mkRecord req Pending None in
    let files := saveOperation a r (opfiles s) in
    if saved a then
      (None, mkServer (world s) files (<[OpID req := r]> (records s)) true
               ({[OpID req]} ∪ queue s) (running s) (begun s))
    else (Some (errResp "outcome_unknown"),
          mkServer (world s) files (records s) false (queue s) (running s) (begun s))
  end.

(** [dispatchMutation] on taking the execution lock. *)
Definition begin (op : string) (s : Server) : option Server :=
  match running s, records s !! op with
  | None, Some r =>
    if decide (op ∈ queue s) then
      let q := queue s ∖ {[op]} in
      Some (if negb (journal s) || blocked (oRequest r) (records s)
            then mkServer (world s) (opfiles s) (records s) (journal s) q
                   (Some (op, Ret (errResp "invalid_state"))) (begun s)
            else mkServer (world s) (opfiles s) (records s) (journal s) q
                   (Some (op, execute (oRequest r))) (begun s ++ [op]))
    else None
  | _, _ => None
  end.

(** A failed durability barrier or rollback cannot prove that effects are gone. *)
Definition uncertain (r : Response) : bool :=
  (rCause r =? "internal")%string || (rCause r =? "outcome_unknown")%string.

Definition settled (req : Request) (r : Response) : operationRecord :=
  if uncertain r then mkRecord req Unknown None
  else mkRecord req (if rOK r then Succeeded else OpFailed) (Some r).

(** [dispatchMutation] from the handler's response on. *)
Definition finish (a : SaveAns) (s : Server) : option (Response * Server) :=
  match running s with
  | Some (op, Ret resp) =>
    match records s !! op with
    | Some r =>
      let r' := settled (oRequest r) resp in
      let files := saveOperation a r' (opfiles s) in
      Some (if saved a then
              (if isUnknown r' then errResp "outcome_unknown" else resp,
               mkServer (world s) files (<[op := r']> (records s)) (journal s) (queue s) None (begun s))
            else (errResp "outcome_unknown",
               mkServer (world s) files (records s) false (queue s) None (begun s)))
    | None => None
    end
  | _ => None
  end.

(** The ledger's entry of a VM, if it can be read. *)
Definition witness (w : World) (readable : bool) (vm : string) : option VMEntry :=
  match ledger w !! vm with
  | Some e => if readable && entryValid vm e then Some e else None
  | None => None
  end.

Definition recoverCommittedOperation (w : World) (readable : bool) (r : operationRecord)
    : operationRecord :=
  let vm := operationVMID (oRequest r) in
  if negb (ValidVMID vm) then r else
  match witness w readable vm with
  | None => r
  | Some e =>
    if (Verb (oRequest r) =? "start_vm")%string then
      if negb (eStartOpID e =? OpID (oRequest r))%string || (ePID e <=? 0) then r
      else mkRecord (oRequest r) Succeeded (Some (okResp (StartVMResp (ePID e) (eStartTime e))))
    else if (Verb (oRequest r) =? "allocate_network")%string then
      if negb (eNetworkOpID e =? OpID (oRequest r))%string || (eNetCIDR e =? "")%string then r
      else mkRecord (oRequest r) Succeeded (Some (okResp NoBody))
    else r
  end.

(** What a query answers of an operation. *)
Record OperationOutcome := mkOutcome { ocState : string; ocResponse : option Response }.

(** The recovery of one record, when the execution lock is free. *)
Definition recoverOne (id : string) (readable : bool) (a : SaveAns) (s : Server) : Server :=
  match running s, records s !! id with
  | None, Some r =>
    if isUnknown r && journal s then
      let r' := recoverCommittedOperation (world s) readable r in
      if isUnknown r' then s else
      let files := saveOperation a r' (opfiles s) in
      if saved a
      then mkServer (world s) files (<[id := r']> (records s)) true (queue s) None (begun s)
      else mkServer (world s) files (records s) false (queue s) None (begun s)
    else s
  | _, _ => s
  end.

Definition queryOperation (id : string) (readable : bool) (a : SaveAns) (s : Server)
    : OperationOutcome * Server :=
  let s := recoverOne id readable a s in
  (if negb (journal s) then mkOutcome "unknown" None else
   match records s !! id with
   | None => mkOutcome "not_found" None
   | Some r => mkOutcome (stateText (oState r)) (oResponse r)
   end, s).

Definition MaxMsgBytes : Z := 64 * 1024.

(** The inventory of leases, from what the scan of the ledger answers; the records
    in some order. *)
Definition networkLeases (l : option (list VMEntry)) (s : Server) : Response :=
  match running s with
  | Some _ => errResp "outcome_pending"
  | None =>
    if negb (journal s) then errResp "outcome_unknown" else
    match List.find (λ '(_, r), match oState r with Pending | Unknown => true | _ => false end)
            (map_to_list (records s)) with
    | Some (_, r) => errResp ("outcome_" +:+ stateText (oState r))
    | None =>
      match l with
      | None => errResp "internal"
      | Some l =>
        let leases := list_to_map
          (omap (λ e, if (eNetCIDR e =? "")%string then None else Some (eVMID e, eNetCIDR e)) l) in
        if MaxMsgBytes / 2 <? lenLeases cd leases then errResp "internal" else okResp (Leases leases)
      end
    end
  end.

Inductive Reply :=
  | Replied (r : Response)
  | Outcome (o : OperationOutcome)
  | Queued.

(** [dispatch]; the other arguments answer the file operations it makes. *)
Definition dispatch (req : Request) (l : option (list VMEntry)) (readable : bool) (a : SaveAns)
    (s : Server) : Reply * Server :=
  if negb (V req =? ProtoVersion) then (Replied (errResp "bad_request"), s) else
  if (Verb req =? "network_leases")%string then (Replied (networkLeases l s), s) else
  if (Verb req =? "query_operation")%string then
    match decOpID cd (Payload req) with
    | Some id => if ValidVMID id
                 then let '(o, s) := queryOperation id readable a s in (Outcome o, s)
                 else (Replied (errResp "bad_request"), s)
    | None => (Replied (errResp "bad_request"), s)
    end
  else
    let '(r, s) := admitMutation req a s in
    (match r with Some r => Replied r | None => Queued end, s).

(** ** Startup *)

(** Reading one record's file and, for one to recover, its ledger entry and the
    rewrite of the file. *)
Inductive LoadAns := LoadErr | Loaded (readable : bool) (a : SaveAns).

(** [loadOperations]: the files in some order; the first failure closes the journal. *)
Fixpoint loadOperations (w : World) (ans : string → LoadAns) (l : list (string * operationRecord))
    (files rs : gmap string operationRecord)
    : bool * gmap string operationRecord * gmap string operationRecord :=
  match l with
  | [] => (true, files, rs)
  | (id, r) :: l =>
    match ans id with
    | LoadErr => (false, files, rs)
    | Loaded readable a =>
      if match oState r with Pending | Unknown => true | _ => false end then
        let r := recoverCommittedOperation w readable (mkRecord (oRequest r) Unknown (oResponse r)) in
        let files := saveOperation a r files in
        if saved a then loadOperations w ans l files (<[id := r]> rs) else (false, files, rs)
      else match oResponse r with
      | None => (false, files, rs)
      | Some _ => loadOperations w ans l files (<[id := r]> rs)
      end
    end
  end.

Definition NewServer (w : World) (ans : string → LoadAns)
    (files : gmap string operationRecord) (begun : list string) : Server :=
  let '(ok, files, rs) := loadOperations w ans (map_to_list files) files ∅ in
  mkServer w files rs ok ∅ None begun.

End server.

(** * The daemon at work *)

Definition on_ledger f (w : World) : World := mkWorld (f (ledger w)) (nets w) (vmms w) (hostBoot w).
Definition on_nets f (w : World) : World := mkWorld (ledger w) (f (nets w)) (vmms w) (hostBoot w).
Definition on_vmms f (w : World) : World := mkWorld (ledger w) (nets w) (f (vmms w)) (hostBoot w).

(** A write or an effect that was asked for and answered with a failure happened or
    did not. *)
Definition maybe (done : bool) (f : World → World) (w w' : World) : Prop :=
  w' = f w ∨ done = false ∧ w' = w.
Definition done {A} (e : option A) : bool := match e with None => true | Some _ => false end.

(** The files, and the contract of the backend and the kernel: what is allocated or
    started may be there even when the call fails; a release or an abort that
    succeeds leaves nothing; a started process has a positive id and belongs to
    the current boot; and an entry's process that is reported gone is gone. *)
Definition callStep (c : Call) (w : World) : Ans c → World → Prop :=
  match c with
  | LGet vm => λ r w', w' = w ∧
      match r with
      | Got e => ledger w !! vm = Some e ∧ entryValid vm e = true
      | NotExist => ledger w !! vm = None
      | GetErr => True
      end
  | LAll => λ r w', w' = w ∧
      match r with Some l => ∀ e, e ∈ l ↔ ∃ vm, ledger w !! vm = Some e | None => True end
  | LPut e => λ r w', maybe r (on_ledger <[eVMID e := e]>) w w'
  | LDelete vm => λ r w', maybe r (on_ledger (delete vm)) w w'
  | BAllocateNetwork e q => λ r w', maybe (done r) (on_nets <[eVMID e := anCIDR q]>) w w'
  | BReleaseNetwork e => λ r w', maybe (done r) (on_nets (delete (eVMID e))) w w'
  | BStartVM e q => λ r w', let f := on_vmms <[eVMID e := (svUID q, svCID q)]> in
      match r with
      | Ok (pid, _, boot, _) => 0 < pid ∧ boot = hostBoot w ∧ w' = f w
      | Err _ => maybe false f w w'
      end
  | BAbortStartVM e => λ r w', maybe (done r) (on_vmms (delete (eVMID e))) w w'
  | BSignalVM e _ => λ _ w', maybe false (on_vmms (delete (eVMID e))) w w'
  | KIdentity => λ r w', w' = w ∧ ∀ boot ns, r = Some (boot, ns) → boot = hostBoot w
  | KProcessAlive e => λ r w', w' = w ∧
      (r = Some false → ledger w !! eVMID e = Some e → vmms w !! eVMID e = None)
  | _ => λ _ w', w' = w
  end.

Section steps.
Context (cd : Codec) (cfg : ServerCfg).

Inductive Event :=
  | EDispatch (req : Request) (r : Reply)
  | EBegin (op : string)
  | ECall (c : Call)
  | EFinish (op : string) (r : Response)
  | EExit (vm : string)
  | ERestart
  | EReboot.

Definition set_world (w : World) (run : option (string * Prog Response)) (s : Server) : Server :=
  mkServer w (opfiles s) (records s) (journal s) (queue s) run (begun s).

(** VMMs exit on their own; the daemon restarts at any point, in the middle of a
    mutation too, with the host as it is or rebooted. *)
Inductive pstep : Event → Server → Server → Prop :=
  | p_dispatch req l readable a reply s s' :
      dispatch cd req l readable a s = (reply, s') → pstep (EDispatch req reply) s s'
  | p_begin op s s' : begin cd cfg op s = Some s' → pstep (EBegin op) s s'
  | p_call op c k r w' s :
      running s = Some (op, Do c k) → callStep c (world s) r w' →
      pstep (ECall c) s (set_world w' (Some (op, k r)) s)
  | p_finish op a r s s' :
      running s = Some (op, Ret r) → ∀ resp, finish a s = Some (resp, s') →
      pstep (EFinish op resp) s s'
  | p_exit vm s : pstep (EExit vm) s (set_world (on_vmms (delete vm) (world s)) (running s) s)
  | p_restart ans s : pstep ERestart s (NewServer cd (world s) ans (opfiles s) (begun s))
  | p_reboot ans boot s : boot ≠ hostBoot (world s) →
      pstep EReboot s
        (NewServer cd (mkWorld (ledger (world s)) ∅ ∅ boot) ans (opfiles s) (begun s)).

Inductive psteps : Server → list Event → Server → Prop :=
  | psteps_nil s : psteps s [] s
  | psteps_snoc s es s1 e s2 : psteps s es s1 → pstep e s1 s2 → psteps s (es ++ [e]) s2.

Definition installed (boot : string) : Server :=
  mkServer (mkWorld ∅ ∅ ∅ boot) ∅ ∅ true ∅ None [].

End steps.

End Privd.
