(* ===== verification/PrivdSafe.v ===== *)
(** What the privileged daemon guarantees across failures, crashes and reboots. *)

From S2P Require Import Prelude Privd.
Import Privd.

Local Open Scope Z_scope.

Module PrivdSafe.

(** * Host identities *)

(** A VM holds a subnet, or a jail uid and guest CID, on the host or in the ledger. *)
Definition holdsNet (w : World) (vm c : string) : Prop :=
  nets w !! vm = Some c ∨ ∃ e, ledger w !! vm = Some e ∧ eNetCIDR e = c ∧ c ≠ "".
Definition holdsVM (w : World) (vm : string) (uc : Z * Z) : Prop :=
  vmms w !! vm = Some uc ∨ ∃ e, ledger w !! vm = Some e ∧ ePID e ≠ 0 ∧ (eUID e, eCID e) = uc.

(** [LN], [LV]: the VMs whose network, or process, an unresolved operation owns. *)
Record winv (LN LV : string → Prop) (w : World) : Prop := {
  wi_keys : ∀ vm e, ledger w !! vm = Some e → eVMID e = vm ∧ vm ≠ "";
  wi_net_same : ∀ vm c e, nets w !! vm = Some c → ledger w !! vm = Some e →
    eNetCIDR e ≠ "" → eNetCIDR e = c;
  wi_vm_same : ∀ vm uc e, vmms w !! vm = Some uc → ledger w !! vm = Some e → ePID e ≠ 0 →
    (eUID e, eCID e) = uc ∧ eBootID e = hostBoot w;
  wi_net_inj : ∀ vm vm' c, holdsNet w vm c → holdsNet w vm' c → vm = vm';
  wi_vm_inj : ∀ vm vm' uc uc', holdsVM w vm uc → holdsVM w vm' uc' →
    uc.1 = uc'.1 ∨ uc.2 = uc'.2 → vm = vm';
  wi_net_cover : ∀ vm c, nets w !! vm = Some c →
    (∃ e, ledger w !! vm = Some e ∧ eNetCIDR e = c ∧ c ≠ "") ∨ LN vm;
  wi_vm_cover : ∀ vm uc, vmms w !! vm = Some uc →
    (∃ e, ledger w !! vm = Some e ∧ ePID e ≠ 0) ∨ LV vm
}.

(** What a world that holds less keeps. *)
Lemma winv_shrink LN0 LV0 LN LV w w' :
  winv LN0 LV0 w → hostBoot w' = hostBoot w → nets w' ⊆ nets w → vmms w' ⊆ vmms w →
  (∀ vm e', ledger w' !! vm = Some e' → ∃ e, ledger w !! vm = Some e ∧ eVMID e' = vm ∧
     (eNetCIDR e' = "" ∨ eNetCIDR e' = eNetCIDR e) ∧
     (ePID e' = 0 ∨ ePID e' = ePID e ∧ eUID e' = eUID e ∧ eCID e' = eCID e ∧ eBootID e' = eBootID e)) →
  (∀ vm c, nets w' !! vm = Some c → (∃ e, ledger w' !! vm = Some e ∧ eNetCIDR e = c ∧ c ≠ "") ∨ LN vm) →
  (∀ vm uc, vmms w' !! vm = Some uc → (∃ e, ledger w' !! vm = Some e ∧ ePID e ≠ 0) ∨ LV vm) →
  winv LN LV w'.
Proof.
  intros [K N1 V1 N2 V2 N3 V3] Hb Hn Hv Hl Hc Hd.
  assert (HN : ∀ vm c, holdsNet w' vm c → holdsNet w vm c).
  { intros vm c [H|(e' & H1 & H2 & H3)]; [left; by eapply lookup_weaken|]. right.
    destruct (Hl _ _ H1) as (e & ? & _ & [?|?] & _); [congruence|]. exists e. split_and!; congruence. }
  assert (HV : ∀ vm uc, holdsVM w' vm uc → holdsVM w vm uc).
  { intros vm uc [H|(e' & H1 & H2 & H3)]; [left; by eapply lookup_weaken|]. right.
    destruct (Hl _ _ H1) as (e & ? & _ & _ & [?|(E1 & E2 & E3 & _)]); [congruence|].
    exists e. split_and!; congruence. }
  split; [| | |eauto|eauto|done|done].
  - intros vm e' H1. destruct (Hl _ _ H1) as (e & H2 & E & _). split; [done|]. by apply (K vm e).
  - intros vm c e' H1 H2 H3. destruct (Hl _ _ H2) as (e & H4 & _ & [?|E] & _); [congruence|].
    rewrite E in *. eapply N1; eauto using lookup_weaken.
  - intros vm uc e' H1 H2 H3.
    destruct (Hl _ _ H2) as (e & H4 & _ & _ & [?|(E1 & E2 & E3 & E4)]); [congruence|].
    rewrite E2, E3, E4, Hb. eapply V1; eauto using lookup_weaken. congruence.
Qed.

(** VMMs that exit. *)
Definition drift (w w' : World) : Prop :=
  ledger w' = ledger w ∧ nets w' = nets w ∧ vmms w' ⊆ vmms w ∧ hostBoot w' = hostBoot w.

#[local] Instance drift_preorder : PreOrder drift.
Proof.
  split; [by intros []|]. intros w1 w2 w3 (A1 & A2 & A3 & A4) (B1 & B2 & B3 & B4).
  split_and!; try congruence. by etrans.
Qed.

Lemma winv_drift LN LV w w' : drift w w' → winv LN LV w → winv LN LV w'.
Proof.
  intros (E1 & E2 & E3 & E4) H. pose proof H as [K _ _ _ _ N3 V3].
  eapply (winv_shrink _ _ _ _ w); [exact H|done|by rewrite E2|done| | |]; rewrite ?E1, ?E2; [|done|].
  - intros vm e He. exists e. split; [done|]. split; [by apply K|]. auto 10.
  - intros vm uc Hvm. eapply V3, lookup_weaken; eauto.
Qed.

Definition none (_ : string) : Prop := False.

Lemma winv_mono (LN LV LN' LV' : string → Prop) w :
  (∀ vm, LN vm → LN' vm) → (∀ vm, LV vm → LV' vm) → winv LN LV w → winv LN' LV' w.
Proof. intros H1 H2 [K N1 V1 N2 V2 N3 V3]. split; try done; naive_solver. Qed.

(** ** Claims *)

Lemma winv_allocate w vm c :
  winv none none w → ledger w !! vm = None →
  (∀ u e, ledger w !! u = Some e → eNetCIDR e ≠ c) →
  winv (eq vm) none (on_nets <[vm := c]> w).
Proof.
  intros [K N1 V1 N2 V2 N3 V3] Hl Hf.
  assert (Hfree : ∀ u, ¬ holdsNet w u c).
  { intros u [H|(e & H1 & H2 & _)]; [|by apply (Hf u e)].
    destruct (N3 _ _ H) as [(e & H1 & H2 & _)|[]]. by apply (Hf u e). }
  assert (Hh : ∀ u c', holdsNet (on_nets <[vm := c]> w) u c' → u = vm ∧ c' = c ∨ holdsNet w u c').
  { intros u c' [H|H]; [|by right; right]. cbn in H.
    apply lookup_insert_Some in H as [[<- <-]|[_ H]]; [by left|right; by left]. }
  split; cbn [ledger nets vmms hostBoot on_nets]; try done.
  - intros u c' e H1 H2 H3. apply lookup_insert_Some in H1 as [[<- <-]|[_ H1]]; [congruence|eauto].
  - intros u u' c' [[-> ->]|H]%Hh [[-> E]|H']%Hh; try done; subst; [by destruct (Hfree u')|by destruct (Hfree u)|eauto].
  - intros u c' H1. apply lookup_insert_Some in H1 as [[<- <-]|[_ H1]]; [by right|].
    destruct (N3 _ _ H1) as [?|[]]. by left.
Qed.

Lemma winv_started w vm u c :
  winv none none w → (∀ vm' e, ledger w !! vm' = Some e → eUID e ≠ u ∧ eCID e ≠ c) →
  (∀ e, ledger w !! vm = Some e → ePID e = 0) →
  winv none (eq vm) (on_vmms <[vm := (u, c)]> w).
Proof.
  intros [K N1 V1 N2 V2 N3 V3] Hf Hp.
  assert (Hfree : ∀ vm' uc, holdsVM w vm' uc → uc.1 ≠ u ∧ uc.2 ≠ c).
  { assert (Hl : ∀ vm' e, ledger w !! vm' = Some e → (eUID e, eCID e).1 ≠ u ∧ (eUID e, eCID e).2 ≠ c)
      by (intros; cbn; eauto).
    intros vm' uc [H|(e & H1 & H2 & <-)]; [|by eapply Hl].
    destruct (V3 _ _ H) as [(e & H1 & H2)|[]]. destruct (V1 _ _ _ H H1 H2) as [<- _]. by eapply Hl. }
  assert (Hh : ∀ vm' uc, holdsVM (on_vmms <[vm := (u, c)]> w) vm' uc →
    vm' = vm ∧ uc = (u, c) ∨ holdsVM w vm' uc).
  { intros vm' uc [H|H]; [|by right; right]. cbn in H.
    apply lookup_insert_Some in H as [[<- <-]|[_ H]]; [by left|right; by left]. }
  split; cbn [ledger nets vmms hostBoot on_vmms]; try done.
  - intros vm' uc e H1 H2 H3. apply lookup_insert_Some in H1 as [[<- <-]|[_ H1]]; [|eauto].
    by destruct H3; apply Hp.
  - intros vm1 vm2 uc1 uc2 [[-> ->]|H]%Hh [[-> ->]|H']%Hh E; [done|..|eauto].
    + apply Hfree in H'. cbn in E. naive_solver.
    + apply Hfree in H. cbn in E. naive_solver.
  - intros vm' uc H1. apply lookup_insert_Some in H1 as [[<- <-]|[_ H1]]; [by right|].
    destruct (V3 _ _ H1) as [?|[]]. by left.
Qed.

(** ** Records of claims *)

Lemma winv_put_net w vm c e :
  winv (eq vm) none w → ledger w !! vm = None → nets w !! vm = Some c → c ≠ "" → vm ≠ "" →
  eVMID e = vm → eNetCIDR e = c → ePID e = 0 → winv none none (on_ledger <[vm := e]> w).
Proof.
  intros [K N1 V1 N2 V2 N3 V3] Hl Hn Hc Hvm E1 E2 E3.
  assert (HN : ∀ u c', holdsNet (on_ledger <[vm := e]> w) u c' → holdsNet w u c').
  { intros u c' [H|(e' & H1 & H2 & H3)]; [by left|]. cbn in H1.
    apply lookup_insert_Some in H1 as [[<- <-]|[_ H1]]; [left; congruence|right; eauto]. }
  assert (HV : ∀ u uc, holdsVM (on_ledger <[vm := e]> w) u uc → holdsVM w u uc).
  { intros u uc [H|(e' & H1 & H2 & H3)]; [by left|]. cbn in H1.
    apply lookup_insert_Some in H1 as [[<- <-]|[_ H1]]; [done|right; eauto]. }
  split; cbn [ledger nets vmms hostBoot on_ledger]; [| | |eauto|eauto| |].
  - intros u e' [[<- <-]|[_ H]]%lookup_insert_Some; eauto.
  - intros u c' e' H1 [[<- <-]|[_ H]]%lookup_insert_Some; [congruence|eauto].
  - intros u uc e' H1 [[<- <-]|[_ H]]%lookup_insert_Some; [done|eauto].
  - intros u c' H1. left. destruct (decide (vm = u)) as [->|Hne].
    + exists e. rewrite lookup_insert_eq. split; [done|]. split; congruence.
    + rewrite lookup_insert_ne by done. destruct (N3 _ _ H1) as [?|?]; done.
  - intros u uc H1. left. destruct (V3 _ _ H1) as [(e' & H2 & H3)|[]]. exists e'.
    rewrite lookup_insert_ne; [done|congruence].
Qed.

Lemma winv_put_vm w vm u c e0 e :
  winv none (eq vm) w → ledger w !! vm = Some e0 → ePID e0 = 0 →
  (∀ vm' e, ledger w !! vm' = Some e → eUID e ≠ u ∧ eCID e ≠ c) →
  (∀ uc, vmms w !! vm = Some uc → uc = (u, c)) →
  eVMID e = vm → eNetCIDR e = eNetCIDR e0 → ePID e ≠ 0 → eUID e = u → eCID e = c →
  eBootID e = hostBoot w → winv none none (on_ledger <[vm := e]> w).
Proof.
  intros [K N1 V1 N2 V2 N3 V3] Hl Hp0 Hf Hv E1 E2 E3 E4 E5 E6.
  assert (HN : ∀ x c', holdsNet (on_ledger <[vm := e]> w) x c' → holdsNet w x c').
  { intros x c' [H|(e' & H1 & H2 & H3)]; [by left|]. cbn in H1. right.
    apply lookup_insert_Some in H1 as [[<- <-]|[_ H1]]; [exists e0; split_and!; congruence|eauto]. }
  assert (Hfree : ∀ vm' uc, vm' ≠ vm → holdsVM w vm' uc → uc.1 ≠ u ∧ uc.2 ≠ c).
  { intros vm' uc Hne [H|(e' & H1 & H2 & <-)]; [|by eapply (Hf vm')].
    destruct (V3 _ _ H) as [(e' & H1 & H2)|?]; [|done].
    destruct (V1 _ _ _ H H1 H2) as [<- _]. by apply (Hf vm'). }
  assert (HV : ∀ x uc, holdsVM (on_ledger <[vm := e]> w) x uc → x = vm ∧ uc = (u, c) ∨ x ≠ vm ∧ holdsVM w x uc).
  { intros x uc H. destruct (decide (x = vm)) as [->|Hne]; [left; split; [done|]|right; split; [done|]].
    - destruct H as [H|(e' & H1 & H2 & <-)]; [by apply Hv|]. cbn in H1. rewrite lookup_insert_eq in H1.
      injection H1 as <-. by rewrite E4, E5.
    - destruct H as [H|(e' & H1 & H2 & H3)]; [by left|]. cbn in H1.
      rewrite lookup_insert_ne in H1 by done. right. eauto. }
  split; cbn [ledger nets vmms hostBoot on_ledger]; [| | |eauto| | |].
  - intros x e' [[<- <-]|[_ H]]%lookup_insert_Some; [|eauto]. split; [done|]. by apply (K vm e0).
  - intros x c' e' H1 [[<- <-]|[_ H]]%lookup_insert_Some; [|eauto]. rewrite E2. eauto.
  - intros x uc e' H1 [[<- <-]|[_ H]]%lookup_insert_Some; [|eauto]. intros _.
    rewrite (Hv _ H1). split; congruence.
  - intros x y uc uc' [[-> ->]|[Hx H]]%HV [[-> ->]|[Hy H']]%HV E; [done|..|eauto].
    + apply (Hfree _ _ Hy) in H'. cbn in E. naive_solver.
    + apply (Hfree _ _ Hx) in H. cbn in E. naive_solver.
  - intros x c' H1. left. destruct (N3 _ _ H1) as [(e' & H2 & H3 & H4)|[]].
    destruct (decide (vm = x)) as [->|Hne].
    + exists e. rewrite lookup_insert_eq. split; [done|]. split; [|done]. congruence.
    + exists e'. by rewrite lookup_insert_ne.
  - intros x uc H1. left. destruct (decide (vm = x)) as [->|Hne].
    + exists e. by rewrite lookup_insert_eq.
    + rewrite lookup_insert_ne by done. destruct (V3 _ _ H1) as [?|?]; done.
Qed.

Section world.
Context (LN LV : string → Prop).
Abbreviation winv := (winv LN LV).

(** Every state of a program's execution is in order, and its end satisfies [Q]. *)
Fixpoint pwp {A} (P : Prog A) (w : World) (Q : A → World → Prop) : Prop :=
  ∀ w1, drift w w1 → winv w1 ∧
    match P with
    | Ret a => Q a w1
    | Do c k => ∀ r w2, callStep c w1 r w2 → pwp (k r) w2 Q
    end.

Lemma pwp_ok {A} (P : Prog A) w Q : pwp P w Q → winv w.
Proof. intros H. destruct P; by apply (H w). Qed.

Lemma pwp_drift {A} (P : Prog A) w w' Q : drift w w' → pwp P w Q → pwp P w' Q.
Proof. intros Hd H. destruct P; intros w1 H1; apply H; by etrans. Qed.

Lemma pwp_ret {A} (a : A) w (Q : A → World → Prop) :
  winv w → (∀ w', drift w w' → winv w' → Q a w') → pwp (mret a) w Q.
Proof. intros Hok HQ w1 H1. split; [by eapply winv_drift|]. apply HQ; [done|]. by eapply winv_drift. Qed.

Lemma pwp_bind {A B} (P : Prog A) (f : A → Prog B) w Q :
  pwp P w (λ a w', pwp (f a) w' Q) → pwp (P ≫= f) w Q.
Proof.
  revert w. induction P as [a|c k IH]; intros w H.
  - destruct (H w) as [_ H']; [done|exact H'].
  - intros w1 H1. destruct (H w1 H1) as (Hok & Hk). split; [done|].
    intros r w2 Hc. by apply IH, Hk.
Qed.

Lemma pwp_step {A} c (f : Ans c → Prog A) w Q :
  winv w →
  (∀ w1 r w2, drift w w1 → winv w1 → callStep c w1 r w2 → pwp (f r) w2 Q) →
  pwp (call c ≫= f) w Q.
Proof.
  intros Hok Hf w1 Hd. assert (winv w1) by (by eapply winv_drift). split; [done|].
  intros r w2 Hc. by eapply Hf.
Qed.

End world.

Lemma pwp_mono {A} (LN LV LN' LV' : string → Prop) (P : Prog A) w (Q Q' : A → World → Prop) :
  (∀ vm, LN vm → LN' vm) → (∀ vm, LV vm → LV' vm) → (∀ a w, Q a w → Q' a w) →
  pwp LN LV P w Q → pwp LN' LV' P w Q'.
Proof.
  intros HN HV HQ. revert w. induction P as [a|c k IH]; intros w H w1 Hd; destruct (H w1 Hd) as [Hok Hk];
    (split; [by eapply winv_mono|]); [by apply HQ|].
  intros r w2 Hc. by apply IH, Hk.
Qed.

(** ** Handlers *)

(** A response that settles its operation leaves to the unresolved ones what they had. *)
Definition fin (LN LV : string → Prop) (resp : Response) (w : World) : Prop :=
  uncertain resp = false → winv LN LV w.

Lemma pwp_fin (BN BV LN LV : string → Prop) r w :
  winv BN BV w → (∀ vm, BN vm → LN vm) → (∀ vm, BV vm → LV vm) →
  pwp LN LV (mret r) w (fin BN BV).
Proof.
  intros H HN HV. apply pwp_ret; [by eapply winv_mono|]. intros w' Hd _ _. by eapply winv_drift.
Qed.

Lemma pwp_unc (BN BV LN LV : string → Prop) r w :
  winv LN LV w → uncertain r = true → pwp LN LV (mret r) w (fin BN BV).
Proof. intros H E. apply pwp_ret; [done|]. intros w' _ _. unfold fin. congruence. Qed.

(** One call: its answer, the world after it, and what it did. *)
Tactic Notation "pcall" simple_intropattern(r) ident(w1) simple_intropattern(w2)
    simple_intropattern(H) :=
  apply pwp_step; [by eauto using winv_mono|];
  intros w1 r w2; let Hd := fresh in intros Hd _ H; pose proof Hd as (? & ? & ? & ?);
  repeat match goal with HI : winv _ _ ?w0, Hd : drift ?w0 _ |- _ => apply (winv_drift _ _ _ _ Hd) in HI end;
  clear Hd.

Section handlers.
Context (cd : Codec) (cfg : ServerCfg).

(** A scan of the ledger that names no holder. *)
Lemma find_free LN LV w l (f : VMEntry → bool) :
  winv LN LV w → (∀ e, e ∈ l ↔ ∃ vm, ledger w !! vm = Some e) →
  from_option eVMID "" (List.find f l) = "" →
  ∀ u e, ledger w !! u = Some e → f e = false.
Proof.
  intros Hok Hl Hh u e He. destruct (List.find f l) as [x|] eqn:Hx.
  - apply List.find_some in Hx as [Hin _]. apply list_elem_of_In, Hl in Hin as (y & Hy).
    destruct (wi_keys _ _ _ Hok _ _ Hy) as [E1 E2]. cbn in Hh. congruence.
  - eapply List.find_none in Hx; [done|]. apply list_elem_of_In, Hl. eauto.
Qed.

Lemma holder_free LN LV (f : VMEntry → bool) w Q :
  winv LN LV w →
  (∀ w' h, drift w w' → (h = Some "" → ∀ u e, ledger w' !! u = Some e → f e = false) → Q h w') →
  pwp LN LV (l ← call LAll; mret (match l with
    | None => None | Some l => Some (from_option eVMID "" (List.find f l)) end)) w Q.
Proof.
  intros Hw HQ. apply pwp_step; [done|]. intros w1 r w2 Hd Hok (-> & Hl). apply pwp_ret; [done|].
  intros w' Hd' Hok'. apply HQ; [etrans; [exact Hd|done]|]. destruct r as [l|]; [|done].
  intros [= Hh] u e He. destruct Hd' as (E & _). rewrite E in He. exact (find_free _ _ _ _ f Hok Hl Hh _ _ He).
Qed.

(** Taking away what an unresolved claim may have made. *)
Lemma winv_unclaim_net vm w :
  winv (eq vm) none w → winv none none (on_nets (delete vm) w).
Proof.
  intros H. pose proof H as [K _ _ _ _ N3 V3].
  eapply (winv_shrink _ _ _ _ w); [exact H|done|apply delete_subseteq|done|..]; cbn.
  - intros u e He. exists e. split; [done|]. split; [by apply K|auto 10].
  - intros u c [Hne Hu]%lookup_delete_Some. destruct (N3 _ _ Hu); [by left|done].
  - intros u uc Hu. by destruct (V3 _ _ Hu); [left|].
Qed.

Lemma winv_unclaim_vm vm w :
  winv none (eq vm) w → winv none none (on_vmms (delete vm) w).
Proof.
  intros H. pose proof H as [K _ _ _ _ N3 V3].
  eapply (winv_shrink _ _ _ _ w); [exact H|done|done|apply delete_subseteq|..]; cbn.
  - intros u e He. exists e. split; [done|]. split; [by apply K|auto 10].
  - intros u c Hu. by destruct (N3 _ _ Hu); [left|].
  - intros u uc [Hne Hu]%lookup_delete_Some. destruct (V3 _ _ Hu); [by left|done].
Qed.

Lemma winv_any LN LV w : winv none none w → winv LN LV w.
Proof. apply winv_mono; by intros ? []. Qed.
#[local] Hint Resolve winv_any : core.

Lemma pwp_end LN LV r w : winv none none w → pwp LN LV (mret r) w (fin none none).
Proof. intros. apply pwp_fin; [done|by intros ? []..]. Qed.
#[local] Hint Resolve pwp_end : core.

(** The network of a VM that holds none: the effect and its record. *)
Lemma allocate_effect_pwp entry r w :
  winv none none w → ledger w !! eVMID entry = None →
  (∀ u e, ledger w !! u = Some e → (eNetCIDR e =? anCIDR r)%string = false) →
  eVMID entry ≠ "" → anCIDR r ≠ "" → eNetCIDR entry = anCIDR r → ePID entry = 0 →
  pwp (eq (eVMID entry)) none
    (a ← call (BAllocateNetwork entry r);
     match a with
     | Some _ =>
       b ← call (BReleaseNetwork entry);
       mret (match b with Some _ => errResp "outcome_unknown" | None => errResp "exec_failed" end)
     | None =>
       ok ← call (LPut entry);
       mret (match ok with true => okResp NoBody | false => errResp "internal" end)
     end) w (fin none none).
Proof.
  intros Hw Hl Hf Hvm Hc Ec Ep. pcall a w1 w2 Ha.
  match goal with H : ledger _ = ledger w |- _ => rewrite <- H in Hl, Hf end.
  assert (winv (eq (eVMID entry)) none (on_nets <[eVMID entry := anCIDR r]> w1)) as Hnew.
  { apply winv_allocate; [done..|]. intros u e He. apply String.eqb_neq. eauto. }
  assert (winv (eq (eVMID entry)) none w2) as Hw2 by (destruct Ha as [->|[_ ->]]; auto).
  destruct a as [err|].
  - pcall b w3 w4 Hb. destruct b as [e'|]; [|].
    + apply pwp_unc; [|done]. destruct Hb as [->|[_ ->]]; auto using winv_unclaim_net.
    + destruct Hb as [->|[? _]]; [|done]. auto using winv_unclaim_net.
  - destruct Ha as [->|[? _]]; [|done]. pcall b w3 w4 Hb. cbn in * |-.
    assert (winv none none (on_ledger <[eVMID entry := entry]> w3)) as Hw3.
    { eapply (winv_put_net _ _ (anCIDR r)); try done.
      - congruence.
      - match goal with H : nets w3 = _ |- _ => rewrite H end. apply lookup_insert_eq. }
    destruct b; [|apply pwp_unc; [|done]]; destruct Hb as [->|[? ->]]; try done; auto.
Qed.

Lemma allocate_pwp op raw w vm :
  winv none none w → (∀ r, decAllocate cd raw = Some r → anVMID r = vm) →
  pwp (eq vm) none (handleAllocateNetwork cd op raw) w (fin none none).
Proof.
  intros Hw Hvm. unfold handleAllocateNetwork. destruct (decAllocate cd raw) as [r|]; [|by auto].
  specialize (Hvm _ eq_refl). destruct (_ || _) eqn:Eg; [by auto|].
  apply orb_false_iff in Eg as [Ev Ec]. apply negb_false_iff in Ev. apply String.eqb_neq in Ec.
  assert (anVMID r ≠ "") as Hne by (intros E; by rewrite E in Ev).
  pcall g w1 w1' (-> & Hg). destruct g as [e| |]; [by destruct (_ =? _)%string; auto| |by auto].
  apply pwp_bind, holder_free; [by auto|]. intros w2 h Hd Hfree. cbn beta.
  pose proof (winv_drift _ _ _ _ Hd Hw). destruct Hd as (E & _).
  destruct h as [h|]; [|by auto]. destruct (h =? "")%string eqn:Eh; cbn [negb]; [|by auto].
  apply String.eqb_eq in Eh as ->. specialize (Hfree eq_refl).
  pcall now w3 w3' ->. set (entry := mkEntry _ _ _ _ _ _ _ _ _ _ _ _).
  rewrite <- Hvm.
  apply (allocate_effect_pwp entry); try done; cbn; [congruence|]. intros u e He. apply (Hfree u). congruence.
Qed.

(** The process of a VM that has none: the effect and its record. *)
Lemma start_effect_pwp e r op w :
  winv none none w → ledger w !! eVMID e = Some e → ePID e = 0 →
  (∀ u e, ledger w !! u = Some e → (eUID e =? svUID r) || (eCID e =? svCID r) = false) →
  pwp none (eq (eVMID e))
    (let entry := mkEntry (eNetworkOpID e) op (eVMID e) (svUID r) (svGID r) (svCID r) (ePID e)
       (eStartTime e) (eBootID e) (ePIDNamespace e) (eNetCIDR e) (eCreatedAtUnix e) in
     s ← call (BStartVM entry r);
     match s with
     | Err err =>
       b ← call (BAbortStartVM entry);
       mret (match b with Some _ => errResp "outcome_unknown" | None => backendErrResp err end)
     | Ok (pid, start, boot, ns) =>
       ok ← call (LPut (mkEntry (eNetworkOpID e) op (eVMID e) (svUID r) (svGID r) (svCID r) pid
              start boot ns (eNetCIDR e) (eCreatedAtUnix e)));
       mret (match ok with
             | true => okResp (StartVMResp pid start)
             | false => errResp "internal"
             end)
     end) w (fin none none).
Proof.
  intros Hw Hl Hp Hf. cbv zeta. pcall s w1 w2 Hs.
  match goal with H : ledger _ = ledger w |- _ => rewrite <- H in Hl, Hf end.
  assert (∀ u e, ledger w1 !! u = Some e → eUID e ≠ svUID r ∧ eCID e ≠ svCID r) as Hfree.
  { intros u x Hx. apply Hf in Hx. apply orb_false_iff in Hx as [?%Z.eqb_neq ?%Z.eqb_neq]. done. }
  assert (winv none (eq (eVMID e)) (on_vmms <[eVMID e := (svUID r, svCID r)]> w1)) as Hnew.
  { apply winv_started; [done..|]. intros x Hx. congruence. }
  destruct s as [[[[pid start] boot] ns]|err]; cbn in Hs.
  - destruct Hs as (Hpid & -> & ->). pcall b w3 w4 Hb. cbn in * |-.
    assert (winv none none (on_ledger <[eVMID e := mkEntry (eNetworkOpID e) op (eVMID e)
      (svUID r) (svGID r) (svCID r) pid start (hostBoot w1) ns (eNetCIDR e) (eCreatedAtUnix e)]> w3)) as Hw3.
    { eapply (winv_put_vm _ _ (svUID r) (svCID r) e); try done; cbn; try congruence; [| |lia].
      { match goal with H : ledger w3 = _ |- _ => by rewrite H end. }
      intros uc Huc. eapply lookup_weaken in Huc; [|done]. rewrite lookup_insert_eq in Huc. congruence. }
    destruct b; [|apply pwp_unc; [|done]]; destruct Hb as [->|[? ->]]; try done; auto.
  - assert (winv none (eq (eVMID e)) w2) as Hw2 by (destruct Hs as [->|[_ ->]]; auto).
    pcall b w3 w4 Hb. destruct b as [e'|].
    + apply pwp_unc; [|done]. destruct Hb as [->|[_ ->]]; auto using winv_unclaim_vm.
    + destruct Hb as [->|[? _]]; [|done]. auto using winv_unclaim_vm.
Qed.

Lemma start_pwp op raw w vm :
  winv none none w → (∀ r, decStart cd raw = Some r → svVMID r = vm) →
  pwp none (eq vm) (handleStartVM cd cfg op raw) w (fin none none).
Proof.
  intros Hw Hvm. unfold handleStartVM. destruct (decStart cd raw) as [r|]; [|by auto].
  specialize (Hvm _ eq_refl). destruct (_ || negb (cleanBase _ =? _)%string); [by auto|].
  pcall g w1 w1' (-> & Hg). destruct g as [e| |]; [|by auto..]. destruct Hg as [Hl _].
  destruct (ePID e =? 0) eqn:Ep; cbn [negb]; [|by auto]. apply Z.eqb_eq in Ep.
  apply pwp_bind, holder_free; [by auto|]. intros w2 h Hd Hfree. cbn beta.
  pose proof (winv_drift _ _ _ _ Hd Hw) as Hw2. pose proof Hd as (E & _).
  destruct h as [h|]; [|by auto]. destruct (h =? "")%string eqn:Eh; cbn [negb]; [|by auto].
  apply String.eqb_eq in Eh as ->. specialize (Hfree eq_refl).
  rewrite <- E in Hl. destruct (wi_keys _ _ _ Hw2 _ _ Hl) as [Ev _].
  rewrite <- Hvm, <- Ev. apply start_effect_pwp; [done| |done..]. congruence.
Qed.

(** ** Releases *)

(** What a change of one VM's entry leaves. *)
Lemma winv_entry LN LV w vm e (o : option VMEntry) :
  winv LN LV w → ledger w !! vm = Some e →
  (∀ e', o = Some e' → eVMID e' = vm ∧ (eNetCIDR e' = "" ∨ eNetCIDR e' = eNetCIDR e) ∧
     (ePID e' = 0 ∨ ePID e' = ePID e ∧ eUID e' = eUID e ∧ eCID e' = eCID e ∧ eBootID e' = eBootID e)) →
  ((∃ e', o = Some e' ∧ eNetCIDR e' = eNetCIDR e) ∨ nets w !! vm = None) →
  ((∃ e', o = Some e' ∧ ePID e' = ePID e) ∨ vmms w !! vm = None) →
  winv LN LV (on_ledger (partial_alter (λ _, o) vm) w).
Proof.
  intros H Hl Ho Hn Hv. pose proof H as [K _ _ _ _ N3 V3].
  eapply (winv_shrink _ _ _ _ w); [exact H|done..| | |]; cbn [ledger nets vmms on_ledger].
  - intros u e' He'. destruct (decide (u = vm)) as [->|Hne].
    + rewrite lookup_partial_alter_eq in He'. subst o. exists e. split; [done|]. by apply Ho.
    + rewrite lookup_partial_alter_ne in He' by done. exists e'. split; [done|]. split; [by apply K|auto 10].
  - intros u c Hu. destruct (N3 _ _ Hu) as [(x & Hx & E1 & E2)|?]; [|by right]. left.
    destruct (decide (u = vm)) as [->|Hne].
    + rewrite lookup_partial_alter_eq. destruct Hn as [(e' & -> & E)|?]; [|congruence].
      exists e'. split; [done|]. split; congruence.
    + rewrite lookup_partial_alter_ne by done. eauto.
  - intros u uc Hu. destruct (V3 _ _ Hu) as [(x & Hx & E1)|?]; [|by right]. left.
    destruct (decide (u = vm)) as [->|Hne].
    + rewrite lookup_partial_alter_eq. destruct Hv as [(e' & -> & E)|?]; [|congruence].
      exists e'. split; [done|]. congruence.
    + rewrite lookup_partial_alter_ne by done. eauto.
Qed.

Section release.
Context (LN LV : string → Prop) (vm : string) (HN : ¬ LN vm) (HV : ¬ LV vm).

Lemma keep_end r w : winv LN LV w → pwp LN LV (mret r) w (fin LN LV).
Proof. intros. by apply pwp_fin. Qed.
#[local] Hint Resolve keep_end : core.

(** An entry without a process stands for no VMM. *)
Lemma no_process w e :
  winv LN LV w → ledger w !! vm = Some e → ePID e = 0 → vmms w !! vm = None.
Proof.
  intros H Hl Hp. apply eq_None_not_Some. intros [uc Hu].
  destruct (wi_vm_cover _ _ _ H _ _ Hu) as [(x & Hx & ?)|?]; [congruence|done].
Qed.

Lemma keepOrDelete_pwp w e e' empty :
  winv LN LV w → ledger w !! vm = Some e → eVMID e' = vm →
  (eNetCIDR e' = eNetCIDR e ∨ eNetCIDR e' = "" ∧ nets w !! vm = None) →
  (ePID e' = ePID e ∧ eUID e' = eUID e ∧ eCID e' = eCID e ∧ eBootID e' = eBootID e ∨
   ePID e' = 0 ∧ vmms w !! vm = None) →
  (empty = true → nets w !! vm = None ∧ vmms w !! vm = None) →
  pwp LN LV (keepOrDelete vm empty e') w (fin LN LV).
Proof.
  intros Hw Hl Evm Hn Hv He. unfold keepOrDelete.
  assert (∀ c (o : option VMEntry), (∀ w r w', callStep c w r w' →
      w' = on_ledger (partial_alter (λ _, o) vm) w ∨ w' = w) →
    (o = Some e' ∨ o = None ∧ empty = true) →
    ∀ k, pwp LN LV (call c ≫= λ r, mret (k r)) w (fin LN LV)) as Hcall.
  { intros c o Hc Ho k. pcall r w1 w2 Hs. destruct (Hc _ _ _ Hs) as [->| ->]; [|by auto].
    apply keep_end. match goal with H1 : ledger _ = _, H2 : nets _ = _ |- _ => rewrite <- H1 in Hl; rewrite <- H2 in Hn, He end.
    assert (vmms w !! vm = None → vmms w1 !! vm = None) as Hvm by (intros; eauto using lookup_weaken_None).
    eapply winv_entry; [done..| | |].
    - intros x ->. destruct Ho as [[= ->]|[? _]]; [|done]. split; [done|]. split; naive_solver.
    - destruct Ho as [->|[-> E]]; [|right; by apply He]. destruct Hn as [?|[_ ?]]; [left; eauto|by right].
    - destruct Ho as [->|[-> E]]; [|right; apply Hvm; by apply He]. destruct Hv as [[? _]|[_ ?]]; [left; eauto|by right; auto]. }
  destruct empty.
  - apply (Hcall (LDelete vm) None); [|by right]. intros w0 r w' [->|[_ ->]]; auto.
  - apply (Hcall (LPut e') (Some e')); [|by left]. intros w0 r w' [->|[_ ->]]; [left|by right].
    by rewrite Evm.
Qed.

Lemma withEntry_pwp id next w :
  winv LN LV w → (∀ x, id = Some x → x = vm) →
  (∀ w e, winv LN LV w → ledger w !! vm = Some e → eVMID e = vm → pwp LN LV (next vm e) w (fin LN LV)) →
  pwp LN LV (withEntry id next) w (fin LN LV).
Proof.
  intros Hw Hid Hnext. unfold withEntry. destruct id as [x|]; [|by auto].
  rewrite (Hid _ eq_refl). destruct (negb _); [by auto|].
  pcall g w1 w2 (-> & Hg). destruct g as [e| |]; [|by auto..]. destruct Hg as [Hl _].
  apply Hnext; [done..|]. by apply (wi_keys _ _ _ Hw).
Qed.

(** A host that loses something of a VM without a claim. *)
Lemma winv_lose w w' :
  winv LN LV w → ledger w' = ledger w → nets w' ⊆ nets w → vmms w' ⊆ vmms w →
  hostBoot w' = hostBoot w → winv LN LV w'.
Proof.
  intros H E1 E2 E3 E4. pose proof H as [K _ _ _ _ N3 V3].
  eapply (winv_shrink _ _ _ _ w); [exact H|done..| | |]; rewrite ?E1.
  - intros u e He. exists e. split; [done|]. split; [by apply K|auto 10].
  - intros u c Hu. eapply N3, lookup_weaken; eauto.
  - intros u uc Hu. eapply V3, lookup_weaken; eauto.
Qed.

Lemma release_network_pwp raw w :
  winv LN LV w → (∀ x, decVM cd raw = Some x → x = vm) →
  pwp LN LV (handleReleaseNetwork cd raw) w (fin LN LV).
Proof.
  intros Hw Hvm. apply withEntry_pwp; [done..|]. clear w Hw. intros w e Hw Hl Evm.
  pcall a w1 w2 Ha. match goal with H : ledger w1 = _ |- _ => rewrite <- H in Hl end.
  assert (winv LN LV w2) as Hw2.
  { destruct Ha as [->|[_ ->]]; [|done]. eapply winv_lose; [exact Hw|done|apply delete_subseteq|done..]. }
  destruct a as [err|]; [by auto|]. destruct Ha as [->|[? _]]; [|done].
  eapply (keepOrDelete_pwp _ e); cbn [eVMID eNetCIDR ePID eUID eCID eBootID withNetCIDR]; try done.
  - right. split; [done|]. cbn. by rewrite Evm, lookup_delete_eq.
  - auto.
  - intros Ep%Z.eqb_eq. cbn. rewrite Evm, lookup_delete_eq. split; [done|]. by apply (no_process _ e).
Qed.

Lemma signal_pwp raw w :
  winv LN LV w → (∀ r, decSignal cd raw = Some r → sgVMID r = vm) →
  pwp LN LV (handleSignalVM cd raw) w (fin LN LV).
Proof.
  intros Hw Hvm. apply withEntry_pwp; [done| |].
  - intros x Hx. destruct (decSignal cd raw); naive_solver.
  - clear w Hw. intros w e Hw Hl Evm. pcall a w1 w2 Ha.
    assert (winv LN LV w2) as Hw2.
    { destruct Ha as [->|[_ ->]]; [|done]. eapply winv_lose; [exact Hw|done|done|apply delete_subseteq|done]. }
    destruct a; auto.
Qed.

(** A process that is not alive is not there. *)
Lemma entryAlive_pwp e w Q :
  winv LN LV w → ledger w !! vm = Some e → eVMID e = vm →
  (∀ a w', drift w w' → winv LN LV w' → (a = Some false → vmms w' !! vm = None) → Q a w') →
  pwp LN LV (entryAlive e) w Q.
Proof.
  intros Hw Hl Evm HQ. unfold entryAlive. destruct (ePID e =? 0) eqn:Ep.
  { apply pwp_ret; [done|]. intros w' Hd Hw'. apply HQ; [done..|]. intros _.
    apply (no_process _ e); [done| |by apply Z.eqb_eq]. destruct Hd as (E & _). congruence. }
  apply Z.eqb_neq in Ep. destruct (_ || _); [apply pwp_ret; [done|]; intros; by apply HQ|].
  apply pwp_step; [done|]. intros w1 i w2 Hd Hw1 (-> & Hi).
  assert (ledger w1 !! vm = Some e) as Hl1 by (destruct Hd as (-> & _); done).
  assert (∀ a w', drift w1 w' → winv LN LV w' → (a = Some false → vmms w' !! vm = None) → Q a w') as HQ1.
  { intros a w' Hd'. apply HQ. etrans; [exact Hd|done]. }
  destruct i as [[boot ns]|]; [|apply pwp_ret; [done|]; intros; by apply HQ1].
  rewrite (Hi _ _ eq_refl). destruct (eBootID e =? hostBoot w1)%string eqn:Eb; cbn [negb].
  - destruct (negb _); [apply pwp_ret; [done|]; intros; by apply HQ1|].
    apply pwp_step; [done|]. intros w2 a w3 Hd2 Hw2 (-> & Ha). apply pwp_ret; [done|]. intros w' Hd' Hw'.
    apply HQ1; [etrans; [exact Hd2|done]|done|]. intros ->.
    destruct Hd2 as (E2 & _), Hd' as (_ & _ & Hs & _). eapply lookup_weaken_None; [|done].
    rewrite <- Evm. apply Ha; [done|]. congruence.
  - apply pwp_ret; [done|]. intros w' Hd' Hw'. apply HQ1; [done..|]. intros _.
    apply eq_None_not_Some. intros [uc Hu]. destruct Hd' as (E1 & _ & _ & E4). rewrite <- E1 in Hl1.
    destruct (wi_vm_same _ _ _ Hw' _ _ _ Hu Hl1 Ep) as [_ E]. apply String.eqb_neq in Eb. congruence.
Qed.

Lemma release_vm_pwp raw w :
  winv LN LV w → (∀ x, decVM cd raw = Some x → x = vm) →
  pwp LN LV (handleReleaseVM cd raw) w (fin LN LV).
Proof.
  intros Hw Hvm. apply withEntry_pwp; [done..|]. clear w Hw. intros w e Hw Hl Evm.
  apply pwp_bind, entryAlive_pwp; [done..|]. intros a w1 Hd Hw1 Ha. cbn beta.
  assert (ledger w1 !! vm = Some e) as Hl1 by (destruct Hd as (-> & _); done).
  destruct a as [[]|]; [by auto| |by auto]. specialize (Ha eq_refl).
  pcall b w2 w3 ->. destruct b as [err|]; [by auto|].
  assert (vmms w2 !! vm = None) by (eauto using lookup_weaken_None).
  eapply (keepOrDelete_pwp _ e); cbn [eVMID eNetCIDR ePID eUID eCID eBootID vmReleased]; try done.
  - congruence.
  - by left.
  - by right.
  - intros En%String.eqb_eq. split; [|done]. apply eq_None_not_Some. intros [c Hc].
    destruct (wi_net_cover _ _ _ Hw1 _ _ Hc) as [(x & Hx & E1 & E2)|?]; [|done].
    assert (x = e) as -> by congruence. congruence.
Qed.

End release.

(** ** Every verb *)

(** The operations on a VM that an operation may leave half done. *)
Definition owned (verb : string) (req : Request) (vm : string) : Prop :=
  Verb req = verb ∧ operationVMID cd req = vm.

(** The fields of one JSON object do not depend on which of them are asked for. *)
Record codecOk : Prop := {
  co_allocate : ∀ raw r, decAllocate cd raw = Some r → decVM cd raw = Some (anVMID r);
  co_start : ∀ raw r, decStart cd raw = Some r → decVM cd raw = Some (svVMID r);
  co_signal : ∀ raw r, decSignal cd raw = Some r → decVM cd raw = Some (sgVMID r) }.

Lemma execute_pwp (LN LV : string → Prop) req w :
  codecOk → winv LN LV w →
  (Verb req = "allocate_network" ∨ Verb req = "start_vm" → ∀ vm, ¬ LN vm ∧ ¬ LV vm) →
  ¬ LN (operationVMID cd req) → ¬ LV (operationVMID cd req) →
  pwp (λ vm, LN vm ∨ owned "allocate_network" req vm) (λ vm, LV vm ∨ owned "start_vm" req vm)
    (execute cd cfg req) w (fin LN LV).
Proof.
  intros [C1 C2 C3] Hw Hclaim HN HV. unfold owned, operationVMID in *.
  assert (Hmono : ∀ LN0 LV0 BN BV (P : Prog Response) w, pwp LN0 LV0 P w (fin BN BV) →
    (∀ vm, LN0 vm → LN vm ∨ Verb req = "allocate_network" ∧ default "" (decVM cd (Payload req)) = vm) →
    (∀ vm, LV0 vm → LV vm ∨ Verb req = "start_vm" ∧ default "" (decVM cd (Payload req)) = vm) →
    (∀ vm, BN vm → LN vm) → (∀ vm, BV vm → LV vm) →
    pwp (λ vm, LN vm ∨ Verb req = "allocate_network" ∧ default "" (decVM cd (Payload req)) = vm)
        (λ vm, LV vm ∨ Verb req = "start_vm" ∧ default "" (decVM cd (Payload req)) = vm)
        P w (fin LN LV)).
  { intros LN0 LV0 BN BV P w0 H A1 A2 A3 A4. eapply pwp_mono; [exact A1|exact A2| |exact H].
    intros r w1 Hf Hu. eapply winv_mono; [exact A3|exact A4|by apply Hf]. }
  unfold execute. apply pwp_step; [eapply winv_mono; [| |exact Hw]; auto|].
  intros w1 c w2 Hd _ ->. apply (winv_drift _ _ _ _ Hd) in Hw. clear Hd w.
  destruct c as [err|]; [eapply pwp_fin; auto|].
  assert (Verb req = "allocate_network" ∨ Verb req = "start_vm" → winv none none w1) as Hnone.
  { intros Hv. eapply winv_mono; [| |exact Hw]; intros x Hx; destruct (Hclaim Hv x); done. }
  destruct (Verb req =? "allocate_network")%string eqn:E1.
  { apply String.eqb_eq in E1. eapply Hmono; [apply allocate_pwp; [auto|]|naive_solver|by intros ? []..].
    intros r Hr. by rewrite (C1 _ _ Hr). }
  destruct (Verb req =? "release_network")%string.
  { eapply (Hmono LN LV LN LV); [|auto..]. eapply release_network_pwp; try exact Hw; try done.
    intros x ->. done. }
  destruct (Verb req =? "start_vm")%string eqn:E2.
  { apply String.eqb_eq in E2. eapply Hmono; [apply start_pwp; [auto|]|by intros ? []|naive_solver|by intros ? []..].
    intros r Hr. by rewrite (C2 _ _ Hr). }
  destruct (Verb req =? "signal_vm")%string.
  { eapply (Hmono LN LV LN LV); [|auto..]. apply (signal_pwp LN LV (default "" (decVM cd (Payload req)))); [done|].
    intros r Hr. by rewrite (C3 _ _ Hr). }
  destruct (Verb req =? "release_vm")%string; [|by apply pwp_fin; auto].
  eapply (Hmono LN LV LN LV); [|auto..]. eapply release_vm_pwp; try exact Hw; try done.
  intros x ->. done.
Qed.

End handlers.

End PrivdSafe.
