(* ===== verification/PrivdSystem.v ===== *)
(** The privileged daemon as a system: its journal across restarts, and the host
    identities it hands out. *)

From S2P Require Import Prelude Privd PrivdSafe.
Import Privd PrivdSafe.

Local Open Scope Z_scope.

Module PrivdSystem.

Section system.
Context (cd : Codec) (cfg : ServerCfg).

Definition unresolved (r : operationRecord) : Prop := oState r = Pending ∨ oState r = Unknown.

#[local] Instance unresolved_dec r : Decision (unresolved r).
Proof. unfold unresolved. destruct (oState r); first [left; by auto|right; by intros [|]]. Defined.

(** * The journal *)

(** What every recorded request passed. *)
Definition admissible (req : Request) : Prop :=
  ValidVMID (OpID req) = true ∧ Verb req ≠ "network_leases" ∧ Verb req ≠ "query_operation".

Record jinv (s : Server) : Prop := {
  ji_keys : ∀ op r, opfiles s !! op = Some r → OpID (oRequest r) = op;
  ji_verb : ∀ op r, opfiles s !! op = Some r →
    admissible (oRequest r);
  ji_resp : ∀ op r, opfiles s !! op = Some r → unresolved r ↔ oResponse r = None;
  ji_same : journal s = true → records s = opfiles s;
  ji_queue : ∀ op, op ∈ queue s → (op ∉ begun s) ∧
    ∃ r, records s !! op = Some r ∧ opfiles s !! op = Some r ∧ oState r = Pending;
  ji_running : ∀ op P, running s = Some (op, P) → (op ∉ queue s) ∧
    ∃ r, records s !! op = Some r ∧ opfiles s !! op = Some r ∧ oState r = Pending;
  ji_begun : NoDup (begun s) ∧ ∀ op, op ∈ begun s → is_Some (opfiles s !! op)
}.

(** What a record may become: a settled one stays. *)
Definition forward (r r' : operationRecord) : Prop := r' = r ∨ unresolved r ∧ oRequest r' = oRequest r.

(** What the recovery of a record shows. *)
Definition netRecorded (w : World) (vm : string) : Prop :=
  ∃ e, ledger w !! vm = Some e ∧ eNetCIDR e ≠ "".
Definition vmRecorded (w : World) (vm : string) : Prop :=
  ∃ e, ledger w !! vm = Some e ∧ ePID e ≠ 0.

Lemma recover_spec w readable r :
  let r' := recoverCommittedOperation cd w readable r in
  r' = r ∨
  oRequest r' = oRequest r ∧ oState r' = Succeeded ∧ is_Some (oResponse r') ∧
  (∀ vm, owned cd "allocate_network" (oRequest r) vm → netRecorded w vm) ∧
  (∀ vm, owned cd "start_vm" (oRequest r) vm → vmRecorded w vm).
Proof.
  unfold recoverCommittedOperation, witness. cbn zeta.
  destruct (negb _); [by left|]. destruct (ledger w !! _) as [e|] eqn:He; [|by left].
  destruct (readable && _); [|by left].
  destruct (Verb (oRequest r) =? "start_vm")%string eqn:Es.
  - apply String.eqb_eq in Es. destruct (_ || _) eqn:Eg; [by left|]. right.
    apply orb_false_iff in Eg as [_ Ep%Z.leb_gt]. cbn. unfold owned, netRecorded, vmRecorded.
    split_and!; [done|done|by eauto|..]; intros vm [Ev <-]; [congruence|]. exists e. split; [done|lia].
  - destruct (Verb (oRequest r) =? "allocate_network")%string eqn:Ea; [|by left].
    apply String.eqb_eq in Ea. apply String.eqb_neq in Es. destruct (_ || _) eqn:Eg; [by left|]. right.
    apply orb_false_iff in Eg as [_ Ep%String.eqb_neq]. cbn. unfold owned, netRecorded, vmRecorded.
    split_and!; [done|done|by eauto|..]; intros vm [Ev <-]; [|congruence]. by exists e.
Qed.

(** ** Saving one record *)

Lemma saveOperation_other a r files op :
  op ≠ OpID (oRequest r) → saveOperation a r files !! op = files !! op.
Proof. intros. destruct a as [|[]]; cbn; by rewrite ?lookup_insert_ne. Qed.

Lemma saveOperation_lookup a r files op x :
  OpID (oRequest r) = op → saveOperation a r files !! op = Some x → x = r ∨ files !! op = Some x ∧ saved a = false.
Proof. intros <-. destruct a as [|[]]; cbn; rewrite ?lookup_insert_eq; naive_solver. Qed.

(** A save changes one record for one that can stand in its place. *)
Lemma jinv_save s a r files' rs' j' q' run' b' :
  jinv s → files' = saveOperation a r (opfiles s) → admissible (oRequest r) →
  (unresolved r ↔ oResponse r = None) →
  (j' = true → journal s = true ∧ saved a = true ∧ rs' = <[OpID (oRequest r) := r]> (records s)) →
  (∀ op, op ∈ q' → (op ∉ b') ∧
    ∃ r, rs' !! op = Some r ∧ files' !! op = Some r ∧ oState r = Pending) →
  (∀ op P, run' = Some (op, P) → (op ∉ q') ∧
    ∃ r, rs' !! op = Some r ∧ files' !! op = Some r ∧ oState r = Pending) →
  b' = begun s →
  jinv (mkServer (world s) files' rs' j' q' run' b').
Proof.
  intros [K Vb Rs Sm Q R [B1 B2]] -> Hv Hr Hj Hq Hrun ->.
  assert (∀ op x, saveOperation a r (opfiles s) !! op = Some x →
    op = OpID (oRequest r) ∧ x = r ∨ opfiles s !! op = Some x) as Hx.
  { intros op x H. destruct (decide (op = OpID (oRequest r))) as [->|Hne].
    - apply saveOperation_lookup in H as [->|[H _]]; auto.
    - rewrite saveOperation_other in H by done. auto. }
  split; cbn; try done.
  - intros op x [[-> ->]|H]%Hx; eauto.
  - intros op x [[-> ->]|H]%Hx; eauto.
  - intros op x [[-> ->]|H]%Hx; eauto.
  - intros Ej. destruct (Hj Ej) as (E1 & E2 & ->). rewrite (Sm E1). by destruct a.
  - split; [done|]. intros op Hop. destruct (B2 _ Hop) as [x Hop'].
    destruct (decide (op = OpID (oRequest r))) as [->|Hne].
    + destruct a as [|[]]; cbn; rewrite ?lookup_insert_eq; eauto.
    + rewrite saveOperation_other by done. eauto.
Qed.

(** A record of the queue, or of the running operation, that a save of another
    leaves alone. *)
Lemma pending_other a x (rs files : gmap string operationRecord) op :
  (∃ r, rs !! op = Some r ∧ files !! op = Some r ∧ oState r = Pending) → op ≠ OpID (oRequest x) →
  (∃ r, <[OpID (oRequest x) := x]> rs !! op = Some r ∧
        saveOperation a x files !! op = Some r ∧ oState r = Pending).
Proof. intros (r & ? & ? & ?) Hne. exists r. by rewrite lookup_insert_ne, saveOperation_other. Qed.

Lemma pending_kept a x (rs files : gmap string operationRecord) op :
  (∃ r, rs !! op = Some r ∧ files !! op = Some r ∧ oState r = Pending) → op ≠ OpID (oRequest x) →
  (∃ r, rs !! op = Some r ∧ saveOperation a x files !! op = Some r ∧ oState r = Pending).
Proof. intros (r & ? & ? & ?) Hne. exists r. by rewrite saveOperation_other. Qed.

(** ** Each step *)

Lemma jinv_admit req a s r s' :
  jinv s → Verb req ≠ "network_leases" → Verb req ≠ "query_operation" →
  admitMutation cd req a s = (r, s') → jinv s'.
Proof.
  intros H Hv1 Hv2. unfold admitMutation. destruct (ValidVMID (OpID req)) eqn:Ev; cbn [negb]; [|by intros [= _ <-]].
  destruct (journal s) eqn:Ej; cbn [negb]; [|by intros [= _ <-]].
  destruct (records s !! OpID req) as [old|] eqn:Eo; [by intros [= _ <-]|].
  destruct (blocked _ _ _); [by intros [= _ <-]|]. pose proof H as [K Vb Rs Sm Q R [B1 B2]].
  assert (∀ op, (∃ r, records s !! op = Some r ∧ opfiles s !! op = Some r ∧ oState r = Pending) → op ≠ OpID req)
    as Hne by naive_solver.
  assert (OpID req ∉ begun s) as Hnb by (intros Hb; destruct (B2 _ Hb); rewrite <- Sm in *; naive_solver).
  assert (unresolved (mkRecord req Pending None) ↔ @None Response = None) by (unfold unresolved; naive_solver).
  destruct (saved a) eqn:Ea; intros [= _ <-]; eapply (jinv_save s a (mkRecord req Pending None)); try done.
  - intros op [->%elem_of_singleton|Hop]%elem_of_union.
    + split; [done|]. exists (mkRecord req Pending None). destruct a as [|[]]; try done. cbn.
      by rewrite !lookup_insert_eq.
    + destruct (Q _ Hop) as [? Hp]. split; [done|]. apply (pending_other _ (mkRecord req Pending None)); auto.
  - intros op P Hrun. destruct (R _ _ Hrun) as [? Hp]. split.
    + apply not_elem_of_union. split; [|done]. apply not_elem_of_singleton. by apply Hne.
    + apply (pending_other _ (mkRecord req Pending None)); auto.
  - intros op Hop. destruct (Q _ Hop) as [? Hp]. split; [done|]. apply pending_kept; auto.
  - intros op P Hrun. destruct (R _ _ Hrun) as [? Hp]. split; [done|]. apply pending_kept; auto.
Qed.

Lemma begin_inv op s s' :
  begin cd cfg op s = Some s' → running s = None ∧ op ∈ queue s ∧ ∃ r P b,
    records s !! op = Some r ∧
    s' = mkServer (world s) (opfiles s) (records s) (journal s) (queue s ∖ {[op]}) (Some (op, P)) b ∧
    (P = Ret (errResp "invalid_state") ∧ b = begun s ∨
     P = execute cd cfg (oRequest r) ∧ b = begun s ++ [op] ∧
     journal s = true ∧ blocked cd (oRequest r) (records s) = false).
Proof.
  unfold begin. destruct (running s); [done|]. destruct (records s !! op) as [r|]; [|done].
  destruct (decide (op ∈ queue s)) as [Hq|]; [|done]. intros [= <-]. split; [done|]. split; [done|].
  destruct (journal s) eqn:Ej; destruct (blocked _ _ _) eqn:Eb; cbn [negb orb]; eauto 12.
Qed.

Lemma jinv_begin op s s' : jinv s → begin cd cfg op s = Some s' → jinv s'.
Proof.
  intros [K Vb Rs Sm Q R [B1 B2]] (Hrun & Hq & r & P & b & Er & -> & Hb)%begin_inv.
  destruct (Q _ Hq) as (Hnb & Hp).
  assert (∀ x, x ∈ b → x ∈ begun s ∨ x = op) as Hin.
  { intros x. destruct Hb as [(_ & ->)|(_ & -> & _)]; [by left|]. by rewrite elem_of_app, list_elem_of_singleton. }
  split; cbn; try done.
  - intros x [Hx Hne]%elem_of_difference. destruct (Q _ Hx) as [? ?]. split; [|done].
    rewrite elem_of_singleton in Hne. intros [?|?]%Hin; done.
  - intros x P' [= -> _]. split; [set_solver|done].
  - split; [|intros x [?| ->]%Hin; [by apply B2|destruct Hp as (? & _ & ? & _); eauto]].
    destruct Hb as [(_ & ->)|(_ & -> & _)]; [done|]. apply NoDup_app. split; [done|].
    split; [|apply NoDup_singleton]. intros x Hx ->%list_elem_of_singleton. done.
Qed.

Lemma settled_spec req resp :
  oRequest (settled req resp) = req ∧
  (uncertain resp = true ∧ settled req resp = mkRecord req Unknown None ∨
   uncertain resp = false ∧ oResponse (settled req resp) = Some resp ∧ ¬ unresolved (settled req resp)).
Proof.
  unfold settled, unresolved. destruct (uncertain resp); [by auto|]. split; [done|right].
  split_and!; [done|done|]. destruct (rOK resp); cbn; naive_solver.
Qed.

Lemma jinv_finish a s resp s' : jinv s → finish a s = Some (resp, s') → jinv s'.
Proof.
  intros H. pose proof H as [K Vb Rs Sm Q R _]. unfold finish.
  destruct (running s) as [[op [out|]]|] eqn:Erun; [|done..].
  destruct (R _ _ eq_refl) as (Hnq & r & Er & Ef & Ep). rewrite Er. pose proof (K _ _ Ef) as Ek.
  destruct (settled_spec (oRequest r) out) as [Hreq Hset].
  assert (unresolved (settled (oRequest r) out) ↔ oResponse (settled (oRequest r) out) = None) as Hr.
  { destruct Hset as [[_ ->]|(_ & -> & ?)]; [unfold unresolved; naive_solver|naive_solver]. }
  pose proof (Vb _ _ Ef) as Hv. rewrite <- Hreq in Hv.
  assert (∀ x, x ∈ queue s → x ≠ OpID (oRequest (settled (oRequest r) out))) as Hne by (rewrite Hreq; naive_solver).
  destruct (saved a) eqn:Ea; intros [= _ <-]; eapply (jinv_save s a (settled (oRequest r) out)); try done.
  - intros Ej. by rewrite Hreq, Ek.
  - intros x Hx. destruct (Q _ Hx) as [? Hp]. split; [done|]. pose proof (pending_other a _ _ _ _ Hp (Hne _ Hx)) as Hg.
    by rewrite Hreq, Ek in Hg.
  - intros x Hx. destruct (Q _ Hx) as [? Hp]. split; [done|]. apply pending_kept; auto.
Qed.

Lemma jinv_recoverOne id readable a s : jinv s → jinv (recoverOne cd id readable a s).
Proof.
  intros H. pose proof H as [K Vb Rs Sm Q R _]. unfold recoverOne. destruct (running s) eqn:Erun; [done|].
  destruct (records s !! id) as [r|] eqn:Er; [|done]. destruct (isUnknown r) eqn:Eu; [|done].
  destruct (journal s) eqn:Ej; [|done]. cbn [andb]. pose proof (recover_spec (world s) readable r) as Hr.
  cbn zeta in Hr. revert Hr. generalize (recoverCommittedOperation cd (world s) readable r). intros r' Hr.
  destruct (isUnknown r') eqn:Eu'; [done|]. destruct Hr as [->|(Hreq & Hst & Hresp & _)]; [congruence|].
  assert (opfiles s !! id = Some r) as Ef by (by rewrite <- Sm). pose proof (K _ _ Ef) as Ek.
  pose proof (Vb _ _ Ef) as Hv. rewrite <- Hreq in Hv.
  assert (unresolved r' ↔ oResponse r' = None) as Hiff
    by (unfold unresolved; destruct Hresp as [? ->]; rewrite Hst; split; [by intros [|]|done]).
  assert (∀ x, x ∈ queue s → x ≠ OpID (oRequest r')) as Hne.
  { intros x Hx ->. destruct (Q _ Hx) as (_ & y & E1 & _ & E2). rewrite Hreq, Ek, Er in E1.
    injection E1 as <-. unfold isUnknown in Eu. by rewrite E2 in Eu. }
  destruct (saved a) eqn:Ea; eapply (jinv_save s a r'); try done.
  - intros _. by rewrite Hreq, Ek.
  - intros x Hx. destruct (Q _ Hx) as [? Hp]. split; [done|]. pose proof (pending_other a _ _ _ _ Hp (Hne _ Hx)) as Hg.
    by rewrite Hreq, Ek in Hg.
  - intros x Hx. destruct (Q _ Hx) as [? Hp]. split; [done|]. apply pending_kept; auto.
Qed.

(** ** Loading *)

(** What a restart makes of a record's file. *)
Definition reloaded (w : World) (r r' : operationRecord) : Prop :=
  r' = r ∨ unresolved r ∧ ∃ readable,
    r' = recoverCommittedOperation cd w readable (mkRecord (oRequest r) Unknown (oResponse r)).

Lemma reloaded_request w r r' : reloaded w r r' → oRequest r' = oRequest r.
Proof.
  intros [->|(_ & readable & ->)]; [done|].
  by destruct (recover_spec w readable (mkRecord (oRequest r) Unknown (oResponse r))) as [->|(-> & _)].
Qed.

(** What loading the records [l] over the files and the table so far ends in. *)
Definition loadPost (w : World) (l : list (string * operationRecord))
    (files rs : gmap string operationRecord)
    (out : bool * gmap string operationRecord * gmap string operationRecord) : Prop :=
  let '(ok, files', rs') := out in
  (∀ id, id ∉ l.*1 → files' !! id = files !! id) ∧
  (∀ id r, (id, r) ∈ l → ∃ r', files' !! id = Some r' ∧ reloaded w r r' ∧
     (ok = true → rs' !! id = Some r' ∧ oState r' ≠ Pending)) ∧
  (ok = true → ∀ id, id ∉ l.*1 → rs' !! id = rs !! id).

Definition loadPre (l : list (string * operationRecord)) (files : gmap string operationRecord) : Prop :=
  NoDup l.*1 ∧ ∀ id r, (id, r) ∈ l → files !! id = Some r ∧ OpID (oRequest r) = id.

Lemma loadPre_cons id r l files :
  loadPre ((id, r) :: l) files →
  loadPre l files ∧ (id ∉ l.*1) ∧ files !! id = Some r ∧ OpID (oRequest r) = id.
Proof.
  intros [Hnd Hl]. rewrite fmap_cons, NoDup_cons in Hnd. destruct Hnd as [Hid Hnd].
  split; [split; [done|]|split; [done|]].
  - intros x y Hx. by apply Hl, list_elem_of_further.
  - apply Hl, list_elem_of_here.
Qed.

Lemma load_fail w id r l files rs rs' (f : gmap string operationRecord) r' :
  loadPre ((id, r) :: l) files → (∀ x, x ≠ id → f !! x = files !! x) → f !! id = Some r' →
  reloaded w r r' → loadPost w ((id, r) :: l) files rs (false, f, rs').
Proof.
  intros ([Hnd Hl] & Hid & _)%loadPre_cons Ho Hf Hr.
  split_and!; [intros x; rewrite fmap_cons; intros [? _]%not_elem_of_cons; by apply Ho| |done].
  intros x y [[= -> ->]|Hx]%elem_of_cons; [by exists r'|]. exists y. rewrite Ho.
  - split; [by apply Hl|]. split; [by left|done].
  - intros ->. by apply Hid, (list_elem_of_fmap_2 fst _ (id, y)).
Qed.

Lemma load_next w id r l files rs out (f : gmap string operationRecord) r' :
  loadPre ((id, r) :: l) files → (∀ x, x ≠ id → f !! x = files !! x) → f !! id = Some r' →
  reloaded w r r' → oState r' ≠ Pending →
  loadPost w l f (<[id := r']> rs) out → loadPost w ((id, r) :: l) files rs out.
Proof.
  intros ([Hnd Hl] & Hid & _)%loadPre_cons Ho Hf Hr Hp. destruct out as [[ok files'] rs'].
  intros (I1 & I2 & I3). split_and!.
  - intros x; rewrite fmap_cons; intros [? ?]%not_elem_of_cons. rewrite I1 by done. by apply Ho.
  - intros x y [[= -> ->]|Hx]%elem_of_cons; [|by apply I2]. exists r'. rewrite I1 by done.
    split; [done|]. split; [done|]. intros Hok. rewrite (I3 Hok) by done. by rewrite lookup_insert_eq.
  - intros Hok x; rewrite fmap_cons; intros [? ?]%not_elem_of_cons. rewrite (I3 Hok) by done.
    by rewrite lookup_insert_ne.
Qed.

Lemma loadPre_next id r l files (f : gmap string operationRecord) :
  loadPre ((id, r) :: l) files → (∀ x, x ≠ id → f !! x = files !! x) → loadPre l f.
Proof.
  intros ([Hnd Hl] & Hid & _)%loadPre_cons Ho. split; [done|]. intros x y Hx. rewrite Ho; [by apply Hl|].
  intros ->. by apply Hid, (list_elem_of_fmap_2 fst _ (id, y)).
Qed.

Lemma loadOperations_spec w ans l files rs :
  loadPre l files → loadPost w l files rs (loadOperations cd w ans l files rs).
Proof.
  revert files rs. induction l as [|[id r] l IH]; intros files rs Hl; cbn [loadOperations].
  { split_and!; [done| |done]. intros id r ?%not_elem_of_nil. done. }
  destruct (loadPre_cons _ _ _ _ Hl) as (_ & _ & Ef & Ek).
  assert (reloaded w r r) as Hself by (by left).
  destruct (ans id) as [|readable a]; [by eapply load_fail|].
  destruct (match oState r with Pending | Unknown => true | _ => false end) eqn:Eu.
  - assert (unresolved r) as Hu by (unfold unresolved; destruct (oState r); auto; done).
    set (x := recoverCommittedOperation cd w readable (mkRecord (oRequest r) Unknown (oResponse r))).
    assert (reloaded w r x) as Hx by (right; eauto).
    assert (OpID (oRequest x) = id) as Ex by (by rewrite (reloaded_request _ _ _ Hx)).
    assert (oState x ≠ Pending) as Hp.
    { destruct (recover_spec w readable (mkRecord (oRequest r) Unknown (oResponse r))) as [E|(_ & E & _)];
        unfold x; rewrite E; done. }
    assert (∀ y, y ≠ id → saveOperation a x files !! y = files !! y) as Ho
      by (intros y Hy; apply saveOperation_other; congruence).
    destruct (saved a) eqn:Ea.
    + eapply (load_next _ _ _ _ _ _ _ _ x); try done; [|by eapply IH, loadPre_next].
      destruct a as [|[]]; try done. cbn. by rewrite Ex, lookup_insert_eq.
    + destruct a as [|[]]; try done; cbn in *; [|by eapply load_fail].
      eapply (load_fail _ _ _ _ _ _ _ _ x); try done. by rewrite Ex, lookup_insert_eq.
  - destruct (oResponse r); [|by eapply load_fail].
    eapply (load_next _ _ _ _ _ _ _ _ r); try done; [by destruct (oState r)|by eapply IH, loadPre_next].
Qed.

Lemma NewServer_spec w ans files b :
  (∀ op r, files !! op = Some r → OpID (oRequest r) = op) →
  let s := NewServer cd w ans files b in
  world s = w ∧ queue s = ∅ ∧ running s = None ∧ begun s = b ∧
  (∀ op, files !! op = None → opfiles s !! op = None) ∧
  (∀ op r, files !! op = Some r → ∃ r', opfiles s !! op = Some r' ∧ reloaded w r r' ∧
     (journal s = true → records s !! op = Some r' ∧ oState r' ≠ Pending)) ∧
  (journal s = true → ∀ op, files !! op = None → records s !! op = None).
Proof.
  intros K. cbn zeta. unfold NewServer.
  assert (loadPre (map_to_list files) files) as Hpre.
  { split; [apply NoDup_fst_map_to_list|]. intros op r ?%elem_of_map_to_list. eauto. }
  pose proof (loadOperations_spec w ans _ _ ∅ Hpre) as Hpost. revert Hpost.
  destruct (loadOperations _ _ _ _ _ _) as [[ok files'] rs']. intros (I1 & I2 & I3). cbn.
  assert (∀ op, files !! op = None → op ∉ (map_to_list files).*1) as Hnone.
  { intros op Hop ([x y] & E & Hx)%list_elem_of_fmap. cbn in E. subst. apply elem_of_map_to_list in Hx. congruence. }
  split_and!; try done.
  - intros op Hop. by rewrite I1 by auto.
  - intros op r Hop. apply I2. by apply elem_of_map_to_list.
  - intros Hok op Hop. rewrite (I3 Hok) by auto. apply lookup_empty.
Qed.

Lemma jinv_NewServer w ans s :
  jinv s → jinv (NewServer cd w ans (opfiles s) (begun s)).
Proof.
  intros [K Vb Rs Sm Q R [B1 B2]].
  destruct (NewServer_spec w ans (opfiles s) (begun s) K) as (E1 & E2 & E3 & E4 & H1 & H2 & H3).
  assert (∀ op x, opfiles (NewServer cd w ans (opfiles s) (begun s)) !! op = Some x →
    ∃ r, opfiles s !! op = Some r ∧ reloaded w r x) as Hx.
  { intros op x Hop. destruct (opfiles s !! op) as [r|] eqn:Er; [|rewrite H1 in Hop; done].
    destruct (H2 _ _ Er) as (x' & Hx' & ? & _). exists r. split; [done|]. congruence. }
  split.
  - intros op x (r & Er & Hr)%Hx. rewrite (reloaded_request _ _ _ Hr). eauto.
  - intros op x (r & Er & Hr)%Hx. rewrite (reloaded_request _ _ _ Hr). eauto.
  - intros op x (r & Er & [->|(Hu & readable & ->)])%Hx; [eauto|].
    destruct (recover_spec w readable (mkRecord (oRequest r) Unknown (oResponse r))) as [->|(_ & E & [y Hy] & _)].
    + cbn. apply Rs in Er. unfold unresolved at 1; cbn. naive_solver.
    + unfold unresolved. rewrite E, Hy. split; [by intros [|]|done].
  - intros Hj. apply map_eq. intros op. destruct (opfiles s !! op) as [r|] eqn:Er.
    + destruct (H2 _ _ Er) as (x & -> & _ & Hok). by apply Hok.
    + by rewrite (H1 _ Er), (H3 Hj _ Er).
  - rewrite E2. by intros op ?%elem_of_empty.
  - by rewrite E3.
  - rewrite E4. split; [done|]. intros op Hop. destruct (B2 _ Hop) as [r Hr].
    destruct (H2 _ _ Hr) as (x & -> & _). eauto.
Qed.

Lemma dispatch_inv req l readable a s reply s' :
  dispatch cd req l readable a s = (reply, s') →
  s' = s ∨ (∃ id, s' = recoverOne cd id readable a s) ∨
  (Verb req ≠ "network_leases" ∧ Verb req ≠ "query_operation" ∧
   ∃ r, admitMutation cd req a s = (r, s') ∧ reply = match r with Some r => Replied r | None => Queued end).
Proof.
  unfold dispatch. destruct (negb _); [by intros [= _ <-]; auto|].
  destruct (Verb req =? "network_leases")%string eqn:E1; [by intros [= _ <-]; auto|].
  destruct (Verb req =? "query_operation")%string eqn:E2.
  - destruct (decOpID _ _); [|by intros [= _ <-]; auto].
    destruct (ValidVMID _); [|by intros [= _ <-]; auto]. intros [= _ <-]. eauto.
  - destruct (admitMutation cd req a s) as [r s''] eqn:Ea. intros [= <- <-]. right; right.
    apply String.eqb_neq in E1, E2. eauto.
Qed.

Lemma jinv_step e s s' : pstep cd cfg e s s' → jinv s → jinv s'.
Proof.
  intros Hs H. destruct Hs as [req l readable a reply s s' Hd|op s s' Hb|op c k r w' s Hrun Hc|op a r s s' Hrun resp Hf|vm s|ans s|ans boot s Hboot].
  - apply dispatch_inv in Hd as [->|[(id & ->)|(? & ? & r & Ha & _)]]; [done|by apply jinv_recoverOne|].
    by eapply jinv_admit.
  - by eapply jinv_begin.
  - destruct H as [K Vb Rs Sm Q R B]. split; try done. cbn. intros op' P [= <- _]. eauto.
  - by eapply jinv_finish.
  - destruct H as [K Vb Rs Sm Q R B]. by split.
  - by apply jinv_NewServer.
  - by apply jinv_NewServer.
Qed.

Lemma jinv_installed boot : jinv (installed boot).
Proof.
  split; cbn; try done; try (by intros op r ?%lookup_empty_Some); try (by intros op ?%elem_of_empty).
  split; [constructor|]. by intros op ?%not_elem_of_nil.
Qed.

Lemma jinv_steps s es s' : psteps cd cfg s es s' → jinv s → jinv s'.
Proof. induction 1 as [|s es s1 e s2 _ IH Hs]; [done|]. intros H. eapply jinv_step; [done|auto]. Qed.

(** ** A settled record stays *)

Definition files_forward (s s' : Server) : Prop :=
  ∀ op r, opfiles s !! op = Some r → ¬ unresolved r → opfiles s' !! op = Some r.

Lemma forward_save a x s w rs j q run b :
  (∀ r, opfiles s !! OpID (oRequest x) = Some r → unresolved r) →
  files_forward s (mkServer w (saveOperation a x (opfiles s)) rs j q run b).
Proof.
  intros Hx op r Hop Hn. cbn. rewrite saveOperation_other; [done|]. intros ->. by apply Hn, Hx.
Qed.

Lemma forward_step e s s' : jinv s → pstep cd cfg e s s' → files_forward s s'.
Proof.
  intros [K Vb Rs Sm Q R B] Hs. destruct Hs as [req l readable a reply s s' Hd|op s s' Hb|op c k r w' s Hrun Hc|op a r s s' Hrun resp Hf|vm s|ans s|ans boot s Hboot];
    try by intros ?.
  - apply dispatch_inv in Hd as [->|[(id & ->)|(_ & _ & r & Ha & _)]]; [by intros ?| |].
    + unfold recoverOne. destruct (running s); [by intros ?|]. destruct (records s !! id) as [r|] eqn:Er; [|by intros ?].
      destruct (isUnknown r) eqn:Eu; [|by intros ?]. destruct (journal s) eqn:Ej; [|by intros ?]. cbn [andb].
      destruct (isUnknown (recoverCommittedOperation _ _ _ _)); [by intros ?|].
      assert (∀ r0, opfiles s !! OpID (oRequest (recoverCommittedOperation cd (world s) readable r)) = Some r0 → unresolved r0) as Hx.
      { intros r0. rewrite Sm in Er by done. pose proof (K _ _ Er) as Ek.
        assert (oRequest (recoverCommittedOperation cd (world s) readable r) = oRequest r) as ->
          by (by destruct (recover_spec (world s) readable r) as [->|(-> & _)]).
        rewrite Ek, Er. intros [= <-]. right. unfold isUnknown in Eu. by destruct (oState r). }
      destruct (saved a); by apply forward_save.
    + revert Ha. unfold admitMutation. destruct (negb (ValidVMID _)); [by intros [= _ <-] ???|].
      destruct (journal s) eqn:Ej; cbn [negb]; [|by intros [= _ <-] ???].
      destruct (records s !! OpID req) as [old|] eqn:Eo; [by intros [= _ <-] ???|].
      destruct (blocked _ _ _); [by intros [= _ <-] ???|]. rewrite Sm in Eo by done.
      destruct (saved a); intros [= _ <-]; apply forward_save; cbn; congruence.
  - apply begin_inv in Hb as (_ & _ & r & P & b & _ & -> & _). by intros ???.
  - revert Hf. unfold finish. rewrite Hrun. destruct (R _ _ Hrun) as (_ & x & Er & Ef & Ep). rewrite Er.
    assert (∀ r0, opfiles s !! OpID (oRequest (settled (oRequest x) r)) = Some r0 → unresolved r0) as Hx.
    { intros r0. destruct (settled_spec (oRequest x) r) as [-> _]. rewrite (K _ _ Ef), Ef. intros [= <-]. by left. }
    destruct (saved a); intros [= _ <-]; by apply forward_save.
  - intros op r Hop Hn. destruct (NewServer_spec (world s) ans (opfiles s) (begun s) K) as (_ & _ & _ & _ & _ & H2 & _).
    by destruct (H2 _ _ Hop) as (x & Hx & [->|(? & _)] & _).
  - intros op r Hop Hn. destruct (NewServer_spec (mkWorld (ledger (world s)) ∅ ∅ boot) ans (opfiles s) (begun s) K) as (_ & _ & _ & _ & _ & H2 & _).
    by destruct (H2 _ _ Hop) as (x & Hx & [->|(? & _)] & _).
Qed.

Lemma forward_steps s es s' : psteps cd cfg s es s' → jinv s → files_forward s s'.
Proof.
  induction 1 as [|s es s1 e s2 H IH Hs]; intros Hj op r Hop Hn; [done|].
  eapply forward_step; [|done| |done]; [by eapply jinv_steps|]. by apply IH.
Qed.

(** * The host *)

(** What the ledger records needs no other owner. *)
Lemma winv_trim LN LV w :
  winv LN LV w → winv (λ vm, LN vm ∧ ¬ netRecorded w vm) (λ vm, LV vm ∧ ¬ vmRecorded w vm) w.
Proof.
  intros [K N1 V1 N2 V2 N3 V3]. split; try done.
  - intros vm c Hc. destruct (N3 _ _ Hc) as [?|HL]; [by left|].
    destruct (ledger w !! vm) as [e|] eqn:He.
    + destruct (decide (eNetCIDR e = "")) as [E|E].
      * right. split; [done|]. intros (x & Hx & ?). congruence.
      * left. pose proof (N1 _ _ _ Hc He E) as <-. eauto.
    + right. split; [done|]. intros (x & Hx & ?). congruence.
  - intros vm uc Hc. destruct (V3 _ _ Hc) as [?|HL]; [by left|].
    destruct (ledger w !! vm) as [e|] eqn:He.
    + destruct (decide (ePID e = 0)) as [E|E].
      * right. split; [done|]. intros (x & Hx & ?). congruence.
      * left. eauto.
    + right. split; [done|]. intros (x & Hx & ?). congruence.
Qed.

Lemma winv_reboot LN LV LN' LV' w boot :
  winv LN LV w → winv LN' LV' (mkWorld (ledger w) ∅ ∅ boot).
Proof.
  intros [K N1 V1 N2 V2 N3 V3].
  assert (∀ vm c, holdsNet (mkWorld (ledger w) ∅ ∅ boot) vm c → holdsNet w vm c) as HN.
  { intros vm c [H|H]; [cbn in H; by rewrite lookup_empty in H|by right]. }
  assert (∀ vm uc, holdsVM (mkWorld (ledger w) ∅ ∅ boot) vm uc → holdsVM w vm uc) as HV.
  { intros vm uc [H|H]; [cbn in H; by rewrite lookup_empty in H|by right]. }
  split; cbn; eauto; intros *; by rewrite lookup_empty.
Qed.

(** An operation whose effects are not settled: it runs, or nothing says how it ended. *)
Definition suspect (s : Server) (op : string) : Prop :=
  (∃ P, running s = Some (op, P)) ∨
  (op ∉ queue s) ∧ (journal s = false ∨ ∃ r, records s !! op = Some r ∧ isUnknown r = true).
Definition claims (s : Server) (verb op vm : string) : Prop :=
  suspect s op ∧ ∃ r, opfiles s !! op = Some r ∧ unresolved r ∧ owned cd verb (oRequest r) vm.
Definition loose (s : Server) (verb vm : string) : Prop := ∃ op, claims s verb op vm.

Definition winvs (s : Server) : Prop :=
  match running s with
  | None => winv (loose s "allocate_network") (loose s "start_vm") (world s)
  | Some (op, P) => ∃ (LN LV : string → Prop) r, records s !! op = Some r ∧
      (∀ vm, LN vm → ∃ op', op' ≠ op ∧ claims s "allocate_network" op' vm) ∧
      (∀ vm, LV vm → ∃ op', op' ≠ op ∧ claims s "start_vm" op' vm) ∧
      pwp (λ vm, LN vm ∨ owned cd "allocate_network" (oRequest r) vm)
          (λ vm, LV vm ∨ owned cd "start_vm" (oRequest r) vm) P (world s) (fin LN LV)
  end.

Lemma winvs_loose s :
  jinv s → winvs s → winv (loose s "allocate_network") (loose s "start_vm") (world s).
Proof.
  intros [_ _ _ _ _ R _]. unfold winvs. destruct (running s) as [[op P]|] eqn:Erun; [|done].
  intros (LN & LV & r & Er & HN & HV & Hp). destruct (R _ _ eq_refl) as (_ & r' & E1 & E2 & E3).
  assert (r' = r) as -> by congruence.
  assert (∀ verb vm, owned cd verb (oRequest r) vm → claims s verb op vm) as Hown.
  { intros verb vm Ho. split; [left; eauto|]. exists r. split; [done|]. split; [by left|done]. }
  eapply winv_mono; [| |by eapply pwp_ok].
  - intros vm [(op' & _ & ?)%HN|?%Hown]; by eexists.
  - intros vm [(op' & _ & ?)%HV|?%Hown]; by eexists.
Qed.

(** A claim that the rest of a step leaves alone. *)
Lemma claims_frame s s' verb op vm :
  claims s verb op vm → opfiles s' !! op = opfiles s !! op → records s' !! op = records s !! op →
  (op ∈ queue s' → op ∈ queue s) → (journal s = false → journal s' = false) →
  (∀ P, running s = Some (op, P) → ∃ P', running s' = Some (op, P')) → claims s' verb op vm.
Proof.
  intros [Hsus (r & Hr)] E1 E2 Hq Hj Hrun. split; [|exists r; by rewrite E1].
  destruct Hsus as [(P & HP)|(Hnq & H)]; [left; eauto|]. right. split; [by intros ?%Hq|].
  rewrite E2. naive_solver.
Qed.

Lemma winvs_frame s s' :
  (∀ op verb vm, claims s verb op vm → claims s' verb op vm) → world s' = world s →
  running s' = running s → (∀ op r P, running s = Some (op, P) → records s !! op = Some r → records s' !! op = Some r) →
  winvs s → winvs s'.
Proof.
  intros Hc Ew Er Hrec. unfold winvs. rewrite Er, Ew. destruct (running s) as [[op P]|].
  - intros (LN & LV & r & Hr & HN & HV & Hp). exists LN, LV, r. split; [by eapply Hrec|].
    split; [|split]; [naive_solver..|done].
  - eapply winv_mono; intros vm [op ?]; exists op; auto.
Qed.

(** ** Each step *)

Context (Hcd : codecOk cd).

Lemma winvs_admit req a s r s' : jinv s → admitMutation cd req a s = (r, s') → winvs s → winvs s'.
Proof.
  intros [K Vb Rs Sm Q R _]. unfold admitMutation. destruct (negb (ValidVMID _)); [by intros [= _ <-]|].
  destruct (journal s) eqn:Ej; cbn [negb]; [|by intros [= _ <-]].
  destruct (records s !! OpID req) as [old|] eqn:Eo; [by intros [= _ <-]|].
  destruct (blocked _ _ _); [by intros [= _ <-]|]. 
  assert (∀ op verb vm, claims s verb op vm → op ≠ OpID req) as Hne.
  { intros op verb vm [_ (x & Hx & _)] ->. rewrite Sm in Eo by done. congruence. }
  destruct (saved a); intros [= _ <-]; apply winvs_frame; cbn; try done.
  - intros op verb vm Hc. pose proof (Hne _ _ _ Hc). eapply claims_frame; [done|..]; cbn; try done.
    + by apply saveOperation_other.
    + by rewrite lookup_insert_ne.
    + set_solver.
    + congruence.
    + intros P ->. eauto.
  - intros op x P _ Hx. rewrite lookup_insert_ne; [done|]. congruence.
  - intros op verb vm Hc. pose proof (Hne _ _ _ Hc). eapply claims_frame; [done|..]; cbn; try done.
    + by apply saveOperation_other.
    + intros P ->. eauto.
Qed.

(** No unresolved operation stands in the way of one that begins. *)
Lemma blocked_false req rs op r :
  blocked cd req rs = false → rs !! op = Some r → isUnknown r = true →
  Verb req ≠ "allocate_network" ∧ Verb req ≠ "start_vm" ∧ operationVMID cd (oRequest r) ≠ operationVMID cd req.
Proof.
  intros Hb%bool_decide_eq_false Hr Hu. assert (blocks cd req r ≠ true) as Hn.
  { intros E. apply Hb. exists op, r. done. }
  unfold blocks in Hn. rewrite Hu in Hn. cbn [andb] in Hn.
  apply not_true_iff_false, orb_false_iff in Hn as [[H1 H2]%orb_false_iff H3].
  by apply String.eqb_neq in H1, H2, H3.
Qed.

Lemma winvs_begin op s s' : jinv s → begin cd cfg op s = Some s' → winvs s → winvs s'.
Proof.
  intros [K Vb Rs Sm Q R _] (Hrun & Hq & r & P & b & Er & -> & Hb)%begin_inv.
  unfold winvs. rewrite Hrun. cbn [running world records]. intros Hw.
  exists (loose s "allocate_network"), (loose s "start_vm"), r. split; [done|].
  assert (∀ verb vm, loose s verb vm → ∃ op', op' ≠ op ∧
    claims (mkServer (world s) (opfiles s) (records s) (journal s) (queue s ∖ {[op]}) (Some (op, P)) b) verb op' vm) as HL.
  { intros verb vm (op' & Hc). exists op'. split.
    - intros ->. destruct Hc as [[(P' & HP)|[Hnq _]] _]; congruence.
    - eapply claims_frame; [done|..]; cbn; try done; [set_solver|]. congruence. }
  split; [by apply HL|]. split; [by apply HL|].
  destruct Hb as [(-> & _)|(-> & _ & Ej & Hb)]; [by apply pwp_fin; auto|].
  assert (∀ verb vm, loose s verb vm → Verb (oRequest r) ≠ "allocate_network" ∧ Verb (oRequest r) ≠ "start_vm" ∧
    vm ≠ operationVMID cd (oRequest r)) as Hu.
  { intros verb vm (op' & Hsus & x & Hx & _ & _ & <-). destruct Hsus as [(P' & HP)|(_ & [?|(y & Hy & Hu)])]; try congruence.
    rewrite Sm in Hy by done. assert (y = x) as -> by congruence. rewrite <- Sm in Hx by done.
    by apply (blocked_false _ _ op' x Hb). }
  apply execute_pwp; [done..| | |].
  - intros Hv vm. split; intros H%Hu; naive_solver.
  - intros (_ & _ & ?)%Hu. done.
  - intros (_ & _ & ?)%Hu. done.
Qed.

Lemma winvs_finish a s resp s' : jinv s → finish a s = Some (resp, s') → winvs s → winvs s'.
Proof.
  intros [K Vb Rs Sm Q R _]. unfold finish, winvs at 1. destruct (running s) as [[op [out|]]|] eqn:Erun; [|done..].
  destruct (R _ _ eq_refl) as (Hnq & r & Er & Ef & Ep). rewrite Er.
  destruct (settled_spec (oRequest r) out) as [Hreq Hset]. pose proof (K _ _ Ef) as Ek.
  set (r' := settled (oRequest r) out) in *. intros Hf (LN & LV & r0 & E0 & HN & HV & Hp).
  assert (r0 = r) as -> by congruence. clear E0. destruct (Hp (world s)) as [Hw Hfin]; [done|].
  assert (∃ rs j, s' = mkServer (world s) (saveOperation a r' (opfiles s)) rs j (queue s) None (begun s) ∧
    (∀ op', op' ≠ op → rs !! op' = records s !! op') ∧ (journal s = false → j = false) ∧
    (j = false ∨ rs !! op = Some r')) as (rs & j & -> & Hrs & Hj & Hop).
  { destruct (saved a) eqn:Ea; injection Hf as _ <-.
    - eexists _, _. split; [done|]. split; [intros; by rewrite lookup_insert_ne|]. split; [done|].
      right. apply lookup_insert_eq.
    - eexists _, _. split; [done|]. split; [done|]. split; [done|]. by left. }
  unfold winvs. cbn [running world].
  set (s' := mkServer _ _ _ _ _ _ _).
  assert (∀ verb op' vm, op' ≠ op → claims s verb op' vm → claims s' verb op' vm) as Hfr.
  { intros verb op' vm Hne Hc. eapply claims_frame; [done|..]; cbn; try done.
    - apply saveOperation_other. rewrite Hreq. congruence.
    - auto.
    - intros P HP. congruence. }
  destruct Hset as [[Hu Hr']|[Hu _]].
  - assert (∀ verb vm, owned cd verb (oRequest r) vm → claims s' verb op vm) as Hown.
    { intros verb vm Ho. split.
      - right. split; [done|]. destruct Hop as [->|Hop]; [by left|right]. exists r'. split; [done|]. by rewrite Hr'.
      - assert (∃ x, saveOperation a r' (opfiles s) !! op = Some x ∧ (x = r' ∨ x = r)) as (x & Hx & E).
        { rewrite Hr'. destruct a as [|[]]; cbn; rewrite ?Ek, ?lookup_insert_eq; eauto. }
        exists x. split; [done|]. destruct E as [->| ->]; [rewrite Hr'; split; [by right|done]|split; [by left|done]]. }
    eapply winv_mono; [| |exact Hw].
    + intros vm [(op' & Hne & Hc)%HN|Ho]; eexists; eauto.
    + intros vm [(op' & Hne & Hc)%HV|Ho]; eexists; eauto.
  - eapply winv_mono; [| |exact (Hfin Hu)].
    + intros vm (op' & Hne & Hc)%HN; eexists; eauto.
    + intros vm (op' & Hne & Hc)%HV; eexists; eauto.
Qed.

(** A record that recovery leaves unresolved, or whose claim the ledger took over. *)
Lemma recover_claim w readable r verb vm :
  (verb = "allocate_network" ∧ ¬ netRecorded w vm ∨ verb = "start_vm" ∧ ¬ vmRecorded w vm) →
  owned cd verb (oRequest r) vm → recoverCommittedOperation cd w readable r = r.
Proof. intros Hv Ho. destruct (recover_spec w readable r) as [?|(_ & _ & _ & H1 & H2)]; [done|]. naive_solver. Qed.

(** The trimmed claims of one state are claims of another. *)
Lemma winvs_trimmed s w s' :
  winv (loose s "allocate_network") (loose s "start_vm") w → running s' = None → world s' = w →
  (∀ verb op vm, (verb = "allocate_network" ∧ ¬ netRecorded w vm ∨ verb = "start_vm" ∧ ¬ vmRecorded w vm) →
     claims s verb op vm → claims s' verb op vm) →
  winvs s'.
Proof.
  intros Hw Hrun <- Hc. unfold winvs. rewrite Hrun. eapply winv_mono; [| |by apply winv_trim].
  - intros vm [[op ?] ?]. exists op. auto.
  - intros vm [[op ?] ?]. exists op. auto.
Qed.

Lemma winvs_recoverOne id readable a s :
  jinv s → winvs s → winvs (recoverOne cd id readable a s).
Proof.
  intros Hj Hw. pose proof (winvs_loose _ Hj Hw) as Hl. destruct Hj as [K Vb Rs Sm Q R _].
  unfold recoverOne. destruct (running s) eqn:Erun; [done|].
  destruct (records s !! id) as [r|] eqn:Er; [|done]. destruct (isUnknown r) eqn:Eu; [|done].
  destruct (journal s) eqn:Ej; [|done]. cbn [andb].
  set (r' := recoverCommittedOperation cd (world s) readable r).
  destruct (isUnknown r') eqn:Eu'; [done|].
  assert (opfiles s !! id = Some r) as Ef by (by rewrite <- Sm).
  assert (oRequest r' = oRequest r) as Hreq by (unfold r'; by destruct (recover_spec (world s) readable r) as [->|(-> & _)]).
  assert (∀ verb op vm, (verb = "allocate_network" ∧ ¬ netRecorded (world s) vm ∨ verb = "start_vm" ∧ ¬ vmRecorded (world s) vm) →
    claims s verb op vm → op ≠ id) as Hne.
  { intros verb op vm Hv [_ (x & Hx & _ & Ho)] ->. assert (x = r) as -> by congruence.
    pose proof (recover_claim _ readable _ _ _ Hv Ho) as E. subst r'. congruence. }
  destruct (saved a); eapply (winvs_trimmed s); try done; intros verb op vm Hv Hc; pose proof (Hne _ _ _ Hv Hc);
    (eapply claims_frame; [done|..]; cbn; try done; try congruence;
     [apply saveOperation_other; rewrite Hreq, (K _ _ Ef); done|..]).
  - by rewrite lookup_insert_ne.
Qed.

Lemma winvs_reload w ans s :
  jinv s → winv (loose s "allocate_network") (loose s "start_vm") w →
  winvs (NewServer cd w ans (opfiles s) (begun s)).
Proof.
  intros [K _ _ _ _ _ _] Hw.
  destruct (NewServer_spec w ans (opfiles s) (begun s) K) as (E1 & E2 & E3 & _ & _ & H2 & _).
  eapply (winvs_trimmed s); try done. intros verb op vm Hv [_ (r & Hr & Hu & Ho)].
  destruct (H2 _ _ Hr) as (r' & Hr' & Hrel & Hok).
  assert (unresolved r' ∧ oRequest r' = oRequest r) as [Hu' Hreq].
  { destruct Hrel as [->|(_ & readable & ->)]; [done|]. erewrite recover_claim by done. split; [by right|done]. }
  split; [|exists r'; rewrite Hreq; done]. right. rewrite E2. split; [set_solver|].
  destruct (journal _); [right|by left]. destruct (Hok eq_refl) as [Hrec Hnp]. exists r'. split; [done|].
  unfold isUnknown. destruct Hu' as [?|Hu']; [done|]. by rewrite Hu'.
Qed.

Lemma winvs_step e s s' : pstep cd cfg e s s' → jinv s → winvs s → winvs s'.
Proof.
  intros Hs Hj H. pose proof (winvs_loose _ Hj H) as Hl.
  destruct Hs as [req l readable a reply s s' Hd|op s s' Hb|op c k r w' s Hrun Hc|op a r s s' Hrun resp Hf|vm s|ans s|ans boot s Hboot].
  - apply dispatch_inv in Hd as [->|[(id & ->)|(? & ? & r & Ha & _)]]; [done|by apply winvs_recoverOne|].
    by eapply winvs_admit.
  - by eapply winvs_begin.
  - revert H. unfold winvs. rewrite Hrun. cbn [running set_world world records].
    intros (LN & LV & x & Hx & HN & HV & Hp). exists LN, LV, x. split; [done|].
    assert (∀ verb op' vm, claims s verb op' vm → claims (set_world w' (Some (op, k r)) s) verb op' vm) as Hfr.
    { intros verb op' vm Hcl. eapply claims_frame; [done|..]; cbn; try done. intros P HP. rewrite Hrun in HP. naive_solver. }
    split; [naive_solver|]. split; [naive_solver|]. destruct (Hp (world s)) as [_ Hk]; [done|]. by apply Hk.
  - by eapply winvs_finish.
  - assert (drift (world s) (on_vmms (delete vm) (world s))) as Hd by (split_and!; try done; apply delete_subseteq).
    revert H. unfold winvs, set_world. cbn [running world records]. destruct (running s) as [[op P]|] eqn:Erun.
    + intros (LN & LV & x & Hx & HN & HV & Hp). exists LN, LV, x. split_and!; [done|..|by eapply pwp_drift].
      * intros v (op' & ? & ?)%HN. exists op'. split; [done|]. eapply claims_frame; [done|..]; cbn; try done. naive_solver.
      * intros v (op' & ? & ?)%HV. exists op'. split; [done|]. eapply claims_frame; [done|..]; cbn; try done. naive_solver.
    + intros Hw. eapply winv_drift; [done|]. eapply winv_mono; [| |exact Hw].
      * intros v (op' & ?). exists op'. eapply claims_frame; [done|..]; cbn; try done. naive_solver.
      * intros v (op' & ?). exists op'. eapply claims_frame; [done|..]; cbn; try done. naive_solver.
  - by apply winvs_reload.
  - apply winvs_reload; [done|]. by eapply winv_reboot.
Qed.

Lemma winvs_installed boot : winvs (installed boot).
Proof.
  cbn. split; cbn; try (intros *; by rewrite lookup_empty).
  - intros vm vm' c [H|(e & H & _)]; cbn in H; by rewrite lookup_empty in H.
  - intros vm vm' uc uc' [H|(e & H & _)]; cbn in H; by rewrite lookup_empty in H.
Qed.

Lemma winvs_steps boot es s :
  psteps cd cfg (installed boot) es s →
  winv (loose s "allocate_network") (loose s "start_vm") (world s).
Proof.
  intros H. assert (jinv s ∧ winvs s) as [? ?]; [|by apply winvs_loose].
  remember (installed boot) as s0 eqn:E. induction H as [|s0 es s1 e s2 _ IH Hs].
  - subst. split; [apply jinv_installed|apply winvs_installed].
  - destruct (IH E). split; [by eapply jinv_step|by eapply winvs_step].
Qed.

End system.
End PrivdSystem.
