(* ===== verification/PrivdRuns.v ===== *)
(** What the privileged daemon guarantees in every execution: exclusive identities,
    receipts that never change, a complete inventory of leases; and an interpreter
    of schedules, for examples. *)

From S2P Require Import Prelude Privd PrivdSafe PrivdSystem.
Import Privd PrivdSafe PrivdSystem.

Local Open Scope Z_scope.

Module PrivdRuns.

(** * Schedules *)

(** A host that does what it is asked, or fails with the effect left behind and the
    releases undone. *)
Definition host (ok : bool) (c : Call) (w : World) : Ans c * World :=
  match c return Ans c * World with
  | LGet vm =>
    (match ledger w !! vm with
     | None => NotExist
     | Some e => if ok && entryValid vm e then Got e else GetErr
     end, w)
  | LAll => (if ok then Some (map_to_list (ledger w)).*2 else None, w)
  | LPut e => (ok, on_ledger <[eVMID e := e]> w)
  | LDelete vm => (ok, on_ledger (delete vm) w)
  | BAllocateNetwork e q => (if ok then None else Some Untyped, on_nets <[eVMID e := anCIDR q]> w)
  | BReleaseNetwork e => if ok then (None, on_nets (delete (eVMID e)) w) else (Some Untyped, w)
  | BStartVM e q =>
    (if ok then Ok (4242, "77", hostBoot w, "pid:[4026531836]") else Err Untyped,
     on_vmms <[eVMID e := (svUID q, svCID q)]> w)
  | BAbortStartVM e => if ok then (None, on_vmms (delete (eVMID e)) w) else (Some Untyped, w)
  | BSignalVM e _ => if ok then (None, on_vmms (delete (eVMID e)) w) else (Some Untyped, w)
  | BReleaseVM e => (if ok then None else Some Untyped, w)
  | KIdentity => (if ok then Some (hostBoot w, "pid:[4026531836]") else None, w)
  | KProcessAlive e => (if ok then Some (bool_decide (is_Some (vmms w !! eVMID e))) else None, w)
  | KNow => (0, w)
  | KContext => (if ok then None else Some Untyped, w)
  end.

Lemma host_sound ok c w : callStep c w (host ok c w).1 (host ok c w).2.
Proof.
  destruct c, ok; cbn; unfold maybe; auto; try naive_solver lia.
  - destruct (ledger w !! vm) as [e|] eqn:E; [|done]. destruct (entryValid vm e) eqn:Ev; done.
  - split; [done|]. destruct (ledger w !! vm); done.
  - split; [done|]. intros e. rewrite list_elem_of_fmap. split.
    + intros ([vm x] & -> & H%elem_of_map_to_list). eauto.
    + intros (vm & H). exists (vm, e). split; [done|]. by apply elem_of_map_to_list.
  - split; [done|]. intros [= H%bool_decide_eq_false] _. by apply eq_None_not_Some.
Qed.

Inductive Action :=
  | Send (req : Request) (a : SaveAns)
  | Begin (op : string)
  | Perform (ok : bool)
  | Finish (a : SaveAns)
  | Restart
  | Reboot (boot : string).

Section schedule.
Context (cd : Codec) (cfg : ServerCfg).

Definition act (x : Action) (s : Server) : option (Event * Server) :=
  match x with
  | Send req a => let '(r, s') := dispatch cd req (host true LAll (world s)).1 true a s in
                  Some (EDispatch req r, s')
  | Begin op => s' ← begin cd cfg op s; Some (EBegin op, s')
  | Perform ok =>
    match running s with
    | Some (op, Do c k) =>
      let '(r, w') := host ok c (world s) in Some (ECall c, set_world w' (Some (op, k r)) s)
    | _ => None
    end
  | Finish a =>
    match running s, finish a s with
    | Some (op, Ret _), Some (r, s') => Some (EFinish op r, s')
    | _, _ => None
    end
  | Restart => Some (ERestart, NewServer cd (world s) (λ _, Loaded true Saved) (opfiles s) (begun s))
  | Reboot boot =>
    if decide (boot = hostBoot (world s)) then None else
    Some (EReboot, NewServer cd (mkWorld (ledger (world s)) ∅ ∅ boot) (λ _, Loaded true Saved)
                     (opfiles s) (begun s))
  end.

Lemma act_sound x s e s' : act x s = Some (e, s') → pstep cd cfg e s s'.
Proof.
  destruct x; cbn -[host dispatch begin finish NewServer].
  - destruct (dispatch _ _ _ _ _ _) as [r s''] eqn:E. intros [= <- <-]. by econstructor.
  - destruct (begin _ _ _ _) eqn:E; [|done]. intros [= <- <-]. by constructor.
  - destruct (running s) as [[op [r|c k]]|] eqn:E; [done| |done].
    pose proof (host_sound ok c (world s)) as H. destruct (host ok c (world s)) as [r w'] eqn:Eh.
    intros [= <- <-]. by econstructor.
  - destruct (running s) as [[op [r|c k]]|] eqn:E; [|done..]. destruct (finish a s) as [[r' s'']|] eqn:Ef; [|done].
    intros [= <- <-]. by econstructor.
  - intros [= <- <-]. constructor.
  - destruct (decide _); [done|]. intros [= <- <-]. by constructor.
Qed.

Fixpoint play (xs : list Action) (s : Server) : option Server :=
  match xs with
  | [] => Some s
  | x :: xs => '(_, s') ← act x s; play xs s'
  end.

Lemma psteps_cons s e s1 es s2 :
  pstep cd cfg e s s1 → psteps cd cfg s1 es s2 → psteps cd cfg s (e :: es) s2.
Proof.
  intros He H. induction H as [s1|s1 es s2 e' s3 H IH He'].
  - apply (psteps_snoc _ _ _ [] s e s1); [constructor|done].
  - change (e :: es ++ [e']) with ((e :: es) ++ [e']). by econstructor; [apply IH|].
Qed.

Lemma play_sound xs s s' : play xs s = Some s' → ∃ es, psteps cd cfg s es s'.
Proof.
  revert s. induction xs as [|x xs IH]; intros s; cbn.
  - intros [= <-]. exists []. constructor.
  - destruct (act x s) as [[e s1]|] eqn:Ea; [|done]. intros (es & H)%IH. exists (e :: es).
    eapply psteps_cons; [by apply act_sound in Ea|done].
Qed.

End schedule.

(** * Exclusive identities *)

(** No two VMs on the host share a subnet, a jail uid or a guest CID. *)
Definition exclusive (w : World) : Prop :=
  (∀ vm vm' c, nets w !! vm = Some c → nets w !! vm' = Some c → vm = vm') ∧
  (∀ vm vm' uid cid uid' cid', vmms w !! vm = Some (uid, cid) → vmms w !! vm' = Some (uid', cid') →
     uid = uid' ∨ cid = cid' → vm = vm').

(** C5: Whatever is asked of the daemon, and whichever calls of the host, of the
    ledger's files and of the journal fail, in the middle of mutations too, with
    rollbacks that fail, crashes, restarts and reboots at any point: no two VMs on
    the host ever have the same subnet, and no two VMMs the same uid or CID. *)
Theorem identities_exclusive cd cfg boot es s :
  codecOk cd → psteps cd cfg (installed boot) es s → exclusive (world s).
Proof.
  intros Hcd H%winvs_steps; [|done]. destruct H as [_ _ _ N V _ _]. split.
  - intros vm vm' c H1 H2. eapply N; left; done.
  - intros vm vm' u c u' c' H1 H2 E. eapply V; [left; done|left; done|done].
Qed.

(** Payloads of the examples: the VM's name is the payload. *)
Definition exCodec : Codec :=
  mkCodec (λ m, 64 * Z.of_nat (size m)) (λ p, Some (mkAllocate p ("10.0.0.0/30-" +:+ p))) Some
    (λ p, Some (mkStart p (if (p =? "vm-a")%string then 20000 else 20001) 20000
                  (if (p =? "vm-a")%string then 3 else 4) ("/stage/" +:+ p) []))
    (λ p, Some (mkSignal p "kill")) Some.
Definition exCfg : ServerCfg := mkCfg 20000 30000.

Lemma exCodec_ok : codecOk exCodec.
Proof. by split; intros raw r [= <-]. Qed.

Lemma play_reach cd cfg xs s : ∃ es, psteps cd cfg s es (default s (play cd cfg xs s)).
Proof.
  destruct (play cd cfg xs s) as [s'|] eqn:E; [by eapply play_sound|]. exists []. constructor.
Qed.

Definition send (verb op vm : string) : Action := Send (mkRequest 1 verb op vm) Saved.

(** A VM with a network and a process; a second one whose start fails and whose
    rollback fails; a third one refused; a restart. *)
Definition exPlay : list Action :=
  [send "allocate_network" "op-1" "vm-a"; Begin "op-1"] ++ replicate 6 (Perform true) ++ [Finish Saved] ++
  [send "start_vm" "op-2" "vm-a"; Begin "op-2"] ++ replicate 5 (Perform true) ++ [Finish Saved] ++
  [send "allocate_network" "op-3" "vm-b"; Begin "op-3"] ++ replicate 6 (Perform true) ++ [Finish Saved] ++
  [send "start_vm" "op-4" "vm-b"; Begin "op-4"] ++ replicate 3 (Perform true) ++
  [Perform false; Perform false; Finish Saved; Restart; send "allocate_network" "op-5" "vm-c"].
Definition exServer : Server :=
  default (installed "b") (play exCodec exCfg exPlay (installed "b")).

Lemma identities_exclusive_witness :
  (nets (world exServer) !! "vm-a" = Some "10.0.0.0/30-vm-a" ∧
   vmms (world exServer) !! "vm-a" = Some (20000, 3) ∧
   vmms (world exServer) !! "vm-b" = Some (20001, 4) ∧
   oState <$> (records exServer !! "op-4") = Some Unknown ∧
   records exServer !! "op-5" = None) ∧ exclusive (world exServer).
Proof.
  split; [by vm_compute|]. destruct (play_reach exCodec exCfg exPlay (installed "b")) as [es H].
  exact (identities_exclusive _ _ _ _ _ exCodec_ok H).
Defined.

(** * Receipts *)

(** The handler of an operation id is entered at most once, over any number of
    retries, crashes and restarts. *)
Theorem executed_once cd cfg boot es s :
  psteps cd cfg (installed boot) es s → NoDup (begun s).
Proof. intros H. by apply (jinv_steps _ _ _ _ _ H (jinv_installed boot)). Qed.

Lemma executed_once_witness : begun exServer = ["op-1"; "op-2"; "op-3"; "op-4"] ∧ NoDup (begun exServer).
Proof.
  split; [by vm_compute|]. destruct (play_reach exCodec exCfg exPlay (installed "b")) as [es H].
  exact (executed_once _ _ _ _ _ H).
Defined.

(** The answer to a request whose operation was answered [resp]. *)
Definition receipt (s : Server) (old : Request) (resp : Response) (req : Request) : Response :=
  if negb (journal s) then errResp "outcome_unknown"
  else if (Verb old =? Verb req)%string && (Payload old =? Payload req)%string then resp
  else errResp "invalid_state".

Lemma finish_settled cd cfg op resp s s' :
  jinv s → pstep cd cfg (EFinish op resp) s s' → rCause resp ≠ "outcome_unknown" →
  ∃ r r', records s !! op = Some r ∧ opfiles s' !! op = Some r' ∧ oRequest r' = oRequest r ∧
    oResponse r' = Some resp ∧ ¬ unresolved r'.
Proof.
  intros [K Vb Rs Sm Q R _] Hs Hc. inversion Hs as [| | |op' a out s0 s1 Hrun resp' Hf| | |]; subst.
  revert Hf. unfold finish. rewrite Hrun. destruct (R _ _ Hrun) as (_ & r & Er & Ef & Ep). rewrite Er.
  destruct (settled_spec (oRequest r) out) as [Hreq Hset]. pose proof (K _ _ Ef) as Ek.
  destruct (saved a) eqn:Ea; intros [= <- <-]; [|done].
  destruct (isUnknown _) eqn:Eu; [done|]. exists r, (settled (oRequest r) out). cbn.
  destruct Hset as [[_ E]|(_ & E1 & E2)]; [by rewrite E in Eu|]. split_and!; try done.
  destruct a as [|[]]; try done. cbn. by rewrite Hreq, Ek, lookup_insert_eq.
Qed.

(** C6: A receipt never changes: once an operation was answered with anything but
    an unknown outcome, every later request with its id is answered with that
    response, or refused when it asks for something else or when the journal is
    unavailable; it is never executed again. Executions include failed saves of
    the journal, crashes and reboots. *)
Theorem receipts_final cd cfg boot es s1 op resp s2 es' s3 req reply s4 :
  psteps cd cfg (installed boot) es s1 → pstep cd cfg (EFinish op resp) s1 s2 →
  rCause resp ≠ "outcome_unknown" → psteps cd cfg s2 es' s3 →
  pstep cd cfg (EDispatch req reply) s3 s4 →
  OpID req = op → V req = ProtoVersion → Verb req ≠ "network_leases" → Verb req ≠ "query_operation" →
  ∃ r, records s1 !! op = Some r ∧ reply = Replied (receipt s3 (oRequest r) resp req).
Proof.
  intros H1 Hf Hc H2 Hd Hop Hv Hv1 Hv2.
  pose proof (jinv_steps _ _ _ _ _ H1 (jinv_installed boot)) as J1.
  pose proof (jinv_step _ _ _ _ _ Hf J1) as J2. pose proof (jinv_steps _ _ _ _ _ H2 J2) as J3.
  destruct (finish_settled _ _ _ _ _ _ J1 Hf Hc) as (r & r' & Er & Ef & Ereq & Eresp & Hn).
  exists r. split; [done|]. pose proof (forward_steps _ _ _ _ _ H2 J2 _ _ Ef Hn) as E3.
  destruct J3 as [K Vb Rs Sm Q R _]. destruct (Vb _ _ E3) as [Hvalid _]. rewrite (K _ _ E3) in Hvalid.
  inversion Hd as [req' l readable a reply' s s' Hdis| | | | | |]; subst. revert Hdis. unfold dispatch.
  rewrite Hv. apply String.eqb_neq in Hv1, Hv2. rewrite Hv1, Hv2. cbn [Z.eqb negb ProtoVersion Pos.eqb].
  unfold admitMutation, receipt. rewrite Hvalid. cbn [negb]. destruct (journal s3) eqn:Ej; cbn [negb].
  - rewrite (Sm eq_refl), E3, Eresp, Ereq.
    destruct (Verb (oRequest r) =? Verb req)%string, (Payload (oRequest r) =? Payload req)%string; by intros [= <- _].
  - by intros [= <- _].
Qed.

(** An allocation up to its receipt; the receipt and a restart; the same request. *)
Definition exMid : Server := default (installed "b")
  (play exCodec exCfg ([send "allocate_network" "op-1" "vm-a"; Begin "op-1"] ++ replicate 6 (Perform true))
     (installed "b")).
Definition exAct (x : Action) (s : Server) : Event * Server := default (ERestart, s) (act exCodec exCfg x s).

Lemma receipts_final_witness :
  ∃ s3 s4, pstep exCodec exCfg (EDispatch (mkRequest 1 "allocate_network" "op-1" "vm-a") (Replied (okResp NoBody))) s3 s4 ∧
  ∃ r, records exMid !! "op-1" = Some r ∧
    Replied (okResp NoBody) =
    Replied (receipt s3 (oRequest r) (okResp NoBody) (mkRequest 1 "allocate_network" "op-1" "vm-a")).
Proof.
  destruct (play_reach exCodec exCfg ([send "allocate_network" "op-1" "vm-a"; Begin "op-1"] ++
    replicate 6 (Perform true)) (installed "b")) as [es H1].
  set (s2 := (exAct (Finish Saved) exMid).2).
  assert (act exCodec exCfg (Finish Saved) exMid = Some (EFinish "op-1" (okResp NoBody), s2)) as H2 by (by vm_compute).
  apply act_sound in H2.
  destruct (play_reach exCodec exCfg [Restart] s2) as [es' H3].
  set (s3 := default s2 (play exCodec exCfg [Restart] s2)) in *.
  set (s4 := (exAct (send "allocate_network" "op-1" "vm-a") s3).2).
  assert (act exCodec exCfg (send "allocate_network" "op-1" "vm-a") s3 =
    Some (EDispatch (mkRequest 1 "allocate_network" "op-1" "vm-a") (Replied (okResp NoBody)), s4)) as H4 by (by vm_compute).
  apply act_sound in H4. exists s3, s4. split; [done|].
  by apply (receipts_final _ _ _ _ _ _ _ _ _ _ _ _ _ H1 H2 ltac:(done) H3 H4).
Defined.

(** * The inventory *)

(** Every network on the host is in the inventory, under its VM. *)
Definition complete (w : World) (leases : gmap string string) : Prop :=
  ∀ vm c, nets w !! vm = Some c → leases !! vm = Some c.

Lemma quiet_no_claims cd s :
  jinv s → networkLeases cd None s = errResp "internal" → ∀ verb vm, ¬ loose cd s verb vm.
Proof.
  intros [K Vb Rs Sm Q R _] Hl verb vm (op & Hsus & r & Hr & Hu & _). revert Hl. unfold networkLeases.
  destruct (running s) eqn:Erun; [done|]. destruct (journal s) eqn:Ej; cbn [negb]; [|done].
  destruct (List.find _ _) as [[op' r']|] eqn:Ef.
  - apply List.find_some in Ef as [_ Eu]. destruct (oState r'); done.
  - intros _. rewrite <- Sm in Hr by done. eapply (List.find_none _ _) in Ef; [|by apply list_elem_of_In, elem_of_map_to_list].
    cbn in Ef. by destruct Hu as [Hu|Hu]; rewrite Hu in Ef.
Qed.

(** When the daemon answers with its inventory of leases, in any execution, every
    network that is on the host is in it: the controller that seeds its allocator
    from the inventory cannot hand out a subnet that is in use. *)
Theorem leases_complete cd cfg boot es s l leases :
  codecOk cd → psteps cd cfg (installed boot) es s →
  callStep LAll (world s) l (world s) →
  networkLeases cd l s = okResp (Leases leases) → complete (world s) leases.
Proof.
  intros Hcd H (_ & Hl) Hn vm c Hc. pose proof (jinv_steps _ _ _ _ _ H (jinv_installed boot)) as J.
  apply winvs_steps in H; [|done]. destruct l as [l|]; [|unfold networkLeases in Hn; repeat case_match; done].
  assert (networkLeases cd None s = errResp "internal") as Hq by (revert Hn; unfold networkLeases; repeat case_match; done).
  destruct (wi_net_cover _ _ _ H _ _ Hc) as [(e & He & E1 & E2)|HL]; [|by destruct (quiet_no_claims _ _ J Hq _ _ HL)].
  revert Hn. unfold networkLeases. repeat (case_match; try done). intros [= <-].
  apply elem_of_list_to_map_1'.
  - intros y (x & Hx & Hy)%list_elem_of_omap. destruct (String.eqb_spec (eNetCIDR x) ""); [done|].
    injection Hy as Ex <-. apply Hl in Hx as (vm' & Hx). destruct (wi_keys _ _ _ H _ _ Hx) as [Ek _]. congruence.
  - apply list_elem_of_omap. exists e. split; [apply Hl; eauto|].
    destruct (String.eqb_spec (eNetCIDR e) ""); [congruence|]. destruct (wi_keys _ _ _ H _ _ He) as [Ek _]. congruence.
Qed.

(** Two networks, and the inventory. *)
Definition exNets : Server := default (installed "b")
  (play exCodec exCfg
     ([send "allocate_network" "op-1" "vm-a"; Begin "op-1"] ++ replicate 6 (Perform true) ++ [Finish Saved] ++
      [send "allocate_network" "op-2" "vm-b"; Begin "op-2"] ++ replicate 6 (Perform true) ++ [Finish Saved])
     (installed "b")).
Definition exLeases : gmap string string :=
  list_to_map [("vm-a", "10.0.0.0/30-vm-a"); ("vm-b", "10.0.0.0/30-vm-b")].

Lemma leases_complete_witness :
  nets (world exNets) = exLeases ∧ complete (world exNets) exLeases.
Proof.
  split; [by vm_compute|].
  destruct (play_reach exCodec exCfg
     ([send "allocate_network" "op-1" "vm-a"; Begin "op-1"] ++ replicate 6 (Perform true) ++ [Finish Saved] ++
      [send "allocate_network" "op-2" "vm-b"; Begin "op-2"] ++ replicate 6 (Perform true) ++ [Finish Saved])
     (installed "b")) as [es H].
  refine (leases_complete _ _ _ _ _ _ _ exCodec_ok H (host_sound true LAll _) _). by vm_compute.
Defined.

End PrivdRuns.
