(* ===== verification/Text.v ===== *)
(** The functions of Go's text packages that the authentication code uses:
    base64 (encoding/base64, RawURLEncoding), hex (encoding/hex) and the string
    functions of header parsing (strings). Strings are sequences of bytes. *)

From S2P Require Import Prelude.

Local Open Scope Z_scope.

Module Text.

Definition code (c : Ascii.ascii) : Z := Z.of_N (Ascii.N_of_ascii c).
Definition chr (z : Z) : Ascii.ascii := Ascii.ascii_of_N (Z.to_N z).

Lemma chr_code c : chr (code c) = c.
Proof. unfold chr, code. rewrite N2Z.id. apply Ascii.ascii_N_embedding. Qed.

Lemma code_range c : 0 ≤ code c < 256.
Proof. unfold code. pose proof (Ascii.N_ascii_bounded c). lia. Qed.

(** * base64 *)

(** The alphabet of the URL encoding. *)
Definition sextet (d : Z) : Ascii.ascii :=
  if d <? 26 then chr (65 + d)
  else if d <? 52 then chr (97 + (d - 26))
  else if d <? 62 then chr (48 + (d - 52))
  else if d =? 62 then chr 45 else chr 95.

Definition unsextet (c : Ascii.ascii) : option Z :=
  let z := code c in
  if (65 <=? z) && (z <=? 90) then Some (z - 65)
  else if (97 <=? z) && (z <=? 122) then Some (z - 97 + 26)
  else if (48 <=? z) && (z <=? 57) then Some (z - 48 + 52)
  else if z =? 45 then Some 62
  else if z =? 95 then Some 63
  else None.

Fixpoint EncodeToString (s : string) : string :=
  match s with
  | "" => ""
  | String a "" =>
    let n := code a * 65536 in
    String (sextet (n / 262144)) (String (sextet (n / 4096 mod 64)) "")
  | String a (String b "") =>
    let n := code a * 65536 + code b * 256 in
    String (sextet (n / 262144)) (String (sextet (n / 4096 mod 64))
      (String (sextet (n / 64 mod 64)) ""))
  | String a (String b (String c rest)) =>
    let n := code a * 65536 + code b * 256 + code c in
    String (sextet (n / 262144)) (String (sextet (n / 4096 mod 64))
      (String (sextet (n / 64 mod 64)) (String (sextet (n mod 64)) (EncodeToString rest))))
  end.

(** Groups of four characters; the last may have two or three. *)
Fixpoint decodeQuanta (s : string) : option string :=
  match s with
  | "" => Some ""
  | String _ "" => None
  | String a (String b "") =>
    x ← unsextet a; y ← unsextet b;
    Some (String (chr ((x * 262144 + y * 4096) / 65536)) "")
  | String a (String b (String c "")) =>
    x ← unsextet a; y ← unsextet b; z ← unsextet c;
    let n := x * 262144 + y * 4096 + z * 64 in
    Some (String (chr (n / 65536)) (String (chr (n / 256 mod 256)) ""))
  | String a (String b (String c (String d rest))) =>
    x ← unsextet a; y ← unsextet b; z ← unsextet c; w ← unsextet d;
    r ← decodeQuanta rest;
    let n := x * 262144 + y * 4096 + z * 64 + w in
    Some (String (chr (n / 65536)) (String (chr (n / 256 mod 256)) (String (chr (n mod 256)) r)))
  end.

Fixpoint dropNewlines (s : string) : string :=
  match s with
  | "" => ""
  | String c s => if (code c =? 10) || (code c =? 13) then dropNewlines s else String c (dropNewlines s)
  end.

Definition DecodeString (s : string) : option string := decodeQuanta (dropNewlines s).

(** * hex *)

Definition hexDigit (d : Z) : Ascii.ascii := if d <? 10 then chr (48 + d) else chr (97 + (d - 10)).
Fixpoint hexString (s : string) : string :=
  match s with
  | "" => ""
  | String c s => String (hexDigit (code c / 16)) (String (hexDigit (code c mod 16)) (hexString s))
  end.

(** * strings *)

(** [strings.Split] at a comma. *)
Fixpoint splitComma (acc s : string) : list string :=
  match s with
  | "" => [acc]
  | String c s => if code c =? 44 then acc :: splitComma "" s else splitComma (acc +:+ String c "") s
  end.
Definition SplitComma (s : string) : list string := splitComma "" s.

(** The white space of Unicode, in UTF-8. *)
Definition bytes (l : list Z) : string := String.string_of_list_ascii (chr <$> l).
Definition spaces : list string :=
  bytes <$> [[9]; [10]; [11]; [12]; [13]; [32]; [194; 133]; [194; 160]; [225; 154; 128];
    [226; 128; 128]; [226; 128; 129]; [226; 128; 130]; [226; 128; 131]; [226; 128; 132];
    [226; 128; 133]; [226; 128; 134]; [226; 128; 135]; [226; 128; 136]; [226; 128; 137];
    [226; 128; 138]; [226; 128; 168]; [226; 128; 169]; [226; 128; 175]; [226; 129; 159];
    [227; 128; 128]].

Definition reverse (s : string) : string :=
  String.string_of_list_ascii (rev (String.list_ascii_of_string s)).

(** Takes white space, listed in [ws], from the front; the length is fuel enough. *)
Fixpoint trimFront (ws : list string) (fuel : nat) (s : string) : string :=
  match fuel with
  | O => s
  | S fuel =>
    match List.find (λ w, String.prefix w s) ws with
    | Some w => trimFront ws fuel (String.substring (String.length w) (String.length s - String.length w) s)
    | None => s
    end
  end.

Definition TrimSpace (s : string) : string :=
  let s := trimFront spaces (String.length s) s in
  reverse (trimFront (reverse <$> spaces) (String.length s) (reverse s)).

(** Simple case folding. Beyond ASCII, only the long s and the Kelvin sign fold to
    ASCII letters, and these functions fold strings to compare them with ASCII ones. *)
Fixpoint fold (s : string) : string :=
  match s with
  | "" => ""
  | String c rest =>
    let z := code c in
    match rest with
    | String d rest' =>
      if (z =? 197) && (code d =? 191) then String (chr 115) (fold rest') else
      match rest' with
      | String e rest'' =>
        if (z =? 226) && (code d =? 132) && (code e =? 170) then String (chr 107) (fold rest'')
        else String (if (65 <=? z) && (z <=? 90) then chr (z + 32) else c) (fold rest)
      | "" => String (if (65 <=? z) && (z <=? 90) then chr (z + 32) else c) (fold rest)
      end
    | "" => String (if (65 <=? z) && (z <=? 90) then chr (z + 32) else c) ""
    end
  end.
Definition EqualFold (s ascii : string) : bool := (fold s =? fold ascii)%string.

(** * base64 round trip *)

Lemma unsextet_sextet d : 0 ≤ d < 64 → unsextet (sextet d) = Some d.
Proof.
  intros Hd. assert (Forall (λ n, unsextet (sextet (Z.of_nat n)) = Some (Z.of_nat n)) (seq 0 64)) as H.
  { apply (bool_decide_unpack _). by vm_compute. }
  rewrite Forall_forall in H. specialize (H (Z.to_nat d)). rewrite Z2Nat.id in H by lia. apply H.
  apply elem_of_seq. lia.
Qed.

Lemma sextet_printable d : 0 ≤ d < 64 → (code (sextet d) =? 10) || (code (sextet d) =? 13) = false.
Proof.
  intros Hd. assert (Forall (λ n, (code (sextet (Z.of_nat n)) =? 10) || (code (sextet (Z.of_nat n)) =? 13) = false) (seq 0 64)) as H.
  { apply (bool_decide_unpack _). by vm_compute. }
  rewrite Forall_forall in H. specialize (H (Z.to_nat d)). rewrite Z2Nat.id in H by lia. apply H.
  apply elem_of_seq. lia.
Qed.

(** Strings three bytes at a time. *)
Lemma string_ind3 (P : string → Prop) :
  P "" → (∀ a, P (String a "")) → (∀ a b, P (String a (String b ""))) →
  (∀ a b c s, P s → P (String a (String b (String c s)))) → ∀ s, P s.
Proof.
  intros H0 H1 H2 H3. fix IH 1. intros [|a [|b [|c s]]]; [exact H0|apply H1|apply H2|apply H3, IH].
Qed.

Lemma chr_eq z c : z = code c → chr z = c.
Proof. intros ->. apply chr_code. Qed.

(** The 24 bits of a group, as sextets and back. *)
Lemma quantum n :
  0 ≤ n < 16777216 →
  n / 262144 * 262144 + n / 4096 mod 64 * 4096 + n / 64 mod 64 * 64 + n mod 64 = n ∧
  0 ≤ n / 262144 < 64 ∧ 0 ≤ n / 4096 mod 64 < 64 ∧ 0 ≤ n / 64 mod 64 < 64 ∧ 0 ≤ n mod 64 < 64.
Proof. intros. Z.div_mod_to_equations; lia. Qed.

Lemma DecodeString_EncodeToString s : DecodeString (EncodeToString s) = Some s.
Proof.
  unfold DecodeString. induction s as [|a|a b|a b c s IH] using string_ind3; [done|..].
  - pose proof (code_range a). cbn [EncodeToString]. set (n := code a * 65536).
    destruct (quantum n) as (E & ? & ? & ? & ?); [lia|].
    cbn [dropNewlines]. rewrite !sextet_printable by done. cbn [decodeQuanta].
    rewrite !unsextet_sextet by done. cbn [mbind option_bind]. do 2 f_equal. apply chr_eq.
    assert (n / 64 mod 64 * 64 + n mod 64 < 4096) by lia. subst n. Z.div_mod_to_equations; lia.
  - pose proof (code_range a). pose proof (code_range b). cbn [EncodeToString].
    set (n := code a * 65536 + code b * 256). destruct (quantum n) as (E & ? & ? & ? & ?); [lia|].
    cbn [dropNewlines]. rewrite !sextet_printable by done. cbn [decodeQuanta].
    rewrite !unsextet_sextet by done. cbn [mbind option_bind].
    assert (n mod 64 = 0) as E0 by (subst n; Z.div_mod_to_equations; lia).
    replace (n / 262144 * 262144 + n / 4096 mod 64 * 4096 + n / 64 mod 64 * 64) with n by lia.
    do 2 f_equal; [apply chr_eq|f_equal; apply chr_eq]; subst n; Z.div_mod_to_equations; lia.
  - pose proof (code_range a). pose proof (code_range b). pose proof (code_range c). cbn [EncodeToString].
    set (n := code a * 65536 + code b * 256 + code c). destruct (quantum n) as (E & ? & ? & ? & ?); [lia|].
    cbn [dropNewlines]. rewrite !sextet_printable by done. cbn [decodeQuanta].
    rewrite !unsextet_sextet by done. cbn [mbind option_bind]. rewrite IH, E. cbn [mbind option_bind].
    do 2 f_equal; [apply chr_eq|f_equal; [apply chr_eq|f_equal; apply chr_eq]]; subst n; Z.div_mod_to_equations; lia.
Qed.

End Text.
