(* ===== verification/Auth.v ===== *)
(** Authentication: the credential store (internal/auth: credentials.go, tokens.go),
    browser sessions (sessions.go) and the boundary of the API that uses them
    (internal/api/auth.go).

    Times are nanoseconds since the zero time; the clock's readings, random bytes
    and the answers of the file system are arguments. JSON texts of times are the
    times; an [ExpiresAt] that does not parse is [Garbled]. *)

From S2P Require Import Prelude Text Events.
Import Text.

Local Open Scope Z_scope.

Module Auth.

(** * Credential store *)

Inductive AuthErr :=
  | ErrBadCredentials | ErrAlreadyInitialized | ErrTokenNotFound | ErrInvalidTokenTTL | ErrFile.

(** [writeFileAtomic]: done, or failed with the old file or the new one in place. *)
Inductive WriteAns := Written | NotWritten (wrote : bool).
Definition written (a : WriteAns) : bool := match a with Written => true | NotWritten _ => false end.
Definition writeFileAtomic {A} (a : WriteAns) (new old : A) : A :=
  match a with NotWritten false => old | _ => new end.

Record passwordHash := mkHash {
  pAlgorithm : string; pSalt : string; pTime : Z; pMemoryKiB : Z; pThreads : Z; pHash : string }.

Record operatorRecord := mkOperator {
  oVersion : Z; oUsername : string; oPasswordHash : passwordHash; oCreatedAt : Z }.

Inductive Expiry := Never | At (t : Z) | Garbled.

Record tokenEntry := mkToken {
  tID : string; tName : string; tOwner : string; tSHA256Hex : string;
  tCreatedAt : Z; tExpiresAt : Expiry; tRevokedAt : option Z }.

Record TokenRecord := mkTokenRecord {
  rID : string; rName : string; rOwner : string;
  rCreatedAt : Z; rExpiresAt : Expiry; rRevokedAt : option Z }.

Definition toRecord (e : tokenEntry) : TokenRecord :=
  mkTokenRecord (tID e) (tName e) (tOwner e) (tCreatedAt e) (tExpiresAt e) (tRevokedAt e).

(** The files of the credential directory; [None] for one that does not exist. *)
Record Store := mkStore { operator : option operatorRecord; tokens : option (list tokenEntry) }.

Definition Second : Z := 1000000000.
Definition Minute : Z := 60 * Second.
Definition MaxTokenTTLMinutes : Z := Int.MaxInt64 / Minute.

Definition TokenTTL (minutes : Z) : result AuthErr Z :=
  if (minutes <? 0) || (MaxTokenTTLMinutes <? minutes) then Err ErrInvalidTokenTTL
  else Ok (Int.i64 (minutes * Minute)).

(** The format RFC3339 keeps whole seconds. *)
Definition seconds (t : Z) : Z := t / Second * Second.

Section crypto.
(** [argon2.IDKey] and the hexadecimal SHA-256. *)
Context (argon2 : string → string → Z → Z → Z → Z → string) (sha256Hex : string → string).

Definition hashPassword (password salt : string) : passwordHash :=
  mkHash "argon2id" (EncodeToString salt) 1 (64 * 1024) 4
    (EncodeToString (argon2 password salt 1 (64 * 1024) 4 32)).

Definition verify (p : passwordHash) (password : string) : bool :=
  match DecodeString (pSalt p) with
  | None => false
  | Some salt =>
    match DecodeString (pHash p) with
    | None => false
    | Some want =>
      let got := argon2 password salt (pTime p) (pMemoryKiB p) (pThreads p)
                   (Int.u32 (Z.of_nat (String.length want))) in
      (got =? want)%string
    end
  end.

(** [mkdir], [chmod]: the directory's calls succeed; [stat]: the file's does, if it
    exists; [salt]: the random bytes. *)
Definition InitStore (mkdir chmod stat : bool) (username password : string) (salt : option string)
    (now : Z) (a : WriteAns) (s : Store) : option AuthErr * Store :=
  if negb mkdir then (Some ErrFile, s) else
  if negb chmod then (Some ErrFile, s) else
  if stat && match operator s with Some _ => true | None => false end
  then (Some ErrAlreadyInitialized, s) else
  match salt with
  | None => (Some ErrFile, s)
  | Some salt =>
    let rec := mkOperator 1 username (hashPassword password salt) (seconds now) in
    let s' := mkStore (writeFileAtomic a (Some rec) (operator s)) (tokens s) in
    (if written a then None else Some ErrFile, s')
  end.

(** [perm]: the directory's permission bits. *)
Definition OpenStore (stat : bool) (perm : Z) (statFile : bool) (s : Store) : option AuthErr :=
  if negb stat then Some ErrFile else
  if negb (Z.land perm 63 =? 0) then Some ErrFile else
  if statFile && match operator s with Some _ => true | None => false end then None else Some ErrFile.

Definition VerifyPassword (username password : string) (read : bool) (s : Store) : result AuthErr string :=
  match operator s with
  | Some rec =>
    if negb read then Err ErrFile else
    if negb (username =? oUsername rec)%string then Err ErrBadCredentials else
    if negb (verify (oPasswordHash rec) password) then Err ErrBadCredentials
    else Ok (oUsername rec)
  | None => Err ErrFile
  end.

(** * Tokens *)

Definition loadTokens (read : bool) (s : Store) : option (list tokenEntry) :=
  match tokens s with
  | None => Some []
  | Some l => if read then Some l else None
  end.

Definition saveTokens (a : WriteAns) (l : list tokenEntry) (s : Store) : option AuthErr * Store :=
  (if written a then None else Some ErrFile,
   mkStore (operator s) (writeFileAtomic a (Some l) (tokens s))).

Definition tokenSecret (raw : string) : string := "vmobs_" +:+ EncodeToString raw.
Definition tokenID (raw : string) : string := "tok-" +:+ hexString raw.

Definition newEntry (name owner : string) (ttl : Z) (rawSecret rawID : string) (now : Z) : tokenEntry :=
  mkToken (tokenID rawID) name owner (sha256Hex (tokenSecret rawSecret)) (seconds now)
    (if 0 <? ttl then At (now + ttl) else Never) None.

Definition CreateToken (name owner : string) (ttl : Z) (rawSecret rawID : option string) (now : Z)
    (read : bool) (a : WriteAns) (s : Store) : result AuthErr (string * TokenRecord) * Store :=
  if (ttl <? 0) || (Int.i64 (MaxTokenTTLMinutes * Minute) <? ttl) then (Err ErrInvalidTokenTTL, s) else
  match rawSecret, rawID with
  | Some rawSecret, Some rawID =>
    let entry := newEntry name owner ttl rawSecret rawID now in
    match loadTokens read s with
    | None => (Err ErrFile, s)
    | Some l =>
      let '(err, s') := saveTokens a (l ++ [entry]) s in
      match err with
      | Some e => (Err e, s')
      | None => (Ok (tokenSecret rawSecret, toRecord entry), s')
      end
    end
  | _, _ => (Err ErrFile, s)
  end.

(** What a matching entry answers. *)
Definition admits (now : Z) (e : tokenEntry) : bool :=
  match tRevokedAt e with
  | Some _ => false
  | None => match tExpiresAt e with Never => true | At t => negb (t <? now) | Garbled => false end
  end.

Definition VerifyToken (secret : string) (now : Z) (read : bool) (s : Store) : result AuthErr TokenRecord :=
  match loadTokens read s with
  | None => Err ErrFile
  | Some l =>
    match List.find (λ e, tSHA256Hex e =? sha256Hex secret)%string l with
    | None => Err ErrBadCredentials
    | Some e => if admits now e then Ok (toRecord e) else Err ErrBadCredentials
    end
  end.

Definition ListTokens (read : bool) (s : Store) : result AuthErr (list TokenRecord) :=
  match loadTokens read s with None => Err ErrFile | Some l => Ok (toRecord <$> l) end.

Definition revoke (now : Z) (e : tokenEntry) : tokenEntry :=
  mkToken (tID e) (tName e) (tOwner e) (tSHA256Hex e) (tCreatedAt e) (tExpiresAt e)
    (match tRevokedAt e with None => Some (seconds now) | o => o end).

(** The first token of that id. *)
Fixpoint revokeFirst (id : string) (now : Z) (l : list tokenEntry) : option (list tokenEntry) :=
  match l with
  | [] => None
  | e :: l =>
    if (tID e =? id)%string then Some (revoke now e :: l) else cons e <$> revokeFirst id now l
  end.

Definition RevokeToken (id : string) (now : Z) (read : bool) (a : WriteAns) (s : Store)
    : option AuthErr * Store :=
  match loadTokens read s with
  | None => (Some ErrFile, s)
  | Some l =>
    match revokeFirst id now l with
    | None => (Some ErrTokenNotFound, s)
    | Some l' => saveTokens a l' s
    end
  end.

(** * Sessions *)

Record Session := mkSession {
  sID : string; sOwner : string; sCSRFToken : string; sCreatedAt : Z; sExpiresAt : Z }.

Record Sessions := mkSessions { ttl : Z; entries : gmap string Session }.

(** [None]: the code panics. *)
Definition NewSessions (ttl : Z) : option Sessions :=
  if ttl <=? 0 then None else Some (mkSessions ttl ∅).

Definition sweepExpiredLocked (now : Z) (s : Sessions) : Sessions :=
  mkSessions (ttl s) (filter (λ '(_, x), ¬ sExpiresAt x < now) (entries s)).

(** [draws]: what [randToken] returns, in turn; [None] when more would be drawn. *)
Definition CreateSession (owner : string) (draws : list string) (now : Z) (s : Sessions)
    : option (Session * Sessions) :=
  let s := sweepExpiredLocked now s in
  match draws with
  | [] => None
  | id :: draws =>
    match List.find (λ c, negb (c =? id)%string) draws with
    | None => None
    | Some csrf =>
      let x := mkSession id owner csrf now (now + ttl s) in
      Some (x, mkSessions (ttl s) (<[id := x]> (entries s)))
    end
  end.

Definition GetSession (id : string) (now : Z) (s : Sessions) : option Session * Sessions :=
  let s := sweepExpiredLocked now s in (entries s !! id, s).

Definition RevokeSession (id : string) (now : Z) (s : Sessions) : bool * Sessions :=
  let s := sweepExpiredLocked now s in
  match entries s !! id with
  | None => (false, s)
  | Some _ => (true, mkSessions (ttl s) (delete id (entries s)))
  end.

(** * The boundary *)

(** A request as net/http hands it over: canonical header names, parsed cookies. *)
Record Req := mkReq {
  qMethod : string; qPath : string; qHeader : list (string * string);
  qCookies : list (string * string); qBody : string; qRemoteAddr : string }.

Definition values (r : Req) (name : string) : list string :=
  snd <$> List.filter (λ h, h.1 =? name)%string (qHeader r).
Definition header (r : Req) (name : string) : string := default "" (head (values r name)).
Definition cookie (r : Req) (name : string) : option string :=
  snd <$> List.find (λ c, c.1 =? name)%string (qCookies r).

Definition SessionCookieName : string := "vmobs_session".
Definition csrfHeader : string := "X-Csrf-Token".
Definition basePath : string := "/api/v1".
Definition uiPrefix : string := "/ui/".

Record AuthConfig := mkAuthConfig {
  Enabled : bool; PublicOrigin : string; CookieSameSite : Z; CookieSecure : bool }.

Definition headerHasToken (r : Req) (name token : string) : bool :=
  existsb (λ v, existsb (λ part, EqualFold (TrimSpace part) token) (SplitComma v)) (values r name).

Definition isWebSocketUpgrade (r : Req) : bool :=
  headerHasToken r "Connection" "upgrade" &&
  EqualFold (TrimSpace (header r "Upgrade")) "websocket".

(** Why an upgrade's origin is refused. *)
Definition originAllowed (ac : AuthConfig) (r : Req) : option string :=
  let origin := header r "Origin" in
  if (PublicOrigin ac =? "")%string then Some "public_origin_unset"
  else if (origin =? "")%string then Some "origin_rejected"
  else if negb (origin =? PublicOrigin ac)%string then Some "origin_rejected"
  else None.

Definition isExempt (r : Req) : bool :=
  ((qMethod r =? "GET")%string && (qPath r =? basePath +:+ "/meta")%string) ||
  ((qMethod r =? "POST")%string && (qPath r =? basePath +:+ "/auth/login")%string) ||
  (((qMethod r =? "GET")%string || (qMethod r =? "HEAD")%string) &&
   ((qPath r =? "/")%string || String.prefix uiPrefix (qPath r))).

Definition isMutating (m : string) : bool :=
  existsb (String.eqb m) ["POST"; "PUT"; "PATCH"; "DELETE"].

Record Identity := mkIdentity {
  iOwner : string; iMethod : string; iSessionID : string; iTokenID : string }.

Record Cookie := mkCookie { cValue : string; cExpires : option Z; cMaxAge : Z; cSameSite : Z; cSecure : bool }.

Inductive Body :=
  | BError (code cause : string)
  | BLogin (owner : string) (expires : Z) (csrf : string)
  | BEnded
  | BIdentity (owner method : string) (session : option (Z * string)) (token : string)
  | BToken (rec : TokenRecord) (secret : string)
  | BTokens (l : list TokenRecord)
  | BRevoked
  | BOther.

Record Resp := mkResp { pStatus : Z; pBody : Body; pCookie : option Cookie }.
Definition writeError (status : Z) (code cause : string) : Resp := mkResp status (BError code cause) None.

Definition expiredCookie (ac : AuthConfig) : Cookie := mkCookie "" None (-1) (CookieSameSite ac) (CookieSecure ac).

(** What the middleware decides: to hand the request on, with an identity or none, or
    to answer itself. [now], [read]: the clock and the token file at the check. *)
Inductive Verdict := Pass (id : option Identity) | Refuse (r : Resp).

Definition bearer (r : Req) : option string :=
  let hdr := header r "Authorization" in
  if String.prefix "Bearer " hdr then Some (String.substring 7 (String.length hdr - 7) hdr) else None.

Definition withAuth (ac : AuthConfig) (r : Req) (now : Z) (read : bool) (st : Store) (ss : Sessions)
    : Verdict * Sessions :=
  if isExempt r then (Pass None, ss) else
  match (if isWebSocketUpgrade r then originAllowed ac r else None) with
  | Some cause => (Refuse (writeError 403 "forbidden" cause), ss)
  | None =>
    if negb (Enabled ac) then (Pass (Some (mkIdentity "local_operator" "none" "" "")), ss) else
    match bearer r with
    | Some secret =>
      (match VerifyToken secret now read st with
       | Err ErrBadCredentials => Refuse (writeError 401 "unauthenticated" "invalid_token")
       | Err _ => Refuse (writeError 500 "internal" "storage_failure")
       | Ok rec => Pass (Some (mkIdentity (rOwner rec) "token" "" (rID rec)))
       end, ss)
    | None =>
      match cookie r SessionCookieName with
      | Some c =>
        let '(o, ss) := GetSession c now ss in
        (match o with
         | None => Refuse (mkResp 401 (BError "unauthenticated" "session_invalid_or_expired")
                             (Some (expiredCookie ac)))
         | Some sess =>
           let origin := header r "Origin" in
           if isMutating (qMethod r) && negb (origin =? "")%string && negb (origin =? PublicOrigin ac)%string
           then Refuse (writeError 403 "forbidden" "origin_rejected")
           else if isMutating (qMethod r) && negb (header r csrfHeader =? sCSRFToken sess)%string
           then Refuse (writeError 403 "forbidden" "csrf_rejected")
           else Pass (Some (mkIdentity (sOwner sess) "session" (sID sess) ""))
         end, ss)
      | None => (Refuse (writeError 401 "unauthenticated" "no_credentials"), ss)
      end
    end
  end.

(** * The handlers *)

(** The server's state that authentication uses; [emitted]: the events handed to the
    store, whose answers do not matter. *)
Record Api := mkApi {
  creds : Store; sessions : Sessions; authInstID : string; authSeq : Z; emitted : list Events.Envelope }.

Definition set_creds c (s : Api) : Api := mkApi c (sessions s) (authInstID s) (authSeq s) (emitted s).
Definition set_sessions x (s : Api) : Api := mkApi (creds s) x (authInstID s) (authSeq s) (emitted s).

Definition authEnvelope (inst : string) (seq : Z) (kind : string) (data : Events.object) (now : Z)
    : Events.Envelope :=
  Events.mkEnvelope 1 None None None inst (Strconv.FormatInt seq) kind Events.HostObserved "api" now
    "" "" None None None None [] (Events.mkQuality Events.PathNotApplicable
      Events.AttributionNotApplicable false false "" []) (Some data).

Definition appendAuthEvent (kind : string) (data : Events.object) (now : Z) (s : Api) : Api :=
  let seq := Int.i64 (authSeq s + 1) in
  mkApi (creds s) (sessions s) (authInstID s) seq
    (emitted s ++ [authEnvelope (authInstID s) seq kind data now]).

(** What a handler finds around it: the clock, the random values, the files. *)
Record Env := mkEnv {
  eNow : Z; eRead : bool; eWrite : WriteAns; eDraws : list string;
  eSecret : option string; eID : option string }.

(** The JSON decoder of bodies, which reads at most 4096 bytes; the texts of times;
    and the other routes of the API. *)
Context (decLogin : string → option (string * string)) (decToken : string → option (string * option Z))
        (timeText : Z → string).
Definition limited (body : string) : string := String.substring 0 4096 body.

Definition authDisabled : Resp := writeError 409 "auth_disabled" "auth_disabled".

Definition handleAuthLogin (ac : AuthConfig) (r : Req) (e : Env) (s : Api) : option (Resp * Api) :=
  if negb (Enabled ac) then Some (authDisabled, s) else
  match decLogin (limited (qBody r)) with
  | None => Some (writeError 400 "malformed_request" "body_invalid", s)
  | Some (username, password) =>
    match VerifyPassword username password (eRead e) (creds s) with
    | Err _ =>
      let name := if (64 <? String.length username)%nat then String.substring 0 64 username else username in
      let data := [("username", Events.JStr name); ("remote_addr", Events.JStr (qRemoteAddr r))] ++
        (if (64 <? String.length username)%nat then [("truncated", Events.JBool true)] else []) in
      Some (writeError 401 "unauthenticated" "invalid_credentials",
            appendAuthEvent "auth.login_failed" data (eNow e) s)
    | Ok owner =>
      match CreateSession owner (eDraws e) (eNow e) (sessions s) with
      | None => None
      | Some (x, ss) =>
        let data := [("owner", Events.JStr owner); ("remote_addr", Events.JStr (qRemoteAddr r));
                     ("expires_at", Events.JStr (timeText (seconds (sExpiresAt x))))] in
        Some (mkResp 200 (BLogin owner (seconds (sExpiresAt x)) (sCSRFToken x))
                (Some (mkCookie (sID x) (Some (sExpiresAt x)) 0 (CookieSameSite ac) (CookieSecure ac))),
              appendAuthEvent "auth.session_created" data (eNow e) (set_sessions ss s))
      end
    end
  end.

Definition handleAuthLogout (ac : AuthConfig) (id : option Identity) (e : Env) (s : Api) : Resp * Api :=
  if negb (Enabled ac) then (authDisabled, s) else
  match id with
  | Some id =>
    if negb (iMethod id =? "session")%string then (writeError 400 "bad_request" "not_a_session", s) else
    let '(_, ss) := RevokeSession (iSessionID id) (eNow e) (sessions s) in
    (mkResp 200 BEnded (Some (expiredCookie ac)),
     appendAuthEvent "auth.session_ended"
       [("owner", Events.JStr (iOwner id)); ("reason", Events.JStr "logout")] (eNow e) (set_sessions ss s))
  | None => (writeError 400 "bad_request" "not_a_session", s)
  end.

Definition handleAuthSession (id : option Identity) (e : Env) (s : Api) : Resp * Api :=
  match id with
  | None => (mkResp 200 (BIdentity "local_operator" "none" None "") None, s)
  | Some id =>
    if (iMethod id =? "session")%string then
      let '(o, ss) := GetSession (iSessionID id) (eNow e) (sessions s) in
      (match o with
       | None => writeError 401 "unauthenticated" "session_invalid_or_expired"
       | Some x => mkResp 200 (BIdentity (iOwner id) "session"
                     (Some (seconds (sExpiresAt x), sCSRFToken x)) "") None
       end, set_sessions ss s)
    else if (iMethod id =? "token")%string
    then (mkResp 200 (BIdentity (iOwner id) "token" None (iTokenID id)) None, s)
    else (mkResp 200 (BIdentity (iOwner id) "none" None "") None, s)
  end.

Definition handleTokenCreate (ac : AuthConfig) (r : Req) (id : option Identity) (e : Env) (s : Api)
    : Resp * Api :=
  if negb (Enabled ac) then (authDisabled, s) else
  match decToken (limited (qBody r)) with
  | None => (writeError 400 "malformed_request" "body_invalid", s)
  | Some (name, minutes) =>
    if (name =? "")%string then (writeError 400 "validation_failed" "name_required", s) else
    if (128 <? String.length name)%nat then (writeError 400 "validation_failed" "name_too_long", s) else
    match id with
    | None => (writeError 500 "internal" "no_identity", s)
    | Some id =>
      match TokenTTL (default 0 minutes) with
      | Err _ => (writeError 400 "validation_failed" "ttl_invalid", s)
      | Ok ttl =>
        let '(o, st) := CreateToken name (iOwner id) ttl (eSecret e) (eID e) (eNow e) (eRead e)
                          (eWrite e) (creds s) in
        match o with
        | Err _ => (writeError 500 "internal" "storage_failure", set_creds st s)
        | Ok (secret, rec) =>
          (mkResp 201 (BToken rec secret) None,
           appendAuthEvent "auth.token_created"
             [("token_id", Events.JStr (rID rec)); ("name", Events.JStr (rName rec));
              ("owner", Events.JStr (rOwner rec))] (eNow e) (set_creds st s))
        end
      end
    end
  end.

Definition handleTokenList (ac : AuthConfig) (e : Env) (s : Api) : Resp :=
  if negb (Enabled ac) then authDisabled else
  match ListTokens (eRead e) (creds s) with
  | Err _ => writeError 500 "internal" "storage_failure"
  | Ok l => mkResp 200 (BTokens l) None
  end.

Definition handleTokenRevoke (ac : AuthConfig) (tokenID : string) (id : option Identity) (e : Env)
    (s : Api) : Resp * Api :=
  if negb (Enabled ac) then (authDisabled, s) else
  if (tokenID =? "")%string then (writeError 400 "bad_request" "id_missing", s) else
  match id with
  | None => (writeError 500 "internal" "no_identity", s)
  | Some id =>
    let '(err, st) := RevokeToken tokenID (eNow e) (eRead e) (eWrite e) (creds s) in
    match err with
    | Some ErrTokenNotFound => (writeError 404 "not_found" "token_not_found", set_creds st s)
    | Some _ => (writeError 500 "internal" "storage_failure", set_creds st s)
    | None =>
      (mkResp 200 BRevoked None,
       appendAuthEvent "auth.token_revoked"
         [("token_id", Events.JStr tokenID); ("owner", Events.JStr (iOwner id))] (eNow e) (set_creds st s))
    end
  end.

(** The routes of authentication; the others do not touch its state. A pattern for
    GET also serves HEAD; an id is one segment of the path. *)
Definition tokensPath : string := basePath +:+ "/auth/tokens".
Definition segment (s : string) : bool :=
  negb (existsb (λ c, code c =? 47) (String.list_ascii_of_string s)).

Definition handle (ac : AuthConfig) (r : Req) (id : option Identity) (e : Env) (s : Api)
    : option (Resp * Api) :=
  let get := ((qMethod r =? "GET") || (qMethod r =? "HEAD"))%string in
  let post := (qMethod r =? "POST")%string in
  let path p := (qPath r =? basePath +:+ p)%string in
  let n := S (String.length tokensPath) in
  let rest := String.substring n (String.length (qPath r) - n) (qPath r) in
  if post && path "/auth/login" then handleAuthLogin ac r e s
  else if post && path "/auth/logout" then Some (handleAuthLogout ac id e s)
  else if get && path "/auth/session" then Some (handleAuthSession id e s)
  else if post && path "/auth/tokens" then Some (handleTokenCreate ac r id e s)
  else if get && path "/auth/tokens" then Some (handleTokenList ac e s, s)
  else if (qMethod r =? "DELETE")%string && String.prefix (tokensPath +:+ "/") (qPath r) && segment rest &&
          negb (rest =? "")%string
  then Some (handleTokenRevoke ac rest id e s)
  else Some (mkResp 200 BOther None, s).

(** [initAuthState], at the start of the process; [inst]: a random UUID. *)
Definition initAuthState (st : Store) (ss : Sessions) (inst : string) : Api := mkApi st ss inst 0 [].

End crypto.
End Auth.
