(* ===== verification/AuthRuns.v ===== *)
(** What authentication guarantees in every execution of the API server: requests
    are checked and handled concurrently, and the process restarts. *)

From S2P Require Import Prelude Text Events Auth.
Import Text Auth.

Local Open Scope Z_scope.

Module AuthRuns.

Section runs.
Context (argon2 : string → string → Z → Z → Z → Z → string) (sha256Hex : string → string)
        (decLogin : string → option (string * string)) (decToken : string → option (string * option Z))
        (timeText : Z → string) (ac : AuthConfig).
Abbreviation withAuth := (withAuth sha256Hex ac).
Abbreviation handle := (handle argon2 sha256Hex decLogin decToken timeText ac).

(** * Executions *)

(** [flight]: the requests between the middleware and their handler. *)
Record Sys := mkSys { api : Api; flight : list (Req * option Identity) }.

Inductive Ev :=
  | EEnter (r : Req) (now : Z) (v : Verdict)
  | EHandle (r : Req) (id : option Identity) (e : Env) (resp : Resp)
  | ERestart (inst : string).

Definition ids (st : Store) : list string := tID <$> default [] (tokens st).

(** A new token's id is not in use: eight random bytes. *)
Definition freshID (e : Env) (st : Store) : Prop :=
  ∀ raw, eID e = Some raw → tokenID raw ∉ ids st.

Inductive astep : Ev → Sys → Sys → Prop :=
  | a_enter r now read v ss s :
      withAuth r now read (creds (api s)) (sessions (api s)) = (v, ss) →
      astep (EEnter r now v) s
        (mkSys (set_sessions ss (api s))
           (match v with Pass id => (r, id) :: flight s | Refuse _ => flight s end))
  | a_handle r id e resp a' f1 f2 s :
      flight s = f1 ++ (r, id) :: f2 → freshID e (creds (api s)) →
      handle r id e (api s) = Some (resp, a') → astep (EHandle r id e resp) s (mkSys a' (f1 ++ f2))
  | a_restart ttl ss inst s :
      NewSessions ttl = Some ss →
      astep (ERestart inst) s (mkSys (initAuthState (creds (api s)) ss inst) []).

Inductive asteps : Sys → list Ev → Sys → Prop :=
  | asteps_nil s : asteps s [] s
  | asteps_snoc s es s1 e s2 : asteps s es s1 → astep e s1 s2 → asteps s (es ++ [e]) s2.

(** A server over a store that was initialised for one operator. *)
Definition started (user : string) (ph : passwordHash) (s : Sys) : Prop :=
  (∃ rec, operator (creds (api s)) = Some rec ∧ oUsername rec = user ∧ oPasswordHash rec = ph) ∧
  NoDup (ids (creds (api s))) ∧
  Forall (λ t, tOwner t = user) (default [] (tokens (creds (api s)))) ∧
  entries (sessions (api s)) = ∅ ∧ flight s = [].

(** * What justifies an identity *)

(** A login that was granted the session [x]. *)
Definition granted (ph : passwordHash) (x : Session) (ev : Ev) : Prop :=
  ∃ r e password c, ev = EHandle r None e (mkResp 200 (BLogin (sOwner x) (seconds (sExpiresAt x)) (sCSRFToken x)) (Some c)) ∧
    cValue c = sID x ∧ cExpires c = Some (sExpiresAt x) ∧
    decLogin (limited (qBody r)) = Some (sOwner x, password) ∧ verify argon2 ph password = true.

(** What ends a session before its time. *)
Definition ends (id : string) (ev : Ev) : Prop :=
  (∃ inst, ev = ERestart inst) ∨ ∃ r i e c, ev = EHandle r (Some i) e (mkResp 200 BEnded c) ∧ iSessionID i = id.

(** A token minted for an authenticated caller. *)
Definition mints (t : tokenEntry) (ev : Ev) : Prop :=
  ∃ r i e resp raw rawID, ev = EHandle r (Some i) e resp ∧
    eSecret e = Some raw ∧ eID e = Some rawID ∧ tID t = tokenID rawID ∧
    tSHA256Hex t = sha256Hex (tokenSecret raw) ∧ tOwner t = iOwner i.

(** An acknowledged revocation. *)
Definition revokes (id : string) (ev : Ev) : Prop :=
  ∃ r i e c, ev = EHandle r i e (mkResp 200 BRevoked c) ∧
    qPath r = tokensPath +:+ "/" +:+ id.

Definition tokenJustified (st0 : Store) (es : list Ev) (r : Req) (now : Z) (i : Identity) : Prop :=
  ∃ secret t, bearer r = Some secret ∧ tSHA256Hex t = sha256Hex secret ∧
    i = mkIdentity (tOwner t) "token" "" (tID t) ∧
    ((∃ t0, t0 ∈ default [] (tokens st0) ∧ tSHA256Hex t0 = tSHA256Hex t ∧ tID t0 = tID t) ∨
     Exists (mints t) es) ∧
    match tExpiresAt t with Never => True | At x => now ≤ x | Garbled => False end ∧
    ¬ Exists (revokes (tID t)) es.

Definition sessionJustified (ph : passwordHash) (es : list Ev) (r : Req) (now : Z) (i : Identity) : Prop :=
  ∃ x es1 ev es2, cookie r SessionCookieName = Some (sID x) ∧
    i = mkIdentity (sOwner x) "session" (sID x) "" ∧ now ≤ sExpiresAt x ∧
    es = es1 ++ [ev] ++ es2 ∧ granted ph x ev ∧ ¬ Exists (ends (sID x)) es2 ∧
    (isMutating (qMethod r) = true →
       header r csrfHeader = sCSRFToken x ∧
       (header r "Origin" = "" ∨ header r "Origin" = PublicOrigin ac)).

(** Why the middleware may hand on a request. *)
Definition justified (st0 : Store) (user : string) (ph : passwordHash) (es : list Ev)
    (r : Req) (now : Z) (id : option Identity) : Prop :=
  isExempt r = true ∧ id = None ∨
  (isWebSocketUpgrade r = true → PublicOrigin ac ≠ "" ∧ header r "Origin" = PublicOrigin ac) ∧
  ∃ i, id = Some i ∧
    (Enabled ac = false ∧ i = mkIdentity "local_operator" "none" "" "" ∨
     Enabled ac = true ∧ iOwner i = user ∧
     (tokenJustified st0 es r now i ∨ sessionJustified ph es r now i)).

(** * The invariant *)

Record ainv (st0 : Store) (user : string) (ph : passwordHash) (es : list Ev) (s : Sys) : Prop := {
  ai_operator : ∃ rec, operator (creds (api s)) = Some rec ∧ oUsername rec = user ∧ oPasswordHash rec = ph;
  ai_ids : NoDup (ids (creds (api s)));
  ai_tokens : ∀ t, t ∈ default [] (tokens (creds (api s))) → tOwner t = user ∧
    ((∃ t0, t0 ∈ default [] (tokens st0) ∧ tSHA256Hex t0 = tSHA256Hex t ∧ tID t0 = tID t) ∨
     Exists (mints t) es);
  ai_revoked : ∀ id, Exists (revokes id) es →
    ∃ t, t ∈ default [] (tokens (creds (api s))) ∧ tID t = id ∧ tRevokedAt t ≠ None;
  ai_sessions : ∀ id x, entries (sessions (api s)) !! id = Some x → sID x = id ∧ sOwner x = user ∧
    ∃ es1 ev es2, es = es1 ++ [ev] ++ es2 ∧ granted ph x ev ∧ ¬ Exists (ends id) es2;
  ai_flight : ∀ r i, (r, Some i) ∈ flight s → Enabled ac = true → iOwner i = user;
  ai_exempt : ∀ r id, (r, id) ∈ flight s → isExempt r = true → id = None
}.

(** ** What a handler did *)

Definition quiet (resp : Resp) : Prop :=
  match pBody resp with BEnded | BRevoked | BLogin _ _ _ => False | _ => True end.

Definition silent (resp : Resp) : Prop := quiet resp ∧ match pBody resp with BToken _ _ => False | _ => True end.

Lemma substring_all s : String.substring 0 (String.length s) s = s.
Proof. induction s as [|c s IH]; [done|]. cbn. by rewrite IH. Qed.

Lemma prefix_split p s :
  String.prefix p s = true → s = p +:+ String.substring (String.length p) (String.length s - String.length p) s.
Proof.
  revert s. induction p as [|c p IH]; intros s Hp; cbn [String.length].
  - rewrite Nat.sub_0_r, substring_all. done.
  - destruct s as [|d s]; [done|]. cbn in Hp. destruct (Ascii.ascii_dec c d) as [->|]; [|done].
    change (String d s = String d (p +:+ String.substring (String.length p) (String.length s - String.length p) s)).
    f_equal. by apply IH.
Qed.

Inductive did (r : Req) (id : option Identity) (e : Env) (s : Api) (resp : Resp) (s' : Api) : Prop :=
  | did_nothing :
      creds s' = creds s → entries (sessions s') ⊆ entries (sessions s) → silent resp → did r id e s resp s'
  | did_login u p x c :
      isExempt r = true → decLogin (limited (qBody r)) = Some (u, p) →
      VerifyPassword argon2 u p (eRead e) (creds s) = Ok (sOwner x) →
      CreateSession (sOwner x) (eDraws e) (eNow e) (sessions s) = Some (x, sessions s') →
      creds s' = creds s → cValue c = sID x → cExpires c = Some (sExpiresAt x) →
      resp = mkResp 200 (BLogin (sOwner x) (seconds (sExpiresAt x)) (sCSRFToken x)) (Some c) →
      did r id e s resp s'
  | did_logout i c :
      id = Some i → creds s' = creds s →
      sessions s' = (RevokeSession (iSessionID i) (eNow e) (sessions s)).2 →
      resp = mkResp 200 BEnded c → did r id e s resp s'
  | did_mint i name ttl o :
      id = Some i → Enabled ac = true →
      CreateToken sha256Hex name (iOwner i) ttl (eSecret e) (eID e) (eNow e) (eRead e) (eWrite e) (creds s) =
        (o, creds s') →
      sessions s' = sessions s → quiet resp →
      (∀ rec secret, pBody resp = BToken rec secret → o = Ok (secret, rec)) → did r id e s resp s'
  | did_revoke tid err c :
      qPath r = tokensPath +:+ "/" +:+ tid →
      RevokeToken tid (eNow e) (eRead e) (eWrite e) (creds s) = (err, creds s') →
      sessions s' = sessions s → (resp = mkResp 200 BRevoked c ∧ err = None ∨ silent resp) →
      did r id e s resp s'.

Lemma login_did r id e s resp s' :
  isExempt r = true → handleAuthLogin argon2 decLogin timeText ac r e s = Some (resp, s') → did r id e s resp s'.
Proof.
  intros Hex. unfold handleAuthLogin. destruct (negb (Enabled ac)); [intros [= <- <-]; by apply did_nothing|].
  destruct (decLogin _) as [[u p]|] eqn:Ed; [|intros [= <- <-]; by apply did_nothing].
  destruct (VerifyPassword _ _ _ _ _) as [owner|err] eqn:Ev; [|intros [= <- <-]; by apply did_nothing].
  destruct (CreateSession _ _ _ _) as [[x ss]|] eqn:Ec; [|done]. intros [= <- <-].
  assert (sOwner x = owner) as <-.
  { revert Ec. unfold CreateSession. destruct (eDraws e); [done|]. destruct (List.find _ _); [|done]. by intros [= <- _]. }
  by apply (did_login _ _ _ _ _ _ u p x (mkCookie (sID x) (Some (sExpiresAt x)) 0 (CookieSameSite ac) (CookieSecure ac))).
Qed.

Lemma sweep_sub now ss : entries (sweepExpiredLocked now ss) ⊆ entries ss.
Proof. apply map_filter_subseteq. Qed.

(** The outermost test of a handler. *)
Ltac route E := match goal with |- (if ?b then _ else _) = _ → _ => destruct b eqn:E end.
Ltac test := let E := fresh in route E.

Lemma handle_did r id e s resp s' : handle r id e s = Some (resp, s') → did r id e s resp s'.
Proof.
  unfold Auth.handle. cbv zeta.
  route E1.
  { apply login_did. apply andb_true_iff in E1 as [E1 E2]. unfold isExempt. rewrite E1, E2. by rewrite orb_true_r. }
  route E2; [|route E3; [|route E4; [|route E6; [|route E5]]]]; intros H; apply (inj Some) in H.
  - revert H. unfold handleAuthLogout. test; [intros [= <- <-]; by apply did_nothing|].
    destruct id as [i|]; [|intros [= <- <-]; by apply did_nothing].
    test; [intros [= <- <-]; by apply did_nothing|].
    destruct (RevokeSession _ _ _) as [b ss] eqn:Er. intros [= <- <-]. eapply did_logout; try done. by rewrite Er.
  - revert H. unfold handleAuthSession. destruct id as [i|]; [|intros [= <- <-]; by apply did_nothing].
    test; [|test; intros [= <- <-]; by apply did_nothing].
    cbn. intros [= <- <-]. apply did_nothing; [done|apply sweep_sub|]. by destruct (_ !! _).
  - revert H. unfold handleTokenCreate. destruct (Enabled ac) eqn:Een; cbn [negb]; [|intros [= <- <-]; by apply did_nothing].
    destruct (decToken _) as [[name minutes]|]; [|intros [= <- <-]; by apply did_nothing].
    test; [intros [= <- <-]; by apply did_nothing|].
    test; [intros [= <- <-]; by apply did_nothing|].
    destruct id as [i|]; [|intros [= <- <-]; by apply did_nothing].
    destruct (TokenTTL _) as [ttl|]; [|intros [= <- <-]; by apply did_nothing].
    destruct (CreateToken _ _ _ _ _ _ _ _ _ _) as [o st] eqn:Ec.
    destruct o as [[secret rec]|]; intros [= <- <-]; eapply did_mint; try done. by intros ? ? [= <- <-].
  - injection H as <- <-. apply did_nothing; try done. unfold handleTokenList.
    destruct (negb _); [done|]. by destruct (ListTokens _ _).
  - apply andb_true_iff in E5 as [E5 _]. apply andb_true_iff in E5 as [E5 _]. apply andb_true_iff in E5 as [_ E5].
    apply prefix_split in E5.
    set (rest := String.substring _ _ _) in *.
    revert H. unfold handleTokenRevoke. test; [intros [= <- <-]; by apply did_nothing|].
    test; [intros [= <- <-]; by apply did_nothing|].
    destruct id as [i|]; [|intros [= <- <-]; by apply did_nothing].
    destruct (RevokeToken _ _ _ _ _) as [err st] eqn:Er.
    destruct err as [[]|]; intros [= <- <-]; (eapply (did_revoke _ _ _ _ _ _ rest _ None); [|exact Er|done|first [left; done|right; done]]);
      rewrite E5 at 1; done.
  - injection H as <- <-. by apply did_nothing.
Qed.

(** ** The token file *)

Definition listed (st : Store) : list tokenEntry := default [] (tokens st).

Lemma loadTokens_listed read st l : loadTokens read st = Some l → l = listed st.
Proof. unfold loadTokens, listed. destruct (tokens st); [destruct read; [by intros [= <-]|done]|by intros [= <-]]. Qed.

Lemma CreateToken_file name owner ttl rs ri now read a st o st' :
  CreateToken sha256Hex name owner ttl rs ri now read a st = (o, st') →
  operator st' = operator st ∧
  (tokens st' = tokens st ∨ ∃ raw rawID, rs = Some raw ∧ ri = Some rawID ∧
     tokens st' = Some (listed st ++ [newEntry sha256Hex name owner ttl raw rawID now])).
Proof.
  unfold CreateToken. destruct (_ || _); [intros [= _ <-]; auto|].
  destruct rs as [raw|]; [|intros [= _ <-]; auto]. destruct ri as [rawID|]; [|intros [= _ <-]; auto].
  destruct (loadTokens read st) as [l|] eqn:El; [|intros [= _ <-]; auto]. apply loadTokens_listed in El as ->.
  destruct a as [|[]]; cbn; intros [= _ <-]; cbn; eauto 10.
Qed.

Lemma CreateToken_Ok name owner ttl rs ri now read a st secret rec st' :
  CreateToken sha256Hex name owner ttl rs ri now read a st = (Ok (secret, rec), st') →
  ∃ t, t ∈ listed st' ∧ toRecord t = rec ∧ tSHA256Hex t = sha256Hex secret ∧
    tRevokedAt t = None ∧ tExpiresAt t ≠ Garbled.
Proof.
  unfold CreateToken. destruct (_ || _); [done|]. destruct rs as [raw|]; [|done]. destruct ri as [rawID|]; [|done].
  destruct (loadTokens read st) as [l|]; [|done]. destruct a as [|[]]; cbn; intros [=]. subst.
  eexists. unfold listed. cbn. split; [apply elem_of_app; right; by apply list_elem_of_singleton|].
  split_and!; try done. cbn. by destruct (0 <? ttl).
Qed.

(** Tokens with one id are one token. *)
Lemma ids_unique (l : list tokenEntry) t t' :
  NoDup (tID <$> l) → t ∈ l → t' ∈ l → tID t = tID t' → t = t'.
Proof.
  intros Hnd [k H1]%list_elem_of_lookup [k' H2]%list_elem_of_lookup E.
  assert (k = k') as ->; [|congruence].
  eapply NoDup_lookup; [exact Hnd|by rewrite list_lookup_fmap, H1|]. rewrite list_lookup_fmap, H2. cbn. congruence.
Qed.

Lemma revokeFirst_spec id now l l' :
  revokeFirst id now l = Some l' → ∃ l1 t l2, l = l1 ++ t :: l2 ∧ tID t = id ∧ l' = l1 ++ revoke now t :: l2.
Proof.
  revert l'. induction l as [|e l IH]; intros l'; [done|]. cbn [revokeFirst].
  destruct (tID e =? id)%string eqn:E.
  - apply String.eqb_eq in E. intros [= <-]. by exists [], e, l.
  - destruct (revokeFirst id now l) as [l0|]; [|done]. intros [= <-].
    destruct (IH _ eq_refl) as (l1 & t & l2 & -> & ? & ->). by exists (e :: l1), t, l2.
Qed.

Lemma RevokeToken_file id now read a st err st' :
  RevokeToken id now read a st = (err, st') →
  operator st' = operator st ∧
  (tokens st' = tokens st ∧ err ≠ None ∨ ∃ l1 t l2, listed st = l1 ++ t :: l2 ∧ tID t = id ∧
     tokens st' = Some (l1 ++ revoke now t :: l2)).
Proof.
  unfold RevokeToken. destruct (loadTokens read st) as [l|] eqn:El; [|intros [= <- <-]; auto].
  apply loadTokens_listed in El as ->. destruct (revokeFirst id now (listed st)) as [l'|] eqn:Er; [|intros [= <- <-]; auto].
  apply revokeFirst_spec in Er as (l1 & t & l2 & E & Ht & ->).
  destruct a as [|[]]; cbn; intros [= <- <-]; cbn; eauto 10.
Qed.

(** ** Steps *)

Lemma VerifyToken_Ok secret now read st rec :
  VerifyToken sha256Hex secret now read st = Ok rec →
  ∃ t, t ∈ listed st ∧ tSHA256Hex t = sha256Hex secret ∧ rec = toRecord t ∧ admits now t = true.
Proof.
  unfold VerifyToken. destruct (loadTokens read st) as [l|] eqn:El; [|done]. apply loadTokens_listed in El as ->.
  destruct (List.find _ _) as [t|] eqn:Ef; [|done]. apply List.find_some in Ef as [Hin Hh].
  destruct (admits now t) eqn:Ea; [|done]. intros [= <-]. exists t.
  apply list_elem_of_In in Hin. apply String.eqb_eq in Hh. done.
Qed.

Lemma enter_justified st0 user ph es s r now read id ss :
  ainv st0 user ph es s → withAuth r now read (creds (api s)) (sessions (api s)) = (Pass id, ss) →
  justified st0 user ph es r now id.
Proof.
  intros [Op Nd Tk Rv Se Fl Ex]. unfold Auth.withAuth. destruct (isExempt r) eqn:Ee; [intros [= <- _]; by left|].
  destruct (if isWebSocketUpgrade r then originAllowed ac r else None) as [cause|] eqn:Eo; [done|]. intros H. right.
  split.
  { intros Hw. rewrite Hw in Eo. revert Eo. unfold originAllowed.
    destruct (String.eqb_spec (PublicOrigin ac) ""); [done|]. destruct (String.eqb_spec (header r "Origin") ""); [done|].
    destruct (String.eqb_spec (header r "Origin") (PublicOrigin ac)); done. }
  revert H. destruct (Enabled ac); cbn [negb]; [|intros [= <- _]; eauto].
  destruct (bearer r) as [secret|] eqn:Eb.
  - destruct (VerifyToken _ _ _ _ _) as [rec|[]] eqn:Ev; intros [= <- _]. eexists. split; [done|]. right.
    apply VerifyToken_Ok in Ev as (t & Ht & Hh & -> & Ha). destruct (Tk _ Ht) as [Ho Hor]. split; [done|]. split; [done|].
    left. exists secret, t. unfold admits in Ha. destruct (tRevokedAt t) eqn:Er; [done|]. split_and!; try done.
    + destruct (tExpiresAt t); try done. apply negb_true_iff, Z.ltb_ge in Ha. done.
    + intros (t' & Ht' & Eid & Hr)%Rv. assert (t' = t) as ->; [|done]. unfold listed in Ht.
      by apply (ids_unique _ _ _ Nd).
  - destruct (cookie r SessionCookieName) as [c|] eqn:Ec; [|done].
    unfold GetSession. cbn [entries sweepExpiredLocked]. destruct (filter _ _ !! c) as [x|] eqn:Ex'; [|done]. apply map_lookup_filter_Some in Ex' as [Hx Hexp].
    destruct (Se _ _ Hx) as (Eid & Ho & es1 & ev & es2 & Hes & Hg & Hn).
    destruct (isMutating (qMethod r) && negb (header r "Origin" =? "")%string &&
      negb (header r "Origin" =? PublicOrigin ac)%string) eqn:E1; [done|].
    destruct (isMutating (qMethod r) && negb (header r csrfHeader =? sCSRFToken x)%string) eqn:E2; [done|].
    intros [= <- _]. eexists. split; [done|]. right. split; [done|]. split; [done|]. right.
    exists x, es1, ev, es2. subst c. split_and!; try done; [lia|].
    intros Hm. rewrite Hm in E1, E2. cbn [andb] in E1, E2. apply negb_false_iff, String.eqb_eq in E2. split; [done|].
    apply andb_false_iff in E1 as [E1|E1]; apply negb_false_iff, String.eqb_eq in E1; auto.
Qed.

(** A session survives an event that does not end it. *)
Lemma session_kept ph es ev x id :
  ¬ ends id ev →
  (∃ es1 ev0 es2, es = es1 ++ [ev0] ++ es2 ∧ granted ph x ev0 ∧ ¬ Exists (ends id) es2) →
  ∃ es1 ev0 es2, es ++ [ev] = es1 ++ [ev0] ++ es2 ∧ granted ph x ev0 ∧ ¬ Exists (ends id) es2.
Proof.
  intros Hev (es1 & ev0 & es2 & -> & Hg & Hn). exists es1, ev0, (es2 ++ [ev]). split; [by rewrite <- !app_assoc|].
  split; [done|]. rewrite Exists_app, Exists_cons, Exists_nil. tauto.
Qed.

Lemma Exists_snoc {A} (P : A → Prop) l x : Exists P (l ++ [x]) ↔ Exists P l ∨ P x.
Proof. rewrite Exists_app, Exists_cons, Exists_nil. tauto. Qed.

(** What an event that changes no token and ends no session keeps. *)
Lemma ainv_quiet st0 user ph es s ev s' :
  ainv st0 user ph es s → creds (api s') = creds (api s) →
  entries (sessions (api s')) ⊆ entries (sessions (api s)) →
  (∀ id, ¬ ends id ev) → (∀ id, ¬ revokes id ev) →
  (∀ r i, (r, Some i) ∈ flight s' → Enabled ac = true → iOwner i = user) →
  (∀ r id, (r, id) ∈ flight s' → isExempt r = true → id = None) →
  ainv st0 user ph (es ++ [ev]) s'.
Proof.
  intros [Op Nd Tk Rv Se Fl Ex] Ec Hs Hne Hnr Hf1 Hf2. split; rewrite ?Ec; try done.
  - intros t (? & [?|?])%Tk; (split; [done|]); [by left|right; apply Exists_app; by left].
  - intros id [?|?]%Exists_snoc; [auto|by destruct (Hnr id)].
  - intros id x Hx. eapply lookup_weaken in Hx; [|exact Hs]. destruct (Se _ _ Hx) as (? & ? & H).
    split; [done|]. split; [done|]. by apply session_kept.
Qed.

Lemma quiet_not_ends r id e resp x : quiet resp → ¬ ends x (EHandle r id e resp).
Proof. intros Hq [[? ?]|(r' & i & e' & c & [= _ _ _ ->] & _)]; done. Qed.
Lemma quiet_not_revokes r id e resp x : quiet resp → ¬ revokes x (EHandle r id e resp).
Proof. intros Hq (r' & i & e' & c & [= _ _ _ ->] & _). done. Qed.

(** The sessions alone, when the tokens change. *)
Lemma sessions_kept st0 user ph es s ev ss' :
  ainv st0 user ph es s → entries ss' ⊆ entries (sessions (api s)) → (∀ id, is_Some (entries ss' !! id) → ¬ ends id ev) →
  ∀ id x, entries ss' !! id = Some x → sID x = id ∧ sOwner x = user ∧
    ∃ es1 ev0 es2, es ++ [ev] = es1 ++ [ev0] ++ es2 ∧ granted ph x ev0 ∧ ¬ Exists (ends id) es2.
Proof.
  intros [_ _ _ _ Se _ _] Hs Hne id x Hx. pose proof Hx as Hx'. eapply lookup_weaken in Hx; [|exact Hs].
  destruct (Se _ _ Hx) as (? & ? & H). split; [done|]. split; [done|]. apply session_kept; [|done]. apply Hne. eauto.
Qed.

Lemma ainv_mint st0 user ph es s r i e resp name ttl o s' :
  ainv st0 user ph es s → freshID e (creds (api s)) → iOwner i = user →
  CreateToken sha256Hex name (iOwner i) ttl (eSecret e) (eID e) (eNow e) (eRead e) (eWrite e) (creds (api s)) =
    (o, creds (api s')) →
  sessions (api s') = sessions (api s) → quiet resp →
  (∀ r i, (r, Some i) ∈ flight s' → Enabled ac = true → iOwner i = user) →
  (∀ r id, (r, id) ∈ flight s' → isExempt r = true → id = None) →
  ainv st0 user ph (es ++ [EHandle r (Some i) e resp]) s'.
Proof.
  intros H Hfr Ho [Eop [Et|(raw & rawID & E1 & E2 & Et)]]%CreateToken_file Ess Hq Hf1 Hf2.
  { apply (ainv_quiet _ _ _ _ s); try done; [by destruct (creds (api s')), (creds (api s)); cbn in *; congruence|by rewrite Ess| |].
    - intros id. by apply quiet_not_ends.
    - intros id. by apply quiet_not_revokes. }
  pose proof H as [Op Nd Tk Rv Se Fl Ex]. set (t := newEntry _ _ _ _ _ _ _) in *. split; try done.
  - by rewrite Eop.
  - unfold ids. rewrite Et. cbn. rewrite fmap_app. apply NoDup_app. split; [exact Nd|]. split.
    + intros x Hx ->%list_elem_of_singleton. by destruct (Hfr _ E2).
    + apply NoDup_singleton.
  - intros x. rewrite Et. cbn. intros [Hx| ->%list_elem_of_singleton]%elem_of_app.
    + destruct (Tk _ Hx) as [? [?|?]]; (split; [done|]); [by left|right; apply Exists_app; by left].
    + split; [done|]. right. apply Exists_snoc. right. exists r, i, e, resp, raw, rawID. done.
  - intros id [Hid|Hid]%Exists_snoc; [|by apply quiet_not_revokes in Hid]. destruct (Rv _ Hid) as (x & Hx & ? & ?).
    exists x. split; [|done]. rewrite Et. cbn. apply elem_of_app. by left.
  - eapply sessions_kept; [done|by rewrite Ess|]. intros id _. by apply quiet_not_ends.
Qed.

Lemma ainv_revoke st0 user ph es s r id e resp tid err c s' :
  ainv st0 user ph es s → qPath r = tokensPath +:+ "/" +:+ tid →
  RevokeToken tid (eNow e) (eRead e) (eWrite e) (creds (api s)) = (err, creds (api s')) →
  sessions (api s') = sessions (api s) → (resp = mkResp 200 BRevoked c ∧ err = None ∨ quiet resp) →
  (∀ r i, (r, Some i) ∈ flight s' → Enabled ac = true → iOwner i = user) →
  (∀ r id, (r, id) ∈ flight s' → isExempt r = true → id = None) →
  ainv st0 user ph (es ++ [EHandle r id e resp]) s'.
Proof.
  intros H Hpath [Eop Hfile]%RevokeToken_file Ess Hresp Hf1 Hf2.
  assert (∀ x, ¬ ends x (EHandle r id e resp)) as Hne.
  { intros x. destruct Hresp as [[-> _]|Hq]; [|by apply quiet_not_ends]. by intros [[? ?]|(? & ? & ? & ? & ? & _)]. }
  destruct Hfile as [[Et Herr]|(l1 & t & l2 & El & Eid & Et)].
  { assert (quiet resp) by naive_solver.
    apply (ainv_quiet _ _ _ _ s); try done; [by destruct (creds (api s')), (creds (api s)); cbn in *; congruence|by rewrite Ess|].
    intros x. by apply quiet_not_revokes. }
  pose proof H as [Op Nd Tk Rv Se Fl Ex].
  assert (∀ x', x' ∈ l1 ++ revoke (eNow e) t :: l2 → ∃ x, x ∈ listed (creds (api s)) ∧
    tID x' = tID x ∧ tOwner x' = tOwner x ∧ tSHA256Hex x' = tSHA256Hex x) as Hback.
  { intros x'. rewrite El, elem_of_app, elem_of_cons. intros [?|[->|?]]; [exists x'|exists t|exists x'];
      rewrite elem_of_app, elem_of_cons; auto 10. }
  split; try done.
  - by rewrite Eop.
  - unfold ids. rewrite Et. cbn. rewrite fmap_app, fmap_cons. unfold ids, listed in *. rewrite El in Nd.
    by rewrite fmap_app, fmap_cons in Nd.
  - rewrite Et. cbn. intros x' (x & Hx & E1 & E2 & E3)%Hback. destruct (Tk _ Hx) as [? Hor]. rewrite E1, E2, E3.
    split; [done|]. destruct Hor as [?|Hm]; [by left|right]. apply Exists_app. left.
    eapply Exists_impl; [exact Hm|]. unfold mints. intros ev. by rewrite E1, E2, E3.
  - rewrite Et. cbn. intros x [Hx|Hx]%Exists_snoc.
    + destruct (Rv _ Hx) as (y & Hy & ? & ?). unfold listed in El. rewrite El in Hy.
      apply elem_of_app in Hy as [?|[->|?]%elem_of_cons].
      * exists y. rewrite elem_of_app. auto.
      * exists (revoke (eNow e) t). rewrite elem_of_app, elem_of_cons. split; [auto|]. split; [done|]. cbn.
        by destruct (tRevokedAt t).
      * exists y. rewrite elem_of_app, elem_of_cons. auto.
    + destruct Hx as (r' & i' & e' & c' & [= <- _ _ ->] & Hp). exists (revoke (eNow e) t).
      rewrite elem_of_app, elem_of_cons. split; [auto|]. split; [|cbn; by destruct (tRevokedAt t)].
      cbn. rewrite Eid. rewrite Hp in Hpath. clear -Hpath. by apply (inj (String.append (tokensPath +:+ "/"))) in Hpath.
  - eapply sessions_kept; [done|by rewrite Ess|]. by intros x _.
Qed.

Lemma CreateSession_spec owner draws now ss x ss' :
  CreateSession owner draws now ss = Some (x, ss') →
  sOwner x = owner ∧ sExpiresAt x = now + ttl ss ∧ sID x ≠ sCSRFToken x ∧
  entries ss' = <[sID x := x]> (entries (sweepExpiredLocked now ss)).
Proof.
  unfold CreateSession. destruct draws as [|id draws]; [done|]. destruct (List.find _ draws) as [csrf|] eqn:Ef; [|done].
  intros [= <- <-]. apply List.find_some in Ef as [_ Ef]. apply negb_true_iff, String.eqb_neq in Ef. done.
Qed.

Lemma ainv_login st0 user ph es s r e resp u p x c s' :
  ainv st0 user ph es s → decLogin (limited (qBody r)) = Some (u, p) →
  VerifyPassword argon2 u p (eRead e) (creds (api s)) = Ok (sOwner x) →
  CreateSession (sOwner x) (eDraws e) (eNow e) (sessions (api s)) = Some (x, sessions (api s')) →
  creds (api s') = creds (api s) → cValue c = sID x → cExpires c = Some (sExpiresAt x) →
  resp = mkResp 200 (BLogin (sOwner x) (seconds (sExpiresAt x)) (sCSRFToken x)) (Some c) →
  (∀ r i, (r, Some i) ∈ flight s' → Enabled ac = true → iOwner i = user) →
  (∀ r id, (r, id) ∈ flight s' → isExempt r = true → id = None) →
  ainv st0 user ph (es ++ [EHandle r None e resp]) s'.
Proof.
  intros H Hd Hv (_ & _ & _ & Hss)%CreateSession_spec Ec Hc1 Hc2 -> Hf1 Hf2.
  set (resp := mkResp 200 (BLogin _ _ _) _).
  pose proof H as [(rec & Erec & Eu & Eph) Nd Tk Rv Se Fl Ex].
  assert (∀ id, ¬ ends id (EHandle r None e resp)) as Hne by (by intros id [[? ?]|(? & ? & ? & ? & ? & _)]).
  unfold VerifyPassword in Hv. rewrite Erec in Hv. destruct (negb (eRead e)); [done|].
  destruct (String.eqb_spec u (oUsername rec)) as [->|]; [|done]. cbn [negb] in Hv.
  destruct (verify argon2 (oPasswordHash rec) p) eqn:Ever; [|done]. cbn [negb] in Hv. injection Hv as Hv.
  split; rewrite ?Ec; try done; [by eauto|..].
  - intros t (? & [?|?])%Tk; (split; [done|]); [by left|right; apply Exists_app; by left].
  - intros id [?|(r' & i & e' & c' & [=] & _)]%Exists_snoc; auto.
  - rewrite Hss. intros id y [[<- <-]|[Hn Hy]]%lookup_insert_Some.
    + split; [done|]. split; [congruence|]. exists es, (EHandle r None e resp), []. split; [done|].
      split; [|by intros ?%Exists_nil]. exists r, e, p, c. rewrite Hv in Hd. by rewrite <- Eph.
    + assert (entries (sweepExpiredLocked (eNow e) (sessions (api s))) ⊆ entries (sessions (api s))) as Hs by apply sweep_sub.
      revert Hy. by eapply (sessions_kept _ _ _ _ _ _ (sweepExpiredLocked (eNow e) (sessions (api s)))).
Qed.

Lemma ainv_logout st0 user ph es s r i e c s' :
  ainv st0 user ph es s → creds (api s') = creds (api s) →
  sessions (api s') = (RevokeSession (iSessionID i) (eNow e) (sessions (api s))).2 →
  (∀ r i, (r, Some i) ∈ flight s' → Enabled ac = true → iOwner i = user) →
  (∀ r id, (r, id) ∈ flight s' → isExempt r = true → id = None) →
  ainv st0 user ph (es ++ [EHandle r (Some i) e (mkResp 200 BEnded c)]) s'.
Proof.
  intros H Ec Hss Hf1 Hf2. pose proof H as [Op Nd Tk Rv Se Fl Ex].
  assert (entries (sessions (api s')) ⊆ entries (sessions (api s)) ∧ entries (sessions (api s')) !! iSessionID i = None) as [Hs Hg].
  { rewrite Hss. unfold RevokeSession. pose proof (sweep_sub (eNow e) (sessions (api s))).
    destruct (entries (sweepExpiredLocked _ _) !! _) eqn:E; cbn [snd]; [|done]. cbn [entries].
    split; [etrans; [apply delete_subseteq|done]|apply lookup_delete_eq]. }
  split; rewrite ?Ec; try done.
  - intros t (? & [?|?])%Tk; (split; [done|]); [by left|right; apply Exists_app; by left].
  - intros id [?|(r' & i' & e' & c' & [=] & _)]%Exists_snoc; auto.
  - eapply sessions_kept; [done..|]. intros id [x Hx] [[? ?]|(r' & i' & e' & c' & [= _ -> _ _] & E)]; [done|]. congruence.
Qed.

Lemma ainv_step st0 user ph es s ev s' :
  ainv st0 user ph es s → astep ev s s' → ainv st0 user ph (es ++ [ev]) s'.
Proof.
  intros H Hs. pose proof H as [Op Nd Tk Rv Se Fl Ex].
  destruct Hs as [r now read v ss s Hw|r id e resp a' f1 f2 s Hf Hfr Hh|ttl ss inst s Hn].
  - assert (entries ss ⊆ entries (sessions (api s))) as Hsub.
    { revert Hw. unfold Auth.withAuth. repeat (match goal with |- (if ?b then _ else _) = _ → _ => destruct b
        | |- match ?o with Some _ => _ | None => _ end = _ → _ => destruct o end);
        try (by intros [= _ <-]). cbn. intros [= _ <-]. apply map_filter_subseteq. }
    apply (ainv_quiet _ _ _ _ s); try done.
    + by intros id [[? ?]|(? & ? & ? & ? & ? & _)].
    + by intros id (? & ? & ? & ? & ? & _).
    + destruct v as [id|]; [|done]. cbn. intros r' i [[= -> <-]|?]%elem_of_cons Hen; [|eauto].
      destruct (enter_justified _ _ _ _ _ _ _ _ _ _ H Hw) as [[_ ?]|(_ & i' & [= <-] & [[? _]|(_ & ? & _)])]; congruence.
    + destruct v as [id|]; [|done]. cbn. intros r' i [[= -> ->]|?]%elem_of_cons He; [|eauto].
      revert Hw. unfold Auth.withAuth. rewrite He. by intros [= <- _].
  - assert (∀ x, x ∈ f1 ++ f2 → x ∈ flight s) as Hin.
    { intros x. rewrite Hf, !elem_of_app, elem_of_cons. tauto. }
    assert ((r, id) ∈ flight s) as Hme by (rewrite Hf, elem_of_app, elem_of_cons; auto).
    assert (∀ r i, (r, Some i) ∈ f1 ++ f2 → Enabled ac = true → iOwner i = user) as Hf1 by eauto.
    assert (∀ r id, (r, id) ∈ f1 ++ f2 → isExempt r = true → id = None) as Hf2 by eauto.
    apply handle_did in Hh as [E1 E2 [Hq _]|u p x c He Hd Hv Hc E1 E2 E3 E4|i c -> E1 E2 ->|i name ttl o -> Hen Hc E Hq _|tid err c Hp Hr E Hresp].
    + apply (ainv_quiet _ _ _ _ s); try done; intros x; [by apply quiet_not_ends|by apply quiet_not_revokes].
    + rewrite (Ex _ _ Hme He). by eapply ainv_login.
    + by eapply ainv_logout.
    + eapply ainv_mint; try done. by eapply Fl.
    + eapply ainv_revoke; try done. destruct Hresp as [?|[? _]]; eauto.
  - unfold NewSessions in Hn. destruct (ttl <=? 0); [done|]. injection Hn as <-. split; cbn; try done.
    + intros t (? & [?|?])%Tk; (split; [done|]); [by left|right; apply Exists_app; by left].
    + intros id [?|(? & ? & ? & ? & ? & _)]%Exists_snoc; [auto|done].
    + intros r i ?%not_elem_of_nil. done.
    + intros r i ?%not_elem_of_nil. done.
Qed.

Lemma ainv_steps user ph s0 es s :
  started user ph s0 → asteps s0 es s → ainv (creds (api s0)) user ph es s.
Proof.
  intros (Hop & Hnd & Hown & Hse & Hfl) H. induction H as [s|s es s1 ev s2 H IH Hs].
  - rewrite Forall_forall in Hown. split; try done.
    + intros t Ht. split; [by apply Hown|]. left. eauto.
    + intros id ?%Exists_nil. done.
    + rewrite Hse. intros id x. by rewrite lookup_empty.
    + rewrite Hfl. intros r i ?%not_elem_of_nil. done.
    + rewrite Hfl. intros r i ?%not_elem_of_nil. done.
  - eapply ainv_step; [|done]. by apply IH.
Qed.

(** * Guarantees *)

(** C7: Whatever requests arrive, however their checks and handlers interleave, and
    whichever file operations fail: the middleware hands on only a request that is
    exempt, or one with an identity it can account for. With authentication
    disabled that is the local operator. Otherwise it is the operator, by the secret
    of a token that was minted for the operator, is within its time and was never
    the object of an acknowledged revocation; or by the cookie of a session that a
    login with the operator's password was granted, within its time, not logged out
    and not older than the process, and, for a method that changes state, with the
    session's CSRF token and no foreign origin. An upgrade to a WebSocket comes from
    the public origin. *)
Theorem access_justified user ph s0 es s r now id s' :
  started user ph s0 → asteps s0 es s → astep (EEnter r now (Pass id)) s s' →
  justified (creds (api s0)) user ph es r now id.
Proof.
  intros H0 H Hs. pose proof (ainv_steps _ _ _ _ _ H0 H) as Hi.
  inversion Hs as [r' now' read v ss s1 Hw| |]; subst. by eapply enter_justified.
Qed.

(** ** Tokens work *)

(** A request about the token [id]. *)
Definition touches (id : string) (ev : Ev) : Prop :=
  ∃ r i e resp, ev = EHandle r i e resp ∧ qPath r = tokensPath +:+ "/" +:+ id.

Lemma token_kept t ev s s' :
  t ∈ listed (creds (api s)) → astep ev s s' → ¬ touches (tID t) ev → t ∈ listed (creds (api s')).
Proof.
  intros Ht Hs Hn. destruct Hs as [r now read v ss s Hw|r id e resp a' f1 f2 s Hf Hfr Hh|ttl ss inst s Hne]; try done.
  apply handle_did in Hh as [E1 _ _|u p x c _ _ _ _ E1 _ _ _|i c _ E1 _ _|i name ttl o _ _ Hc _ _ _|tid err c Hp Hr _ _]; cbn; try by rewrite E1.
  - apply CreateToken_file in Hc as [_ [E|(raw & rawID & _ & _ & E)]]; unfold listed in *; rewrite E; [done|].
    cbn. apply elem_of_app. by left.
  - apply RevokeToken_file in Hr as [_ [[E _]|(l1 & y & l2 & El & Ey & E)]]; unfold listed in *; rewrite E; [done|].
    cbn. rewrite El in Ht. apply elem_of_app in Ht as [?|[->|?]%elem_of_cons]; apply elem_of_app; [by left| |].
    + destruct Hn. exists r, id, e, resp. by rewrite Ey.
    + right. apply elem_of_cons. by right.
Qed.

(** A token that was handed out works: its secret is accepted as that token's,
    with the operator as owner, until it expires, unless its revocation is
    requested, across restarts. It is assumed that no other token's secret has the
    same SHA-256. *)
Theorem token_accepted user ph s0 es1 s1 r i e rec secret s2 es2 s now :
  started user ph s0 → asteps s0 es1 s1 →
  astep (EHandle r i e (mkResp 201 (BToken rec secret) None)) s1 s2 → asteps s2 es2 s →
  ¬ Exists (touches (rID rec)) es2 →
  (∀ t, t ∈ listed (creds (api s)) → tSHA256Hex t = sha256Hex secret → tID t = rID rec) →
  match rExpiresAt rec with At t => now ≤ t | _ => True end →
  VerifyToken sha256Hex secret now true (creds (api s)) = Ok rec ∧ rOwner rec = user.
Proof.
  intros H0 H1 He H2 Hn Hh Hexp. pose proof (ainv_steps _ _ _ _ _ H0 H1) as I1. pose proof (ainv_step _ _ _ _ _ _ _ I1 He) as I2.
  assert (∃ t, t ∈ listed (creds (api s2)) ∧ toRecord t = rec ∧ tSHA256Hex t = sha256Hex secret ∧
    tRevokedAt t = None ∧ tExpiresAt t ≠ Garbled) as (t & Ht & <- & Hs & Hr & Hg).
  { inversion He as [|r' id' e' resp a' f1 f2 s' Hf Hfr Hhd|]; subst.
    apply handle_did in Hhd as [_ _ [_ []]|u p x c _ _ _ _ _ _ _ E|j c _ _ _ E|j name ttl o _ _ Hc _ _ Ho|tid err c _ _ _ [[E _]|[_ []]]];
      try done. rewrite (Ho _ _ eq_refl) in Hc. by apply CreateToken_Ok in Hc. }
  assert (t ∈ listed (creds (api s)) ∧ NoDup (ids (creds (api s))) ∧
    ∀ x, x ∈ listed (creds (api s)) → tOwner x = user) as (Hin & Hnd & Hown).
  { clear Hh. assert (ainv (creds (api s0)) user ph ((es1 ++ [EHandle r i e (mkResp 201 (BToken (toRecord t) secret) None)]) ++ es2) s
      ∧ t ∈ listed (creds (api s))) as [[] ?]; [|split_and!; try done; naive_solver].
    induction H2 as [s2|s2 es2 s3 ev s H2 IH Hs']; [rewrite app_nil_r; done|].
    rewrite Exists_snoc in Hn. destruct IH as [I3 Ht3]; [done|tauto|done|done|]. split.
    - rewrite app_assoc. by eapply ainv_step.
    - eapply token_kept; [done..|]. tauto. }
  split; [|by apply Hown]. unfold VerifyToken, loadTokens. unfold listed in *. destruct (tokens (creds (api s))) as [l|] eqn:El; [|by apply not_elem_of_nil in Hin].
  cbn in *. destruct (List.find _ l) as [t'|] eqn:Ef.
  - apply List.find_some in Ef as [Hin' He']. apply list_elem_of_In in Hin'. apply String.eqb_eq in He'.
    assert (t' = t) as -> by (apply (ids_unique l); try done; [by unfold ids in Hnd; rewrite El in Hnd|by apply Hh]).
    unfold admits. rewrite Hr. destruct (tExpiresAt t); try done. cbn in Hexp. by rewrite (proj2 (Z.ltb_ge _ _) Hexp).
  - eapply List.find_none in Ef; [|by apply list_elem_of_In]. cbn in Ef. by apply String.eqb_neq in Ef.
Qed.

(** ** Events *)

Definition authKinds : list string :=
  ["auth.login_failed"; "auth.session_created"; "auth.session_ended"; "auth.token_created"; "auth.token_revoked"].

Lemma authEnvelope_valid inst seq kind data now :
  Events.UUIDString inst = true → 0 ≤ seq → kind ∈ authKinds → now ≠ 0 →
  Events.Validate (authEnvelope inst seq kind data now) = [] ∧
  (∃ info, Events.LookupKind kind = Some info ∧ Events.KProvenance info = Events.HostObserved).
Proof.
  intros Hu Hs Hk Hn. assert (Forall (λ k, ∃ info, Events.LookupKind k = Some info ∧ Events.KProvenance info = Events.HostObserved) authKinds) as Hreg
    by (repeat constructor; eexists; (split; [vm_compute; reflexivity|done])).
  rewrite Forall_forall in Hreg. destruct (Hreg _ Hk) as (info & Hi & Hp). split; [|eauto].
  apply Events.LookupKind_In in Hi as [Hin Hkind]. destruct (Events.registry_kind_ok _ Hin) as (Hk1 & Hk2 & _). rewrite Hkind in Hk1, Hk2.
  apply Events.Validate_iff. split; cbn; try done; try lia.
  - by exists seq.
  - left.
  - by left.
  - by left.
  - split; [lia|]. split; [apply NoDup_nil_2|done].
Qed.

(** At most one event per request. *)
Lemma handle_emits r id e s resp s' :
  handle r id e s = Some (resp, s') → authInstID s' = authInstID s ∧
  (emitted s' = emitted s ∧ authSeq s' = authSeq s ∨
   ∃ kind data, kind ∈ authKinds ∧ authSeq s' = Int.i64 (authSeq s + 1) ∧
     emitted s' = emitted s ++ [authEnvelope (authInstID s) (authSeq s') kind data (eNow e)]).
Proof.
  assert (∀ kind data s0, kind ∈ authKinds → authInstID s0 = authInstID s → emitted s0 = emitted s → authSeq s0 = authSeq s →
    let s1 := appendAuthEvent kind data (eNow e) s0 in authInstID s1 = authInstID s ∧
    (emitted s1 = emitted s ∧ authSeq s1 = authSeq s ∨
     ∃ kind data, kind ∈ authKinds ∧ authSeq s1 = Int.i64 (authSeq s + 1) ∧
       emitted s1 = emitted s ++ [authEnvelope (authInstID s) (authSeq s1) kind data (eNow e)])) as Hev.
  { intros kind data s0 Hk E1 E2 E3. cbn. rewrite E1, E2, E3. split; [done|]. right. exists kind, data. done. }
  unfold Auth.handle. cbv zeta.
  route E1; [|route E2; [|route E3; [|route E4; [|route E6; [|route E5]]]]].
  - unfold handleAuthLogin. test; [by intros [= <- <-]; auto|]. destruct (decLogin _) as [[u p]|]; [|by intros [= <- <-]; auto].
    destruct (VerifyPassword _ _ _ _ _); [destruct (CreateSession _ _ _ _) as [[x ss]|]; [|done]|]; intros [= <- <-]; apply Hev; try done; set_solver.
  - intros H; apply (inj Some) in H; revert H. unfold handleAuthLogout. test; [by intros [= <- <-]; auto|].
    destruct id as [i|]; [|by intros [= <- <-]; auto]. test; [by intros [= <- <-]; auto|].
    destruct (RevokeSession _ _ _) as [b ss]. intros [= <- <-]. apply Hev; try done; set_solver.
  - intros H; apply (inj Some) in H; revert H. unfold handleAuthSession. destruct id as [i|]; [|by intros [= <- <-]; auto].
    test; [|test; by intros [= <- <-]; auto]. cbn. intros [= <- <-]. auto.
  - intros H; apply (inj Some) in H; revert H. unfold handleTokenCreate. test; [by intros [= <- <-]; auto|].
    destruct (decToken _) as [[name minutes]|]; [|by intros [= <- <-]; auto]. test; [by intros [= <- <-]; auto|].
    test; [by intros [= <- <-]; auto|]. destruct id as [i|]; [|by intros [= <- <-]; auto].
    destruct (TokenTTL _) as [ttl|]; [|by intros [= <- <-]; auto].
    destruct (CreateToken _ _ _ _ _ _ _ _ _ _) as [[[secret rec]|] st]; intros [= <- <-]; [apply Hev; try done; set_solver|auto].
  - intros H; apply (inj Some) in H; injection H as <- <-. auto.
  - intros H; apply (inj Some) in H; revert H. unfold handleTokenRevoke. test; [by intros [= <- <-]; auto|].
    test; [by intros [= <- <-]; auto|]. destruct id as [i|]; [|by intros [= <- <-]; auto].
    destruct (RevokeToken _ _ _ _ _) as [[[]|] st]; intros [= <- <-]; try by auto. apply Hev; try done; set_solver.
  - intros [= <- <-]. auto.
Qed.

(** What the theorem asks of the surroundings: a working clock and random UUIDs. *)
Definition sound (ev : Ev) : Prop :=
  match ev with
  | EHandle _ _ e _ => eNow e ≠ 0
  | ERestart inst => Events.UUIDString inst = true
  | EEnter _ _ _ => True
  end.

#[export] Instance sound_dec ev : Decision (sound ev).
Proof. destruct ev; cbn; apply _. Defined.

(** A stream of valid events of registered kinds, numbered from one, without a cursor
    and about no VM. *)
Definition streamed (inst : string) (l : list Events.Envelope) : Prop :=
  ∀ k env, l !! k = Some env → Events.Validate env = [] ∧ Events.EventID env = None ∧
    Events.VMID env = None ∧ Events.EProvenance env = Events.HostObserved ∧
    Events.SourceInstanceID env = inst ∧ Events.SourceSeq env = Strconv.FormatInt (Z.of_nat k + 1) ∧
    ∃ info, Events.LookupKind (Events.Kind env) = Some info ∧ Events.KProvenance info = Events.HostObserved.

Lemma streamed_step ev s s' :
  sound ev → astep ev s s' →
  (Events.UUIDString (authInstID (api s)) = true ∧ (Z.of_nat (length (emitted (api s))) < 2 ^ 63 →
     streamed (authInstID (api s)) (emitted (api s)) ∧ authSeq (api s) = Z.of_nat (length (emitted (api s))))) →
  Events.UUIDString (authInstID (api s')) = true ∧ (Z.of_nat (length (emitted (api s'))) < 2 ^ 63 →
     streamed (authInstID (api s')) (emitted (api s')) ∧ authSeq (api s') = Z.of_nat (length (emitted (api s')))).
Proof.
  intros Hso Hs [Hu H]. destruct Hs as [r now read v ss s Hw|r id e resp a' f1 f2 s Hf Hfr Hh|ttl ss inst s Hne].
  - done.
  - cbn in Hso |- *. apply handle_emits in Hh as [-> [[-> ->]|(kind & data & Hk & E1 & E2)]]; [done|].
    split; [done|]. rewrite E2, length_app. cbn [length]. intros Hlen. destruct H as [Hst Hseq]; [lia|].
    assert (authSeq a' = Z.of_nat (length (emitted (api s))) + 1) as E3 by (rewrite E1, Hseq; apply Int.i64_small; lia).
    split; [|lia]. intros k env Hk'. apply lookup_snoc_Some in Hk' as [[_ Hk']|[-> <-]]; [by apply Hst|].
    destruct (authEnvelope_valid (authInstID (api s)) (authSeq a') kind data (eNow e)) as [Hv Hreg]; try done; [lia|].
    split; [done|]. do 4 (split; [done|]). split; [|done]. cbn. by rewrite E3.
  - cbn. split; [done|]. intros _. split; [|done]. intros k env. done.
Qed.

(** Every event that authentication hands to the store is valid, of a registered kind
    that the host may observe, and carries the next number of its stream. (The bound
    is the counter's.) *)
Theorem auth_events_streamed s0 es s :
  emitted (api s0) = [] → authSeq (api s0) = 0 → Events.UUIDString (authInstID (api s0)) = true →
  asteps s0 es s → Forall sound es → Z.of_nat (length (emitted (api s))) < 2 ^ 63 →
  streamed (authInstID (api s)) (emitted (api s)).
Proof.
  intros E1 E2 E3 H Hso. assert (Events.UUIDString (authInstID (api s)) = true ∧ (Z.of_nat (length (emitted (api s))) < 2 ^ 63 →
     streamed (authInstID (api s)) (emitted (api s)) ∧ authSeq (api s) = Z.of_nat (length (emitted (api s))))) as [_ Hg]; [|naive_solver].
  induction H as [s|s es s1 ev s2 H IH Hs].
  - rewrite E1. split; [done|]. intros _. split; [|done]. intros k env. done.
  - apply Forall_app in Hso as [Hso Hev]. inversion Hev; subst. eapply streamed_step; [done..|]. by apply IH.
Qed.

(** ** Passwords *)

(** A store initialised with a password accepts, for its user, exactly the
    passwords with the same argon2 key, and no other user; another initialisation
    is refused. *)
Theorem password_roundtrip username password salt stat now a st st' :
  (∀ p s t m th k, 0 ≤ k → Z.of_nat (String.length (argon2 p s t m th k)) = k) →
  InitStore argon2 true true stat username password (Some salt) now a st = (None, st') →
  (∀ u q, VerifyPassword argon2 u q true st' =
     if (u =? username)%string && (argon2 q salt 1 65536 4 32 =? argon2 password salt 1 65536 4 32)%string
     then Ok username else Err ErrBadCredentials) ∧
  (∀ u q salt' now' a', InitStore argon2 true true true u q salt' now' a' st' = (Some ErrAlreadyInitialized, st')).
Proof.
  intros Hlen. unfold InitStore. cbn [negb]. destruct (stat && _); [done|].
  destruct a as [|[]]; cbn; intros [= <-]. split; [|done]. intros u q. unfold VerifyPassword. cbn [operator negb oUsername oPasswordHash].
  destruct (u =? username)%string; [|done]. cbn [negb andb]. unfold verify, hashPassword. cbn [pSalt pHash pTime pMemoryKiB pThreads].
  rewrite !DecodeString_EncodeToString, Hlen by lia.
  change (Int.u32 32) with 32. change (64 * 1024) with 65536. by destruct (_ =? _)%string.
Qed.

(** * Schedules *)

Inductive Input :=
  | Enter (r : Req) (now : Z)
  | Serve (k : nat) (e : Env)
  | Relaunch (ttl : Z) (inst : string).

Definition advance (x : Input) (s : Sys) : option (Ev * Sys) :=
  match x with
  | Enter r now =>
    let '(v, ss) := withAuth r now true (creds (api s)) (sessions (api s)) in
    Some (EEnter r now v, mkSys (set_sessions ss (api s))
            (match v with Pass id => (r, id) :: flight s | Refuse _ => flight s end))
  | Serve k e =>
    '(r, id) ← flight s !! k;
    if match eID e with Some raw => bool_decide (tokenID raw ∈ ids (creds (api s))) | None => false end
    then None else
    '(resp, a') ← handle r id e (api s);
    Some (EHandle r id e resp, mkSys a' (take k (flight s) ++ drop (S k) (flight s)))
  | Relaunch ttl inst =>
    ss ← NewSessions ttl;
    Some (ERestart inst, mkSys (initAuthState (creds (api s)) ss inst) [])
  end.

Lemma advance_sound x s ev s' : advance x s = Some (ev, s') → astep ev s s'.
Proof.
  destruct x as [r now|k e|ttl inst]; cbn -[Auth.handle Auth.withAuth NewSessions].
  - destruct (withAuth r now true _ _) as [v ss] eqn:E. intros [= <- <-]. by econstructor.
  - destruct (flight s !! k) as [[r id]|] eqn:Ef; [|done]. cbn -[Auth.handle].
    destruct (match eID e with Some _ => _ | None => _ end) eqn:Efr; [done|].
    destruct (handle r id e (api s)) as [[resp a']|] eqn:Eh; [|done]. intros [= <- <-].
    eapply a_handle; [by apply symmetry, take_drop_middle| |done]. intros raw Hraw. rewrite Hraw in Efr.
    by apply bool_decide_eq_false in Efr.
  - destruct (NewSessions ttl) eqn:E; [|done]. intros [= <- <-]. by econstructor.
Qed.

Fixpoint play (xs : list Input) (es : list Ev) (s : Sys) : option (list Ev * Sys) :=
  match xs with
  | [] => Some (es, s)
  | x :: xs => '(ev, s') ← advance x s; play xs (es ++ [ev]) s'
  end.

Lemma schedule_sound xs s0 es0 s es s' :
  asteps s0 es0 s → play xs es0 s = Some (es, s') → asteps s0 es s'.
Proof.
  revert es0 s. induction xs as [|x xs IH]; intros es0 s H; cbn [play]; [by intros [= <- <-]|].
  destruct (advance x s) as [[ev s1]|] eqn:Ea; [|done]. cbn. apply IH. econstructor; [done|].
  by apply advance_sound in Ea.
Qed.

End runs.
(** * Examples *)

Definition exArgon2 (p s : string) (t m th k : Z) : string :=
  String.string_of_list_ascii (replicate (Z.to_nat k) (chr (if (p =? "secret")%string then 97 else 98))).
Definition exLogin (b : string) : option (string * string) :=
  if (b =? "login")%string then Some ("op", "secret") else None.
Definition exToken (b : string) : option (string * option Z) :=
  if (b =? "token")%string then Some ("laptop", Some 60) else None.
Definition exAC : AuthConfig := mkAuthConfig true "http://127.0.0.1:8787" 0 false.
Definition exUUID : string := "0b0b0b0b-0000-4000-8000-00000000000a".
Definition exStored : Store :=
  (InitStore exArgon2 true true true "op" "secret" (Some "salt") 1000000000 Written (mkStore None None)).2.
Definition exStart : Sys := mkSys (initAuthState exStored (mkSessions (3600 * Second) ∅) exUUID) [].

Definition exHash (s : string) : string := s.
Definition exText (t : Z) : string := "".
Abbreviation exPlay := (play exArgon2 exHash exLogin exToken exText exAC).
Abbreviation exSteps := (asteps exArgon2 exHash exLogin exToken exText exAC).

Lemma exStart_started : started "op" (hashPassword exArgon2 "secret" "salt") exStart.
Proof. split; [by eexists|]. split; [apply NoDup_nil_2|]. split; [constructor|]. done. Qed.

Definition exEnv (now : Z) : Env := mkEnv (now * Second) true Written ["sess-1"; "csrf-1"] (Some "raw") (Some "12345678").
Definition exPost (path body : string) (hs cs : list (string * string)) : Req :=
  mkReq "POST" (basePath +:+ path) hs cs body "127.0.0.1".

(** A login, and a token minted in its session. *)
Definition exInputs : list Input :=
  [Enter (exPost "/auth/login" "login" [] []) (2 * Second); Serve 0 (exEnv 2);
   Enter (exPost "/auth/tokens" "token" [("X-Csrf-Token", "csrf-1")] [("vmobs_session", "sess-1")]) (3 * Second);
   Serve 0 (exEnv 3)].
Definition exRun : list Ev * Sys := default ([], exStart) (exPlay exInputs [] exStart).

Lemma exRun_steps : exSteps exStart exRun.1 exRun.2.
Proof.
  eapply (schedule_sound _ _ _ _ _ _ exInputs _ []); [constructor|by vm_compute].
Qed.

Definition exBearer : Req :=
  mkReq "DELETE" (basePath +:+ "/vms/v") [("Authorization", "Bearer vmobs_cmF3")] [] "" "127.0.0.1".
Definition exID : Identity := mkIdentity "op" "token" "" "tok-3132333435363738".

Lemma access_justified_witness :
  justified exArgon2 exHash exLogin exAC exStored "op" (hashPassword exArgon2 "secret" "salt") exRun.1
    exBearer (4 * Second) (Some exID).
Proof.
  eapply (access_justified exArgon2 exHash exLogin exToken exText exAC "op"
    (hashPassword exArgon2 "secret" "salt") exStart exRun.1 exRun.2).
  - exact exStart_started.
  - exact exRun_steps.
  - eapply (a_enter _ _ _ _ _ _ _ _ true). vm_compute. reflexivity.
Defined.

(** The token in use after a restart. *)
Definition exBefore : list Ev * Sys := default ([], exStart) (exPlay (take 3 exInputs) [] exStart).
Definition exAfter : list Ev * Sys := default ([], exRun.2) (exPlay [Relaunch Second exUUID] [] exRun.2).

Lemma token_accepted_witness :
  ∃ rec, VerifyToken exHash "vmobs_cmF3" (3603 * Second) true (creds (api exAfter.2)) = Ok rec ∧ rOwner rec = "op".
Proof.
  eexists. eapply (token_accepted exArgon2 exHash exLogin exToken exText exAC "op"
    (hashPassword exArgon2 "secret" "salt") exStart exBefore.1 exBefore.2 _ _ (exEnv 3) _ _ exRun.2 exAfter.1).
  - exact exStart_started.
  - eapply (schedule_sound _ _ _ _ _ _ (take 3 exInputs) _ []); [constructor|by vm_compute].
  - apply (advance_sound _ _ _ _ _ _ (Serve 0 (exEnv 3))). vm_compute. reflexivity.
  - eapply (schedule_sound _ _ _ _ _ _ [Relaunch Second exUUID] _ []); [constructor|by vm_compute].
  - vm_compute. intros H. inversion H as [? ? (? & ? & ? & ? & ? & ?)|? ? H']; [done|inversion H'].
  - intros t Ht _. vm_compute in Ht. apply list_elem_of_singleton in Ht as ->. reflexivity.
  - vm_compute. discriminate.
Defined.


Lemma password_roundtrip_witness :
  VerifyPassword exArgon2 "op" "secret" true exStored = Ok "op" ∧
  VerifyPassword exArgon2 "op" "guess" true exStored = Err ErrBadCredentials.
Proof.
  destruct (password_roundtrip exArgon2 "op" "secret" "salt" true 1000000000 Written (mkStore None None) exStored) as [H _].
  - intros p s t m th k Hk. unfold exArgon2. generalize (chr (if (p =? "secret")%string then 97 else 98)). intros c.
    rewrite <- (Z2Nat.id k) at 2 by done. f_equal. generalize (Z.to_nat k). intros n. induction n as [|n IH]; [done|]. cbn. by rewrite IH.
  - reflexivity.
  - rewrite !H. split; vm_compute; reflexivity.
Defined.

End AuthRuns.
