(* ===== verification/Segment.v ===== *)
(** Spool segments (internal/spool/segment.go, the codec parts of writer.go and
    reader.go): names, record frames, the iterator, and the repair of one file.

    A file is the list of its bytes. JSON is encoding/json's: its encoders and
    decoders are the operations of the class [Json], with the laws the spool
    relies on in [JsonLaws]. A call of [Next] sees one state of the file. *)

From S2P Require Import Prelude Wire Events.
Import Events.

Local Open Scope Z_scope.

Module Segment.

(** * Constants and names *)

Definition maxRecordBytes : Z := 256 * 1024.
Definition segmentMagic : string := "vmsp".
Definition segmentVersion : Z := 1.
Definition endMarker : Z := 0xFFFFFFFF.
Definition segmentNameLen : nat := 25.
Definition maxSegmentIndex : Z := 9999999999999999.

(** [fmt.Sprintf] with a zero-padded width of [w]. *)
Fixpoint zeros (n : nat) : string :=
  match n with 0%nat => "" | S n => "0" +:+ zeros n end.
Definition pad (w : nat) (v : Z) : string :=
  let s := Strconv.FormatUint v in zeros (w - String.length s) +:+ s.

Definition segmentName (idx : Z) : string := "seg-" +:+ pad 16 idx +:+ ".vmsp".

Definition allDigits : string → bool :=
  fix go s := match s with
  | EmptyString => true
  | String c s' => isDigit c && go s'
  end.

Definition parseSegmentName (name : string) : option Z :=
  if negb (String.length name =? segmentNameLen)%nat then None
  else if negb (String.substring 0 4 name =? "seg-")%string then None
  else if negb (String.substring 20 5 name =? ".vmsp")%string then None
  else
    let digits := String.substring 4 16 name in
    if allDigits digits then Strconv.ParseUint digits 64 else None.

(** * CRC-32C *)

(** [crc32.Checksum] with the Castagnoli table: the reflected polynomial, one
    bit at a time. *)
Definition crc32cPoly : Z := 0x82F63B78.

Fixpoint crcShift (n : nat) (c : Z) : Z :=
  match n with
  | 0%nat => c
  | S n => crcShift n (if Z.testbit c 0 then Z.lxor (Z.shiftr c 1) crc32cPoly
                       else Z.shiftr c 1)
  end.

Definition crcByte (c b : Z) : Z := crcShift 8 (Z.lxor c b).
Definition crc32c (l : list Z) : Z := Z.lxor (fold_left crcByte l 0xFFFFFFFF) 0xFFFFFFFF.

(** * Frames and headers *)

Definition encodeFrame (body : list Z) : list Z :=
  BigEndian.PutUint32 (Int.u32 (Z.of_nat (length body))) ++
  BigEndian.PutUint32 (crc32c body) ++ body.

Definition marker : list Z := BigEndian.PutUint32 endMarker.

Record segmentHeader := mkHeader {
  hMagic : string; hVersion : Z; hVMID : string; hInstanceID : string }.

(** The header the writer writes. *)
Definition segHeader (vm inst : string) : segmentHeader :=
  mkHeader segmentMagic segmentVersion vm inst.

(** encoding/json on the two types the spool writes. *)
Class Json := {
  marshal : Envelope → option (list Z);
  unmarshal : list Z → option Envelope;
  marshalHeader : segmentHeader → list Z;
  unmarshalHeader : list Z → option segmentHeader
}.

Definition newline : Z := 10.

(** What the spool relies on: output is bytes, decodes and, an event being an
    object, ends in a brace; the compact
    form of a header is one line, not a short one, that keeps the magic and the version. (A VM id
    that is not valid UTF-8 would not survive.) *)
Class JsonLaws `{Json} := {
  marshal_bytes e b : marshal e = Some b → is_bytes b;
  marshal_decodes e b : marshal e = Some b → is_Some (unmarshal b);
  marshal_brace e b : marshal e = Some b → last b = Some 125;
  header_line h : newline ∉ marshalHeader h;
  header_long h : (3 ≤ length (marshalHeader h))%nat;
  header_decodes vm inst : ∃ h, unmarshalHeader (marshalHeader (segHeader vm inst)) = Some h ∧
    hMagic h = segmentMagic ∧ hVersion h = segmentVersion
}.

(** [br.ReadString('\n')]: the line with its newline and the rest. *)
Fixpoint ReadLine (l : list Z) : option (list Z * list Z) :=
  match l with
  | [] => None
  | b :: l' =>
    if b =? newline then Some ([b], l')
    else '(h, r) ← ReadLine l'; Some (b :: h, r)
  end.

(** [strings.TrimSuffix] of the newline. *)
Definition trimLine (l : list Z) : list Z := take (length l - 1) l.

Inductive SegErr :=
  | ErrNoHeader
  | ErrParseHeader
  | ErrMagic (m : string)
  | ErrVersion (v : Z).

Section json.
Context `{Json}.

(** * The iterator *)

(** [pos] is the number of bytes consumed. *)
Record SegmentIter := mkIter { pos : nat; done : bool }.

Inductive NextResult := NEnv (env : Envelope) | NEOF | NCorrupt.

Definition ReadSegment (data : list Z) : result SegErr SegmentIter :=
  match ReadLine data with
  | None => Err ErrNoHeader
  | Some (hdrLine, _) =>
    match unmarshalHeader (trimLine hdrLine) with
    | None => Err ErrParseHeader
    | Some hdr =>
      if negb (hMagic hdr =? segmentMagic)%string then Err (ErrMagic (hMagic hdr))
      else if negb (hVersion hdr =? segmentVersion) then Err (ErrVersion (hVersion hdr))
      else Ok (mkIter (length hdrLine) false)
    end
  end.

Definition Next (data : list Z) (it : SegmentIter) : SegmentIter * NextResult :=
  if done it then (it, NEOF) else
  let stop := mkIter (pos it) true in
  match ReadFull 4 (drop (pos it) data) with
  | Err _ => (stop, NEOF)
  | Ok (lenBuf, r1) =>
    let recLen := BigEndian.Uint32 lenBuf in
    if recLen =? endMarker then (stop, NEOF)
    else if maxRecordBytes <? recLen then (mkIter (pos it + 4) false, NCorrupt)
    else
      match ReadFull 4 r1 with
      | Err _ => (stop, NEOF)
      | Ok (crcBuf, r2) =>
        match ReadFull (Z.to_nat recLen) r2 with
        | Err _ => (stop, NEOF)
        | Ok (body, _) =>
          let it' := mkIter (pos it + 8 + Z.to_nat recLen) false in
          if negb (crc32c body =? BigEndian.Uint32 crcBuf) then (it', NCorrupt)
          else match unmarshal body with
               | None => (it', NCorrupt)
               | Some env => (it', NEnv env)
               end
        end
      end
  end.

(** The loop of a reader that takes every record: the envelopes, and whether it
    ended at [io.EOF] or at a corrupt record. A round that returns an envelope
    consumes eight bytes or more, so the length of the file is fuel enough. *)
Fixpoint readFrom (fuel : nat) (data : list Z) (it : SegmentIter) : list Envelope * bool :=
  match fuel with
  | 0%nat => ([], true)
  | S fuel =>
    match Next data it with
    | (it', NEnv env) => let '(l, eof) := readFrom fuel data it' in (env :: l, eof)
    | (_, NEOF) => ([], true)
    | (_, NCorrupt) => ([], false)
    end
  end.

Definition readAll (data : list Z) (it : SegmentIter) : list Envelope * bool :=
  readFrom (S (length data)) data it.

(** [countSegmentRecords]: [None] for the code's -1 with [ErrCorruptRecord]. *)
Definition countSegmentRecords (data : list Z) : result SegErr (option nat) :=
  match ReadSegment data with
  | Err e => Err e
  | Ok it =>
    let '(l, eof) := readAll data it in Ok (if eof then Some (length l) else None)
  end.

(** [segmentHasEndMarker]: [None] for a file shorter than the marker. *)
Definition segmentHasEndMarker (data : list Z) : option bool :=
  if (length data <? 4)%nat then None
  else Some (BigEndian.Uint32 (drop (length data - 4) data) =? endMarker).

(** * The repair of one segment *)

Inductive Scan :=
  | ScanTorn (at_ good : nat)   (* the input ended inside a record *)
  | ScanEnd                     (* the end marker *)
  | ScanCorrupt.                (* an oversize length or a bad checksum *)

(** The record loop of [recoverSegment] from position [p], which is also the end
    of the last good record. *)
Fixpoint scan (fuel : nat) (data : list Z) (p : nat) : Scan :=
  match fuel with
  | 0%nat => ScanTorn p p
  | S fuel =>
    let torn := ScanTorn (length data) p in
    match ReadFull 4 (drop p data) with
    | Err _ => torn
    | Ok (lenBuf, r1) =>
      let recLen := BigEndian.Uint32 lenBuf in
      if recLen =? endMarker then ScanEnd
      else if maxRecordBytes <? recLen then ScanCorrupt
      else
        match ReadFull 4 r1 with
        | Err _ => torn
        | Ok (crcBuf, r2) =>
          match ReadFull (Z.to_nat recLen) r2 with
          | Err _ => torn
          | Ok (body, _) =>
            if negb (crc32c body =? BigEndian.Uint32 crcBuf) then ScanCorrupt
            else scan fuel data (p + 8 + Z.to_nat recLen)
          end
        end
    end
  end.

(** What [recoverSegment] reports, with the bytes it leaves in the file. *)
Inductive Recovered :=
  | Headerless
  | Checked (truncated : bool) (corruptCount : nat) (data : list Z).

Definition recoverSegment (data : list Z) (isNewest : bool) : result SegErr Recovered :=
  match ReadLine data with
  | None => Ok Headerless
  | Some (hdrLine, _) =>
    match unmarshalHeader (trimLine hdrLine) with
    | None => Err ErrParseHeader
    | Some hdr =>
      if negb (hMagic hdr =? segmentMagic)%string then Err (ErrMagic (hMagic hdr))
      else
        match scan (S (length data)) data (length hdrLine) with
        | ScanTorn at_ good =>
          if isNewest || (at_ <=? good)%nat then Ok (Checked false 0 data)
          else Ok (Checked true 0 (take good data))
        | ScanEnd => Ok (Checked false 0 data)
        | ScanCorrupt => Ok (Checked false 1 data)
        end
    end
  end.

End json.

(** * Names *)

Lemma length_app_string (s t : string) :
  String.length (s +:+ t) = (String.length s + String.length t)%nat.
Proof. induction s as [|c s IH]; [done|]. exact (f_equal S IH). Qed.

Lemma length_zeros n : String.length (zeros n) = n.
Proof. induction n as [|n IH]; [done|]. cbn [zeros]. by rewrite length_app_string, IH. Qed.

Lemma substring_prefix (s t : string) : String.substring 0 (String.length s) (s +:+ t) = s.
Proof. induction s as [|c s IH]; [by destruct t|]. exact (f_equal (String c) IH). Qed.

Lemma substring_skip (s t : string) n m :
  String.substring (String.length s + n) m (s +:+ t) = String.substring n m t.
Proof. induction s as [|c s IH]; [done|]. apply IH. Qed.

Lemma substring_whole (s : string) : String.substring 0 (String.length s) s = s.
Proof. induction s as [|c s IH]; cbn; [done|]. by f_equal. Qed.

Lemma digit_isDigit c d : Strconv.digit_val c = Some d → isDigit c = true ∧ 0 ≤ d ≤ 9.
Proof.
  unfold Strconv.digit_val, isDigit, code. case_match eqn:E; [|done].
  pose proof E as E'. apply andb_true_iff in E' as [E1 E2]. apply Z.leb_le in E1, E2.
  intros [= <-]. split; [done|lia].
Qed.

Lemma parse_allDigits s acc v : Strconv.parse_digits acc s = Some v → allDigits s = true.
Proof.
  revert acc. induction s as [|c s IH]; intros acc; [done|]. cbn.
  destruct (Strconv.digit_val c) as [d|] eqn:Hd; [|done]. cbn. intros Hp.
  apply digit_isDigit in Hd as [-> _]. by eapply IH.
Qed.

(** A digit string's value: between its accumulator shifted and the next one. *)
Lemma parse_range s acc v :
  Strconv.parse_digits acc s = Some v →
  acc * 10 ^ Z.of_nat (String.length s) ≤ v < (acc + 1) * 10 ^ Z.of_nat (String.length s).
Proof.
  revert acc. induction s as [|c s IH]; intros acc; [cbn; intros [= <-]; lia|].
  cbn [Strconv.parse_digits String.length].
  destruct (Strconv.digit_val c) as [d|] eqn:Hd; [|done]. cbn. intros Hp%IH.
  apply digit_isDigit in Hd as [_ Hd].
  rewrite Nat2Z.inj_succ, Z.pow_succ_r by lia.
  pose proof (Z.pow_pos_nonneg 10 (Z.of_nat (String.length s))). nia.
Qed.

Lemma parse_zeros n s : Strconv.parse_digits 0 (zeros n +:+ s) = Strconv.parse_digits 0 s.
Proof. induction n as [|n IH]; [done|]. cbn. exact IH. Qed.

Lemma pretty_go_short k x s :
  (x < 10 ^ N.of_nat k)%N →
  (String.length (pretty_N_go x s) ≤ k + String.length s)%nat.
Proof.
  revert x s. induction k as [|k IH]; intros x s Hx.
  - assert (x = 0)%N as -> by (cbn in Hx; lia). by rewrite pretty_N_go_0.
  - destruct (decide (x = 0)%N) as [->|]; [rewrite pretty_N_go_0; lia|].
    rewrite pretty_N_go_step by lia. etrans; [apply IH|cbn; lia].
    rewrite Nat2N.inj_succ, N.pow_succ_r' in Hx. apply N.Div0.div_lt_upper_bound. lia.
Qed.

Lemma FormatUint_short v n :
  0 ≤ v < 10 ^ Z.of_nat (S n) → (String.length (Strconv.FormatUint v) ≤ S n)%nat.
Proof.
  intros Hv. unfold Strconv.FormatUint, pretty, pretty_Z, pretty, pretty_positive, pretty,
    pretty_N.
  destruct v as [|q|]; [cbn; lia| |lia]. rewrite decide_False by done.
  etrans; [apply (pretty_go_short (S n))|cbn; lia].
  apply N2Z.inj_lt. rewrite N2Z.inj_pow, nat_N_Z. apply Hv.
Qed.

Definition indexOk (idx : Z) : Prop := 0 ≤ idx ≤ maxSegmentIndex.

Lemma pad_facts idx :
  indexOk idx → String.length (pad 16 idx) = 16%nat ∧
  Strconv.parse_digits 0 (pad 16 idx) = Some idx.
Proof.
  intros [H0 H1]. unfold pad. rewrite length_app_string, length_zeros, parse_zeros.
  split; [|by apply Strconv.parse_digits_FormatUint].
  pose proof (FormatUint_short idx 15). unfold maxSegmentIndex in H1. lia.
Qed.

Lemma segmentName_parts idx :
  indexOk idx →
  String.length (segmentName idx) = segmentNameLen ∧
  String.substring 0 4 (segmentName idx) = "seg-" ∧
  String.substring 20 5 (segmentName idx) = ".vmsp" ∧
  String.substring 4 16 (segmentName idx) = pad 16 idx.
Proof.
  intros Hi. destruct (pad_facts idx Hi) as [Hl _]. unfold segmentName.
  set (d := pad 16 idx) in *. split_and!.
  - by rewrite !length_app_string, Hl.
  - exact (substring_prefix "seg-" _).
  - pose proof (substring_skip "seg-" (d +:+ ".vmsp") 16 5) as E. cbn [String.length Nat.add] in E.
    rewrite E. pose proof (substring_skip d ".vmsp" 0 5) as E2. rewrite Hl in E2. exact E2.
  - pose proof (substring_skip "seg-" (d +:+ ".vmsp") 0 16) as E. cbn [String.length Nat.add] in E.
    rewrite E, <- Hl. apply substring_prefix.
Qed.

Lemma parseSegmentName_segmentName idx :
  indexOk idx → parseSegmentName (segmentName idx) = Some idx.
Proof.
  intros Hi. destruct (segmentName_parts idx Hi) as (E1 & E2 & E3 & E4).
  destruct (pad_facts idx Hi) as [Hl Hp].
  unfold parseSegmentName. rewrite E1, E2, E3, E4. cbn zeta.
  rewrite Nat.eqb_refl, !String.eqb_refl, (parse_allDigits _ _ _ Hp). cbn [negb].
  unfold Strconv.ParseUint. destruct (pad 16 idx); [done|]. rewrite Hp. cbn.
  case_match eqn:E; [done|]. apply Z.ltb_ge in E. destruct Hi. unfold maxSegmentIndex in *. lia.
Qed.

Lemma segmentName_inj i j :
  indexOk i → indexOk j → segmentName i = segmentName j → i = j.
Proof.
  intros Hi Hj E. apply parseSegmentName_segmentName in Hi, Hj. congruence.
Qed.

(** The reader's string order on names is the order of the indexes. *)
Lemma digits_compare s t a b acc :
  String.length s = String.length t →
  Strconv.parse_digits acc s = Some a → Strconv.parse_digits acc t = Some b →
  String.compare s t = (a ?= b).
Proof.
  revert t acc. induction s as [|c s IH]; intros [|c' t] acc Hl; try done.
  { cbn. intros [= <-] [= <-]. by rewrite Z.compare_refl. }
  cbn [Strconv.parse_digits String.compare].
  destruct (Strconv.digit_val c) as [x|] eqn:Hx; [|done].
  destruct (Strconv.digit_val c') as [y|] eqn:Hy; [|done]. cbn. intros Ha Hb.
  injection Hl as Hl.
  assert (Hc : Ascii.compare c c' = (x ?= y)).
  { unfold Ascii.compare, Strconv.digit_val in *.
    case_match; [|done]. case_match; [|done]. injection Hx as <-. injection Hy as <-.
    rewrite <- N2Z.inj_compare. symmetry.
    destruct (Z.compare_spec (Z.of_N (Ascii.N_of_ascii c)) (Z.of_N (Ascii.N_of_ascii c')));
      [apply Z.compare_eq_iff|apply Z.compare_lt_iff|apply Z.compare_gt_iff]; lia. }
  rewrite Hc. pose proof (parse_range _ _ _ Ha) as Ra. pose proof (parse_range _ _ _ Hb) as Rb.
  rewrite Hl in Ra. apply digit_isDigit in Hx as [_ Hx], Hy as [_ Hy].
  pose proof (Z.pow_pos_nonneg 10 (Z.of_nat (String.length t)) ltac:(lia) ltac:(lia)).
  destruct (x ?= y) eqn:E.
  - apply Z.compare_eq in E as ->. by eapply IH.
  - symmetry. apply Z.compare_lt_iff. rewrite Z.compare_lt_iff in E.
    assert ((10 * acc + x + 1) * 10 ^ Z.of_nat (String.length t) ≤
      (10 * acc + y) * 10 ^ Z.of_nat (String.length t)) by (apply Z.mul_le_mono_nonneg_r; lia). lia.
  - symmetry. apply Z.compare_gt_iff. rewrite Z.compare_gt_iff in E.
    assert ((10 * acc + y + 1) * 10 ^ Z.of_nat (String.length t) ≤
      (10 * acc + x) * 10 ^ Z.of_nat (String.length t)) by (apply Z.mul_le_mono_nonneg_r; lia). lia.
Qed.

Lemma compare_app_same (s t u : string) :
  String.compare (s +:+ t) (s +:+ u) = String.compare t u.
Proof.
  induction s as [|c s IH]; [done|].
  change (String.compare (String c (s +:+ t)) (String c (s +:+ u)) = String.compare t u).
  cbn [String.compare]. unfold Ascii.compare. by rewrite N.compare_refl.
Qed.

Lemma compare_app_len (s t u v : string) :
  String.length s = String.length t →
  String.compare (s +:+ u) (t +:+ v) =
    match String.compare s t with Eq => String.compare u v | c => c end.
Proof.
  revert t. induction s as [|c s IH]; intros [|c' t] Hl; try done.
  change (String.compare (String c (s +:+ u)) (String c' (t +:+ v)) =
    match String.compare (String c s) (String c' t) with Eq => String.compare u v | x => x end).
  cbn [String.compare]. injection Hl as Hl. destruct (Ascii.compare c c'); [by apply IH|done..].
Qed.

Lemma segmentName_compare i j :
  indexOk i → indexOk j → String.compare (segmentName i) (segmentName j) = (i ?= j).
Proof.
  intros Hi Hj. destruct (pad_facts i Hi) as [Hli Hpi], (pad_facts j Hj) as [Hlj Hpj].
  unfold segmentName. rewrite compare_app_same, compare_app_len by congruence.
  rewrite (digits_compare _ _ i j 0) by (done || congruence).
  by destruct (i ?= j).
Qed.

Lemma substring_split (s : string) n m :
  (n + m = String.length s)%nat →
  s = String.substring 0 n s +:+ String.substring n m s.
Proof.
  revert n. induction s as [|c s IH]; intros [|n] Hl; cbn [String.length] in Hl.
  - by destruct m.
  - done.
  - rewrite <- (substring_whole (String c s)) at 1. cbn [String.length].
    assert (m = S (String.length s)) as -> by lia. done.
  - change (String c s = String c (String.substring 0 n s +:+ String.substring n m s)).
    f_equal. apply IH. lia.
Qed.

Lemma substring_sub (s : string) n m k :
  (n + (m + k) = String.length s)%nat →
  String.substring n (m + k) s = String.substring n m s +:+ String.substring (n + m) k s.
Proof.
  revert n. induction s as [|c s IH]; intros [|n] Hl; cbn [String.length] in Hl; try lia.
  - assert (m = 0%nat ∧ k = 0%nat) as [-> ->] by lia. done.
  - change (m + k = String.length (String c s))%nat in Hl. rewrite Hl, substring_whole.
    by apply substring_split.
  - cbn [Nat.add]. exact (IH n ltac:(lia)).
Qed.

Lemma digits_inj s t v :
  String.length s = String.length t →
  Strconv.parse_digits 0 s = Some v → Strconv.parse_digits 0 t = Some v → s = t.
Proof.
  intros Hl Hs Ht. apply String.compare_eq_iff.
  rewrite (digits_compare s t v v 0) by done. apply Z.compare_refl.
Qed.

(** [parseSegmentName] accepts exactly the names [segmentName] writes. *)
Lemma parse_name name i :
  parseSegmentName name = Some i → name = segmentName i ∧ indexOk i.
Proof.
  unfold parseSegmentName. destruct (Nat.eqb_spec (String.length name) segmentNameLen) as [Hl|];
    [|done]. cbn [negb]. unfold segmentNameLen in Hl.
  destruct (String.eqb_spec (String.substring 0 4 name) "seg-") as [E1|]; [|done].
  destruct (String.eqb_spec (String.substring 20 5 name) ".vmsp") as [E2|]; [|done].
  cbn [negb]. cbn zeta. set (d := String.substring 4 16 name).
  assert (Hn : name = "seg-" +:+ d +:+ ".vmsp").
  { rewrite (substring_split name 4 21) at 1 by lia. rewrite E1.
    change 21%nat with (16 + 5)%nat. rewrite (substring_sub name 4 16 5) by lia.
    change (4 + 16)%nat with 20%nat. by rewrite E2. }
  assert (Hd : String.length d = 16%nat).
  { rewrite Hn, !length_app_string in Hl. cbn in Hl. lia. }
  destruct (allDigits d); [|done]. unfold Strconv.ParseUint.
  destruct (Strconv.parse_digits 0 d) as [v|] eqn:Hp; [|by destruct d].
  intros Hv. assert (v = i) as ->.
  { destruct d; [done|]. cbn in Hv. by case_match; simplify_eq. }
  assert (Hi : indexOk i).
  { pose proof (parse_range _ _ _ Hp) as Hr. rewrite Hd in Hr.
    unfold indexOk, maxSegmentIndex. lia. }
  split; [|done]. destruct (pad_facts i Hi) as [Hl' Hp'].
  rewrite Hn. unfold segmentName. by rewrite (digits_inj d (pad 16 i) i) by congruence.
Qed.

(** * The first record of a byte sequence *)

Inductive Record1 := RTorn | RMarker | ROver | RBad (body : list Z) | RGood (body : list Z).

Definition record1 (r : list Z) : Record1 :=
  match ReadFull 4 r with
  | Err _ => RTorn
  | Ok (lenBuf, r1) =>
    let recLen := BigEndian.Uint32 lenBuf in
    if recLen =? endMarker then RMarker
    else if maxRecordBytes <? recLen then ROver
    else
      match ReadFull 4 r1 with
      | Err _ => RTorn
      | Ok (crcBuf, r2) =>
        match ReadFull (Z.to_nat recLen) r2 with
        | Err _ => RTorn
        | Ok (body, _) =>
          if negb (crc32c body =? BigEndian.Uint32 crcBuf) then RBad body else RGood body
        end
      end
  end.

Lemma Next_record1 `{Json} data p :
  match record1 (drop p data) with
  | RTorn | RMarker => Next data (mkIter p false) = (mkIter p true, NEOF)
  | ROver | RBad _ => (Next data (mkIter p false)).2 = NCorrupt
  | RGood body =>
    Next data (mkIter p false) =
      (mkIter (p + 8 + length body) false,
       match unmarshal body with Some env => NEnv env | None => NCorrupt end)
  end.
Proof.
  unfold record1, Next. cbn [done pos].
  destruct (ReadFull 4 (drop p data)) as [[lb r1]|]; [|done].
  destruct (_ =? endMarker); [done|]. destruct (maxRecordBytes <? _); [done|].
  destruct (ReadFull 4 r1) as [[cb r2]|]; [|done].
  destruct (ReadFull (Z.to_nat _) r2) as [[body r3]|] eqn:E; [|done].
  apply ReadFull_Ok in E as [_ E]. destruct (negb _); [done|]. rewrite E.
  by destruct (unmarshal body).
Qed.

Lemma scan_record1 fuel data p :
  scan (S fuel) data p =
  match record1 (drop p data) with
  | RTorn => ScanTorn (length data) p
  | RMarker => ScanEnd
  | ROver | RBad _ => ScanCorrupt
  | RGood body => scan fuel data (p + 8 + length body)
  end.
Proof.
  unfold record1. cbn [scan].
  destruct (ReadFull 4 (drop p data)) as [[lb r1]|]; [|done].
  destruct (_ =? endMarker); [done|]. destruct (maxRecordBytes <? _); [done|].
  destruct (ReadFull 4 r1) as [[cb r2]|]; [|done].
  destruct (ReadFull (Z.to_nat _) r2) as [[body r3]|] eqn:E; [|done].
  apply ReadFull_Ok in E as [_ E]. destruct (negb _); [done|]. by rewrite E.
Qed.

(** ** Checksums are 32 bits wide *)

Lemma bits_above a w n : 0 ≤ a < 2 ^ w → 0 ≤ w ≤ n → Z.testbit a n = false.
Proof.
  intros Ha Hn. rewrite <- (Z.mod_small a (2 ^ w)) by done. apply Z.mod_pow2_bits_high. lia.
Qed.

Lemma lxor_range a b w :
  0 ≤ w → 0 ≤ a < 2 ^ w → 0 ≤ b < 2 ^ w → 0 ≤ Z.lxor a b < 2 ^ w.
Proof.
  intros Hw Ha Hb.
  assert (E : Z.lxor a b = Z.lxor a b mod 2 ^ w).
  { apply Z.bits_inj'. intros n Hn. destruct (decide (n < w)).
    - by rewrite Z.mod_pow2_bits_low by lia.
    - rewrite Z.mod_pow2_bits_high, Z.lxor_spec by lia.
      by rewrite (bits_above a w), (bits_above b w) by lia. }
  rewrite E. apply Z.mod_pos_bound. lia.
Qed.

Lemma crcShift_range n c : 0 ≤ c < 2 ^ 32 → 0 ≤ crcShift n c < 2 ^ 32.
Proof.
  revert c. induction n as [|n IH]; intros c Hc; [done|]. cbn [crcShift]. apply IH.
  assert (0 ≤ Z.shiftr c 1 < 2 ^ 32).
  { rewrite Z.shiftr_div_pow2 by lia. change (2 ^ 1) with 2.
    split; [apply Z.div_pos; lia|]. apply Z.div_lt_upper_bound; lia. }
  case_match; [|done]. apply lxor_range; [lia|done|]. unfold crc32cPoly. lia.
Qed.

Lemma crc32c_range l : is_bytes l → 0 ≤ crc32c l < 2 ^ 32.
Proof.
  intros Hl. unfold crc32c. apply lxor_range; [lia| |lia].
  assert (H : ∀ c, 0 ≤ c < 2 ^ 32 → 0 ≤ fold_left crcByte l c < 2 ^ 32); [|apply H; lia].
  induction Hl as [|b l Hb Hl IH]; intros c Hc; [done|]. cbn [fold_left]. apply IH.
  apply crcShift_range, lxor_range; [lia|done|]. unfold is_byte in Hb. lia.
Qed.

(** ** Frames read back *)

Definition frames (bs : list (list Z)) : list Z := concat (encodeFrame <$> bs).

Definition bodyOk (b : list Z) : Prop := is_bytes b ∧ Z.of_nat (length b) ≤ maxRecordBytes.

Lemma length_encodeFrame b : length (encodeFrame b) = (8 + length b)%nat.
Proof.
  unfold encodeFrame, BigEndian.PutUint32. by rewrite !length_app, !BigEndian.length_put.
Qed.

Lemma u32_len b : bodyOk b → Int.u32 (Z.of_nat (length b)) = Z.of_nat (length b).
Proof. intros [_ Hl]. apply Z.mod_small. unfold maxRecordBytes in Hl. lia. Qed.

Lemma Uint32_PutUint32 v : 0 ≤ v < 2 ^ 32 → BigEndian.Uint32 (BigEndian.PutUint32 v) = v.
Proof.
  intros Hv. rewrite <- (app_nil_r (BigEndian.PutUint32 v)), BigEndian.Uint32_Put.
  by apply Z.mod_small.
Qed.

Lemma ReadFull_word v r :
  ReadFull 4 (BigEndian.PutUint32 v ++ r) = Ok (BigEndian.PutUint32 v, r).
Proof.
  rewrite <- (BigEndian.length_put 4 v) at 1. apply ReadFull_app.
Qed.

Lemma record1_frame b r : bodyOk b → record1 (encodeFrame b ++ r) = RGood b.
Proof.
  intros Hb. pose proof Hb as [Hby Hl]. pose proof (u32_len b Hb) as Hu.
  pose proof (crc32c_range b Hby) as Hc. unfold maxRecordBytes in Hl.
  unfold record1, encodeFrame. rewrite <- !app_assoc, ReadFull_word, Hu.
  rewrite Uint32_PutUint32 by lia. cbn zeta.
  destruct (Z.eqb_spec (Z.of_nat (length b)) endMarker) as [E|_]; [unfold endMarker in E; lia|].
  destruct (Z.ltb_spec maxRecordBytes (Z.of_nat (length b))) as [E|_];
    [unfold maxRecordBytes in E; lia|].
  rewrite ReadFull_word, Nat2Z.id, ReadFull_app, Uint32_PutUint32 by done.
  by rewrite Z.eqb_refl.
Qed.

Lemma record1_marker r : record1 (marker ++ r) = RMarker.
Proof. unfold record1, marker. by rewrite ReadFull_word. Qed.

Lemma ReadFull_prefix n l x :
  x `prefix_of` l → (n ≤ length x)%nat → ReadFull n x = Ok (take n l, drop n x).
Proof.
  intros [k ->] Hn. unfold ReadFull. rewrite decide_True by done. by rewrite take_app_le by done.
Qed.

Lemma ReadFull_torn n (x : list Z) : (length x < n)%nat → ∃ e, ReadFull n x = Err e.
Proof. intros. unfold ReadFull. rewrite decide_False by lia. case_decide; eauto. Qed.

(** An input that ends inside a frame, or inside the end marker, is torn. *)
Lemma record1_torn b x :
  bodyOk b → x `prefix_of` encodeFrame b → (length x < length (encodeFrame b))%nat →
  record1 x = RTorn.
Proof.
  intros Hb [y Hx] Hl. pose proof Hb as [_ Hm]. unfold maxRecordBytes in Hm.
  unfold record1. destruct (decide (length x < 4)%nat) as [H4|H4].
  { by destruct (ReadFull_torn 4 x H4) as [? ->]. }
  assert (E4 : ReadFull 4 x = Ok (BigEndian.PutUint32 (Z.of_nat (length b)), drop 4 x)).
  { rewrite (ReadFull_prefix 4 (encodeFrame b)) by (lia || by exists y).
    unfold encodeFrame. rewrite u32_len by done. do 2 f_equal. }
  rewrite E4. rewrite Uint32_PutUint32 by lia. cbn zeta.
  destruct (Z.eqb_spec (Z.of_nat (length b)) endMarker) as [E|_]; [unfold endMarker in E; lia|].
  destruct (Z.ltb_spec maxRecordBytes (Z.of_nat (length b))) as [E|_];
    [unfold maxRecordBytes in E; lia|].
  rewrite length_encodeFrame in Hl.
  destruct (decide (length x < 8)%nat) as [H8|H8].
  { destruct (ReadFull_torn 4 (drop 4 x)) as [? ->]; [rewrite length_drop; lia|done]. }
  unfold ReadFull at 1. rewrite decide_True by (rewrite length_drop; lia).
  destruct (ReadFull_torn (Z.to_nat (Z.of_nat (length b))) (drop 4 (drop 4 x))) as [? ->]; [|done].
  rewrite !length_drop. lia.
Qed.

(** ** Whole segments *)

Section layout.
Context `{JsonLaws}.

Definition headerLine (h : segmentHeader) : list Z := marshalHeader h ++ [newline].

(** The bytes of a segment that holds [bs] and then [x]. *)
Definition layout (h : segmentHeader) (bs : list (list Z)) (x : list Z) : list Z :=
  headerLine h ++ frames bs ++ x.

Definition recordOk (b : list Z) : Prop :=
  bodyOk b ∧ is_Some (unmarshal b) ∧ last b = Some 125.

(** Bytes that end a scan without an error: nothing, a torn record, the marker. *)
Definition quiet (x : list Z) : Prop := record1 x = RTorn ∨ record1 x = RMarker.

Lemma ReadLine_line l r : newline ∉ l → ReadLine (l ++ newline :: r) = Some (l ++ [newline], r).
Proof.
  induction l as [|b l IH]; intros Hn; [done|]. apply not_elem_of_cons in Hn as [Hb Hn].
  cbn. destruct (Z.eqb_spec b newline); [congruence|]. by rewrite IH.
Qed.

Lemma ReadLine_none l : newline ∉ l → ReadLine l = None.
Proof.
  induction l as [|b l IH]; intros Hn; [done|]. apply not_elem_of_cons in Hn as [Hb Hn].
  cbn. destruct (Z.eqb_spec b newline); [congruence|]. by rewrite IH.
Qed.

Lemma ReadLine_layout h bs x :
  ReadLine (layout h bs x) = Some (headerLine h, frames bs ++ x).
Proof. unfold layout, headerLine. rewrite <- app_assoc. apply ReadLine_line, header_line. Qed.

Lemma trimLine_header h : trimLine (headerLine h) = marshalHeader h.
Proof.
  unfold trimLine, headerLine. rewrite length_app. cbn [length].
  rewrite Nat.add_sub. apply take_app_length.
Qed.

Lemma ReadSegment_layout vm inst bs x :
  ReadSegment (layout (segHeader vm inst) bs x) =
  Ok (mkIter (length (headerLine (segHeader vm inst))) false).
Proof.
  unfold ReadSegment. rewrite ReadLine_layout, trimLine_header.
  destruct (header_decodes vm inst) as (h & -> & -> & ->).
  by rewrite String.eqb_refl, Z.eqb_refl.
Qed.

Lemma drop_layout h bs x : drop (length (headerLine h)) (layout h bs x) = frames bs ++ x.
Proof. apply drop_app_length. Qed.

Lemma frames_cons b bs : frames (b :: bs) = encodeFrame b ++ frames bs.
Proof. done. Qed.

Lemma frames_snoc bs b : frames (bs ++ [b]) = frames bs ++ encodeFrame b.
Proof. unfold frames. rewrite fmap_app, concat_app. cbn. by rewrite app_nil_r. Qed.

Lemma drop_frame (data : list Z) p b r :
  drop p data = encodeFrame b ++ r → drop (p + 8 + length b) data = r.
Proof.
  intros E. rewrite <- Nat.add_assoc, <- drop_drop, E, <- length_encodeFrame.
  apply drop_app_length.
Qed.

Lemma Next_frame data p b r env :
  drop p data = encodeFrame b ++ r → bodyOk b → unmarshal b = Some env →
  Next data (mkIter p false) = (mkIter (p + 8 + length b) false, NEnv env).
Proof.
  intros E Hb He. pose proof (Next_record1 data p) as Hn.
  by rewrite E, record1_frame, He in Hn.
Qed.

Lemma Next_quiet data p :
  quiet (drop p data) → Next data (mkIter p false) = (mkIter p true, NEOF).
Proof. intros [E|E]; pose proof (Next_record1 data p) as Hn; by rewrite E in Hn. Qed.

Lemma readFrom_frames bs fuel data p x :
  Forall recordOk bs → drop p data = frames bs ++ x →
  readFrom (length bs + fuel) data (mkIter p false) =
  let '(l, eof) := readFrom fuel data (mkIter (p + length (frames bs)) false) in
  (omap unmarshal bs ++ l, eof).
Proof.
  intros Hbs. revert p. induction Hbs as [|b bs [Hb [[env He] _]] Hbs IH]; intros p Hd.
  { cbn. rewrite Nat.add_0_r. by destruct (readFrom _ _ _). }
  rewrite frames_cons, <- app_assoc in Hd.
  cbn [length Nat.add readFrom]. rewrite (Next_frame _ _ _ _ _ Hd Hb He).
  rewrite (IH _ (drop_frame _ _ _ _ Hd)). rewrite frames_cons, length_app, length_encodeFrame.
  replace (p + 8 + length b + length (frames bs))%nat
    with (p + (8 + length b + length (frames bs)))%nat by lia.
  destruct (readFrom _ _ _) as [l eof]. cbn. by rewrite He.
Qed.

Lemma length_frames bs : (length bs ≤ length (frames bs))%nat.
Proof.
  induction bs as [|b bs IH]; [done|].
  rewrite frames_cons, length_app, length_encodeFrame. cbn. lia.
Qed.

Lemma readAll_layout h bs x :
  Forall recordOk bs →
  ∃ fuel, readAll (layout h bs x) (mkIter (length (headerLine h)) false) =
    let '(l, eof) := readFrom (S fuel) (layout h bs x)
      (mkIter (length (headerLine h ++ frames bs)) false) in (omap unmarshal bs ++ l, eof).
Proof.
  intros Hbs. unfold readAll. pose proof (length_frames bs).
  exists (length (layout h bs x) - length bs)%nat.
  replace (S (length (layout h bs x)))
    with (length bs + S (length (layout h bs x) - length bs))%nat
    by (unfold layout; rewrite !length_app; lia).
  rewrite (readFrom_frames _ _ _ _ x) by (done || apply drop_layout).
  by rewrite length_app.
Qed.

Lemma drop_layout_tail h bs x :
  drop (length (headerLine h ++ frames bs)) (layout h bs x) = x.
Proof. unfold layout. rewrite app_assoc. apply drop_app_length. Qed.

Lemma scan_frames bs fuel data p x :
  Forall bodyOk bs → drop p data = frames bs ++ x →
  scan (length bs + fuel) data p = scan fuel data (p + length (frames bs)).
Proof.
  intros Hbs. revert p. induction Hbs as [|b bs Hb Hbs IH]; intros p Hd.
  { cbn. by rewrite Nat.add_0_r. }
  rewrite frames_cons, <- app_assoc in Hd.
  cbn [length Nat.add]. rewrite scan_record1, Hd, record1_frame by done.
  rewrite (IH _ (drop_frame _ _ _ _ Hd)). f_equal.
  rewrite frames_cons, length_app, length_encodeFrame. lia.
Qed.

Lemma scan_layout h bs x :
  Forall bodyOk bs →
  ∃ fuel, scan (S (length (layout h bs x))) (layout h bs x) (length (headerLine h)) =
    scan (S fuel) (layout h bs x) (length (headerLine h ++ frames bs)).
Proof.
  intros Hbs. pose proof (length_frames bs). exists (length (layout h bs x) - length bs)%nat.
  replace (S (length (layout h bs x)))
    with (length bs + S (length (layout h bs x) - length bs))%nat
    by (unfold layout; rewrite !length_app; lia).
  rewrite (scan_frames _ _ _ _ x) by (done || apply drop_layout).
  by rewrite length_app.
Qed.

Lemma recoverSegment_layout vm inst bs x newest :
  Forall bodyOk bs → quiet x →
  recoverSegment (layout (segHeader vm inst) bs x) newest =
  Ok (match record1 x with
      | RTorn =>
        if newest || (length x <=? 0)%nat then
          Checked false 0 (layout (segHeader vm inst) bs x)
        else Checked true 0 (layout (segHeader vm inst) bs [])
      | _ => Checked false 0 (layout (segHeader vm inst) bs x)
      end).
Proof.
  intros Hbs Hq. set (h := segHeader vm inst). unfold recoverSegment.
  rewrite ReadLine_layout, trimLine_header.
  destruct (header_decodes vm inst) as (h' & Eh & Em & _). fold h in Eh.
  rewrite Eh, Em, String.eqb_refl. cbn [negb].
  destruct (scan_layout h bs x Hbs) as [fuel ->].
  rewrite scan_record1, drop_layout_tail.
  destruct Hq as [E|E]; rewrite E; [|done].
  assert (Hl : (length (layout h bs x) <=? length (headerLine h ++ frames bs))%nat =
    (length x <=? 0)%nat).
  { unfold layout. rewrite !length_app.
    destruct (Nat.leb_spec (length x) 0); [apply Nat.leb_le|apply Nat.leb_gt]; lia. }
  rewrite Hl. destruct (newest || _); [done|]. do 2 f_equal.
  unfold layout. rewrite !app_assoc, app_nil_r. by rewrite take_app_length.
Qed.

Lemma readAll_quiet h bs x :
  Forall recordOk bs → quiet x →
  readAll (layout h bs x) (mkIter (length (headerLine h)) false) = (omap unmarshal bs, true).
Proof.
  intros Hbs Hq. destruct (readAll_layout h bs x Hbs) as [fuel ->]. cbn [readFrom].
  rewrite Next_quiet by by rewrite drop_layout_tail. by rewrite app_nil_r.
Qed.

(** ** Cut segments *)

(** How many of the frames of [bs] lie within the first [n] bytes of them. *)
Fixpoint whole (n : nat) (bs : list (list Z)) : nat :=
  match bs with
  | [] => 0
  | b :: bs =>
    if (length (encodeFrame b) <=? n)%nat then S (whole (n - length (encodeFrame b)) bs) else 0
  end.

Lemma take_frames n bs :
  Forall bodyOk bs →
  ∃ x, take n (frames bs ++ marker) = frames (take (whole n bs) bs) ++ x ∧ quiet x.
Proof.
  intros Hbs. revert n. induction Hbs as [|b bs Hb Hbs IH]; intros n; cbn [whole].
  - exists (take n marker). split; [done|]. destruct (decide (n < 4)%nat) as [Hn|Hn].
    + left. unfold record1.
      destruct (ReadFull_torn 4 (take n marker)) as [e ->]; [rewrite length_take; lia|done].
    + right. rewrite take_ge by (change (length marker) with 4%nat; lia).
      rewrite <- (app_nil_r marker). apply record1_marker.
  - rewrite frames_cons, <- app_assoc. destruct (Nat.leb_spec (length (encodeFrame b)) n) as [Hn|Hn].
    + destruct (IH (n - length (encodeFrame b))%nat) as (x & E & Hq). exists x. split; [|done].
      rewrite take_app_ge, E by done. cbn [take]. by rewrite frames_cons, app_assoc.
    + exists (take n (encodeFrame b)). rewrite take_app_le by lia. split; [done|]. left.
      apply (record1_torn b); [done|apply prefix_take|rewrite length_take; lia].
Qed.

Lemma take_layout_cut h bs k :
  Forall bodyOk bs → (length (headerLine h) ≤ k)%nat →
  ∃ x, take k (layout h bs marker) =
    layout h (take (whole (k - length (headerLine h)) bs) bs) x ∧ quiet x.
Proof.
  intros Hbs Hk. destruct (take_frames (k - length (headerLine h)) bs Hbs) as (x & E & Hq).
  exists x. split; [|done]. unfold layout. by rewrite take_app_ge, E by done.
Qed.

Lemma take_header h bs x k :
  (k < length (headerLine h))%nat → newline ∉ take k (layout h bs x).
Proof.
  intros Hk. unfold layout, headerLine in *. rewrite length_app in Hk. cbn in Hk.
  rewrite <- app_assoc, take_app_le by lia.
  intros (i & Hi & _)%elem_of_take. apply (header_line h). by eapply list_elem_of_lookup_2.
Qed.

Lemma recordOk_bodyOk bs : Forall recordOk bs → Forall bodyOk bs.
Proof. intros Hb. eapply Forall_impl; [exact Hb|]. by intros b [? _]. Qed.

End layout.

(** C34: A segment cut at any byte is read up to its last whole record. Take a
    closed segment of acceptable records and keep its first [k] bytes. If the
    header line is not whole, the repair calls the segment headerless. Otherwise
    it opens, the iterator returns exactly the records whose frames lie within
    [k] bytes and then ends without an error; the repair of a segment that is
    not the newest leaves a file that reads the same and that a second repair
    does not touch; the newest segment is left as it is. *)
Theorem segment_cut `{JsonLaws} vm inst bs k :
  Forall recordOk bs →
  let h := segHeader vm inst in
  let d := take k (layout h bs marker) in
  if (k <? length (headerLine h))%nat
  then ∀ newest, recoverSegment d newest = Ok Headerless
  else
    let read := omap unmarshal (take (whole (k - length (headerLine h)) bs) bs) in
    ∃ it d' tr, ReadSegment d = Ok it ∧ readAll d it = (read, true) ∧
      recoverSegment d true = Ok (Checked false 0 d) ∧
      recoverSegment d false = Ok (Checked tr 0 d') ∧ (tr = false → d' = d) ∧
      ReadSegment d' = Ok it ∧ readAll d' it = (read, true) ∧
      recoverSegment d' false = Ok (Checked false 0 d').
Proof.
  intros Hb h d. destruct (Nat.ltb_spec k (length (headerLine h))) as [Hk|Hk].
  { intros newest. unfold recoverSegment, d. by rewrite ReadLine_none by by apply take_header. }
  destruct (take_layout_cut h bs k (recordOk_bodyOk _ Hb) Hk) as (x & E & Hq).
  set (m := whole _ _) in *. assert (Hm : Forall recordOk (take m bs)) by by apply Forall_take.
  pose proof (recordOk_bodyOk _ Hm) as Hm'. unfold d. rewrite E. cbn zeta.
  assert (Hq0 : quiet []) by by left.
  subst h d. exists (mkIter (length (headerLine (segHeader vm inst))) false).
  rewrite !recoverSegment_layout by done. destruct (record1 x) eqn:Ex; try (by destruct Hq; congruence).
  - destruct (Nat.leb_spec (length x) 0) as [Hx|Hx].
    + exists (layout (segHeader vm inst) (take m bs) x), false. apply Nat.le_0_r, nil_length_inv in Hx as ->.
      rewrite recoverSegment_layout, !readAll_quiet, !ReadSegment_layout by done. done.
    + exists (layout (segHeader vm inst) (take m bs) []), true.
      rewrite recoverSegment_layout, !readAll_quiet, !ReadSegment_layout by done. done.
  - exists (layout (segHeader vm inst) (take m bs) x), false.
    rewrite recoverSegment_layout, !readAll_quiet, !ReadSegment_layout, Ex by done. done.
Qed.

(** A stand-in for encoding/json: an event is its sequence number. *)
Definition exEvent (sq : string) : Envelope :=
  mkEnvelope 1 None (Some "11111111-1111-4111-8111-111111111111") None
    "22222222-2222-4222-8222-222222222222" sq "guest.sensor_health" GuestReported "agent" 1
    "" "" None None None None []
    (mkQuality PathNotApplicable AttributionNotApplicable false false "" []) (Some []).

Definition exBytes (s : string) : list Z := code <$> String.list_ascii_of_string s.
Definition exString (l : list Z) : string :=
  String.string_of_list_ascii ((λ z, Ascii.ascii_of_N (Z.to_N z)) <$> l).

#[local] Instance exJson : Json := {
  marshal e := Some (exBytes (SourceSeq e) ++ [125]);
  unmarshal b := Some (exEvent (exString (removelast b)));
  marshalHeader _ := [123; 48; 125];
  unmarshalHeader _ := Some (segHeader "" "")
}.

#[local] Instance exJsonLaws : JsonLaws.
Proof.
  split.
  - intros e b [= <-]. unfold exBytes, is_bytes. apply Forall_app. split.
    + apply Forall_fmap, Forall_forall. intros c _. unfold is_byte, code. cbn.
      pose proof (Ascii.N_ascii_bounded c). lia.
    + by apply Forall_singleton.
  - by intros e b _.
  - intros e b [= <-]. by rewrite last_snoc.
  - intros h. cbn. unfold newline. set_solver.
  - intros h. cbn. lia.
  - intros vm inst. by exists (segHeader "" "").
Qed.

Lemma exRecord_ok s :
  Z.of_nat (length (exBytes s ++ [125])) ≤ maxRecordBytes → recordOk (exBytes s ++ [125]).
Proof.
  intros Hl. assert (E : marshal (exEvent s) = Some (exBytes s ++ [125])) by done.
  split_and!; [split; [by eapply marshal_bytes|done]|by eapply marshal_decodes|by eapply marshal_brace].
Qed.

Lemma segment_cut_witness :
  let d := take 15 (layout (segHeader "" "") [exBytes "1" ++ [125]; exBytes "2" ++ [125]] marker) in
  recoverSegment d false = Ok (Checked true 0 (take 14 d)) ∧
  ∃ it, readAll d it = ([exEvent "1"], true).
Proof.
  intros d. split; [vm_compute; reflexivity|].
  assert (Hb : Forall recordOk [exBytes "1" ++ [125]; exBytes "2" ++ [125]]).
    by (do 2 (apply Forall_cons; split; [apply exRecord_ok; vm_compute; discriminate|]);
        apply Forall_nil_2).
  destruct (segment_cut "" "" [exBytes "1" ++ [125]; exBytes "2" ++ [125]] 15 Hb)
    as (it & d' & tr & _ & E & _).
  exists it. exact E.
Defined.

End Segment.
