(* ===== verification/SpoolWriter.v ===== *)
(** The spool writer (internal/spool/writer.go, outage.go, status.go).

    The file system is a map from names to files; [synced] counts the leading
    bytes a successful fsync has covered and [entries] the names a successful
    fsync of the directory has covered. Every system call takes its outcome from
    the list [orc], so a statement about all lists is about all failures. The
    writer's methods run under its mutex: each is one transition of [St]. The
    clock is read once per operation. The text of an error, the format of times
    and the encoding of the status file are left out: the file holds the
    [WriterHealth] last written, or nothing readable. *)

From S2P Require Import Prelude Wire Events Segment.
Import Events Segment.

Local Open Scope Z_scope.

Module Writer.

(** * The file system *)

(** [stale]: an fsync of the file has failed. The kernel may have dropped the
    dirty pages and cleared the error, so a later fsync that succeeds covers
    nothing more. *)
Record File := mkFile { data : list Z; synced : nat; stale : bool }.

(** A call succeeds, or fails after transferring [n] bytes. *)
Inductive Sys := SOk | SErr (n : nat).

Record cursor := mkCursor { cSegment : string; cRecord : Z }.

Record WriterHealth := mkHealth {
  State : string; Since : Z; Cause : string; LastError : string;
  RunnerRecords : Z; GuestPushes : Z; UpdatedAt : Z; Instance_ : string }.

Record FS := mkFS {
  files : gmap string File;
  entries : gset string;
  cursorFile : option cursor;
  statusFile : option WriterHealth;
  orc : list Sys
}.

Definition setFiles (f : gmap string File → gmap string File) (s : FS) : FS :=
  mkFS (f (files s)) (entries s) (cursorFile s) (statusFile s) (orc s).
Definition setEntries (e : gset string) (s : FS) : FS :=
  mkFS (files s) e (cursorFile s) (statusFile s) (orc s).
Definition setStatus (h : option WriterHealth) (s : FS) : FS :=
  mkFS (files s) (entries s) (cursorFile s) h (orc s).
Definition onFile (name : string) (f : File → File) : FS → FS := setFiles (alter f name).

(** The outcome of the next call. *)
Definition sys (s : FS) : Sys * FS :=
  (default SOk (head (orc s)),
   mkFS (files s) (entries s) (cursorFile s) (statusFile s) (tail (orc s))).

Definition pwrite (off : nat) (bs l : list Z) : list Z :=
  take off (l ++ replicate (off - length l) 0) ++ bs ++ drop (off + length bs) l.

Definition okSys (r : Sys) : bool := match r with SOk => true | SErr _ => false end.
Definition moved (r : Sys) (bs : list Z) : nat :=
  match r with SOk => length bs | SErr n => Nat.min n (length bs) end.

(** [f.WriteAt]: whether it succeeded and how many bytes it wrote. *)
Definition sysWriteAt (name : string) (bs : list Z) (off : nat) (s : FS) : bool * nat * FS :=
  let '(r, s) := sys s in
  (okSys r, moved r bs,
   onFile name (λ f, mkFile (pwrite off (take (moved r bs) bs) (data f)) (synced f) (stale f)) s).

Definition sysSync (name : string) (s : FS) : bool * FS :=
  let '(r, s) := sys s in
  (okSys r, onFile name (λ f,
     if okSys r then mkFile (data f) (if stale f then synced f else length (data f)) (stale f)
     else mkFile (data f) (synced f) true) s).

Definition sysTruncate (name : string) (n : nat) (s : FS) : bool * FS :=
  let '(r, s) := sys s in
  (okSys r, if okSys r then onFile name (λ f, mkFile (take n (data f ++ replicate (n - length (data f)) 0))
                               (Nat.min n (synced f)) (stale f)) s else s).

(** [os.OpenFile] with [O_CREATE|O_EXCL]. *)
Definition sysCreate (name : string) (s : FS) : bool * FS :=
  let '(r, s) := sys s in
  match files s !! name with
  | Some _ => (false, s)
  | None => (okSys r, if okSys r then setFiles <[name := mkFile [] 0 false]> s else s)
  end.

Definition sysRemove (name : string) (s : FS) : bool * FS :=
  let '(r, s) := sys s in
  (okSys r, if okSys r then setEntries (entries s ∖ {[name]}) (setFiles (delete name) s) else s).

(** [fSyncDir]: open, fsync and close of the directory. *)
Definition sysSyncDir (s : FS) : bool * FS :=
  let '(r, s) := sys s in
  (okSys r, if okSys r then setEntries (dom (files s)) s else s).

(** [f.Close] and [os.ReadDir] only report an outcome. *)
Definition sysPlain (s : FS) : bool * FS := let '(r, s) := sys s in (okSys r, s).

(** * The writer *)

Record Outage := mkOutage {
  oSince : Z; oUntil : Z; oCause : string; oRunner : Z; oGuest : Z }.

Record WriterCfg := mkCfg {
  cfgVMID : string; cfgInstanceID : string;
  MaxSegmentBytes : Z; MaxSpoolBytes : Z;
  LossRecord : option (Outage → option Envelope)
}.

(** An open file: its name and the offset of the next [Write]. *)
Record Handle := mkHandle { hName : string; hOff : nat }.

Record Writer := mkWriter {
  segIdx : Z;
  wf : Handle;
  segBytes : Z;
  damaged : bool;
  outage : option Outage;
  closed : bool;
  healthySince : Z;
  lastRefusal : string
}.

Definition set_segIdx i w := mkWriter i (wf w) (segBytes w) (damaged w) (outage w) (closed w) (healthySince w) (lastRefusal w).
Definition set_seg h n w := mkWriter (segIdx w) h n (damaged w) (outage w) (closed w) (healthySince w) (lastRefusal w).
Definition set_damaged b w := mkWriter (segIdx w) (wf w) (segBytes w) b (outage w) (closed w) (healthySince w) (lastRefusal w).
Definition set_outage o w := mkWriter (segIdx w) (wf w) (segBytes w) (damaged w) o (closed w) (healthySince w) (lastRefusal w).
Definition set_closed b w := mkWriter (segIdx w) (wf w) (segBytes w) (damaged w) (outage w) b (healthySince w) (lastRefusal w).
Definition set_since t w := mkWriter (segIdx w) (wf w) (segBytes w) (damaged w) (outage w) (closed w) t (lastRefusal w).
Definition set_refusal m w := mkWriter (segIdx w) (wf w) (segBytes w) (damaged w) (outage w) (closed w) (healthySince w) m.

Inductive SpoolErr :=
  | ErrMaxSegmentBytes | ErrLossRecordRequired | ErrScanDir | ErrCursor | ErrPrepareStatus
  | ErrAppendAfterClose | ErrMarshal | ErrRecordTooLong
  | ErrMeasure | ErrSpoolFull
  | ErrLossNil | ErrLossMarshal | ErrLossTooLong
  | ErrIndexSpace | ErrCreate | ErrWriteHeader | ErrSyncSegment | ErrSyncDir
  | ErrWrite (what : string) | ErrSync (what : string)
  | ErrTrim | ErrWriteMarker | ErrSyncMarker | ErrClose
  | ErrLossNotRecorded (o : Outage) (cause : SpoolErr)
  | ErrLossAndRetire (o : Outage) (cause retire : SpoolErr).

(** ** The monad: state and errors, without rollback *)

Record St := mkSt { wr : Writer; fs : FS }.
Definition M (A : Type) := St → result SpoolErr A * St.

#[export] Instance M_ret : MRet M := λ A a s, (Ok a, s).
#[export] Instance M_bind : MBind M := λ A B f m s,
  match m s with
  | (Ok a, s') => f a s'
  | (Err e, s') => (Err e, s')
  end.

Definition throw {A} (e : SpoolErr) : M A := λ s, (Err e, s).
Definition getw {A} (f : Writer → A) : M A := λ s, (Ok (f (wr s)), s).
Definition putw (f : Writer → Writer) : M unit := λ s, (Ok tt, mkSt (f (wr s)) (fs s)).
Definition io {A} (f : FS → A * FS) : M A := λ s,
  let '(a, s') := f (fs s) in (Ok a, mkSt (wr s) s').
Definition ensure (b : bool) (e : SpoolErr) : M unit := if b then mret () else throw e.
Definition some {A} (o : option A) (e : SpoolErr) : M A :=
  match o with Some a => mret a | None => throw e end.
(** [need f e]: the call [f], and [e] when it fails. *)
Definition need (f : FS → bool * FS) (e : SpoolErr) : M unit := ok ← io f; ensure ok e.
(** [attempt m]: the outcome of [m] as a value; [orElse m h]: [h] on an error. *)
Definition attempt {A} (m : M A) : M (result SpoolErr A) := λ s,
  let '(r, s') := m s in (Ok r, s').
Definition orElse {A} (m : M A) (h : SpoolErr → M A) : M A := λ s,
  match m s with
  | (Ok a, s') => (Ok a, s')
  | (Err e, s') => h e s'
  end.

Section writer.
Context `{Json} (cfg : WriterCfg) (errText : SpoolErr → string).

(** [writeStatus]: a failed overwrite is ignored; a partial one is unreadable. *)
Definition health (w : Writer) (now : Z) : WriterHealth :=
  match outage w with
  | None => mkHealth "healthy" (healthySince w) "" "" 0 0 now (cfgInstanceID cfg)
  | Some o => mkHealth "failing" (oSince o) (oCause o) (lastRefusal w) (oRunner o) (oGuest o)
      now (cfgInstanceID cfg)
  end.

Definition sysStatus (h : WriterHealth) (s : FS) : unit * FS :=
  let '(r, s) := sys s in
  (tt, match r with
       | SOk => setStatus (Some h) s
       | SErr 0 => s
       | SErr _ => setStatus None s
       end).

Definition writeStatus (now : Z) : M unit :=
  h ← getw (λ w, health w now); io (sysStatus h).

(** [damage]: the trim and the fsync are best effort. *)
Definition damage : M unit :=
  _ ← putw (set_damaged true);
  f ← getw wf; n ← getw segBytes;
  _ ← io (sysTruncate (hName f) (Z.to_nat n));
  _ ← io (sysSync (hName f));
  mret ().

(** [f.Write] at the handle's offset. *)
Definition writeAtOffset (bs : list Z) : M bool :=
  f ← getw wf;
  '(ok, n) ← io (sysWriteAt (hName f) bs (hOff f));
  n0 ← getw segBytes;
  _ ← putw (set_seg (mkHandle (hName f) (hOff f + n)) n0);
  mret ok.

Definition writeFrame (frame : list Z) (what : string) : M unit :=
  ok ← writeAtOffset frame;
  if negb ok then _ ← damage; throw (ErrWrite what) else
  f ← getw wf;
  ok ← io (sysSync (hName f));
  if negb ok then _ ← damage; throw (ErrSync what) else
  n ← getw segBytes;
  putw (set_seg f (n + Z.of_nat (length frame))).

(** [createSegment]: on success the new file is the current segment. A failure
    after the create closes and removes the file. *)
Definition discard {A} (name : string) (e : SpoolErr) : M A :=
  _ ← io sysPlain; _ ← io (sysRemove name); throw e.

Definition createSegment : M unit :=
  i ← getw segIdx;
  if maxSegmentIndex <? i then throw ErrIndexSpace else
  let name := segmentName i in
  let hdrLine := headerLine (segHeader (cfgVMID cfg) (cfgInstanceID cfg)) in
  _ ← need (sysCreate name) ErrCreate;
  '(ok, _) ← io (sysWriteAt name hdrLine 0);
  if negb ok then discard name ErrWriteHeader else
  ok ← io (sysSync name);
  if negb ok then discard name ErrSyncSegment else
  ok ← io sysSyncDir;
  if negb ok then discard name ErrSyncDir else
  putw (set_seg (mkHandle name (length hdrLine)) (Z.of_nat (length hdrLine))).

(** [retireSegment]: trim, end marker, fsync, up to the first failure; then
    close. *)
Definition retireSegment (name : string) (size : Z) : M unit :=
  r ← attempt (
    _ ← need (sysTruncate name (Z.to_nat size)) ErrTrim;
    '(ok, _) ← io (sysWriteAt name marker (Z.to_nat size));
    _ ← ensure ok ErrWriteMarker;
    need (sysSync name) ErrSyncMarker);
  ok ← io sysPlain;
  match r with
  | Err e => throw e
  | Ok _ => ensure ok ErrClose
  end.

Definition advance : M unit :=
  _ ← putw (λ w, set_segIdx (Int.u64 (segIdx w + 1)) w);
  old ← getw wf; oldSize ← getw segBytes;
  _ ← orElse createSegment (λ e, _ ← damage; throw e);
  _ ← putw (set_damaged false);
  _ ← attempt (retireSegment (hName old) oldSize);
  mret ().

Definition makeRoom (n : nat) : M unit :=
  d ← getw damaged; b ← getw segBytes;
  if d || (MaxSegmentBytes cfg <? b + Z.of_nat n) then advance else mret ().

Definition lossFrame (o : Outage) (now : Z) : M (list Z) :=
  let o := mkOutage (oSince o) now (oCause o) (oRunner o) (oGuest o) in
  env ← some (LossRecord cfg ≫= λ f, f o) ErrLossNil;
  body ← some (marshal env) ErrLossMarshal;
  _ ← ensure (negb (maxRecordBytes <? Z.of_nat (length body))) ErrLossTooLong;
  mret (encodeFrame body).

Definition writeLoss (loss : list Z) (now : Z) : M unit :=
  _ ← writeFrame loss "loss record";
  _ ← putw (λ w, set_since now (set_outage None w));
  writeStatus now.

Definition refused (env : Envelope) (msg : string) (now : Z) (w : Writer) : Writer :=
  let o := default (mkOutage now 0 msg 0 0) (outage w) in
  let bump n := if n <? Int.MaxUint64 then n + 1 else n in
  let o := if (EProvenance env =? GuestReported)%string
           then mkOutage (oSince o) (oUntil o) (oCause o) (oRunner o) (bump (oGuest o))
           else mkOutage (oSince o) (oUntil o) (oCause o) (bump (oRunner o)) (oGuest o) in
  set_refusal msg (set_outage (Some o) w).

Definition refuse {A} (env : Envelope) (now : Z) (e : SpoolErr) : M A :=
  _ ← putw (refused env (errText e) now);
  _ ← writeStatus now;
  throw e.

(** [filepath.Ext(name) == ".vmsp"]. *)
Definition isVmsp (name : string) : bool :=
  (5 <=? String.length name)%nat &&
  (String.substring (String.length name - 5) 5 name =? ".vmsp")%string.

Definition totalBytes (m : gmap string File) : Z :=
  map_fold (λ name f acc, if isVmsp name then acc + Z.of_nat (length (data f)) else acc) 0 m.

Definition spoolTotalBytes : M Z :=
  _ ← need sysPlain ErrMeasure;
  io (λ s, (totalBytes (files s), s)).

Definition DefaultMaxSpoolBytes : Z := Z.shiftl 512 20.
Definition maxSpool : Z :=
  if MaxSpoolBytes cfg =? 0 then DefaultMaxSpoolBytes else MaxSpoolBytes cfg.

(** The part of [Append] whose failure is a refusal. *)
Definition appendRecord (rec_ : list Z) (now : Z) : M unit :=
  totalNow ← spoolTotalBytes;
  _ ← ensure (negb (maxSpool <? totalNow + Z.of_nat (length rec_))) ErrSpoolFull;
  o ← getw outage;
  loss ← (match o with
          | Some o => l ← lossFrame o now; mret (Some l)
          | None => mret None
          end);
  _ ← makeRoom (length (default [] loss) + length rec_);
  _ ← (match loss with Some l => writeLoss l now | None => mret () end);
  writeFrame rec_ "record".

Definition Append (env : Envelope) (now : Z) : M unit :=
  c ← getw closed;
  if (c : bool) then throw ErrAppendAfterClose else
  body ← some (marshal env) ErrMarshal;
  _ ← ensure (negb (maxRecordBytes <? Z.of_nat (length body))) ErrRecordTooLong;
  orElse (appendRecord (encodeFrame body) now) (refuse env now).

Definition recordOutage (o : Outage) (now : Z) : M unit :=
  loss ← lossFrame o now;
  _ ← makeRoom (length loss);
  writeLoss loss now.

Definition Close (now : Z) : M unit :=
  c ← getw closed;
  if (c : bool) then mret () else
  _ ← putw (set_closed true);
  o ← getw outage;
  recordErr ← (match o with
               | Some o => attempt (recordOutage o now)
               | None => mret (Ok ())
               end);
  f ← getw wf; n ← getw segBytes;
  retireErr ← attempt (retireSegment (hName f) n);
  _ ← writeStatus now;
  _ ← io sysPlain;
  o ← getw outage;
  match o, recordErr, retireErr with
  | Some o, Err e, Err r => throw (ErrLossAndRetire o e r)
  | Some o, Err e, Ok _ => throw (ErrLossNotRecorded o e)
  | _, _, Err r => throw r
  | _, _, Ok _ => mret ()
  end.

(** * Opening *)

(** [readCursor]: an absent cursor is the empty one. *)
Definition hasSlash (s : string) : bool :=
  existsb (λ c, code c =? 47) (String.list_ascii_of_string s).

Definition readCursor (s : FS) : result SpoolErr cursor :=
  match cursorFile s with
  | None => Ok (mkCursor "" 0)
  | Some c =>
    if (cSegment c =? "")%string || hasSlash (cSegment c) || (cRecord c <? 0)
    then Err ErrCursor else Ok c
  end.

(** The largest index among the names, if any. *)
Definition maxIndex (names : list string) : option Z :=
  fold_right (λ name acc,
    match parseSegmentName name, acc with
    | Some i, Some m => Some (Z.max i m)
    | Some i, None => Some i
    | None, _ => acc
    end) None names.

Definition nextSegmentIndex (s : FS) : result SpoolErr Z :=
  let found := maxIndex (elements (dom (files s))) in
  match readCursor s with
  | Err e => Err e
  | Ok c =>
    if (cSegment c =? "")%string then Ok (match found with None => 0 | Some m => Int.u64 (m + 1) end)
    else
      match parseSegmentName (cSegment c) with
      | None => Err ErrCursor
      | Some i => Ok (Int.u64 (match found with None => i | Some m => Z.max i m end + 1))
      end
  end.

(** [prepareStatus]: the file is zeroed, which reads as unknown. *)
Definition prepareStatus (s : FS) : bool * FS :=
  let '(r, s) := sys s in
  (okSys r, match r with SErr 0 => s | _ => setStatus None s end).

Definition OpenWriter (now : Z) (s : FS) : result SpoolErr Writer * FS :=
  if MaxSegmentBytes cfg <=? 0 then (Err ErrMaxSegmentBytes, s)
  else match LossRecord cfg with
  | None => (Err ErrLossRecordRequired, s)
  | Some _ =>
    let '(ok, s) := sysPlain s in
    if negb ok then (Err ErrScanDir, s) else
    match nextSegmentIndex s with
    | Err e => (Err e, s)
    | Ok idx =>
      let '(ok, s) := prepareStatus s in
      if negb ok then (Err ErrPrepareStatus, s) else
      let w := mkWriter idx (mkHandle "" 0) 0 false None false now "" in
      match (_ ← createSegment; writeStatus now) (mkSt w s) with
      | (Ok _, st) => (Ok (wr st), fs st)
      | (Err e, st) => (Err e, fs st)
      end
    end
  end.

End writer.

(** * Weakest preconditions *)

Definition wp {A} (m : M A) (Q : result SpoolErr A → St → Prop) (s : St) : Prop :=
  Q (m s).1 (m s).2.

Section wp.
Context {A B : Type}.
Implicit Types (m : M A) (s : St).

Lemma wp_bind m (k : A → M B) Q s :
  wp m (λ r s', match r with Ok a => wp (k a) Q s' | Err e => Q (Err e) s' end) s →
  wp (m ≫= k) Q s.
Proof. unfold wp, mbind, M_bind. by destruct (m s) as [[a|e] s']. Qed.

Lemma wp_mono m (Q Q' : result SpoolErr A → St → Prop) s :
  wp m Q s → (∀ r s', Q r s' → Q' r s') → wp m Q' s.
Proof. unfold wp. auto. Qed.

Lemma wp_ret (a : A) Q s : Q (Ok a) s → wp (mret a) Q s.
Proof. done. Qed.

Lemma wp_throw e (Q : result SpoolErr A → St → Prop) s : Q (Err e) s → wp (throw e) Q s.
Proof. done. Qed.

Lemma wp_getw (f : Writer → A) Q s : Q (Ok (f (wr s))) s → wp (getw f) Q s.
Proof. done. Qed.

Lemma wp_putw f (Q : result SpoolErr unit → St → Prop) s : Q (Ok tt) (mkSt (f (wr s)) (fs s)) → wp (putw f) Q s.
Proof. done. Qed.

Lemma wp_io (f : FS → A * FS) Q s :
  (∀ a t, f (fs s) = (a, t) → Q (Ok a) (mkSt (wr s) t)) → wp (io f) Q s.
Proof. unfold wp, io. intros HQ. by destruct (f (fs s)) as [a t]; apply HQ. Qed.

Lemma wp_attempt m (Q : result SpoolErr (result SpoolErr A) → St → Prop) s :
  wp m (λ r s', Q (Ok r) s') s → wp (attempt m) Q s.
Proof. unfold wp, attempt. by destruct (m s). Qed.

Lemma wp_orElse m h Q s :
  wp m (λ (r : result SpoolErr A) (t : St), match r with Ok a => Q (Ok a) t | Err e => wp (h e) Q t end) s →
  wp (orElse m h) Q s.
Proof. unfold wp, orElse. by destruct (m s) as [[a|e] s']. Qed.

Lemma wp_ensure (b : bool) e (Q : result SpoolErr unit → St → Prop) s : (if b then Q (Ok tt) s else Q (Err e) s) → wp (ensure b e) Q s.
Proof. by destruct b. Qed.

Lemma wp_some (o : option A) e Q s :
  match o with Some a => Q (Ok a) s | None => Q (Err e) s end → wp (some o e) Q s.
Proof. by destruct o. Qed.

Lemma wp_need f e (Q : result SpoolErr unit → St → Prop) s :
  (∀ ok t, f (fs s) = (ok, t) →
     if (ok : bool) then Q (Ok tt) (mkSt (wr s) t) else Q (Err e) (mkSt (wr s) t)) →
  wp (need f e) Q s.
Proof.
  intros HQ. unfold need, wp, mbind, M_bind, io. destruct (f (fs s)) as [ok t].
  specialize (HQ ok t eq_refl). by destruct ok.
Qed.

End wp.

(** Symbolic execution of one step. *)
Ltac wp_step :=
  cbn beta iota;
  lazymatch goal with
  | |- wp ?m _ _ =>
    lazymatch m with
    | mbind _ _ => apply wp_bind
    | mret _ => apply wp_ret
    | throw _ => apply wp_throw
    | getw _ => apply wp_getw
    | putw _ => apply wp_putw
    | ensure _ _ => apply wp_ensure
    | some _ _ => apply wp_some
    | attempt _ => apply wp_attempt
    | orElse _ _ => apply wp_orElse
    | io _ => apply wp_io; let a := fresh "a" in let t := fresh "t" in let E := fresh "E" in
        intros a t E
    | need _ _ => apply wp_need; let a := fresh "ok" in let t := fresh "t" in
        let E := fresh "E" in intros a t E
    end
  end; cbn beta iota.

End Writer.
