(* ===== verification/SpoolDurable.v ===== *)
(** What the spool writer leaves on disk: the representation of a spool directory
    by the records its segments hold, kept by every operation of the writer under
    every failure, and the durability of what was acknowledged. *)

From S2P Require Import Prelude Wire Events Segment SpoolWriter.
Import Events Segment Writer.

Local Open Scope Z_scope.

Module Durable.

Section rep.
Context `{JsonLaws}.

(** [hd i]: the VM and runner instance named in the header of segment [i]. *)
Context (hd : Z → string * string).

Definition hdr (i : Z) : segmentHeader := segHeader (hd i).1 (hd i).2.

(** * Representation *)

(** What may follow the records of a segment: part of one more frame, which was
    refused, or part of the end marker. *)
Definition tailOk (x : list Z) : Prop :=
  (∃ b, recordOk b ∧ x `prefix_of` encodeFrame b) ∨ x `prefix_of` marker.

(** A segment file holding the records [bs], which are durable; or a creation
    that did not get past its header line. *)
Definition segFile (i : Z) (f : File) (bs : list (list Z)) (linked : Prop) : Prop :=
  (∃ x, data f = layout (hdr i) bs x ∧ tailOk x ∧ Forall recordOk bs ∧
     (bs = [] ∨ ((length (layout (hdr i) bs []) ≤ synced f)%nat ∧ linked))) ∨
  (bs = [] ∧ data f `prefix_of` marshalHeader (hdr i)).

(** The segments of a directory, by index, with the records they hold. *)
Definition Segs := list (Z * list (list Z)).

Record dirRep (m : gmap string File) (ents : gset string) (ss : Segs) : Prop := {
  dr_sorted : StronglySorted Z.lt ss.*1;
  dr_file i bs : (i, bs) ∈ ss → indexOk i ∧
    ∃ f, m !! segmentName i = Some f ∧ segFile i f bs (segmentName i ∈ ents);
  dr_all i : is_Some (m !! segmentName i) → indexOk i → i ∈ ss.*1
}.

Lemma tailOk_nil : tailOk [].
Proof. right. apply prefix_nil. Qed.

Lemma tailOk_prefix x y : tailOk y → x `prefix_of` y → tailOk x.
Proof.
  intros [(b & Hb & Hy)|Hy] Hx; [left; exists b; split; [done|]|right]; by etrans.
Qed.

Lemma tailOk_frame b n : recordOk b → tailOk (take n (encodeFrame b)).
Proof. intros. left. exists b. split; [done|]. apply prefix_take. Qed.

Lemma tailOk_marker n : tailOk (take n marker).
Proof. right. apply prefix_take. Qed.

Lemma sorted_index (ss : Segs) i bs bs' :
  StronglySorted Z.lt ss.*1 → (i, bs) ∈ ss → (i, bs') ∈ ss → bs = bs'.
Proof.
  induction ss as [|[j c] ss IH]; intros Hs H1 H2; [by apply elem_of_nil in H1|].
  cbn in Hs. inversion Hs as [|? ? Hs' Hall]; subst.
  assert (Hlt : ∀ d, (j, d) ∉ ss).
  { intros d Hin. rewrite Forall_forall in Hall.
    assert (j < j); [|lia]. apply Hall. by apply (list_elem_of_fmap_2 fst) in Hin. }
  apply elem_of_cons in H1 as [H1|H1], H2 as [H2|H2]; simplify_eq.
  - done.
  - by apply Hlt in H2.
  - by apply Hlt in H1.
  - by apply IH.
Qed.

Lemma name_ne i j : indexOk i → indexOk j → i ≠ j → segmentName i ≠ segmentName j.
Proof. intros ? ? Hne E. by apply Hne, segmentName_inj. Qed.

(** A change of one file that keeps what it holds. *)
Lemma dirRep_file m ents ss i bs f' :
  dirRep m ents ss → (i, bs) ∈ ss → segFile i f' bs (segmentName i ∈ ents) →
  dirRep (<[segmentName i := f']> m) ents ss.
Proof.
  intros [Hs Hf Ha] Hin Hf'. destruct (Hf _ _ Hin) as [Hi (f & Hm & _)].
  split; [done| |].
  - intros j bs' Hj. destruct (Hf _ _ Hj) as [Hok (g & Hg & Hsg)]. split; [done|].
    destruct (decide (i = j)) as [<-|Hne].
    + exists f'. rewrite lookup_insert_eq. split; [done|].
      by rewrite <- (sorted_index ss i bs bs').
    + exists g. by rewrite lookup_insert_ne by by apply name_ne.
  - intros j [g Hg] Hj. apply Ha; [|done].
    destruct (decide (i = j)) as [<-|Hne]; [by eexists|].
    rewrite lookup_insert_ne in Hg by by apply name_ne. by eexists.
Qed.

(** A new file with the largest index and no records. *)
Lemma dirRep_new m ents ss i f :
  dirRep m ents ss → indexOk i → (∀ j, j ∈ ss.*1 → j < i) →
  segFile i f [] (segmentName i ∈ ents) →
  dirRep (<[segmentName i := f]> m) ents (ss ++ [(i, [])]).
Proof.
  intros [Hs Hf Ha] Hi Hlt Hsf. split.
  - rewrite fmap_app. apply StronglySorted_app_2; [|done|repeat constructor].
    intros j k Hj Hk. apply list_elem_of_singleton in Hk as ->. by apply Hlt.
  - intros j bs [Hj|Hj%list_elem_of_singleton]%elem_of_app.
    + destruct (Hf _ _ Hj) as [Hok (g & Hg & Hsg)]. split; [done|]. exists g.
      rewrite lookup_insert_ne; [done|]. apply name_ne; [done..|].
      assert (j < i); [|lia]. apply Hlt. by apply (list_elem_of_fmap_2 fst) in Hj.
    + injection Hj as -> ->. split; [done|]. exists f. by rewrite lookup_insert_eq.
  - intros j [g Hg] Hj. rewrite fmap_app, elem_of_app.
    destruct (decide (i = j)) as [<-|Hne]; [right; by apply list_elem_of_singleton|].
    left. apply Ha; [|done]. rewrite lookup_insert_ne in Hg by by apply name_ne. by eexists.
Qed.

(** The set of linked names may grow. *)
Lemma segFile_linked i f bs (P Q : Prop) : (P → Q) → segFile i f bs P → segFile i f bs Q.
Proof.
  intros HPQ [(x & Hd & Hx & Hb & Hs)|Hs]; [left|by right].
  exists x. split_and!; [done..|]. destruct Hs as [?|[? ?]]; [by left|by right; auto].
Qed.

Lemma dirRep_linked m ents ents' ss :
  dirRep m ents ss →
  (∀ i, i ∈ ss.*1 → segmentName i ∈ ents → segmentName i ∈ ents') →
  dirRep m ents' ss.
Proof.
  intros [Hs Hf Ha] Hsub. split; [done| |done]. intros i bs Hin.
  destruct (Hf _ _ Hin) as [Hi (f & Hm & Hsf)]. split; [done|]. exists f. split; [done|].
  eapply segFile_linked; [|done]. apply Hsub. by apply (list_elem_of_fmap_2 fst) in Hin.
Qed.

(** The removal of a file without records. *)
Lemma dirRep_drop m ents ss i :
  dirRep m ents (ss ++ [(i, [])]) → dirRep (delete (segmentName i) m) (ents ∖ {[segmentName i]}) ss.
Proof.
  intros [Hs Hf Ha]. rewrite fmap_app in Hs. cbn in Hs.
  assert (Hi : indexOk i) by (eapply Hf, elem_of_app; right; by apply list_elem_of_singleton).
  assert (Hlt : ∀ j, j ∈ ss.*1 → j < i).
  { intros j Hj. eapply StronglySorted_app_1_elem_of; [exact Hs|done|by apply list_elem_of_singleton]. }
  split.
  - by eapply StronglySorted_app_1_l.
  - intros j bs Hj. pose proof (Hlt j (list_elem_of_fmap_2 fst _ _ Hj)).
    destruct (Hf j bs) as [Hok (f & Hm & Hsf)]; [by apply elem_of_app; left|].
    assert (segmentName i ≠ segmentName j) by (apply name_ne; [done..|lia]).
    split; [done|]. exists f. rewrite lookup_delete_ne by done. split; [done|].
    eapply segFile_linked; [|done]. set_solver.
  - intros j [f Hf'] Hj. apply lookup_delete_Some in Hf' as [Hne Hf'].
    specialize (Ha j (ex_intro _ _ Hf') Hj). rewrite fmap_app, elem_of_app in Ha.
    destruct Ha as [?|E%list_elem_of_singleton]; [done|]. cbn in E. by subst j.
Qed.

(** * The current segment *)

(** Segment [i] holds [bs], durably, in its first [n] bytes, and then [x]. *)
Definition curFile (m : gmap string File) (ents : gset string) (i n : Z)
    (bs : list (list Z)) (x : list Z) : Prop :=
  ∃ f, m !! segmentName i = Some f ∧ data f = layout (hdr i) bs x ∧
    n = Z.of_nat (length (layout (hdr i) bs [])) ∧
    n ≤ Z.of_nat (synced f) ∧ segmentName i ∈ ents ∧ Forall recordOk bs ∧ tailOk x.

Record Cur (s : FS) (ss : Segs) (i n : Z) (bs : list (list Z)) (x : list Z) : Prop := {
  cu_rep : dirRep (files s) (entries s) ss;
  cu_in : (i, bs) ∈ ss;
  cu_file : curFile (files s) (entries s) i n bs x
}.

Lemma Cur_index s ss i n bs x : Cur s ss i n bs x → indexOk i.
Proof. intros [Hr Hin _]. apply (dr_file _ _ _ Hr _ _ Hin). Qed.

Lemma Cur_elem s ss i n bs x : Cur s ss i n bs x → i ∈ ss.*1.
Proof. intros [_ Hin _]. by apply (list_elem_of_fmap_2 fst) in Hin. Qed.

Lemma layout_nil h bs x : layout h bs x = layout h bs [] ++ x.
Proof. unfold layout. by rewrite !app_assoc, app_nil_r. Qed.

Lemma take_layout h bs x : take (length (layout h bs [])) (layout h bs x) = layout h bs [].
Proof. rewrite (layout_nil h bs x). apply take_app_length. Qed.

Lemma pwrite_end l bs : pwrite (length l) bs l = l ++ bs.
Proof.
  unfold pwrite. rewrite Nat.sub_diag, take_app_length, drop_ge by lia. by rewrite app_nil_r.
Qed.

(** Replacing the tail of the current segment. *)
Lemma Cur_tail s s' ss i n bs x x' f' :
  Cur s ss i n bs x → entries s' = entries s → tailOk x' →
  files s' = <[segmentName i := f']> (files s) →
  (∀ f, files s !! segmentName i = Some f → data f = layout (hdr i) bs x →
     data f' = layout (hdr i) bs x' ∧ (n ≤ Z.of_nat (synced f) → n ≤ Z.of_nat (synced f'))) →
  Cur s' ss i n bs x'.
Proof.
  intros [Hr Hin (f & Hm & Hd & Hn & Hs & He & Hb & Hx)] Hents Hx' Hf Hc.
  destruct (Hc f Hm Hd) as [Hd' Hs']. specialize (Hs' Hs).
  split; [|done|].
  - rewrite Hf, Hents. eapply dirRep_file; [done..|]. left. exists x'.
    split_and!; [done..|]. right. split; [lia|done].
  - exists f'. rewrite Hf, Hents, lookup_insert_eq. done.
Qed.

Lemma alter_some {A} (g : A → A) name (m : gmap string A) f :
  m !! name = Some f → alter g name m = <[name := g f]> m.
Proof.
  intros Hm. apply map_eq. intros k. destruct (decide (name = k)) as [<-|].
  - by rewrite lookup_alter_eq, lookup_insert_eq, Hm.
  - by rewrite lookup_alter_ne, lookup_insert_ne.
Qed.

Lemma Cur_orc s ss i n bs x o :
  Cur s ss i n bs x → Cur (mkFS (files s) (entries s) (cursorFile s) (statusFile s) o) ss i n bs x.
Proof. by intros []. Qed.

Lemma sysTruncate_Cur s ss i n bs x ok s' :
  Cur s ss i n bs x → sysTruncate (segmentName i) (Z.to_nat n) s = (ok, s') →
  Cur s' ss i n bs (if ok then [] else x).
Proof.
  intros Hc. pose proof Hc as [_ _ (f & Hm & Hd & Hn & _)].
  unfold sysTruncate, sys. destruct (default SOk (head (orc s))); cbn; intros [= <- <-];
    [|by apply Cur_orc].
  eapply (Cur_tail _ _ _ _ _ _ _ _ _ (Cur_orc _ _ _ _ _ _ (tail (orc s)) Hc));
    [done|apply tailOk_nil|by apply alter_some|].
  cbn. intros g Hg Hd'. rewrite Hm in Hg. injection Hg as <-. cbn [data synced].
  rewrite Hn, Nat2Z.id. rewrite Hd in *. split.
  - rewrite take_app_le by (rewrite (layout_nil _ _ x), length_app; lia). apply take_layout.
  - lia.
Qed.

(** No fsync of the file has failed. *)
Definition clean (s : FS) (name : string) : Prop :=
  ∃ f, files s !! name = Some f ∧ stale f = false.

Lemma clean_same s t name : files t !! name = files s !! name → clean s name → clean t name.
Proof. intros E [f Hf]. exists f. by rewrite E. Qed.

Lemma sysWriteAt_clean name y off s ok k t :
  sysWriteAt name y off s = (ok, k, t) → clean s name → clean t name.
Proof.
  unfold sysWriteAt, sys. intros [= <- <- <-] (f & Hf & Hs). unfold clean. cbn.
  rewrite lookup_alter_eq, Hf. by eexists.
Qed.

Lemma sysSync_Cur s ss i n bs x ok s' :
  Cur s ss i n bs x → sysSync (segmentName i) s = (ok, s') →
  Cur s' ss i n bs x ∧
  (ok = true → clean s (segmentName i) → clean s' (segmentName i) ∧
    ∃ f, files s' !! segmentName i = Some f ∧ synced f = length (data f)).
Proof.
  intros Hc. pose proof Hc as [_ _ (f & Hm & Hd & Hn & Hs & _ & _ & Hx)].
  unfold sysSync, sys. intros [= <- <-]. set (r := default SOk (head (orc s))). split.
  - eapply (Cur_tail _ _ _ _ _ _ _ _ _ (Cur_orc _ _ _ _ _ _ (tail (orc s)) Hc));
      [done|done|by apply alter_some|].
    cbn. intros g Hg Hd'. rewrite Hm in Hg. injection Hg as <-.
    destruct (okSys r), (stale f); cbn [data synced]; (split; [done|]); try done.
    intros _. rewrite Hd, (layout_nil _ _ x), length_app. lia.
  - intros -> (g & Hg & Hst). rewrite Hm in Hg. injection Hg as <-. unfold clean.
    cbn [files onFile setFiles]. rewrite lookup_alter_eq, Hm. cbn. rewrite Hst.
    split; eexists; by split.
Qed.

Lemma sysWriteAt_Cur s ss i n bs y ok k s' :
  Cur s ss i n bs [] → (∀ k, tailOk (take k y)) →
  sysWriteAt (segmentName i) y (Z.to_nat n) s = (ok, k, s') →
  Cur s' ss i n bs (take k y) ∧ (k ≤ length y)%nat ∧ (ok = true → k = length y).
Proof.
  intros Hc Hy. pose proof Hc as [_ _ (f & Hm & Hd & Hn & Hs & _)].
  unfold sysWriteAt, sys. intros [= <- <- <-]. set (r := default SOk (head (orc s))).
  split_and!.
  - eapply (Cur_tail _ _ _ _ _ _ _ _ _ (Cur_orc _ _ _ _ _ _ (tail (orc s)) Hc));
      [done|done|by apply alter_some|].
    cbn. intros g Hg Hd'. rewrite Hm in Hg. injection Hg as <-. cbn [data synced].
    split; [|lia]. rewrite Hn, Nat2Z.id.
    rewrite <- Hd, pwrite_end, Hd'. by rewrite <- layout_nil.
  - destruct r; cbn; lia.
  - by destruct r.
Qed.

(** The frame in the tail becomes a record of the segment. *)
Lemma Cur_commit s ss i n bs b :
  Cur s (ss ++ [(i, bs)]) i n bs (encodeFrame b) → recordOk b →
  (∃ f, files s !! segmentName i = Some f ∧ synced f = length (data f)) →
  Cur s (ss ++ [(i, bs ++ [b])]) i (n + Z.of_nat (length (encodeFrame b))) (bs ++ [b]) [].
Proof.
  intros [[Hs Hf Ha] Hin (f & Hm & Hd & Hn & Hsy & He & Hb & Hx)] Hb' (g & Hg & Hsg).
  rewrite Hm in Hg. injection Hg as <-.
  assert (Hl : layout (hdr i) bs (encodeFrame b) =
    layout (hdr i) (bs ++ [b]) []).
  { unfold layout. by rewrite frames_snoc, app_nil_r. }
  assert (Hn' : n + Z.of_nat (length (encodeFrame b)) =
    Z.of_nat (length (layout (hdr i) (bs ++ [b]) []))).
  { rewrite <- Hl, (layout_nil _ _ (encodeFrame b)), length_app. lia. }
  assert (Hok : Forall recordOk (bs ++ [b])) by (apply Forall_app; by rewrite Forall_singleton).
  assert (Hsyn : (length (layout (hdr i) (bs ++ [b]) []) ≤ synced f)%nat)
    by (rewrite Hsg, Hd, Hl; lia).
  split; [split| |].
  - rewrite fmap_app in *. exact Hs.
  - intros j cs [Hj|Hj%list_elem_of_singleton]%elem_of_app.
    + apply Hf, elem_of_app. by left.
    + injection Hj as -> ->. split; [eapply Hf, Hin|]. exists f. split; [done|].
      left. exists []. rewrite <- Hl. split_and!; [done|apply tailOk_nil|done|].
      right. rewrite Hl. done.
  - intros j Hj Hjo. rewrite fmap_app in *. by apply Ha.
  - apply elem_of_app. right. by apply list_elem_of_singleton.
  - exists f. split_and!; [done|by rewrite Hd|done| |done|done|apply tailOk_nil].
    rewrite Hn'. lia.
Qed.

(** * The writer's invariant *)

Definition pinned (w : Writer) (s : FS) (ss : Segs) (i : Z) (bs : list (list Z))
    (x : list Z) : Prop :=
  hName (wf w) = segmentName i ∧ Cur s ss i (segBytes w) bs x ∧
  (∀ j, j ∈ ss.*1 → j ≤ segIdx w).

(** The writer's segment may be gone from the directory: it was damaged, and the
    importer took its torn tail for an end marker. *)
Definition gone (w : Writer) (s : FS) (ss : Segs) : Prop :=
  dirRep (files s) (entries s) ss ∧ (∀ j, j ∈ ss.*1 → j ≤ segIdx w) ∧
  ∃ i, hName (wf w) = segmentName i ∧ indexOk i ∧ i ≤ segIdx w ∧
    files s !! segmentName i = None.

(** A segment that is not damaged ends at its last durable record, is the newest
    and has never failed an fsync. *)
Definition winv (w : Writer) (s : FS) (ss : Segs) : Prop :=
  (∃ i bs x, pinned w s ss i bs x ∧
    (damaged w = false → i = segIdx w ∧ x = [] ∧ Z.of_nat (hOff (wf w)) = segBytes w ∧
       clean s (segmentName i))) ∨
  (damaged w = true ∧ gone w s ss).

Definition idle (w : Writer) : Z * option Outage * bool := (segIdx w, outage w, closed w).

(** The first index the writer may still add records under. *)
Definition low (w : Writer) : Z := if damaged w then segIdx w + 1 else segIdx w.

Definition onward (w w' : Writer) : Prop :=
  segIdx w ≤ segIdx w' ≤ segIdx w + 1 ∧ low w ≤ low w'.

Lemma low_range w : segIdx w ≤ low w ≤ segIdx w + 1.
Proof. unfold low. destruct (damaged w); lia. Qed.

Lemma low_damaged w w' : segIdx w' = segIdx w → damaged w' = true → low w ≤ low w'.
Proof. intros E Hd. pose proof (low_range w). unfold low at 2. rewrite Hd, E. lia. Qed.

Lemma low_undamaged w w' : segIdx w' = segIdx w → damaged w = false → low w ≤ low w'.
Proof. intros E Hd. pose proof (low_range w'). unfold low at 1. rewrite Hd. lia. Qed.

Lemma low_eq w w' : segIdx w' = segIdx w → damaged w' = damaged w → low w' = low w.
Proof. unfold low. by intros -> ->. Qed.

Lemma onward_step w w' v : onward w w' → segIdx v = segIdx w' → low w' ≤ low v → onward w v.
Proof. unfold onward. lia. Qed.

Lemma low_here w : damaged w = false → low w = segIdx w.
Proof. unfold low. by intros ->. Qed.

Lemma onward_refl w : onward w w.
Proof. unfold onward. lia. Qed.

(** [calm w w']: at most one index was used up, and nothing was counted. *)
Definition calm (w w' : Writer) : Prop :=
  onward w w' ∧ outage w' = outage w ∧ closed w' = closed w.

(** [added k ss bs ss']: the records [bs] were appended, in the last segment or in
    new ones after it, all with indexes from [k]. *)
Inductive added (k : Z) : Segs → list (list Z) → Segs → Prop :=
  | added_nil ss : added k ss [] ss
  | added_seg ss bs ss' i : k ≤ i → added k ss bs ss' → added k ss bs (ss' ++ [(i, [])])
  | added_rec ss bs ss0 i cs b : k ≤ i →
      added k ss bs (ss0 ++ [(i, cs)]) → added k ss (bs ++ [b]) (ss0 ++ [(i, cs ++ [b])]).

Lemma added_concat k ss bs ss' : added k ss bs ss' → concat ss'.*2 = concat ss.*2 ++ bs.
Proof.
  induction 1 as [|ss bs ss' i _ _ IH|ss bs ss0 i cs b _ _ IH].
  - by rewrite app_nil_r.
  - rewrite fmap_app, concat_app. cbn. by rewrite app_nil_r.
  - rewrite fmap_app, concat_app in *. cbn in *. rewrite app_nil_r in *.
    by rewrite !app_assoc, IH.
Qed.

Lemma added_trans k k' ss bs ss' bs' ss'' :
  k ≤ k' → added k ss bs ss' → added k' ss' bs' ss'' → added k ss (bs ++ bs') ss''.
Proof.
  intros Hk H1 H2. induction H2 as [ss'|ss' bs' s2 i Hi _ IH|ss' bs' ss0 i cs b Hi _ IH].
  - by rewrite app_nil_r.
  - constructor; [lia|]. by apply IH.
  - rewrite app_assoc. constructor; [lia|]. by apply IH.
Qed.

(** What an operation on the current segment may leave behind. *)
Definition held (w0 : Writer) (ss : Segs) (st : St) : Prop :=
  winv (wr st) (fs st) ss ∧ idle (wr st) = idle w0 ∧ low w0 ≤ low (wr st).

Lemma last_seg (ss : Segs) i bs :
  StronglySorted Z.lt ss.*1 → (i, bs) ∈ ss → (∀ j, j ∈ ss.*1 → j ≤ i) →
  ∃ ss0, ss = ss0 ++ [(i, bs)].
Proof.
  induction ss as [|[j c] ss IH]; intros Hs Hin Hle; [by apply elem_of_nil in Hin|].
  cbn in Hs. inversion Hs as [|? ? Hs' Hall]; subst. rewrite Forall_forall in Hall.
  apply elem_of_cons in Hin as [[= -> ->]|Hin].
  - destruct ss as [|[k d] ss]; [by exists []|].
    assert (j < k) by (apply Hall; by left). assert (k ≤ j) by (apply Hle; right; by left). lia.
  - destruct IH as [ss0 ->]; [done..|intros k Hk; apply Hle; by right|].
    by exists ((j, c) :: ss0).
Qed.

Lemma alter_gone {A} (g : A → A) name (m : gmap string A) :
  m !! name = None → alter g name m = m.
Proof.
  intros Hm. apply map_eq. intros k. destruct (decide (name = k)) as [<-|].
  - by rewrite lookup_alter_eq, Hm.
  - by rewrite lookup_alter_ne.
Qed.

(** A call on a name that is gone changes nothing. *)
Lemma sysTruncate_gone name n s ok t :
  files s !! name = None → sysTruncate name n s = (ok, t) →
  files t = files s ∧ entries t = entries s.
Proof.
  intros Hn. unfold sysTruncate, sys. destruct (okSys _); intros [= <- <-]; [|done].
  split; [|done]. by apply alter_gone.
Qed.

Lemma sysSync_gone name s ok t :
  files s !! name = None → sysSync name s = (ok, t) →
  files t = files s ∧ entries t = entries s.
Proof.
  intros Hn. unfold sysSync, sys. intros [= <- <-]. split; [|done]. by apply alter_gone.
Qed.

Lemma sysWriteAt_gone name y off s ok k t :
  files s !! name = None → sysWriteAt name y off s = (ok, k, t) →
  files t = files s ∧ entries t = entries s.
Proof.
  intros Hn. unfold sysWriteAt, sys. intros [= <- <- <-]. split; [|done]. by apply alter_gone.
Qed.

Lemma wp_damage w0 s ss :
  (∃ i bs x, pinned (wr s) (fs s) ss i bs x) ∨ gone (wr s) (fs s) ss →
  idle (wr s) = idle w0 →
  wp damage (λ r t, r = Ok tt ∧ held w0 ss t ∧ damaged (wr t) = true) s.
Proof.
  intros [(i & bs & x & Hn & Hc & Hle)|(Hr & Hle & i & Hn & Hio & Hil & Hg)] Hi; unfold damage; repeat wp_step;
    cbn [wr fs wf segBytes set_damaged] in *; rewrite Hn in *; (split_and!; [done| |done]);
    (split; [|split; [done|by apply low_damaged; [injection Hi|]]]).
  - pose proof (sysTruncate_Cur _ _ _ _ _ _ _ _ Hc E) as Hc1.
    destruct (sysSync_Cur _ _ _ _ _ _ _ _ Hc1 E0) as [Hc2 _].
    left. exists i, bs, (if a then [] else x). split; [by split_and!|done].
  - apply sysTruncate_gone in E as [E1 E2]; [|done].
    apply sysSync_gone in E0 as [F1 F2]; [|by rewrite E1].
    right. split; [done|]. unfold gone. cbn [wr fs]. rewrite F1, F2, E1, E2. split_and!; [done..|].
    by exists i.
Qed.

Lemma wp_writeFrame s ss b what :
  winv (wr s) (fs s) ss → damaged (wr s) = false → recordOk b →
  wp (writeFrame (encodeFrame b) what) (λ r t,
    match r with
    | Ok _ => ∃ ss0 i bs, ss = ss0 ++ [(i, bs)] ∧ i = segIdx (wr s) ∧
        held (wr s) (ss0 ++ [(i, bs ++ [b])]) t ∧ damaged (wr t) = false
    | Err _ => held (wr s) ss t
    end) s.
Proof.
  intros [(i & bs & x & (Hn & Hc & Hle) & Hd)|[Hd' _]] Hdam Hb; [|congruence].
  destruct (Hd Hdam) as (-> & -> & Hoff & Hcl).
  destruct (last_seg ss (segIdx (wr s)) bs) as [ss0 ->]; [apply Hc..|done|].
  unfold writeFrame, writeAtOffset. repeat wp_step. destruct a as [ok k]. repeat wp_step.
  cbn [wr fs wf segBytes set_seg hName] in *. rewrite Hn in *.
  assert (Hto : hOff (wf (wr s)) = Z.to_nat (segBytes (wr s))) by lia. rewrite Hto in E.
  destruct (sysWriteAt_Cur _ _ _ _ _ _ _ _ _ Hc (λ k, tailOk_frame b k Hb) E) as (Hc1 & Hk & Hok).
  pose proof (sysWriteAt_clean _ _ _ _ _ _ _ E Hcl) as Hcl1.
  destruct ok; cbn [negb].
  2: { wp_step. eapply wp_mono; [eapply (wp_damage (wr s)); [|done]|].
       - left. eexists _, _, _. by split_and!.
       - intros r t1 (-> & Hh & _). by apply wp_throw. }
  rewrite (Hok eq_refl), take_ge in Hc1 by lia.
  repeat wp_step. cbn [wr fs wf hName segBytes set_seg] in *.
  destruct (sysSync_Cur _ _ _ _ _ _ _ _ Hc1 E0) as [Hc2 Hs2].
  destruct a; cbn [negb].
  2: { wp_step. eapply wp_mono; [eapply (wp_damage (wr s)); [|done]|].
       - left. eexists _, _, _. by split_and!.
       - intros r t' (-> & Hh & _). by apply wp_throw. }
  repeat wp_step. cbn [wr fs wf hName segBytes set_seg segIdx damaged].
  exists ss0, (segIdx (wr s)), bs. split_and!; [done|done| |done]. split; [|done].
  left. exists (segIdx (wr s)), (bs ++ [b]), []. split.
  - split_and!; [done| |]; cbn [segBytes set_seg segIdx].
    + apply Cur_commit; [done..|]. by apply Hs2.
    + intros j Hj. apply Hle. by rewrite fmap_app in *.
  - intros _. split; [done|]. split; [done|]. cbn [wr fs wf hOff set_seg segBytes].
    rewrite (Hok eq_refl). split; [lia|by apply Hs2].
Qed.

(** * New segments *)

(** [t] differs from [s] in segment [i] only. *)
Definition frame (i : Z) (s t : FS) : Prop :=
  ∀ name, name ≠ segmentName i → files t !! name = files s !! name ∧
    (is_Some (files s !! name) → name ∈ entries s → name ∈ entries t).

Lemma frame_refl i s : frame i s s.
Proof. by split. Qed.

Lemma frame_same i s t : files t = files s → entries t = entries s → frame i s t.
Proof. intros E1 E2 name _. by rewrite E1, E2. Qed.

Lemma frame_insert i s t f :
  files t = <[segmentName i := f]> (files s) → entries t = entries s → frame i s t.
Proof. intros E1 E2 name Hn. rewrite E1, E2, lookup_insert_ne by done. done. Qed.

Lemma frame_trans i s t u : frame i s t → frame i t u → frame i s u.
Proof.
  intros H1 H2 name Hn. destruct (H1 name Hn) as [E1 I1], (H2 name Hn) as [E2 I2].
  split; [congruence|]. rewrite E1 in I2. auto.
Qed.

Lemma Cur_frame s t ss ss' i j n bs x :
  Cur s ss j n bs x → frame i s t → segmentName i ≠ segmentName j →
  dirRep (files t) (entries t) ss' → (j, bs) ∈ ss' → Cur t ss' j n bs x.
Proof.
  intros [_ _ (f & Hm & Hd & Hn & Hs & He & Hb & Hx)] Hf Hne Hr Hin.
  destruct (Hf (segmentName j)) as [E I]; [congruence|].
  split; [done..|]. exists f. rewrite E. split_and!; try done.
  apply I; [by eexists|done].
Qed.

Lemma header_segFile i k syn st P :
  segFile i (mkFile (take k (headerLine (hdr i))) syn st) [] P.
Proof.
  set (h := hdr i).
  destruct (decide (length (headerLine h) ≤ k)%nat).
  - left. exists []. cbn [data]. rewrite take_ge by done.
    split_and!; [by unfold layout, frames; rewrite !app_nil_r|apply tailOk_nil|done|by left].
  - right. split; [done|]. cbn [data]. fold h. unfold headerLine in *.
    rewrite length_app in *. cbn [length] in *. rewrite take_app_le by lia. apply prefix_take.
Qed.

(** One call on the new file [i], whose bytes are [take k] of the header line. *)
Lemma dirRep_header m ss i k syn st ents :
  dirRep m ents (ss ++ [(i, [])]) →
  dirRep (<[segmentName i := mkFile (take k (headerLine (hdr i))) syn st]> m)
    ents (ss ++ [(i, [])]).
Proof.
  intros Hr. eapply dirRep_file; [done| |apply header_segFile].
  apply elem_of_app. right. by apply list_elem_of_singleton.
Qed.

Lemma wp_discard {A} s ss i e :
  dirRep (files (fs s)) (entries (fs s)) (ss ++ [(i, [])]) →
  wp (discard (A := A) (segmentName i) e) (λ r t, wr t = wr s ∧ frame i (fs s) (fs t) ∧ r = Err e ∧
    (dirRep (files (fs t)) (entries (fs t)) ss ∨
     dirRep (files (fs t)) (entries (fs t)) (ss ++ [(i, [])]))) s.
Proof.
  intros Hr. unfold discard. repeat wp_step. cbn [wr fs].
  unfold sysPlain, sysRemove, sys in *. cbn in E0. injection E as <- <-.
  injection E0 as <- <-. cbn. destruct (okSys _); cbn.
  - split_and!; [done| |done|left; by apply dirRep_drop].
    intros name Hn. cbn. rewrite lookup_delete_ne by done. split; [done|]. set_solver.
  - split_and!; [done|by apply frame_same|done|by right].
Qed.

(** The calls on one file leave the others alone. *)
Lemma frame_alter i s t g :
  files t = alter g (segmentName i) (files s) → entries t = entries s → frame i s t.
Proof. intros E1 E2 name Hn. rewrite E1, E2, lookup_alter_ne by done. done. Qed.

Lemma sysTruncate_frame i n s ok t : sysTruncate (segmentName i) n s = (ok, t) → frame i s t.
Proof.
  unfold sysTruncate, sys. destruct (okSys _); intros [= <- <-];
    [by eapply frame_alter|by apply frame_same].
Qed.

Lemma sysSync_frame i s ok t : sysSync (segmentName i) s = (ok, t) → frame i s t.
Proof.
  unfold sysSync, sys. intros [= <- <-]. by eapply frame_alter.
Qed.

Lemma sysWriteAt_frame i y off s ok k t :
  sysWriteAt (segmentName i) y off s = (ok, k, t) → frame i s t.
Proof. unfold sysWriteAt, sys. intros [= <- <- <-]. by eapply frame_alter. Qed.

Lemma sysPlain_same s ok t :
  sysPlain s = (ok, t) → files t = files s ∧ entries t = entries s.
Proof. unfold sysPlain, sys. by intros [= <- <-]. Qed.

Lemma Cur_same s t ss i n bs x :
  files t = files s → entries t = entries s → Cur s ss i n bs x → Cur t ss i n bs x.
Proof. intros E1 E2 []. split; [by rewrite E1, E2|done|by rewrite E1, E2]. Qed.

Lemma wp_retireSegment s ss i n bs x :
  Cur (fs s) ss i n bs x →
  wp (retireSegment (segmentName i) n) (λ _ t,
    wr t = wr s ∧ frame i (fs s) (fs t) ∧ ∃ x', Cur (fs t) ss i n bs x') s.
Proof.
  intros Hc. unfold retireSegment. wp_step. wp_step.
  assert (Hend : ∀ (r : result SpoolErr unit) st, wr st = wr s → frame i (fs s) (fs st) →
    (∃ x', Cur (fs st) ss i n bs x') →
    wp (ok ← io sysPlain; match r with Ok _ => ensure ok ErrClose | Err e => throw e end)
      (λ _ t, wr t = wr s ∧ frame i (fs s) (fs t) ∧ ∃ x', Cur (fs t) ss i n bs x') st).
  { intros r st Hw Hf [x' Hx]. wp_step. wp_step. apply sysPlain_same in E as [E1 E2].
    assert (G : ∀ st', fs st' = t → wr st' = wr s → wr st' = wr s ∧ frame i (fs s) (fs st') ∧
      ∃ x', Cur (fs st') ss i n bs x').
    { intros st' -> Hw'. split_and!; [done| |exists x'; by eapply Cur_same].
      eapply frame_trans; [exact Hf|by apply frame_same]. }
    destruct r; [|by apply G]. wp_step. by destruct a; apply G. }
  wp_step. wp_step. pose proof (sysTruncate_frame _ _ _ _ _ E) as Hf1.
  pose proof (sysTruncate_Cur _ _ _ _ _ _ _ _ Hc E) as Hc1.
  destruct ok; [|refine (Hend (Err _) _ _ _ _); [done|done|by eexists]].
  wp_step. wp_step. destruct a as [ok k]. cbn [wr fs] in *.
  pose proof (sysWriteAt_frame _ _ _ _ _ _ _ E0) as Hf2.
  destruct (sysWriteAt_Cur _ _ _ _ _ _ _ _ _ Hc1 tailOk_marker E0) as (Hc2 & _ & _).
  assert (Hf12 := frame_trans _ _ _ _ Hf1 Hf2).
  wp_step. wp_step. destruct ok; [|refine (Hend (Err _) _ _ _ _); [done|done|by eexists]].
  wp_step. cbn [wr fs] in *. pose proof (sysSync_frame _ _ _ _ E1) as Hf3.
  destruct (sysSync_Cur _ _ _ _ _ _ _ _ Hc2 E1) as [Hc3 _].
  assert (Hf13 := frame_trans _ _ _ _ Hf12 Hf3).
  destruct ok; [refine (Hend (Ok _) _ _ _ _)|refine (Hend (Err _) _ _ _ _)]; done || by eexists.
Qed.

Lemma wp_retire_gone s name n :
  files (fs s) !! name = None →
  wp (retireSegment name n) (λ _ t, wr t = wr s ∧
    files (fs t) = files (fs s) ∧ entries (fs t) = entries (fs s)) s.
Proof.
  intros Hg. unfold retireSegment. wp_step. wp_step.
  assert (Hend : ∀ (r : result SpoolErr unit) st, wr st = wr s →
    files (fs st) = files (fs s) → entries (fs st) = entries (fs s) →
    wp (ok ← io sysPlain; match r with Ok _ => ensure ok ErrClose | Err e => throw e end)
      (λ _ t, wr t = wr s ∧ files (fs t) = files (fs s) ∧ entries (fs t) = entries (fs s)) st).
  { intros r st Hw Hf He. wp_step. wp_step. apply sysPlain_same in E as [E1 E2].
    destruct r; wp_step; [destruct a|]; cbn [wr fs]; split_and!; congruence. }
  wp_step. wp_step. apply sysTruncate_gone in E as [E1 E2]; [|done].
  destruct ok; [|by refine (Hend (Err _) _ _ _ _)].
  wp_step. wp_step. destruct a as [ok k]. cbn [wr fs] in *.
  apply sysWriteAt_gone in E as [F1 F2]; [|by rewrite E1].
  wp_step. wp_step. destruct ok; [|refine (Hend (Err _) _ _ _ _); cbn; congruence].
  wp_step. cbn [wr fs] in *. apply sysSync_gone in E as [G1 G2]; [|by rewrite F1, E1].
  destruct ok; [refine (Hend (Ok _) _ _ _ _)|refine (Hend (Err _) _ _ _ _)];
    cbn [wr fs]; by rewrite ?G1, ?G2, ?F1, ?F2.
Qed.

(** The writer's segment, present or gone, beside a change of segment [n]. *)
Definition old (w : Writer) (s : FS) (ss : Segs) (i : Z) : Prop :=
  hName (wf w) = segmentName i ∧ indexOk i ∧ i ≤ segIdx w ∧
  ((∃ bs x, Cur s ss i (segBytes w) bs x) ∨
   (files s !! segmentName i = None ∧ dirRep (files s) (entries s) ss)).

Lemma winv_old w s ss :
  winv w s ss → (∃ i, old w s ss i) ∧ dirRep (files s) (entries s) ss ∧
    (∀ j, j ∈ ss.*1 → j ≤ segIdx w).
Proof.
  intros [(i & bs & x & (Hn & Hc & Hle) & _)|[_ (Hr & Hle & i & Hn & Hi & Hil & Hg)]].
  - split_and!; [|apply Hc|done]. exists i. split_and!; [done|by eapply Cur_index| |left; eauto].
    apply Hle. by eapply Cur_elem.
  - split_and!; [|done|done]. exists i. split_and!; [done..|by right].
Qed.

Lemma old_frame w s t ss ss' i n :
  old w s ss i → frame n s t → indexOk n → i < n → dirRep (files t) (entries t) ss' →
  (∀ x, x ∈ ss → x ∈ ss') → old w t ss' i.
Proof.
  intros (Hn & Hi & Hil & Hc) Hf Hno Hlt Hr Hsub. split_and!; [done..|].
  assert (Hne : segmentName n ≠ segmentName i) by (apply name_ne; [done..|lia]).
  destruct Hc as [(bs & x & Hc)|[Hg _]].
  - left. exists bs, x. eapply Cur_frame; [done..|]. apply Hsub, Hc.
  - right. split; [|done]. destruct (Hf (segmentName i)) as [-> _]; done || congruence.
Qed.

Lemma wp_retire_old w s ss i :
  old w (fs s) ss i →
  wp (retireSegment (segmentName i) (segBytes w)) (λ _ t, wr t = wr s ∧ frame i (fs s) (fs t) ∧
    dirRep (files (fs t)) (entries (fs t)) ss) s.
Proof.
  intros (Hn & Hi & Hil & [(bs & x & Hc)|[Hg Hr]]).
  - eapply wp_mono; [by eapply wp_retireSegment|]. intros r t (Hw & Hf & x' & Hc').
    split_and!; [done..|apply Hc'].
  - eapply wp_mono; [by apply wp_retire_gone|]. intros r t (Hw & Hf & He).
    split_and!; [done|by apply frame_same|by rewrite Hf, He].
Qed.

Section cfg.
Context (cfg : WriterCfg).

(** The segments from [k0] on are this writer's. *)
Context (k0 : Z) (Hk0 : 0 ≤ k0).
Context (Hown : ∀ j, k0 ≤ j → hd j = (cfgVMID cfg, cfgInstanceID cfg)).

Let line : list Z := headerLine (segHeader (cfgVMID cfg) (cfgInstanceID cfg)).

Lemma own_header j : k0 ≤ j → hdr j = segHeader (cfgVMID cfg) (cfgInstanceID cfg).
Proof. intros Hj. unfold hdr. by rewrite Hown. Qed.

Lemma wp_createSegment s ss i :
  i = segIdx (wr s) → k0 ≤ i → (∀ j, j ∈ ss.*1 → j < i) →
  dirRep (files (fs s)) (entries (fs s)) ss →
  wp (createSegment cfg) (λ r t, frame i (fs s) (fs t) ∧
    match r with
    | Ok _ => dirRep (files (fs t)) (entries (fs t)) (ss ++ [(i, [])]) ∧ indexOk i ∧
        wr t = set_seg (mkHandle (segmentName i) (length line)) (Z.of_nat (length line)) (wr s) ∧
        curFile (files (fs t)) (entries (fs t)) i (Z.of_nat (length line)) [] [] ∧
        clean (fs t) (segmentName i)
    | Err _ => wr t = wr s ∧ (fs t = fs s ∨ indexOk i ∧
        (dirRep (files (fs t)) (entries (fs t)) ss ∨
         dirRep (files (fs t)) (entries (fs t)) (ss ++ [(i, [])])))
    end) s.
Proof.
  intros -> Hi Hlt Hr. unfold createSegment. repeat wp_step.
  destruct (Z.ltb_spec maxSegmentIndex (segIdx (wr s))) as [_|Hmax].
  { wp_step. split_and!; [apply frame_refl|done|by left]. }
  set (i := segIdx (wr s)) in *. assert (indexOk i) by (unfold indexOk; lia).
  assert (Hfr : files (fs s) !! segmentName i = None).
  { destruct (files (fs s) !! segmentName i) eqn:E; [|done].
    assert (i < i); [|lia]. apply Hlt, (dr_all _ _ _ Hr); [by eexists|done]. }
  assert (Hok : indexOk i) by (unfold indexOk; lia).
  assert (Hh : hdr i = segHeader (cfgVMID cfg) (cfgInstanceID cfg)) by by apply own_header.
  rewrite <- Hh. set (h := hdr i) in *.
  wp_step. wp_step. unfold sysCreate, sys in E. cbn in E. rewrite Hfr in E.
  destruct (okSys _); injection E as <- <-.
  2: { split_and!; [by apply frame_same|done|right; split; [done|by left]]. }
  assert (Hr1 : dirRep (<[segmentName i:=mkFile [] 0 false]> (files (fs s))) (entries (fs s))
    (ss ++ [(i, [])])).
  { apply dirRep_new; [done..|]. exact (header_segFile i 0 0 false _). }
  assert (Hhdr : ∀ k syn st, dirRep
    (<[segmentName i := mkFile (take k (headerLine h)) syn st]> (files (fs s))) (entries (fs s))
    (ss ++ [(i, [])])).
  { intros k syn st. rewrite <- (insert_insert_eq (files (fs s)) (segmentName i) _ (mkFile [] 0 false)).
    by apply (dirRep_header _ _ i). }
  wp_step. wp_step. unfold sysWriteAt, sys in E. cbn in E. injection E as <- <-. cbn beta iota.
  set (r := default SOk _) in *. cbn [wr].
  unfold onFile, setFiles. cbn [files entries cursorFile statusFile orc].
  rewrite (alter_some _ _ _ (mkFile [] 0 false)) by apply lookup_insert_eq. rewrite insert_insert_eq.
  cbn [data synced]. rewrite (pwrite_end [] _), app_nil_l.
  destruct (okSys r) eqn:Hr1'; cbn [negb].
  2: { eapply wp_mono; [apply (wp_discard _ ss); cbn; apply Hhdr|].
       intros ? t (Hw & Hf & -> & Hd). split; [|split; [done|right; by split]].
       eapply frame_trans; [|exact Hf]. by eapply frame_insert. }
  replace (moved r (headerLine h)) with (length (headerLine h)) by by destruct r.
  wp_step. wp_step. unfold sysSync, sys, onFile, setFiles in E. cbn in E.
  rewrite (alter_some _ _ _ _ (lookup_insert_eq _ _ _)), insert_insert_eq in E.
  cbn [data synced stale] in E.
  match type of E with (okSys ?x, _) = _ => destruct (okSys x) end;
    injection E as <- <-; cbn [negb].
  2: { eapply wp_mono; [apply (wp_discard _ ss); cbn; apply Hhdr|].
       intros ? t (Hw & Hf & -> & Hd). split; [|split; [done|right; by split]].
       eapply frame_trans; [|exact Hf]. by eapply frame_insert. }
  wp_step. wp_step. unfold sysSyncDir, sys in E. cbn in E.
  match type of E with (okSys ?x, _) = _ => destruct (okSys x) end;
    injection E as <- <-; cbn [negb].
  2: { eapply wp_mono; [apply (wp_discard _ ss); cbn; apply Hhdr|].
       intros ? t (Hw & Hf & -> & Hd). split; [|split; [done|right; by split]].
       eapply frame_trans; [|exact Hf]. by eapply frame_insert. }
  repeat wp_step. unfold setEntries. cbn [fs wr files entries].
  set (m := <[segmentName i:=_]> (files (fs s))).
  assert (Hr2 : dirRep m (dom m) (ss ++ [(i, [])])).
  { eapply dirRep_linked; [apply Hhdr|]. intros j Hj _.
    apply list_elem_of_fmap in Hj as ([j' bs] & -> & Hj).
    assert (Hm : dirRep m (entries (fs s)) (ss ++ [(i, [])])) by apply Hhdr.
    destruct (dr_file _ _ _ Hm _ _ Hj) as [_ (f & Hf & _)]. by apply elem_of_dom_2 in Hf. }
  assert (Hline : line = headerLine h) by (unfold line; by rewrite <- Hh). rewrite Hline.
  split_and!; [|done|done|done| |].
  3: { eexists. cbn. unfold m. by rewrite lookup_insert_eq. }
  - intros name Hn. cbn. unfold m. rewrite lookup_insert_ne by done. split; [done|].
    intros Hs _. apply elem_of_dom. by rewrite lookup_insert_ne.
  - eexists. unfold m. rewrite lookup_insert_eq. fold h.
    rewrite take_ge by lia.
    assert (El : layout h [] [] = headerLine h) by (unfold layout, frames; by rewrite !app_nil_r).
    cbn [data synced]. rewrite El.
    split_and!; try done; [rewrite dom_insert_L; set_solver|apply tailOk_nil].
Qed.

(** After a successful advance the writer is on a new, empty segment; after a
    failed one it is on the old segment, damaged. A failed create may leave a
    file without records behind. *)
Lemma wp_advance s ss :
  winv (wr s) (fs s) ss → segIdx (wr s) + 1 < 2 ^ 64 → k0 ≤ segIdx (wr s) →
  wp (advance cfg) (λ r t, ∃ ss', added (low (wr s)) ss [] ss' ∧ winv (wr t) (fs t) ss' ∧
    calm (wr s) (wr t) ∧ (r = Ok tt → damaged (wr t) = false)) s.
Proof.
  intros Hw0 H64 H0'. destruct (winv_old _ _ _ Hw0) as ([i Ho] & Hr0 & Hle).
  unfold advance. wp_step. wp_step.
  rewrite (Int.u64_small (segIdx (wr s) + 1)) by lia.
  do 6 wp_step. cbn [wr fs wf segBytes set_segIdx]. set (n := segIdx (wr s) + 1) in *.
  assert (Hlt : ∀ j, j ∈ ss.*1 → j < n) by (intros j Hj; specialize (Hle j Hj); lia).
  assert (Hle' : ∀ j, j ∈ (ss ++ [(n, [])]).*1 → j ≤ n).
  { intros j. rewrite fmap_app, elem_of_app. cbn.
    intros [Hj%Hle|Hj%list_elem_of_singleton]; lia. }
  pose proof Ho as (Hn & Hio & Hil & _).
  pose proof (low_range (wr s)) as Hlow.
  assert (Hadd : added (low (wr s)) ss [] (ss ++ [(n, [])]))
    by (apply added_seg; [lia|apply added_nil]).
  eapply wp_mono; [eapply (wp_createSegment _ ss n); try done; lia|].
  cbn [wr fs]. intros [[]|e] t [Hf Hpost].
  - destruct Hpost as (Hr & Hok & Hw & Hcur & Hcln).
    assert (Ho1 : old (wr s) (fs t) (ss ++ [(n, [])]) i).
    { eapply old_frame; [done..|lia|done|]. intros x Hx. apply elem_of_app. by left. }
    assert (Hne : segmentName i ≠ segmentName n) by (apply name_ne; [done..|lia]).
    do 4 wp_step. rewrite Hn. cbn [wr fs].
    eapply wp_mono; [by eapply (wp_retire_old (wr s))|]. cbn [wr fs].
    intros r u (Hwu & Hfu & Hru). wp_step.
    exists (ss ++ [(n, [])]). rewrite Hwu, Hw.
    split_and!; [done| |unfold calm, onward; split_and!;
      first [done|change (low (wr s) ≤ n); lia|cbn; lia]|done].
    left. exists n, [], []. split.
    2: { intros _. split_and!; try done. eapply clean_same; [|exact Hcln]. by apply Hfu. }
    split_and!; [done| |done].
    cbn [segBytes set_damaged set_seg].
    assert (Hnew : Cur (fs t) (ss ++ [(n, [])]) n (Z.of_nat (length line)) [] []).
    { split; [done| |done]. apply elem_of_app. right. by apply list_elem_of_singleton. }
    eapply (Cur_frame _ _ _ _ i); [exact Hnew|done..|apply Hnew].
  - destruct Hpost as (Hw & Hr). wp_step.
    assert (Hss : ∃ ss', added (low (wr s)) ss [] ss' ∧ old (wr s) (fs t) ss' i ∧
      (∀ j, j ∈ ss'.*1 → j ≤ n)).
    { destruct Hr as [->|[Hok [Hr|Hr]]].
      - exists ss. split_and!; [apply added_nil|done|intros j Hj%Hlt; lia].
      - exists ss. split_and!; [apply added_nil| |intros j Hj%Hlt; lia].
        eapply old_frame; [done..|lia|done|done].
      - exists (ss ++ [(n, [])]). split_and!; [done| |done].
        eapply old_frame; [done..|lia|done|]. intros x Hx. apply elem_of_app. by left. }
    destruct Hss as (ss' & Ha & (_ & _ & _ & Hcg) & Hle2).
    eapply wp_mono; [apply (wp_damage (wr t) _ ss'); [|done]|].
    { rewrite Hw. destruct Hcg as [(bs & x & Hc)|[Hg Hr']]; [left|right].
      - exists i, bs, x. by split_and!.
      - split_and!; [done..|]. exists i. split_and!; [done..|cbn; lia|done]. }
    intros r u (-> & [Hwi [Hid _]] & Hd).
    apply wp_throw. exists ss'. split_and!; [done|done| |done].
    unfold idle in Hid. rewrite Hw in Hid. injection Hid as E1 E2 E3.
    unfold calm, onward. unfold low at 2. rewrite E1, E2, E3, Hd. cbn. split_and!; [lia..|done|done].
Qed.

Lemma wp_makeRoom s ss n :
  winv (wr s) (fs s) ss → segIdx (wr s) + 1 < 2 ^ 64 → k0 ≤ segIdx (wr s) →
  wp (makeRoom cfg n) (λ r t, ∃ ss', added (low (wr s)) ss [] ss' ∧ winv (wr t) (fs t) ss' ∧
    calm (wr s) (wr t) ∧ (r = Ok tt → damaged (wr t) = false)) s.
Proof.
  intros Hw H64 H0'. unfold makeRoom. do 4 wp_step.
  destruct (damaged (wr s)) eqn:Hd; [by apply wp_advance|]. cbn [orb].
  case_match; [by apply wp_advance|]. wp_step.
  exists ss. split_and!; [constructor|done|unfold calm; split_and!; done || apply onward_refl|done].
Qed.

(** * Records and losses *)

(** A record of the spool: an event, or the loss record of an outage. *)
Definition Rec : Type := Envelope + Outage.

Definition recBody (r : Rec) (b : list Z) : Prop :=
  match r with
  | inl env => marshal env = Some b
  | inr o => ∃ f env, LossRecord cfg = Some f ∧ f o = Some env ∧ marshal env = Some b
  end.

Definition eventsOf (rs : list Rec) : list Envelope := omap (λ r, match r with inl e => Some e | inr _ => None end) rs.
Definition lossesOf (rs : list Rec) : list Outage := omap (λ r, match r with inr o => Some o | inl _ => None end) rs.

(** Refused appends an outage stands for. *)
Definition weight (o : Outage) : Z := oRunner o + oGuest o.
Definition pending (w : Writer) : Z := default 0 (weight <$> outage w).
Definition total (os : list Outage) : Z := foldr (λ o n, weight o + n) 0 os.

Definition counted (k : Z) (w : Writer) : Prop :=
  ∀ o, outage w = Some o → 0 ≤ oRunner o ∧ 0 ≤ oGuest o ∧ weight o ≤ k.

Lemma marshal_ok env b :
  marshal env = Some b → Z.of_nat (length b) ≤ maxRecordBytes → recordOk b.
Proof.
  intros Hm Hl. split_and!; [split; [by eapply marshal_bytes|done]|by eapply marshal_decodes|
    by eapply marshal_brace].
Qed.

Lemma wp_lossFrame o now s :
  wp (lossFrame cfg o now) (λ r t, t = s ∧
    ∀ l, r = Ok l → ∃ b o', l = encodeFrame b ∧ recordOk b ∧ recBody (inr o') b ∧
      weight o' = weight o) s.
Proof.
  unfold lossFrame. wp_step. wp_step.
  destruct (LossRecord cfg) as [f|] eqn:Ef; [|done]. cbn [mbind option_bind].
  destruct (f _) as [env|] eqn:Ee; [|done]. wp_step. wp_step.
  destruct (marshal env) as [b|] eqn:Eb; [|done]. wp_step. wp_step.
  destruct (Z.ltb_spec maxRecordBytes (Z.of_nat (length b))) as [|Hl]; [done|]. cbn [negb]. wp_step.
  split; [done|]. intros l [= <-]. eexists b, _. split_and!; [done| | |].
  - by eapply marshal_ok.
  - exists f, env. done.
  - done.
Qed.

Lemma sysStatus_same h s a t :
  sysStatus h s = (a, t) → files t = files s ∧ entries t = entries s.
Proof. unfold sysStatus, sys. intros [= <- <-]. by destruct (default _ _) as [|[]]. Qed.

Lemma winv_same w s t ss :
  files t = files s → entries t = entries s → winv w s ss → winv w t ss.
Proof.
  intros E1 E2 [(i & bs & x & (Hn & Hc & Hle) & Hd)|[Hd Hg]]; [left|right; split; [done|]].
  - exists i, bs, x. split; [split_and!; [done|by eapply Cur_same|done]|].
    unfold clean. by rewrite E1.
  - unfold gone in *. by rewrite E1, E2.
Qed.

(** The writer's invariant is about its segment, not about its counters. *)
Lemma winv_writer w w' s ss :
  segIdx w' = segIdx w → wf w' = wf w → segBytes w' = segBytes w → damaged w' = damaged w →
  winv w s ss → winv w' s ss.
Proof.
  intros E1 E2 E3 E4. unfold winv, pinned, gone. by rewrite E1, E2, E3, E4.
Qed.

Lemma wp_writeStatus s now :
  wp (writeStatus cfg now) (λ r t, r = Ok tt ∧ wr t = wr s ∧
    files (fs t) = files (fs s) ∧ entries (fs t) = entries (fs s)) s.
Proof.
  unfold writeStatus. do 3 wp_step. destruct a. apply sysStatus_same in E as [E1 E2]. done.
Qed.

Lemma wp_writeLoss s ss b now :
  winv (wr s) (fs s) ss → damaged (wr s) = false → recordOk b →
  wp (writeLoss cfg (encodeFrame b) now) (λ r t,
    match r with
    | Ok _ => ∃ ss', added (segIdx (wr s)) ss [b] ss' ∧ winv (wr t) (fs t) ss' ∧ damaged (wr t) = false ∧
        segIdx (wr t) = segIdx (wr s) ∧ closed (wr t) = closed (wr s) ∧ outage (wr t) = None
    | Err _ => held (wr s) ss t
    end) s.
Proof.
  intros Hw Hd Hb. unfold writeLoss. wp_step.
  eapply wp_mono; [by apply wp_writeFrame|]. intros [[]|e] t; [|done].
  intros (ss0 & i & bs & -> & -> & [Hw' [Hid _]] & Hd'). do 2 wp_step.
  injection Hid as E1 E2 E3.
  eapply wp_mono; [apply wp_writeStatus|]. intros r u (-> & Hwu & Hf & He).
  exists (ss0 ++ [(segIdx (wr s), bs ++ [b])]). rewrite Hwu. split_and!; try done.
  - apply (added_rec _ _ [] _ _ _ b); [done|apply added_nil].
  - eapply winv_same; [exact Hf|exact He|]. by eapply winv_writer; [..|exact Hw'].
Qed.

Lemma added_one (ss : Segs) ss0 i cs b :
  ss = ss0 ++ [(i, cs)] → added i ss [b] (ss0 ++ [(i, cs ++ [b])]).
Proof. intros ->. apply (added_rec _ _ [] _ _ _ b); [done|apply added_nil]. Qed.

(** What the part of [Append] that may be refused leaves: the records it added are
    the loss of the open outage, if it got that far, and then the event itself. *)
Definition outcome (w : Writer) (ss : Segs) (body : list Z) (r : result SpoolErr unit)
    (t : St) : Prop :=
  ∃ ss' lost bs, added (low w) ss (bs ++ (if is_ok r then [body] else [])) ss' ∧
    winv (wr t) (fs t) ss' ∧ Forall2 recBody (inr <$> lost) bs ∧
    onward w (wr t) ∧ closed (wr t) = closed w ∧
    total lost + pending (wr t) = pending w ∧
    (outage (wr t) = None ∨ outage (wr t) = outage w).

Lemma outcome_quiet w ss body e t ss' :
  added (low w) ss [] ss' → winv (wr t) (fs t) ss' → calm w (wr t) → outcome w ss body (Err e) t.
Proof.
  intros Ha Hw (Hi & Ho & Hc). exists ss', [], []. cbn. unfold pending. rewrite Ho.
  split_and!; try done. by right.
Qed.

Lemma calm_held w w' ss t : calm w w' → held w' ss t → calm w (wr t).
Proof.
  intros (Hi & Ho & Hc) (_ & Hid & Hlow). injection Hid as E1 E2 E3. unfold calm. rewrite E2, E3.
  split_and!; [by eapply onward_step|congruence..].
Qed.

(** The frames go out after room was made. *)
Lemma wp_event w s ss ss' body bs lost :
  added (low w) ss bs ss' → winv (wr s) (fs s) ss' → damaged (wr s) = false → recordOk body →
  Forall2 recBody (inr <$> lost) bs → onward w (wr s) →
  closed (wr s) = closed w → total lost + pending (wr s) = pending w →
  (outage (wr s) = None ∨ outage (wr s) = outage w) →
  wp (writeFrame (encodeFrame body) "record") (outcome w ss body) s.
Proof.
  intros Ha Hw Hd Hb HF Hi Hc Ht Ho. eapply wp_mono; [by apply wp_writeFrame|].
  intros [[]|e] t.
  - intros (ss0 & i & cs & E & -> & (Hw' & Hid & Hlow) & _). injection Hid as E1 E2 E3.
    exists (ss0 ++ [(segIdx (wr s), cs ++ [body])]), lost, bs. unfold pending in *. rewrite E2, E3.
    split_and!; try done; [|by eapply onward_step].
    eapply (added_trans _ (segIdx (wr s))); [|exact Ha|by apply added_one].
    rewrite <- low_here by done. apply Hi.
  - intros (Hw' & Hid & Hlow). injection Hid as E1 E2 E3.
    exists ss', lost, bs. unfold pending in *. rewrite E2, E3, app_nil_r.
    split_and!; try done. by eapply onward_step.
Qed.

Lemma wp_appendRecord s ss body now :
  winv (wr s) (fs s) ss → segIdx (wr s) + 1 < 2 ^ 64 → k0 ≤ segIdx (wr s) → recordOk body →
  wp (appendRecord cfg (encodeFrame body) now) (outcome (wr s) ss body) s.
Proof.
  intros Hw H64 H0' Hb. unfold appendRecord, spoolTotalBytes.
  assert (Hcalm : calm (wr s) (wr s)) by (split_and!; done || apply onward_refl).
  assert (Hquit : ∀ e t, wr t = wr s → files (fs t) = files (fs s) →
    entries (fs t) = entries (fs s) → outcome (wr s) ss body (Err e) t).
  { intros e t Ew E1 E2. eapply outcome_quiet; [constructor| |by rewrite Ew].
    rewrite Ew. by eapply winv_same. }
  do 3 wp_step. apply sysPlain_same in E as [E1 E2].
  destruct ok; [|by apply Hquit]. wp_step. injection E as <- <-. do 2 wp_step.
  destruct (negb _); [|by apply Hquit]. do 3 wp_step. cbn [wr fs].
  assert (Hw1 : winv (wr s) t ss) by by eapply winv_same.
  destruct (outage (wr s)) as [o|] eqn:Ho.
  - wp_step. eapply wp_mono; [apply wp_lossFrame|]. intros [l|e] t' [-> Hl]; [|by apply Hquit].
    destruct (Hl l eq_refl) as (b & o' & -> & Hb' & Hrec & Hwt).
    do 2 wp_step. eapply wp_mono; [by apply (wp_makeRoom _ ss)|].
    intros [[]|e] u (ss1 & Ha1 & Hw1' & Hcalm1 & Hd1); [|by eapply outcome_quiet].
    wp_step. eapply wp_mono; [apply (wp_writeLoss _ ss1); [done|by apply Hd1|done]|].
    intros [[]|e] v.
    + intros (ss2 & Ha2 & Hw2 & Hd2 & Hi2 & Hc2 & Ho2). destruct Hcalm1 as (Hi1 & Ho1 & Hc1).
      cbn [wr] in *.
      eapply (wp_event _ _ _ ss2 _ [b] [o']); try done.
      * eapply (added_trans _ _ _ []); [|exact Ha1|exact Ha2].
        rewrite <- low_here by by apply Hd1. apply Hi1.
      * by repeat constructor.
      * eapply onward_step; [done..|]. by apply low_undamaged; [|apply Hd1].
      * congruence.
      * unfold pending. rewrite Ho2, Ho. cbn. lia.
      * by left.
    + intros Hh. eapply outcome_quiet; [exact Ha1|apply Hh|by eapply calm_held].
  - do 2 wp_step. eapply wp_mono; [by apply (wp_makeRoom _ ss)|].
    intros [[]|e] u (ss1 & Ha1 & Hw1' & Hcalm1 & Hd1); [|by eapply outcome_quiet].
    do 2 wp_step. destruct Hcalm1 as (Hi1 & Ho1 & Hc1). cbn [wr] in *.
    eapply (wp_event _ _ _ ss1 _ [] []); try done; [by apply Hd1| |by right].
    unfold pending. by rewrite Ho1.
Qed.

(** * Which errors are refusals *)

(** A record rejected for its own content, or after [Close], is not refused. *)
Definition refusal (e : SpoolErr) : bool :=
  match e with ErrAppendAfterClose | ErrMarshal | ErrRecordTooLong => false | _ => true end.

Definition fails {A} (m : M A) : Prop :=
  ∀ s, wp m (λ r _, match r with Err e => refusal e = true | Ok _ => True end) s.

Lemma fails_bind {A B} (m : M A) (k : A → M B) : fails m → (∀ a, fails (k a)) → fails (m ≫= k).
Proof.
  intros Hm Hk s. apply wp_bind. eapply wp_mono; [apply Hm|]. intros [a|e] t; [|done].
  intros _. apply Hk.
Qed.

Lemma fails_attempt {A} (m : M A) : fails (attempt m).
Proof. intros s. apply wp_attempt. by unfold wp. Qed.

Lemma fails_throw {A} e : refusal e = true → fails (throw (A := A) e).
Proof. by intros He s. Qed.

Lemma fails_orElse {A} (m : M A) h : (∀ e, fails (h e)) → fails (orElse m h).
Proof.
  intros Hh s. apply wp_orElse. unfold wp at 1. destruct (m s).1; [done|]. apply Hh.
Qed.

Lemma fails_ensure b e : refusal e = true → fails (ensure b e).
Proof. by intros He s; destruct b. Qed.

Lemma fails_some {A} (o : option A) e : refusal e = true → fails (some o e).
Proof. by intros He s; destruct o. Qed.

Lemma fails_need f e : refusal e = true → fails (need f e).
Proof. intros He s. apply wp_need. intros [] t _; done. Qed.

Ltac fails_step :=
  lazymatch goal with
  | |- fails ?m =>
    lazymatch m with
    | mbind _ _ => apply fails_bind; [|intros ?]
    | mret _ => by intros ?
    | throw _ => apply fails_throw; first [reflexivity|assumption]
    | getw _ => by intros ?
    | putw _ => by intros ?
    | io _ => intros ?; apply wp_io; by intros
    | ensure _ _ => by apply fails_ensure
    | some _ _ => by apply fails_some
    | need _ _ => by apply fails_need
    | attempt _ => apply fails_attempt
    | match ?x with _ => _ end => destruct x
    end
  end.

Lemma fails_writeFrame frame what : fails (writeFrame frame what).
Proof. unfold writeFrame, writeAtOffset, damage. repeat fails_step. Qed.

Lemma createSegment_fails : fails (createSegment cfg).
Proof. unfold createSegment, discard. repeat fails_step. Qed.

Lemma fails_advance : fails (advance cfg).
Proof.
  unfold advance. repeat fails_step. intros s. apply wp_orElse.
  eapply wp_mono; [apply createSegment_fails|]. intros [[]|e] t He; [done|].
  assert (Hf : fails (damage ≫= λ _ : (), throw (A := ()) e)) by (unfold damage; repeat fails_step).
  apply Hf.
Qed.

Lemma fails_appendRecord rec_ now : fails (appendRecord cfg rec_ now).
Proof.
  unfold appendRecord, spoolTotalBytes, lossFrame, makeRoom, writeLoss, writeStatus.
  repeat fails_step; apply fails_advance || apply fails_writeFrame.
Qed.

(** * The operations *)

Context (errText : SpoolErr → string).

Lemma wp_refuse k s ss env now e :
  winv (wr s) (fs s) ss → counted k (wr s) → 0 ≤ k < Int.MaxUint64 →
  wp (refuse cfg errText (A := unit) env now e) (λ r t, r = Err e ∧ winv (wr t) (fs t) ss ∧
    segIdx (wr t) = segIdx (wr s) ∧ damaged (wr t) = damaged (wr s) ∧
    closed (wr t) = closed (wr s) ∧ counted (k + 1) (wr t) ∧ pending (wr t) = pending (wr s) + 1) s.
Proof.
  intros Hw Hk Hm. unfold refuse. do 3 wp_step.
  eapply wp_mono; [apply wp_writeStatus|]. intros r t (-> & Hwt & Hf & He). wp_step.
  cbn [wr fs] in *. rewrite Hwt.
  assert (Hb : ∀ n, 0 ≤ n ≤ k → (if n <? Int.MaxUint64 then n + 1 else n) = n + 1).
  { intros n Hn. destruct (Z.ltb_spec n Int.MaxUint64); lia. }
  split_and!; try done.
  - eapply winv_same; [exact Hf|exact He|]. by eapply winv_writer; [..|exact Hw].
  - unfold counted, refused, weight in *. cbn. intros o [= <-].
    destruct (outage (wr s)) as [o|]; cbn; [destruct (Hk o eq_refl) as (? & ? & ?)|];
      destruct (_ =? GuestReported)%string; cbn; rewrite Hb by lia; lia.
  - unfold counted, refused, pending, weight in *. cbn.
    destruct (outage (wr s)) as [o|]; cbn; [destruct (Hk o eq_refl) as (? & ? & ?)|];
      destruct (_ =? GuestReported)%string; cbn; rewrite Hb by lia; lia.
Qed.

Definition refusedBy (r : result SpoolErr unit) : Z :=
  match r with Err e => if refusal e then 1 else 0 | Ok _ => 0 end.

(** What one operation does to the records and the counts. *)
Definition did (w : Writer) (ss : Segs) (ack : list Envelope) (n : Z) (w' : Writer)
    (ss' : Segs) : Prop :=
  ∃ rs bs, added (low w) ss bs ss' ∧ Forall2 recBody rs bs ∧ eventsOf rs = ack ∧
    total (lossesOf rs) + pending w' = pending w + n ∧ onward w w'.

Lemma eventsOf_losses lost : eventsOf (inr <$> lost) = [].
Proof. by induction lost. Qed.

Lemma lossesOf_losses lost : lossesOf (inr <$> lost) = lost.
Proof. induction lost as [|o l IH]; [done|]. cbn. by f_equal. Qed.

Lemma total_app l k : total (l ++ k) = total l + total k.
Proof.
  induction l as [|o l IH]; [done|].
  change (weight o + total (l ++ k) = weight o + total l + total k). lia.
Qed.

Lemma wp_Append k s ss env now :
  winv (wr s) (fs s) ss → closed (wr s) = false → counted k (wr s) → 0 ≤ k < Int.MaxUint64 →
  segIdx (wr s) + 1 < 2 ^ 64 → k0 ≤ segIdx (wr s) →
  wp (Append cfg errText env now) (λ r t, ∃ ss',
    winv (wr t) (fs t) ss' ∧ closed (wr t) = false ∧ counted (k + 1) (wr t) ∧
    did (wr s) ss (if is_ok r then [env] else []) (refusedBy r) (wr t) ss') s.
Proof.
  intros Hw Hc Hk Hm H64 H0'. unfold Append. do 2 wp_step. rewrite Hc.
  assert (Hnone : ∀ e, refusal e = false → ∃ ss', winv (wr s) (fs s) ss' ∧
    closed (wr s) = false ∧ counted (k + 1) (wr s) ∧
    did (wr s) ss [] (refusedBy (Err e)) (wr s) ss').
  { intros e He. exists ss. unfold refusedBy. rewrite He. split_and!; [done..| |].
    - intros o Ho. destruct (Hk o Ho). lia.
    - exists [], []. split_and!; try done; first [apply added_nil|apply onward_refl|cbn; lia]. }
  do 2 wp_step. destruct (marshal env) as [b|] eqn:Eb; [|by apply Hnone]. do 2 wp_step.
  destruct (Z.ltb_spec maxRecordBytes (Z.of_nat (length b))) as [|Hl]; [by apply Hnone|].
  cbn [negb]. wp_step.
  assert (Hb : recordOk b) by by eapply marshal_ok.
  pose proof (fails_appendRecord (encodeFrame b) now s) as Hfail.
  pose proof (wp_appendRecord s ss b now Hw H64 H0' Hb) as Hout. unfold wp in Hfail, Hout |- *.
  destruct (appendRecord cfg (encodeFrame b) now s) as [[[]|e] t]; cbn [fst snd] in *;
    destruct Hout as (ss' & lost & bs & Ha & Hw' & HF & Hi & Hcl & Ht & Ho); cbn [is_ok] in Ha.
  - exists ss'. split_and!; [done|congruence| |].
    + intros o E. destruct Ho as [Ho|Ho]; [congruence|]. rewrite Ho in E. destruct (Hk o E). lia.
    + exists ((inr <$> lost) ++ [inl env]), (bs ++ [b]). split_and!; try done.
      * apply Forall2_app; [done|]. by repeat constructor.
      * unfold eventsOf. rewrite omap_app. fold (eventsOf (inr <$> lost)).
        by rewrite eventsOf_losses.
      * unfold lossesOf. rewrite omap_app. fold (lossesOf (inr <$> lost)).
        rewrite lossesOf_losses. cbn. rewrite app_nil_r. lia.
  - rewrite app_nil_r in Ha.
    assert (Hk' : counted k (wr t)).
    { intros o E. destruct Ho as [Ho|Ho]; [congruence|]. rewrite Ho in E. by apply Hk. }
    destruct (wp_refuse k t ss' env now e Hw' Hk' Hm) as (E1 & E2 & E3 & E3' & E4 & E5 & E6).
    unfold wp in *. rewrite E1. exists ss'. split_and!; [done|congruence|done|].
    exists (inr <$> lost), bs. cbn [is_ok refusedBy]. rewrite Hfail, eventsOf_losses, lossesOf_losses.
    split; [done|]. split; [done|]. split; [done|]. split; [lia|].
    eapply onward_step; [done..|]. by rewrite (low_eq _ _ E3 E3').
Qed.

(** The loss record [Close] tries to write. *)
Lemma wp_recordOutage s ss o now :
  winv (wr s) (fs s) ss → outage (wr s) = Some o → segIdx (wr s) + 1 < 2 ^ 64 →
  k0 ≤ segIdx (wr s) →
  wp (recordOutage cfg o now) (λ _ t, ∃ ss' lost bs, added (low (wr s)) ss bs ss' ∧
    winv (wr t) (fs t) ss' ∧ Forall2 recBody (inr <$> lost) bs ∧
    onward (wr s) (wr t) ∧ closed (wr t) = closed (wr s) ∧
    total lost + pending (wr t) = pending (wr s) ∧
    (outage (wr t) = None ∨ outage (wr t) = outage (wr s))) s.
Proof.
  intros Hw Ho H64 H0'. unfold recordOutage.
  assert (Hcalm : calm (wr s) (wr s)) by (split_and!; done || apply onward_refl).
  assert (Hq : ∀ ss1 t, added (low (wr s)) ss [] ss1 → winv (wr t) (fs t) ss1 → calm (wr s) (wr t) →
    ∃ ss' lost bs, added (low (wr s)) ss bs ss' ∧
    winv (wr t) (fs t) ss' ∧ Forall2 recBody (inr <$> lost) bs ∧
    onward (wr s) (wr t) ∧ closed (wr t) = closed (wr s) ∧
    total lost + pending (wr t) = pending (wr s) ∧
    (outage (wr t) = None ∨ outage (wr t) = outage (wr s))).
  { intros ss1 t Ha Hw1 Hc1. destruct (outcome_quiet _ _ [] ErrCreate _ _ Ha Hw1 Hc1)
      as (ss' & lost & bs & Ha' & Hrest). rewrite app_nil_r in Ha'. eauto 10. }
  wp_step. eapply wp_mono; [apply wp_lossFrame|].
  intros [l|e] t [-> Hl]; [|by apply (Hq ss); [constructor| |]].
  destruct (Hl l eq_refl) as (b & o' & -> & Hb' & Hrec & Hwt).
  wp_step. eapply wp_mono; [by apply (wp_makeRoom _ ss)|].
  intros [[]|e] u (ss1 & Ha1 & Hw1' & Hcalm1 & Hd1); [|by eapply Hq].
  eapply wp_mono; [apply (wp_writeLoss _ ss1); [done|by apply Hd1|done]|].
  intros [[]|e] v.
  - intros (ss2 & Ha2 & Hw2 & Hd2 & Hi2 & Hc2 & Ho2). destruct Hcalm1 as (Hi1 & Ho1 & Hc1).
    exists ss2, [o'], [b]. split_and!; try done; [|by repeat constructor| |congruence| |by left].
    + eapply (added_trans _ _ _ []); [|exact Ha1|exact Ha2].
      rewrite <- low_here by by apply Hd1. apply Hi1.
    + eapply onward_step; [done..|]. by apply low_undamaged; [|apply Hd1].
    + unfold pending. rewrite Ho2, Ho. cbn. lia.
  - intros Hh. eapply Hq; [exact Ha1|apply Hh|by eapply calm_held].
Qed.

Lemma wp_Close k s ss now :
  winv (wr s) (fs s) ss → closed (wr s) = false → counted k (wr s) →
  segIdx (wr s) + 1 < 2 ^ 64 → k0 ≤ segIdx (wr s) →
  wp (Close cfg now) (λ _ t, ∃ ss',
    dirRep (files (fs t)) (entries (fs t)) ss' ∧ closed (wr t) = true ∧ counted k (wr t) ∧
    did (wr s) ss [] 0 (wr t) ss') s.
Proof.
  intros Hw Hc Hk H64 H0'. unfold Close. do 2 wp_step. rewrite Hc. do 4 wp_step.
  set (s1 := mkSt (set_closed true (wr s)) (fs s)).
  assert (Hrest : ∀ (re : result SpoolErr unit) t ss' lost bs, added (low (wr s)) ss bs ss' →
    winv (wr t) (fs t) ss' → Forall2 recBody (inr <$> lost) bs →
    onward (wr s) (wr t) → closed (wr t) = true →
    total lost + pending (wr t) = pending (wr s) →
    (outage (wr t) = None ∨ outage (wr t) = outage (wr s)) →
    wp (f ← getw wf; n ← getw segBytes;
        retireErr ← attempt (retireSegment (hName f) n);
        _ ← writeStatus cfg now; _ ← io sysPlain; o ← getw outage;
        match o, re, retireErr with
        | Some o, Err e, Err r => throw (ErrLossAndRetire o e r)
        | Some o, Err e, Ok _ => throw (ErrLossNotRecorded o e)
        | _, _, Err r => throw r
        | _, _, Ok _ => mret ()
        end) (λ _ t, ∃ ss', dirRep (files (fs t)) (entries (fs t)) ss' ∧
      closed (wr t) = true ∧ counted k (wr t) ∧ did (wr s) ss [] 0 (wr t) ss') t).
  { intros re t ss' lost bs Ha Hwt HF Hi Hcl Ht Ho.
    destruct (winv_old _ _ _ Hwt) as ([i Hold] & _ & _). pose proof Hold as (Hn & _).
    do 6 wp_step. rewrite Hn. eapply wp_mono; [by eapply wp_retire_old|].
    intros r u (Hwu & _ & Hcu). wp_step. eapply wp_mono; [apply wp_writeStatus|].
    intros ? v (-> & Hwv & Hf & He). do 4 wp_step. cbn [wr].
    apply sysPlain_same in E as [E1 E2].
    assert (G : ∀ v', wr v' = wr v → fs v' = t0 → ∃ ss', dirRep (files (fs v')) (entries (fs v')) ss' ∧
      closed (wr v') = true ∧ counted k (wr v') ∧ did (wr s) ss [] 0 (wr v') ss').
    { intros v' Ew Ef. exists ss'. rewrite Ef, E1, E2, Hf, He, Ew, Hwv, Hwu.
      split_and!; [exact Hcu|done| |].
      - intros o E. destruct Ho as [Ho|Ho]; [congruence|]. rewrite Ho in E. by apply Hk.
      - exists (inr <$> lost), bs. rewrite eventsOf_losses, lossesOf_losses.
        split_and!; try done. lia. }
    destruct (outage (wr v)), re, r; by apply G. }
  assert (Hw1 : winv (wr s1) (fs s1) ss) by by eapply winv_writer; [..|exact Hw].
  change (outage (wr s1)) with (outage (wr s)). wp_step.
  destruct (outage (wr s)) as [o|] eqn:Ho.
  - wp_step. eapply wp_mono; [by apply (wp_recordOutage s1 ss o)|].
    intros r t (ss' & lost & bs & Ha & Hw' & HF & Hi & Hcl & Ht & Ho').
    eapply Hrest; try done. by rewrite <- Ho.
  - wp_step. apply (Hrest (Ok ()) s1 ss [] []); try done; [apply added_nil|exact (onward_refl (wr s))|].
    cbn. rewrite Ho. by left.
Qed.

End cfg.

End rep.

(** Only the headers of the segments present matter. *)
Lemma dirRep_ext `{JsonLaws} hd hd' m ents ss :
  (∀ i, i ∈ ss.*1 → hd i = hd' i) → dirRep hd m ents ss → dirRep hd' m ents ss.
Proof.
  intros He [Hs Hf Ha]. split; [done| |done]. intros i bs Hin.
  destruct (Hf i bs Hin) as [Hi (f & Hm & Hsf)]. split; [done|]. exists f. split; [done|].
  unfold segFile, hdr in *. by rewrite <- He by by apply (list_elem_of_fmap_2 fst) in Hin.
Qed.

End Durable.
