(* ===== verification/SpoolCrash.v ===== *)
(** The spool writer over whole executions: opening a directory, any sequence of
    appends and closes under any failures, and a crash at the end. *)

From S2P Require Import Prelude Wire Events Segment SpoolWriter SpoolDurable.
Import Events Segment Writer Durable.

Local Open Scope Z_scope.

Module Crash.

(** * Executions *)

Inductive WOp := WAppend (env : Envelope) (now : Z) | WClose (now : Z).

Section run.
Context `{JsonLaws} (cfg : WriterCfg) (errText : SpoolErr → string).

Definition wexec (o : WOp) : M unit :=
  match o with
  | WAppend env now => Append cfg errText env now
  | WClose now => Close cfg now
  end.

Definition Trace := list (WOp * result SpoolErr unit).

Fixpoint wrun (os : list WOp) (s : St) : Trace * St :=
  match os with
  | [] => ([], s)
  | o :: os =>
    let '(r, s) := wexec o s in
    let '(tr, s) := wrun os s in ((o, r) :: tr, s)
  end.

(** The envelopes whose [Append] returned nil. *)
Definition acked (tr : Trace) : list Envelope :=
  omap (λ x, match x with (WAppend env _, Ok _) => Some env | _ => None end) tr.

(** The number of appends the spool refused. *)
Definition refusedN (tr : Trace) : Z :=
  foldr (λ x n, match x.1 with WAppend _ _ => refusedBy x.2 | WClose _ => 0 end + n) 0 tr.

(** A crash keeps the linked names and the synced bytes; what follows them in a
    file is arbitrary. *)
Definition crash (s s' : FS) : Prop :=
  ∀ name f, files s !! name = Some f → name ∈ entries s →
    ∃ f', files s' !! name = Some f' ∧ take (synced f) (data f) `prefix_of` data f'.

(** ** The invariant of an execution *)

Section good.
Context (hd : Z → string * string) (k0 : Z) (Hk0 : 0 ≤ k0).
Context (Hown : ∀ j, k0 ≤ j → hd j = (cfgVMID cfg, cfgInstanceID cfg)).

Definition good (w : Writer) (s : FS) (ss : Segs) : Prop :=
  if closed w then dirRep hd (files s) (entries s) ss else winv hd w s ss.

Lemma good_rep w s ss : good w s ss → dirRep hd (files s) (entries s) ss.
Proof.
  unfold good. destruct (closed w); [done|]. by intros (_ & ? & _)%winv_old.
Qed.

Lemma did_refl w ss : did cfg w ss [] 0 w ss.
Proof. exists [], []. split_and!; try done; first [apply added_nil|apply onward_refl|cbn; lia]. Qed.

Definition grew (w : Writer) (ss : Segs) (ack : list Envelope) (n k : Z) (w' : Writer)
    (ss' : Segs) : Prop :=
  ∃ rs bs, added (low w) ss bs ss' ∧ Forall2 (recBody cfg) rs bs ∧ eventsOf rs = ack ∧
    total (lossesOf rs) + pending w' = pending w + n ∧
    segIdx w ≤ segIdx w' ≤ segIdx w + k ∧ low w ≤ low w'.

Lemma grew_step w ss a n w1 ss1 a' n' k w2 ss2 :
  did cfg w ss a n w1 ss1 → grew w1 ss1 a' n' k w2 ss2 → grew w ss (a ++ a') (n + n') (1 + k) w2 ss2.
Proof.
  intros (rs & bs & Ha & HF & He & Ht & Hi & Hl) (rs' & bs' & Ha' & HF' & He' & Ht' & Hi' & Hl').
  exists (rs ++ rs'), (bs ++ bs'). split_and!;
    [eapply added_trans; [|done..]; lia|by apply Forall2_app| | |lia..].
  - unfold eventsOf in *. by rewrite omap_app, He, He'.
  - unfold lossesOf in *. rewrite omap_app, total_app. lia.
Qed.

Lemma wexec_good o k s ss :
  good (wr s) (fs s) ss → counted k (wr s) → 0 ≤ k < Int.MaxUint64 →
  segIdx (wr s) + 1 < 2 ^ 64 → k0 ≤ segIdx (wr s) →
  wp (wexec o) (λ r t, ∃ ss', good (wr t) (fs t) ss' ∧ counted (k + 1) (wr t) ∧
    did cfg (wr s) ss (acked [(o, r)]) (refusedN [(o, r)]) (wr t) ss') s.
Proof.
  intros Hg Hk Hm H64 H0'. unfold good in Hg.
  assert (Hk1 : ∀ w, counted k w → counted (k + 1) w).
  { intros w Hw x Hx. destruct (Hw x Hx). lia. }
  destruct (closed (wr s)) eqn:Hc.
  - assert (Hstay : ∃ ss', good (wr s) (fs s) ss' ∧ counted (k + 1) (wr s) ∧
      did cfg (wr s) ss [] 0 (wr s) ss').
    { exists ss. unfold good. rewrite Hc. split_and!; [done|by apply Hk1|apply did_refl]. }
    destruct o; cbn [wexec]; [unfold Append|unfold Close]; do 2 wp_step; rewrite Hc; wp_step;
      exact Hstay.
  - destruct o as [env now|now]; cbn [wexec].
    + eapply wp_mono; [by eapply (wp_Append hd cfg k0)|]. intros r t (ss' & Hw & Hc' & Hk' & Hd).
      exists ss'. unfold good. rewrite Hc'. split_and!; [done..|].
      cbn [acked omap list_omap refusedN foldr fst snd]. rewrite Z.add_0_r. by destruct r.
    + eapply wp_mono; [by eapply (wp_Close hd cfg k0)|]. intros r t (ss' & Hw & Hc' & Hk' & Hd).
      exists ss'. unfold good. rewrite Hc'. split_and!; [done|by apply Hk1|done].
Qed.

Lemma wrun_good os k s ss tr t :
  good (wr s) (fs s) ss → counted k (wr s) → 0 ≤ k → k0 ≤ segIdx (wr s) →
  k + Z.of_nat (length os) ≤ Int.MaxUint64 → segIdx (wr s) + Z.of_nat (length os) < 2 ^ 64 →
  wrun os s = (tr, t) →
  ∃ ss', good (wr t) (fs t) ss' ∧
    grew (wr s) ss (acked tr) (refusedN tr) (Z.of_nat (length os)) (wr t) ss'.
Proof.
  revert k s ss tr. induction os as [|o os IH]; intros k s ss tr Hg Hk Hkp H0' Hm H64; cbn.
  { intros [= <- <-]. exists ss. split; [done|]. exists [], [].
    split_and!; try done; first [apply added_nil|cbn; lia]. }
  cbn [length] in Hm, H64.
  destruct (wexec_good o k s ss) as (ss1 & Hg1 & Hk1 & Hd1); [done..|lia|lia|done|].
  unfold wp in *. destruct (wexec o s) as [r s1]; cbn [fst snd] in *.
  destruct (wrun os s1) as [tr' t'] eqn:Er. intros [= <- <-].
  assert (Hi : segIdx (wr s) ≤ segIdx (wr s1) ≤ segIdx (wr s) + 1)
    by (destruct Hd1 as (? & ? & ? & ? & ? & ? & []); done).
  destruct (IH (k + 1) s1 ss1 tr') as (ss2 & Hg2 & Hgrew); [done..|lia|lia|lia|lia|done|].
  exists ss2. split; [done|].
  pose proof (grew_step _ _ _ _ _ _ _ _ _ _ _ Hd1 Hgrew) as G.
  assert (Ea : acked ((o, r) :: tr') = acked [(o, r)] ++ acked tr').
  { unfold acked. cbn. destruct o as [env now|now], r; reflexivity. }
  assert (En : refusedN ((o, r) :: tr') = refusedN [(o, r)] + refusedN tr')
    by (unfold refusedN; cbn [foldr]; lia).
  rewrite Ea, En, Nat2Z.inj_succ, <- Z.add_1_l. exact G.
Qed.

End good.

(** ** The writer never touches the import cursor *)

Definition keepsCur {A} (m : M A) : Prop := ∀ s, cursorFile (fs (m s).2) = cursorFile (fs s).

Lemma keepsCur_bind {A B} (m : M A) (k : A → M B) :
  keepsCur m → (∀ a, keepsCur (k a)) → keepsCur (m ≫= k).
Proof.
  intros Hm Hk s. unfold mbind, M_bind. specialize (Hm s).
  destruct (m s) as [[a|e] t]; cbn in *; [|done]. by rewrite Hk.
Qed.

Lemma keepsCur_attempt {A} (m : M A) : keepsCur m → keepsCur (attempt m).
Proof. intros Hm s. unfold attempt. specialize (Hm s). by destruct (m s). Qed.

Lemma keepsCur_orElse {A} (m : M A) h :
  keepsCur m → (∀ e, keepsCur (h e)) → keepsCur (orElse m h).
Proof.
  intros Hm Hh s. unfold orElse. specialize (Hm s).
  destruct (m s) as [[a|e] t]; cbn in *; [done|]. by rewrite Hh.
Qed.

Lemma keepsCur_io {A} (f : FS → A * FS) :
  (∀ s, cursorFile (f s).2 = cursorFile s) → keepsCur (io f).
Proof. intros Hf s. unfold io. specialize (Hf (fs s)). by destruct (f (fs s)). Qed.

(** Of the calls, none writes the cursor. *)
Lemma sys_cursor s : cursorFile (sys s).2 = cursorFile s.
Proof. reflexivity. Qed.

Create HintDb cursor.
Ltac sys_cursor_tac :=
  intros; unfold sysPlain, sysSync, sysTruncate, sysWriteAt, sysCreate, sysRemove, sysSyncDir, sysStatus;
  match goal with
  | |- context [sys ?s] =>
    let r := fresh "r" in let t := fresh "t" in let E := fresh "E" in
    pose proof (sys_cursor s) as E; destruct (sys s) as [r t]; cbn in E; rewrite <- E
  end.

Lemma cursor_sysPlain s : cursorFile (sysPlain s).2 = cursorFile s.
Proof. by sys_cursor_tac. Qed.
Lemma cursor_sysSync name s : cursorFile (sysSync name s).2 = cursorFile s.
Proof. sys_cursor_tac. by destruct r. Qed.
Lemma cursor_sysTruncate name n s : cursorFile (sysTruncate name n s).2 = cursorFile s.
Proof. sys_cursor_tac. by destruct r. Qed.
Lemma cursor_sysWriteAt name bs off s : cursorFile (sysWriteAt name bs off s).2 = cursorFile s.
Proof. by sys_cursor_tac. Qed.
Lemma cursor_sysCreate name s : cursorFile (sysCreate name s).2 = cursorFile s.
Proof. sys_cursor_tac. destruct (files t !! name), r; done. Qed.
Lemma cursor_sysRemove name s : cursorFile (sysRemove name s).2 = cursorFile s.
Proof. sys_cursor_tac. by destruct r. Qed.
Lemma cursor_sysSyncDir s : cursorFile (sysSyncDir s).2 = cursorFile s.
Proof. sys_cursor_tac. by destruct r. Qed.
Lemma cursor_sysStatus h s : cursorFile (sysStatus h s).2 = cursorFile s.
Proof. sys_cursor_tac. by destruct r as [|[]]. Qed.
#[local] Hint Resolve cursor_sysPlain cursor_sysSync cursor_sysTruncate cursor_sysWriteAt
  cursor_sysCreate cursor_sysRemove cursor_sysSyncDir cursor_sysStatus : cursor.

Ltac keepsCur_step :=
  lazymatch goal with
  | |- keepsCur ?m =>
    lazymatch m with
    | mbind _ _ => apply keepsCur_bind; [|intros ?]
    | need _ _ => unfold need
    | ensure ?b _ => unfold ensure; destruct b
    | some ?o _ => unfold some; destruct o
    | attempt _ => apply keepsCur_attempt
    | orElse _ _ => apply keepsCur_orElse; [|intros ?]
    | io _ => apply keepsCur_io; intros ?; first [solve [auto with cursor]|reflexivity]
    | match ?x with _ => _ end => destruct x
    | let _ := _ in _ => cbv zeta
    | _ => exact (λ s, eq_refl)
    end
  end.

Lemma keepsCur_writeStatus now : keepsCur (writeStatus cfg now).
Proof. unfold writeStatus. repeat keepsCur_step. Qed.

Lemma keepsCur_writeFrame frame what : keepsCur (writeFrame frame what).
Proof. unfold writeFrame, writeAtOffset, damage. repeat keepsCur_step. Qed.

Lemma keepsCur_create : keepsCur (createSegment cfg).
Proof. unfold createSegment, discard. repeat keepsCur_step. Qed.

Lemma keepsCur_retire name n : keepsCur (retireSegment name n).
Proof. unfold retireSegment. repeat keepsCur_step. Qed.

Lemma keepsCur_makeRoom n : keepsCur (makeRoom cfg n).
Proof.
  unfold makeRoom, advance, damage.
  repeat first [apply keepsCur_create|apply keepsCur_retire|keepsCur_step].
Qed.

Lemma keepsCur_lossFrame o now : keepsCur (lossFrame cfg o now).
Proof. unfold lossFrame. repeat keepsCur_step. Qed.

Lemma keepsCur_writeLoss loss now : keepsCur (writeLoss cfg loss now).
Proof.
  unfold writeLoss.
  repeat first [apply keepsCur_writeFrame|apply keepsCur_writeStatus|keepsCur_step].
Qed.

Lemma keepsCur_wexec o : keepsCur (wexec o).
Proof.
  destruct o; cbn [wexec]; [unfold Append, appendRecord, spoolTotalBytes, refuse|
    unfold Close, recordOutage];
    repeat first [apply keepsCur_lossFrame|apply keepsCur_makeRoom|apply keepsCur_writeLoss
      |apply keepsCur_writeFrame|apply keepsCur_writeStatus|apply keepsCur_retire|keepsCur_step].
  by destruct a1, a4.
Qed.

Lemma keepsCur_open now : keepsCur (_ ← createSegment cfg; writeStatus cfg now).
Proof. apply keepsCur_bind; [apply keepsCur_create|intros; apply keepsCur_writeStatus]. Qed.

(** ** Opening *)

Lemma maxIndex_cons n names :
  maxIndex (n :: names) =
  match parseSegmentName n, maxIndex names with
  | Some i, Some m => Some (Z.max i m)
  | Some i, None => Some i
  | None, acc => acc
  end.
Proof. reflexivity. Qed.

Lemma maxIndex_ge names name i :
  name ∈ names → parseSegmentName name = Some i → ∃ m, maxIndex names = Some m ∧ i ≤ m.
Proof.
  induction names as [|n names IH]; intros Hin Hp; [by apply elem_of_nil in Hin|].
  rewrite maxIndex_cons. apply elem_of_cons in Hin as [->|Hin].
  - rewrite Hp. destruct (maxIndex names); eexists; (split; [done|]); lia.
  - destruct (IH Hin Hp) as (m & Em & Hm). rewrite Em.
    destruct (parseSegmentName n); eexists; (split; [done|]); lia.
Qed.

Lemma maxIndex_ok names m : maxIndex names = Some m → indexOk m.
Proof.
  revert m. induction names as [|n names IH]; intros m; [done|]. rewrite maxIndex_cons.
  destruct (parseSegmentName n) as [i|] eqn:Hp; [|by apply IH].
  apply parse_name in Hp as [_ Hi].
  destruct (maxIndex names) as [k|] eqn:E; intros [= <-]; [|done].
  specialize (IH k eq_refl). unfold indexOk in *. lia.
Qed.

Lemma nextSegmentIndex_fresh s idx :
  nextSegmentIndex s = Ok idx →
  0 ≤ idx ∧ (∀ i, indexOk i → is_Some (files s !! segmentName i) → i < idx) ∧
  (∀ c i, cursorFile s = Some c → cSegment c = segmentName i → indexOk i → i < idx).
Proof.
  unfold nextSegmentIndex.
  assert (Hu : ∀ m, indexOk m → Int.u64 (m + 1) = m + 1).
  { intros m [H1 H2]. unfold maxSegmentIndex in H2. apply Int.u64_small. lia. }
  assert (Hmem : ∀ i, indexOk i → is_Some (files s !! segmentName i) →
    ∃ m, maxIndex (elements (dom (files s))) = Some m ∧ i ≤ m).
  { intros i Hi Hs. apply (maxIndex_ge _ (segmentName i)); [|by apply parseSegmentName_segmentName].
    apply elem_of_elements, elem_of_dom. done. }
  destruct (readCursor s) as [c|] eqn:Ec; [|done].
  destruct (String.eqb_spec (cSegment c) "") as [E0|Hne].
  - assert (Hcur : cursorFile s = None).
    { unfold readCursor in Ec. destruct (cursorFile s) as [d|]; [|done].
      case_match eqn:E; [done|]. injection Ec as ->. by rewrite E0 in E. }
    rewrite Hcur. destruct (maxIndex _) as [m|] eqn:Em; intros [= <-].
    + pose proof (maxIndex_ok _ _ Em) as Hm. rewrite Hu by done. destruct Hm.
      split_and!; [lia| |done]. intros i Hi Hs. destruct (Hmem i Hi Hs) as (? & [= <-] & ?). lia.
    + split_and!; [done| |done]. intros i Hi Hs. by destruct (Hmem i Hi Hs) as (? & ? & ?).
  - destruct (parseSegmentName (cSegment c)) as [j|] eqn:Hj; [|done]. intros [= <-].
    apply parse_name in Hj as [Hj Hjo].
    assert (Hcur : ∀ d i, cursorFile s = Some d → cSegment d = segmentName i → indexOk i → i = j).
    { intros d i Hd Hi Hio. unfold readCursor in Ec. rewrite Hd in Ec. case_match; [done|].
      injection Ec as <-. apply segmentName_inj; congruence. }
    destruct (maxIndex _) as [m|] eqn:Em.
    + pose proof (maxIndex_ok _ _ Em) as Hm.
      rewrite Hu by (unfold indexOk in *; lia). destruct Hjo. split_and!; [lia| |].
      * intros i Hi Hs. destruct (Hmem i Hi Hs) as (? & [= <-] & ?). lia.
      * intros d i Hd Hi Hio. rewrite (Hcur d i) by done. lia.
    + rewrite Hu by done. destruct Hjo. split_and!; [lia| |].
      * intros i Hi Hs. by destruct (Hmem i Hi Hs) as (? & ? & ?).
      * intros d i Hd Hi Hio. rewrite (Hcur d i) by done. lia.
Qed.

Definition ownFrom (k : Z) (hd : Z → string * string) (j : Z) : string * string :=
  if j <? k then hd j else (cfgVMID cfg, cfgInstanceID cfg).

Lemma ownFrom_own k hd j : k ≤ j → ownFrom k hd j = (cfgVMID cfg, cfgInstanceID cfg).
Proof. intros Hj. unfold ownFrom. by rewrite (proj2 (Z.ltb_ge _ _)). Qed.

Lemma OpenWriter_good hd now s w s' ss :
  dirRep hd (files s) (entries s) ss → OpenWriter cfg now s = (Ok w, s') →
  winv (ownFrom (segIdx w) hd) w s' (ss ++ [(segIdx w, [])]) ∧
  closed w = false ∧ outage w = None ∧ indexOk (segIdx w) ∧ cursorFile s' = cursorFile s ∧
  (∀ i, i ∈ ss.*1 → i < segIdx w) ∧
  (∀ c i, cursorFile s = Some c → cSegment c = segmentName i → indexOk i → i < segIdx w).
Proof.
  intros Hr. unfold OpenWriter. case_match; [done|]. case_match; [|done].
  destruct (sysPlain s) as [ok1 s1] eqn:E1.
  assert (C1 : cursorFile s1 = cursorFile s) by (unfold sysPlain, sys in E1; by injection E1 as <- <-).
  apply sysPlain_same in E1 as [F1 G1].
  destruct ok1; [|done]. cbn [negb]. destruct (nextSegmentIndex s1) as [idx|] eqn:Ei; [|done].
  destruct (prepareStatus s1) as [ok2 s2] eqn:E2.
  assert (files s2 = files s1 ∧ entries s2 = entries s1 ∧ cursorFile s2 = cursorFile s1)
    as (F2 & G2 & C2).
  { unfold prepareStatus, sys in E2. injection E2 as <- <-. by destruct (default _ _) as [|[]]. }
  destruct ok2; [|done]. cbn [negb].
  apply nextSegmentIndex_fresh in Ei as (H0' & Hlt & Hcur). rewrite C1 in Hcur.
  set (w0 := mkWriter idx _ _ _ _ _ _ _).
  assert (Hlt2 : ∀ j, j ∈ ss.*1 → j < idx).
  { intros j ([j' bs] & -> & Hj)%list_elem_of_fmap.
    destruct (dr_file _ _ _ _ Hr _ _ Hj) as [Hi (f & Hf & _)].
    apply Hlt; [done|]. rewrite F1. by eexists. }
  set (hd' := ownFrom idx hd).
  assert (Hown : ∀ j, idx ≤ j → hd' j = (cfgVMID cfg, cfgInstanceID cfg)).
  { intros j Hj. unfold hd', ownFrom. by rewrite (proj2 (Z.ltb_ge _ _)). }
  assert (Hr2 : dirRep hd' (files s2) (entries s2) ss).
  { rewrite F2, G2, F1, G1. eapply dirRep_ext; [|done]. intros j Hj%Hlt2.
    unfold hd', ownFrom. by rewrite (proj2 (Z.ltb_lt _ _)). }
  assert (Hspec : wp (_ ← createSegment cfg; writeStatus cfg now) (λ r t, r = Ok tt →
    segIdx (wr t) = idx ∧ winv hd' (wr t) (fs t) (ss ++ [(idx, [])]) ∧ closed (wr t) = false ∧
    outage (wr t) = None ∧ indexOk idx) (mkSt w0 s2)).
  { wp_step. eapply wp_mono; [by eapply (wp_createSegment hd' cfg idx)|].
    intros [[]|e] t [_ Hp]; [|done]. destruct Hp as (Hr3 & Hok & Hw & Hc & Hcln).
    eapply wp_mono; [apply wp_writeStatus|]. intros r u (-> & Hwu & Hf & He) _.
    rewrite Hwu, Hw. split_and!; try done.
    left. exists idx, [], []. split.
    2: { intros _. split_and!; try done. eapply clean_same; [|exact Hcln]. by rewrite Hf. }
    split_and!; [done| |].
    - cbn [segBytes set_seg]. eapply Cur_same; [exact Hf|exact He|].
      split; [done| |done]. apply elem_of_app. right. by apply list_elem_of_singleton.
    - intros j. rewrite fmap_app, elem_of_app. cbn.
      intros [Hj%Hlt2|Hj%list_elem_of_singleton]; cbn; lia. }
  assert (Hcf : cursorFile (fs ((_ ← createSegment cfg; writeStatus cfg now) (mkSt w0 s2)).2) =
    cursorFile s2) by apply keepsCur_open.
  unfold wp in Hspec. destruct ((_ ← createSegment cfg; writeStatus cfg now) (mkSt w0 s2))
    as [[[]|e] st]; [|done]. intros [= <- <-].
  destruct (Hspec eq_refl) as (E & Hwi & Hcl & Ho & Hok). cbn [fst snd] in *. rewrite E.
  do 6 (split; [first [done|exact Hlt2|congruence]|]). done.
Qed.

(** An open that fails leaves at most a new file without records. *)
Lemma OpenWriter_fails hd now s e s' ss :
  dirRep hd (files s) (entries s) ss → OpenWriter cfg now s = (Err e, s') →
  cursorFile s' = cursorFile s ∧ ∃ hd' ss', dirRep hd' (files s') (entries s') ss' ∧
    (∀ i, i ∈ ss.*1 → hd i = hd' i) ∧
    (ss' = ss ∨ ∃ i, ss' = ss ++ [(i, [])] ∧ (∀ j, j ∈ ss.*1 → j < i) ∧
      ∀ c j, cursorFile s = Some c → cSegment c = segmentName j → indexOk j → j < i).
Proof.
  intros Hr. unfold OpenWriter.
  assert (Hsame : ∀ t, files t = files s → entries t = entries s → cursorFile t = cursorFile s →
    cursorFile t = cursorFile s ∧ ∃ hd' ss', dirRep hd' (files t) (entries t) ss' ∧
    (∀ i, i ∈ ss.*1 → hd i = hd' i) ∧
    (ss' = ss ∨ ∃ i, ss' = ss ++ [(i, [])] ∧ (∀ j, j ∈ ss.*1 → j < i) ∧
      ∀ c j, cursorFile s = Some c → cSegment c = segmentName j → indexOk j → j < i)).
  { intros t Ef Ee Ec. split; [done|]. exists hd, ss. rewrite Ef, Ee. split_and!; [done..|by left]. }
  case_match; [intros [= <- <-]; by apply Hsame|].
  destruct (LossRecord cfg); [|intros [= <- <-]; by apply Hsame].
  destruct (sysPlain s) as [ok1 s1] eqn:E1.
  assert (C1 : cursorFile s1 = cursorFile s) by (unfold sysPlain, sys in E1; by injection E1 as <- <-).
  apply sysPlain_same in E1 as [F1 G1].
  destruct ok1; cbn [negb]; [|intros [= <- <-]; by apply Hsame].
  destruct (nextSegmentIndex s1) as [idx|] eqn:Ei; [|intros [= <- <-]; by apply Hsame].
  destruct (prepareStatus s1) as [ok2 s2] eqn:E2.
  assert (files s2 = files s1 ∧ entries s2 = entries s1 ∧ cursorFile s2 = cursorFile s1)
    as (F2 & G2 & C2).
  { unfold prepareStatus, sys in E2. injection E2 as <- <-. by destruct (default _ _) as [|[]]. }
  destruct ok2; cbn [negb]; [|intros [= <- <-]; apply Hsame; congruence].
  apply nextSegmentIndex_fresh in Ei as (H0' & Hlt & Hcur). rewrite C1 in Hcur.
  set (w0 := mkWriter idx _ _ _ _ _ _ _).
  assert (Hlt2 : ∀ j, j ∈ ss.*1 → j < idx).
  { intros j ([j' bs] & -> & Hj)%list_elem_of_fmap.
    destruct (dr_file _ _ _ _ Hr _ _ Hj) as [Hi (f & Hf & _)].
    apply Hlt; [done|]. rewrite F1. by eexists. }
  set (hd' := ownFrom idx hd).
  assert (Hhd : ∀ i, i ∈ ss.*1 → hd i = hd' i).
  { intros j Hj%Hlt2. unfold hd', ownFrom. by rewrite (proj2 (Z.ltb_lt _ _)). }
  assert (Hr2 : dirRep hd' (files s2) (entries s2) ss)
    by (rewrite F2, G2, F1, G1; by eapply dirRep_ext).
  assert (Hspec : wp (_ ← createSegment cfg; writeStatus cfg now) (λ r t, r ≠ Ok tt →
    ∃ ss', dirRep hd' (files (fs t)) (entries (fs t)) ss' ∧ (ss' = ss ∨ ss' = ss ++ [(idx, [])]))
    (mkSt w0 s2)).
  { wp_step. eapply wp_mono; [by eapply (wp_createSegment hd' cfg idx); try (intros; by apply ownFrom_own)|].
    intros [[]|e0] t [_ Hp].
    - eapply wp_mono; [apply wp_writeStatus|]. by intros r u (-> & _) ?.
    - intros _. destruct Hp as [_ [->|[_ [Hd|Hd]]]]; eauto. }
  assert (Hcf : cursorFile (fs ((_ ← createSegment cfg; writeStatus cfg now) (mkSt w0 s2)).2) =
    cursorFile s2) by apply keepsCur_open.
  unfold wp in Hspec. destruct ((_ ← createSegment cfg; writeStatus cfg now) (mkSt w0 s2))
    as [[[]|e0] st]; [done|]. intros [= <- <-]. cbn [fst snd] in *.
  destruct Hspec as (ss' & Hd & Hss); [done|]. split; [congruence|]. exists hd', ss'.
  split_and!; [done..|]. destruct Hss as [->| ->]; [by left|right]. by exists idx.
Qed.

End run.

(** * Durability *)

Section durability.
Context `{JsonLaws} (cfg : WriterCfg) (errText : SpoolErr → string).

(** The bytes of a segment with records, after a crash, still start with them. *)
Lemma crash_layout hd m ents ss s' i bs :
  dirRep hd m ents ss → (i, bs) ∈ ss → bs ≠ [] →
  (∀ name f, m !! name = Some f → name ∈ ents →
     ∃ f', files s' !! name = Some f' ∧ take (synced f) (data f) `prefix_of` data f') →
  Forall recordOk bs ∧ ∃ f y, files s' !! segmentName i = Some f ∧
    data f = layout (hdr hd i) bs y.
Proof.
  intros Hr Hin Hne Hc. destruct (dr_file _ _ _ _ Hr _ _ Hin) as [_ (f & Hf & Hs)].
  destruct Hs as [(x & Hd & _ & Hb & [->|[Hsy Hl]])|[-> _]]; [done| |done].
  split; [done|]. destruct (Hc _ _ Hf Hl) as (f' & Hf' & [z Hz]).
  exists f'.
  assert (Hp : layout (hdr hd i) bs [] `prefix_of` data f').
  { rewrite Hz, Hd, (layout_nil _ _ x), take_app_ge by done.
    by do 2 apply prefix_app_r. }
  destruct Hp as [y Hy]. exists y. split; [done|]. by rewrite Hy, <- layout_nil.
Qed.

Lemma dirRep_empty hd : dirRep hd ∅ ∅ [].
Proof.
  split; [constructor|by intros i bs ?%elem_of_nil|]. intros i [f Hf]. done.
Qed.

End durability.

(** C25: What the writer acknowledged survives a crash. Open the writer on any
    well-formed spool directory and run any sequence of appends and closes, every
    system call failing or succeeding in any pattern (after a failed fsync of a
    file no later one covers more of it); then crash, losing every byte and name
    no fsync covered. The records on disk are those the directory
    held before followed, in order, by the acknowledged events with loss records
    between them; each segment that holds records opens and its iterator returns
    them first, whatever follows; and the loss records written plus the outage
    still open account for every refused append. *)
Theorem spool_durable `{JsonLaws} cfg errText hd now s0 ss0 w s1 os tr st s' :
  dirRep hd (files s0) (entries s0) ss0 → OpenWriter cfg now s0 = (Ok w, s1) →
  wrun cfg errText os (mkSt w s1) = (tr, st) → Z.of_nat (length os) < 2 ^ 62 →
  crash (fs st) s' →
  ∃ ss rs bs,
    concat ss.*2 = concat ss0.*2 ++ bs ∧ Forall2 (recBody cfg) rs bs ∧
    eventsOf rs = acked tr ∧ total (lossesOf rs) + pending (wr st) = refusedN tr ∧
    StronglySorted Z.lt ss.*1 ∧
    ∀ i cs, (i, cs) ∈ ss → cs ≠ [] → ∃ f it l eof, files s' !! segmentName i = Some f ∧
      ReadSegment (data f) = Ok it ∧ readAll (data f) it = (omap unmarshal cs ++ l, eof).
Proof.
  intros Hr Ho Hrun Hlen Hc. destruct (OpenWriter_good _ _ _ _ _ _ _ Hr Ho) as (Hw & Hcl & Hou & Hi & _ & _ & _).
  unfold indexOk, maxSegmentIndex in Hi.
  destruct (wrun_good cfg errText (ownFrom cfg (segIdx w) hd) (segIdx w) ltac:(lia)
    (λ j Hj, ownFrom_own cfg (segIdx w) hd j Hj) os 0 (mkSt w s1) (ss0 ++ [(segIdx w, [])]) tr st)
    as (ss & Hg & rs & bs & Ha & HF & He & Ht & _); cbn [wr fs]; try lia; try done.
  { unfold good. by rewrite Hcl. }
  { intros o. by rewrite Hou. }
  { unfold Int.MaxUint64. lia. }
  apply good_rep in Hg. exists ss, rs, bs.
  apply added_concat in Ha. rewrite fmap_app, concat_app in Ha. cbn in Ha. rewrite app_nil_r in Ha.
  split_and!; [done..| |apply Hg|].
  { rewrite Ht. unfold pending. cbn [wr]. by rewrite Hou. }
  intros j cs Hj Hne.
  destruct (crash_layout _ _ _ _ s' _ _ Hg Hj Hne Hc) as (Hb & f & y & Hf & Hd).
  destruct (readAll_layout (hdr (ownFrom cfg (segIdx w) hd) j) cs y Hb) as [fuel E].
  destruct (readFrom (S fuel) _ _) as [l eof]. exists f. eexists _, l, eof.
  split; [done|]. rewrite Hd. split; [apply ReadSegment_layout|exact E].
Qed.

(** ** An execution with an outage *)

#[local] Existing Instances exJson exJsonLaws.

Definition exCfg : WriterCfg :=
  mkCfg "vm" "runner" 64 0 (Some (λ o, Some (exEvent ("loss " +:+ Strconv.FormatInt (weight o))))).

(** The third append fails at its fsync, and so do the trim and the fsync that
    follow; the fourth opens a new segment and records the loss. *)
Definition exOrc : list Sys :=
  replicate 14 SOk ++ [SErr 0; SErr 0; SErr 0; SOk].
Definition exDir : FS := mkFS ∅ ∅ None None exOrc.
Definition exOps : list WOp :=
  [WAppend (exEvent "1") 10; WAppend (exEvent "2") 11; WAppend (exEvent "3") 12;
   WAppend (exEvent "4") 13; WClose 14].

Definition exOpen : Writer * FS :=
  match OpenWriter exCfg 1 exDir with
  | (Ok w, s) => (w, s)
  | (Err _, s) => (mkWriter 0 (mkHandle "" 0) 0 false None false 0 "", s)
  end.
Definition exRun : Trace * St := wrun exCfg (λ _, "refused") exOps (mkSt exOpen.1 exOpen.2).

Lemma crash_keep s : crash s s.
Proof. intros name f Hf _. exists f. split; [done|]. apply prefix_take. Qed.

Lemma spool_durable_witness :
  acked exRun.1 = [exEvent "1"; exEvent "2"; exEvent "4"] ∧ refusedN exRun.1 = 1 ∧
  ∃ rs bs, Forall2 (recBody exCfg) rs bs ∧ eventsOf rs = acked exRun.1 ∧
    total (lossesOf rs) + pending (wr exRun.2) = 1.
Proof.
  assert (Eo : OpenWriter exCfg 1 exDir = (Ok exOpen.1, exOpen.2)) by (vm_compute; reflexivity).
  assert (Er : wrun exCfg (λ _, "refused") exOps (mkSt exOpen.1 exOpen.2) = (exRun.1, exRun.2))
    by (unfold exRun; apply surjective_pairing).
  assert (Hl : Z.of_nat (length exOps) < 2 ^ 62) by (vm_compute; reflexivity).
  assert (Hn : refusedN exRun.1 = 1) by (vm_compute; reflexivity).
  split; [vm_compute; reflexivity|]. split; [exact Hn|].
  destruct (spool_durable exCfg (λ _, "refused") (λ _, ("", "")) 1 exDir [] exOpen.1 exOpen.2 exOps exRun.1
    exRun.2 (fs exRun.2) (dirRep_empty _) Eo Er Hl (crash_keep _)) as (ss & rs & bs & _ & HF & He & Ht & _).
  exists rs, bs. split; [exact HF|]. split; [exact He|]. rewrite Ht. exact Hn.
Defined.

End Crash.
