(* ===== verification/Importer.v ===== *)
(** The spool importer (internal/spool/importer.go, and the directory part of
    reader.go).

    One cycle over a VM's directory is a machine of small steps, each around one
    call that another process can come before or after: a step repairs one
    segment, reads the cursor, appends one envelope to the store, writes the
    cursor, reads one record or prunes one segment. A step that fails ends the
    cycle, as every error of [importVM] does. The store is a [Sink]. *)

From S2P Require Import Prelude Wire Events Segment SpoolWriter.
Import Events Segment Writer.

Local Open Scope Z_scope.

Module Importer.

(** * The store as the importer sees it *)

(** [Append] stored the envelope, had it already, refused it as a conflict with
    one it has ([ErrIntegrityFailure]), or failed. *)
Inductive PutResult := Stored | Duplicate | Conflict | Failed.

Class Sink (S : Type) := {
  Ctx : Type;
  put : Ctx → Envelope → S → PutResult * S;
  holds : Envelope → S → Prop;
  later : S → S → Prop
}.

(** What the importer relies on: an accepted envelope is held, and what is held
    stays, whoever else uses the store. *)
Class SinkLaws (S : Type) `{Sink S} := {
  later_refl k : later k k;
  later_trans k1 k2 k3 : later k1 k2 → later k2 k3 → later k1 k3;
  holds_later env k k' : later k k' → holds env k → holds env k';
  put_later c env k r k' : put c env k = (r, k') → later k k';
  put_holds c env k r k' : put c env k = (r, k') → r = Stored ∨ r = Duplicate → holds env k'
}.

(** * Recovery of a directory *)

Record RecoverReport := mkReport {
  Segments : list string; TruncatedTail : bool; Gaps : list Envelope }.

Definition segLe (x y : Z * string) : Prop := x.1 ≤ y.1.
#[export] Instance segLe_dec x y : Decision (segLe x y) := decide (x.1 ≤ y.1).

(** The names [parseSegmentName] accepts, by index. *)
Definition listSegments (s : FS) : list string :=
  (merge_sort segLe
     (omap (λ name, (λ i, (i, name)) <$> parseSegmentName name) (elements (dom (files s))))).*2.

(** [buildGapEnvelope]. [gapID] stands for [gapSourceInstanceID(vmDir)], a digest
    of the directory's path, and [mtime] for the segment's modification time. *)
Definition buildGapEnvelope (gapID : string) (mtime : string → Z) (seg : string)
    (segIdx corruptCount : nat) : Envelope :=
  mkEnvelope 1 None None None gapID (Strconv.FormatInt (Z.of_nat segIdx))
    "spool.recovery_gap" HostObserved "spool.recovery" (mtime seg) "" "" None None None None []
    (mkQuality PathNotApplicable AttributionNotApplicable false false ""
       ["synthetic gap record emitted by spool recovery"])
    (Some [("affected_segment", JStr seg);
           ("corrupt_record_count", JNum (Z.of_nat corruptCount))]).

(** * The cycle *)

Record ImportStats := mkStats { Appended : Z; Deduped : Z; Pruned : Z }.

Definition addAppended (st : ImportStats) := mkStats (Appended st + 1) (Deduped st) (Pruned st).
Definition addDeduped (n : Z) (st : ImportStats) :=
  mkStats (Appended st) (Deduped st + n) (Pruned st).
Definition addPruned (st : ImportStats) := mkStats (Appended st) (Deduped st) (Pruned st + 1).

(** Where a cycle stands. [cur] is the loop's copy of the cursor and [segs] the
    segments after the current one. *)
Inductive Phase :=
  | PIdle
  | PRecover (todo : list string) (rep : RecoverReport)
  | PGaps (gaps : list Envelope) (segs : list string) (cur : cursor)
  | PSegs (segs : list string) (cur : cursor)
  | PRead (seg : string) (it : SegmentIter) (recIdx resumeFrom : Z) (segs : list string)
      (cur : cursor)
  | PCommit (seg : string) (it : SegmentIter) (recIdx resumeFrom : Z) (segs : list string)
      (cur : cursor)
  | PPrune (seg : string) (reachedEOF : bool) (segs : list string) (cur : cursor).

(** [imported]: the envelopes [onImported] was called with. *)
Record Imp := mkImp { phase : Phase; stats : ImportStats; imported : list Envelope }.

Definition goto (p : Phase) (im : Imp) : Imp := mkImp p (stats im) (imported im).
Definition count (f : ImportStats → ImportStats) (im : Imp) : Imp :=
  mkImp (phase im) (f (stats im)) (imported im).
Definition notify (env : Envelope) (im : Imp) : Imp :=
  mkImp (phase im) (stats im) (imported im ++ [env]).
Definition fail (im : Imp) : Imp := goto PIdle im.

Section cycle.
Context `{Json} {S : Type} `{Sink S} (gapID : string) (mtime : string → Z).

(** One segment of [Recover]'s loop. The error of a truncation or of its fsync
    ends the recovery. *)
Definition recoverStep (name : string) (todo : list string) (rep : RecoverReport) (im : Imp)
    (s : FS) : Imp * FS :=
  let isNewest := match todo with [] => true | _ => false end in
  let '(ok, s) := sysPlain s in
  if negb ok then (fail im, s) else
  match files s !! name with
  | None => (fail im, s)
  | Some f =>
    match recoverSegment (data f) isNewest with
    | Err _ => (fail im, s)
    | Ok Headerless =>
      if isNewest then (goto (PRecover todo rep) im, s) else
      let '(ok, s) := sysRemove name s in
      if negb ok then (fail im, s) else (goto (PRecover todo rep) im, s)
    | Ok (Checked truncated corrupt kept) =>
      let rep' := mkReport (Segments rep ++ [name]) (TruncatedTail rep || truncated)
        (Gaps rep ++ (if (0 <? corrupt)%nat
                      then [buildGapEnvelope gapID mtime name (length (Segments rep)) corrupt]
                      else [])) in
      if truncated then
        let '(ok, s) := sysTruncate name (length kept) s in
        if negb ok then (fail im, s) else
        let '(ok, s) := sysSync name s in
        if negb ok then (fail im, s) else (goto (PRecover todo rep') im, s)
      else (goto (PRecover todo rep') im, s)
    end
  end.

(** [os.Remove] of a segment, counted. *)
Definition prune (seg : string) (next : Phase) (im : Imp) (s : FS) : Imp * FS :=
  let '(ok, s) := sysRemove seg s in
  if negb ok then (fail im, s) else (goto next (count addPruned im), s).

(** A segment before the cursor: counted, and pruned when it reads to its end
    and has the end marker. *)
Definition pastStep (seg : string) (segs : list string) (cur : cursor) (im : Imp) (s : FS)
    : Imp * FS :=
  let '(ok, s) := sysPlain s in
  if negb ok then (fail im, s) else
  match files s !! seg with
  | None => (fail im, s)
  | Some f =>
    match countSegmentRecords (data f) with
    | Err _ => (fail im, s)
    | Ok n =>
      let im := count (addDeduped (Z.of_nat (default 0%nat n))) im in
      match segmentHasEndMarker (data f) with
      | None => (fail im, s)
      | Some closed =>
        if match n with Some _ => closed | None => false end
        then prune seg (PSegs segs cur) im s
        else (goto (PSegs segs cur) im, s)
      end
    end
  end.

Definition openStep (seg : string) (segs : list string) (cur : cursor) (im : Imp) (s : FS)
    : Imp * FS :=
  let '(ok, s) := sysPlain s in
  if negb ok then (fail im, s) else
  match files s !! seg with
  | None => (fail im, s)
  | Some f =>
    match ReadSegment (data f) with
    | Err _ => (fail im, s)
    | Ok it =>
      let resumeFrom := if (cSegment cur =? seg)%string then cRecord cur + 1 else 0 in
      (goto (PRead seg it 0 resumeFrom segs cur) im, s)
    end
  end.

(** One round of the record loop, up to the store's answer. *)
Definition readStep (c : Ctx) (seg : string) (it : SegmentIter) (recIdx resumeFrom : Z)
    (segs : list string) (cur : cursor) (im : Imp) (s : FS) (k : S) : Imp * FS * S :=
  match files s !! seg with
  | None => (fail im, s, k)
  | Some f =>
    let closeWith eof :=
      let '(ok, s) := sysPlain s in
      if negb ok then (fail im, s, k) else (goto (PPrune seg eof segs cur) im, s, k) in
    match Segment.Next (data f) it with
    | (_, NEOF) => closeWith true
    | (_, NCorrupt) => closeWith false
    | (it', NEnv env) =>
      if recIdx <? resumeFrom then
        (goto (PRead seg it' (recIdx + 1) resumeFrom segs cur) (count (addDeduped 1) im), s, k)
      else
        let commit := PCommit seg it' recIdx resumeFrom segs cur in
        match put c env k with
        | (Stored, k) => (goto commit (notify env (count addAppended im)), s, k)
        | (Duplicate, k) => (goto commit (count (addDeduped 1) im), s, k)
        | (Conflict, k) | (Failed, k) => (fail im, s, k)
        end
    end
  end.

(** [writeCursor]: a temporary file, fsynced and renamed. *)
Definition setCursor (c : cursor) (s : FS) : FS :=
  mkFS (files s) (entries s) (Some c) (statusFile s) (orc s).

Definition writeCursor (c : cursor) (s : FS) : bool * FS :=
  let '(r, s) := sys s in (okSys r, if okSys r then setCursor c s else s).

Definition pruneStep (seg : string) (reachedEOF : bool) (segs : list string) (cur : cursor)
    (im : Imp) (s : FS) : Imp * FS :=
  let '(ok, s) := sysPlain s in
  if negb ok then (fail im, s) else
  match files s !! seg with
  | None => (fail im, s)
  | Some f =>
    match segmentHasEndMarker (data f) with
    | None => (fail im, s)
    | Some closed =>
      if reachedEOF && closed then prune seg (PSegs segs cur) im s
      else (goto (PSegs segs cur) im, s)
    end
  end.

(** One step of [importVM]. *)
Definition importStep (c : Ctx) (im : Imp) (s : FS) (k : S) : Imp * FS * S :=
  match phase im with
  | PIdle =>
    let '(ok, s) := sysPlain s in
    if negb ok then (im, s, k) else
    (goto (PRecover (listSegments s) (mkReport [] false [])) im, s, k)
  | PRecover (name :: todo) rep => (recoverStep name todo rep im s, k)
  | PRecover [] rep =>
    match Segments rep with
    | [] => (goto PIdle im, s, k)
    | _ =>
      match readCursor s with
      | Err _ => (fail im, s, k)
      | Ok cur => (goto (PGaps (Gaps rep) (Segments rep) cur) im, s, k)
      end
    end
  | PGaps (gap :: gaps) segs cur =>
    let next := PGaps gaps segs cur in
    match put c gap k with
    | (Stored, k) => (goto next (count addAppended im), s, k)
    | (Duplicate, k) | (Conflict, k) => (goto next (count (addDeduped 1) im), s, k)
    | (Failed, k) => (fail im, s, k)
    end
  | PGaps [] segs cur => (goto (PSegs segs cur) im, s, k)
  | PSegs [] cur => (goto PIdle im, s, k)
  | PSegs (seg :: segs) cur =>
    if negb (cSegment cur =? "")%string && String.ltb seg (cSegment cur)
    then (pastStep seg segs cur im s, k)
    else (openStep seg segs cur im s, k)
  | PRead seg it recIdx resumeFrom segs cur =>
    readStep c seg it recIdx resumeFrom segs cur im s k
  | PCommit seg it recIdx resumeFrom segs cur =>
    let newCur := mkCursor seg recIdx in
    let '(ok, s) := writeCursor newCur s in
    if negb ok then (fail im, s, k)
    else (goto (PRead seg it (recIdx + 1) resumeFrom segs newCur) im, s, k)
  | PPrune seg reachedEOF segs cur => (pruneStep seg reachedEOF segs cur im s, k)
  end.

End cycle.

End Importer.
