(* ===== verification/SpoolImport.v ===== *)
(** The spool end to end: a writer and the importer on one directory, in any
    interleaving of their steps. *)

From S2P Require Import Prelude Wire Events Segment SpoolWriter SpoolDurable SpoolCrash Importer.
Import Events Segment Writer Durable Crash Importer.

Local Open Scope Z_scope.

Module Pipeline.

(** * Moves of the writer *)

(** The segment the writer appends to, when it has one that is fit. *)
Definition active (w : Writer) (i : Z) : Prop :=
  closed w = false ∧ damaged w = false ∧ segIdx w = i.

(** What a step of the writer may do to the records, [j] being the index the
    cursor names: new segments come after every other and after the cursor's, and
    only the active one grows. *)
Record move (j : option Z) (w : Writer) (ss : Segs) (w' : Writer) (ss' : Segs) : Prop := {
  mv_keep i : i ∈ ss.*1 → i ∈ ss'.*1;
  mv_seg i bs' : (i, bs') ∈ ss' →
    ((∀ t, t ∈ ss.*1 → t < i) ∧ (∀ t, j = Some t → t < i)) ∨
    ∃ bs, (i, bs) ∈ ss ∧ (bs' = bs ∨ active w i ∧ bs `prefix_of` bs');
  mv_active i : i ∈ ss.*1 → active w' i → active w i
}.

Lemma added_keep k ss bs ss' i : added k ss bs ss' → i ∈ ss.*1 → i ∈ ss'.*1.
Proof.
  induction 1 as [|ss bs ss' j _ _ IH|ss bs ss0 j cs b _ _ IH]; [done|..]; intros Hi%IH.
  - rewrite fmap_app, elem_of_app. by left.
  - by rewrite fmap_app in *.
Qed.

Lemma added_seg_of k ss bs ss' i cs :
  added k ss bs ss' → StronglySorted Z.lt ss'.*1 → (i, cs) ∈ ss' →
  (k ≤ i ∧ i ∉ ss.*1) ∨ ∃ cs0, (i, cs0) ∈ ss ∧ (cs = cs0 ∨ k ≤ i ∧ cs0 `prefix_of` cs).
Proof.
  intros Ha. revert i cs.
  induction Ha as [ss|ss bs ss' j Hj Ha IH|ss bs ss0 j ds b Hj Ha IH]; intros i cs Hs.
  - intros Hin. right. exists cs. by split; [|left].
  - rewrite fmap_app in Hs. intros [Hin|Hin%list_elem_of_singleton]%elem_of_app.
    { apply IH; [by eapply StronglySorted_app_1_l|done]. }
    injection Hin as -> ->. left. split; [done|]. intros Hin%(added_keep _ _ _ _ _ Ha).
    assert (j < j); [|lia].
    eapply StronglySorted_app_1_elem_of; [exact Hs|done|by apply list_elem_of_singleton].
  - assert (Hs0 : StronglySorted Z.lt (ss0 ++ [(j, ds)]).*1) by by rewrite fmap_app in *.
    intros [Hin|Hin%list_elem_of_singleton]%elem_of_app.
    { apply IH; [done|]. apply elem_of_app. by left. }
    injection Hin as -> ->. destruct (IH j ds) as [?|(cs0 & Hc & Hp)]; [done| |by left|].
    { apply elem_of_app. right. by apply list_elem_of_singleton. }
    right. exists cs0. split; [done|]. right. split; [done|].
    destruct Hp as [->|[_ Hp]]; by apply prefix_app_r.
Qed.

Lemma move_refl j w ss : move j w ss w ss.
Proof. split; [done| |done]. intros i bs' Hi. right. exists bs'. by split; [|left]. Qed.

Section moves.
Context `{JsonLaws} (cfg : WriterCfg) (errText : SpoolErr → string).

(** Every operation of the writer is a move. *)
Lemma did_move hd w s ss ack n w' ss' j :
  winv hd w s ss → closed w = false → StronglySorted Z.lt ss'.*1 →
  did cfg w ss ack n w' ss' → (∀ t, j = Some t → t ≤ segIdx w) → move j w ss w' ss'.
Proof.
  intros Hw Hc Hs (rs & bs & Ha & _ & _ & _ & Hi & Hl) Hj.
  pose proof (low_range w) as Hlow.
  assert (Hle : ∀ t, t ∈ ss.*1 → t ≤ segIdx w) by apply (winv_old _ _ _ _ Hw).
  assert (Hcur : damaged w = false → segIdx w ∈ ss.*1).
  { intros Hd. destruct Hw as [(i & cs & x & (_ & Hcu & _) & Hi')|[Hd' _]]; [|congruence].
    destruct (Hi' Hd) as (<- & _). by eapply Cur_elem. }
  split; [intros i; by eapply added_keep| |].
  - intros i cs Hin. destruct (added_seg_of _ _ _ _ _ _ Ha Hs Hin) as [[Hk Hni]|(cs0 & H0' & Hp)].
    + left. assert (Hlt : segIdx w < i).
      { unfold low in Hk. destruct (damaged w) eqn:Hd; [lia|].
        destruct (decide (i = segIdx w)) as [->|]; [|lia]. by destruct Hni; apply Hcur. }
      split; [intros t Ht%Hle; lia|intros t Ht%Hj; lia].
    + right. exists cs0. split; [done|]. destruct Hp as [->|[Hk Hp]]; [by left|]. right.
      assert (i ≤ segIdx w) by (apply Hle; by apply (list_elem_of_fmap_2 fst) in H0').
      split; [|done]. unfold low in Hk. destruct (damaged w) eqn:Hd; [lia|].
      split_and!; [done..|lia].
  - intros i Hin (_ & Hd' & <-). rewrite (low_here w' Hd') in Hl. apply Hle in Hin.
    unfold low in Hl. destruct (damaged w) eqn:Hd; [lia|]. split_and!; [done..|lia].
Qed.

End moves.

(** * What the importer does to the directory *)

Section dir.
Context `{JsonLaws} (hd : Z → string * string).

Definition without (i : Z) (ss : Segs) : Segs := filter (λ x, x.1 ≠ i) ss.

Lemma elem_of_without i ss j bs : (j, bs) ∈ without i ss ↔ j ≠ i ∧ (j, bs) ∈ ss.
Proof. unfold without. by rewrite list_elem_of_filter. Qed.

Lemma without_fst i ss j : j ∈ (without i ss).*1 ↔ j ≠ i ∧ j ∈ ss.*1.
Proof.
  rewrite !list_elem_of_fmap. split.
  - intros ([k bs] & -> & [? ?]%elem_of_without). eauto.
  - intros [Hne ([k bs] & -> & Hin)]. exists (k, bs). by rewrite elem_of_without.
Qed.

Lemma sorted_without i ss : StronglySorted Z.lt ss.*1 → StronglySorted Z.lt (without i ss).*1.
Proof.
  induction ss as [|[j bs] ss IH]; intros Hs; [done|]. cbn in Hs.
  inversion Hs as [|? ? Hs' Hall]; subst. unfold without. cbn [filter list_filter].
  destruct (decide _); [|by apply IH]. cbn. constructor; [by apply IH|].
  rewrite Forall_forall in *. intros k [_ Hk]%without_fst. by apply Hall.
Qed.

Lemma dirRep_remove m ents ss i :
  dirRep hd m ents ss → indexOk i →
  dirRep hd (delete (segmentName i) m) (ents ∖ {[segmentName i]}) (without i ss).
Proof.
  intros [Hs Hf Ha] Hi. split; [by apply sorted_without| |].
  - intros j bs [Hne Hin]%elem_of_without. destruct (Hf j bs Hin) as [Hj (f & Hm & Hsf)].
    assert (segmentName i ≠ segmentName j) by (apply name_ne; [done..|congruence]).
    split; [done|]. exists f. rewrite lookup_delete_ne by done. split; [done|].
    eapply segFile_linked; [|done]. set_solver.
  - intros j [f Hf'] Hj. apply lookup_delete_Some in Hf' as [Hne Hf']. apply without_fst.
    split; [congruence|]. apply Ha; [by eexists|done].
Qed.

(** The removal of a segment the writer does not append to. *)
Lemma good_remove w s s' ss i :
  good hd w s ss → indexOk i → ¬ active w i →
  files s' = delete (segmentName i) (files s) → entries s' = entries s ∖ {[segmentName i]} →
  good hd w s' (without i ss).
Proof.
  intros Hg Hi Hna Hf He. unfold good in *.
  assert (Hrm : dirRep hd (files s) (entries s) ss →
    dirRep hd (files s') (entries s') (without i ss)).
  { intros Hr. rewrite Hf, He. by apply dirRep_remove. }
  destruct (closed w) eqn:Hc; [by apply Hrm|].
  assert (Hle0 : ∀ j, j ∈ ss.*1 → j ≤ segIdx w) by apply (winv_old _ _ _ _ Hg).
  assert (Hle : ∀ j, j ∈ (without i ss).*1 → j ≤ segIdx w).
  { intros j [_ Hj]%without_fst. by apply Hle0. }
  destruct Hg as [(j & bs & x & (Hn & Hcu & _) & Hd)|[Hd (Hr & _ & j & Hn & Hj & Hjl & Hgn)]].
  - pose proof (Cur_index _ _ _ _ _ _ _ Hcu) as Hj. specialize (Hrm (cu_rep _ _ _ _ _ _ _ Hcu)).
    destruct (decide (j = i)) as [->|Hne].
    + right. split.
      { destruct (damaged w) eqn:Hdam; [done|]. destruct (Hd eq_refl) as (-> & _).
        destruct Hna. done. }
      split_and!; [done..|]. exists i. split_and!; [done..| |by rewrite Hf, lookup_delete_eq].
      apply Hle0. by eapply Cur_elem.
    + assert (Hnn : segmentName i ≠ segmentName j) by (apply name_ne; [done..|congruence]).
      left. exists j, bs, x. split.
      * split_and!; [done| |done].
        destruct Hcu as [_ Hin (f & Hm & Hd1 & Hn1 & Hs1 & He1 & Hb & Hx)].
        split; [done|by apply elem_of_without|]. exists f. rewrite Hf, He, lookup_delete_ne by done.
        split_and!; try done. set_solver.
      * intros Hdam. destruct (Hd Hdam) as (E1 & E2 & E3 & E4). split_and!; [done..|].
        eapply clean_same; [|exact E4]. by rewrite Hf, lookup_delete_ne.
  - right. split; [done|]. split_and!; [by apply Hrm|done|]. exists j. split_and!; [done..|].
    rewrite Hf. destruct (decide (segmentName i = segmentName j)) as [->|];
      [by rewrite lookup_delete_eq|by rewrite lookup_delete_ne].
Qed.

(** A change of the tail of a segment the writer does not append to. *)
Lemma good_file w s s' ss i bs x x' f f' :
  good hd w s ss → (i, bs) ∈ ss → ¬ active w i →
  files s !! segmentName i = Some f → data f = layout (hdr hd i) bs x → tailOk x' →
  data f' = layout (hdr hd i) bs x' →
  (∀ n, (n ≤ length (layout (hdr hd i) bs []))%nat → (n ≤ synced f)%nat → (n ≤ synced f')%nat) →
  files s' = <[segmentName i := f']> (files s) → entries s' = entries s → good hd w s' ss.
Proof.
  intros Hg Hin Hna Hm Hd Hx' Hd' Hsy Hf He. pose proof (good_rep _ _ _ _ Hg) as Hr.
  assert (Hr' : dirRep hd (files s') (entries s') ss).
  { rewrite Hf, He. eapply dirRep_file; [done..|].
    destruct (dr_file _ _ _ _ Hr _ _ Hin) as [_ (g & Hg' & Hsf)]. rewrite Hm in Hg'. injection Hg' as <-.
    left. exists x'. split_and!; [done..| |]; destruct Hsf as [(y & _ & _ & Hb & Hs)|[-> _]];
      try done; try (by left).
    destruct Hs as [?|[? ?]]; [by left|right]. split; [by apply Hsy|done]. }
  unfold good in *. destruct (closed w) eqn:Hc; [done|].
  destruct Hg as [(j & cs & y & (Hn & Hcu & Hle) & Hdam)|[Hdam (_ & Hle & j & Hn & Hj & Hjl & Hgn)]].
  - left. destruct (decide (j = i)) as [->|Hne].
    + assert (cs = bs) as -> by (eapply sorted_index; [apply Hr|apply Hcu|done]).
      exists i, bs, x'. split.
      * split_and!; [done| |done]. eapply (Cur_tail _ _ _ _ _ _ _ y x'); [exact Hcu|done..|].
        intros g Hg' Hgd. rewrite Hm in Hg'. injection Hg' as <-. split; [done|].
        destruct Hcu as [_ _ (g & _ & _ & En & _)]. intros Hle'.
        assert (length (layout (hdr hd i) bs []) ≤ synced f')%nat by (apply Hsy; lia). lia.
      * intros Hd0. destruct Hna. destruct (Hdam Hd0) as (-> & _). done.
    + assert (segmentName i ≠ segmentName j).
      { apply name_ne; [eapply (dr_file _ _ _ _ Hr _ _ Hin)|by eapply Cur_index|congruence]. }
      exists j, cs, y. split.
      * split_and!; [done| |done]. eapply Cur_frame; [exact Hcu|by eapply frame_insert|done..|apply Hcu].
      * intros Hd0. destruct (Hdam Hd0) as (E1 & E2 & E3 & E4). split_and!; [done..|].
        eapply clean_same; [|exact E4]. by rewrite Hf, lookup_insert_ne.
  - right. split; [done|]. split_and!; [done..|]. exists j. split_and!; [done..|].
    rewrite Hf, lookup_insert_ne; [done|]. congruence.
Qed.

Lemma good_same w s s' ss :
  files s' = files s → entries s' = entries s → good hd w s ss → good hd w s' ss.
Proof.
  intros Hf He. unfold good. destruct (closed w); [by rewrite Hf, He|by apply winv_same].
Qed.

(** ** Reading *)

Lemma isDigit_no_slash s : allDigits s = true → hasSlash s = false.
Proof.
  unfold hasSlash. induction s as [|c s IH]; [done|]. cbn. intros [Hc Hs]%andb_true_iff.
  rewrite IH by done. unfold isDigit in Hc. apply andb_true_iff in Hc as [H1' H2']. apply Z.leb_le in H1'.
  rewrite (proj2 (Z.eqb_neq _ _)) by lia. done.
Qed.

Lemma hasSlash_app s t : hasSlash (s +:+ t) = hasSlash s || hasSlash t.
Proof.
  unfold hasSlash. induction s as [|c s IH]; [done|].
  change (String c s +:+ t) with (String c (s +:+ t)). cbn. by rewrite IH, orb_assoc.
Qed.

Lemma hasSlash_segmentName i : indexOk i → hasSlash (segmentName i) = false.
Proof.
  intros Hi. unfold segmentName. rewrite !hasSlash_app.
  destruct (pad_facts i Hi) as [_ Hp]. by rewrite (isDigit_no_slash (pad 16 i)) by by eapply parse_allDigits.
Qed.

Lemma get_last l b : is_byte b → BigEndian.get (l ++ [b]) mod 256 = b.
Proof.
  intros Hb. unfold BigEndian.get. rewrite fold_left_app. cbn [fold_left].
  rewrite BigEndian.lor_shift by done. rewrite Z.add_comm, Z.mul_comm, Z.mod_add by lia.
  by apply Z.mod_small.
Qed.

Lemma no_marker d b :
  last d = Some b → is_byte b → b ≠ 255 → segmentHasEndMarker d ≠ Some true.
Proof.
  intros Hl Hb Hne. apply last_Some in Hl as [l ->]. unfold segmentHasEndMarker.
  rewrite length_app. cbn [length]. destruct (Nat.ltb_spec (length l + 1) 4); [done|].
  intros [= E%Z.eqb_eq].
  replace (length l + 1 - 4)%nat with (length l - 3)%nat in E by lia.
  rewrite drop_app_le in E by lia. unfold BigEndian.Uint32 in E.
  rewrite take_ge in E by (rewrite length_app, length_drop; cbn; lia).
  pose proof (get_last (drop (length l - 3) l) b Hb) as Hg. rewrite E in Hg. by subst b.
Qed.

(** A segment that ends with its last record has no end marker. *)
Lemma layout_no_marker h bs :
  Forall recordOk bs → segmentHasEndMarker (layout h bs []) ≠ Some true.
Proof.
  intros Hb. destruct bs as [|b bs] using rev_ind; [|clear IHbs].
  - apply (no_marker _ newline); [|done..]. unfold layout, headerLine, frames. cbn.
    rewrite app_nil_r. apply last_snoc.
  - apply Forall_app in Hb as [_ Hb]. apply Forall_singleton in Hb as (_ & _ & Hl).
    apply (no_marker _ 125); [|done..]. unfold layout. rewrite app_nil_r, frames_snoc.
    unfold encodeFrame. apply last_Some in Hl as [l ->]. rewrite !app_assoc. apply last_snoc.
Qed.

(** What a tail reads as. *)
Lemma tail_record x : tailOk x → quiet x ∨ ∃ b, recordOk b ∧ x = encodeFrame b.
Proof.
  intros [(b & Hb & Hp)|Hp].
  - destruct (decide (length x < length (encodeFrame b))%nat).
    + left. left. eapply record1_torn; [apply Hb|done..].
    + right. exists b. split; [done|]. destruct Hp as [y Hy].
      assert (y = []) as ->; [|by rewrite app_nil_r in Hy].
      apply (f_equal length) in Hy. rewrite length_app in Hy. apply nil_length_inv. lia.
  - left. destruct Hp as [y Hy]. destruct (decide (length x < 4)%nat).
    + left. unfold record1. by destruct (ReadFull_torn 4 x) as [e ->].
    + right. assert (y = []) as ->.
      { apply (f_equal length) in Hy. rewrite length_app in Hy.
        change (length marker) with 4%nat in Hy. apply nil_length_inv. lia. }
      rewrite app_nil_r in Hy. rewrite <- Hy, <- (app_nil_r marker). apply record1_marker.
Qed.

Lemma recover_seg m ents ss i bs f newest r :
  dirRep hd m ents ss → (i, bs) ∈ ss → m !! segmentName i = Some f →
  recoverSegment (data f) newest = Ok r →
  match r with
  | Headerless => bs = []
  | Checked truncated _ kept => truncated = true →
      kept = layout (hdr hd i) bs [] ∧ ∃ x, data f = layout (hdr hd i) bs x
  end.
Proof.
  intros Hr Hin Hm. destruct (dr_file _ _ _ _ Hr _ _ Hin) as [_ (g & Hg & Hsf)].
  rewrite Hm in Hg. injection Hg as <-. destruct Hsf as [(x & -> & Hx & Hb & _)|[-> Hp]].
  - pose proof (recordOk_bodyOk _ Hb) as Hb'.
    destruct (tail_record x Hx) as [Hq|(b & Hob & ->)].
    + unfold hdr. rewrite recoverSegment_layout by done.
      destruct (record1 x); try (intros [= <-]; done).
      destruct (newest || _); intros [= <-]; [done|]. intros _. split; [done|by exists x].
    + assert (El : layout (hdr hd i) bs (encodeFrame b) = layout (hdr hd i) (bs ++ [b]) [])
        by (unfold layout; by rewrite frames_snoc, app_nil_r).
      rewrite El. unfold hdr.
      rewrite recoverSegment_layout; [|apply Forall_app; rewrite Forall_singleton; split; [done|apply Hob]|by left].
      cbn. rewrite orb_true_r. by intros [= <-].
  - assert (Hn : newline ∉ data f).
    { destruct Hp as [y Hy]. intros Hin'. apply (header_line (hdr hd i)). rewrite Hy.
      apply elem_of_app. by left. }
    unfold recoverSegment. rewrite ReadLine_none by done. by intros [= <-].
Qed.

Lemma frames_app bs cs : frames (bs ++ cs) = frames bs ++ frames cs.
Proof. unfold frames. by rewrite fmap_app, concat_app. Qed.

(** The iterator after [r] records of segment [i]. *)
Definition posOf (i : Z) (bs : list (list Z)) (r : nat) : nat :=
  length (headerLine (hdr hd i) ++ frames (take r bs)).

Lemma Next_seg m ents ss i bs f r :
  dirRep hd m ents ss → (i, bs) ∈ ss → m !! segmentName i = Some f → (r ≤ length bs)%nat →
  (∃ b env, bs !! r = Some b ∧ unmarshal b = Some env ∧
     Segment.Next (data f) (mkIter (posOf i bs r) false) =
       (mkIter (posOf i bs (S r)) false, NEnv env)) ∨
  (r = length bs ∧
    ((∃ it', Segment.Next (data f) (mkIter (posOf i bs r) false) = (it', NEOF)) ∨
     ∃ b env it', data f = layout (hdr hd i) bs (encodeFrame b) ∧
       Segment.Next (data f) (mkIter (posOf i bs r) false) = (it', NEnv env))).
Proof.
  intros Hr Hin Hm Hle. destruct (dr_file _ _ _ _ Hr _ _ Hin) as [_ (g & Hg & Hsf)].
  rewrite Hm in Hg. injection Hg as <-. destruct Hsf as [(x & -> & Hx & Hb & _)|[-> Hp]].
  2: { right. split; [cbn in Hle; cbn; lia|]. left. eexists. apply Next_quiet. left.
       unfold posOf. rewrite take_nil. cbn. rewrite app_nil_r, drop_ge; [done|].
       apply prefix_length in Hp. unfold headerLine. rewrite length_app. lia. }
  assert (Hdrop : drop (posOf i bs r) (layout (hdr hd i) bs x) = frames (drop r bs) ++ x).
  { unfold posOf, layout. rewrite <- (take_drop r bs) at 2.
    by rewrite frames_app, <- app_assoc, (app_assoc (headerLine _)), drop_app_length. }
  destruct (decide (r < length bs)%nat) as [Hlt|Hge].
  - left. destruct (lookup_lt_is_Some_2 bs r Hlt) as [b Hbr].
    rewrite (drop_S _ _ _ Hbr), frames_cons, <- app_assoc in Hdrop.
    pose proof (Forall_lookup_1 _ _ _ _ Hb Hbr) as (Hbo & [env He] & _).
    exists b, env. split_and!; [done..|].
    rewrite (Next_frame _ _ _ _ _ Hdrop Hbo He). f_equal. f_equal. unfold posOf.
    rewrite (take_S_r _ _ _ Hbr), frames_snoc, !length_app, length_encodeFrame. lia.
  - right. split; [lia|]. rewrite (drop_ge bs) in Hdrop by lia. cbn in Hdrop.
    destruct (tail_record x Hx) as [Hq|(b & (Hbo & [env He] & _) & ->)].
    + left. eexists. apply Next_quiet. by rewrite Hdrop.
    + right. exists b, env. eexists. split; [done|].
      rewrite <- (app_nil_r (encodeFrame b)) in Hdrop at 2.
      by apply (Next_frame _ _ _ _ _ Hdrop).
Qed.

End dir.

(** * The invariant *)

Section inv.
Context `{JsonLaws} {S : Type} `{SinkLaws S}.

Section state.
Context (hd : Z → string * string) (w : Writer) (ss : Segs) (k : S).

(** The store holds the envelope of a record. *)
Definition delivered (b : list Z) : Prop := ∃ env, unmarshal b = Some env ∧ holds env k.

(** Every segment before [i] is delivered; so are the first [m] records of [i]. *)
Definition behind (i : Z) : Prop := ∀ t bs, (t, bs) ∈ ss → t < i → Forall delivered bs.
Definition covered (i : Z) (m : nat) : Prop :=
  ∀ bs, (i, bs) ∈ ss → Forall delivered (take m bs) ∧ (active w i → (m ≤ length bs)%nat).

(** A stretch of the directory's segments, the last of which may be growing. *)
Record stretch (ts : list Z) : Prop := {
  st_sorted : StronglySorted Z.lt ts;
  st_in t : t ∈ ts → t ∈ ss.*1;
  st_still t u : t ∈ ts → u ∈ ts → t < u → ¬ active w t;
  st_dense t : t ∈ ss.*1 → t ∈ ts ∨ (∀ u, u ∈ ts → t < u) ∨ (∀ u, u ∈ ts → u < t)
}.

(** The iterator has returned [r] records of segment [i]; or the segment is final
    and all its records are delivered. *)
Definition reading (i : Z) (bs : list (list Z)) (it : SegmentIter) (r : nat) : Prop :=
  ((r ≤ length bs)%nat ∧ it = mkIter (posOf hd i bs r) false ∧ covered i r) ∨
  (¬ active w i ∧ Forall delivered bs).

Definition upto (segs : list string) : Prop :=
  ∃ ts, segs = segmentName <$> ts ∧ stretch ts ∧ ∀ t, head ts = Some t → behind t.

Definition inSeg (seg : string) (segs : list string) (P : Z → list (list Z) → Prop) : Prop :=
  ∃ i ts bs, seg = segmentName i ∧ segs = segmentName <$> ts ∧ stretch (i :: ts) ∧ behind i ∧
    (i, bs) ∈ ss ∧ P i bs.

Definition phaseOk (s : FS) (p : Phase) : Prop :=
  match p with
  | PIdle => True
  | PRecover todo rep => ∃ rs ts, todo = segmentName <$> ts ∧ Segments rep = segmentName <$> rs ∧
      stretch (rs ++ ts) ∧ ∀ t, t ∈ ss.*1 → t ∈ rs ++ ts ∨ ∀ u, u ∈ rs ++ ts → u < t
  | PGaps _ segs cur | PSegs segs cur => readCursor s = Ok cur ∧ upto segs
  | PRead seg it recIdx resume segs cur => readCursor s = Ok cur ∧
      inSeg seg segs (λ i bs, 0 ≤ recIdx ∧ covered i (Z.to_nat resume) ∧
        reading i bs it (Z.to_nat recIdx))
  | PCommit seg it recIdx resume segs cur => readCursor s = Ok cur ∧
      inSeg seg segs (λ i bs, 0 ≤ recIdx ∧ covered i (Z.to_nat resume) ∧
        reading i bs it (Z.to_nat (recIdx + 1)))
  | PPrune seg _ segs cur => readCursor s = Ok cur ∧ inSeg seg segs (λ _ bs, Forall delivered bs)
  end.

(** The durable cursor. *)
Definition cursorOk (c : option cursor) : Prop :=
  ∀ cur, c = Some cur → ∃ j, cSegment cur = segmentName j ∧ indexOk j ∧ 0 ≤ cRecord cur ∧
    (closed w = false → j ≤ segIdx w) ∧ behind j ∧ covered j (Z.to_nat (cRecord cur + 1)).

End state.

(** What the phase says survives the other steps. *)

Lemma delivered_later k k' b : later k k' → delivered k b → delivered k' b.
Proof. intros Hl (env & He & Hh). exists env. split; [done|]. by eapply holds_later. Qed.

Lemma Forall_later k k' bs : later k k' → Forall (delivered k) bs → Forall (delivered k') bs.
Proof. intros Hl Hb. eapply Forall_impl; [exact Hb|]. intros b. by apply delivered_later. Qed.

Definition cidx (s : FS) : option Z := c ← cursorFile s; parseSegmentName (cSegment c).

(** Everything about a state that a move of the writer or the store may change. *)
Record carries (j : option Z) (hd : Z → string * string) (w : Writer) (ss : Segs) (k : S)
    (hd' : Z → string * string) (w' : Writer) (ss' : Segs) (k' : S) : Prop := {
  ca_move : move j w ss w' ss';
  ca_later : later k k';
  ca_hd i : i ∈ ss.*1 → hd i = hd' i;
  ca_sorted : StronglySorted Z.lt ss.*1;
  ca_top t : active w t → (∀ i, i ∈ ss.*1 → i ≤ t) ∧ (∀ i, j = Some i → i ≤ t)
}.

Section carry.
Context {j hd w ss k hd' w' ss' k'} (C : carries j hd w ss k hd' w' ss' k').

Lemma carry_seg i bs :
  (i, bs) ∈ ss → ∃ bs', (i, bs') ∈ ss' ∧ (bs' = bs ∨ active w i ∧ bs `prefix_of` bs').
Proof.
  intros Hin. destruct C as [[Hk Hs _] _ _ Hso _].
  pose proof (list_elem_of_fmap_2 fst _ _ Hin) as Hi. cbn in Hi.
  pose proof (Hk i Hi) as Hi'. apply list_elem_of_fmap in Hi' as ([i' bs'] & -> & Hin').
  exists bs'. split; [done|]. destruct (Hs _ _ Hin') as [[Hn _]|(bs0 & Hin0 & Hp)].
  - specialize (Hn _ Hi). cbn in Hn. lia.
  - by rewrite (sorted_index ss i' bs bs0).
Qed.

(** Nothing new appears below a known segment. *)
Lemma carry_old i t bs' :
  i ∈ ss.*1 ∨ j = Some i → (t, bs') ∈ ss' → t ≤ i →
  ∃ bs, (t, bs) ∈ ss ∧ (bs' = bs ∨ active w t ∧ bs `prefix_of` bs').
Proof.
  intros Hi Hin Ht. destruct C as [[_ Hs _] _ _ _ _].
  destruct (Hs _ _ Hin) as [[Hn Hj]|?]; [|done].
  destruct Hi as [Hi|Hi]; [specialize (Hn _ Hi)|specialize (Hj _ Hi)]; lia.
Qed.

Lemma carry_behind i :
  i ∈ ss.*1 ∨ j = Some i → behind ss k i → behind ss' k' i.
Proof.
  intros Hi Hb t bs' Hin Hlt. destruct (carry_old i t bs') as (bs & Hin0 & Hp); [done..|lia|].
  assert (Hl : later k k') by apply C. destruct Hp as [->|[Ha _]].
  - eapply Forall_later; [done|]. by eapply Hb.
  - destruct (ca_top _ _ _ _ _ _ _ _ _ C t Ha) as [HA HB]. destruct Hi as [Hi|Hi];
      [specialize (HA _ Hi)|specialize (HB _ Hi)]; lia.
Qed.

Lemma carry_active i : i ∈ ss.*1 → active w' i → active w i.
Proof. apply C. Qed.

Lemma carry_covered i m :
  i ∈ ss.*1 ∨ j = Some i → covered w ss k i m → covered w' ss' k' i m.
Proof.
  intros Hi Hc bs' Hin. destruct (carry_old i i bs') as (bs & Hin0 & Hp); [done..|lia|].
  destruct (Hc bs Hin0) as [Hd Hl]. assert (Hla : later k k') by apply C.
  pose proof (list_elem_of_fmap_2 fst _ _ Hin0) as Hi0. cbn in Hi0.
  destruct Hp as [->|[Ha [tl ->]]].
  - split; [by eapply Forall_later|]. intros Ha. by apply Hl, carry_active.
  - specialize (Hl Ha). rewrite take_app_le by done. split; [by eapply Forall_later|].
    intros _. rewrite length_app. lia.
Qed.

Lemma carry_stretch ts : stretch w ss ts → stretch w' ss' ts.
Proof.
  intros [Hs Hin Hst Hd]. split; [done|intros t Ht; by apply C, Hin| |].
  - intros t u Ht Hu Hlt Ha. apply (Hst t u); [done..|]. apply carry_active; [|done]. by apply Hin.
  - intros t ([t' bs'] & -> & Ht)%list_elem_of_fmap. cbn.
    destruct (mv_seg _ _ _ _ _ (ca_move _ _ _ _ _ _ _ _ _ C) _ _ Ht) as [[Hn _]|(bs & Hin0 & _)].
    + right. right. intros u Hu. by apply Hn, Hin.
    + apply Hd. by apply (list_elem_of_fmap_2 fst) in Hin0.
Qed.

Lemma carry_reading i bs bs' it r :
  (i, bs) ∈ ss → (i, bs') ∈ ss' → bs' = bs ∨ active w i ∧ bs `prefix_of` bs' →
  reading hd w ss k i bs it r → reading hd' w' ss' k' i bs' it r.
Proof.
  intros Hin Hin' Hp. pose proof (list_elem_of_fmap_2 fst _ _ Hin) as Hi. cbn in Hi.
  intros [(Hr & -> & Hc)|[Hna Hd]].
  - left. assert (Hpre : bs `prefix_of` bs') by (destruct Hp as [->|[_ ?]]; done).
    destruct Hpre as [tl ->]. split_and!; [rewrite length_app; lia| |].
    + unfold posOf, hdr. rewrite take_app_le by done. by rewrite (ca_hd _ _ _ _ _ _ _ _ _ C i Hi).
    + apply carry_covered; [by left|done].
  - right. destruct Hp as [->|[Ha _]]; [|done]. split; [|by eapply Forall_later; [apply C|]].
    intros Ha. by apply Hna, carry_active.
Qed.

Lemma carry_upto segs : upto w ss k segs → upto w' ss' k' segs.
Proof.
  intros (ts & -> & Hs & Hb). exists ts. split_and!; [done|by apply carry_stretch|].
  intros t Ht. apply carry_behind; [left|by apply Hb].
  apply (st_in _ _ _ Hs). destruct ts as [|u ts]; [done|]. injection Ht as ->. by left.
Qed.

Lemma carry_inSeg seg segs (P P' : Z → list (list Z) → Prop) :
  (∀ i bs bs', seg = segmentName i → (i, bs) ∈ ss → (i, bs') ∈ ss' →
     bs' = bs ∨ active w i ∧ bs `prefix_of` bs' → P i bs → P' i bs') →
  inSeg w ss k seg segs P → inSeg w' ss' k' seg segs P'.
Proof.
  intros HP (i & ts & bs & -> & -> & Hs & Hb & Hin & Hp).
  destruct (carry_seg i bs Hin) as (bs' & Hin' & Hpre). exists i, ts, bs'.
  split_and!; [done|done|by apply carry_stretch| |done|by eapply HP].
  apply carry_behind; [left|done]. apply (st_in _ _ _ Hs). by left.
Qed.

(** The segment about to be pruned must not grow. *)
Definition quietFor (p : Phase) (w : Writer) : Prop :=
  match p with
  | PPrune seg _ _ _ => ∀ i, seg = segmentName i → ¬ active w i
  | _ => True
  end.

Lemma carry_phase s s' p :
  quietFor p w ∨ ss' = ss → cursorFile s' = cursorFile s →
  phaseOk hd w ss k s p → phaseOk hd' w' ss' k' s' p.
Proof.
  intros Hq Hc. assert (Hrc : readCursor s' = readCursor s) by (unfold readCursor; by rewrite Hc).
  unfold phaseOk. rewrite Hrc. destruct p as [|todo rep|gaps segs cur|segs cur|seg it r m segs cur|
    seg it r m segs cur|seg eof segs cur]; [done| |..].
  - intros (rs & ts & E1 & E2 & Hs & Hd). exists rs, ts.
    split_and!; [done..|by apply carry_stretch|].
    intros t ([t' bs'] & -> & Ht)%list_elem_of_fmap. cbn.
    destruct (mv_seg _ _ _ _ _ (ca_move _ _ _ _ _ _ _ _ _ C) _ _ Ht) as [[Hn _]|(bs & Hin0 & _)].
    + right. intros u Hu. by apply Hn, (st_in _ _ _ Hs).
    + apply Hd. by apply (list_elem_of_fmap_2 fst) in Hin0.
  - intros [? ?]. split; [done|by apply carry_upto].
  - intros [? ?]. split; [done|by apply carry_upto].
  - intros [? Hi]. split; [done|]. eapply carry_inSeg; [|exact Hi].
    intros i bs bs' -> Hin Hin' Hp (Hr & Hm & Hrd). split_and!; [done| |by eapply carry_reading].
    apply carry_covered; [left; by apply (list_elem_of_fmap_2 fst) in Hin|done].
  - intros [? Hi]. split; [done|]. eapply carry_inSeg; [|exact Hi].
    intros i bs bs' -> Hin Hin' Hp (Hr & Hm & Hrd). split_and!; [done| |by eapply carry_reading].
    apply carry_covered; [left; by apply (list_elem_of_fmap_2 fst) in Hin|done].
  - intros [? Hi]. split; [done|]. eapply carry_inSeg; [|exact Hi].
    intros i bs bs' -> Hin Hin' Hp Hd. destruct Hp as [->|[Ha _]].
    + by eapply Forall_later; [apply C|].
    + destruct Hq as [Hq|E]; [by destruct (Hq i)|]. subst ss'.
      rewrite (sorted_index ss i bs' bs); [|apply C|done..]. by eapply Forall_later; [apply C|].
Qed.

Lemma carry_cursor c :
  (∀ cur, c = Some cur → j = parseSegmentName (cSegment cur)) →
  (closed w' = false → ∀ i, j = Some i → i ≤ segIdx w') →
  cursorOk w ss k c → cursorOk w' ss' k' c.
Proof.
  intros Hj Hle Hc cur E. destruct (Hc cur E) as (i & Ei & Hi & Hr & _ & Hb & Hcov).
  assert (Hji : j = Some i) by (by rewrite (Hj cur E), Ei, parseSegmentName_segmentName).
  exists i. split_and!; [done..| | |].
  - intros Hcl. by apply Hle.
  - apply carry_behind; [by right|done].
  - apply carry_covered; [by right|done].
Qed.

End carry.

(** Taking a delivered segment out of the directory. *)
Section remove.
Context {w : Writer} {ss : Segs} {k : S} (i : Z).

Lemma behind_without t : behind ss k t → behind (without i ss) k t.
Proof. intros Hb u bs [_ Hin]%elem_of_without. by apply Hb. Qed.

Lemma covered_without t m : covered w ss k t m → covered w (without i ss) k t m.
Proof. intros Hc bs [_ Hin]%elem_of_without. by apply Hc. Qed.

Lemma cursorOk_without c : cursorOk w ss k c → cursorOk w (without i ss) k c.
Proof.
  intros Hc cur E. destruct (Hc cur E) as (j & Ej & Hj & Hr & Hl & Hb & Hcov). exists j.
  split_and!; [done..|by apply behind_without|by apply covered_without].
Qed.

Lemma stretch_without ts : stretch w ss ts → i ∉ ts → stretch w (without i ss) ts.
Proof.
  intros [Hs Hin Hst Hd] Hni. split; [done| |done|].
  - intros t Ht. apply without_fst. split; [congruence|by apply Hin].
  - intros t [_ Ht]%without_fst. by apply Hd.
Qed.

End remove.

(** The segment after the current one, once the current one is delivered. *)
Lemma stretch_tail w ss i ts : stretch w ss (i :: ts) → stretch w ss ts.
Proof.
  intros [Hs Hin Hst Hd]. inversion Hs as [|? ? Hs' Hall]; subst. split; [done|..].
  - intros t Ht. apply Hin. by right.
  - intros t u Ht Hu. apply Hst; by right.
  - intros t Ht. destruct (Hd t Ht) as [Hi|[Hl|Hg]].
    + apply elem_of_cons in Hi as [->|Hi]; [|by left]. right. left. intros u Hu.
      rewrite Forall_forall in Hall. by apply Hall.
    + right. left. intros u Hu. apply Hl. by right.
    + right. right. intros u Hu. apply Hg. by right.
Qed.

Lemma stretch_next w ss k i ts bs :
  StronglySorted Z.lt ss.*1 → stretch w ss (i :: ts) → behind ss k i → (i, bs) ∈ ss →
  Forall (delivered k) bs → stretch w ss ts ∧ ∀ t, head ts = Some t → behind ss k t.
Proof.
  intros Hso Hs Hb Hin Hd. split; [by eapply stretch_tail|].
  intros u Hu t cs Ht Hlt. destruct ts as [|u' ts]; [done|]. injection Hu as ->.
  destruct Hs as [Hst _ _ Hde].
  destruct (Hde t) as [Hi|[Hl|Hg]]; [by apply (list_elem_of_fmap_2 fst) in Ht|..].
  - apply elem_of_cons in Hi as [->|Hi]; [by rewrite (sorted_index ss i cs bs)|].
    inversion Hst as [|? ? Hst' _]; subst. inversion Hst' as [|? ? _ Hall]; subst.
    apply elem_of_cons in Hi as [->|Hi]; [lia|]. rewrite Forall_forall in Hall.
    specialize (Hall t Hi). lia.
  - eapply Hb; [done|]. apply Hl. by left.
  - assert (u < t) by (apply Hg; right; by left). lia.
Qed.

(** * The importer's steps *)

Section step.
Context (hd : Z → string * string) (w : Writer) (A : list (list Z)).

(** [A]: the acknowledged records. *)
Record core (s : FS) (ss : Segs) (k : S) : Prop := {
  co_good : good hd w s ss;
  co_cursor : cursorOk w ss k (cursorFile s);
  co_ledger b : b ∈ A → delivered k b ∨ ∃ i bs, (i, bs) ∈ ss ∧ b ∈ bs
}.

Lemma good_top s ss t : good hd w s ss → active w t → ∀ i, i ∈ ss.*1 → i ≤ t.
Proof.
  intros Hg (Hc & _ & <-). unfold good in Hg. rewrite Hc in Hg. apply (winv_old _ _ _ _ Hg).
Qed.

Lemma co_rep s ss k : core s ss k → dirRep hd (files s) (entries s) ss.
Proof. intros Hc. eapply good_rep, Hc. Qed.

Lemma core_same s s' ss k :
  files s' = files s → entries s' = entries s → cursorFile s' = cursorFile s →
  core s ss k → core s' ss k.
Proof.
  intros Hf He Hcu [Hg Hc Hl]. split; [by eapply good_same|by rewrite Hcu|done].
Qed.

Lemma phase_same s s' ss k p :
  cursorFile s' = cursorFile s → phaseOk hd w ss k s p → phaseOk hd w ss k s' p.
Proof.
  intros Hc. assert (readCursor s' = readCursor s) as E by (unfold readCursor; by rewrite Hc).
  unfold phaseOk. by rewrite E.
Qed.

Lemma cursor_idx s ss k i :
  cursorOk w ss k (cursorFile s) → closed w = false → cidx s = Some i → i ≤ segIdx w.
Proof.
  intros Hc Hcl. unfold cidx. destruct (cursorFile s) as [cur|]; [|done]. cbn. intros Hi.
  destruct (Hc cur eq_refl) as (j & Ej & Hj & _ & Hle & _).
  rewrite Ej, parseSegmentName_segmentName in Hi by done. injection Hi as <-. by apply Hle.
Qed.

Lemma carries_later s ss k k' : core s ss k → later k k' → carries (cidx s) hd w ss k hd w ss k'.
Proof.
  intros Hc Hl. split; [apply move_refl|done|done|eapply co_rep, Hc|].
  intros t Ha. split; [eapply good_top; [apply Hc|done]|]. intros i Hi.
  destruct Ha as (Hcl & _ & <-). eapply cursor_idx; [apply Hc|done..].
Qed.

Lemma core_later s ss k k' : core s ss k → later k k' → core s ss k'.
Proof.
  intros Hc Hl. pose proof (carries_later _ _ _ _ Hc Hl) as C. destruct Hc as [Hg Hcu Hle].
  split; [done| |].
  - eapply (carry_cursor C); [| |done].
    + intros cur E. unfold cidx. by rewrite E.
    + intros Hcl i. by eapply cursor_idx.
  - intros b Hb. destruct (Hle b Hb) as [Hd|?]; [left; by eapply delivered_later|by right].
Qed.

Lemma phase_later s ss k k' p :
  core s ss k → later k k' → phaseOk hd w ss k s p → phaseOk hd w ss k' s p.
Proof. intros Hc Hl. apply (carry_phase (carries_later _ _ _ _ Hc Hl)); [by right|done]. Qed.

Lemma core_remove s s' ss k i :
  core s ss k → indexOk i → ¬ active w i → (∀ bs, (i, bs) ∈ ss → Forall (delivered k) bs) →
  files s' = delete (segmentName i) (files s) → entries s' = entries s ∖ {[segmentName i]} →
  cursorFile s' = cursorFile s → core s' (without i ss) k.
Proof.
  intros [Hg Hc Hl] Hi Hna Hd Hf He Hcu. split.
  - by eapply good_remove.
  - rewrite Hcu. by apply cursorOk_without.
  - intros b Hb. destruct (Hl b Hb) as [?|(j & bs & Hin & Hbs)]; [by left|].
    destruct (decide (j = i)) as [->|Hne].
    + left. specialize (Hd bs Hin). rewrite Forall_forall in Hd. by apply Hd.
    + right. exists j, bs. by rewrite elem_of_without.
Qed.

Lemma core_file s s' ss k i bs x x' f f' :
  core s ss k → (i, bs) ∈ ss → ¬ active w i →
  files s !! segmentName i = Some f → data f = layout (hdr hd i) bs x → tailOk x' →
  data f' = layout (hdr hd i) bs x' →
  (∀ n, (n ≤ length (layout (hdr hd i) bs []))%nat → (n ≤ synced f)%nat → (n ≤ synced f')%nat) →
  files s' = <[segmentName i := f']> (files s) → entries s' = entries s →
  cursorFile s' = cursorFile s → core s' ss k.
Proof.
  intros [Hg Hc Hl] Hin Hna Hm Hd Hx Hd' Hn Hf He Hcu.
  split; [by eapply good_file|by rewrite Hcu|done].
Qed.

(** A state of the machine. *)
Definition ok (im : Imp) (s : FS) (k : S) : Prop :=
  ∃ ss, core s ss k ∧ phaseOk hd w ss k s (phase im).

Lemma ok_fail s ss k im : core s ss k → ok (fail im) s k.
Proof. intros Hc. by exists ss. Qed.

Lemma sysPlain_frame s b t :
  sysPlain s = (b, t) → files t = files s ∧ entries t = entries s ∧ cursorFile t = cursorFile s.
Proof. unfold sysPlain, sys. by intros [= <- <-]. Qed.

Lemma sysRemove_frame name s b t :
  sysRemove name s = (b, t) → cursorFile t = cursorFile s ∧
  if b then files t = delete name (files s) ∧ entries t = entries s ∖ {[name]}
  else files t = files s ∧ entries t = entries s.
Proof. unfold sysRemove, sys. intros [= <- <-]. by destruct (okSys _). Qed.

(** A segment still in use has no end marker. *)
Lemma marker_inactive s ss k i f :
  core s ss k → indexOk i → files s !! segmentName i = Some f →
  segmentHasEndMarker (data f) = Some true → ¬ active w i.
Proof.
  intros [Hg _ _] Hi Hm He (Hc & Hd & Hix). unfold good in Hg. rewrite Hc in Hg.
  destruct Hg as [(j & bs & x & (_ & Hcu & _) & Hj)|[? _]]; [|congruence].
  destruct (Hj Hd) as (-> & -> & _). rewrite Hix in Hcu.
  destruct Hcu as [_ _ (g & Hg & Hgd & _ & _ & _ & Hb & _)].
  rewrite Hm in Hg. injection Hg as <-. rewrite Hgd in He. by apply layout_no_marker in He.
Qed.

Lemma prune_ok s ss k i ts bs cur im im' s' :
  core s ss k → readCursor s = Ok cur → stretch w ss (i :: ts) → behind ss k i →
  (i, bs) ∈ ss → Forall (delivered k) bs → ¬ active w i →
  prune (segmentName i) (PSegs (segmentName <$> ts) cur) im s = (im', s') → ok im' s' k.
Proof.
  intros Hc Hcur Hs Hb Hin Hd Hna. unfold prune.
  pose proof (co_rep _ _ _ Hc) as Hr. destruct (dr_file _ _ _ _ Hr _ _ Hin) as [Hi _].
  assert (Hso : StronglySorted Z.lt ss.*1) by apply Hr.
  destruct (sysRemove _ _) as [b t] eqn:E. apply sysRemove_frame in E as [Ec E].
  destruct b; cbn; intros [= <- <-]; destruct E as [Ef Ee].
  2: { apply (ok_fail _ ss). by eapply core_same. }
  exists (without i ss). split.
  { eapply core_remove; [done..| |done|done|done]. intros cs Hcs. by rewrite (sorted_index ss i cs bs). }
  cbn. split; [unfold readCursor in *; by rewrite Ec|].
  destruct (stretch_next _ _ _ _ _ _ Hso Hs Hb Hin Hd) as [Hst Hbe].
  assert (Hni : i ∉ ts).
  { intros Hin'. destruct Hs as [Hs _ _ _]. inversion Hs as [|? ? _ Hall]; subst.
    rewrite Forall_forall in Hall. specialize (Hall i Hin'). lia. }
  exists ts. split_and!; [done| |].
  - by apply stretch_without.
  - intros u Hu. by apply behind_without, Hbe.
Qed.

(** The cursor the loop holds, when it has one. *)
Lemma cursor_now s ss k cur :
  core s ss k → readCursor s = Ok cur → (cSegment cur =? "")%string = false →
  ∃ j, cSegment cur = segmentName j ∧ indexOk j ∧ 0 ≤ cRecord cur ∧
    (closed w = false → j ≤ segIdx w) ∧ behind ss k j ∧
    covered w ss k j (Z.to_nat (cRecord cur + 1)).
Proof.
  intros Hc Hr Hne. unfold readCursor in Hr. destruct (cursorFile s) as [c|] eqn:E.
  - destruct (_ || _); [done|]. injection Hr as ->. by apply (co_cursor _ _ _ Hc).
  - injection Hr as <-. done.
Qed.

Lemma pastStep_ok s ss k i ts cur im im' s' :
  core s ss k → readCursor s = Ok cur → stretch w ss (i :: ts) → behind ss k i →
  negb (cSegment cur =? "")%string && String.ltb (segmentName i) (cSegment cur) = true →
  pastStep (segmentName i) (segmentName <$> ts) cur im s = (im', s') → ok im' s' k.
Proof.
  intros Hc Hcur Hs Hb Hp. apply andb_true_iff in Hp as [Hne Hlt]. apply negb_true_iff in Hne.
  destruct (cursor_now _ _ _ _ Hc Hcur Hne) as (j & Ej & Hj & _ & Hjl & Hbj & _).
  assert (Hin : i ∈ ss.*1) by (apply (st_in _ _ _ Hs); by left).
  apply list_elem_of_fmap in Hin as ([i' bs] & -> & Hin). cbn [fst] in *. rename i' into i.
  pose proof (co_rep _ _ _ Hc) as Hr. destruct (dr_file _ _ _ _ Hr _ _ Hin) as [Hi _].
  assert (Hij : i < j).
  { unfold String.ltb in Hlt. rewrite Ej, segmentName_compare in Hlt by done.
    revert Hlt. destruct (Z.compare_spec i j); done. }
  assert (Hna : ¬ active w i) by (intros (Hcl & _ & <-); specialize (Hjl Hcl); lia).
  assert (Hd : Forall (delivered k) bs) by by eapply Hbj.
  unfold pastStep. destruct (sysPlain s) as [b t] eqn:E. apply sysPlain_frame in E as (Ef & Ee & Ec).
  assert (Hct : core t ss k) by by eapply core_same.
  assert (Hcur' : readCursor t = Ok cur) by (unfold readCursor in *; by rewrite Ec).
  destruct b; cbn [negb]; [|intros [= <- <-]; by eapply ok_fail].
  destruct (files t !! segmentName i) as [f|]; [|intros [= <- <-]; by eapply ok_fail].
  destruct (countSegmentRecords (data f)) as [n|]; [|intros [= <- <-]; by eapply ok_fail].
  destruct (segmentHasEndMarker (data f)) as [c|]; [|intros [= <- <-]; by eapply ok_fail].
  destruct (match n with Some _ => c | None => false end).
  - by eapply prune_ok.
  - intros [= <- <-]. exists ss. split; [done|]. cbn. split; [done|]. exists ts.
    split; [done|]. by eapply stretch_next; [apply Hr|..].
Qed.

Lemma openStep_ok s ss k i ts cur im im' s' :
  core s ss k → readCursor s = Ok cur → stretch w ss (i :: ts) → behind ss k i →
  openStep (segmentName i) (segmentName <$> ts) cur im s = (im', s') → ok im' s' k.
Proof.
  intros Hc Hcur Hs Hb.
  assert (Hin : i ∈ ss.*1) by (apply (st_in _ _ _ Hs); by left).
  apply list_elem_of_fmap in Hin as ([i' bs] & -> & Hin). cbn [fst] in *. rename i' into i.
  unfold openStep. destruct (sysPlain s) as [b t] eqn:E. apply sysPlain_frame in E as (Ef & Ee & Ec).
  assert (Hct : core t ss k) by by eapply core_same.
  assert (Hcur' : readCursor t = Ok cur) by (unfold readCursor in *; by rewrite Ec).
  destruct b; cbn [negb]; [|intros [= <- <-]; by eapply ok_fail].
  destruct (files t !! segmentName i) as [f|] eqn:Hm; [|intros [= <- <-]; by eapply ok_fail].
  destruct (ReadSegment (data f)) as [it|] eqn:Hrs; intros [= <- <-]; [|by eapply ok_fail].
  exists ss. split; [done|]. cbn. split; [done|]. exists i, ts, bs.
  destruct (dr_file _ _ _ _ (co_rep _ _ _ Hct) _ _ Hin) as [Hi (g & Hg & Hsf)].
  rewrite Hm in Hg. injection Hg as <-.
  assert (Hz : covered w ss k i 0) by (intros cs _; split; [apply Forall_nil_2|lia]).
  split_and!; [done..|lia| |].
  - case_match eqn:Eseg; [|done]. apply String.eqb_eq in Eseg.
    destruct (cursor_now _ _ _ _ Hct Hcur') as (j & Ej & Hj & _ & _ & _ & Hcov).
    { rewrite Eseg. by apply String.eqb_neq. }
    rewrite Eseg in Ej. apply segmentName_inj in Ej as <-; done.
  - left. split_and!; [lia| |done]. destruct Hsf as [(x & Hd & _)|[-> Hp]].
    + rewrite Hd in Hrs. unfold hdr in Hrs. rewrite ReadSegment_layout in Hrs.
      injection Hrs as <-. unfold posOf. cbn [take]. by rewrite app_nil_r.
    + assert (Hn : newline ∉ data f).
      { destruct Hp as [y Hy]. intros Hx. apply (header_line (hdr hd i)). rewrite Hy.
        apply elem_of_app. by left. }
      unfold ReadSegment in Hrs. by rewrite ReadLine_none in Hrs.
Qed.

Lemma pruneStep_ok s ss k i ts bs eof cur im im' s' :
  core s ss k → readCursor s = Ok cur → stretch w ss (i :: ts) → behind ss k i →
  (i, bs) ∈ ss → Forall (delivered k) bs →
  pruneStep (segmentName i) eof (segmentName <$> ts) cur im s = (im', s') → ok im' s' k.
Proof.
  intros Hc Hcur Hs Hb Hin Hd.
  unfold pruneStep. destruct (sysPlain s) as [b t] eqn:E. apply sysPlain_frame in E as (Ef & Ee & Ec).
  assert (Hct : core t ss k) by by eapply core_same.
  assert (Hcur' : readCursor t = Ok cur) by (unfold readCursor in *; by rewrite Ec).
  pose proof (co_rep _ _ _ Hct) as Hr. destruct (dr_file _ _ _ _ Hr _ _ Hin) as [Hi _].
  destruct b; cbn [negb]; [|intros [= <- <-]; by eapply ok_fail].
  destruct (files t !! segmentName i) as [f|] eqn:Hm; [|intros [= <- <-]; by eapply ok_fail].
  destruct (segmentHasEndMarker (data f)) as [c|] eqn:Hem; [|intros [= <- <-]; by eapply ok_fail].
  destruct (eof && c) eqn:Hec.
  - apply andb_true_iff in Hec as [-> ->]. eapply prune_ok; [done..|]. by eapply marker_inactive.
  - intros [= <- <-]. exists ss. split; [done|]. cbn. split; [done|]. exists ts.
    split; [done|]. by eapply stretch_next; [apply Hr|..].
Qed.

(** ** The record loop *)

(** The file of the growing segment ends with its last record. *)
Lemma tail_inactive s ss k i bs f b :
  core s ss k → (i, bs) ∈ ss → files s !! segmentName i = Some f →
  data f = layout (hdr hd i) bs (encodeFrame b) → ¬ active w i.
Proof.
  intros [Hg _ _] Hin Hm Hd (Hc & Hdam & Hix). pose proof (good_rep _ _ _ _ Hg) as Hr.
  unfold good in Hg. rewrite Hc in Hg.
  destruct Hg as [(j & cs & x & (_ & Hcu & _) & Hj)|[? _]]; [|congruence].
  destruct (Hj Hdam) as (-> & -> & _). rewrite Hix in Hcu.
  assert (cs = bs) as -> by (eapply sorted_index; [apply Hr|apply Hcu|done]).
  destruct Hcu as [_ _ (g & Hg & Hgd & _)]. rewrite Hm in Hg. injection Hg as <-.
  rewrite Hgd, (layout_nil _ _ (encodeFrame b)) in Hd.
  apply (f_equal length) in Hd. rewrite length_app, length_encodeFrame in Hd. lia.
Qed.

Lemma covered_le ss k i m n : (n ≤ m)%nat → covered w ss k i m → covered w ss k i n.
Proof.
  intros Hle Hc bs Hin. destruct (Hc bs Hin) as [Hd Ha]. split.
  - replace (take n bs) with (take n (take m bs)) by (rewrite take_take; f_equal; lia).
    by apply Forall_take.
  - intros Hact. specialize (Ha Hact). lia.
Qed.

Lemma covered_all ss k i bs :
  StronglySorted Z.lt ss.*1 → (i, bs) ∈ ss → covered w ss k i (length bs) → Forall (delivered k) bs.
Proof.
  intros Hs Hin Hc. destruct (Hc bs Hin) as [Hd _]. by rewrite take_ge in Hd by lia.
Qed.

Lemma covered_next ss k i bs r b :
  StronglySorted Z.lt ss.*1 → (i, bs) ∈ ss → bs !! r = Some b → delivered k b →
  covered w ss k i r → covered w ss k i (Datatypes.S r).
Proof.
  intros Hs Hin Hb Hd Hc cs Hcs. rewrite (sorted_index ss i cs bs) by done.
  destruct (Hc bs Hin) as [Hp _]. split.
  - rewrite (take_S_r _ _ _ Hb). apply Forall_app. by rewrite Forall_singleton.
  - intros _. apply lookup_lt_Some in Hb. lia.
Qed.

(** A round: the iterator's answer and where it leaves the reader. *)
Lemma Next_reading s ss k i bs it r f it' res :
  core s ss k → (i, bs) ∈ ss → files s !! segmentName i = Some f →
  reading hd w ss k i bs it r → Segment.Next (data f) it = (it', res) →
  match res with
  | NEOF | NCorrupt => Forall (delivered k) bs
  | NEnv env =>
    (covered w ss k i (Datatypes.S r) → reading hd w ss k i bs it' (Datatypes.S r)) ∧
    (∀ k', later k k' → holds env k' → reading hd w ss k' i bs it' (Datatypes.S r))
  end.
Proof.
  intros Hc Hin Hm Hrd Hn. pose proof (co_rep _ _ _ Hc) as Hr.
  assert (Hso : StronglySorted Z.lt ss.*1) by apply Hr.
  assert (HB : ¬ active w i → Forall (delivered k) bs → ∀ k', later k k' →
    reading hd w ss k' i bs it' (Datatypes.S r)).
  { intros Hna Hd k' Hl. right. split; [done|by eapply Forall_later]. }
  destruct Hrd as [(Hle & -> & Hcov)|[Hna Hd]].
  2: { destruct res; [|done..]. split; [intros _; by apply HB, later_refl|]. intros k' Hl _. by apply HB. }
  destruct (Next_seg hd _ _ _ _ _ _ r Hr Hin Hm Hle)
    as [(b & env & Hb & He & E)|(-> & [[it2 E]|(b & env & it2 & Hd & E)])];
    rewrite E in Hn; injection Hn as <- <-.
  - assert (Hlt : (Datatypes.S r ≤ length bs)%nat) by by apply lookup_lt_Some in Hb.
    split; [intros Hcov'; by left|]. intros k' Hl Hh. left. split_and!; [done..|].
    eapply covered_next; [done..|by exists env|].
    apply (carry_covered (carries_later _ _ _ _ Hc Hl)); [|done].
    left. by apply (list_elem_of_fmap_2 fst) in Hin.
  - by eapply covered_all.
  - pose proof (tail_inactive _ _ _ _ _ _ _ Hc Hin Hm Hd) as Hna.
    pose proof (covered_all _ _ _ _ Hso Hin Hcov) as Hall.
    split; [intros _; by apply HB, later_refl|]. intros k' Hl _. by apply HB.
Qed.

Lemma readStep_ok c s ss k seg it r m segs cur im im' s' k' :
  core s ss k → phaseOk hd w ss k s (PRead seg it r m segs cur) →
  readStep c seg it r m segs cur im s k = (im', s', k') → ok im' s' k'.
Proof.
  intros Hc (Hcur & i & ts & bs & -> & -> & Hs & Hb & Hin & Hr0 & Hm & Hrd). unfold readStep.
  destruct (files s !! segmentName i) as [f|] eqn:Hf; [|intros [= <- <- <-]; by eapply ok_fail].
  destruct (Segment.Next (data f) it) as [it' res] eqn:Hn.
  pose proof (Next_reading _ _ _ _ _ _ _ _ _ _ Hc Hin Hf Hrd Hn) as Hres.
  assert (Hclose : ∀ eof, Forall (delivered k) bs →
    (let '(ok, s) := sysPlain s in
     if negb ok then (fail im, s, k)
     else (goto (PPrune (segmentName i) eof (segmentName <$> ts) cur) im, s, k)) = (im', s', k') →
    ok im' s' k').
  { intros eof Hd. destruct (sysPlain s) as [b t] eqn:E. apply sysPlain_frame in E as (Ef & Ee & Ec).
    assert (Hct : core t ss k) by by eapply core_same.
    destruct b; intros [= <- <- <-]; [|by eapply ok_fail].
    exists ss. split; [done|]. cbn. split; [unfold readCursor in *; by rewrite Ec|].
    by exists i, ts, bs. }
  destruct res as [env| |]; [|by apply Hclose..]. destruct Hres as [Hskip Hput].
  assert (Hzs : Z.to_nat (r + 1) = Datatypes.S (Z.to_nat r)) by lia.
  destruct (Z.ltb_spec r m) as [Hlt|Hge].
  - intros [= <- <- <-]. exists ss. split; [done|]. cbn. split; [done|]. exists i, ts, bs.
    rewrite Hzs. split_and!; [done..|lia|done|].
    apply Hskip, (covered_le _ _ _ (Z.to_nat m)); [lia|done].
  - destruct (put c env k) as [res k1] eqn:Hp. pose proof (put_later _ _ _ _ _ Hp) as Hl.
    assert (Hck : core s ss k1) by by eapply core_later.
    assert (Hcom : res = Stored ∨ res = Duplicate → ∀ im1,
      ok (goto (PCommit (segmentName i) it' r m (segmentName <$> ts) cur) im1) s k1).
    { intros Hres im1. exists ss. split; [done|]. cbn. split; [done|]. exists i, ts, bs.
      pose proof (carries_later _ _ _ _ Hc Hl) as C.
      assert (Hi : i ∈ ss.*1) by by apply (list_elem_of_fmap_2 fst) in Hin.
      rewrite Hzs. split_and!; [done..| |done|done| |].
      - apply (carry_behind C); [by left|done].
      - apply (carry_covered C); [by left|done].
      - apply Hput; [done|]. by eapply put_holds. }
    destruct res; intros [= <- <- <-]; [apply Hcom; tauto..|by eapply ok_fail|by eapply ok_fail].
Qed.

(** ** The cursor *)

Lemma readCursor_name i r s :
  indexOk i → 0 ≤ r → readCursor (setCursor (mkCursor (segmentName i) r) s) =
    Ok (mkCursor (segmentName i) r).
Proof.
  intros Hi Hr. unfold readCursor. cbn [setCursor cursorFile cSegment cRecord].
  assert (E1 : (segmentName i =? "")%string = false) by by apply String.eqb_neq.
  rewrite E1, hasSlash_segmentName, (proj2 (Z.ltb_ge _ _)) by done. done.
Qed.

Lemma commit_ok s ss k seg it r m segs cur im im' s' :
  core s ss k → phaseOk hd w ss k s (PCommit seg it r m segs cur) →
  (let '(ok, s) := writeCursor (mkCursor seg r) s in
   if negb ok then (fail im, s)
   else (goto (PRead seg it (r + 1) m segs (mkCursor seg r)) im, s)) = (im', s') → ok im' s' k.
Proof.
  intros Hc (Hcur & i & ts & bs & -> & -> & Hs & Hb & Hin & Hr0 & Hm & Hrd).
  pose proof (co_rep _ _ _ Hc) as Hr. destruct (dr_file _ _ _ _ Hr _ _ Hin) as [Hi _].
  assert (Hso : StronglySorted Z.lt ss.*1) by apply Hr.
  unfold writeCursor, sys. destruct (okSys _); cbn [negb]; intros [= <- <-].
  2: { eapply ok_fail. by eapply core_same; [..|exact Hc]. }
  exists ss. split.
  - destruct Hc as [Hg Hcu Hl]. split; [by eapply good_same; [..|exact Hg]| |done].
    intros c [= <-]. exists i. cbn [cSegment cRecord]. split_and!; [done..| |done|].
    + intros Hcl. unfold good in Hg. rewrite Hcl in Hg. apply (winv_old _ _ _ _ Hg).
      by apply (list_elem_of_fmap_2 fst) in Hin.
    + destruct Hrd as [(_ & _ & Hcov)|[Hna Hd]]; [done|]. intros cs Hcs.
      rewrite (sorted_index ss i cs bs) by done. split; [by apply Forall_take|done].
  - split; [by apply readCursor_name|]. exists i, ts, bs. split_and!; [done..|lia|done|done].
Qed.

(** ** Recovery *)

Lemma sorted_skip (rs : list Z) t ts :
  StronglySorted Z.lt (rs ++ t :: ts) → StronglySorted Z.lt (rs ++ ts).
Proof.
  induction rs as [|r rs IH]; cbn; intros Hs; inversion Hs as [|? ? Hs' Hall]; subst; [done|].
  constructor; [by apply IH|]. rewrite Forall_forall in *. intros u Hu. apply Hall. set_solver.
Qed.

Lemma sorted_notin (rs : list Z) t ts u :
  StronglySorted Z.lt (rs ++ t :: ts) → u ∈ rs ++ ts → u ≠ t.
Proof.
  intros Hs [Hu|Hu]%elem_of_app ->.
  - assert (t < t); [|lia]. eapply StronglySorted_app_1_elem_of; [exact Hs|done|by left].
  - apply StronglySorted_app_1_r in Hs. inversion Hs as [|? ? _ Hall]; subst.
    rewrite Forall_forall in Hall. specialize (Hall t Hu). lia.
Qed.

Lemma stretch_init ss rs t : stretch w ss (rs ++ [t]) → stretch w ss rs.
Proof.
  intros [Hs Hin Hst Hd]. split; [by eapply StronglySorted_app_1_l|..].
  - intros u Hu. apply Hin, elem_of_app. by left.
  - intros u v Hu Hv. apply Hst; apply elem_of_app; by left.
  - intros u Hu. destruct (Hd u Hu) as [[Hi|Hi%list_elem_of_singleton]%elem_of_app|[Hl|Hg]].
    + by left.
    + subst u. right. right. intros v Hv.
      eapply StronglySorted_app_1_elem_of; [exact Hs|done|by left].
    + right. left. intros v Hv. apply Hl, elem_of_app. by left.
    + right. right. intros v Hv. apply Hg, elem_of_app. by left.
Qed.

Lemma stretch_remove ss rs t ts :
  stretch w ss (rs ++ t :: ts) → stretch w (without t ss) (rs ++ ts).
Proof.
  intros [Hs Hin Hst Hd].
  assert (Hsub : ∀ u, u ∈ rs ++ ts → u ∈ rs ++ t :: ts) by set_solver.
  split; [by eapply sorted_skip| |intros u v Hu Hv; by apply Hst; apply Hsub|].
  - intros u Hu. apply without_fst. split; [by eapply sorted_notin|by apply Hin, Hsub].
  - intros u [Hne Hu]%without_fst. destruct (Hd u Hu) as [Hi|[Hl|Hg]].
    + left. set_solver.
    + right. left. intros v Hv. by apply Hl, Hsub.
    + right. right. intros v Hv. by apply Hg, Hsub.
Qed.

Definition todoOk (ss : Segs) (rs ts : list Z) : Prop :=
  stretch w ss (rs ++ ts) ∧ ∀ t, t ∈ ss.*1 → t ∈ rs ++ ts ∨ ∀ u, u ∈ rs ++ ts → u < t.

(** Below the newest nothing grows. *)
Lemma todo_still ss rs t u ts : todoOk ss rs (t :: u :: ts) → ¬ active w t.
Proof.
  intros [[Hs _ Hst _] _]. apply (Hst t u); [set_solver..|].
  apply StronglySorted_app_1_r in Hs. inversion Hs as [|? ? _ Hall]; subst.
  rewrite Forall_forall in Hall. apply Hall. by left.
Qed.

Lemma sysTruncate_frame' name n s b t f :
  sysTruncate name n s = (b, t) → files s !! name = Some f →
  entries t = entries s ∧ cursorFile t = cursorFile s ∧
  files t = if b then <[name := mkFile (take n (data f ++ replicate (n - length (data f)) 0))
                                 (Nat.min n (synced f)) (stale f)]> (files s) else files s.
Proof.
  unfold sysTruncate, sys. intros [= <- <-] Hm. destruct (okSys _); [|done].
  split_and!; [done..|]. cbn. etrans; [apply (alter_some _ _ _ _ Hm)|done].
Qed.

Lemma sysSync_frame' name s b t f :
  sysSync name s = (b, t) → files s !! name = Some f →
  entries t = entries s ∧ cursorFile t = cursorFile s ∧
  ∃ n st, files t = <[name := mkFile (data f) n st]> (files s) ∧
    (n = synced f ∨ n = length (data f)).
Proof.
  unfold sysSync, sys. intros [= <- <-] Hm. split_and!; [done..|]. cbn.
  rewrite (alter_some _ _ _ _ Hm). destruct (okSys _).
  - eexists _, _. split; [done|]. destruct (stale f); tauto.
  - eexists _, _. split; [done|]. tauto.
Qed.

(** The repair of a torn segment below the newest. *)
Lemma repair_ok s ss k i bs f x n b t b' t' :
  core s ss k → (i, bs) ∈ ss → ¬ active w i → files s !! segmentName i = Some f →
  data f = layout (hdr hd i) bs x → n = length (layout (hdr hd i) bs []) →
  sysTruncate (segmentName i) n s = (b, t) →
  core t ss k ∧ cursorFile t = cursorFile s ∧
  (b = true → sysSync (segmentName i) t = (b', t') → core t' ss k ∧ cursorFile t' = cursorFile s).
Proof.
  intros Hc Hin Hna Hm Hd -> Ht. destruct (sysTruncate_frame' _ _ _ _ _ _ Ht Hm) as (Ee & Ec & Ef).
  destruct b; [|split_and!; [by eapply core_same|done|done]].
  rewrite take_app_le, Hd, take_layout in Ef
    by (rewrite Hd, (layout_nil _ _ x), length_app; lia).
  assert (Hct : core t ss k).
  { eapply (core_file s t _ _ _ _ _ []); [exact Hc|done|done|exact Hm|exact Hd|apply tailOk_nil| | |exact Ef|done|done];
      [done|]. cbn. lia. }
  split_and!; [done..|]. intros _ Hsy.
  assert (Hm' : files t !! segmentName i = Some (mkFile (layout (hdr hd i) bs [])
    (length (layout (hdr hd i) bs []) `min` synced f)%nat (stale f)))
    by by rewrite Ef, lookup_insert_eq.
  destruct (sysSync_frame' _ _ _ _ _ Hsy Hm') as (Ee' & Ec' & n & st & Ef' & Hn).
  split; [|congruence].
  eapply (core_file t t' _ _ _ _ [] []);
    [exact Hct|done|done|exact Hm'|done|apply tailOk_nil| | |exact Ef'|done|done]; [done|].
  cbn in *. intros m. destruct Hn as [->| ->]; lia.
Qed.

Lemma recoverStep_ok gapID mtime s ss k rs t ts rep im im' s' :
  core s ss k → Segments rep = segmentName <$> rs → todoOk ss rs (t :: ts) →
  recoverStep gapID mtime (segmentName t) (segmentName <$> ts) rep im s = (im', s') → ok im' s' k.
Proof.
  intros Hc Hrep Htd. pose proof Htd as [Hst Hcov].
  assert (Hin : t ∈ ss.*1) by (apply (st_in _ _ _ Hst); set_solver).
  apply list_elem_of_fmap in Hin as ([t' bs] & -> & Hin). cbn [fst] in *. rename t' into t.
  unfold recoverStep. set (newest := match segmentName <$> ts with [] => true | _ => false end).
  destruct (sysPlain s) as [b u] eqn:E. apply sysPlain_frame in E as (Ef & Ee & Ec).
  assert (Hcu : core u ss k) by by eapply core_same.
  pose proof (co_rep _ _ _ Hcu) as Hr. destruct (dr_file _ _ _ _ Hr _ _ Hin) as [Hi _].
  assert (Hso : StronglySorted Z.lt ss.*1) by apply Hr.
  assert (Hna : newest = false → ¬ active w t).
  { destruct ts as [|v ts]; [done|]. intros _. by eapply todo_still. }
  destruct b; cbn [negb]; [|intros [= <- <-]; by eapply ok_fail].
  destruct (files u !! segmentName t) as [f|] eqn:Hm; [|intros [= <- <-]; by eapply ok_fail].
  destruct (recoverSegment (data f) newest) as [r|] eqn:Hrec; [|intros [= <- <-]; by eapply ok_fail].
  pose proof (recover_seg hd _ _ _ _ _ _ _ _ Hr Hin Hm Hrec) as Hres.
  destruct r as [|truncated corrupt kept].
  - destruct newest eqn:En.
    + intros [= <- <-]. exists ss. split; [done|]. destruct ts; [|done].
      exists rs, []. rewrite app_nil_r. split_and!; [done..|by eapply stretch_init|].
      intros v Hv. destruct (Hcov v Hv) as [[?|Hx%list_elem_of_singleton]%elem_of_app|Hg]; [by left| |].
      * subst v. right. intros y Hy. destruct Hst as [Hs _ _ _].
        eapply StronglySorted_app_1_elem_of; [exact Hs|done|by left].
      * right. intros y Hy. apply Hg, elem_of_app. by left.
    + destruct (sysRemove _ u) as [b' v] eqn:E. apply sysRemove_frame in E as [Ec' E].
      destruct b'; cbn [negb]; intros [= <- <-]; destruct E as [Ef' Ee'].
      2: { eapply ok_fail. by eapply core_same. }
      exists (without t ss). split.
      { eapply core_remove; [done|done|by apply Hna| |done..].
        intros cs Hcs. rewrite (sorted_index ss t cs bs), Hres by done. apply Forall_nil_2. }
      exists rs, ts. split_and!; [done..|by apply stretch_remove|].
      intros y [Hne Hy]%without_fst. destruct (Hcov y Hy) as [Hx|Hg]; [left; set_solver|].
      right. intros z Hz. apply Hg. set_solver.
  - assert (Hdone : ∀ v im1, core v ss k → ok (goto (PRecover (segmentName <$> ts)
      (mkReport (Segments rep ++ [segmentName t]) (TruncatedTail rep || truncated)
        (Gaps rep ++ (if (0 <? corrupt)%nat
          then [buildGapEnvelope gapID mtime (segmentName t) (length (Segments rep)) corrupt]
          else [])))) im1) v k).
    { intros v im1 Hv. exists ss. split; [done|]. exists (rs ++ [t]), ts.
      rewrite <- app_assoc. cbn [app Segments]. split_and!; [done| |done|done].
      by rewrite Hrep, fmap_app. }
    destruct truncated; [|intros [= <- <-]; by apply Hdone].
    destruct (Hres eq_refl) as [-> [x Hd]].
    assert (Hnew : newest = false).
    { destruct newest; [|done]. unfold recoverSegment in Hrec. repeat case_match; simplify_eq. }
    destruct (sysTruncate _ _ u) as [b' v] eqn:E.
    destruct (sysSync (segmentName t) v) as [b'' v'] eqn:E2.
    destruct (repair_ok _ _ _ _ _ _ _ _ _ _ b'' v' Hcu Hin (Hna Hnew) Hm Hd eq_refl E)
      as (Hcv & Ec' & Hsync).
    destruct b'; cbn [negb]; [|intros [= <- <-]; by eapply ok_fail].
    destruct (Hsync eq_refl E2) as [Hcv' Ec''].
    destruct b''; cbn [negb]; intros [= <- <-]; [by apply Hdone|by eapply ok_fail].
Qed.

(** ** The listing *)

Lemma names_of (l : list (Z * string)) :
  (∀ x, x ∈ l → x.2 = segmentName x.1) → l.*2 = segmentName <$> l.*1.
Proof.
  induction l as [|[i n] l IH]; intros Hl; [done|]. cbn. f_equal; [apply (Hl (i, n)); by left|].
  apply IH. intros x Hx. apply Hl. by right.
Qed.

Lemma sorted_strict (l : list (Z * string)) :
  StronglySorted segLe l → NoDup l.*1 → StronglySorted Z.lt l.*1.
Proof.
  induction 1 as [|[i n] l Hs IH Hall]; cbn; intros Hn; [constructor|].
  apply NoDup_cons in Hn as [Hi Hn]. constructor; [by apply IH|]. rewrite Forall_forall.
  intros j ([j' m] & -> & Hj)%list_elem_of_fmap. cbn in *.
  pose proof (proj1 (Forall_forall _ _) Hall _ Hj) as Hle. unfold segLe in Hle. cbn in Hle.
  assert (i ≠ j'); [|lia]. intros ->. apply Hi. by apply (list_elem_of_fmap_2 fst) in Hj.
Qed.

Lemma NoDup_omap {B C} (f : B → option C) (l : list B) :
  (∀ x y z, f x = Some z → f y = Some z → x = y) → NoDup l → NoDup (omap f l).
Proof.
  intros Hf. induction 1 as [|x l Hx Hn IH]; cbn; [constructor|].
  destruct (f x) as [z|] eqn:E; [|done]. constructor; [|done].
  intros (y & Hy & Ey)%list_elem_of_omap. by rewrite (Hf x y z) in Hx.
Qed.

Lemma listSegments_spec s ss :
  dirRep hd (files s) (entries s) ss →
  ∃ ts, listSegments s = segmentName <$> ts ∧ StronglySorted Z.lt ts ∧ ∀ t, t ∈ ts ↔ t ∈ ss.*1.
Proof.
  intros Hr. unfold listSegments.
  set (l := omap (λ name, (λ i, (i, name)) <$> parseSegmentName name) (elements (dom (files s)))).
  assert (Hl : ∀ i n, (i, n) ∈ l ↔ n = segmentName i ∧ indexOk i ∧ is_Some (files s !! n)).
  { intros i n. unfold l. rewrite list_elem_of_omap. split.
    - intros (m & Hm%elem_of_elements%elem_of_dom & Hp). destruct (parseSegmentName m) as [j|] eqn:E; [|done].
      injection Hp as -> ->. apply parse_name in E as [-> ?]. done.
    - intros (-> & Hi & Hs). exists (segmentName i). rewrite elem_of_elements, elem_of_dom.
      split; [done|]. by rewrite parseSegmentName_segmentName. }
  assert (Hnd : NoDup l).
  { unfold l. apply NoDup_omap; [|apply NoDup_elements]. intros x y z Hx Hy.
    destruct (parseSegmentName x), (parseSegmentName y); cbn in *; simplify_eq; done. }
  pose proof (merge_sort_Permutation segLe l) as Hp. set (m := merge_sort segLe l) in *.
  assert (Hm : ∀ x, x ∈ m → x.2 = segmentName x.1).
  { intros [i n] Hx. rewrite Hp in Hx. by apply Hl in Hx as [-> _]. }
  exists m.*1. split_and!; [by apply names_of| |].
  - apply sorted_strict.
    + assert (Transitive segLe) by (intros x y z; unfold segLe; lia).
      assert (Total segLe) by (intros x y; unfold segLe; lia).
      by apply StronglySorted_merge_sort.
    + apply NoDup_fmap_2_strong; [|by rewrite Hp]. intros [i n] [j n'] Hx Hy. cbn. intros <-.
      f_equal. transitivity (segmentName i); [apply (Hm (i, n))|symmetry; apply (Hm (i, n'))]; done.
  - intros t. rewrite list_elem_of_fmap. split.
    + intros ([i n] & -> & Hx). rewrite Hp in Hx. apply Hl in Hx as (-> & Hi & Hs). cbn.
      by apply (dr_all _ _ _ _ Hr).
    + intros ([i bs] & -> & Hx)%list_elem_of_fmap. destruct (dr_file _ _ _ _ Hr _ _ Hx) as [Hi (f & Hf & _)].
      exists (i, segmentName i). split; [done|]. rewrite Hp. apply Hl. split_and!; [done..|by eexists].
Qed.

Lemma begin_ok s ss k :
  core s ss k → phaseOk hd w ss k s (PRecover (listSegments s) (mkReport [] false [])).
Proof.
  intros Hc. destruct (listSegments_spec s ss (co_rep _ _ _ Hc)) as (ts & E & Hs & Hin).
  exists [], ts. cbn. split_and!; [done..| |].
  - split; [done|intros t; apply Hin| |].
    + intros t u Ht Hu Hlt Ha. apply Hin in Ht, Hu.
      pose proof (good_top _ _ _ (co_good _ _ _ Hc) Ha u Hu). lia.
    + intros t Ht. left. by apply Hin.
  - intros t Ht. left. by apply Hin.
Qed.

(** ** The whole cycle *)

Lemma recovered_upto s ss k rep rs cur :
  core s ss k → Segments rep = segmentName <$> rs → todoOk ss rs [] → readCursor s = Ok cur →
  phaseOk hd w ss k s (PGaps (Gaps rep) (Segments rep) cur).
Proof.
  intros Hc Hrep [Hst Hcov] Hcur. rewrite app_nil_r in *. split; [done|]. exists rs.
  split_and!; [done..|]. intros h Hh t bs Ht Hlt. destruct rs as [|h' rs]; [done|]. injection Hh as ->.
  destruct (Hcov t) as [Hi|Hg]; [by apply (list_elem_of_fmap_2 fst) in Ht| |].
  - destruct Hst as [Hs _ _ _]. inversion Hs as [|? ? _ Hall]; subst.
    apply elem_of_cons in Hi as [->|Hi]; [lia|]. rewrite Forall_forall in Hall.
    specialize (Hall _ Hi). lia.
  - assert (h < t) by (apply Hg; by left). lia.
Qed.

Lemma importStep_ok gapID mtime c im s k im' s' k' :
  ok im s k → importStep gapID mtime c im s k = (im', s', k') → ok im' s' k'.
Proof.
  intros (ss & Hc & Hp). unfold importStep.
  destruct (phase im) as [|todo rep|gaps segs cur|segs cur|seg it r m segs cur|
    seg it r m segs cur|seg eof segs cur] eqn:Ep.
  - destruct (sysPlain s) as [b t] eqn:E. apply sysPlain_frame in E as (Ef & Ee & Ec).
    assert (Hct : core t ss k) by by eapply core_same.
    destruct b; intros [= <- <- <-]; [exists ss; split; [done|by apply begin_ok]|].
    exists ss. by rewrite Ep.
  - destruct Hp as (rs & ts & -> & Hrep & Hst & Hcov). destruct ts as [|t ts]; cbn [fmap list_fmap].
    + destruct (Segments rep) as [|g gs] eqn:Es; [intros [= <- <- <-]; by exists ss|].
      rewrite <- Es in *. destruct (readCursor s) as [cur|] eqn:Hcur; intros [= <- <- <-];
        [|by eapply ok_fail].
      exists ss. split; [done|]. by eapply recovered_upto.
    + destruct (recoverStep _ _ _ _ _ _ _) as [im1 s1] eqn:E. intros [= <- <- <-].
      by eapply recoverStep_ok.
  - destruct gaps as [|g gaps]; [intros [= <- <- <-]; by exists ss|].
    destruct (put c g k) as [res k1] eqn:E. pose proof (put_later _ _ _ _ _ E) as Hl.
    pose proof (core_later _ _ _ _ Hc Hl) as Hck.
    pose proof (phase_later _ _ _ _ _ Hc Hl Hp) as Hpk.
    destruct res; intros [= <- <- <-]; by exists ss.
  - destruct Hp as (Hcur & ts & -> & Hst & Hb). destruct ts as [|t ts]; cbn [fmap list_fmap].
    { intros [= <- <- <-]. by exists ss. }
    specialize (Hb t eq_refl). destruct (negb _ && _) eqn:Epast.
    + destruct (pastStep _ _ _ _ _) as [im1 s1] eqn:E. intros [= <- <- <-]. by eapply pastStep_ok.
    + destruct (openStep _ _ _ _ _) as [im1 s1] eqn:E. intros [= <- <- <-]. by eapply openStep_ok.
  - by eapply readStep_ok.
  - destruct (writeCursor _ s) as [b t] eqn:E. intros Hs.
    assert (k' = k) as -> by (destruct b; by injection Hs).
    eapply (commit_ok s ss k seg it r m segs cur im im' s'); [done..|].
    rewrite E. destruct b; cbn [negb] in *; injection Hs as <- <-; done.
  - destruct Hp as (Hcur & i & ts & bs & -> & -> & Hst & Hb & Hin & Hd).
    destruct (pruneStep _ _ _ _ _ _) as [im1 s1] eqn:E. intros [= <- <- <-]. by eapply pruneStep_ok.
Qed.

End step.

End inv.

End Pipeline.
