(* ===== verification/SpoolSystem.v ===== *)
(** The spool end to end: one VM's directory, its writers one after the other, the
    importer and the store, in any interleaving of their steps.

    A step of a writer is a whole operation; a writer that dies in the middle of
    one is the same operation with every later system call failing, followed by
    the death. *)

From S2P Require Import Prelude Wire Events Segment SpoolWriter SpoolDurable SpoolCrash.
From S2P Require Import Importer SpoolImport.
Import Events Segment Writer Durable Crash Importer Pipeline.

Local Open Scope Z_scope.

Module System.

Section system.
Context `{JsonLaws} {S : Type} `{SinkLaws S}.
Context (errText : SpoolErr → string) (gapID : string) (mtime : string → Z).

(** [acks]: the envelopes an [Append] was answered nil for. *)
Record Spool := mkSpool {
  writer : Writer; wcfg : WriterCfg; dir : FS; importer : Imp; store : S;
  acks : list Envelope }.

Inductive Label :=
  | LWrite (o : WOp)
  | LDie
  | LOpen (cfg : WriterCfg) (now : Z)
  | LImport (c : Ctx)
  | LAbort
  | LStore (k : S).

Definition idleImp (im : Imp) : Imp := goto PIdle im.

(** One step. A writer is opened when there is no other; a cycle is abandoned when
    the daemon stops or its context is cancelled; others use the store. *)
Inductive sstep : Label → Spool → Spool → Prop :=
  | step_write o r st w cfg s im k a :
      wexec cfg errText o (mkSt w s) = (r, st) →
      sstep (LWrite o) (mkSpool w cfg s im k a)
        (mkSpool (wr st) cfg (fs st) im k (a ++ acked [(o, r)]))
  | step_die w cfg s im k a :
      sstep LDie (mkSpool w cfg s im k a) (mkSpool (set_closed true w) cfg s im k a)
  | step_open w cfg s im k a cfg' now w' s' :
      closed w = true → OpenWriter cfg' now s = (Ok w', s') →
      sstep (LOpen cfg' now) (mkSpool w cfg s im k a) (mkSpool w' cfg' s' im k a)
  | step_open_err w cfg s im k a cfg' now e s' :
      closed w = true → OpenWriter cfg' now s = (Err e, s') →
      sstep (LOpen cfg' now) (mkSpool w cfg s im k a) (mkSpool w cfg s' im k a)
  | step_import c w cfg s im k a im' s' k' :
      importStep gapID mtime c im s k = (im', s', k') →
      sstep (LImport c) (mkSpool w cfg s im k a) (mkSpool w cfg s' im' k' a)
  | step_abort w cfg s im k a :
      sstep LAbort (mkSpool w cfg s im k a) (mkSpool w cfg s (idleImp im) k a)
  | step_store w cfg s im k a k' :
      later k k' → sstep (LStore k') (mkSpool w cfg s im k a) (mkSpool w cfg s im k' a).

(** The importer has read the writer's segment to its end and not yet decided
    whether to prune it. *)
Definition atEnd (y : Spool) : Prop :=
  match phase (importer y) with
  | PPrune seg _ _ _ =>
    closed (writer y) = false ∧ damaged (writer y) = false ∧ hName (wf (writer y)) = seg
  | _ => False
  end.

Inductive runs (allowed : Label → Spool → Prop) : nat → Spool → Spool → Prop :=
  | runs_0 y : runs allowed 0 y y
  | runs_S n y1 y2 y3 l :
      runs allowed n y1 y2 → allowed l y2 → sstep l y2 y3 → runs allowed (Datatypes.S n) y1 y3.

(** The writer does not move while the importer is between the end of its segment
    and the decision about it. *)
Definition noRace (l : Label) (y : Spool) : Prop :=
  match l with LWrite _ => ¬ atEnd y | _ => True end.

(** The directory before its first writer, and a store. *)
Definition initial (y : Spool) : Prop :=
  closed (writer y) = true ∧ files (dir y) = ∅ ∧ entries (dir y) = ∅ ∧
  cursorFile (dir y) = None ∧ phase (importer y) = PIdle ∧ acks y = [].

(** * The invariant *)

Record writerOk (n : Z) (hd : Z → string * string) (y : Spool) : Prop := {
  wo_own : ∃ k0, 0 ≤ k0 ≤ segIdx (writer y) ∧
    ∀ j, k0 ≤ j → hd j = (cfgVMID (wcfg y), cfgInstanceID (wcfg y));
  wo_counted : counted n (writer y);
  wo_index : segIdx (writer y) ≤ maxSegmentIndex + n
}.

Record sysOk (n : Z) (hd : Z → string * string) (A : list (list Z)) (ss : Segs) (y : Spool) : Prop := {
  so_core : core hd (writer y) A (dir y) ss (store y);
  so_phase : phaseOk hd (writer y) ss (store y) (dir y) (phase (importer y));
  so_writer : closed (writer y) = false → writerOk n hd y;
  so_acks : Forall2 (λ env b, marshal env = Some b) (acks y) A
}.

Definition inv (n : Z) (y : Spool) : Prop := ∃ hd A ss, sysOk n hd A ss y.

Lemma writerOk_mono n n' hd y : n ≤ n' → writerOk n hd y → writerOk n' hd y.
Proof.
  intros Hn [Ho Hc Hi]. split; [done| |lia]. intros o E. destruct (Hc o E). lia.
Qed.

Lemma wexec_closed cfg o s r st :
  closed (wr s) = true → wexec cfg errText o s = (r, st) → st = s ∧ acked [(o, r)] = [].
Proof.
  intros Hc. destruct o as [env now|now]; cbn [wexec]; unfold Append, Close, getw, mbind, M_bind;
    rewrite Hc; by intros [= <- <-].
Qed.

(** A move of the writer or the store, with what the importer knows. *)
Lemma core_carry hd hd' w w' A A' s s' ss ss' k k' p :
  core hd w A s ss k → carries (cidx s) hd w ss k hd' w' ss' k' → good hd' w' s' ss' →
  cursorFile s' = cursorFile s → (closed w' = false → ∀ i, cidx s = Some i → i ≤ segIdx w') →
  (∀ b, b ∈ A' → b ∈ A ∨ ∃ i bs, (i, bs) ∈ ss' ∧ b ∈ bs) →
  quietFor p w ∨ ss' = ss → phaseOk hd w ss k s p →
  core hd' w' A' s' ss' k' ∧ phaseOk hd' w' ss' k' s' p.
Proof.
  intros [Hg Hc Hl] C Hg' Hcu Hidx HA Hq Hp. split; [|by eapply (carry_phase C)].
  split; [done| |].
  - rewrite Hcu. eapply (carry_cursor C); [|done..]. intros cur E. unfold cidx. by rewrite E.
  - intros b [Hb|?]%HA; [|by right]. destruct (Hl b Hb) as [Hd|(i & bs & Hin & Hbs)].
    + left. eapply delivered_later; [apply C|done].
    + right. destruct (carry_seg C i bs Hin) as (bs' & Hin' & Hpre). exists i, bs'. split; [done|].
      destruct Hpre as [->|[_ [tl ->]]]; [done|]. apply elem_of_app. by left.
Qed.

Lemma core_carries hd hd' w w' A s ss ss' k :
  core hd w A s ss k → move (cidx s) w ss w' ss' → (∀ i, i ∈ ss.*1 → hd i = hd' i) →
  carries (cidx s) hd w ss k hd' w' ss' k.
Proof.
  intros Hc Hm Hh. destruct (carries_later hd w A s ss k k Hc (later_refl k)) as [_ Hl _ Hs Ht].
  by split.
Qed.

Lemma added_sub k ss bs ss' b :
  added k ss bs ss' → b ∈ bs → ∃ i cs, (i, cs) ∈ ss' ∧ b ∈ cs.
Proof.
  intros Ha%added_concat Hb.
  assert (Hin : b ∈ concat ss'.*2) by (rewrite Ha; apply elem_of_app; by right).
  apply list_elem_of_In, in_concat in Hin as (cs & Hcs%list_elem_of_In & Hb'%list_elem_of_In).
  apply list_elem_of_fmap in Hcs as ([i cs'] & -> & Hin). by exists i, cs'.
Qed.

Lemma events_bodies cfg rs bs ack :
  Forall2 (recBody cfg) rs bs → eventsOf rs = ack →
  ∃ B, Forall2 (λ env b, marshal env = Some b) ack B ∧ ∀ b, b ∈ B → b ∈ bs.
Proof.
  intros HF. revert ack. induction HF as [|r b rs bs Hr HF IH]; intros ack; cbn.
  { intros <-. exists []. by split; [constructor|]. }
  destruct r as [env|o]; cbn.
  - intros <-. destruct (IH _ eq_refl) as (B & HB & Hsub). exists (b :: B). split; [by constructor|].
    intros b' [->|Hb]%elem_of_cons; [by left|right; by apply Hsub].
  - intros E. destruct (IH _ E) as (B & HB & Hsub). exists B. split; [done|].
    intros b' Hb. right. by apply Hsub.
Qed.

(** ** Every step keeps it *)

Lemma quiet_noRace hd w A s ss k cfg im a :
  core hd w A s ss k → ¬ atEnd (mkSpool w cfg s im k a) → quietFor (phase im) w.
Proof.
  intros [Hg _ _] Hn. unfold quietFor, atEnd in *. cbn in Hn. destruct (phase im); try done.
  intros i -> (Hc & Hd & Hi). apply Hn. split_and!; [done..|]. unfold good in Hg. rewrite Hc in Hg.
  destruct Hg as [(j & bs & x & (Hname & _) & Hj)|[? _]]; [|congruence].
  destruct (Hj Hd) as (-> & _). by rewrite Hname, Hi.
Qed.

Lemma inv_write n w cfg s im k a o r st :
  inv n (mkSpool w cfg s im k a) → 0 ≤ n < 2 ^ 62 → ¬ atEnd (mkSpool w cfg s im k a) →
  wexec cfg errText o (mkSt w s) = (r, st) →
  inv (n + 1) (mkSpool (wr st) cfg (fs st) im k (a ++ acked [(o, r)])).
Proof.
  intros (hd & A & ss & [Hco Hp Hw HA]) Hn Hq He. cbn [writer wcfg dir importer store acks] in *.
  destruct (closed w) eqn:Hc.
  { apply wexec_closed in He as [-> ->]; [|done]. rewrite app_nil_r. exists hd, A, ss.
    split; cbn; [done..| |done]. congruence. }
  destruct (Hw eq_refl) as [(k0 & Hk0 & Hown) Hcnt Hidx]. cbn [writer wcfg] in *.
  unfold maxSegmentIndex in Hidx.
  pose proof (wexec_good cfg errText hd k0 ltac:(lia) Hown o n (mkSt w s) ss) as Hg.
  cbn [wr fs] in Hg.
  specialize (Hg (co_good _ _ _ _ _ _ Hco) Hcnt). destruct Hg as (ss' & Hg' & Hcnt' & Hdid);
    [unfold Int.MaxUint64; lia|lia|lia|]. rewrite He in Hg', Hcnt', Hdid. cbn [fst snd] in *.
  assert (Hcur : cursorFile (fs st) = cursorFile s).
  { pose proof (keepsCur_wexec cfg errText o (mkSt w s)) as Hk. by rewrite He in Hk. }
  assert (Hmv : move (cidx s) w ss (wr st) ss').
  { pose proof (co_good _ _ _ _ _ _ Hco) as Hg. unfold good in Hg. rewrite Hc in Hg.
    eapply did_move; [exact Hg|done|apply good_rep in Hg'; apply Hg'|exact Hdid|].
    intros t Ht. eapply cursor_idx; [apply Hco|done..]. }
  pose proof Hdid as (rs & bs & Ha & HF & Hev & _ & [Hi _]).
  destruct (events_bodies _ _ _ _ HF Hev) as (B & HB & Hsub).
  destruct (core_carry hd hd w (wr st) A (A ++ B) s (fs st) ss ss' k k (phase im)) as [Hco' Hp'].
  - done.
  - by eapply core_carries.
  - done.
  - done.
  - intros Hcl i Hi'. pose proof (cursor_idx _ _ _ _ _ (co_cursor _ _ _ _ _ _ Hco) Hc Hi'). lia.
  - intros b [Hb|Hb]%elem_of_app; [by left|right]. eapply added_sub; [exact Ha|]. by apply Hsub.
  - left. by eapply quiet_noRace.
  - done.
  - exists hd, (A ++ B), ss'. split; cbn; [done|done| |].
    + intros _. split; cbn; [exists k0; split; [lia|done]|done|unfold maxSegmentIndex; lia].
    + by apply Forall2_app.
Qed.

Lemma inv_open n w cfg s im k a cfg' now w' s' :
  inv n (mkSpool w cfg s im k a) → 0 ≤ n → closed w = true →
  OpenWriter cfg' now s = (Ok w', s') → inv n (mkSpool w' cfg' s' im k a).
Proof.
  intros (hd & A & ss & [Hco Hp _ HA]) Hn Hc Ho. cbn [writer wcfg dir importer store acks] in *.
  pose proof (co_rep _ _ _ _ _ _ Hco) as Hr.
  destruct (OpenWriter_good _ _ _ _ _ _ _ Hr Ho) as (Hw' & Hcl & Hout & Hix & Hcur & Hfr & Hfc).
  set (hd' := ownFrom cfg' (segIdx w') hd) in *. set (ss' := ss ++ [(segIdx w', [])]) in *.
  assert (Hci : ∀ i, cidx s = Some i → i < segIdx w').
  { intros i Hi. unfold cidx in Hi. destruct (cursorFile s) as [c|] eqn:E; [|done]. cbn in Hi.
    apply parse_name in Hi as [Hi Hio]. by eapply Hfc. }
  assert (Hmv : move (cidx s) w ss w' ss').
  { split.
    - intros i Hi. unfold ss'. rewrite fmap_app, elem_of_app. by left.
    - intros i bs' [Hin|Hin%list_elem_of_singleton]%elem_of_app; [right; exists bs'; by split; [|left]|].
      injection Hin as -> ->. left. by split.
    - intros i Hi (_ & _ & E). specialize (Hfr i Hi). lia. }
  destruct (core_carry hd hd' w w' A A s s' ss ss' k k (phase im)) as [Hco' Hp'].
  - done.
  - eapply core_carries; [done..|]. intros i Hi. unfold hd', ownFrom.
    by rewrite (proj2 (Z.ltb_lt _ _)) by by apply Hfr.
  - unfold good. by rewrite Hcl.
  - done.
  - intros _ i Hi%Hci. lia.
  - intros b Hb. by left.
  - left. unfold quietFor. destruct (phase im); try done. intros i _ (Hc' & _). congruence.
  - done.
  - exists hd', A, ss'. split; cbn; [done|done| |done]. intros _. destruct Hix as [Hx1 Hx2].
    split; cbn; [exists (segIdx w'); split; [lia|]; apply ownFrom_own| |lia].
    intros o. by rewrite Hout.
Qed.

Lemma inv_open_err n w cfg s im k a cfg' now e s' :
  inv n (mkSpool w cfg s im k a) → closed w = true →
  OpenWriter cfg' now s = (Err e, s') → inv n (mkSpool w cfg s' im k a).
Proof.
  intros (hd & A & ss & [Hco Hp _ HA]) Hc Ho. cbn [writer wcfg dir importer store acks] in *.
  pose proof (co_rep _ _ _ _ _ _ Hco) as Hr.
  destruct (OpenWriter_fails _ _ _ _ _ _ _ Hr Ho) as (Hcur & hd' & ss' & Hd & Hh & Hss).
  assert (Hmv : move (cidx s) w ss w ss').
  { destruct Hss as [->|(i & -> & Hfr & Hfc)]; [apply move_refl|]. split; [| |done].
    - intros t Ht. rewrite fmap_app, elem_of_app. by left.
    - intros t bs' [Hin|Hin%list_elem_of_singleton]%elem_of_app; [right; exists bs'; by split; [|left]|].
      injection Hin as -> ->. left. split; [done|]. intros t Ht. unfold cidx in Ht.
      destruct (cursorFile s) as [c|] eqn:E; [|done]. cbn in Ht.
      apply parse_name in Ht as [Ht Hto]. by eapply Hfc. }
  destruct (core_carry hd hd' w w A A s s' ss ss' k k (phase im)) as [Hco' Hp'].
  - done.
  - by eapply core_carries.
  - unfold good. by rewrite Hc.
  - done.
  - congruence.
  - intros b Hb. by left.
  - left. unfold quietFor. destruct (phase im); try done. intros i _ (Hc' & _). congruence.
  - done.
  - exists hd', A, ss'. split; cbn; [done|done|congruence|done].
Qed.

Lemma inv_die n w cfg s im k a :
  inv n (mkSpool w cfg s im k a) → inv n (mkSpool (set_closed true w) cfg s im k a).
Proof.
  intros (hd & A & ss & [Hco Hp _ HA]). cbn [writer wcfg dir importer store acks] in *.
  assert (Hmv : move (cidx s) w ss (set_closed true w) ss).
  { split; [done| |by intros i _ (? & _)]. intros i bs' Hin. right. exists bs'. by split; [|left]. }
  destruct (core_carry hd hd w (set_closed true w) A A s s ss ss k k (phase im)) as [Hco' Hp'];
    [done|by eapply core_carries|eapply co_rep, Hco|done|done|by left|by right|done|].
  exists hd, A, ss. by split; cbn.
Qed.

Lemma inv_import n w cfg s im k a c im' s' k' :
  inv n (mkSpool w cfg s im k a) → importStep gapID mtime c im s k = (im', s', k') →
  inv n (mkSpool w cfg s' im' k' a).
Proof.
  intros (hd & A & ss & [Hco Hp Hw HA]) Hs.
  destruct (importStep_ok hd w A gapID mtime c im s k im' s' k') as (ss' & Hco' & Hp');
    [by exists ss|done|]. exists hd, A, ss'. split; cbn; [done..| |done].
  intros Hc. destruct (Hw Hc) as [? ? ?]. by split.
Qed.

Lemma spool_step n l y y' :
  inv n y → 0 ≤ n < 2 ^ 62 → noRace l y → sstep l y y' → inv (n + 1) y'.
Proof.
  intros Hi Hn Hq Hs.
  assert (Hmono : ∀ z, inv n z → inv (n + 1) z).
  { intros z (hd & A & ss & [Hco Hp Hw HA]). exists hd, A, ss. split; [done..| |done].
    intros Hc. eapply writerOk_mono; [|by apply Hw]. lia. }
  destruct Hs.
  - by eapply inv_write.
  - apply Hmono. by eapply inv_die.
  - apply Hmono. eapply inv_open; [done|lia|done..].
  - apply Hmono. by eapply inv_open_err.
  - apply Hmono. by eapply inv_import.
  - apply Hmono. destruct Hi as (hd & A & ss & [Hco Hp Hw HA]). exists hd, A, ss.
    split; cbn; [done..| |done]. intros Hc. destruct (Hw Hc) as [? ? ?]. by split.
  - apply Hmono. destruct Hi as (hd & A & ss & [Hco Hp Hw HA]). exists hd, A, ss. cbn in *.
    split; cbn; [by eapply core_later|by eapply phase_later| |done].
    intros Hc. destruct (Hw Hc) as [? ? ?]. by split.
Qed.

Lemma inv_initial y : initial y → inv 0 y.
Proof.
  intros (Hc & Hf & He & Hcu & Hp & Ha). exists (λ _, ("", "")), [], [].
  split; [|by rewrite Hp|congruence|rewrite Ha; constructor].
  split; [|by rewrite Hcu|by intros b ?%elem_of_nil].
  unfold good. rewrite Hc, Hf, He. apply dirRep_empty.
Qed.

Lemma inv_runs n y y' :
  initial y → runs noRace n y y' → Z.of_nat n < 2 ^ 62 → inv (Z.of_nat n) y'.
Proof.
  intros Hi Hr. induction Hr as [|n y1 y2 y3 l Hr IH Hl Hs]; intros Hn; [by apply inv_initial|].
  rewrite Nat2Z.inj_succ in *. eapply spool_step; [apply IH; [done|lia]|lia|done..].
Qed.

(** ** What a reader of the directory finds *)

(** Record [r] of segment [seg] comes after the cursor. *)
Definition ahead (c : option cursor) (seg : string) (r : nat) : Prop :=
  match c with
  | None => True
  | Some c => String.ltb (cSegment c) seg = true ∨
      cSegment c = seg ∧ cRecord c < Z.of_nat r
  end.

Lemma omap_lookup_all (bs : list (list Z)) r b env :
  Forall recordOk bs → bs !! r = Some b → unmarshal b = Some env →
  omap unmarshal bs !! r = Some env.
Proof.
  intros Hb. revert r. induction Hb as [|c bs (_ & [e He] & _) Hb IH]; intros r; [done|].
  cbn. rewrite He. destruct r as [|r]; cbn; [intros [= ->] E; congruence|apply IH].
Qed.

Lemma seg_reads hd m ents ss i bs r b env :
  dirRep hd m ents ss → (i, bs) ∈ ss → bs !! r = Some b → unmarshal b = Some env →
  ∃ f it l eof, m !! segmentName i = Some f ∧ ReadSegment (data f) = Ok it ∧
    readAll (data f) it = (l, eof) ∧ l !! r = Some env.
Proof.
  intros Hr Hin Hb He. destruct (dr_file _ _ _ _ Hr _ _ Hin) as [_ (f & Hf & Hs)].
  destruct Hs as [(x & Hd & _ & Hok & _)|[-> _]]; [|done].
  destruct (readAll_layout (hdr hd i) bs x Hok) as [fuel E].
  destruct (readFrom _ _ _) as [l eof]. eexists f, _, _, eof. split; [done|]. rewrite Hd.
  split; [apply ReadSegment_layout|]. split; [exact E|].
  apply lookup_app_l_Some. by eapply omap_lookup_all.
Qed.

(** A record in the directory is delivered or ahead of the cursor. *)
Lemma core_ahead hd w A s ss k i bs r b :
  core hd w A s ss k → (i, bs) ∈ ss → bs !! r = Some b →
  delivered k b ∨ ahead (cursorFile s) (segmentName i) r.
Proof.
  intros Hc Hin Hb. unfold ahead. destruct (cursorFile s) as [c|] eqn:E; [|by right].
  destruct (co_cursor _ _ _ _ _ _ Hc c E) as (j & Ej & Hj & Hr & _ & Hbe & Hcov).
  destruct (dr_file _ _ _ _ (co_rep _ _ _ _ _ _ Hc) _ _ Hin) as [Hi _].
  rewrite Ej. unfold String.ltb. rewrite segmentName_compare by done.
  destruct (Z.compare_spec j i) as [->|Hlt|Hgt]; [|by right; left|].
  - destruct (decide (cRecord c < Z.of_nat r)); [by right; right|left].
    destruct (Hcov bs Hin) as [Hd _]. rewrite Forall_forall in Hd. apply Hd.
    apply elem_of_take. exists r. split; [done|lia].
  - left. specialize (Hbe i bs Hin Hgt). rewrite Forall_forall in Hbe.
    apply Hbe. by eapply list_elem_of_lookup_2.
Qed.

Lemma inv_lossless n y env :
  inv n y → env ∈ acks y →
  ∃ b env', marshal env = Some b ∧ unmarshal b = Some env' ∧
    (holds env' (store y) ∨
     ∃ i f it l eof r, indexOk i ∧ files (dir y) !! segmentName i = Some f ∧
       ReadSegment (data f) = Ok it ∧ readAll (data f) it = (l, eof) ∧ l !! r = Some env' ∧
       ahead (cursorFile (dir y)) (segmentName i) r).
Proof.
  intros (hd & A & ss & [Hco _ _ HA]) Henv.
  apply list_elem_of_lookup in Henv as [q Hq].
  destruct (Forall2_lookup_l _ _ _ _ _ HA Hq) as (b & Hb & Hm).
  destruct (marshal_decodes env b Hm) as [env' He]. exists b, env'. split_and!; [done..|].
  assert (Hdel : delivered (store y) b → holds env' (store y)).
  { intros (e & E & Hh). congruence. }
  destruct (co_ledger _ _ _ _ _ _ Hco b) as [Hd|(i & bs & Hin & Hbs)];
    [by eapply list_elem_of_lookup_2|left; by apply Hdel|].
  apply list_elem_of_lookup in Hbs as [r Hr].
  destruct (core_ahead _ _ _ _ _ _ _ _ _ _ Hco Hin Hr) as [Hd|Ha]; [left; by apply Hdel|right].
  destruct (seg_reads _ _ _ _ _ _ _ _ _ (co_rep _ _ _ _ _ _ Hco) Hin Hr He)
    as (f & it & l & eof & Hf & Hrs & Hra & Hl).
  exists i, f, it, l, eof, r. split; [|done].
  apply (dr_file _ _ _ _ (co_rep _ _ _ _ _ _ Hco) _ _ Hin).
Qed.

(** ** Running the steps *)

Definition sexec (l : Label) (y : Spool) : option Spool :=
  let '(mkSpool w cfg s im k a) := y in
  match l with
  | LWrite o =>
    let '(r, st) := wexec cfg errText o (mkSt w s) in
    Some (mkSpool (wr st) cfg (fs st) im k (a ++ acked [(o, r)]))
  | LDie => Some (mkSpool (set_closed true w) cfg s im k a)
  | LOpen cfg' now =>
    if negb (closed w) then None else
    match OpenWriter cfg' now s with
    | (Ok w', s') => Some (mkSpool w' cfg' s' im k a)
    | (Err _, s') => Some (mkSpool w cfg s' im k a)
    end
  | LImport c =>
    let '(im', s', k') := importStep gapID mtime c im s k in Some (mkSpool w cfg s' im' k' a)
  | LAbort => Some (mkSpool w cfg s (idleImp im) k a)
  | LStore _ => None
  end.

Lemma sexec_sstep l y y' : sexec l y = Some y' → sstep l y y'.
Proof.
  destruct y as [w cfg s im k a]; destruct l as [o| |cfg' now|c| |k']; cbn [sexec].
  - destruct (wexec _ _ _ _) as [r st] eqn:E. intros [= <-]. by constructor.
  - intros [= <-]. constructor.
  - destruct (closed w) eqn:Hc; [|done]. cbn [negb].
    destruct (OpenWriter cfg' now s) as [[w'|e] s'] eqn:E; intros [= <-]; by econstructor.
  - destruct (importStep _ _ _ _ _ _) as [[im' s'] k'] eqn:E. intros [= <-]. by constructor.
  - intros [= <-]. constructor.
  - done.
Qed.

(** [bad l y] forbids the label in the state. *)
Fixpoint srun (bad : Label → Spool → bool) (ls : list Label) (y : Spool) : option Spool :=
  match ls with
  | [] => Some y
  | l :: ls => if bad l y then None else y' ← sexec l y; srun bad ls y'
  end.

Lemma runs_trans P n m y1 y2 y3 : runs P n y1 y2 → runs P m y2 y3 → runs P (m + n) y1 y3.
Proof.
  intros H12 H23. induction H23 as [|m y2 y3 y4 l _ IH Hl Hs]; [done|].
  cbn. econstructor; [by apply IH|done..].
Qed.

Lemma srun_runs (P : Label → Spool → Prop) bad ls y y' :
  (∀ l y, bad l y = false → P l y) → srun bad ls y = Some y' → runs P (length ls) y y'.
Proof.
  intros HP. revert y. induction ls as [|l ls IH]; intros y; cbn [srun length].
  { intros [= <-]. constructor. }
  destruct (bad l y) eqn:Hb; [done|]. destruct (sexec l y) as [y1|] eqn:E; [|done]. cbn.
  intros Hr%IH. rewrite <- Nat.add_1_r. eapply runs_trans; [|exact Hr].
  econstructor; [constructor|by apply HP|by apply sexec_sstep].
Qed.

End system.

(** C21: No acknowledged event is lost between the writer and the store. Take a
    directory that starts empty, any writers one after the other (each may die at
    any point), the importer (its cycles may be abandoned at any point), a store
    others use too, and any interleaving of their steps under any pattern of
    failing system calls, provided the writer does not move between the moment the
    importer has read that writer's segment to its end and its decision to prune
    it. Then the store holds every acknowledged event, or the event is still read
    from a segment on disk, ahead of the cursor. *)
Theorem import_lossless `{JsonLaws} {S} `{SinkLaws S} errText gapID mtime n y y' env :
  initial y → runs errText gapID mtime noRace n y y' → Z.of_nat n < 2 ^ 62 → env ∈ acks y' →
  ∃ b env', marshal env = Some b ∧ unmarshal b = Some env' ∧
    (holds env' (store y') ∨
     ∃ seg f it l eof r, files (dir y') !! seg = Some f ∧ ReadSegment (data f) = Ok it ∧
       readAll (data f) it = (l, eof) ∧ l !! r = Some env' ∧ ahead (cursorFile (dir y')) seg r).
Proof.
  intros Hi Hr Hn Henv.
  destruct (inv_lossless _ _ _ (inv_runs _ _ _ _ _ _ Hi Hr Hn) Henv)
    as (b & env' & Hb & He & [Hh|(i & f & it & l & eof & r & _ & Hrest)]); exists b, env';
    (split; [done|]; split; [done|]); [by left|right].
  by exists (segmentName i), f, it, l, eof, r.
Qed.

End System.
