(* ===== verification/SpoolLive.v ===== *)
(** An import cycle that nothing disturbs ends, and imports everything. *)

From S2P Require Import Prelude Wire Events Segment SpoolWriter SpoolDurable SpoolCrash.
From S2P Require Import Importer SpoolImport SpoolSystem.
Import Events Segment Writer Durable Crash Importer Pipeline System.

Local Open Scope Z_scope.

Module Live.

Section live.
Context `{JsonLaws} {S : Type} `{SinkLaws S} (gapID : string) (mtime : string → Z) (c : Ctx).

(** The store takes every envelope of [E], in any order, from the states [P]. *)
Context (P : S → Prop) (E : Envelope → Prop).
Context (Hacc : ∀ env k, E env → P k →
  ∃ r k', put c env k = (r, k') ∧ (r = Stored ∨ r = Duplicate) ∧ P k').

Definition istep (x y : Imp * FS * S) : Prop :=
  importStep gapID mtime c x.1.1 x.1.2 x.2 = y.

(** * Files *)

(** A segment of the records [cs], read to its end without an error. *)
Definition whole (f : File) (cs : list (list Z)) : Prop :=
  Forall recordOk cs ∧ ∃ vm inst x, data f = layout (segHeader vm inst) cs x ∧ quiet x.

Definition shape (f : File) : Prop := (∃ cs, whole f cs) ∨ newline ∉ data f.

Definition reads (f : File) (r : nat) (env : Envelope) : Prop :=
  ∃ it l eof, ReadSegment (data f) = Ok it ∧ readAll (data f) it = (l, eof) ∧ l !! r = Some env.

Lemma whole_reads f cs r env : whole f cs → reads f r env ↔ omap unmarshal cs !! r = Some env.
Proof.
  intros (Hc & vm & inst & x & Hd & Hq). unfold reads. rewrite Hd. split.
  - intros (it & l & eof & Hi & Hl & Hr). rewrite ReadSegment_layout in Hi. injection Hi as <-.
    rewrite readAll_quiet in Hl by done. by injection Hl as <- <-.
  - intros Hr. eexists _, _, true. by rewrite ReadSegment_layout, readAll_quiet.
Qed.

Lemma headerless_reads f r env : newline ∉ data f → ¬ reads f r env.
Proof. intros Hn (it & l & eof & Hi & _). unfold ReadSegment in Hi. by rewrite ReadLine_none in Hi. Qed.

Lemma length_omap_ok cs : Forall recordOk cs → length (omap unmarshal cs) = length cs.
Proof.
  induction 1 as [|b cs (_ & [e He] & _) Hb IH]; [done|]. cbn. rewrite He. cbn. by rewrite IH.
Qed.

Record fine (s : FS) : Prop := {
  fi_orc : orc s = [];
  fi_shape t f : indexOk t → files s !! segmentName t = Some f → shape f;
  fi_E t f r env : indexOk t → files s !! segmentName t = Some f → reads f r env → E env;
  fi_cur cur : cursorFile s = Some cur →
    ∃ j, cSegment cur = segmentName j ∧ indexOk j ∧ 0 ≤ cRecord cur
}.

(** Files may go, or keep their records. *)
Lemma fine_files s s' :
  fine s → orc s' = [] → cursorFile s' = cursorFile s →
  (∀ t f', indexOk t → files s' !! segmentName t = Some f' →
     ∃ f, files s !! segmentName t = Some f ∧
       (data f' = data f ∨ ∃ cs, whole f cs ∧ whole f' cs)) → fine s'.
Proof.
  intros [_ Hs HE Hc] Ho Hcu Hf. split; [done| | |by rewrite Hcu].
  - intros t f' Ht Hf'. destruct (Hf t f' Ht Hf') as (f & Hm & [Hd|(cs & Hw & Hw')]).
    + specialize (Hs t f Ht Hm). unfold shape, whole in *. by rewrite Hd.
    + left. by exists cs.
  - intros t f' r env Ht Hf' Hr. destruct (Hf t f' Ht Hf') as (f & Hm & [Hd|(cs & Hw & Hw')]);
      (eapply (HE t f r); [done..|]).
    + unfold reads in *. by rewrite <- Hd.
    + eapply (whole_reads f cs); [done|]. by eapply (whole_reads f' cs).
Qed.

Lemma sysPlain_fine s b t :
  fine s → sysPlain s = (b, t) → b = true ∧ fine t ∧ files t = files s ∧ cursorFile t = cursorFile s.
Proof.
  intros Hf. unfold sysPlain, sys. rewrite (fi_orc _ Hf). intros [= <- <-]. split_and!; [done| |done|done].
  eapply fine_files; [exact Hf|done|done|]. cbn. eauto.
Qed.

Lemma sysRemove_fine s name b t :
  fine s → sysRemove name s = (b, t) →
  b = true ∧ fine t ∧ files t = delete name (files s) ∧ cursorFile t = cursorFile s.
Proof.
  intros Hf. unfold sysRemove, sys. rewrite (fi_orc _ Hf). intros [= <- <-]. cbn.
  split_and!; [done| |done|done]. eapply fine_files; [exact Hf|done|done|]. cbn.
  intros i f' Hi [_ Hl]%lookup_delete_Some. eauto.
Qed.

Lemma whole_kept vm inst cs syn st :
  Forall recordOk cs → whole (mkFile (layout (segHeader vm inst) cs []) syn st) cs.
Proof. intros Hc. split; [done|]. exists vm, inst, []. split; [done|by left]. Qed.

(** The repair of a whole file succeeds and keeps it whole. *)
Lemma repair_fine s i f cs vm inst x b t :
  fine s → indexOk i → files s !! segmentName i = Some f → Forall recordOk cs →
  data f = layout (segHeader vm inst) cs x → quiet x →
  sysTruncate (segmentName i) (length (layout (segHeader vm inst) cs [])) s = (b, t) →
  b = true ∧ fine t ∧ cursorFile t = cursorFile s ∧
  ∃ f', files t = <[segmentName i := f']> (files s) ∧ whole f' cs ∧
    data f' = layout (segHeader vm inst) cs [].
Proof.
  intros Hf Hi Hm Hc Hd Hq Ht.
  destruct (sysTruncate_frame' _ _ _ _ _ _ Ht Hm) as (_ & Ec & Ef).
  unfold sysTruncate, sys in Ht. rewrite (fi_orc _ Hf) in Ht. injection Ht as <- <-.
  rewrite take_app_le, Hd, take_layout in Ef
    by (rewrite Hd, (layout_nil _ _ x), length_app; lia).
  split_and!; [done| |done|by eexists; split; [exact Ef|split; [by apply whole_kept|done]]].
  eapply fine_files; [exact Hf|done|done|]. intros u f'. rewrite Ef. intros Hu.
  rewrite lookup_insert. case_decide as E0; [|by eauto]. apply segmentName_inj in E0 as <-; [|done..].
  intros [= <-]. exists f. split; [done|]. right. exists cs. split; [|by apply whole_kept].
  split; [done|]. by exists vm, inst, x.
Qed.

Lemma sync_fine s i f b t :
  fine s → indexOk i → files s !! segmentName i = Some f → sysSync (segmentName i) s = (b, t) →
  b = true ∧ fine t ∧ cursorFile t = cursorFile s ∧
  ∃ f', files t = <[segmentName i := f']> (files s) ∧ data f' = data f.
Proof.
  intros Hf Hi Hm Hs. destruct (sysSync_frame' _ _ _ _ _ Hs Hm) as (_ & Ec & n & st & Ef & _).
  unfold sysSync, sys in Hs. rewrite (fi_orc _ Hf) in Hs. injection Hs as <- <-.
  split_and!; [done| |done|by eexists; split; [exact Ef|]].
  eapply fine_files; [exact Hf|done|done|]. intros u f'. rewrite Ef. intros Hu.
  rewrite lookup_insert. case_decide as E0; [|by eauto]. intros [= <-].
  apply segmentName_inj in E0 as <-; [|done..]. exists f. split; [done|by left].
Qed.

(** * Recovery *)

(** What one segment's recovery leaves: the segment listed and whole, or a file
    without a header. *)
Definition settled (t : Z) (rep rep' : RecoverReport) (s' : FS) : Prop :=
  (Segments rep' = Segments rep ++ [segmentName t] ∧
     ∃ f' cs, files s' !! segmentName t = Some f' ∧ whole f' cs) ∨
  (Segments rep' = Segments rep ∧
     ∀ f', files s' !! segmentName t = Some f' → newline ∉ data f').

Lemma recover_whole s i f cs newest im todo rep :
  fine s → indexOk i → files s !! segmentName i = Some f → whole f cs →
  newest = (match todo with [] => true | _ => false end) →
  ∃ s' rep', recoverStep gapID mtime (segmentName i) todo rep im s = (goto (PRecover todo rep') im, s') ∧
    Gaps rep' = Gaps rep ∧ fine s' ∧ cursorFile s' = cursorFile s ∧
    (∀ u, u ≠ i → indexOk u → files s' !! segmentName u = files s !! segmentName u) ∧
    settled i rep rep' s'.
Proof.
  intros Hf Hi Hm (Hc & vm & inst & x & Hd & Hq) En. unfold recoverStep. rewrite <- En.
  destruct (sysPlain s) as [b t] eqn:E1. destruct (sysPlain_fine _ _ _ Hf E1) as (-> & Hf1 & Ef1 & Ec1).
  cbn [negb]. rewrite Ef1, Hm, Hd, recoverSegment_layout by (done || by apply recordOk_bodyOk).
  assert (Hkeep : ∀ rep', Segments rep' = Segments rep ++ [segmentName i] → settled i rep rep' t).
  { intros rep' Es. left. split; [done|]. exists f, cs. rewrite Ef1. split; [done|].
    split; [done|]. by exists vm, inst, x. }
  destruct (record1 x) eqn:Ex; try (destruct Hq; congruence).
  - destruct (newest || _).
    + eexists t, _. split; [reflexivity|]. split; [apply app_nil_r|]. split; [done|].
      split; [done|]. split; [by rewrite Ef1|]. by apply Hkeep.
    + destruct (sysTruncate _ _ t) as [b2 t2] eqn:E2.
      assert (Hm1 : files t !! segmentName i = Some f) by by rewrite Ef1.
      destruct (repair_fine _ _ _ _ _ _ _ _ _ Hf1 Hi Hm1 Hc Hd Hq E2)
        as (-> & Hf2 & Ec2 & f2 & Ef2 & Hw2 & Hd2). cbn [negb].
      destruct (sysSync (segmentName i) t2) as [b3 t3] eqn:E3.
      destruct (sync_fine _ _ f2 _ _ Hf2 Hi ltac:(by rewrite Ef2, lookup_insert_eq) E3)
        as (-> & Hf3 & Ec3 & f3 & Ef3 & Hd3). cbn [negb].
      eexists t3, _. split; [reflexivity|]. split; [apply app_nil_r|]. split; [done|].
      split; [congruence|]. split.
      * intros u Hu Huo. assert (segmentName i ≠ segmentName u) by (apply name_ne; [done..|congruence]).
        by rewrite Ef3, lookup_insert_ne, Ef2, lookup_insert_ne, Ef1 by done.
      * left. split; [done|]. exists f3, cs. rewrite Ef3, lookup_insert_eq. split; [done|].
        unfold whole in *. by rewrite Hd3.
  - eexists t, _. split; [reflexivity|]. split; [apply app_nil_r|]. split; [done|].
    split; [done|]. split; [by rewrite Ef1|]. by apply Hkeep.
Qed.

Lemma recover_headerless s i f im todo rep :
  fine s → indexOk i → files s !! segmentName i = Some f → newline ∉ data f →
  ∃ s', recoverStep gapID mtime (segmentName i) todo rep im s = (goto (PRecover todo rep) im, s') ∧
    fine s' ∧ cursorFile s' = cursorFile s ∧
    (∀ u, u ≠ i → indexOk u → files s' !! segmentName u = files s !! segmentName u) ∧
    settled i rep rep s'.
Proof.
  intros Hf Hi Hm Hn. unfold recoverStep.
  destruct (sysPlain s) as [b t] eqn:E1. destruct (sysPlain_fine _ _ _ Hf E1) as (-> & Hf1 & Ef1 & Ec1).
  cbn [negb]. rewrite Ef1, Hm. unfold recoverSegment. rewrite ReadLine_none by done.
  destruct todo as [|n todo].
  - exists t. split_and!; [done..|by rewrite Ef1|]. right. split; [done|]. rewrite Ef1, Hm. by intros f' [= <-].
  - destruct (sysRemove (segmentName i) t) as [b2 t2] eqn:E2.
    destruct (sysRemove_fine _ _ _ _ Hf1 E2) as (-> & Hf2 & Ef2 & Ec2). cbn [negb].
    exists t2. split_and!; [done..|congruence| |].
    + intros u Hu Huo. rewrite Ef2, lookup_delete_ne, Ef1; [done|]. apply name_ne; [done..|congruence].
    + right. split; [done|]. by rewrite Ef2, lookup_delete_eq.
Qed.

Lemma recover_run ts : ∀ rep im s k,
  fine s → NoDup ts → (∀ t, t ∈ ts → indexOk t ∧ is_Some (files s !! segmentName t)) →
  Gaps rep = [] → phase im = PRecover (segmentName <$> ts) rep →
  ∃ im' s' rep' us, rtc istep (im, s, k) (im', s', k) ∧ phase im' = PRecover [] rep' ∧
    Gaps rep' = [] ∧ Segments rep' = Segments rep ++ (segmentName <$> us) ∧ fine s' ∧
    cursorFile s' = cursorFile s ∧
    (∀ t, t ∈ us → t ∈ ts ∧ ∃ f cs, files s' !! segmentName t = Some f ∧ whole f cs) ∧
    (∀ t f, t ∈ ts → t ∉ us → files s' !! segmentName t = Some f → newline ∉ data f) ∧
    (∀ t, t ∉ ts → indexOk t → files s' !! segmentName t = files s !! segmentName t) ∧
    us `sublist_of` ts.
Proof.
  induction ts as [|t ts IH]; intros rep im s k Hf Hnd Hex Hg Hp.
  { exists im, s, rep, []. split_and!; try done; [by rewrite app_nil_r|..]; by intros ? ?%elem_of_nil || intros ? ? ?%elem_of_nil. }
  apply NoDup_cons in Hnd as [Hni Hnd]. destruct (Hex t) as [Ht [f Hm]]; [by left|].
  assert (Hone : ∃ s1 rep1, istep (im, s, k) (goto (PRecover (segmentName <$> ts) rep1) im, s1, k) ∧
    Gaps rep1 = Gaps rep ∧ fine s1 ∧ cursorFile s1 = cursorFile s ∧
    (∀ u, u ≠ t → indexOk u → files s1 !! segmentName u = files s !! segmentName u) ∧
    settled t rep rep1 s1).
  { unfold istep, importStep. cbn [fst snd]. rewrite Hp. cbn [fmap list_fmap].
    destruct (fi_shape _ Hf _ _ Ht Hm) as [[cs Hw]|Hn].
    - destruct (recover_whole s t f cs _ im (segmentName <$> ts) rep Hf Ht Hm Hw eq_refl)
        as (s1 & rep1 & E1 & ?). exists s1, rep1. by rewrite E1.
    - destruct (recover_headerless s t f im (segmentName <$> ts) rep Hf Ht Hm Hn) as (s1 & E1 & ?).
      exists s1, rep. by rewrite E1. }
  destruct Hone as (s1 & rep1 & Hstep & Hg1 & Hf1 & Hc1 & Hoth & Hset).
  assert (Hne : ∀ u, u ∈ ts → u ≠ t) by (intros u Hu ->; done).
  destruct (IH rep1 (goto (PRecover (segmentName <$> ts) rep1) im) s1 k)
    as (im' & s' & rep' & us & Hr & Hp' & Hg' & Hs' & Hf' & Hc' & Hus & Hmiss & Hrest & Hsub);
    [done|done| |congruence|done|].
  { intros u Hu. destruct (Hex u) as [Huo Hus]; [by right|]. split; [done|].
    by rewrite Hoth by auto. }
  assert (Ht' : files s' !! segmentName t = files s1 !! segmentName t) by by apply Hrest.
  assert (Hlift : ∀ vs : list Z, (∀ u, u ∈ us → u ∈ vs) →
    (∀ u, u ∈ vs → u ∈ us ∨ u = t ∧ ∃ f' cs, files s1 !! segmentName t = Some f' ∧ whole f' cs) →
    (t ∉ vs → ∀ f', files s1 !! segmentName t = Some f' → newline ∉ data f') →
    (∀ u, u ∈ vs → u ∈ t :: ts ∧ ∃ f cs, files s' !! segmentName u = Some f ∧ whole f cs) ∧
    (∀ u f, u ∈ t :: ts → u ∉ vs → files s' !! segmentName u = Some f → newline ∉ data f) ∧
    (∀ u, u ∉ t :: ts → indexOk u → files s' !! segmentName u = files s !! segmentName u)).
  { intros vs H1' H2' H3'. split_and!.
    - intros u Hu. destruct (H2' u Hu) as [Hu'|[-> Hw]].
      + destruct (Hus u Hu') as [? ?]. split; [by right|done].
      + split; [by left|]. by rewrite Ht'.
    - intros u g [->|Hu]%elem_of_cons Hnu Hg2.
      + apply H3'; [done|]. by rewrite <- Ht'.
      + eapply Hmiss; [done| |done]. intros Hu'. by apply Hnu, H1'.
    - intros u Hu Huo. apply not_elem_of_cons in Hu as [Hu1 Hu2].
      rewrite Hrest by done. by apply Hoth. }
  destruct Hset as [[Es Hw]|[Es Hn]].
  - exists im', s', rep', (t :: us).
    destruct (Hlift (t :: us)) as (L1 & L2 & L3);
      [intros u Hu; by right|intros u [->|Hu]%elem_of_cons; [by right|by left]| |].
    { intros Hnt. by destruct Hnt; left. }
    split_and!; [by eapply rtc_l|done|done| |done|congruence|done|done|done|by constructor].
    rewrite Hs', Es, <- app_assoc. done.
  - exists im', s', rep', us. destruct (Hlift us) as (L1 & L2 & L3); [done|by left|done|].
    split_and!; [by eapply rtc_l|done|done|congruence|done|congruence|done|done|done|by constructor].
Qed.

(** * Reading a segment *)

Section loop.
Context (i : Z) (f : File) (cs : list (list Z)) (vm inst : string) (x : list Z) (m : Z)
  (segs : list string) (c0 : option cursor) (cur0 : cursor).
Context (Hi : indexOk i) (Hcs : Forall recordOk cs)
  (Hd : data f = layout (segHeader vm inst) cs x) (Hx : quiet x).

Definition iter (r : nat) : SegmentIter :=
  mkIter (length (headerLine (segHeader vm inst) ++ frames (take r cs))) false.

(** The cursor after [r] records: untouched, or at the last one. *)
Definition curAt (s : FS) (cur : cursor) (r : nat) : Prop :=
  (cursorFile s = c0 ∧ cur = cur0 ∧ Z.of_nat r ≤ Z.max 0 m) ∨
  (cursorFile s = Some cur ∧ cur = mkCursor (segmentName i) (Z.of_nat r - 1) ∧ m < Z.of_nat r).

Lemma Next_at r :
  (r ≤ length cs)%nat →
  match cs !! r with
  | Some b => ∃ env, unmarshal b = Some env ∧
      Segment.Next (data f) (iter r) = (iter (Datatypes.S r), NEnv env)
  | None => (Segment.Next (data f) (iter r)).2 = NEOF
  end.
Proof.
  intros Hr. rewrite Hd.
  assert (Hdrop : drop (length (headerLine (segHeader vm inst) ++ frames (take r cs)))
    (layout (segHeader vm inst) cs x) = frames (drop r cs) ++ x).
  { unfold layout. rewrite <- (take_drop r cs) at 2.
    by rewrite frames_app, <- app_assoc, (app_assoc (headerLine _)), drop_app_length. }
  destruct (cs !! r) as [b|] eqn:Hb.
  - rewrite (drop_S _ _ _ Hb), frames_cons, <- app_assoc in Hdrop.
    pose proof (Forall_lookup_1 _ _ _ _ Hcs Hb) as (Hbo & [env He] & _).
    exists env. split; [done|]. unfold iter.
    rewrite (Next_frame _ _ _ _ _ Hdrop Hbo He). f_equal. f_equal.
    rewrite (take_S_r _ _ _ Hb), frames_snoc, !length_app, length_encodeFrame. lia.
  - apply lookup_ge_None in Hb. rewrite (drop_ge cs) in Hdrop by done. cbn in Hdrop.
    unfold iter. by rewrite Next_quiet by by rewrite Hdrop.
Qed.

Lemma read_loop n : ∀ r s k im cur,
  (length cs = r + n)%nat → fine s → P k → files s !! segmentName i = Some f →
  curAt s cur r →
  phase im = PRead (segmentName i) (iter r) (Z.of_nat r) m segs cur →
  ∃ im' s' k' cur', rtc istep (im, s, k) (im', s', k') ∧
    phase im' = PPrune (segmentName i) true segs cur' ∧ fine s' ∧ P k' ∧ files s' = files s ∧
    curAt s' cur' (length cs).
Proof.
  induction n as [|n IH]; intros r s k im cur Hlen Hf Hk Hm Hcur Hp;
    pose proof (Next_at r ltac:(lia)) as Hn.
  - rewrite lookup_ge_None_2 in Hn by lia.
    destruct (sysPlain s) as [b t] eqn:Es. destruct (sysPlain_fine _ _ _ Hf Es) as (-> & Hf1 & Ef & Ec).
    exists (goto (PPrune (segmentName i) true segs cur) im), t, k, cur. split_and!; try done.
    + apply rtc_once. unfold istep, importStep, readStep. cbn [fst snd]. rewrite Hp, Hm.
      destruct (Segment.Next _ _) as [it res]. cbn in Hn. subst res. by rewrite Es.
    + assert (length cs = r) as -> by lia. unfold curAt in *. by rewrite Ec.
  - destruct (lookup_lt_is_Some_2 cs r ltac:(lia)) as [b Hb]. rewrite Hb in Hn.
    destruct Hn as (env & He & Hn).
    assert (Hz : Z.of_nat r + 1 = Z.of_nat (Datatypes.S r)) by lia.
    destruct (Z.ltb_spec (Z.of_nat r) m) as [Hlt|Hge].
    + destruct (IH (Datatypes.S r) s k
        (goto (PRead (segmentName i) (iter (Datatypes.S r)) (Z.of_nat r + 1) m segs cur)
           (count (addDeduped 1) im)) cur) as (im' & s' & k' & cur' & Hr & Hrest);
        [lia|done|done|done| |by rewrite Hz|].
      { destruct Hcur as [(? & ? & ?)|(? & ? & ?)]; [left; split_and!; [done..|lia]|lia]. }
      exists im', s', k', cur'. split; [|done]. eapply rtc_l; [|exact Hr].
      unfold istep, importStep, readStep. cbn [fst snd].
      by rewrite Hp, Hm, Hn, (proj2 (Z.ltb_lt _ _) Hlt).
    + assert (HE : E env).
      { eapply (fi_E s Hf i f r); [done..|]. eapply whole_reads.
        - split; [exact Hcs|]. by exists vm, inst, x.
        - eapply omap_lookup_all; done. }
      destruct (Hacc env k HE Hk) as (res & k1 & Hput & Hres & Hk1).
      set (newCur := mkCursor (segmentName i) (Z.of_nat r)).
      assert (Hstep1 : ∃ im1, istep (im, s, k) (im1, s, k1) ∧
        phase im1 = PCommit (segmentName i) (iter (Datatypes.S r)) (Z.of_nat r) m segs cur).
      { unfold istep, importStep, readStep. cbn [fst snd].
        rewrite Hp, Hm, Hn, (proj2 (Z.ltb_ge _ _) Hge), Hput.
        destruct Hres as [->| ->]; by eexists. }
      destruct Hstep1 as (im1 & Hstep1 & Hp1).
      set (s2 := setCursor newCur (mkFS (files s) (entries s) (cursorFile s) (statusFile s) [])).
      set (im2 := goto (PRead (segmentName i) (iter (Datatypes.S r)) (Z.of_nat r + 1) m segs newCur) im1).
      assert (Hstep2 : istep (im1, s, k1) (im2, s2, k1)).
      { unfold istep, importStep, writeCursor, sys. cbn [fst snd]. rewrite Hp1.
        by rewrite (fi_orc _ Hf). }
      assert (Hf2 : fine s2).
      { destruct Hf as [Ho Hs HEs Hc]. split; [done|exact Hs|exact HEs|].
        intros c' [= <-]. exists i. split_and!; [done..|cbn; lia]. }
      destruct (IH (Datatypes.S r) s2 k1 im2 newCur) as (im' & s' & k' & cur' & Hr & Hrest);
        [lia|done|done|done| |by unfold im2; rewrite Hz|].
      { right. split_and!; [done| |lia]. unfold newCur. f_equal. lia. }
      exists im', s', k', cur'. split; [|done].
      eapply rtc_l; [exact Hstep1|]. by eapply rtc_l.
Qed.

End loop.

(** * A segment, and the rest *)

(** Nothing of segment [t] is ahead of the cursor. *)
Definition clear (s : FS) (t : Z) : Prop :=
  ∀ f r env, files s !! segmentName t = Some f → reads f r env →
    ¬ ahead (cursorFile s) (segmentName t) r.

(** The cursor moved forward. *)
Definition curLe (c1 c2 : option cursor) : Prop :=
  ∀ t r, indexOk t → ahead c2 (segmentName t) r → ahead c1 (segmentName t) r.

Lemma clear_later s s' t :
  indexOk t → curLe (cursorFile s) (cursorFile s') →
  (∀ f, files s' !! segmentName t = Some f → files s !! segmentName t = Some f) →
  clear s t → clear s' t.
Proof. intros Ht Hle Hf Hc f r env Hm Hr Ha. eapply Hc; [by apply Hf|done|by apply Hle]. Qed.

Lemma ahead_name j r0 t r :
  indexOk j → indexOk t →
  ahead (Some (mkCursor (segmentName j) r0)) (segmentName t) r ↔
  j < t ∨ j = t ∧ r0 < Z.of_nat r.
Proof.
  intros Hj Ht. cbn. unfold String.ltb. rewrite segmentName_compare by done.
  split.
  - intros [Hl|[E0 ?]]; [|right; split; [by apply segmentName_inj|done]].
    left. revert Hl. by destruct (Z.compare_spec j t).
  - intros [Hl|[-> ?]]; [left|by right]. rewrite <- Z.compare_lt_iff in Hl. by rewrite Hl.
Qed.

Lemma marker_some f cs : whole f cs → is_Some (segmentHasEndMarker (data f)).
Proof.
  intros (_ & vm & inst & x & Hd & _). unfold segmentHasEndMarker. rewrite Hd.
  pose proof (header_long (segHeader vm inst)). unfold layout, headerLine.
  rewrite !length_app. cbn [length]. rewrite (proj2 (Nat.ltb_ge _ _)) by lia. by eexists.
Qed.

(** What is left when a segment has been dealt with. *)
Record after (i : Z) (s : FS) (s' : FS) : Prop := {
  af_fine : fine s';
  af_clear : clear s' i;
  af_cur : curLe (cursorFile s) (cursorFile s');
  af_files t : t ≠ i → indexOk t → files s' !! segmentName t = files s !! segmentName t
}.

Lemma prune_live i next im s :
  fine s → indexOk i → clear s i →
  ∃ im' s', prune (segmentName i) next im s = (im', s') ∧ phase im' = next ∧ after i s s' ∧
    cursorFile s' = cursorFile s.
Proof.
  intros Hf Hi Hc. unfold prune. destruct (sysRemove _ s) as [b t] eqn:Es.
  destruct (sysRemove_fine _ _ _ _ Hf Es) as (-> & Hf1 & Ef & Ec). cbn [negb].
  eexists _, t. split_and!; [done|done| |done]. split; [done| |by rewrite Ec; intros t0 r _|].
  - intros f r env Hm. by rewrite Ef, lookup_delete_eq in Hm.
  - intros u Hu Huo. rewrite Ef, lookup_delete_ne; [done|]. apply name_ne; [done..|congruence].
Qed.

Lemma readCursor_cases s cur :
  fine s → readCursor s = Ok cur →
  (cursorFile s = None ∧ cSegment cur = "") ∨
  (∃ j, cursorFile s = Some cur ∧ cSegment cur = segmentName j ∧ indexOk j ∧ 0 ≤ cRecord cur).
Proof.
  intros Hf. unfold readCursor. destruct (cursorFile s) as [c1|] eqn:Ec.
  - destruct (_ || _); [done|]. intros [= ->]. right.
    destruct (fi_cur _ Hf cur Ec) as (j & ? & ? & ?). by exists j.
  - intros [= <-]. by left.
Qed.

Lemma readCursor_some s i r :
  indexOk i → 0 ≤ r → cursorFile s = Some (mkCursor (segmentName i) r) →
  readCursor s = Ok (mkCursor (segmentName i) r).
Proof.
  intros Hi Hr Hc. pose proof (readCursor_name i r s Hi Hr) as Hn. unfold readCursor in *. by rewrite Hc.
Qed.

Lemma curLe_refl c1 : curLe c1 c1.
Proof. by intros t r _. Qed.

(** After the record loop nothing of the segment is ahead of the cursor. *)
Lemma loop_clear i f cs m s s' cur cur' :
  fine s → indexOk i → readCursor s = Ok cur → whole f cs → files s' = files s →
  files s !! segmentName i = Some f →
  negb (cSegment cur =? "")%string && String.ltb (segmentName i) (cSegment cur) = false →
  m = (if (cSegment cur =? segmentName i)%string then cRecord cur + 1 else 0) →
  curAt i m (cursorFile s) cur s' cur' (length cs) →
  clear s' i ∧ curLe (cursorFile s) (cursorFile s') ∧ readCursor s' = Ok cur'.
Proof.
  intros Hf Hi Hcur Hw Ef Hm Hpast Em Hat.
  assert (Hlen : ∀ f' r env, files s' !! segmentName i = Some f' → reads f' r env →
    (r < length cs)%nat).
  { intros f' r env Hf' Hr. rewrite Ef, Hm in Hf'. injection Hf' as <-.
    apply (whole_reads f cs) in Hr; [|done]. apply lookup_lt_Some in Hr.
    rewrite length_omap_ok in Hr; [done|apply Hw]. }
  destruct Hat as [(Ec & -> & Hle)|(Ec & Ecur & Hlt)].
  - split_and!; [|rewrite Ec; apply curLe_refl|unfold readCursor in *; by rewrite Ec].
    intros f' r env Hf' Hr Ha. specialize (Hlen _ _ _ Hf' Hr). rewrite Ec in Ha.
    destruct (String.eqb_spec (cSegment cur) (segmentName i)) as [Es|Es]; [|lia].
    destruct (readCursor_cases _ _ Hf Hcur) as [[_ E0]|(j & Ej & En & Hj & Hr0)];
      [rewrite E0 in Es; done|].
    rewrite Ej in Ha. destruct cur as [cs0 r0]. cbn in *. rewrite En in Ha.
    apply ahead_name in Ha; [|done..]. rewrite Es in En. apply segmentName_inj in En; [|done..]. lia.
  - assert (Hm0 : 0 ≤ m).
    { rewrite Em. destruct (String.eqb_spec (cSegment cur) (segmentName i)) as [Es|]; [|lia].
      destruct (readCursor_cases _ _ Hf Hcur) as [[_ E0]|(j & _ & _ & _ & ?)]; [by rewrite E0 in Es|lia]. }
    rewrite Ecur in Ec. split_and!.
    + intros f' r env Hf' Hr Ha. specialize (Hlen _ _ _ Hf' Hr). rewrite Ec in Ha.
      apply ahead_name in Ha; [|done..]. lia.
    + rewrite Ec. intros t r Ht Ha. apply ahead_name in Ha; [|done..].
      destruct (readCursor_cases _ _ Hf Hcur) as [[-> _]|(j & Ej & En & Hj & Hr0)]; [done|].
      rewrite Ej. destruct cur as [cs0 r0]. cbn [cSegment cRecord] in *. subst cs0.
      apply ahead_name; [done..|].
      assert (E0 : (segmentName j =? "")%string = false) by by apply String.eqb_neq.
      rewrite E0 in Hpast. cbn [negb andb] in Hpast. unfold String.ltb in Hpast.
      rewrite segmentName_compare in Hpast by done.
      assert (j ≤ i) by (revert Hpast; destruct (Z.compare_spec i j); [lia|done|lia]).
      destruct (decide (j = i)) as [->|]; [|lia]. rewrite String.eqb_refl in Em. lia.
    + rewrite Ecur. by apply readCursor_some; [|lia|].
Qed.

Lemma segment_live i ts cur im s k f cs :
  fine s → P k → indexOk i → readCursor s = Ok cur → files s !! segmentName i = Some f →
  whole f cs → phase im = PSegs (segmentName <$> i :: ts) cur →
  ∃ im' s' k' cur', rtc istep (im, s, k) (im', s', k') ∧
    phase im' = PSegs (segmentName <$> ts) cur' ∧ P k' ∧ readCursor s' = Ok cur' ∧ after i s s'.
Proof.
  intros Hf Hk Hi Hcur Hm Hw Hp. pose proof Hw as (Hcs & vm & inst & x & Hd & Hx).
  destruct (sysPlain s) as [b t] eqn:Es. destruct (sysPlain_fine _ _ _ Hf Es) as (-> & Hf1 & Ef & Ec).
  assert (Hcur1 : readCursor t = Ok cur) by (unfold readCursor in *; by rewrite Ec).
  destruct (marker_some f cs Hw) as [mk Hmk].
  destruct (negb (cSegment cur =? "")%string && String.ltb (segmentName i) (cSegment cur)) eqn:Hpast.
  - apply andb_true_iff in Hpast as [Hne Hlt].
    assert (Hclr : clear t i).
    { intros f' r env Hf' Hr Ha.
      destruct (readCursor_cases _ _ Hf1 Hcur1) as [[_ E0]|(j & Ej & En & Hj & _)]; [by rewrite E0 in Hne|].
      rewrite Ej in Ha. destruct cur as [cs0 r0]. cbn [cSegment cRecord] in *. subst cs0.
      apply ahead_name in Ha; [|done..]. unfold String.ltb in Hlt.
      rewrite segmentName_compare in Hlt by done.
      assert (i < j) by (revert Hlt; destruct (Z.compare_spec i j); done). lia. }
    assert (Hcnt : countSegmentRecords (data f) = Ok (Some (length (omap unmarshal cs)))).
    { unfold countSegmentRecords. rewrite Hd, ReadSegment_layout. by rewrite readAll_quiet. }
    set (im1 := count (addDeduped (Z.of_nat (length (omap unmarshal cs)))) im).
    assert (Hstep : istep (im, s, k) (if mk : bool then prune (segmentName i) (PSegs (segmentName <$> ts) cur) im1 t
      else (goto (PSegs (segmentName <$> ts) cur) im1, t), k)).
    { unfold istep, importStep, pastStep. cbn [fst snd]. rewrite Hp. cbn [fmap list_fmap].
      rewrite Hne, Hlt. cbn [andb]. rewrite Es. cbn [negb]. by rewrite Ef, Hm, Hcnt, Hmk. }
    destruct mk.
    + destruct (prune_live i (PSegs (segmentName <$> ts) cur) im1 t Hf1 Hi Hclr)
        as (im' & s' & E1 & Hp' & [Ha1 Ha2 Ha3 Ha4] & Ec').
      rewrite E1 in Hstep. exists im', s', k, cur. split_and!; [by apply rtc_once|done|done| |].
      * unfold readCursor in *. by rewrite Ec', Ec.
      * split; [done..|by rewrite Ec in Ha3|]. intros u Hu Huo. by rewrite Ha4, Ef.
    + eexists _, t, k, cur. split_and!; [by apply rtc_once|done|done|done|].
      split; [done..|rewrite Ec; apply curLe_refl|by rewrite Ef].
  - set (m := if (cSegment cur =? segmentName i)%string then cRecord cur + 1 else 0).
    set (im1 := goto (PRead (segmentName i) (iter cs vm inst 0) 0 m (segmentName <$> ts) cur) im).
    assert (Hstep : istep (im, s, k) (im1, t, k)).
    { unfold istep, importStep, openStep. cbn [fst snd]. rewrite Hp. cbn [fmap list_fmap].
      rewrite Hpast, Es. cbn [negb]. rewrite Ef, Hm, Hd, ReadSegment_layout.
      unfold im1, iter. cbn [take]. by rewrite app_nil_r. }
    destruct (read_loop i f cs vm inst x m (segmentName <$> ts) (cursorFile t) cur Hi Hcs Hd Hx
      (length cs) 0 t k im1 cur) as (im2 & s2 & k2 & cur2 & Hr & Hp2 & Hf2 & Hk2 & Ef2 & Hat);
      [done..|by rewrite Ef|left; split_and!; [done..|lia]|done|].
    destruct (loop_clear i f cs m t s2 cur cur2) as (Hclr & Hle & Hrc);
      [done..|by rewrite Ef|done|done|done|].
    destruct (sysPlain s2) as [b3 s3] eqn:Es3.
    destruct (sysPlain_fine _ _ _ Hf2 Es3) as (-> & Hf3 & Ef3 & Ec3).
    assert (Hrc3 : readCursor s3 = Ok cur2) by (unfold readCursor in *; by rewrite Ec3).
    assert (Hclr3 : clear s3 i).
    { intros f' r env. rewrite Ef3, Ec3. by apply Hclr. }
    assert (Hstep2 : istep (im2, s2, k2) (if mk : bool then prune (segmentName i) (PSegs (segmentName <$> ts) cur2) im2 s3
      else (goto (PSegs (segmentName <$> ts) cur2) im2, s3), k2)).
    { unfold istep, importStep, pruneStep. cbn [fst snd]. rewrite Hp2, Es3. cbn [negb].
      by rewrite Ef3, Ef2, Ef, Hm, Hmk. }
    rewrite Ec in Hle.
    destruct mk.
    + destruct (prune_live i (PSegs (segmentName <$> ts) cur2) im2 s3 Hf3 Hi Hclr3)
        as (im' & s' & E1 & Hp' & [Ha1 Ha2 Ha3 Ha4] & Ec').
      rewrite E1 in Hstep2. exists im', s', k2, cur2. split_and!.
      * eapply rtc_l; [exact Hstep|]. eapply rtc_r; [exact Hr|done].
      * done.
      * done.
      * unfold readCursor in *. by rewrite Ec'.
      * split; [done..|by rewrite Ec', Ec3|]. intros u Hu Huo. by rewrite Ha4, Ef3, Ef2, Ef.
    + exists (goto (PSegs (segmentName <$> ts) cur2) im2), s3, k2, cur2. split_and!; [|done|done|done|].
      * eapply rtc_l; [exact Hstep|]. eapply rtc_r; [exact Hr|exact Hstep2].
      * split; [done..|by rewrite Ec3|]. intros u Hu Huo. by rewrite Ef3, Ef2, Ef.
Qed.

Lemma segs_live ts : ∀ cur im s k,
  fine s → P k → readCursor s = Ok cur → NoDup ts →
  (∀ t, t ∈ ts → indexOk t ∧ ∃ f cs, files s !! segmentName t = Some f ∧ whole f cs) →
  phase im = PSegs (segmentName <$> ts) cur →
  ∃ im' s' k', rtc istep (im, s, k) (im', s', k') ∧ phase im' = PIdle ∧
    (∀ t, t ∈ ts → clear s' t) ∧ curLe (cursorFile s) (cursorFile s') ∧
    (∀ t, t ∉ ts → indexOk t → files s' !! segmentName t = files s !! segmentName t).
Proof.
  induction ts as [|i ts IH]; intros cur im s k Hf Hk Hcur Hnd Hts Hp.
  { exists (goto PIdle im), s, k. split_and!; [|done|by intros ? ?%elem_of_nil|apply curLe_refl|done].
    apply rtc_once. unfold istep, importStep. cbn [fst snd]. by rewrite Hp. }
  apply NoDup_cons in Hnd as [Hni Hnd]. destruct (Hts i) as [Hi (f & cs & Hm & Hw)]; [by left|].
  destruct (segment_live i ts cur im s k f cs)
    as (im1 & s1 & k1 & cur1 & Hr1 & Hp1 & Hk1 & Hc1 & [Ha1 Ha2 Ha3 Ha4]); [done..|].
  destruct (IH cur1 im1 s1 k1) as (im2 & s2 & k2 & Hr2 & Hp2 & Hcl & Hle & Hfs); [done..| |done|].
  { intros t Ht. destruct (Hts t) as [Hto Hex]; [by right|]. split; [done|].
    rewrite Ha4; [done| |done]. by intros ->. }
  exists im2, s2, k2. split_and!; [by etrans|done| | |].
  - intros t [->|Ht]%elem_of_cons; [|by apply Hcl]. eapply clear_later; [done|exact Hle| |done].
    by rewrite Hfs.
  - intros t r Ht Ha. by apply Ha3, Hle.
  - intros t [Hne Hnt]%not_elem_of_cons Hto. by rewrite Hfs, Ha4.
Qed.

Lemma readCursor_fine s : fine s → ∃ cur, readCursor s = Ok cur.
Proof.
  intros Hf. destruct (cursorFile s) as [[seg r]|] eqn:Ec.
  - destruct (fi_cur _ Hf _ Ec) as (j & Ej & Hj & Hr). cbn in *. subst seg.
    eexists. by apply readCursor_some.
  - unfold readCursor. rewrite Ec. by eexists.
Qed.

Lemma sorted_NoDup (ts : list Z) : StronglySorted Z.lt ts → NoDup ts.
Proof.
  induction 1 as [|t ts _ IH Ht]; constructor; [|done]. intros Hin.
  rewrite Forall_forall in Ht. specialize (Ht t Hin). lia.
Qed.

(** A whole cycle: it ends, and leaves nothing ahead of the cursor. *)
Lemma cycle_live im s k ts :
  fine s → P k → phase im = PIdle → NoDup ts → listSegments s = segmentName <$> ts →
  (∀ t, t ∈ ts → indexOk t ∧ is_Some (files s !! segmentName t)) →
  (∀ t, indexOk t → is_Some (files s !! segmentName t) → t ∈ ts) →
  ∃ im' s' k', rtc istep (im, s, k) (im', s', k') ∧ phase im' = PIdle ∧
    ∀ t, indexOk t → clear s' t.
Proof.
  intros Hf Hk Hp Hnd Hls Hts Hall.
  destruct (sysPlain s) as [b t0] eqn:Es. destruct (sysPlain_fine _ _ _ Hf Es) as (-> & Hf0 & Ef & Ec).
  set (rep0 := mkReport [] false []). set (im0 := goto (PRecover (segmentName <$> ts) rep0) im).
  assert (Hstep : istep (im, s, k) (im0, t0, k)).
  { unfold istep, importStep. cbn [fst snd]. rewrite Hp, Es. cbn [negb].
    assert (listSegments t0 = listSegments s) as -> by (unfold listSegments; by rewrite Ef).
    by rewrite Hls. }
  destruct (recover_run ts rep0 im0 t0 k)
    as (im1 & s1 & rep & us & Hr1 & Hp1 & Hg1 & Hs1 & Hf1 & _ & Hus & Hmiss & Hrest & Hsub);
    [done..|by rewrite Ef|done|done|].
  assert (Hbare : ∀ t, indexOk t → t ∉ us → clear s1 t).
  { intros t Ht Hu f r env Hm Hr _. destruct (decide (t ∈ ts)) as [Hin|Hin].
    - eapply headerless_reads; [by eapply Hmiss|done].
    - apply Hin, Hall; [done|]. rewrite Hrest, Ef in Hm by done. by eexists. }
  destruct us as [|u us].
  { exists (goto PIdle im1), s1, k. split_and!; [|done|].
    - eapply rtc_l; [exact Hstep|]. eapply rtc_r; [exact Hr1|].
      unfold istep, importStep. cbn [fst snd]. by rewrite Hp1, Hs1.
    - intros t Ht. apply Hbare; [done|]. by intros ?%elem_of_nil. }
  destruct (readCursor_fine s1 Hf1) as [cur Hcur].
  set (names := segmentName <$> u :: us) in *.
  set (im2 := goto (PGaps [] names cur) im1). set (im3 := goto (PSegs names cur) im2).
  assert (Hstep2 : istep (im1, s1, k) (im2, s1, k)).
  { unfold istep, importStep. cbn [fst snd]. rewrite Hp1, Hs1, Hcur, Hg1. done. }
  assert (Hnd' : NoDup (u :: us)) by by eapply sublist_NoDup.
  destruct (segs_live (u :: us) cur im3 s1 k) as (im4 & s4 & k4 & Hr4 & Hp4 & Hcl & Hle & Hfs);
    [done..| |done|].
  { intros t Ht. destruct (Hus t Ht) as [Hin Hex]. split; [by apply Hts|done]. }
  exists im4, s4, k4. split_and!; [|done|].
  - eapply rtc_l; [exact Hstep|]. etrans; [exact Hr1|]. eapply rtc_l; [exact Hstep2|].
    eapply rtc_l; [|exact Hr4]. done.
  - intros t Ht. destruct (decide (t ∈ u :: us)) as [|Hnu]; [by apply Hcl|].
    eapply clear_later; [done|exact Hle| |by apply Hbare]. by rewrite Hfs.
Qed.

End live.

(** * The whole spool *)

Section spool.
Context `{JsonLaws} {S : Type} `{SinkLaws S}.
Context (errText : SpoolErr → string) (gapID : string) (mtime : string → Z).

Definition readable (s : FS) (env : Envelope) : Prop :=
  ∃ seg f r, files s !! seg = Some f ∧ reads f r env.

Lemma segFile_shape hd i f bs linked : segFile hd i f bs linked → shape f.
Proof.
  intros [(x & Hd & Hx & Hok & _)|[_ [y Hy]]].
  - left. destruct (tail_record x Hx) as [Hq|(b & Hb & ->)].
    + exists bs. split; [done|]. by exists (hd i).1, (hd i).2, x.
    + exists (bs ++ [b]). split; [by apply Forall_app; rewrite Forall_singleton|].
      exists (hd i).1, (hd i).2, []. split; [|by left]. rewrite Hd. unfold layout.
      by rewrite frames_snoc, app_nil_r.
  - right. intros Hin. apply (header_line (hdr hd i)). rewrite Hy. apply elem_of_app. by left.
Qed.

Lemma inv_fine n y : inv n y → orc (dir y) = [] → fine (readable (dir y)) (dir y).
Proof.
  intros (hd & A & ss & [Hco _ _ _]) Ho. split; [done| | |].
  - intros t f Ht Hf. pose proof (co_rep _ _ _ _ _ _ Hco) as [_ Hfile Hall].
    destruct (proj1 (list_elem_of_fmap _ _ _) (Hall t ltac:(by eexists) Ht)) as ([i bs] & -> & Hin).
    destruct (Hfile _ _ Hin) as [_ (f' & Hf' & Hs)]. cbn in Hf. rewrite Hf in Hf'.
    injection Hf' as <-. by eapply segFile_shape.
  - intros t f r env _ Hf Hr. by exists (segmentName t), f, r.
  - intros cur Hc. destruct (co_cursor _ _ _ _ _ _ Hco cur Hc) as (j & ? & ? & ? & _). by exists j.
Qed.

(** The importer's own steps, as steps of the whole. *)
Lemma isteps_runs n w cfg a c x z :
  rtc (istep gapID mtime c) x z → inv n (mkSpool w cfg x.1.2 x.1.1 x.2 a) →
  ∃ m, runs errText gapID mtime (λ l _, l = LImport c) m
      (mkSpool w cfg x.1.2 x.1.1 x.2 a) (mkSpool w cfg z.1.2 z.1.1 z.2 a) ∧
    inv n (mkSpool w cfg z.1.2 z.1.1 z.2 a).
Proof.
  induction 1 as [x|x y z Hs _ IH]; intros Hi; [exists 0%nat; by split; [constructor|]|].
  destruct x as [[im s] k], y as [[im1 s1] k1]. unfold istep in Hs. cbn [fst snd] in *.
  destruct IH as (m & Hr & Hz); [by eapply inv_import|]. exists (m + 1)%nat. split; [|done].
  eapply runs_trans; [|exact Hr]. econstructor; [constructor|done|by constructor].
Qed.

End spool.


End Live.
