(* ===== verification/ImportHealth.v ===== *)
(** The importer's cycle and its health (internal/spool/health.go, status.go and
    [importOnce] of importer.go): retry times, failure episodes, writer outages. *)

From S2P Require Import Prelude Wire Text Segment Importer.
Import Text Segment.

Local Open Scope Z_scope.

Module ImportHealth.

(** * Runes *)

(** [[]rune(s)], each rune as its bytes; a byte that starts no rune is U+FFFD. *)
Definition runeError : string := bytes [239; 191; 189].

Fixpoint runes (s : string) : list string :=
  let within lo hi a := (lo <=? code a) && (code a <=? hi) in
  let tail := within 128 191 in
  match s with
  | "" => []
  | String a s1 =>
    if code a <? 128 then String a "" :: runes s1
    else if within 194 223 a then
      match s1 with
      | String b s2 => if tail b then String a (String b "") :: runes s2 else runeError :: runes s1
      | _ => [runeError]
      end
    else if within 224 239 a then
      match s1 with
      | String b (String c s3) =>
        if within (if code a =? 224 then 160 else 128) (if code a =? 237 then 159 else 191) b && tail c
        then String a (String b (String c "")) :: runes s3 else runeError :: runes s1
      | _ => runeError :: runes s1
      end
    else if within 240 244 a then
      match s1 with
      | String b (String c (String d s4)) =>
        if within (if code a =? 240 then 144 else 128) (if code a =? 244 then 143 else 191) b &&
           tail c && tail d
        then String a (String b (String c (String d ""))) :: runes s4 else runeError :: runes s1
      | _ => runeError :: runes s1
      end
    else runeError :: runes s1
  end.

(** [boundRunes]: the first [n] runes. *)
Definition boundRunes (s : string) (n : nat) : string := foldr String.append "" (take n (runes s)).

Definition maxCauseRunes : nat := 512.
Definition Minute : Z := 60000000000.
Definition Second : Z := 1000000000.

(** * State *)

Record WriterStatus := mkWriterStatus {
  wState : string;
  wSince : string;
  wCause : string;
  wLastError : string;
  wRunnerRecordsRefused : string;
  wGuestPushesRefused : string;
  wUpdatedAt : string;
  wInstanceID : string
}.

Definition unknownWriter : WriterStatus := mkWriterStatus "unknown" "" "" "" "" "" "" "".

Record ImportStatus := mkImportStatus {
  sState : string;
  sLastError : string;
  sConsecutiveFailures : string;
  sLastSuccessAt : string;
  sNextRetryAt : string;
  sWriter : option WriterStatus
}.

(** [next] is [None] for the zero time, before every other. *)
Record importHealth := mkImportHealth {
  status : ImportStatus;
  failures : Z;
  next : option Z;
  notified : bool
}.

Definition zeroHealth : importHealth := mkImportHealth (mkImportStatus "" "" "" "" "" None) 0 None false.

Record writerRead := mkWriterRead { wHealth : WriterStatus; reported : string }.

Record Importer := mkImporter {
  health : gmap string importHealth;
  writers : gmap string writerRead;
  interval : Z
}.

(** What a cycle does that others can see, in order. *)
Inductive Did :=
  | DImport (id : string) (at_ : Z)
  | DRecovered (id : string)
  | DFailed (id : string) (at_ : Z)
  | DReported (id : string) (ok : bool)
  | DHealthy (id : string)
  | DWriterReported (id since : string) (ok : bool)
  | DGone (present : list string).

(** * Operations *)

Definition NewImporter (interval : Z) : Importer :=
  mkImporter ∅ ∅ (if interval <=? 0 then Second else interval).

Definition UnobservedStatus (vmID : string) : ImportStatus :=
  mkImportStatus "unknown" "" "0" "" ""
    (if (vmID =? "")%string then None else Some unknownWriter).

Definition withWriter (w : option WriterStatus) (s : ImportStatus) : ImportStatus :=
  mkImportStatus (sState s) (sLastError s) (sConsecutiveFailures s) (sLastSuccessAt s)
    (sNextRetryAt s) w.

Definition Status (vmID : string) (imp : Importer) : ImportStatus :=
  let s := UnobservedStatus vmID in
  let writer := match writers imp !! vmID, sWriter s with
                | Some r, Some _ => Some (wHealth r)
                | _, w => w
                end in
  withWriter writer (match health imp !! vmID with Some h => status h | None => s end).

(** [!time.Now().Before(imp.health[id].next)]. *)
Definition due (now : Z) (id : string) (imp : Importer) : bool :=
  match next (default zeroHealth (health imp !! id)) with
  | None => true
  | Some t => negb (now <? t)
  end.

(** The loop that doubles the delay. *)
Fixpoint doubled (fuel : nat) (n failures delay : Z) : Z :=
  match fuel with
  | O => delay
  | S fuel =>
    if (n <? failures) && (delay <? Minute)
    then doubled fuel (n + 1) failures (Z.min (Int.i64 (delay * 2)) Minute)
    else delay
  end.

(** The delay doubles at least 36 times from a nanosecond to a minute. *)
Definition delayOf (interval failures : Z) : Z := doubled 64 1 failures (Z.min interval Minute).

Section format.
(** [Format(events.TimestampLayout)] of a time. *)
Context (format : Z → string).

Definition succeeded (now : Z) : importHealth :=
  mkImportHealth (mkImportStatus "healthy" "" "0" (format now) "" None) 0 None false.

Definition failedAgain (interval now : Z) (cause : string) (h : importHealth) : importHealth :=
  let n := if failures h <? Int.MaxUint64 then failures h + 1 else failures h in
  let next := now + delayOf interval n in
  mkImportHealth
    (mkImportStatus "degraded" (boundRunes cause maxCauseRunes) (Strconv.FormatUint n)
       (sLastSuccessAt (status h)) (format next) (sWriter (status h)))
    n (Some next) (notified h).

Definition setHealth (id : string) (h : importHealth) (imp : Importer) : Importer :=
  mkImporter (<[id := h]> (health imp)) (writers imp) (interval imp).

Definition setNotified (h : importHealth) : importHealth :=
  mkImportHealth (status h) (failures h) (next h) true.

(** [record]. [report] is the reporter's answer, [None] when none is wired; [cancelled]
    is [ctx.Err() != nil]. *)
Definition record (cancelled : bool) (now : Z) (id : string) (cause : option string)
    (report : option bool) (imp : Importer) : Importer * list Did :=
  if cancelled then (imp, []) else
  match cause with
  | None => (setHealth id (succeeded now) imp, [DRecovered id])
  | Some c =>
    let h := failedAgain (interval imp) now c (default zeroHealth (health imp !! id)) in
    let imp := setHealth id h imp in
    if notified h then (imp, [DFailed id now])
    else match report with
         | None => (imp, [DFailed id now])
         | Some false => (imp, [DFailed id now; DReported id false])
         | Some true => (setHealth id (setNotified (default zeroHealth (health imp !! id))) imp,
                         [DFailed id now; DReported id true])
         end
  end.

Definition setRead (id : string) (r : writerRead) (imp : Importer) : Importer :=
  mkImporter (health imp) (<[id := r]> (writers imp)) (interval imp).

Definition zeroRead : writerRead := mkWriterRead (mkWriterStatus "" "" "" "" "" "" "" "") "".

(** [observeWriter], with what [readStatus] returned. *)
Definition observeWriter (id : string) (h : WriterStatus) (report : option bool) (imp : Importer)
    : Importer * list Did :=
  let r := default zeroRead (writers imp !! id) in
  let healthy := (wState h =? "healthy")%string in
  let r := mkWriterRead h (if healthy then "" else reported r) in
  let imp := setRead id r imp in
  let seen := if healthy then [DHealthy id] else [] in
  if negb (wState h =? "failing")%string || (wSince h =? reported r)%string then (imp, seen)
  else match report with
       | None => (imp, seen)
       | Some false => (imp, seen ++ [DWriterReported id (wSince h) false])
       | Some true =>
         (setRead id (mkWriterRead (wHealth (default zeroRead (writers imp !! id))) (wSince h)) imp,
          seen ++ [DWriterReported id (wSince h) true])
       end.

(** ** One cycle *)

(** What a cycle meets at one entry of the root directory: the answers of everything
    it calls, in the order of the calls. *)
Record Visit := mkVisit {
  vName : string;
  vIsDir : bool;
  vCancelledBefore : bool;
  vWriter : WriterStatus;
  vWriterReport : option bool;
  vDueAt : Z;
  vStats : Importer.ImportStats;
  vCause : option string;
  vCancelledAfter : bool;
  vNow : Z;
  vReport : option bool
}.

Record Cycle := mkCycle {
  cBackoff : bool;
  cCancelled : bool;
  cDueAt : Z;
  cNow : Z;
  cRootReport : option bool;
  cEntries : result string (list Visit)
}.

Inductive CycleErr :=
  | ECancelled
  | EReadDir (text : string)
  | EImports (failed : Z) (first : string * string).

Definition addStats (a b : Importer.ImportStats) : Importer.ImportStats :=
  Importer.mkStats (Importer.Appended a + Importer.Appended b)
    (Importer.Deduped a + Importer.Deduped b) (Importer.Pruned a + Importer.Pruned b).

Record Walk := mkWalk {
  total : Importer.ImportStats;
  failed : Z;
  firstErr : option (string * string);
  present : list string;
  imp_ : Importer;
  did : list Did;
  stopped : bool
}.

Definition onImporter (f : Importer → Importer * list Did) (w : Walk) : Walk :=
  let '(i, d) := f (imp_ w) in
  mkWalk (total w) (failed w) (firstErr w) (present w) i (did w ++ d) (stopped w).

Definition stop (w : Walk) : Walk :=
  mkWalk (total w) (failed w) (firstErr w) (present w) (imp_ w) (did w) true.

Definition count (v : Visit) (w : Walk) : Walk :=
  mkWalk (addStats (total w) (vStats v)) (failed w) (firstErr w) (present w) (imp_ w)
    (did w ++ [DImport (vName v) (vDueAt v)]) (stopped w).

Definition blame (v : Visit) (w : Walk) : Walk :=
  match vCause v with
  | None => w
  | Some c =>
    mkWalk (total w) (failed w + 1)
      (match firstErr w with Some e => Some e | None => Some (vName v, c) end)
      (present w) (imp_ w) (did w) (stopped w)
  end.

Definition seeDir (v : Visit) (w : Walk) : Walk :=
  mkWalk (total w) (failed w) (firstErr w) (present w ++ [vName v]) (imp_ w) (did w) (stopped w).

(** The body of the loop over the entries. *)
Definition visit (backoff : bool) (w : Walk) (v : Visit) : Walk :=
  if stopped w then w
  else if negb (vIsDir v) then w
  else
    let w := seeDir v w in
    if vCancelledBefore v then stop w
    else
      let w := onImporter (observeWriter (vName v) (vWriter v) (vWriterReport v)) w in
      if backoff && negb (due (vDueAt v) (vName v) (imp_ w)) then w
      else
        let w := count v w in
        if vCancelledAfter v then stop w
        else blame v (onImporter (record false (vNow v) (vName v) (vCause v) (vReport v)) w).

Definition keepPresent {V} (l : list string) (m : gmap string V) : gmap string V :=
  filter (λ kv, kv.1 ∈ l) m.

Definition importOnce (c : Cycle) (imp : Importer)
    : Importer.ImportStats * option CycleErr * Importer * list Did :=
  let none := Importer.mkStats 0 0 0 in
  if cCancelled c then (none, Some ECancelled, imp, [])
  else if cBackoff c && negb (due (cDueAt c) "" imp) then (none, None, imp, [])
  else match cEntries c with
  | Err text =>
    let '(imp, d) := record false (cNow c) "" (Some text) (cRootReport c) imp in
    (none, Some (EReadDir text), imp, DImport "" (cDueAt c) :: d)
  | Ok vs =>
    let '(imp, d) := record false (cNow c) "" None (cRootReport c) imp in
    let w := fold_left (visit (cBackoff c)) vs
               (mkWalk none 0 None [""] imp (DImport "" (cDueAt c) :: d) false) in
    if stopped w then (total w, Some ECancelled, imp_ w, did w)
    else
      let imp := mkImporter (keepPresent (present w) (health (imp_ w)))
                   (keepPresent (present w) (writers (imp_ w))) (interval (imp_ w)) in
      (total w,
       (if 0 <? failed w then match firstErr w with
                             | Some e => Some (EImports (failed w) e)
                             | None => None
                             end else None),
       imp, did w ++ [DGone (present w)])
  end.

(** Cycles one after the other: [cycleMu] keeps them apart. *)
Fixpoint cycles (cs : list Cycle) (imp : Importer) : Importer * list Did :=
  match cs with
  | [] => (imp, [])
  | c :: cs =>
    let '(_, _, imp, d) := importOnce c imp in
    let '(imp, d') := cycles cs imp in (imp, d ++ d')
  end.

End format.

(** * The account of a trace *)

(** What the trace says of one id: the failures of the current episode, the time of
    the next attempt, whether the episode was reported. *)
Record Episode := mkEpisode { eFailures : Z; eNext : option Z; eReported : bool }.

Definition noEpisode : Episode := mkEpisode 0 None false.

(** The delay after the [n]th failure in a row. *)
Definition delayAfter (iv n : Z) : Z := Z.min (iv * 2 ^ (n - 1)) Minute.

Definition estep (iv : Z) (id : string) (e : Episode) (d : Did) : Episode :=
  match d with
  | DRecovered i => if (i =? id)%string then noEpisode else e
  | DFailed i t =>
    if (i =? id)%string then
      let n := Z.min (eFailures e + 1) Int.MaxUint64 in
      mkEpisode n (Some (t + delayAfter iv n)) (eReported e)
    else e
  | DReported i true =>
    if (i =? id)%string then mkEpisode (eFailures e) (eNext e) true else e
  | DGone l => if bool_decide (id ∈ l) then e else noEpisode
  | _ => e
  end.

Definition episode (iv : Z) (id : string) (tr : list Did) : Episode :=
  fold_left (estep iv id) tr noEpisode.

(** The outage of a writer that was reported last. *)
Definition wstep (id : string) (since : string) (d : Did) : string :=
  match d with
  | DHealthy i => if (i =? id)%string then "" else since
  | DWriterReported i s true => if (i =? id)%string then s else since
  | DGone l => if bool_decide (id ∈ l) then since else ""
  | _ => since
  end.

Definition outage (id : string) (tr : list Did) : string := fold_left (wstep id) tr "".

(** ** The delay in closed form *)

Lemma pow_pos n : 1 ≤ n → 0 < 2 ^ (n - 1).
Proof. intros ?. apply Z.pow_pos_nonneg; lia. Qed.

Lemma delayAfter_late iv n : 0 < iv → 37 ≤ n → delayAfter iv n = Minute.
Proof.
  intros Hiv Hn. unfold delayAfter. apply Z.min_r.
  assert (H : 2 ^ 36 ≤ 2 ^ (n - 1)) by (apply Z.pow_le_mono_r; lia).
  assert (H36 : Minute ≤ 2 ^ 36) by (apply Z.leb_le; reflexivity).
  pose proof (pow_pos n ltac:(lia)).
  generalize dependent (2 ^ 36). generalize dependent (2 ^ (n - 1)). generalize Minute. intros. nia.
Qed.

Lemma delayAfter_next iv n :
  0 < iv → 1 ≤ n → delayAfter iv n < Minute →
  Z.min (Int.i64 (delayAfter iv n * 2)) Minute = delayAfter iv (n + 1).
Proof.
  intros Hiv Hn. pose proof (pow_pos n Hn). unfold delayAfter.
  replace (n + 1 - 1) with (Z.succ (n - 1)) by lia. rewrite Z.pow_succ_r by lia.
  generalize dependent (2 ^ (n - 1)). intros x Hx Hm.
  assert (Hl : Z.min (iv * x) Minute = iv * x) by lia. rewrite Hl in *. rewrite Int.i64_small.
  - replace (iv * (2 * x)) with (iv * x * 2) by ring. done.
  - assert (0 < iv * x) by (by apply Z.mul_pos_pos). unfold Minute in Hm. generalize dependent (iv * x). intros. lia.
Qed.

Lemma delayAfter_stays iv n f :
  0 < iv → 1 ≤ n → n ≤ f → Minute ≤ delayAfter iv n → delayAfter iv n = delayAfter iv f.
Proof.
  intros Hiv Hn Hf Hm. pose proof (pow_pos n Hn). unfold delayAfter in *.
  assert (Hle : 2 ^ (n - 1) ≤ 2 ^ (f - 1)) by (apply Z.pow_le_mono_r; lia).
  generalize dependent (2 ^ (n - 1)). generalize dependent (2 ^ (f - 1)).
  generalize dependent Minute. intros m x y ? ?. nia.
Qed.

Lemma doubled_eq fuel n f iv :
  0 < iv → 1 ≤ n → n ≤ f → 36 ≤ Z.of_nat fuel + (n - 1) →
  doubled fuel n f (delayAfter iv n) = delayAfter iv f.
Proof.
  intros Hiv. revert n. induction fuel as [|fuel IH]; intros n Hn Hf Hfu; cbn [doubled].
  - by rewrite !delayAfter_late by lia.
  - destruct (Z.ltb_spec n f) as [Hlt|Hge]; cbn [andb]; [|by replace f with n by lia].
    destruct (Z.ltb_spec (delayAfter iv n) Minute) as [Hd|Hd].
    + rewrite delayAfter_next by done. apply IH; lia.
    + by apply delayAfter_stays; [| |lia|].
Qed.

Lemma delayOf_eq iv n : 0 < iv → 1 ≤ n → delayOf iv n = delayAfter iv n.
Proof.
  intros Hiv Hn. unfold delayOf.
  replace (Z.min iv Minute) with (delayAfter iv 1) by (unfold delayAfter; cbn; f_equal; lia).
  apply doubled_eq; lia.
Qed.

Lemma delayAfter_range iv n :
  0 < iv → 1 ≤ n → Z.min iv Minute ≤ delayAfter iv n ≤ Minute.
Proof.
  intros Hiv Hn. unfold delayAfter.
  assert (0 < 2 ^ (n - 1)) by (apply Z.pow_pos_nonneg; lia). nia.
Qed.

End ImportHealth.
