(* ===== verification/ImportRuns.v ===== *)
(** Cycles of the importer, in any sequence: what its health says, whom it tells, and
    when it tries again. *)

From S2P Require Import Prelude Wire Text Segment Importer ImportHealth.
Import Text Segment ImportHealth.

Local Open Scope Z_scope.

Module ImportRuns.

Section runs.
Context (format : Z → string) (iv : Z).
Hypothesis interval_pos : 0 < iv.

Abbreviation record := (record format).
Abbreviation visit := (visit format).
Abbreviation importOnce := (importOnce format).

Definition healthOf (id : string) (imp : Importer) : importHealth :=
  default zeroHealth (health imp !! id).
Definition readOf (id : string) (imp : Importer) : writerRead :=
  default zeroRead (writers imp !! id).

Definition view (h : importHealth) : Episode := mkEpisode (failures h) (next h) (notified h).

(** What may come next in a trace. [backoff]: every cycle observes the schedule. *)
Definition allowed (backoff : bool) (p : list Did) (d : Did) : Prop :=
  match d with
  | DReported id _ => eReported (episode iv id p) = false ∧ 0 < eFailures (episode iv id p)
  | DImport id t =>
    backoff = true → match eNext (episode iv id p) with Some n => n ≤ t | None => True end
  | DWriterReported id since _ => outage id p ≠ since
  | _ => True
  end.

Definition obeys (backoff : bool) (tr : list Did) : Prop :=
  ∀ p d q, tr = p ++ d :: q → allowed backoff p d.

Lemma obeys_nil b : obeys b [].
Proof. intros p d q E. by destruct p. Qed.

Lemma obeys_snoc b tr d : obeys b tr → allowed b tr d → obeys b (tr ++ [d]).
Proof.
  intros H Hd p d' q E. destruct q as [|x q] using rev_ind.
  - apply app_inj_tail in E as [-> ->]. done.
  - rewrite app_comm_cons, app_assoc in E. apply app_inj_tail in E as [E _]. by eapply H.
Qed.

Lemma episode_snoc id tr d : episode iv id (tr ++ [d]) = estep iv id (episode iv id tr) d.
Proof. unfold episode. by rewrite fold_left_app. Qed.
Lemma outage_snoc id tr d : outage id (tr ++ [d]) = wstep id (outage id tr) d.
Proof. unfold outage. by rewrite fold_left_app. Qed.

(** [told]: every report is delivered. *)
Record inv (backoff told : bool) (tr : list Did) (imp : Importer) : Prop := mkInv {
  iv_interval : interval imp = iv;
  iv_health : ∀ id, view (healthOf id imp) = episode iv id tr;
  iv_range : ∀ id, 0 ≤ failures (healthOf id imp) ≤ Int.MaxUint64;
  iv_state : ∀ id, sState (status (healthOf id imp)) = "degraded" ↔ 0 < failures (healthOf id imp);
  iv_told : told = true → ∀ id, 0 < failures (healthOf id imp) → notified (healthOf id imp) = true;
  iv_writers : ∀ id, reported (readOf id imp) = outage id tr;
  iv_obeys : obeys backoff tr
}.

Lemma inv_new b td : inv b td [] (NewImporter iv).
Proof.
  unfold NewImporter. rewrite (proj2 (Z.leb_gt _ _)) by done.
  split; try done; try apply obeys_nil; intros id; unfold healthOf, readOf; cbn;
    by rewrite lookup_empty.
Qed.

(** ** Steps of the trace *)

(** A step that the accounts do not count. *)
Lemma inv_skip b td tr imp d :
  inv b td tr imp → allowed b tr d →
  (∀ id e, estep iv id e d = e) → (∀ id s, wstep id s d = s) → inv b td (tr ++ [d]) imp.
Proof.
  intros [H1 H2 H3 Hs Ht H4 H5] Ha He Hw. split; try done.
  - intros id. by rewrite episode_snoc, He.
  - intros id. by rewrite outage_snoc, Hw.
  - by apply obeys_snoc.
Qed.

Lemma healthOf_set id h imp i :
  healthOf i (setHealth id h imp) = if (id =? i)%string then h else healthOf i imp.
Proof.
  unfold healthOf, setHealth. cbn. destruct (String.eqb_spec id i) as [->|Hn];
    [by rewrite lookup_insert_eq|by rewrite lookup_insert_ne].
Qed.

Lemma readOf_set id r imp i :
  readOf i (setRead id r imp) = if (id =? i)%string then r else readOf i imp.
Proof.
  unfold readOf, setRead. cbn. destruct (String.eqb_spec id i) as [->|Hn];
    [by rewrite lookup_insert_eq|by rewrite lookup_insert_ne].
Qed.

(** One id's health changes with one step of the trace. *)
Lemma inv_health b td tr imp id h d :
  inv b td tr imp → allowed b tr d → view h = estep iv id (episode iv id tr) d →
  0 ≤ failures h ≤ Int.MaxUint64 →
  (sState (status h) = "degraded" ↔ 0 < failures h) →
  (td = true → 0 < failures h → notified h = true) →
  (∀ i e, i ≠ id → estep iv i e d = e) → (∀ i s, wstep i s d = s) →
  inv b td (tr ++ [d]) (setHealth id h imp).
Proof.
  intros [H1 H2 H3 Hs Ht H4 H5] Ha Hv Hr Hst Htd He Hw. split; try done.
  - intros i. rewrite healthOf_set, episode_snoc.
    destruct (String.eqb_spec id i) as [->|Hn]; [done|]. rewrite He by congruence. by rewrite <- H2.
  - intros i. rewrite healthOf_set. destruct (id =? i)%string; [done|apply H3].
  - intros i. rewrite healthOf_set. destruct (id =? i)%string; [done|apply Hs].
  - intros Et i. rewrite healthOf_set. destruct (id =? i)%string; [by apply Htd|by apply Ht].
  - intros i. rewrite outage_snoc, Hw. apply H4.
  - by apply obeys_snoc.
Qed.

Lemma inv_record_untold b tr imp now id cause rep imp' d :
  inv b false tr imp → record false now id cause rep imp = (imp', d) → inv b false (tr ++ d) imp'.
Proof.
  intros H E. unfold ImportHealth.record in E. fold (healthOf id imp) in E.
  assert (Hne : ∀ i, i ≠ id → (id =? i)%string = false).
  { intros i Hi. apply String.eqb_neq. congruence. }
  destruct cause as [c|].
  2: { simplify_eq. apply inv_health; try done; cbn; [by rewrite String.eqb_refl|].
       intros i e Hi. by rewrite Hne. }
  set (h := failedAgain format (interval imp) now c (healthOf id imp)) in *.
  pose proof H as [H1 H2 H3 Hs Ht H4 H5]. pose proof (H2 id) as Hv. pose proof (H3 id) as Hr.
  assert (Hf : inv b false (tr ++ [DFailed id now]) (setHealth id h imp)).
  { assert (Hn : (if failures (healthOf id imp) <? Int.MaxUint64
                  then failures (healthOf id imp) + 1 else failures (healthOf id imp)) =
      Z.min (failures (healthOf id imp) + 1) Int.MaxUint64)
      by (destruct (Z.ltb_spec (failures (healthOf id imp)) Int.MaxUint64); lia).
    apply inv_health; try done.
    - cbn [estep]. rewrite String.eqb_refl, <- Hv. unfold h, failedAgain, view.
      cbn [failures next notified eFailures eReported]. rewrite Hn, H1, delayOf_eq; [done|done|].
      assert (1 ≤ Int.MaxUint64) by done. lia.
    - unfold h, failedAgain. cbn [failures]. rewrite Hn. assert (0 ≤ Int.MaxUint64) by done. lia.
    - split; [intros _|done]. unfold h, failedAgain. cbn [failures]. rewrite Hn.
      assert (1 ≤ Int.MaxUint64) by done. lia.
    - intros i e Hi. cbn. by rewrite Hne. }
  assert (Hfe : view h = episode iv id (tr ++ [DFailed id now])).
  { rewrite <- (iv_health _ _ _ _ Hf id), healthOf_set. by rewrite String.eqb_refl. }
  destruct (notified h) eqn:En; [by simplify_eq|].
  assert (Hal : ∀ ok, allowed b (tr ++ [DFailed id now]) (DReported id ok)).
  { intros ok. cbn [allowed]. rewrite <- Hfe. cbn [view eReported eFailures]. split; [done|].
    unfold h, failedAgain. cbn [failures].
    assert (0 < Int.MaxUint64) by done.
    destruct (Z.ltb_spec (failures (healthOf id imp)) Int.MaxUint64); lia. }
  assert (E2 : ∀ x y : Did, tr ++ [x; y] = (tr ++ [x]) ++ [y]) by (intros; by rewrite <- app_assoc).
  destruct rep as [[]|]; simplify_eq; [|by rewrite E2; apply inv_skip|done].
  rewrite E2.
  match goal with |- inv _ _ _ (setHealth _ (setNotified ?x) _) => assert (Hx : x = h) end.
  { fold (healthOf id (setHealth id h imp)). by rewrite healthOf_set, String.eqb_refl. }
  rewrite Hx. apply inv_health; try done.
  - cbn [estep]. rewrite String.eqb_refl, <- Hfe. done.
  - pose proof (iv_range _ _ _ _ Hf id) as Hrh. by rewrite healthOf_set, String.eqb_refl in Hrh.
  - pose proof (iv_state _ _ _ _ Hf id) as Hrh. by rewrite healthOf_set, String.eqb_refl in Hrh.
  - intros i e Hi. cbn. by rewrite Hne.
Qed.

Lemma inv_untold b td tr imp : inv b td tr imp → inv b false tr imp.
Proof. by intros []. Qed.

Lemma inv_record b td tr imp now id cause rep imp' d :
  inv b td tr imp → (td = true → rep = Some true) →
  record false now id cause rep imp = (imp', d) → inv b td (tr ++ d) imp'.
Proof.
  intros H Hrep E. destruct (inv_record_untold b tr imp now id cause rep imp' d) as [H1 H2 H3 Hs _ H4 H5];
    [by eapply inv_untold|done|]. split; try done. intros Htd i Hi. rewrite (Hrep Htd) in E.
  unfold ImportHealth.record in E. destruct cause as [c|].
  - destruct (notified _) eqn:En; simplify_eq;
      rewrite ?healthOf_set in *; destruct (id =? i)%string; try done;
      by apply (iv_told _ _ _ _ H eq_refl).
  - simplify_eq. rewrite healthOf_set in *. destruct (id =? i)%string; [done|].
    by apply (iv_told _ _ _ _ H eq_refl).
Qed.

Lemma inv_read b td tr imp id r :
  inv b td tr imp → reported r = outage id tr → inv b td tr (setRead id r imp).
Proof.
  intros [H1 H2 H3 Hs Ht H4 H5] Hr. split; try done. intros i. rewrite readOf_set.
  destruct (String.eqb_spec id i) as [->|]; [done|apply H4].
Qed.

(** One writer's outage changes with one step of the trace. *)
Lemma inv_outage b td tr imp id r d :
  inv b td tr imp → allowed b tr d → reported r = wstep id (outage id tr) d →
  (∀ i s, i ≠ id → wstep i s d = s) → (∀ i e, estep iv i e d = e) →
  inv b td (tr ++ [d]) (setRead id r imp).
Proof.
  intros [H1 H2 H3 Hs Ht H4 H5] Ha Hr Hw He. split; try done.
  - intros i. by rewrite episode_snoc, He, <- H2.
  - intros i. rewrite readOf_set, outage_snoc.
    destruct (String.eqb_spec id i) as [->|Hn]; [done|]. by rewrite Hw by congruence.
  - by apply obeys_snoc.
Qed.

Lemma setRead_twice id r r' imp : setRead id r' (setRead id r imp) = setRead id r' imp.
Proof. unfold setRead. cbn. by rewrite insert_insert_eq. Qed.

Lemma inv_observe b td tr imp id h rep imp' d :
  inv b td tr imp → observeWriter id h rep imp = (imp', d) → inv b td (tr ++ d) imp'.
Proof.
  intros H E. unfold observeWriter in E. fold (readOf id imp) in E.
  assert (Hne : ∀ i, i ≠ id → (id =? i)%string = false).
  { intros i Hi. apply String.eqb_neq. congruence. }
  pose proof (iv_writers _ _ _ _ H id) as Hw.
  destruct (wState h =? "healthy")%string eqn:Eh.
  - apply String.eqb_eq in Eh. rewrite Eh in E. cbn in E. simplify_eq.
    apply inv_outage; try done; cbn; [by rewrite String.eqb_refl|]. intros i s Hi. by rewrite Hne.
  - assert (Hr : ∀ w, inv b td tr (setRead id (mkWriterRead w (reported (readOf id imp))) imp)).
    { intros w. by apply inv_read. }
    destruct (negb _ || _) eqn:Ef; [simplify_eq; by rewrite app_nil_r|].
    apply orb_false_iff in Ef as [_ Es%String.eqb_neq]. cbn [reported] in Es.
    assert (Hal : ∀ ok, allowed b tr (DWriterReported id (wSince h) ok)) by (intros ok; cbn; congruence).
    destruct rep as [[]|]; simplify_eq; [|by apply inv_skip|by rewrite app_nil_r].
    rewrite setRead_twice. apply inv_outage; try done; cbn; [by rewrite String.eqb_refl|].
    intros i s Hi. by rewrite Hne.
Qed.

Lemma lookup_keepPresent {V} l (m : gmap string V) i :
  keepPresent l m !! i = if bool_decide (i ∈ l) then m !! i else None.
Proof.
  unfold keepPresent. rewrite map_lookup_filter. destruct (m !! i) as [v|]; cbn.
  - case_bool_decide; [by rewrite option_guard_True|by rewrite option_guard_False].
  - by case_bool_decide.
Qed.

Lemma inv_gone b td tr imp l :
  inv b td tr imp →
  inv b td (tr ++ [DGone l])
    (mkImporter (keepPresent l (health imp)) (keepPresent l (writers imp)) (interval imp)).
Proof.
  intros [H1 H2 H3 Hs Ht H4 H5].
  split; try done; unfold healthOf, readOf in *; cbn [health writers].
  - intros i. rewrite lookup_keepPresent, episode_snoc, <- H2. cbn. by case_bool_decide.
  - intros i. rewrite lookup_keepPresent. case_bool_decide; [apply H3|done].
  - intros i. rewrite lookup_keepPresent. case_bool_decide; [apply Hs|done].
  - intros Et i. rewrite lookup_keepPresent. case_bool_decide; [by apply Ht|done].
  - intros i. rewrite lookup_keepPresent, outage_snoc, <- H4. cbn. by case_bool_decide.
  - by apply obeys_snoc.
Qed.

(** ** Cycles *)

Definition winv (b td : bool) (tr : list Did) (w : Walk) : Prop := inv b td (tr ++ did w) (imp_ w).

Lemma winv_on b td tr w f :
  winv b td tr w → (∀ imp' d, f (imp_ w) = (imp', d) → inv b td ((tr ++ did w) ++ d) imp') →
  winv b td tr (onImporter f w).
Proof.
  intros H Hf. unfold onImporter. destruct (f (imp_ w)) as [i d] eqn:E.
  unfold winv. cbn [did imp_]. rewrite app_assoc. by apply Hf.
Qed.

Lemma due_next b td tr imp id t :
  inv b td tr imp → due t id imp = true →
  match eNext (episode iv id tr) with Some n => n ≤ t | None => True end.
Proof.
  intros H Hd. rewrite <- (iv_health _ _ _ _ H id). unfold due in Hd. cbn.
  unfold healthOf. case_match; [|done]. apply negb_true_iff, Z.ltb_ge in Hd. done.
Qed.

Lemma visit_inv b td tr bo w v :
  winv b td tr w → (b = true → bo = true) → (td = true → vReport v = Some true) →
  winv b td tr (visit bo w v).
Proof.
  intros H Hb Htd. unfold ImportHealth.visit. destruct (stopped w); [done|]. destruct (vIsDir v); [|done].
  cbn [negb]. destruct (vCancelledBefore v); [done|].
  set (w1 := onImporter _ _).
  assert (H1 : winv b td tr w1) by (apply winv_on; [done|]; intros; by eapply inv_observe).
  destruct (bo && negb (due (vDueAt v) (vName v) (imp_ w1))) eqn:Ed; [done|].
  assert (H2 : winv b td tr (count v w1)).
  { unfold winv, count. cbn [did imp_]. rewrite app_assoc. apply inv_skip; try done.
    cbn. intros ->. rewrite Hb in Ed by done. cbn in Ed. apply negb_false_iff in Ed.
    by eapply due_next. }
  destruct (vCancelledAfter v); [done|].
  assert (H3 : ∀ w', winv b td tr w' → winv b td tr (blame v w')).
  { intros w' Hw'. unfold blame. by destruct (vCause v). }
  apply H3, winv_on; [done|]. intros. by eapply inv_record.
Qed.

Lemma visits_inv b td tr bo vs w :
  winv b td tr w → (b = true → bo = true) → (td = true → Forall (λ v, vReport v = Some true) vs) →
  winv b td tr (fold_left (visit bo) vs w).
Proof.
  intros H Hb Htd. revert w H. induction vs as [|v vs IH]; intros w H; [done|].
  apply IH; [|apply visit_inv; [done..|]]; intros Ht; apply Htd in Ht; by inversion Ht.
Qed.

(** Every report a cycle makes is taken. *)
Definition delivers (c : Cycle) : Prop :=
  cRootReport c = Some true ∧
  match cEntries c with Ok vs => Forall (λ v, vReport v = Some true) vs | Err _ => True end.

Lemma importOnce_inv b td tr c imp st err imp' d :
  inv b td tr imp → (b = true → cBackoff c = true) → (td = true → delivers c) →
  importOnce c imp = (st, err, imp', d) → inv b td (tr ++ d) imp'.
Proof.
  intros H Hb Htd E. unfold delivers in Htd. unfold ImportHealth.importOnce in E.
  destruct (cCancelled c); [simplify_eq; by rewrite app_nil_r|].
  destruct (cBackoff c && negb (due (cDueAt c) "" imp)) eqn:Ed; [simplify_eq; by rewrite app_nil_r|].
  assert (H0 : inv b td (tr ++ [DImport "" (cDueAt c)]) imp).
  { apply inv_skip; try done. cbn. intros ->. rewrite Hb in Ed by done. cbn in Ed.
    apply negb_false_iff in Ed. by eapply due_next. }
  assert (Hcons : ∀ d, tr ++ DImport "" (cDueAt c) :: d = (tr ++ [DImport "" (cDueAt c)]) ++ d)
    by (intros; by rewrite <- app_assoc).
  destruct (cEntries c) as [vs|text].
  - destruct (record false (cNow c) "" None (cRootReport c) imp) as [imp1 d1] eqn:E1.
    set (w := fold_left _ _ _) in E.
    assert (Hw : winv b td tr w).
    { apply visits_inv; [|done|by intros Ht; apply Htd in Ht as []].
      unfold winv. cbn [did imp_]. rewrite Hcons.
      eapply inv_record; [done| |done]. by intros Ht; apply Htd in Ht as []. }
    destruct (stopped w); simplify_eq; [done|]. rewrite app_assoc. by apply inv_gone.
  - destruct (record false (cNow c) "" (Some text) (cRootReport c) imp) as [imp1 d1] eqn:E1.
    simplify_eq. rewrite Hcons. eapply inv_record; [done| |done]. by intros Ht; apply Htd in Ht as [].
Qed.

Lemma cycles_inv b td tr cs imp imp' d :
  inv b td tr imp → (b = true → Forall (λ c, cBackoff c = true) cs) →
  (td = true → Forall delivers cs) →
  cycles format cs imp = (imp', d) → inv b td (tr ++ d) imp'.
Proof.
  revert tr imp d. induction cs as [|c cs IH]; intros tr imp d H Hb Htd E; cbn [cycles] in E.
  { simplify_eq. by rewrite app_nil_r. }
  destruct (importOnce c imp) as [[[st err] imp1] d1] eqn:E1.
  destruct (cycles format cs imp1) as [imp2 d2] eqn:E2. simplify_eq.
  rewrite app_assoc. eapply IH; [|intros Ht; apply Hb in Ht; by inversion Ht|
    intros Ht; apply Htd in Ht; by inversion Ht|exact E2].
  eapply importOnce_inv; [done| | |done]; intros Ht; [apply Hb in Ht|apply Htd in Ht]; by inversion Ht.
Qed.

(** ** One VM does not delay another *)

Lemma record_other cc now id cause rep imp i :
  i ≠ id → healthOf i (record cc now id cause rep imp).1 = healthOf i imp.
Proof.
  intros Hi. assert (Hne : (id =? i)%string = false) by (apply String.eqb_neq; congruence).
  unfold ImportHealth.record. destruct cc; [done|]. destruct cause as [c|].
  - destruct (notified _); [cbn [fst]; by rewrite healthOf_set, Hne|].
    destruct rep as [[]|]; cbn [fst]; by rewrite !healthOf_set, !Hne.
  - cbn [fst]. by rewrite healthOf_set, Hne.
Qed.

Lemma observe_health id h rep imp i :
  healthOf i (observeWriter id h rep imp).1 = healthOf i imp.
Proof.
  unfold observeWriter. destruct (negb _ || _); [done|]. by destruct rep as [[]|].
Qed.

Lemma onImporter_health f w i :
  healthOf i (f (imp_ w)).1 = healthOf i (imp_ w) →
  healthOf i (imp_ (onImporter f w)) = healthOf i (imp_ w).
Proof. unfold onImporter. by destruct (f (imp_ w)). Qed.

Lemma blame_imp v w : imp_ (blame v w) = imp_ w ∧ did (blame v w) = did w ∧ stopped (blame v w) = stopped w.
Proof. unfold blame. by destruct (vCause v). Qed.

(** Nobody gives up on the cycle. *)
Definition quiet (v : Visit) : Prop := vCancelledBefore v = false ∧ vCancelledAfter v = false.

Lemma onImporter_stopped f w : stopped (onImporter f w) = stopped w.
Proof. unfold onImporter. by destruct (f (imp_ w)). Qed.
Lemma onImporter_did f w d : d ∈ did w → d ∈ did (onImporter f w).
Proof.
  unfold onImporter. destruct (f (imp_ w)). cbn. intros ?. apply elem_of_app. by left.
Qed.

Lemma visit_grows bo w v d : d ∈ did w → d ∈ did (visit bo w v).
Proof.
  intros Hd. unfold ImportHealth.visit. repeat case_match; try done.
  1: by apply onImporter_did.
  1: unfold count, stop; cbn [did]; apply elem_of_app; left; by apply onImporter_did.
  destruct (blame_imp v (onImporter (record false (vNow v) (vName v) (vCause v) (vReport v))
    (count v (onImporter (observeWriter (vName v) (vWriter v) (vWriterReport v)) (seeDir v w))))) as (_ & -> & _).
  apply onImporter_did. unfold count. cbn [did]. apply elem_of_app. left. by apply onImporter_did.
Qed.

Lemma visit_other bo w v i :
  i ≠ vName v → healthOf i (imp_ (visit bo w v)) = healthOf i (imp_ w).
Proof.
  intros Hi. unfold ImportHealth.visit.
  assert (Ho : healthOf i (imp_ (onImporter (observeWriter (vName v) (vWriter v) (vWriterReport v)) (seeDir v w)))
    = healthOf i (imp_ w)) by (rewrite onImporter_health; [done|apply observe_health]).
  repeat case_match; try done.
  match goal with |- healthOf i (imp_ (blame v ?x)) = _ => destruct (blame_imp v x) as (-> & _) end.
  rewrite onImporter_health; [done|by apply record_other].
Qed.

Lemma visit_running bo w v : quiet v → stopped w = false → stopped (visit bo w v) = false.
Proof.
  intros [H1 H2] Hs. unfold ImportHealth.visit. rewrite Hs, H1, H2. destruct (vIsDir v); [|done]. cbn [negb].
  destruct (bo && _); [by rewrite onImporter_stopped|].
  match goal with |- stopped (blame v ?x) = _ => destruct (blame_imp v x) as (_ & _ & ->) end.
  rewrite onImporter_stopped. unfold count. cbn [stopped]. by rewrite onImporter_stopped.
Qed.

Lemma due_health now id imp imp' : healthOf id imp = healthOf id imp' → due now id imp = due now id imp'.
Proof. unfold due, healthOf. by intros ->. Qed.

Lemma visit_imports bo w v :
  stopped w = false → vIsDir v = true → vCancelledBefore v = false →
  bo = false ∨ due (vDueAt v) (vName v) (imp_ w) = true →
  DImport (vName v) (vDueAt v) ∈ did (visit bo w v).
Proof.
  intros Hs Hd Hc Hdue. unfold ImportHealth.visit. rewrite Hs, Hd, Hc. cbn [negb].
  set (w1 := onImporter _ _).
  assert (E : bo && negb (due (vDueAt v) (vName v) (imp_ w1)) = false).
  { destruct Hdue as [->|Hdue]; [done|]. rewrite (due_health _ _ _ (imp_ w)), Hdue; [by rewrite andb_false_r|].
    unfold w1. rewrite onImporter_health; [done|apply observe_health]. }
  rewrite E.
  assert (Hin : DImport (vName v) (vDueAt v) ∈ did (count v w1)).
  { unfold count. cbn [did]. apply elem_of_app. right. by apply list_elem_of_singleton. }
  destruct (vCancelledAfter v); [done|].
  match goal with |- _ ∈ did (blame v ?x) => destruct (blame_imp v x) as (_ & -> & _) end.
  by apply onImporter_did.
Qed.

Lemma visits_import bo vs w v :
  Forall quiet vs → NoDup (vName <$> vs) → stopped w = false → v ∈ vs → vIsDir v = true →
  bo = false ∨ due (vDueAt v) (vName v) (imp_ w) = true →
  DImport (vName v) (vDueAt v) ∈ did (fold_left (visit bo) vs w).
Proof.
  revert w. induction vs as [|x vs IH]; intros w Hq Hn Hs Hv Hd Hdue; [by apply elem_of_nil in Hv|].
  apply Forall_cons in Hq as [Hx Hq]. cbn in Hn. apply NoDup_cons in Hn as [Hnx Hn].
  cbn [fold_left]. apply elem_of_cons in Hv as [<-|Hv].
  - assert (Hin : DImport (vName v) (vDueAt v) ∈ did (visit bo w v)) by (apply visit_imports; try done; apply Hx).
    revert Hin. clear. generalize (visit bo w v). induction vs as [|y vs IH]; intros w' H; [done|].
    cbn. by apply IH, visit_grows.
  - apply IH; try done; [by apply visit_running|]. destruct Hdue as [?|Hdue]; [by left|right].
    rewrite (due_health _ _ _ (imp_ w)); [done|]. apply visit_other. intros E. apply Hnx.
    rewrite <- E. by apply list_elem_of_fmap_2.
Qed.

(** ** Episodes *)

(** An episode of an id ends with a success, or with its directory. *)
Definition endsb (id : string) (d : Did) : bool :=
  match d with
  | DRecovered i => (i =? id)%string
  | DGone l => negb (bool_decide (id ∈ l))
  | _ => false
  end.

Definition wendsb (id since : string) (d : Did) : bool :=
  match d with
  | DHealthy i => (i =? id)%string
  | DWriterReported i s true => (i =? id)%string && negb (s =? since)%string
  | DGone l => negb (bool_decide (id ∈ l))
  | _ => false
  end.

Definition failedb (id : string) (d : Did) : bool :=
  match d with DFailed i _ => (i =? id)%string | _ => false end.

Lemma episode_app id p l : episode iv id (p ++ l) = fold_left (estep iv id) l (episode iv id p).
Proof. unfold episode. by rewrite fold_left_app. Qed.

Lemma reported_persists id e l :
  eReported e = true → existsb (endsb id) l = false → eReported (fold_left (estep iv id) l e) = true.
Proof.
  revert e. induction l as [|d l IH]; intros e He Hl; [done|]. cbn in Hl.
  apply orb_false_iff in Hl as [Hd Hl]. cbn [fold_left]. apply IH; [|done].
  destruct d as [| i|i t|i []| | |l']; cbn in *; try done; try (by destruct (i =? id)%string).
  by apply negb_false_iff in Hd as ->.
Qed.

Lemma next_persists id e l :
  existsb (λ d, endsb id d || failedb id d) l = false → eNext (fold_left (estep iv id) l e) = eNext e.
Proof.
  revert e. induction l as [|d l IH]; intros e Hl; [done|]. cbn in Hl.
  apply orb_false_iff in Hl as [Hd Hl]. cbn [fold_left]. rewrite IH by done.
  apply orb_false_iff in Hd as [Hd Hf].
  destruct d as [| i|i t|i []| | |l']; cbn in *; try done; try (by destruct (i =? id)%string).
  by apply negb_false_iff in Hd as ->.
Qed.

Lemma outage_persists id since l :
  existsb (wendsb id since) l = false → fold_left (wstep id) l since = since.
Proof.
  induction l as [|d l IH]; intros Hl; [done|]. cbn in Hl.
  apply orb_false_iff in Hl as [Hd Hl]. cbn [fold_left].
  assert (E : wstep id since d = since); [|rewrite E; by apply IH].
  destruct d as [| | | |i|i s []|l']; cbn in *; try done; try (by destruct (i =? id)%string).
  - destruct (i =? id)%string; [|done]. cbn in Hd. apply negb_false_iff, String.eqb_eq in Hd. done.
  - by apply negb_false_iff in Hd as ->.
Qed.

Lemma Status_state id imp :
  sState (Status id imp) = "degraded" ↔ sState (status (healthOf id imp)) = "degraded".
Proof. unfold Status, healthOf. cbn. by destruct (health imp !! id). Qed.

End runs.

(** An id may be tried: it is not in an episode, or its time has come. *)
Definition mayTry (e : Episode) (t : Z) : Prop :=
  match eNext e with Some n => n ≤ t | None => True end.

(** C39: Each failure is told once. In any sequence of import cycles, whatever their
    outcomes, clocks and cancellations: between two reports of an import failure of
    one id, the first of which was taken, lies a success of its import or the
    disappearance of its directory; between two reports of one writer outage, the
    first of which was taken, a healthy reading, another outage or the disappearance;
    the status is degraded exactly while an episode of failures is open; and when
    every report is taken, every open episode has been reported. *)
Theorem episodes_reported_once format iv cs imp tr :
  0 < iv → cycles format cs (NewImporter iv) = (imp, tr) →
  (∀ id ok l1 l2 l3, tr = l1 ++ DReported id true :: l2 ++ DReported id ok :: l3 →
     existsb (endsb id) l2 = true) ∧
  (∀ id since ok l1 l2 l3,
     tr = l1 ++ DWriterReported id since true :: l2 ++ DWriterReported id since ok :: l3 →
     existsb (wendsb id since) l2 = true) ∧
  (∀ id, sState (Status id imp) = "degraded" ↔ 0 < eFailures (episode iv id tr)) ∧
  (Forall delivers cs → ∀ id, 0 < eFailures (episode iv id tr) → eReported (episode iv id tr) = true).
Proof.
  intros Hiv E.
  pose proof (cycles_inv format iv Hiv false false [] cs _ _ _ (inv_new iv Hiv _ _) ltac:(done) ltac:(done) E) as H.
  cbn [app] in H. pose proof (iv_obeys _ _ _ _ _ H) as Hob. split_and!.
  - intros id ok l1 l2 l3 ->. apply not_false_iff_true. intros Hl.
    destruct (Hob (l1 ++ DReported id true :: l2) (DReported id ok) l3) as [Hr _];
      [by rewrite <- app_assoc|].
    rewrite episode_app in Hr. cbn [fold_left estep] in Hr. rewrite String.eqb_refl in Hr.
    by rewrite reported_persists in Hr.
  - intros id since ok l1 l2 l3 ->. apply not_false_iff_true. intros Hl.
    pose proof (Hob (l1 ++ DWriterReported id since true :: l2) (DWriterReported id since ok) l3
      ltac:(by rewrite <- app_assoc)) as Hr. cbn [allowed] in Hr. apply Hr.
    unfold outage. rewrite fold_left_app. cbn [fold_left wstep]. rewrite String.eqb_refl.
    by apply outage_persists.
  - intros id. rewrite Status_state, (iv_state _ _ _ _ _ H). by rewrite <- (iv_health _ _ _ _ _ H).
  - intros Hd.
    pose proof (cycles_inv format iv Hiv false true [] cs _ _ _ (inv_new iv Hiv _ _) ltac:(done) (λ _, Hd) E)
      as H'. intros id. rewrite <- (iv_health _ _ _ _ _ H'). cbn. by apply (iv_told _ _ _ _ _ H').
Qed.

(** C40: The schedule of retries. In any sequence of cycles of the polling loop, an
    import of a directory, or a listing of the spool's root, that failed for the [n]th
    time in a row is not tried again before the interval doubled [n - 1] times, at most
    a minute, has passed since. A next cycle that is not cancelled, at a time when the
    root may be listed and whose listing succeeds, tries every directory it lists (under
    distinct, non-empty names) whose own time has come, whatever the other directories
    do; at a time when the root may not be listed yet it does nothing at all. *)
Theorem backoff_kept format iv cs imp tr :
  0 < iv → Forall (λ c, cBackoff c = true) cs → cycles format cs (NewImporter iv) = (imp, tr) →
  (∀ id t0 t p1 p2 q, tr = p1 ++ DFailed id t0 :: p2 ++ DImport id t :: q →
     existsb (λ d, endsb id d || failedb id d) p2 = false →
     let n := eFailures (episode iv id (p1 ++ [DFailed id t0])) in
     t0 + Z.min (iv * 2 ^ (n - 1)) Minute ≤ t) ∧
  (∀ c vs v st err imp' d, importOnce format c imp = (st, err, imp', d) →
     cCancelled c = false → mayTry (episode iv "" tr) (cDueAt c) → cEntries c = Ok vs →
     Forall quiet vs → NoDup (vName <$> vs) → v ∈ vs → vIsDir v = true → vName v ≠ "" →
     mayTry (episode iv (vName v) tr) (vDueAt v) →
     DImport (vName v) (vDueAt v) ∈ d) ∧
  (∀ c, cCancelled c = false → cBackoff c = true → ¬ mayTry (episode iv "" tr) (cDueAt c) →
     importOnce format c imp = (Importer.mkStats 0 0 0, None, imp, [])).
Proof.
  intros Hiv Hb E.
  pose proof (cycles_inv format iv Hiv true false [] cs _ _ _ (inv_new iv Hiv _ _) (λ _, Hb) ltac:(done) E) as H.
  cbn [app] in H.
  assert (Hdue : ∀ id t, due t id imp = true ↔ mayTry (episode iv id tr) t).
  { intros id t. rewrite <- (iv_health _ _ _ _ _ H). unfold mayTry. cbn [view eNext].
    unfold due. fold (healthOf id imp). destruct (next (healthOf id imp)); [|done].
    by rewrite negb_true_iff, Z.ltb_ge. }
  split_and!.
  - intros id t0 t p1 p2 q -> Hp. cbv zeta.
    pose proof (iv_obeys _ _ _ _ _ H (p1 ++ DFailed id t0 :: p2) (DImport id t) q
      ltac:(by rewrite <- app_assoc) eq_refl) as Hn.
    rewrite episode_app in Hn. cbn [fold_left] in Hn. rewrite next_persists in Hn by done.
    rewrite episode_snoc. cbn [estep] in *. rewrite String.eqb_refl in *. done.
  - intros c vs v st err imp' d Hi Hc Hr%Hdue He Hq Hn Hv Hd Hne Hnext%Hdue.
    unfold importOnce in Hi. rewrite Hc, Hr, andb_false_r, He in Hi.
    pose proof (record_other format false (cNow c) "" None (cRootReport c) imp (vName v) Hne) as Ho.
    destruct (record format false (cNow c) "" None (cRootReport c) imp) as [imp1 d1]. cbn [fst] in Ho.
    set (w := fold_left _ _ _) in Hi.
    assert (Hin : DImport (vName v) (vDueAt v) ∈ did w).
    { apply visits_import; try done. right. cbn [imp_]. by rewrite (due_health _ _ _ imp). }
    destruct (stopped w); simplify_eq; [done|]. apply elem_of_app. by left.
  - intros c Hc Hbo Hr. unfold importOnce. rewrite Hc, Hbo.
    destruct (due (cDueAt c) "" imp) eqn:Ed; [|done]. by apply Hdue in Ed.
Qed.

(** A directory whose import fails three times, is read, and fails again. *)
Definition exFormat (t : Z) : string := Strconv.FormatInt t.
Definition exVisit (t : Z) (cause : option string) : Visit :=
  mkVisit "vm-1" true false (mkWriterStatus "failing" "s1" "disk full" "" "1" "0" "" "w") (Some true)
    (t * Second) (Importer.mkStats 0 0 0) cause false (t * Second) (Some true).
Definition exCycle (t : Z) (cause : option string) : Cycle :=
  mkCycle true false (t * Second) (t * Second) (Some true) (Ok [exVisit t cause]).
Definition exCycles : list Cycle :=
  [exCycle 1 (Some "bad"); exCycle 2 (Some "bad"); exCycle 3 (Some "bad"); exCycle 4 (Some "bad");
   exCycle 8 None; exCycle 9 (Some "bad")].
Definition exFinal : Importer := (cycles exFormat exCycles (NewImporter Second)).1.
Definition exTrace : list Did := (cycles exFormat exCycles (NewImporter Second)).2.

Lemma exCycles_run : cycles exFormat exCycles (NewImporter Second) = (exFinal, exTrace).
Proof. unfold exFinal, exTrace. apply surjective_pairing. Qed.

Lemma exCycles_backoff : Forall (λ c, cBackoff c = true) exCycles.
Proof. unfold exCycles. repeat constructor. Qed.

Lemma exCycles_deliver : Forall delivers exCycles.
Proof. unfold exCycles. repeat constructor. Qed.

(** Reported at seconds 1 and 9; not tried at second 3. *)
Lemma exTrace_eq : exTrace =
  [DImport "" (1 * Second); DRecovered ""; DWriterReported "vm-1" "s1" true;
   DImport "vm-1" (1 * Second); DFailed "vm-1" (1 * Second); DReported "vm-1" true; DGone [""; "vm-1"];
   DImport "" (2 * Second); DRecovered ""; DImport "vm-1" (2 * Second); DFailed "vm-1" (2 * Second);
   DGone [""; "vm-1"];
   DImport "" (3 * Second); DRecovered ""; DGone [""; "vm-1"];
   DImport "" (4 * Second); DRecovered ""; DImport "vm-1" (4 * Second); DFailed "vm-1" (4 * Second);
   DGone [""; "vm-1"];
   DImport "" (8 * Second); DRecovered ""; DImport "vm-1" (8 * Second); DRecovered "vm-1";
   DGone [""; "vm-1"];
   DImport "" (9 * Second); DRecovered ""; DImport "vm-1" (9 * Second); DFailed "vm-1" (9 * Second);
   DReported "vm-1" true; DGone [""; "vm-1"]].
Proof. vm_compute. reflexivity. Qed.

Lemma episodes_reported_once_witness :
  sState (Status "vm-1" exFinal) = "degraded" ∧
  eReported (episode Second "vm-1" exTrace) = true.
Proof.
  destruct (episodes_reported_once exFormat Second exCycles exFinal exTrace eq_refl exCycles_run)
    as (_ & _ & Hs & Hr).
  assert (Hf : 0 < eFailures (episode Second "vm-1" exTrace)) by (vm_compute; reflexivity).
  split; [by apply Hs|]. apply Hr; [exact exCycles_deliver|exact Hf].
Defined.

Definition exBetween : list Did :=
  [DReported "vm-1" true; DGone [""; "vm-1"]; DImport "" (2 * Second); DRecovered ""].

Lemma backoff_kept_witness :
  1 * Second + Z.min (Second * 2 ^ (eFailures (episode Second "vm-1"
    (take 4 exTrace ++ [DFailed "vm-1" (1 * Second)])) - 1)) Minute ≤ 2 * Second ∧
  DImport "vm-1" (20 * Second) ∈ (importOnce exFormat (exCycle 20 None) exFinal).2.
Proof.
  destruct (backoff_kept exFormat Second exCycles exFinal exTrace eq_refl exCycles_backoff exCycles_run)
    as (H & H2 & _). split.
  - assert (E1 : exTrace = take 4 exTrace ++ DFailed "vm-1" (1 * Second) :: exBetween ++
      DImport "vm-1" (2 * Second) :: drop 10 exTrace) by (vm_compute; reflexivity).
    assert (E2 : existsb (λ d, endsb "vm-1" d || failedb "vm-1" d) exBetween = false)
      by (vm_compute; reflexivity).
    pose proof (H _ _ _ _ _ _ E1 E2) as Hk. exact Hk.
  - destruct (importOnce exFormat (exCycle 20 None) exFinal) as [[[st err] imp'] d] eqn:Ei.
    assert (Hr : mayTry (episode Second "" exTrace) (cDueAt (exCycle 20 None))) by (vm_compute; exact I).
    assert (Hv : mayTry (episode Second "vm-1" exTrace) (vDueAt (exVisit 20 None)))
      by (vm_compute; discriminate).
    assert (Hq : Forall quiet [exVisit 20 None]) by repeat constructor.
    assert (Hn : NoDup (vName <$> [exVisit 20 None])) by apply NoDup_singleton.
    exact (H2 (exCycle 20 None) [exVisit 20 None] (exVisit 20 None) st err imp' d Ei eq_refl Hr eq_refl Hq Hn
      ltac:(left) eq_refl ltac:(discriminate) Hv).
Defined.

End ImportRuns.
