(* ===== verification/StatusFile.v ===== *)
(** The writer's status file (internal/spool/status.go): the fixed frame the writer
    overwrites and the importer reads. *)

From S2P Require Import Prelude Wire Text Segment ImportHealth.
Import Text Segment ImportHealth.

Local Open Scope Z_scope.

Module StatusFile.

Definition statusFileBytes : nat := 4096.
Definition maxStatusBody : Z := Z.of_nat statusFileBytes - 8.

Section codec.
(** [json.Marshal] and [json.Unmarshal] of the record; a record of strings always
    marshals. *)
Context (marshal : WriterStatus → list Z) (unmarshal : list Z → option WriterStatus).

Definition runeCount (s : string) : nat := length (runes s).

(** Cause and last error halved, by rune count. *)
Definition halved (h : WriterStatus) : WriterStatus :=
  mkWriterStatus (wState h) (wSince h)
    (boundRunes (wCause h) (Nat.div2 (runeCount (wCause h))))
    (boundRunes (wLastError h) (Nat.div2 (runeCount (wLastError h))))
    (wRunnerRecordsRefused h) (wGuestPushesRefused h) (wUpdatedAt h) (wInstanceID h).

Fixpoint encodeLoop (fuel : nat) (h : WriterStatus) : option (list Z) :=
  match fuel with
  | O => None
  | S fuel =>
    let body := marshal h in
    if Z.of_nat (length body) <=? maxStatusBody then
      Some (take statusFileBytes (encodeFrame body ++ replicate statusFileBytes 0))
    else if (wCause h =? "")%string && (wLastError h =? "")%string then None
    else encodeLoop fuel (halved h)
  end.

Definition encodeStatus (h : WriterStatus) : option (list Z) :=
  encodeLoop (S (runeCount (wCause h) + runeCount (wLastError h))) h.

(** [None] when the file cannot be opened. *)
Definition readStatus (file : option (list Z)) : WriterStatus :=
  match file with
  | None => unknownWriter
  | Some f =>
    if (length f <? statusFileBytes)%nat then unknownWriter else
    let buf := take statusFileBytes f in
    let n := BigEndian.Uint32 (take 4 buf) in
    if (n =? 0) || (maxStatusBody <? n) then unknownWriter else
    let body := take (Z.to_nat n) (drop 8 buf) in
    if negb (crc32c body =? BigEndian.Uint32 (take 4 (drop 4 buf))) then unknownWriter else
    match unmarshal body with
    | Some h => if (wState h =? "healthy")%string || (wState h =? "failing")%string then h
                else unknownWriter
    | None => unknownWriter
    end
  end.

(** ** What is written is what is read *)

Context (json_roundtrip : ∀ h, unmarshal (marshal h) = Some h).
Context (json_bytes : ∀ h, is_bytes (marshal h) ∧ marshal h ≠ []).

Lemma readStatus_frame h :
  Z.of_nat (length (marshal h)) ≤ maxStatusBody →
  (wState h = "healthy" ∨ wState h = "failing") →
  readStatus (Some (take statusFileBytes (encodeFrame (marshal h) ++ replicate statusFileBytes 0))) = h.
Proof.
  intros Hl Hs. destruct (json_bytes h) as [Hb Hne]. set (body := marshal h) in *.
  assert (Hpos : 0 < Z.of_nat (length body)) by (destruct body; [done|cbn; lia]).
  assert (Hok : bodyOk body).
  { split; [done|]. unfold maxStatusBody, maxRecordBytes, statusFileBytes in *. lia. }
  set (pad := replicate (statusFileBytes - (8 + length body)) 0).
  assert (Ef : take statusFileBytes (encodeFrame body ++ replicate statusFileBytes 0) =
    encodeFrame body ++ pad).
  { rewrite take_app_ge; rewrite length_encodeFrame;
      [|unfold maxStatusBody, statusFileBytes in *; lia].
    f_equal. unfold pad. rewrite take_replicate. by rewrite Nat.min_l by lia. }
  assert (Hlen : length (encodeFrame body ++ pad) = statusFileBytes).
  { rewrite length_app, length_encodeFrame. unfold pad. rewrite length_replicate.
    unfold maxStatusBody in Hl. lia. }
  rewrite Ef. unfold readStatus. rewrite Hlen, Nat.ltb_irrefl.
  rewrite (take_ge (encodeFrame body ++ pad) statusFileBytes) by lia. unfold encodeFrame. rewrite (u32_len body Hok).
  pose proof (crc32c_range body Hb) as Hc.
  rewrite <- !app_assoc.
  assert (H4 : ∀ v r, take 4 (BigEndian.PutUint32 v ++ r) = BigEndian.PutUint32 v) by done.
  assert (D4 : ∀ v r, drop 4 (BigEndian.PutUint32 v ++ r) = r) by done.
  rewrite H4, D4, H4, Uint32_PutUint32, Uint32_PutUint32;
    [|done|unfold maxStatusBody, statusFileBytes in Hl; lia].
  assert (D8 : ∀ v w r, drop 8 (BigEndian.PutUint32 v ++ BigEndian.PutUint32 w ++ r) = r) by done.
  rewrite D8, Nat2Z.id, take_app_length.
  rewrite (proj2 (Z.eqb_neq _ _)), (proj2 (Z.ltb_ge _ _)) by lia. cbn [orb].
  rewrite Z.eqb_refl. cbn [negb]. unfold body. rewrite json_roundtrip.
  destruct Hs as [->| ->]; done.
Qed.

(** The same writer, with the two texts cut down. *)
Definition shortened (h h' : WriterStatus) : Prop :=
  wState h' = wState h ∧ wSince h' = wSince h ∧
  wRunnerRecordsRefused h' = wRunnerRecordsRefused h ∧
  wGuestPushesRefused h' = wGuestPushesRefused h ∧
  wUpdatedAt h' = wUpdatedAt h ∧ wInstanceID h' = wInstanceID h.

Lemma encodeLoop_reads fuel h f :
  encodeLoop fuel h = Some f → (wState h = "healthy" ∨ wState h = "failing") →
  ∃ h', readStatus (Some f) = h' ∧ shortened h h' ∧ length f = statusFileBytes ∧
    (Z.of_nat (length (marshal h)) ≤ maxStatusBody → h' = h).
Proof.
  revert h. induction fuel as [|fuel IH]; intros h E Hs; [done|]. cbn [encodeLoop] in E.
  destruct (Z.leb_spec (Z.of_nat (length (marshal h))) maxStatusBody) as [Hl|Hl].
  - simplify_eq. exists h. rewrite readStatus_frame by done. split_and!; try done.
    rewrite length_take, length_app, length_replicate. unfold statusFileBytes. lia.
  - destruct (_ && _); [done|]. destruct (IH _ E Hs) as (h' & Hr & Hsh & Hlen & _).
    exists h'. split_and!; try done. lia.
Qed.

End codec.

(** A status file the writer wrote reads back as the writer's health, its texts whole
    when they fit the frame and cut down otherwise; the file has its fixed size. *)
Lemma status_roundtrip marshal unmarshal h f :
  (∀ h, unmarshal (marshal h) = Some h) → (∀ h, is_bytes (marshal h) ∧ marshal h ≠ []) →
  encodeStatus marshal h = Some f → (wState h = "healthy" ∨ wState h = "failing") →
  ∃ h', readStatus unmarshal (Some f) = h' ∧ shortened h h' ∧ length f = statusFileBytes ∧
    (Z.of_nat (length (marshal h)) ≤ maxStatusBody → h' = h).
Proof. intros H1 H2 E Hs. by eapply encodeLoop_reads. Qed.

(** A new file reads unknown until the first frame is written. *)
Lemma readStatus_zeros unmarshal : readStatus unmarshal (Some (replicate statusFileBytes 0)) = unknownWriter.
Proof. vm_compute. reflexivity. Qed.

End StatusFile.
