(* ===== verification/Store.v ===== *)
(** The event store (internal/store): tables, transactions and the ingestion of
    events.

    A table is the list of its rows in insertion order; [table] adds the counter
    of an [INTEGER PRIMARY KEY AUTOINCREMENT] column. A statement that touches
    rows is a pass over the list with the [WHERE] clause as a boolean. Code that
    runs inside the single writer connection is in the monad [M], a state and
    error monad over [Store]; [inTx] commits on success and restores the tables
    on an error, while [systemSeq], an atomic counter of the process, keeps its
    value. What the code reads from its environment (clock, fresh UUIDs) is an
    argument, and the SHA-256 of an envelope's JSON is the parameter [hash]. *)

From S2P Require Import Prelude Events.
Import Events.

Local Open Scope Z_scope.

(** * Tables *)

Module Sql.
Section sql.
Context {A : Type}.
Implicit Types (p : A → bool) (t : list A).

Definition select p t : list A := List.filter p t.

(** [QueryRow(...).Scan(...)]: the first row, [None] for [sql.ErrNoRows]. *)
Definition select1 p t : option A := head (select p t).

Definition update p (f : A → A) t : list A := (λ r, if p r then f r else r) <$> t.

Definition delete p t : list A := List.filter (λ r, negb (p r)) t.

Definition exists_ p t : bool := existsb p t.

Lemma select1_Some p t r : select1 p t = Some r → r ∈ t ∧ p r = true.
Proof.
  unfold select1, select. intros H.
  assert (Hr : r ∈ List.filter p t) by (destruct (List.filter p t); simplify_eq/=; left).
  apply list_elem_of_In, filter_In in Hr as [Hr ?].
  split; [by apply list_elem_of_In|done].
Qed.

Lemma select1_None p t : select1 p t = None ↔ ∀ r, r ∈ t → p r = false.
Proof.
  unfold select1, select. induction t as [|x t IH]; simpl.
  - split; [intros _ r Hr; by apply elem_of_nil in Hr|done].
  - destruct (p x) eqn:E; simpl.
    + split; [done|]. intros H. specialize (H x (list_elem_of_here _ _)). congruence.
    + rewrite IH. setoid_rewrite elem_of_cons. naive_solver.
Qed.

Lemma exists_spec p t : exists_ p t = true ↔ ∃ r, r ∈ t ∧ p r = true.
Proof.
  unfold exists_. rewrite existsb_exists. by setoid_rewrite <- list_elem_of_In.
Qed.

Lemma exists_false p t : exists_ p t = false ↔ ∀ r, r ∈ t → p r = false.
Proof.
  rewrite <- not_true_iff_false, exists_spec. split.
  - intros H r Hr. apply not_true_iff_false. naive_solver.
  - intros H (r & Hr & E). rewrite H in E; done.
Qed.

Lemma exists_select1 p t : exists_ p t = false ↔ select1 p t = None.
Proof. by rewrite exists_false, select1_None. Qed.

Lemma select1_app p t t' :
  select1 p (t ++ t') = match select1 p t with Some r => Some r | None => select1 p t' end.
Proof.
  unfold select1, select. rewrite List.filter_app.
  by destruct (List.filter p t).
Qed.

Lemma select1_app_l p t t' r : select1 p t = Some r → select1 p (t ++ t') = Some r.
Proof. intros H. by rewrite select1_app, H. Qed.

(** An update that keeps a column keeps every selection on that column. *)
Lemma select1_update p q f t :
  (∀ r, q (f r) = q r) →
  select1 q (update p f t) = (λ r, if p r then f r else r) <$> select1 q t.
Proof.
  intros Hq. unfold select1, select, update.
  induction t as [|x t IH]; simpl; [done|].
  assert (E : q (if p x then f x else x) = q x) by (destruct (p x); auto).
  rewrite E. by destruct (q x).
Qed.

Lemma update_id p f t : (∀ r, r ∈ t → p r = false) → update p f t = t.
Proof.
  unfold update. induction t as [|x t IH]; intros H; csimpl; [done|].
  rewrite H by left. f_equal. apply IH. intros r Hr. apply H. by right.
Qed.

Lemma length_update p f t : length (update p f t) = length t.
Proof. apply length_fmap. Qed.

Lemma elem_of_update p f t r :
  r ∈ update p f t ↔ ∃ r0, r0 ∈ t ∧ r = if p r0 then f r0 else r0.
Proof. unfold update. rewrite list_elem_of_fmap. naive_solver. Qed.

(** A column that every update keeps is unchanged as a list. *)
Lemma fmap_update {B} (c : A → B) p f t :
  (∀ r, p r = true → c (f r) = c r) → c <$> update p f t = c <$> t.
Proof.
  intros H. unfold update. rewrite <- list_fmap_compose. apply list_fmap_ext.
  intros i r _. unfold compose. destruct (p r) eqn:?; auto.
Qed.

Lemma update_app p f t t' : update p f (t ++ t') = update p f t ++ update p f t'.
Proof. apply fmap_app. Qed.

(** With a unique key, the row a key selects is the only one that holds it. *)
Lemma select1_unique {B} (c : A → B) p t r :
  NoDup (c <$> t) → r ∈ t → p r = true → (∀ r', r' ∈ t → p r' = true → c r' = c r) →
  select1 p t = Some r.
Proof.
  unfold select1, select. induction t as [|x t IH]; intros Hnd Hr Hp Hc.
  - by apply elem_of_nil in Hr.
  - csimpl in *. apply NoDup_cons in Hnd as [Hx Hnd].
    destruct (p x) eqn:E; simpl.
    + apply elem_of_cons in Hr as [->|Hr]; [done|]. exfalso. apply Hx.
      rewrite (Hc x) by (done || left). by apply list_elem_of_fmap_2.
    + apply elem_of_cons in Hr as [->|Hr]; [congruence|].
      apply IH; [done..|]. intros r' ? ?. apply Hc; [by right|done].
Qed.

End sql.

(** ** Tables with an AUTOINCREMENT key *)

Record table (A : Type) := mkTable { rows : list A; seq : Z }.
Arguments mkTable {A}.
Arguments rows {A}.
Arguments seq {A}.

(** The next key, [None] once the largest 64-bit key is taken. *)
Definition nextID {A} (t : table A) : option Z :=
  if seq t <? Int.MaxInt64 then Some (seq t + 1) else None.

Definition insertRow {A} (id : Z) (r : A) (t : table A) : table A :=
  mkTable (rows t ++ [r]) id.

Definition on_rows {A} (f : list A → list A) (t : table A) : table A :=
  mkTable (f (rows t)) (seq t).

Definition empty_table {A} : table A := mkTable [] 0.

End Sql.
Import Sql.

Module Store.

(** * Rows *)

(** The events table; [payload] is the envelope whose JSON the column holds. *)
Record EventRow := mkEventRow {
  event_id : Z;
  source_instance_id : string;
  source_seq : string;
  vm_id : option string;
  boot_id : option string;
  kind : string;
  host_received_at : Z;
  payload : Envelope;
  payload_hash : string
}.

Record StreamRow := mkStreamRow {
  s_source : string;
  s_vm_id : option string;
  s_created_at : string
}.

(** [lock.Images]. *)
Record GuestKernelEntry := mkGuestKernel {
  Version : string;
  SourceURL : string;
  SourceSHA256 : string;
  ConfigSHA256 : string;
  VmlinuxSHA256 : string;
  VmlinuxPath : string;
  VmlinuxURL : string
}.

Record RootImageEntry := mkRootImage {
  SHA256 : string;
  Path : string;
  BaseImageRef : string;
  AptSnapshot : string;
  Inventory : string;
  URL : string
}.

Record Images := mkImages { GuestKernel : GuestKernelEntry; RootImage : RootImageEntry }.

Record VM := mkVM {
  vRowID : Z;
  vVMID : string;
  vName : string;
  vOwner : string;
  vTemplateID : string;
  vTemplateDigest : string;
  vDesiredState : string;
  vObservedState : string;
  vRevision : Z;
  vVCPUCount : Z;
  vMemoryMiB : Z;
  vRootDiskMiB : Z;
  vWorkspaceDiskMiB : Z;
  vNetworkProfile : string;
  vNetworkPolicyID : string;
  vLabels : gmap string string;
  vFailureStage : option string;
  vFailureReason : option string;
  vCurrentBootID : string;
  vBootImages : option Images;
  vCreatedAt : string;
  vUpdatedAt : string;
  vLastEventID : Z
}.

Record Operation := mkOperation {
  oOperationID : Z;
  oOwner : string;
  oKind : string;
  oIdempotencyKey : option string;
  oRequestHash : string;
  oVMID : option string;
  oPhase : string;
  oState : string;
  oErrorCause : option string;
  oErrorMessage : option string;
  oAttempt : Z;
  oCreatedAt : string;
  oUpdatedAt : string
}.

Record Reservation := mkReservation {
  rVMID : string;
  rMemoryTotalMiB : Z;
  rVCPU : Z;
  rDiskMiB : Z;
  rComputeReleased : bool;
  rReleased : bool;
  rCreatedAt : string;
  rUpdatedAt : string
}.

Record Run := mkRun {
  uRowID : Z;
  uRunID : string;
  uVMID : string;
  uOwner : string;
  uGoal : string;
  uCriteriaType : string;
  uOnCompletion : string;
  uProgressEvents : bool;
  uPhase : string;
  uEvaluatedBy : string;
  uReason : string;
  uResultJSON : string;
  uResultStatus : string;
  uResultReceivedAt : string;
  uProgressSeq : Z;
  uIdempotencyKey : option string;
  uRequestHash : string;
  uCreatedEventID : Z;
  uConcludedEventID : Z;
  uCreatedAt : string;
  uStartedAt : string;
  uConcludedAt : string;
  uUpdatedAt : string
}.

Record RunReport := mkRunReport {
  pRunID : string;
  pReportJSON : string;
  pDigest : string;
  pOperationID : Z;
  pGeneratedAt : string
}.

(** * The database and the store *)

Record DB := mkDB {
  events : table EventRow;
  streams : list StreamRow;
  vms : table VM;
  operations : table Operation;
  reservations : list Reservation;
  cleanup_debt : list string;
  runs : table Run;
  run_reports : list RunReport
}.

Definition set_events f d := mkDB (f (events d)) (streams d) (vms d) (operations d)
  (reservations d) (cleanup_debt d) (runs d) (run_reports d).
Definition set_streams f d := mkDB (events d) (f (streams d)) (vms d) (operations d)
  (reservations d) (cleanup_debt d) (runs d) (run_reports d).
Definition set_vms f d := mkDB (events d) (streams d) (f (vms d)) (operations d)
  (reservations d) (cleanup_debt d) (runs d) (run_reports d).
Definition set_operations f d := mkDB (events d) (streams d) (vms d) (f (operations d))
  (reservations d) (cleanup_debt d) (runs d) (run_reports d).
Definition set_reservations f d := mkDB (events d) (streams d) (vms d) (operations d)
  (f (reservations d)) (cleanup_debt d) (runs d) (run_reports d).
Definition set_cleanup_debt f d := mkDB (events d) (streams d) (vms d) (operations d)
  (reservations d) (f (cleanup_debt d)) (runs d) (run_reports d).
Definition set_runs f d := mkDB (events d) (streams d) (vms d) (operations d)
  (reservations d) (cleanup_debt d) (f (runs d)) (run_reports d).
Definition set_run_reports f d := mkDB (events d) (streams d) (vms d) (operations d)
  (reservations d) (cleanup_debt d) (runs d) (f (run_reports d)).

Record Store := mkStore {
  instanceID : string;
  systemSeq : Z;
  db : DB
}.

(** A freshly migrated database, opened under a new instance id. *)
Definition emptyDB : DB :=
  mkDB empty_table [] empty_table empty_table [] [] empty_table [].

Definition Open (instance : string) (d : DB) : Store := mkStore instance 0 d.

(** What an operation reads from its environment: the database's clock, the
    process's clock and a fresh UUID. *)
Record Env := mkEnv {
  sqlNow : string;
  timeNow : Z;
  newUUID : string
}.

(** * Errors *)

Record AdmissionRefusal := mkRefusal { Cause : string; Message : string }.

(** What an [Admit] callback returns when it refuses: a refusal, or any other
    error. *)
Inductive AdmitErr :=
  | Refused (r : AdmissionRefusal)
  | AdmitInternal (msg : string).

Inductive StoreErr :=
  | ErrEventIDPreset
  | ErrInvalidEnvelope (ps : list Problem)
  | ErrUnregisteredKind
  | ErrProvenanceMismatch
  | ErrIntegrityFailure (existing : string)
  | ErrStreamScopeMismatch
  | ErrJoin (cause recording : StoreErr)
  | ErrConstraint (what : string)
  | ErrFull
  | ErrSumOverflow
  | ErrVMUnknown
  | ErrOperationUnknown
  | ErrIdempotencyConflict
  | ErrOperationStale
  | ErrReplayInconsistent
  | ErrAdmission (e : AdmitErr)
  | ErrAdmitMissing
  | RevisionMismatch (current : Z)
  | InvalidTransition (from to : string)
  | ErrRunNotFound
  | ErrActiveRunExists
  | InvalidRunTransition (run from to : string)
  | ErrSubmissionRejected (reason : string)
  | ErrRunNotAcceptingSubmissions
  | ErrReportNotFound
  | ErrReportImmutable (digest : string)
  | ErrBadRecord
  | ErrStorage.

(** * Transactions *)

Definition M (A : Type) := Store → result StoreErr A * Store.

#[export] Instance M_ret : MRet M := λ A a s, (Ok a, s).
#[export] Instance M_bind : MBind M := λ A B f m s,
  match m s with
  | (Ok a, s') => f a s'
  | (Err e, s') => (Err e, s')
  end.

Definition throw {A} (e : StoreErr) : M A := λ s, (Err e, s).
Definition gets {A} (f : DB → A) : M A := λ s, (Ok (f (db s)), s).
Definition modify (f : DB → DB) : M unit :=
  λ s, (Ok tt, mkStore (instanceID s) (systemSeq s) (f (db s))).
Definition ensure (b : bool) (e : StoreErr) : M unit := if b then mret () else throw e.
Definition some {A} (o : option A) (e : StoreErr) : M A :=
  match o with Some a => mret a | None => throw e end.

Definition inTx {A} (m : M A) : M A := λ s,
  match m s with
  | (Ok a, s') => (Ok a, s')
  | (Err e, s') => (Err e, mkStore (instanceID s') (systemSeq s') (db s))
  end.

(** * Append *)

Record AppendResult := mkAppendResult { EventID : string; Deduped : bool }.

Section append.
Context (hash : Envelope → string).

Definition sameScope (bound vm : option string) : bool :=
  match bound with
  | None => negb (isSome vm)
  | Some b => match vm with Some v => (b =? v)%string | None => false end
  end.

(** The source lookup of the dedup key [UNIQUE (source_instance_id, source_seq)]. *)
Definition dedupKey (src sq : string) (r : EventRow) : bool :=
  (source_instance_id r =? src)%string && (source_seq r =? sq)%string.

Definition eventRow (id : Z) (env : Envelope) : EventRow :=
  mkEventRow id (SourceInstanceID env) (SourceSeq env) (VMID env) (BootID env)
    (Kind env) (HostReceivedAt env) env (hash env).

Definition appendInTx (e : Env) (env : Envelope) : M AppendResult :=
  bound ← gets (λ d, select1 (λ r, s_source r =? SourceInstanceID env)%string (streams d));
  _ ← ensure (match bound with Some r => sameScope (s_vm_id r) (VMID env) | None => true end)
        ErrStreamScopeMismatch;
  existing ← gets (λ d, select1 (dedupKey (SourceInstanceID env) (SourceSeq env))
                          (rows (events d)));
  match existing with
  | Some r =>
    if (hash env =? payload_hash r)%string
    then mret (mkAppendResult (Strconv.FormatInt (event_id r)) true)
    else throw (ErrIntegrityFailure (Strconv.FormatInt (event_id r)))
  | None =>
    _ ← (match bound with
         | Some _ => mret ()
         | None => modify (set_streams (λ t,
             t ++ [mkStreamRow (SourceInstanceID env) (VMID env) (sqlNow e)]))
         end);
    next ← gets (λ d, nextID (events d));
    id ← some next ErrFull;
    _ ← modify (set_events (insertRow id (eventRow id env)));
    mret (mkAppendResult (Strconv.FormatInt id) false)
  end.

Definition appendTx (e : Env) (env : Envelope) : M AppendResult := inTx (appendInTx e env).

Definition notApplicableQuality : Quality :=
  mkQuality PathNotApplicable AttributionNotApplicable false false "" [].

(** [s.systemSeq.Add(1)] wraps at 64 bits. *)
Definition addSystemSeq : M Z := λ s,
  let n := Int.i64 (systemSeq s + 1) in (Ok n, mkStore (instanceID s) n (db s)).

Definition getInstanceID : M string := λ s, (Ok (instanceID s), s).

Definition storeEnvelope (inst : string) (sq : Z) (kind : string) (prov : Provenance)
    (sensor : string) (now : Z) (q : Quality) (data : object) : Envelope :=
  mkEnvelope 1 None None None inst (Strconv.FormatInt sq) kind prov sensor now
    "" "" None None None None [] q (Some data).

Definition systemEnvelope (e : Env) (kind sensor : string) (q : Quality) (data : object)
    : M Envelope :=
  inst ← getInstanceID;
  sq ← addSystemSeq;
  mret (storeEnvelope inst sq kind HostObserved sensor (timeNow e) q data).

(** [append(ctx, env, false)]: the path without health events. *)
Definition appendQuiet (e : Env) (env : Envelope) : M AppendResult :=
  _ ← ensure (negb (isSome (Events.EventID env))) ErrEventIDPreset;
  _ ← (match Validate env with [] => mret () | ps => throw (ErrInvalidEnvelope ps) end);
  info ← some (LookupKind (Kind env)) ErrUnregisteredKind;
  _ ← ensure (EProvenance env =? KProvenance info)%string ErrProvenanceMismatch;
  appendTx e env.

(** [withHealth]: records a health event about [cause] and returns [cause]. *)
Definition withHealth {A} (e : Env) (cause : StoreErr) (kind : string) (data : object)
    : M A := λ s,
  let '(env, s1) := systemEnvelope e kind "store" notApplicableQuality data s in
  match env with
  | Err err => (Err err, s1)
  | Ok env =>
    match appendQuiet e env s1 with
    | (Ok _, s2) => (Err cause, s2)
    | (Err err, s2) => (Err (ErrJoin cause err), s2)
    end
  end.

(** [Append]: [append(ctx, env, true)]. *)
Definition Append (e : Env) (env : Envelope) : M AppendResult := λ s,
  match appendQuiet e env s with
  | (Err ErrUnregisteredKind, s') =>
    withHealth e ErrUnregisteredKind "telemetry.unregistered_kind"
      [("kind", JStr (Kind env)); ("source_instance_id", JStr (SourceInstanceID env));
       ("source_seq", JStr (SourceSeq env))] s'
  | (Err (ErrIntegrityFailure existing), s') =>
    withHealth e (ErrIntegrityFailure existing) "telemetry.integrity_failure"
      [("failure", JStr "seq_payload_conflict");
       ("source_instance_id", JStr (SourceInstanceID env));
       ("source_seq", JStr (SourceSeq env)); ("existing_event_id", JStr existing)] s'
  | (Err ErrStreamScopeMismatch, s') =>
    withHealth e ErrStreamScopeMismatch "telemetry.integrity_failure"
      [("failure", JStr "stream_scope_rebind");
       ("source_instance_id", JStr (SourceInstanceID env));
       ("source_seq", JStr (SourceSeq env))] s'
  | r => r
  end.

Definition appendSystemInTx (e : Env) (env : Envelope) : M Z :=
  _ ← (match Validate env with [] => mret () | ps => throw (ErrInvalidEnvelope ps) end);
  res ← appendInTx e env;
  some (Strconv.ParseInt (EventID res)) ErrFull.

(** A system envelope built and appended, the pair of calls every registry
    operation makes. *)
Definition emit (e : Env) (kind : string) (data : object) : M Z :=
  env ← systemEnvelope e kind "registry" notApplicableQuality data;
  appendSystemInTx e env.

(** The same pair of calls for the components that name their own sensor and
    quality: attention and annotations. *)
Definition systemEmit (e : Env) (kind sensor : string) (q : Quality) (data : object) : M Z :=
  env ← systemEnvelope e kind sensor q data;
  appendSystemInTx e env.

End append.

(** * Reasoning in the monad *)

Lemma bind_Ok {A B} (m : M A) (f : A → M B) s b s' :
  (m ≫= f) s = (Ok b, s') ↔ ∃ a s1, m s = (Ok a, s1) ∧ f a s1 = (Ok b, s').
Proof.
  unfold mbind, M_bind. destruct (m s) as [[a|e] s1]; naive_solver.
Qed.

Lemma bind_Err {A B} (m : M A) (f : A → M B) s e s' :
  (m ≫= f) s = (Err e, s') ↔
  m s = (Err e, s') ∨ ∃ a s1, m s = (Ok a, s1) ∧ f a s1 = (Err e, s').
Proof.
  unfold mbind, M_bind. destruct (m s) as [[a|e'] s1]; naive_solver.
Qed.

Lemma bind_eq {A B} (m : M A) (f : A → M B) s a s1 :
  m s = (Ok a, s1) → (m ≫= f) s = f a s1.
Proof. unfold mbind, M_bind. by intros ->. Qed.

Lemma ret_Ok {A} (a b : A) s s' : (mret a : M A) s = (Ok b, s') ↔ a = b ∧ s = s'.
Proof. unfold mret, M_ret. naive_solver. Qed.

Lemma throw_Ok {A} e (a : A) s s' : throw e s = (Ok a, s') ↔ False.
Proof. unfold throw. naive_solver. Qed.

Lemma gets_Ok {A} (f : DB → A) a s s' : gets f s = (Ok a, s') ↔ a = f (db s) ∧ s = s'.
Proof. unfold gets. naive_solver. Qed.

Lemma modify_Ok f u s s' :
  modify f s = (Ok u, s') ↔ s' = mkStore (instanceID s) (systemSeq s) (f (db s)).
Proof. unfold modify. destruct u. naive_solver. Qed.

Lemma ensure_Ok b e u s s' : ensure b e s = (Ok u, s') ↔ b = true ∧ s = s'.
Proof. unfold ensure, mret, M_ret, throw. destruct b, u; naive_solver. Qed.

Lemma some_Ok {A} (o : option A) e a s s' : some o e s = (Ok a, s') ↔ o = Some a ∧ s = s'.
Proof. unfold some, mret, M_ret, throw. destruct o; naive_solver. Qed.

Lemma inTx_Ok {A} (m : M A) a s s' : inTx m s = (Ok a, s') ↔ m s = (Ok a, s').
Proof. unfold inTx. destruct (m s) as [[]]; naive_solver. Qed.

(** A transaction that fails leaves the tables as they were. *)
Lemma inTx_Err {A} (m : M A) e s s' : inTx m s = (Err e, s') → db s' = db s.
Proof. unfold inTx. destruct (m s) as [[]]; naive_solver. Qed.

Lemma inTx_Err_inv {A} (m : M A) e s s' :
  inTx m s = (Err e, s') →
  ∃ s1, m s = (Err e, s1) ∧ s' = mkStore (instanceID s1) (systemSeq s1) (db s).
Proof. unfold inTx. destruct (m s) as [[]]; naive_solver. Qed.

End Store.

(** One step of the inversion of a successful monadic computation. *)
Ltac m_inv_step :=
  match goal with
  | H : (_ ≫= _) _ = (Ok _, _) |- _ =>
      apply Store.bind_Ok in H; destruct H as (? & ? & ? & ?)
  | H : mret _ _ = (Ok _, _) |- _ => apply Store.ret_Ok in H; destruct H as [? ?]
  | H : Store.throw _ _ = (Ok _, _) |- _ => apply Store.throw_Ok in H; destruct H
  | H : Store.gets _ _ = (Ok _, _) |- _ => apply Store.gets_Ok in H; destruct H as [? ?]
  | H : Store.modify _ _ = (Ok _, _) |- _ => apply Store.modify_Ok in H
  | H : Store.ensure _ _ _ = (Ok _, _) |- _ =>
      apply Store.ensure_Ok in H; destruct H as [? ?]
  | H : Store.some _ _ _ = (Ok _, _) |- _ => apply Store.some_Ok in H; destruct H as [? ?]
  | H : Store.inTx _ _ = (Ok _, _) |- _ => apply (proj1 (Store.inTx_Ok _ _ _ _)) in H
  end.
Ltac m_inv := repeat (m_inv_step; subst).

(** * The event log *)

Module Log.
Import Store.

Section log.
Context (hash : Envelope → string).

Abbreviation appendInTx := (appendInTx hash).
Abbreviation emit := (emit hash).

(** The tables after a fresh envelope is recorded. *)
Definition boundStream (env : Envelope) (d : DB) : option StreamRow :=
  select1 (λ r, s_source r =? SourceInstanceID env)%string (streams d).

Definition bindStream (e : Env) (env : Envelope) (d : DB) : DB :=
  match boundStream env d with
  | Some _ => d
  | None => set_streams (λ t,
      t ++ [mkStreamRow (SourceInstanceID env) (VMID env) (sqlNow e)]) d
  end.

Definition recorded (e : Env) (env : Envelope) (d : DB) : DB :=
  let id := seq (events d) + 1 in
  set_events (insertRow id (eventRow hash id env)) (bindStream e env d).

Definition keyRow (env : Envelope) (d : DB) : option EventRow :=
  select1 (dedupKey (SourceInstanceID env) (SourceSeq env)) (rows (events d)).

Definition scopeOk (env : Envelope) (d : DB) : bool :=
  match boundStream env d with Some r => sameScope (s_vm_id r) (VMID env) | None => true end.

(** [appendInTx] as a function of the three lookups it makes. *)
Lemma appendInTx_eq e env s :
  appendInTx e env s =
  if negb (scopeOk env (db s)) then (Err ErrStreamScopeMismatch, s)
  else match keyRow env (db s) with
  | Some r =>
    if (hash env =? payload_hash r)%string
    then (Ok (mkAppendResult (Strconv.FormatInt (event_id r)) true), s)
    else (Err (ErrIntegrityFailure (Strconv.FormatInt (event_id r))), s)
  | None =>
    if seq (events (db s)) <? Int.MaxInt64
    then (Ok (mkAppendResult (Strconv.FormatInt (seq (events (db s)) + 1)) false),
          mkStore (instanceID s) (systemSeq s) (recorded e env (db s)))
    else (Err ErrFull, mkStore (instanceID s) (systemSeq s) (bindStream e env (db s)))
  end.
Proof.
  unfold Store.appendInTx, mbind, M_bind, gets, scopeOk, keyRow, ensure, recorded, bindStream.
  fold (boundStream env (db s)).
  destruct (boundStream env (db s)) as [b|] eqn:Eb; [destruct (sameScope _ _); [|done]|];
    cbn [negb mret M_ret throw].
  - destruct (select1 (dedupKey _ _) _) as [r|]; [by destruct (String.eqb _ _)|].
    unfold mret, M_ret, nextID, some, modify.
    destruct s as [i q d]; cbn [db]. by destruct (seq (events d) <? _).
  - unfold mret, M_ret. cbn.
    destruct (select1 (dedupKey _ _) _) as [r|]; [by destruct (String.eqb _ _)|].
    unfold modify, nextID, some. destruct s as [i q d]; cbn.
    by destruct (seq (events d) <? _).
Qed.

(** The invariant of the log. *)
Record log_ok (s : Store) : Prop := mkLogOk {
  lo_ids : StronglySorted Z.lt (event_id <$> rows (events (db s)));
  lo_range : ∀ r, r ∈ rows (events (db s)) → 1 ≤ event_id r ≤ seq (events (db s));
  lo_seq : 0 ≤ seq (events (db s)) ≤ Int.MaxInt64;
  lo_keys : NoDup ((λ r, (source_instance_id r, source_seq r)) <$> rows (events (db s)));
  lo_streams : NoDup (s_source <$> streams (db s));
  lo_scope : ∀ r, r ∈ rows (events (db s)) → ∃ b, b ∈ streams (db s) ∧
    s_source b = source_instance_id r ∧ s_vm_id b = vm_id r;
  lo_row : ∀ r, r ∈ rows (events (db s)) →
    r = eventRow hash (event_id r) (payload r) ∧ Validate (payload r) = [];
  lo_sysseq : 0 ≤ systemSeq s ≤ Int.MaxInt64;
  lo_sys : ∀ r, r ∈ rows (events (db s)) → source_instance_id r = instanceID s →
    ∃ k, source_seq r = Strconv.FormatInt k ∧ 1 ≤ k ≤ systemSeq s;
  lo_sysscope : ∀ b, b ∈ streams (db s) → s_source b = instanceID s → s_vm_id b = None
}.

Lemma sameScope_spec a b : sameScope a b = true ↔ a = b.
Proof.
  destruct a, b; simpl; try done. rewrite String.eqb_eq. naive_solver.
Qed.

Lemma dedupKey_spec src sq r :
  dedupKey src sq r = true ↔ (source_instance_id r, source_seq r) = (src, sq).
Proof. unfold dedupKey. rewrite andb_true_iff, !String.eqb_eq. naive_solver. Qed.

Lemma boundStream_Some env d b :
  boundStream env d = Some b → b ∈ streams d ∧ s_source b = SourceInstanceID env.
Proof. intros [? ?%String.eqb_eq]%select1_Some. done. Qed.

Lemma boundStream_None env d :
  boundStream env d = None → SourceInstanceID env ∉ s_source <$> streams d.
Proof.
  intros H Hin. apply list_elem_of_fmap in Hin as (b & Hb & Hin).
  apply (proj1 (select1_None _ _)) with (r := b) in H; [|done].
  rewrite Hb, String.eqb_refl in H. done.
Qed.

Lemma streams_recorded e env d :
  streams (recorded e env d) = streams (bindStream e env d).
Proof. done. Qed.

Lemma events_recorded e env d :
  events (recorded e env d) =
  insertRow (seq (events d) + 1) (eventRow hash (seq (events d) + 1) env) (events d).
Proof. unfold recorded, bindStream. destruct (boundStream env d); done. Qed.

Lemma streams_bindStream e env d b :
  b ∈ streams (bindStream e env d) →
  b ∈ streams d ∨ s_source b = SourceInstanceID env ∧ s_vm_id b = VMID env.
Proof.
  unfold bindStream. destruct (boundStream env d); [by left|].
  cbn. rewrite elem_of_app, list_elem_of_singleton. naive_solver.
Qed.

Lemma bindStream_bound e env d :
  scopeOk env d = true →
  ∃ b, b ∈ streams (bindStream e env d) ∧ s_source b = SourceInstanceID env ∧
       s_vm_id b = VMID env.
Proof.
  unfold scopeOk, bindStream. destruct (boundStream env d) as [b|] eqn:E.
  - intros H%sameScope_spec. apply boundStream_Some in E as [? ?]. eauto.
  - intros _. eexists. cbn. rewrite elem_of_app, list_elem_of_singleton. split; [by right|done].
Qed.

Lemma bindStream_mono e env d b : b ∈ streams d → b ∈ streams (bindStream e env d).
Proof.
  unfold bindStream. destruct (boundStream env d); [done|]. cbn.
  rewrite elem_of_app. by left.
Qed.

Lemma bindStream_nodup e env d :
  NoDup (s_source <$> streams d) → NoDup (s_source <$> streams (bindStream e env d)).
Proof.
  intros H. unfold bindStream. destruct (boundStream env d) eqn:E; [done|].
  cbn. rewrite fmap_app. apply NoDup_app. split; [done|]. split.
  - intros x Hx Hx'. apply list_elem_of_singleton in Hx' as ->.
    by apply boundStream_None in E.
  - apply NoDup_singleton.
Qed.

Lemma StronglySorted_snoc (l : list Z) x :
  StronglySorted Z.lt l → (∀ y, y ∈ l → y < x) → StronglySorted Z.lt (l ++ [x]).
Proof.
  intros Hl Hx. apply StronglySorted_app_2; [|done|repeat constructor].
  intros a b Ha Hb. apply list_elem_of_singleton in Hb as ->. auto.
Qed.

(** Recording a fresh envelope keeps the log in order. *)
Lemma log_ok_recorded e env s q :
  log_ok s → scopeOk env (db s) = true → keyRow env (db s) = None →
  seq (events (db s)) < Int.MaxInt64 → Validate env = [] →
  systemSeq s ≤ q ≤ Int.MaxInt64 →
  (SourceInstanceID env = instanceID s →
     VMID env = None ∧ ∃ k, SourceSeq env = Strconv.FormatInt k ∧ 1 ≤ k ≤ q) →
  log_ok (mkStore (instanceID s) q (recorded e env (db s))).
Proof.
  intros [] Hsc Hk Hm Hv Hq Hsys.
  constructor; cbn [db instanceID systemSeq]; rewrite ?streams_recorded, ?events_recorded;
    unfold insertRow; cbn [rows seq].
  - rewrite fmap_app. apply StronglySorted_snoc; [done|].
    intros y (r & -> & Hr)%list_elem_of_fmap. cbn. pose proof (lo_range0 r Hr). lia.
  - intros r [Hr| ->%list_elem_of_singleton]%elem_of_app; cbn; [|lia].
    specialize (lo_range0 r Hr). lia.
  - lia.
  - rewrite fmap_app. apply NoDup_app. split_and!; [done| |apply NoDup_singleton].
    intros x (r & -> & Hr)%list_elem_of_fmap Hx%list_elem_of_singleton. cbn in Hx.
    apply (proj1 (select1_None _ _) Hk), not_true_iff_false in Hr.
    by rewrite dedupKey_spec in Hr.
  - by apply bindStream_nodup.
  - intros r [Hr| ->%list_elem_of_singleton]%elem_of_app.
    + destruct (lo_scope0 r Hr) as (b & ? & ? & ?). eauto using bindStream_mono.
    + by apply bindStream_bound.
  - intros r [Hr| ->%list_elem_of_singleton]%elem_of_app; cbn; auto.
  - lia.
  - intros r [Hr| ->%list_elem_of_singleton]%elem_of_app Hi.
    + destruct (lo_sys0 r Hr Hi) as (k & ? & ?). exists k. split; [done|lia].
    + by apply Hsys.
  - intros b [Hb|[Hb ->]]%streams_bindStream Hi; [by apply lo_sysscope0|].
    apply Hsys. congruence.
Qed.

(** ** Events the store emits *)

Definition kindOk (k : string) : bool := inRange 3 96 k && KindString k.

Lemma DecimalString_FormatInt q : DecimalString (Strconv.FormatInt q) = true ↔ 0 ≤ q.
Proof.
  rewrite DecimalString_decimal. split.
  - intros (n & Hn & Heq). by apply (inj Strconv.FormatInt) in Heq as ->.
  - intros. by exists q.
Qed.

(** The vocabulary of quality annotations. *)
Definition qualityOk (ql : Quality) : bool :=
  knownPathResolution (PathResolution ql) && knownAttribution (Attribution ql) &&
  (length (Notes ql) <=? 16)%nat.

Lemma Validate_storeQ inst q k prov sensor now ql data :
  qualityOk ql = true →
  Validate (storeEnvelope inst q k prov sensor now ql data) = [] ↔
  UUIDString inst = true ∧ 0 ≤ q ∧ kindOk k = true ∧ knownProvenance prov = true ∧
  inRange 1 64 sensor = true ∧ now ≠ 0.
Proof.
  intros [[Hp Ha]%andb_true_iff Hn%Nat.leb_le]%andb_true_iff.
  assert (Hn' : (16 <? length (Notes ql))%nat = false) by (apply Nat.ltb_ge; lia).
  unfold Validate, storeEnvelope, kindOk.
  cbn [SchemaVersion Events.EventID VMID BootID SourceInstanceID SourceSeq Kind EProvenance
    Sensor HostReceivedAt HostBootID HostMonotonicNS GuestMonotonicNS ProcessKey RunID
    RelatedEventIDs EQuality Data checkOpt isSome].
  rewrite !app_nil, !check_nil, <- DecimalString_FormatInt, negb_false_iff.
  rewrite orb_false_iff, !negb_false_iff, andb_true_iff, Hp, Ha, Hn'.
  unfold GoTime.IsZero. rewrite Z.eqb_neq. cbn. tauto.
Qed.

Lemma Validate_store inst q k prov sensor now data :
  Validate (storeEnvelope inst q k prov sensor now notApplicableQuality data) = [] ↔
  UUIDString inst = true ∧ 0 ≤ q ∧ kindOk k = true ∧ knownProvenance prov = true ∧
  inRange 1 64 sensor = true ∧ now ≠ 0.
Proof. by apply Validate_storeQ. Qed.

Definition ownEnvQ (prov : Provenance) (sensor : string) (ql : Quality) (e : Env) (k : string)
    (data : object) (s : Store) : Envelope :=
  storeEnvelope (instanceID s) (systemSeq s + 1) k prov sensor (timeNow e) ql data.

Definition ownEnv (prov : Provenance) (sensor : string) (e : Env) (k : string)
    (data : object) (s : Store) : Envelope :=
  ownEnvQ prov sensor notApplicableQuality e k data s.

Definition emittedEnv (prov : Provenance) : Env → string → object → Store → Envelope :=
  ownEnv prov "registry".

Definition emitted (prov : Provenance) (e : Env) (k : string) (data : object) (s : Store)
    : Store :=
  mkStore (instanceID s) (systemSeq s + 1) (recorded e (emittedEnv prov e k data s) (db s)).

(** The store's own stream: its key is fresh and its scope is host-wide. *)
Lemma ownEnvQ_fresh prov sensor ql e k data s :
  log_ok s →
  scopeOk (ownEnvQ prov sensor ql e k data s) (db s) = true ∧
  keyRow (ownEnvQ prov sensor ql e k data s) (db s) = None.
Proof.
  intros []. split.
  - unfold scopeOk. destruct (boundStream _ _) as [b|] eqn:E; [|done].
    apply boundStream_Some in E as [? ?]. apply sameScope_spec. by apply lo_sysscope0.
  - apply select1_None. intros r Hr. apply not_true_iff_false.
    rewrite dedupKey_spec. cbn. intros [= Hi Hq].
    destruct (lo_sys0 r Hr Hi) as (k' & Hk & Hle).
    rewrite Hk in Hq. apply (inj _) in Hq. lia.
Qed.

Lemma ownEnv_fresh prov sensor e k data s :
  log_ok s →
  scopeOk (ownEnv prov sensor e k data s) (db s) = true ∧
  keyRow (ownEnv prov sensor e k data s) (db s) = None.
Proof. apply ownEnvQ_fresh. Qed.

Lemma log_ok_ownQ prov sensor ql e k data s :
  log_ok s → systemSeq s < Int.MaxInt64 → seq (events (db s)) < Int.MaxInt64 →
  Validate (ownEnvQ prov sensor ql e k data s) = [] →
  log_ok (mkStore (instanceID s) (systemSeq s + 1)
            (recorded e (ownEnvQ prov sensor ql e k data s) (db s))).
Proof.
  intros Hl Hq Hs Hv. pose proof Hl as []. destruct (ownEnvQ_fresh prov sensor ql e k data s Hl).
  apply log_ok_recorded; try done; [lia|].
  intros _. split; [done|]. exists (systemSeq s + 1). split; [done|lia].
Qed.

Lemma log_ok_own prov sensor e k data s :
  log_ok s → systemSeq s < Int.MaxInt64 → seq (events (db s)) < Int.MaxInt64 →
  Validate (ownEnv prov sensor e k data s) = [] →
  log_ok (mkStore (instanceID s) (systemSeq s + 1)
            (recorded e (ownEnv prov sensor e k data s) (db s))).
Proof. apply log_ok_ownQ. Qed.

(** [emit] with the provenance of the kind; the registry's own events are
    observed by the host. *)
Definition emitAs (prov : Provenance) (e : Env) (k : string) (data : object) : M Z :=
  inst ← getInstanceID;
  sq ← addSystemSeq;
  appendSystemInTx hash e
    (storeEnvelope inst sq k prov "registry" (timeNow e) notApplicableQuality data).

Lemma emit_emitAs e k data s : emit e k data s = emitAs HostObserved e k data s.
Proof. done. Qed.

Lemma emitAs_eq prov e k data s :
  log_ok s → systemSeq s < Int.MaxInt64 →
  emitAs prov e k data s =
  match Validate (emittedEnv prov e k data s) with
  | [] =>
    if seq (events (db s)) <? Int.MaxInt64
    then (Ok (seq (events (db s)) + 1), emitted prov e k data s)
    else (Err ErrFull, mkStore (instanceID s) (systemSeq s + 1)
            (bindStream e (emittedEnv prov e k data s) (db s)))
  | ps => (Err (ErrInvalidEnvelope ps), mkStore (instanceID s) (systemSeq s + 1) (db s))
  end.
Proof.
  intros Hl Hq. pose proof Hl as []. destruct (ownEnv_fresh prov "registry" e k data s Hl) as [Hsc Hk].
  unfold emitAs, mbind, M_bind, getInstanceID, addSystemSeq.
  rewrite Int.i64_small by (unfold Int.MaxInt64 in *; lia).
  change (storeEnvelope (instanceID s) (systemSeq s + 1) k prov "registry" (timeNow e)
    notApplicableQuality data) with (emittedEnv prov e k data s).
  unfold appendSystemInTx, mbind, M_bind.
  destruct (Validate (emittedEnv prov e k data s)); [|done].
  unfold mret at 1, M_ret at 1. rewrite appendInTx_eq. cbn [db systemSeq instanceID].
  unfold emittedEnv. rewrite Hsc, Hk. cbn [negb].
  destruct (seq (events (db s)) <? Int.MaxInt64) eqn:E; [|done].
  apply Z.ltb_lt in E. unfold some. cbn [EventID].
  rewrite Strconv.ParseInt_FormatInt by lia. done.
Qed.

Lemma emitAs_seq prov e k data s r s' :
  systemSeq s < Int.MaxInt64 → 0 ≤ systemSeq s →
  emitAs prov e k data s = (r, s') →
  instanceID s' = instanceID s ∧ systemSeq s' = systemSeq s + 1.
Proof.
  intros Hq Hp. unfold emitAs, mbind, M_bind, getInstanceID, addSystemSeq.
  rewrite Int.i64_small by (unfold Int.MaxInt64 in *; lia).
  unfold appendSystemInTx, mbind, M_bind.
  destruct (Validate _); [|intros [= <- <-]; done].
  unfold mret at 1, M_ret at 1. rewrite appendInTx_eq. cbn [db systemSeq instanceID].
  repeat case_match; unfold some, mret, M_ret, throw in *; repeat case_match;
    naive_solver.
Qed.

(** An emission that returns: the next cursor, the event at the end of the log. *)
Lemma emitAs_Ok prov e k data s id s' :
  log_ok s → systemSeq s < Int.MaxInt64 → emitAs prov e k data s = (Ok id, s') →
  id = seq (events (db s)) + 1 ∧ s' = emitted prov e k data s ∧ log_ok s'.
Proof.
  intros Hl Hq. rewrite emitAs_eq by done.
  destruct (Validate _) eqn:Hv; [|done]. case_match eqn:E; [|done].
  intros [= <- <-]. apply Z.ltb_lt in E. split_and!; [done..|]. by apply log_ok_own.
Qed.

(** What the environment must provide for an emission to succeed: a valid
    instance id, a clock past the zero time and counters below their limits. *)
Definition ready (n : Z) (e : Env) (s : Store) : Prop :=
  UUIDString (instanceID s) = true ∧ timeNow e ≠ 0 ∧
  systemSeq s + n ≤ Int.MaxInt64 ∧ seq (events (db s)) + n ≤ Int.MaxInt64.

Lemma emitAs_total prov e k data s :
  log_ok s → ready 1 e s → kindOk k = true → knownProvenance prov = true →
  emitAs prov e k data s = (Ok (seq (events (db s)) + 1), emitted prov e k data s).
Proof.
  intros Hl (Hu & Ht & Hq & Hs) Hk Hp. pose proof Hl as [].
  rewrite emitAs_eq by (done || lia).
  assert (Hv : Validate (emittedEnv prov e k data s) = [])
    by (apply Validate_store; split_and!; done || lia).
  rewrite Hv.
  by rewrite (proj2 (Z.ltb_lt _ _)) by lia.
Qed.

(** ** Events of other sensors *)

Definition noted (sensor : string) (ql : Quality) (e : Env) (k : string) (data : object)
    (s : Store) : Store :=
  mkStore (instanceID s) (systemSeq s + 1)
    (recorded e (ownEnvQ HostObserved sensor ql e k data s) (db s)).

Lemma systemEmit_eq e k sensor ql data s :
  log_ok s → systemSeq s < Int.MaxInt64 →
  systemEmit hash e k sensor ql data s =
  match Validate (ownEnvQ HostObserved sensor ql e k data s) with
  | [] =>
    if seq (events (db s)) <? Int.MaxInt64
    then (Ok (seq (events (db s)) + 1), noted sensor ql e k data s)
    else (Err ErrFull, mkStore (instanceID s) (systemSeq s + 1)
            (bindStream e (ownEnvQ HostObserved sensor ql e k data s) (db s)))
  | ps => (Err (ErrInvalidEnvelope ps), mkStore (instanceID s) (systemSeq s + 1) (db s))
  end.
Proof.
  intros Hl Hq. pose proof Hl as [].
  destruct (ownEnvQ_fresh HostObserved sensor ql e k data s Hl) as [Hsc Hk].
  unfold systemEmit, systemEnvelope, mbind, M_bind, getInstanceID, addSystemSeq.
  rewrite Int.i64_small by (unfold Int.MaxInt64 in *; lia).
  change (storeEnvelope (instanceID s) (systemSeq s + 1) k HostObserved sensor (timeNow e)
    ql data) with (ownEnvQ HostObserved sensor ql e k data s).
  unfold mret at 1, M_ret at 1. unfold appendSystemInTx, mbind, M_bind.
  destruct (Validate (ownEnvQ HostObserved sensor ql e k data s)); [|done].
  unfold mret at 1, M_ret at 1. rewrite appendInTx_eq. cbn [db systemSeq instanceID].
  rewrite Hsc, Hk. cbn [negb].
  destruct (seq (events (db s)) <? Int.MaxInt64) eqn:E; [|done].
  apply Z.ltb_lt in E. unfold some. cbn [EventID].
  rewrite Strconv.ParseInt_FormatInt by lia. done.
Qed.

Lemma systemEmit_total e k sensor ql data s :
  log_ok s → ready 1 e s → kindOk k = true → inRange 1 64 sensor = true → qualityOk ql = true →
  systemEmit hash e k sensor ql data s =
  (Ok (seq (events (db s)) + 1), noted sensor ql e k data s) ∧
  log_ok (noted sensor ql e k data s).
Proof.
  intros Hl (Hu & Ht & Hq & Hs) Hk Hse Hql. pose proof Hl as [].
  assert (Hv : Validate (ownEnvQ HostObserved sensor ql e k data s) = [])
    by (apply Validate_storeQ; [done|]; split_and!; done || lia).
  rewrite systemEmit_eq by (done || lia). rewrite Hv.
  rewrite (proj2 (Z.ltb_lt _ _)) by lia. split; [done|]. apply log_ok_ownQ; done || lia.
Qed.

(** A failed transaction keeps the log. *)
Lemma log_ok_seq s q :
  log_ok s → systemSeq s ≤ q ≤ Int.MaxInt64 →
  log_ok (mkStore (instanceID s) q (db s)).
Proof.
  intros [] Hq. constructor; cbn [db instanceID systemSeq]; try done; [lia|].
  intros r Hr Hi. destruct (lo_sys0 r Hr Hi) as (k & ? & ?). exists k. split; [done|lia].
Qed.

(** The log depends on two tables only. *)
Lemma log_ok_frame s d :
  log_ok s → events d = events (db s) → streams d = streams (db s) →
  log_ok (mkStore (instanceID s) (systemSeq s) d).
Proof.
  intros [] He Hst.
  constructor; cbn [db instanceID systemSeq]; rewrite ?He, ?Hst; done.
Qed.

(** ** Ingestion *)

(** What the store decides about an envelope. *)
Inductive Verdict :=
  | VPreset
  | VInvalid (ps : list Problem)
  | VUnregistered
  | VProvenance
  | VScope
  | VConflict (r : EventRow)
  | VDuplicate (r : EventRow)
  | VFresh.

Definition verdict (env : Envelope) (d : DB) : Verdict :=
  if isSome (Events.EventID env) then VPreset else
  match Validate env with
  | [] =>
    match LookupKind (Kind env) with
    | None => VUnregistered
    | Some info =>
      if negb (EProvenance env =? KProvenance info)%string then VProvenance
      else if negb (scopeOk env d) then VScope
      else match keyRow env d with
      | Some r => if (hash env =? payload_hash r)%string then VDuplicate r else VConflict r
      | None => VFresh
      end
    end
  | ps => VInvalid ps
  end.

Definition healthKind (v : Verdict) : option (string * StoreErr) :=
  match v with
  | VUnregistered => Some ("telemetry.unregistered_kind", ErrUnregisteredKind)
  | VScope => Some ("telemetry.integrity_failure", ErrStreamScopeMismatch)
  | VConflict r => Some ("telemetry.integrity_failure",
      ErrIntegrityFailure (Strconv.FormatInt (event_id r)))
  | _ => None
  end.

(** The data of the health event, the offender named in it. *)
Definition healthData (env : Envelope) (v : Verdict) : object :=
  match v with
  | VUnregistered =>
    [("kind", JStr (Kind env)); ("source_instance_id", JStr (SourceInstanceID env));
     ("source_seq", JStr (SourceSeq env))]
  | VScope =>
    [("failure", JStr "stream_scope_rebind");
     ("source_instance_id", JStr (SourceInstanceID env));
     ("source_seq", JStr (SourceSeq env))]
  | VConflict r =>
    [("failure", JStr "seq_payload_conflict");
     ("source_instance_id", JStr (SourceInstanceID env));
     ("source_seq", JStr (SourceSeq env));
     ("existing_event_id", JStr (Strconv.FormatInt (event_id r)))]
  | _ => []
  end.

Definition unhealthy (e : Env) (env : Envelope) (v : Verdict) (k : string) (s : Store)
    : Store :=
  mkStore (instanceID s) (systemSeq s + 1)
    (recorded e (ownEnv HostObserved "store" e k (healthData env v) s) (db s)).

(** What [Append] returns and leaves, as a function of the verdict. *)
Definition ingest (e : Env) (env : Envelope) (s : Store) : result StoreErr AppendResult * Store :=
  let v := verdict env (db s) in
  match v with
  | VPreset => (Err ErrEventIDPreset, s)
  | VInvalid ps => (Err (ErrInvalidEnvelope ps), s)
  | VProvenance => (Err ErrProvenanceMismatch, s)
  | VDuplicate r => (Ok (mkAppendResult (Strconv.FormatInt (event_id r)) true), s)
  | VFresh =>
    (Ok (mkAppendResult (Strconv.FormatInt (seq (events (db s)) + 1)) false),
     mkStore (instanceID s) (systemSeq s) (recorded e env (db s)))
  | VUnregistered => (Err ErrUnregisteredKind,
      unhealthy e env v "telemetry.unregistered_kind" s)
  | VScope => (Err ErrStreamScopeMismatch, unhealthy e env v "telemetry.integrity_failure" s)
  | VConflict r => (Err (ErrIntegrityFailure (Strconv.FormatInt (event_id r))),
      unhealthy e env v "telemetry.integrity_failure" s)
  end.

Lemma appendQuiet_eq e env s :
  seq (events (db s)) < Int.MaxInt64 →
  appendQuiet hash e env s =
  match verdict env (db s) with
  | VPreset => (Err ErrEventIDPreset, s)
  | VInvalid ps => (Err (ErrInvalidEnvelope ps), s)
  | VProvenance => (Err ErrProvenanceMismatch, s)
  | VUnregistered => (Err ErrUnregisteredKind, s)
  | VScope => (Err ErrStreamScopeMismatch, s)
  | VConflict r => (Err (ErrIntegrityFailure (Strconv.FormatInt (event_id r))), s)
  | VDuplicate r => (Ok (mkAppendResult (Strconv.FormatInt (event_id r)) true), s)
  | VFresh =>
    (Ok (mkAppendResult (Strconv.FormatInt (seq (events (db s)) + 1)) false),
     mkStore (instanceID s) (systemSeq s) (recorded e env (db s)))
  end.
Proof.
  intros Hs. unfold appendQuiet, verdict, mbind, M_bind, ensure, some, mret, M_ret, throw.
  destruct (isSome (Events.EventID env)); [done|]. cbn [negb].
  destruct (Validate env); [|done].
  destruct (LookupKind (Kind env)) as [info|]; [|done].
  destruct (String.eqb _ _); [|done]. cbn [negb].
  unfold appendTx, inTx. rewrite appendInTx_eq.
  destruct (scopeOk env (db s)); cbn [negb]; [|by destruct s].
  destruct (keyRow env (db s)) as [r|]; [destruct (String.eqb _ _); by destruct s|].
  by rewrite (proj2 (Z.ltb_lt _ _)) by lia.
Qed.

Lemma withHealth_eq {A} e cause k i data s :
  log_ok s → ready 1 e s → LookupKind k = Some i → KProvenance i = HostObserved →
  kindOk k = true →
  withHealth (A:=A) hash e cause k data s =
  (Err cause, mkStore (instanceID s) (systemSeq s + 1)
     (recorded e (ownEnv HostObserved "store" e k data s) (db s))).
Proof.
  intros Hl (Hu & Ht & Hq & Hs) Hk Hp Hko. pose proof Hl as [].
  unfold withHealth, systemEnvelope, mbind, M_bind, getInstanceID, addSystemSeq, mret, M_ret.
  rewrite Int.i64_small by (unfold Int.MaxInt64 in *; lia).
  change (storeEnvelope (instanceID s) (systemSeq s + 1) k HostObserved "store" (timeNow e)
    notApplicableQuality data) with (ownEnv HostObserved "store" e k data s).
  destruct (ownEnv_fresh HostObserved "store" e k data s Hl) as [Hsc Hky].
  rewrite appendQuiet_eq by (cbn [db]; lia).
  assert (Hv : verdict (ownEnv HostObserved "store" e k data s) (db s) = VFresh).
  { unfold verdict. change (isSome _) with false. cbn iota.
    assert (Hva : Validate (ownEnv HostObserved "store" e k data s) = [])
      by (apply Validate_store; split_and!; done || lia).
    rewrite Hva.
    change (Kind _) with k. rewrite Hk, Hsc, Hky. cbn [negb].
    change (EProvenance _) with HostObserved. by rewrite Hp, String.eqb_refl. }
  cbn [db]. by rewrite Hv.
Qed.

Lemma health_kinds k :
  k = "telemetry.unregistered_kind" ∨ k = "telemetry.integrity_failure" →
  kindOk k = true ∧ ∃ i, LookupKind k = Some i ∧ KProvenance i = HostObserved.
Proof.
  intros [->| ->]; (split; [vm_compute; reflexivity|]);
    eexists; (split; [vm_compute; reflexivity|reflexivity]).
Qed.

Lemma Append_ingest e env s :
  log_ok s → ready 1 e s → Append hash e env s = ingest e env s.
Proof.
  intros Hl Hr. unfold Append, ingest.
  rewrite appendQuiet_eq by (destruct Hr as (_ & _ & _ & ?); lia).
  destruct (verdict env (db s)); try reflexivity;
    match goal with |- withHealth _ _ _ ?k _ _ = _ =>
      destruct (health_kinds k) as (? & i & ? & ?); [tauto|] end;
    by rewrite (withHealth_eq e _ _ i).
Qed.

Lemma ingest_ok e env s r s' :
  log_ok s → ready 1 e s → SourceInstanceID env ≠ instanceID s →
  ingest e env s = (r, s') → log_ok s'.
Proof.
  intros Hl (Hu & Ht & Hq & Hs) Hne. pose proof Hl as [].
  assert (Hh : ∀ v k, healthKind v ≠ None → kindOk k = true → log_ok (unhealthy e env v k s)).
  { intros v k _ Hk. apply log_ok_own; try done; try lia.
    apply Validate_store. split_and!; done || lia. }
  unfold ingest. destruct (verdict env (db s)) eqn:Ev; intros [= <- <-]; try done;
    try (apply Hh; [done|vm_compute; reflexivity]).
  unfold verdict in Ev. destruct (isSome _); [done|].
  destruct (Validate env) eqn:?; [|done]. destruct (LookupKind _); [|done].
  destruct (negb (String.eqb _ _)); [done|].
  destruct (scopeOk _ _) eqn:?; [|done]. cbn [negb] in Ev.
  destruct (keyRow _ _) as [x|] eqn:?; [destruct (String.eqb _ _); done|].
  apply log_ok_recorded; try done; lia.
Qed.

Lemma log_ok_empty inst : log_ok (Open inst emptyDB).
Proof.
  constructor; cbn; try (intros ? ?%elem_of_nil; done); try lia; try constructor;
    unfold Int.MaxInt64; lia.
Qed.

Lemma scope_of_row env s r :
  log_ok s → r ∈ rows (events (db s)) → source_instance_id r = SourceInstanceID env →
  ∃ b, boundStream env (db s) = Some b ∧ s_vm_id b = vm_id r.
Proof.
  intros [] Hr Hsrc. destruct (lo_scope0 r Hr) as (b & Hb & Hs & Hv). exists b.
  split; [|done]. apply (select1_unique s_source); [done..| |].
  - rewrite Hs, Hsrc. apply String.eqb_refl.
  - intros b' _ ?%String.eqb_eq. congruence.
Qed.

Lemma verdict_pass env d v :
  verdict env d = v → (v = VFresh ∨ ∃ r, v = VDuplicate r) →
  (∀ d', scopeOk env d' = true → keyRow env d' = None → verdict env d' = VFresh) ∧
  (∀ d' r, scopeOk env d' = true → keyRow env d' = Some r → payload_hash r = hash env →
    verdict env d' = VDuplicate r) ∧ scopeOk env d = true.
Proof.
  unfold verdict. intros Hd Hv.
  destruct (isSome _); [naive_solver|]. destruct (Validate env); [|naive_solver].
  destruct (LookupKind _) as [i|]; [|naive_solver].
  destruct (String.eqb (EProvenance env) _); [|naive_solver]. cbn [negb] in *.
  destruct (scopeOk env d); [|naive_solver]. split_and!; [|..|done].
  - intros d' -> ->. done.
  - intros d' r -> -> ->. cbn [negb]. by rewrite String.eqb_refl.
Qed.

(** The row an accepted envelope stands for. *)
Lemma Append_row e env s r s' :
  log_ok s → ready 1 e s → Append hash e env s = (Ok r, s') →
  ∃ x, x ∈ rows (events (db s')) ∧ dedupKey (SourceInstanceID env) (SourceSeq env) x = true ∧
    payload_hash x = hash env ∧ vm_id x = VMID env ∧ EventID r = Strconv.FormatInt (event_id x).
Proof.
  intros Hl Hr. rewrite Append_ingest by done. unfold ingest.
  destruct (verdict env (db s)) as [| | | | | |x|] eqn:Ev; try done; intros [= <- <-].
  - destruct (verdict_pass _ _ _ Ev) as (_ & _ & Hsc); [by eauto|].
    unfold verdict in Ev. rewrite Hsc in Ev. destruct (keyRow env (db s)) as [y|] eqn:Ek;
      repeat case_match; simplify_eq.
    apply select1_Some in Ek as [Hy Hky]. exists x. split_and!; try done.
    + by match goal with H : (_ =? _)%string = true |- _ =>
        apply String.eqb_eq in H; symmetry end.
    + pose proof (proj1 (dedupKey_spec _ _ _) Hky) as [= Hi _].
      destruct (scope_of_row env s x Hl Hy Hi) as (b & Hb & <-).
      unfold scopeOk in Hsc. rewrite Hb in Hsc. by apply sameScope_spec.
  - cbn [db]. rewrite events_recorded. eexists. unfold insertRow. cbn [rows].
    split; [apply elem_of_app; right; by apply list_elem_of_singleton|].
    split; [by apply dedupKey_spec|done].
Qed.

Definition extends (s s' : Store) : Prop :=
  log_ok s' ∧ ∃ tl, rows (events (db s')) = rows (events (db s)) ++ tl.

End log.

(** C26: Ingestion of one envelope, on every branch. [Append] returns and leaves
    what the verdict on the envelope says: a preset cursor, an invalid envelope
    or a provenance the registry does not assign is refused and leaves no trace;
    an unregistered kind, a stream bound to another VM and a resent sequence
    number with other bytes are refused with exactly one health event that names
    the offender; an identical resend returns the original cursor and changes
    nothing; any other envelope becomes the last row of the log, at the next
    cursor. The log's invariant (increasing cursors, unique source and sequence
    pairs, one VM per stream) is kept as long as the producer does not use the
    store's own instance id. *)
Theorem Append_ingests hash e env s :
  log_ok hash s → ready 1 e s →
  Append hash e env s = ingest hash e env s ∧
  (SourceInstanceID env ≠ instanceID s → log_ok hash (Append hash e env s).2).
Proof.
  intros Hl Hr. rewrite Append_ingest by done. split; [done|].
  intros Hne. destruct (ingest hash e env s) as [r s'] eqn:E. by eapply ingest_ok.
Qed.

(** Exactly-once ingestion. Once an envelope is accepted, sending it again
    at any later time, whatever the log has gained meanwhile, returns the cursor
    of the first acceptance marked as a duplicate and changes nothing. *)
Theorem Append_resend hash e env s r s1 s2 e2 :
  log_ok hash s → ready 1 e s → Append hash e env s = (Ok r, s1) →
  extends hash s1 s2 → ready 1 e2 s2 →
  Append hash e2 env s2 = (Ok (mkAppendResult (EventID r) true), s2).
Proof.
  intros Hl Hr Ha [Hl2 [tl Htl]] Hr2.
  destruct (Append_row hash e env s r s1) as (x & Hx & Hk & Hh & Hv & Hid); [done..|].
  pose proof Ha as Ha'. rewrite Append_ingest in Ha' by done.
  assert (Hx2 : x ∈ rows (events (db s2))) by (rewrite Htl, elem_of_app; by left).
  pose proof (proj1 (dedupKey_spec _ _ _) Hk) as [= Hi Hq].
  assert (Hsc : scopeOk env (db s2) = true).
  { destruct (scope_of_row hash env s2 x) as (b & Hb & Hbv); [done..|].
    unfold scopeOk. rewrite Hb. apply sameScope_spec. congruence. }
  assert (Hky : keyRow env (db s2) = Some x).
  { destruct Hl2. eapply select1_unique; [done..|].
    intros y _ Hy%dedupKey_spec. cbn beta. by rewrite Hy, Hi, Hq. }
  assert (Hd : verdict hash env (db s2) = VDuplicate x).
  { unfold ingest in Ha'. destruct (verdict hash env (db s)) eqn:Ev; try done;
      eapply (verdict_pass hash env (db s)); eauto. }
  rewrite Append_ingest by done. unfold ingest. rewrite Hd, Hid. done.
Qed.

(** ** An example stream *)

Definition exOwn : string := "6f9619ff-8b86-4d01-b42d-00cf4fc964ff".
Definition exHash (env : Envelope) : string :=
  Kind env +:+ "/" +:+ SourceSeq env +:+ "/" +:+ Sensor env.
Definition exEnvelope (sensor : string) : Envelope :=
  mkEnvelope 1 None (Some "11111111-1111-4111-8111-111111111111") None
    "22222222-2222-4222-8222-222222222222" "1" "guest.sensor_health" GuestReported sensor 1
    "" "" None None None None [] notApplicableQuality (Some []).
Definition exClock : Env := mkEnv "2026-01-01T00:00:00.000Z" 1 "".
Definition exStore : Store := Open exOwn emptyDB.
Definition exStore1 : Store := (Append exHash exClock (exEnvelope "agent") exStore).2.

Lemma Append_ingests_witness :
  Append exHash exClock (exEnvelope "agent") exStore =
    (Ok (mkAppendResult "1" false), exStore1) ∧
  log_ok exHash exStore1 ∧
  (Append exHash exClock (exEnvelope "other") exStore1).1 = Err (ErrIntegrityFailure "1") ∧
  Append exHash exClock (exEnvelope "other") exStore1 =
    ingest exHash exClock (exEnvelope "other") exStore1.
Proof.
  assert (Hl : log_ok exHash exStore1).
  { apply Append_ingests; [apply log_ok_empty|by split_and!|done]. }
  split; [vm_compute; reflexivity|]. split; [exact Hl|].
  split; [vm_compute; reflexivity|].
  apply Append_ingests; [exact Hl|by split_and!].
Defined.

Lemma Append_resend_witness :
  Append exHash exClock (exEnvelope "agent") exStore1 =
  (Ok (mkAppendResult "1" true), exStore1).
Proof.
  apply (Append_resend exHash exClock (exEnvelope "agent") exStore
    (mkAppendResult "1" false) exStore1 exStore1 exClock).
  - apply log_ok_empty.
  - by split_and!.
  - vm_compute. reflexivity.
  - split; [|exists []; by rewrite app_nil_r].
    eapply (ingest_ok exHash exClock (exEnvelope "agent") exStore (Ok (mkAppendResult "1" false)));
      [apply log_ok_empty|by split_and!|done|vm_compute; reflexivity].
  - by split_and!.
Defined.

End Log.
