(* ===== verification/AuthStore.v ===== *)
(** The authentication events at the store: what the API server hands over is accepted,
    each event once. *)

From S2P Require Import Prelude Events Store Auth AuthRuns.
Import Events Sql Store Log.

Local Open Scope Z_scope.

Module AuthStore.

Section handed.
Context (hash : Envelope → string) (inst : string).

(** What a store holds of one stream. *)
Definition ofStream (d : DB) : list EventRow :=
  select (λ r, source_instance_id r =? inst)%string (rows (events d)).

Definition binding (d : DB) : option StreamRow :=
  select1 (λ b, s_source b =? inst)%string (streams d).

(** Calls of [Append] one after the other, with their answers. In between anything may
    happen to the store that keeps its log in order and leaves this stream alone. *)
Inductive handed : list Envelope → Store → list (result StoreErr AppendResult) → Store → Prop :=
  | ha_end t : handed [] t [] t
  | ha_other l t t' rs u :
      log_ok hash t' → instanceID t' ≠ inst →
      ofStream (db t') = ofStream (db t) → binding (db t') = binding (db t) →
      handed l t' rs u → handed l t rs u
  | ha_append e env l t r t' rs u :
      ready 1 e t → Append hash e env t = (r, t') → handed l t' rs u →
      handed (env :: l) t (r :: rs) u.

(** The answer for a new event. *)
Definition accepted (r : result StoreErr AppendResult) : Prop :=
  ∃ id, r = Ok (mkAppendResult id false).

(** What the store asks of an envelope, apart from the stream's history. *)
Record admissible (env : Envelope) : Prop := {
  ad_cursor : Events.EventID env = None;
  ad_valid : Validate env = [];
  ad_kind : ∃ info, LookupKind (Kind env) = Some info ∧ EProvenance env = KProvenance info;
  ad_scope : VMID env = None;
  ad_source : SourceInstanceID env = inst
}.

Record ingested (done : list Envelope) (t : Store) : Prop := {
  in_log : log_ok hash t;
  in_other : instanceID t ≠ inst;
  in_rows : payload <$> ofStream (db t) = done;
  in_scope : ∀ b, binding (db t) = Some b → s_vm_id b = None
}.

Lemma fresh_key done env t :
  ingested done t → SourceInstanceID env = inst → SourceSeq env ∉ SourceSeq <$> done →
  keyRow env (db t) = None.
Proof.
  intros [Hl _ Hrows _] Hi Hn. destruct (keyRow env (db t)) as [r|] eqn:E; [|done].
  apply select1_Some in E as [Hr Hk]. apply dedupKey_spec in Hk. injection Hk as Hsrc Hsq.
  destruct (lo_row hash t Hl r Hr) as [Er _]. destruct Hn. rewrite <- Hrows, <- Hsq, Er. cbn [source_seq eventRow].
  do 2 apply list_elem_of_fmap_2. unfold ofStream, select. apply list_elem_of_In, filter_In.
  split; [by apply list_elem_of_In|]. rewrite Hsrc, Hi. apply String.eqb_refl.
Qed.

Lemma append_fresh done env e t r t' :
  ingested done t → ready 1 e t → admissible env → SourceSeq env ∉ SourceSeq <$> done →
  Append hash e env t = (r, t') → accepted r ∧ ingested (done ++ [env]) t'.
Proof.
  intros Hin Hr [Hc Hv (info & Hk & Hp) Hs Hi] Hn E. pose proof Hin as [Hl Ho Hrows Hsc].
  pose proof (fresh_key done env t Hin Hi Hn) as Hkey.
  assert (Hscope : scopeOk env (db t) = true).
  { unfold scopeOk, boundStream. rewrite Hi. fold (binding (db t)).
    destruct (binding (db t)) as [b|] eqn:Eb; [|done]. by rewrite (Hsc b eq_refl), Hs. }
  assert (Hver : verdict hash env (db t) = VFresh).
  { unfold verdict. rewrite Hc, Hv, Hk, Hp, String.eqb_refl, Hscope, Hkey. done. }
  rewrite Append_ingest in E by done. pose proof E as Ei. unfold ingest in E. rewrite Hver in E.
  injection E as <- <-. split; [by eexists|].
  assert (Hl' := ingest_ok hash e env t _ _ Hl Hr ltac:(by rewrite Hi) Ei).
  split; [done|done|..].
  - unfold ofStream, select in *. cbn [db]. rewrite events_recorded. unfold insertRow. cbn [rows].
    rewrite List.filter_app, fmap_app, Hrows. cbn. by rewrite Hi, String.eqb_refl.
  - intros b Hb. cbn [db] in Hb. unfold binding in Hb. rewrite streams_recorded in Hb.
    apply select1_Some in Hb as [Hb Eb%String.eqb_eq].
    unfold bindStream in Hb. destruct (boundStream env (db t)) as [b0|] eqn:E0.
    + apply Hsc. unfold binding. apply (select1_unique s_source); [apply Hl|done|by rewrite Eb, String.eqb_refl|].
      intros b' _ ?%String.eqb_eq. congruence.
    + cbn in Hb. apply elem_of_app in Hb as [Hb| ->%list_elem_of_singleton]; [|done].
      unfold boundStream in E0. apply (proj1 (select1_None _ _) E0) in Hb. rewrite Hi, Eb, String.eqb_refl in Hb. done.
Qed.

Lemma handed_accepted l t rs u done :
  handed l t rs u → ingested done t → Forall admissible l → NoDup (SourceSeq <$> done ++ l) →
  Forall accepted rs ∧ ingested (done ++ l) u.
Proof.
  intros H. revert done. induction H as [t|l t t' rs u Hl Ho Hrows Hb _ IH|e env l t r t' rs u Hr E _ IH];
    intros done Hin Hf Hnd.
  - rewrite app_nil_r. by split; [constructor|].
  - apply IH; [|done..]. destruct Hin as [_ _ H1 H2]. split; [done..|by rewrite Hrows|by rewrite Hb].
  - apply Forall_cons in Hf as [Ha Hf].
    assert (Hn : SourceSeq env ∉ SourceSeq <$> done).
    { rewrite fmap_app, fmap_cons, NoDup_app in Hnd. destruct Hnd as (_ & Hd & _). intros Hx.
      apply (Hd _ Hx). left. }
    destruct (append_fresh done env e t r t' Hin Hr Ha Hn E) as [Hacc Hin'].
    destruct (IH (done ++ [env]) Hin' Hf) as [H1 H2]; [by rewrite <- app_assoc|].
    rewrite <- app_assoc in H2. split; [by constructor|done].
Qed.

End handed.

(** A numbered stream passes, in whatever order. *)
Lemma streamed_admissible inst l l' :
  AuthRuns.streamed inst l → l' ≡ₚ l → Forall (admissible inst) l' ∧ NoDup (SourceSeq <$> l').
Proof.
  intros Hs Hp. split.
  - apply Forall_forall. intros env Henv. rewrite Hp in Henv. apply list_elem_of_lookup in Henv as [k Hk].
    destruct (Hs k env Hk) as (Hv & Hc & Hvm & Hpr & Hi & _ & info & Hkind & Hkp).
    split; [exact Hc|exact Hv| |exact Hvm|exact Hi]. exists info. split; [exact Hkind|congruence].
  - rewrite Hp. apply NoDup_alt. intros i j x Hi Hj.
    apply list_lookup_fmap_Some in Hi as (e1 & -> & H1). apply list_lookup_fmap_Some in Hj as (e2 & E & H2).
    destruct (Hs i e1 H1) as (_ & _ & _ & _ & _ & E1 & _). destruct (Hs j e2 H2) as (_ & _ & _ & _ & _ & E2 & _).
    rewrite E1, E2 in E. apply (inj Strconv.FormatInt) in E. lia.
Qed.

(** C37: The store accepts every event of authentication. Take any execution of the API
    server, requests checked and handled concurrently and restarts included, with a
    clock past the zero time and UUIDs for instance ids, and the events the running
    process has handed over (fewer than 2^63). Whatever order their appends take and
    whatever else happens to the store in between, as long as its counters last and
    nobody else uses the process's instance id: every append is answered with a new
    cursor, none is refused or taken for a duplicate, and at the end the store holds of
    that stream exactly these events, in the order they were appended. *)
Theorem auth_events_accepted argon2 sha256Hex decLogin decToken timeText ac hash s0 es s l t rs u :
  Auth.emitted (AuthRuns.api s0) = [] → Auth.authSeq (AuthRuns.api s0) = 0 →
  UUIDString (Auth.authInstID (AuthRuns.api s0)) = true →
  AuthRuns.asteps argon2 sha256Hex decLogin decToken timeText ac s0 es s → Forall AuthRuns.sound es →
  Z.of_nat (length (Auth.emitted (AuthRuns.api s))) < 2 ^ 63 →
  let inst := Auth.authInstID (AuthRuns.api s) in
  l ≡ₚ Auth.emitted (AuthRuns.api s) →
  log_ok hash t → instanceID t ≠ inst → ofStream inst (db t) = [] → binding inst (db t) = None →
  handed hash inst l t rs u →
  Forall accepted rs ∧ payload <$> ofStream inst (db u) = l.
Proof.
  intros E1 E2 E3 Ha Hso Hlen inst Hp Hl Hne Hrows Hb Hh.
  pose proof (AuthRuns.auth_events_streamed _ _ _ _ _ _ _ _ _ E1 E2 E3 Ha Hso Hlen) as Hs.
  destruct (streamed_admissible _ _ l Hs Hp) as [Hf Hnd].
  destruct (handed_accepted hash inst l t rs u [] Hh) as [H1 [_ _ H2 _]]; [|done..].
  split; [done|done|by rewrite Hrows|]. intros b. by rewrite Hb.
Qed.

(** A login and a new token; the second event gets to the store first, and an event of a
    VM comes between the two. *)
Definition exEvents : list Envelope := Auth.emitted (AuthRuns.api AuthRuns.exRun.2).
Definition exEvent (k : nat) : Envelope := default (exEnvelope "") (exEvents !! k).
Definition exSecond : Store := (Append exHash exClock (exEvent 1) exStore).2.
Definition exGuest : Store := (Append exHash exClock (exEnvelope "agent") exSecond).2.
Definition exBoth : Store := (Append exHash exClock (exEvent 0) exGuest).2.

Lemma exSecond_log : log_ok exHash exSecond.
Proof.
  eapply (ingest_ok exHash exClock (exEvent 1) exStore); [apply log_ok_empty|by split_and!| |].
  - vm_compute. discriminate.
  - rewrite <- Append_ingest; [apply surjective_pairing|apply log_ok_empty|by split_and!].
Qed.

Lemma exGuest_log : log_ok exHash exGuest.
Proof.
  assert (Hr : ready 1 exClock exSecond) by (vm_compute; split_and!; done).
  eapply (ingest_ok exHash exClock (exEnvelope "agent") exSecond); [exact exSecond_log|exact Hr| |].
  - vm_compute. discriminate.
  - rewrite <- Append_ingest; [apply surjective_pairing|exact exSecond_log|exact Hr].
Qed.

Definition exAnswers : list (result StoreErr AppendResult) :=
  [Ok (mkAppendResult "1" false); Ok (mkAppendResult "3" false)].

Lemma exHanded : handed exHash AuthRuns.exUUID (reverse exEvents) exStore exAnswers exBoth.
Proof.
  change (reverse exEvents) with [exEvent 1; exEvent 0].
  apply (ha_append _ _ exClock _ _ _ _ exSecond); [by split_and!|vm_compute; reflexivity|].
  apply (ha_other _ _ _ _ exGuest); [exact exGuest_log|vm_compute; discriminate|vm_compute; reflexivity..|].
  apply (ha_append _ _ exClock _ _ _ _ exBoth); [vm_compute; split_and!; done|vm_compute; reflexivity|].
  apply ha_end.
Qed.

#[local] Existing Instance AuthRuns.sound_dec.

Lemma auth_events_accepted_witness :
  length exEvents = 2%nat ∧ payload <$> ofStream AuthRuns.exUUID (db exBoth) = reverse exEvents.
Proof.
  split; [vm_compute; reflexivity|].
  assert (Hso : Forall AuthRuns.sound AuthRuns.exRun.1)
    by (apply (bool_decide_unpack _); vm_compute; exact I).
  assert (Hlen : Z.of_nat (length (Auth.emitted (AuthRuns.api AuthRuns.exRun.2))) < 2 ^ 63)
    by (vm_compute; reflexivity).
  assert (Hp : reverse exEvents ≡ₚ Auth.emitted (AuthRuns.api AuthRuns.exRun.2)) by apply reverse_Permutation.
  assert (Hne : instanceID exStore ≠ AuthRuns.exUUID) by (vm_compute; discriminate).
  exact (proj2 (auth_events_accepted _ _ _ _ _ _ exHash AuthRuns.exStart AuthRuns.exRun.1 AuthRuns.exRun.2
    (reverse exEvents) exStore exAnswers exBoth eq_refl eq_refl eq_refl AuthRuns.exRun_steps Hso Hlen Hp
    (log_ok_empty exHash exOwn) Hne eq_refl eq_refl exHanded)).
Defined.

End AuthStore.
