(* ===== verification/SpoolStore.v ===== *)
(** The event store as the importer's sink, executions of the whole spool, and the
    race between a writer and the pruning of its segment. *)

From S2P Require Import Prelude Wire Events Segment SpoolWriter SpoolDurable SpoolCrash.
From S2P Require Import Importer SpoolImport SpoolSystem SpoolLive Store.
Import Events Segment Writer Crash Importer System Live.

Local Open Scope Z_scope.

Module SpoolStore.

(** * The store keeps the sink's promise *)

Section sink.
Context (hash : Envelope → string).
Import Sql Store Log.

(** [errors.Is(err, store.ErrIntegrityFailure)]. *)
Fixpoint isIntegrity (e : StoreErr) : bool :=
  match e with
  | ErrIntegrityFailure _ => true
  | ErrJoin a b => isIntegrity a || isIntegrity b
  | _ => false
  end.

Definition putStore (c : Env) (env : Envelope) (k : Store.Store) : PutResult * Store.Store :=
  match Store.Append hash c env k with
  | (Ok r, k') => (if Store.Deduped r then Duplicate else Stored, k')
  | (Err e, k') => (if isIntegrity e then Conflict else Failed, k')
  end.

Definition eventRows (k : Store.Store) : list EventRow := rows (events (db k)).

#[export] Instance storeSink : Sink Store.Store := {
  Ctx := Env;
  put := putStore;
  holds env k := ∃ x, x ∈ eventRows k ∧
    dedupKey (SourceInstanceID env) (SourceSeq env) x = true ∧ payload_hash x = hash env;
  later k k' := eventRows k `prefix_of` eventRows k'
}.

Lemma stays k k' : eventRows k' = eventRows k → later k k'.
Proof. cbn. by intros ->. Qed.

Lemma rows_recorded e env d :
  rows (events (recorded hash e env d)) =
  rows (events d) ++ [eventRow hash (seq (events d) + 1) env].
Proof. by rewrite events_recorded. Qed.

Lemma appendQuiet_later e env k r k' :
  appendQuiet hash e env k = (r, k') →
  later k k' ∧ (is_ok r = true → holds env k').
Proof.
  unfold appendQuiet. intros Hq.
  assert (Hstay : ∀ err, (Err err, k) = (r, k') → later k k' ∧ (is_ok r = true → holds env k')).
  { intros err [= <- <-]. split; [by apply stays|done]. }
  unfold mbind, M_bind, ensure, some, throw, mret, M_ret in Hq.
  destruct (negb _); [|by eapply Hstay]. destruct (Validate env); [|by eapply Hstay].
  destruct (LookupKind _); [|by eapply Hstay]. destruct (String.eqb _ _); [|by eapply Hstay].
  unfold appendTx, inTx in Hq. rewrite appendInTx_eq in Hq.
  destruct (negb (scopeOk env (db k))); [injection Hq as <- <-; split; [by apply stays|done]|].
  destruct (keyRow env (db k)) as [x|] eqn:Ek.
  - destruct (String.eqb_spec (hash env) (payload_hash x)) as [Eh|_]; injection Hq as <- <-; (split; [by apply stays|]); [|done].
    intros _. apply select1_Some in Ek as [Hx Hk]. by exists x.
  - destruct (_ <? _); injection Hq as <- <-; [|split; [by apply stays|done]].
    pose proof (rows_recorded e env (db k)) as Hrows. split.
    + change (eventRows k `prefix_of` rows (events (recorded hash e env (db k)))).
      rewrite Hrows. by eexists.
    + intros _. exists (eventRow hash (seq (events (db k)) + 1) env).
      split; [|split; [by apply dedupKey_spec|done]].
      change (eventRow hash (seq (events (db k)) + 1) env ∈
        rows (events (recorded hash e env (db k)))).
      rewrite Hrows. apply elem_of_app. right. by apply list_elem_of_singleton.
Qed.

Lemma withHealth_later {A} e cause kind data k (r : result StoreErr A) k' :
  withHealth hash e cause kind data k = (r, k') → later k k' ∧ is_ok r = false.
Proof.
  unfold withHealth, systemEnvelope, getInstanceID, addSystemSeq, mbind, M_bind, mret, M_ret.
  destruct (appendQuiet _ _ _ _) as [[x|x] k1] eqn:E; apply appendQuiet_later in E as [Hl _];
    intros [= <- <-]; (split; [exact Hl|done]).
Qed.

Lemma Append_later e env k r k' :
  Store.Append hash e env k = (r, k') → later k k' ∧ (is_ok r = true → holds env k').
Proof.
  unfold Store.Append. destruct (appendQuiet hash e env k) as [[x|x] k1] eqn:E;
    apply appendQuiet_later in E as [Hl Hh]; [by intros [= <- <-]|].
  assert (Hw : ∀ cause kind data, withHealth (A := AppendResult) hash e cause kind data k1 = (r, k') →
    later k k' ∧ (is_ok r = true → holds env k')).
  { intros cause kind data [Hl' Hr]%withHealth_later. split; [|by rewrite Hr].
    cbn in *. by etrans. }
  destruct x; try (by intros [= <- <-]); apply Hw.
Qed.

#[export] Instance storeSinkLaws : SinkLaws Store.Store.
Proof.
  split; cbn.
  - done.
  - intros. by etrans.
  - intros env k k' [tl Htl] (x & Hx & Hk). exists x. split; [|done]. rewrite Htl.
    apply elem_of_app. by left.
  - intros c env k r k'. unfold putStore.
    destruct (Store.Append hash c env k) as [[x|x] k1] eqn:E; apply Append_later in E as [Hl _];
      intros [= <- <-]; exact Hl.
  - intros c env k r k'. unfold putStore.
    destruct (Store.Append hash c env k) as [[x|x] k1] eqn:E; apply Append_later in E as [_ Hh].
    + intros [= <- <-] _. by apply Hh.
    + destruct (isIntegrity x); intros [= <- <-]; by intros [].
Qed.

End sink.

(** * Executions *)

#[local] Existing Instances exJson exJsonLaws.

Section executions.
#[local] Instance exSink : Sink Store.Store := storeSink Log.exHash.

Local Abbreviation Spool := (@Spool Store.Store).
Local Abbreviation Label := (@Label Store.Store _).

Definition exText (_ : SpoolErr) : string := "refused".

Definition exBegin : Spool :=
  mkSpool (mkWriter 0 (mkHandle "" 0) 0 false None true 0 "") exCfg
    (mkFS ∅ ∅ None None []) (mkImp PIdle (mkStats 0 0 0) []) Log.exStore [].

Definition exBad (l : Label) (y : Spool) : bool :=
  match l, phase (importer y) with LWrite _, PPrune _ _ _ _ => true | _, _ => false end.

Definition exRunOf (bad : Label → Spool → bool) (ls : list Label) : Spool :=
  default exBegin (srun exText "gap" (λ _, 0) bad ls exBegin).

(** A segment large enough for several records. *)
Definition exBig : WriterCfg :=
  mkCfg "vm" "runner" 4096 0 (Some (λ o, Some (exEvent "9"))).

(** Two records, the first imported when the cycle is abandoned. *)
Definition exHalf : list Label :=
  [LOpen exBig 1; LWrite (WAppend (exEvent "1") 2); LWrite (WAppend (exEvent "2") 3)] ++
  replicate 7 (LImport Log.exClock) ++ [LAbort].

(** One record, imported; the importer reads the end of the segment; the writer
    appends a second record and closes; the importer goes on. *)
Definition exRace : list Label :=
  [LOpen exBig 1; LWrite (WAppend (exEvent "1") 2)] ++
  replicate 8 (LImport Log.exClock) ++
  [LWrite (WAppend (exEvent "2") 3); LWrite (WClose 4)] ++ replicate 2 (LImport Log.exClock).

Lemma exHalf_runs :
  runs exText "gap" (λ _, 0) noRace (length exHalf) exBegin (exRunOf exBad exHalf).
Proof.
  apply (srun_runs _ _ _ _ exBad); [|vm_compute; reflexivity].
  intros l y. unfold exBad, noRace, atEnd. destruct l; try done. destruct (phase (importer y)); tauto || discriminate.
Qed.

Lemma import_lossless_witness :
  eventRows (store (exRunOf exBad exHalf)) ≠ [] ∧ acks (exRunOf exBad exHalf) = [exEvent "1"; exEvent "2"] ∧
  ∃ b env', marshal (exEvent "2") = Some b ∧ unmarshal b = Some env' ∧
    (holds env' (store (exRunOf exBad exHalf)) ∨
     ∃ seg f it l eof r, files (dir (exRunOf exBad exHalf)) !! seg = Some f ∧
       ReadSegment (data f) = Ok it ∧ readAll (data f) it = (l, eof) ∧ l !! r = Some env' ∧
       ahead (cursorFile (dir (exRunOf exBad exHalf))) seg r).
Proof.
  split; [vm_compute; discriminate|]. split; [vm_compute; reflexivity|].
  apply (import_lossless exText "gap" (λ _, 0) (length exHalf) exBegin).
  - vm_compute. repeat split.
  - exact exHalf_runs.
  - vm_compute. reflexivity.
  - replace (acks (exRunOf exBad exHalf)) with [exEvent "1"; exEvent "2"] by (vm_compute; reflexivity).
    apply elem_of_cons. right. by apply list_elem_of_singleton.
Defined.

(** What is left to read after [exHalf], and the states of the store it leads to. *)
Lemma exHalf_readable env :
  readable (dir (exRunOf exBad exHalf)) env → env = exEvent "1" ∨ env = exEvent "2".
Proof.
  intros (seg & f & r & Hf & it & l & eof & Hi & Hl & Hr).
  apply elem_of_map_to_list in Hf. revert Hf.
  set (m := map_to_list _). vm_compute in m. subst m.
  intros [= -> ->]%list_elem_of_singleton. vm_compute in Hi. injection Hi as <-.
  vm_compute in Hl. injection Hl as <- <-.
  destruct r as [|[|r]]; cbn in Hr; [left|right|done]; by injection Hr as <-.
Qed.


(** C23: The exclusion is needed: without it a record can be lost though every call
    succeeds. The importer reads a segment to its end; the writer then appends a
    record, is acknowledged, and closes the segment with its end marker; the
    importer finds the marker and prunes the segment. The event is acknowledged,
    the store does not hold it, and no file is left in the directory. *)
Theorem prune_race_loses_record :
  ∃ n (y y' : Spool), initial y ∧ orc (dir y) = [] ∧
    runs exText "gap" (λ _, 0) (λ _ _, True) n y y' ∧
    acks y' = [exEvent "1"; exEvent "2"] ∧ files (dir y') = ∅ ∧
    holds (exEvent "1") (store y') ∧ ¬ holds (exEvent "2") (store y').
Proof.
  exists (length exRace), exBegin, (exRunOf (λ _ _, false) exRace).
  split; [vm_compute; by repeat split|]. split; [reflexivity|]. split.
  { apply (srun_runs _ _ _ _ (λ _ _, false)); [done|vm_compute; reflexivity]. }
  split; [vm_compute; reflexivity|]. split; [vm_compute; reflexivity|].
  set (k := store _).
  assert (Er : eventRows k = [Store.eventRow Log.exHash 1 (exEvent "1")]) by (vm_compute; reflexivity).
  split.
  - exists (Store.eventRow Log.exHash 1 (exEvent "1")). rewrite Er.
    split; [by apply list_elem_of_singleton|]. by split.
  - intros (x & Hx & Hk & _). rewrite Er in Hx. apply list_elem_of_singleton in Hx as ->.
    vm_compute in Hk. done.
Qed.

End executions.

End SpoolStore.
