(* ===== verification/RunStore.v ===== *)
(** Runs (internal/store/runs.go): creation, the phase machine, guest submissions
    and reports. [GetRun] and the pre-checks read through the reader pool, which
    sees the last committed tables; they are reads of the same [DB]. *)

From S2P Require Import Prelude Events Store.
Import Events Sql Store Log.

Local Open Scope Z_scope.

Module Runs.

(** * The phase machine *)

Definition validRunTransitions (from : string) : list string :=
  if (from =? "pending")%string then ["running"; "concluding"]
  else if (from =? "running")%string then ["concluding"]
  else if (from =? "concluding")%string then
    ["succeeded"; "failed"; "inconclusive"; "aborted"]
  else [].

Definition runTransitionAllowed (from to : string) : bool :=
  existsb (λ allowed, allowed =? to)%string (validRunTransitions from).

Definition terminalRunPhases (p : string) : bool :=
  existsb (String.eqb p) ["succeeded"; "failed"; "inconclusive"; "aborted"].

(** The partial index [idx_runs_active]. *)
Definition activePhase (p : string) : bool :=
  existsb (String.eqb p) ["pending"; "running"; "concluding"].

(** * Reads *)

Definition byRunID (id : string) (r : Run) : bool := (uRunID r =? id)%string.

Definition GetRun (id : string) : M Run :=
  r ← gets (λ d, select1 (byRunID id) (rows (runs d)));
  some r ErrRunNotFound.

Definition scanRunInTx (id : string) : M Run :=
  r ← gets (λ d, select1 (byRunID id) (rows (runs d)));
  some r ErrBadRecord.

Definition ActiveRunForVM (vm : string) : M (option Run) :=
  gets (λ d, select1 (λ r, (uVMID r =? vm)%string && activePhase (uPhase r)) (rows (runs d))).

(** [ORDER BY row_id DESC LIMIT 1]: the newest of the VM's rows. *)
Definition RunForVM (vm : string) : M Run :=
  r ← gets (λ d, last (select (λ r, uVMID r =? vm)%string (rows (runs d))));
  some r ErrRunNotFound.

Definition ListRunsInPhases (phases : list string) : M (list Run) :=
  gets (λ d, select (λ r, existsb (String.eqb (uPhase r)) phases) (rows (runs d))).

(** * Creation *)

Record CreateRunInput := mkCreateRun {
  cVMID : string;
  cOwner : string;
  cGoal : string;
  cCriteriaType : string;
  cOnCompletion : string;
  cProgressEvents : bool;
  cIdempotencyKey : option string;
  cRequestHash : string;
  cInitialPhase : string
}.

Definition runKey (owner key : string) (r : Run) : bool :=
  (uOwner r =? owner)%string &&
  match uIdempotencyKey r with Some k => (k =? key)%string | None => false end.

Section ops.
Context (hash : Envelope → string).

Definition runCreatedData (runID : string) (inp : CreateRunInput) : object :=
  [("run_id", JStr runID); ("vm_id", JStr (cVMID inp)); ("owner", JStr (cOwner inp));
   ("goal", JStr (cGoal inp)); ("success_criteria", JStr (cCriteriaType inp));
   ("on_completion", JStr (cOnCompletion inp));
   ("progress_events", JNum (if cProgressEvents inp then 1 else 0));
   ("phase", JStr (cInitialPhase inp))].

Definition setVMLastEvent (id : Z) (v : VM) : VM :=
  mkVM (vRowID v) (vVMID v) (vName v) (vOwner v) (vTemplateID v) (vTemplateDigest v)
    (vDesiredState v) (vObservedState v) (vRevision v) (vVCPUCount v) (vMemoryMiB v)
    (vRootDiskMiB v) (vWorkspaceDiskMiB v) (vNetworkProfile v) (vNetworkPolicyID v)
    (vLabels v) (vFailureStage v) (vFailureReason v) (vCurrentBootID v) (vBootImages v)
    (vCreatedAt v) (vUpdatedAt v) id.

(** [UPDATE vms SET last_event_id = ? WHERE vm_id = ?] *)
Definition bumpVM (vm : string) (id : Z) : M unit :=
  modify (set_vms (on_rows (update (λ v, vVMID v =? vm)%string (setVMLastEvent id)))).

(** [INSERT INTO runs]: the three unique indexes, then the row. The violation of
    the active-run index is the one the code maps to a sentinel error. *)
Definition insertRun (mk : Z → Run) : M unit :=
  t ← gets runs;
  id ← some (nextID t) ErrFull;
  let r := mk id in
  _ ← ensure (negb (activePhase (uPhase r) &&
        exists_ (λ r', (uVMID r' =? uVMID r)%string && activePhase (uPhase r')) (rows t)))
        ErrActiveRunExists;
  _ ← ensure (negb (exists_ (byRunID (uRunID r)) (rows t))) (ErrConstraint "runs.run_id");
  _ ← ensure (negb (match uIdempotencyKey r with
                    | Some k => exists_ (runKey (uOwner r) k) (rows t)
                    | None => false end)) (ErrConstraint "runs.idempotency_key");
  modify (set_runs (insertRow id r)).

Definition newRun (e : Env) (inp : CreateRunInput) (key : option string) (rh : string)
    (started : string) (created : Z) (id : Z) : Run :=
  mkRun id (newUUID e) (cVMID inp) (cOwner inp) (cGoal inp) (cCriteriaType inp)
    (cOnCompletion inp) (cProgressEvents inp) (cInitialPhase inp) "" "" "" "" "" 0
    key rh created 0 (sqlNow e) started "" (sqlNow e).

(** [createRunInTx]: the launch-attached run. *)
Definition createRunInTx (e : Env) (inp : CreateRunInput) : M unit :=
  created ← emit hash e "run.created" (runCreatedData (newUUID e) inp);
  _ ← insertRun (newRun e inp None "" "" created);
  bumpVM (cVMID inp) created.

Definition lookupRunByIdempotencyKey (owner key rh : string) : M (option Run) :=
  existing ← gets (λ d, select1 (runKey owner key) (rows (runs d)));
  match existing with
  | None => mret None
  | Some r =>
    _ ← ensure (uRequestHash r =? rh)%string ErrIdempotencyConflict;
    run ← GetRun (uRunID r);
    mret (Some run)
  end.

(** [CreateRun]: the run and whether it is a replay. The replay inside the
    transaction rolls back before it reads, and a rollback of a transaction that
    wrote nothing is no change. *)
Definition CreateRun (e : Env) (inp : CreateRunInput) : M (Run * bool) :=
  pre ← (match cIdempotencyKey inp with
         | Some k => lookupRunByIdempotencyKey (cOwner inp) k (cRequestHash inp)
         | None => mret None
         end);
  match pre with
  | Some run => mret (run, true)
  | None =>
    inTx (
      again ← (match cIdempotencyKey inp with
               | Some k => lookupRunByIdempotencyKey (cOwner inp) k (cRequestHash inp)
               | None => mret None
               end);
      match again with
      | Some run => mret (run, true)
      | None =>
        created ← emit hash e "run.created" (runCreatedData (newUUID e) inp);
        _ ← insertRun (newRun e inp (cIdempotencyKey inp) (cRequestHash inp)
              (if (cInitialPhase inp =? "running")%string then sqlNow e else "") created);
        _ ← bumpVM (cVMID inp) created;
        run ← scanRunInTx (newUUID e);
        mret (run, false)
      end)
  end.

(** * Transitions *)

Record RunTransitionInput := mkRunTransition {
  tRunID : string;
  tFrom : string;
  tTo : string;
  tReason : string;
  tEvaluatedBy : string
}.

(** The [UPDATE runs] the transition builds clause by clause. *)
Definition movedRun (e : Env) (inp : RunTransitionInput) (from : string) (ev : Z) (r : Run)
    : Run :=
  let terminal := terminalRunPhases (tTo inp) in
  mkRun (uRowID r) (uRunID r) (uVMID r) (uOwner r) (uGoal r) (uCriteriaType r)
    (uOnCompletion r) (uProgressEvents r) (tTo inp)
    (if terminal then tEvaluatedBy inp else uEvaluatedBy r)
    (if terminal then tReason inp else uReason r)
    (uResultJSON r) (uResultStatus r) (uResultReceivedAt r) (uProgressSeq r)
    (uIdempotencyKey r) (uRequestHash r) (uCreatedEventID r)
    (if terminal then ev else uConcludedEventID r) (uCreatedAt r)
    (if (tTo inp =? "running")%string && (from =? "pending")%string
     then sqlNow e else uStartedAt r)
    (if terminal then sqlNow e else uConcludedAt r) (sqlNow e).

Definition runChangedData (inp : RunTransitionInput) (r : Run) : object :=
  [("run_id", JStr (tRunID inp)); ("vm_id", JStr (uVMID r)); ("from", JStr (uPhase r));
   ("to", JStr (tTo inp))]
  ++ (if terminalRunPhases (tTo inp)
      then [("evaluated_by", JStr (tEvaluatedBy inp)); ("reason", JStr (tReason inp))]
      else []).

Definition TransitionRun (e : Env) (inp : RunTransitionInput) : M Run := inTx (
  cur ← gets (λ d, select1 (byRunID (tRunID inp)) (rows (runs d)));
  current ← some cur ErrRunNotFound;
  _ ← ensure ((tFrom inp =? "")%string || (tFrom inp =? uPhase current)%string)
        (InvalidRunTransition (tRunID inp) (uPhase current) (tTo inp));
  _ ← ensure (runTransitionAllowed (uPhase current) (tTo inp))
        (InvalidRunTransition (tRunID inp) (uPhase current) (tTo inp));
  changed ← emit hash e "run.state_changed" (runChangedData inp current);
  _ ← modify (set_runs (on_rows (update (byRunID (tRunID inp))
        (movedRun e inp (uPhase current) changed))));
  _ ← bumpVM (uVMID current) changed;
  scanRunInTx (tRunID inp)).

(** * Guest submissions *)

(** A submission's bytes: their number and what they decode to, [None] when they
    are not JSON. *)
Record Submission := mkSubmission {
  subLen : Z;
  subJSON : option json;
  subText : string
}.

Definition acceptsSubmissions (phase : string) : bool :=
  (phase =? "pending")%string || (phase =? "running")%string.

(** The rejection is recorded on a best-effort basis; the caller gets the
    rejection either way. *)
Definition recordSubmissionRejected {A} (e : Env) (run : Run) (what reason : string)
    (size : Z) : M A := λ s,
  match systemEnvelope e "run.submission_rejected" "registry" notApplicableQuality
    [("run_id", JStr (uRunID run)); ("vm_id", JStr (uVMID run)); ("submission", JStr what);
     ("reason", JStr reason); ("size_bytes", JNum size)] s with
  | (Ok env, s1) => (Err (ErrSubmissionRejected reason), (appendQuiet hash e env s1).2)
  | (Err err, s1) => (Err err, s1)
  end.

Definition overLimit (n max : Z) : string :=
  "payload exceeds max_bytes limit (" +:+ Strconv.FormatInt n +:+ " > "
  +:+ Strconv.FormatInt max +:+ ")".

Definition setProgress (e : Env) (n : Z) (r : Run) : Run :=
  mkRun (uRowID r) (uRunID r) (uVMID r) (uOwner r) (uGoal r) (uCriteriaType r)
    (uOnCompletion r) (uProgressEvents r) (uPhase r) (uEvaluatedBy r) (uReason r)
    (uResultJSON r) (uResultStatus r) (uResultReceivedAt r) n
    (uIdempotencyKey r) (uRequestHash r) (uCreatedEventID r) (uConcludedEventID r)
    (uCreatedAt r) (uStartedAt r) (uConcludedAt r) (sqlNow e).

Definition progressData (runID vm : string) (n : Z) (p : json) : object :=
  [("run_id", JStr runID); ("vm_id", JStr vm); ("seq", JNum n); ("payload", p)].

Definition SubmitRunProgress (e : Env) (runID : string) (p : Submission) (maxBytes : Z)
    : M Z :=
  run ← GetRun runID;
  _ ← ensure (acceptsSubmissions (uPhase run)) ErrRunNotAcceptingSubmissions;
  if maxBytes <? subLen p then
    recordSubmissionRejected e run "progress" (overLimit (subLen p) maxBytes) (subLen p)
  else match subJSON p with
  | None => recordSubmissionRejected e run "progress" "payload is not valid JSON" (subLen p)
  | Some j =>
    if negb (uProgressEvents run) then
      recordSubmissionRejected e run "progress" "progress_events disabled for this run"
        (subLen p)
    else inTx (
      cur ← gets (λ d, select1 (byRunID runID) (rows (runs d)));
      current ← some cur ErrBadRecord;
      _ ← ensure (acceptsSubmissions (uPhase current)) ErrRunNotAcceptingSubmissions;
      let next := Int.i64 (uProgressSeq current + 1) in
      ev ← emitAs hash GuestReported e "run.progress"
             (progressData runID (uVMID run) next j);
      _ ← modify (set_runs (on_rows (update (byRunID runID) (setProgress e next))));
      _ ← bumpVM (uVMID run) ev;
      mret next)
  end.

Definition setResult (e : Env) (txt status : string) (r : Run) : Run :=
  mkRun (uRowID r) (uRunID r) (uVMID r) (uOwner r) (uGoal r) (uCriteriaType r)
    (uOnCompletion r) (uProgressEvents r) (uPhase r) (uEvaluatedBy r) (uReason r)
    txt status (sqlNow e) (uProgressSeq r)
    (uIdempotencyKey r) (uRequestHash r) (uCreatedEventID r) (uConcludedEventID r)
    (uCreatedAt r) (uStartedAt r) (uConcludedAt r) (sqlNow e).

(** The checks on the decoded result before the transaction: the accepted status
    or the reason of the rejection. A JSON [null] decodes to a nil map. The text
    that quotes a status of another type is a parameter: it is [fmt]'s [%q]. *)
Definition checkResult (quote : json → string) (p : Submission) (maxBytes : Z)
    : result string string :=
  if maxBytes <? subLen p then Err (overLimit (subLen p) maxBytes) else
  match subJSON p with
  | Some JNull => Err "result missing required field: status"
  | Some (JObj o) =>
    match field o "status" with
    | None => Err "result missing required field: status"
    | Some st =>
      match st with
      | JStr status =>
        if (status =? "succeeded")%string || (status =? "failed")%string then
          match field o "detail" with
          | Some (JStr detail) =>
            if (1024 <? String.length detail)%nat
            then Err ("detail exceeds 1024 bytes ("
                   +:+ Strconv.FormatInt (Z.of_nat (String.length detail)) +:+ ")")
            else Ok status
          | _ => Ok status
          end
        else Err ("status must be 'succeeded' or 'failed', got " +:+ quote st)
      | _ => Err ("status must be 'succeeded' or 'failed', got " +:+ quote st)
      end
    end
  | _ => Err "result is not valid JSON"
  end.

(** [SubmitRunResult]: the duplicate check rolls the transaction back before the
    rejection is recorded in one of its own. *)
Definition SubmitRunResult (quote : json → string) (e : Env) (runID : string)
    (p : Submission) (maxBytes : Z) : M Run :=
  run ← GetRun runID;
  _ ← ensure (acceptsSubmissions (uPhase run)) ErrRunNotAcceptingSubmissions;
  match checkResult quote p maxBytes with
  | Err reason => recordSubmissionRejected e run "result" reason (subLen p)
  | Ok status =>
    cur ← gets (λ d, select1 (byRunID runID) (rows (runs d)));
    current ← some cur ErrBadRecord;
    _ ← ensure (acceptsSubmissions (uPhase current)) ErrRunNotAcceptingSubmissions;
    if negb (uResultStatus current =? "")%string then
      recordSubmissionRejected e run "result" "result already recorded" (subLen p)
    else inTx (
      ev ← emit hash e "run.result_recorded"
        [("run_id", JStr runID); ("vm_id", JStr (uVMID run)); ("status", JStr status);
         ("size_bytes", JNum (subLen p))];
      _ ← modify (set_runs (on_rows (update (byRunID runID) (setResult e (subText p) status))));
      _ ← bumpVM (uVMID run) ev;
      scanRunInTx runID)
  end.

End ops.

(** * Reports *)

Definition byReport (id : string) (r : RunReport) : bool := (pRunID r =? id)%string.

Definition PutRunReport (e : Env) (runID reportJSON digest : string) (op : Z) : M unit := inTx (
  existing ← gets (λ d, select1 (byReport runID) (run_reports d));
  match existing with
  | Some r => throw (ErrReportImmutable (pDigest r))
  | None => modify (set_run_reports (λ t,
      t ++ [mkRunReport runID reportJSON digest op (sqlNow e)]))
  end).

Definition GetRunReport (runID : string) : M RunReport :=
  r ← gets (λ d, select1 (byReport runID) (run_reports d));
  some r ErrReportNotFound.

End Runs.
