(* ===== verification/VmStore.v ===== *)
(** The VM registry (internal/store/vms.go, cleanup.go): VM rows, operations and
    admission reservations, with the transactions that create and move them. *)

From S2P Require Import Prelude Events Store RunStore.
Import Events Sql Store Log Runs.

Local Open Scope Z_scope.

Module Vms.

(** * The VM state machine *)

Definition validTransitions (from : string) : list string :=
  if (from =? "provisioning")%string then ["starting"; "failed"; "stopping"]
  else if (from =? "starting")%string then ["running"; "failed"; "stopping"]
  else if (from =? "running")%string then ["paused"; "stopping"; "failed"]
  else if (from =? "paused")%string then ["running"; "stopping"; "failed"]
  else if (from =? "stopping")%string then ["stopped"; "failed"]
  else if (from =? "stopped")%string then ["starting"; "deleting"]
  else if (from =? "failed")%string then ["deleting"]
  else if (from =? "deleting")%string then ["deleted"]
  else [].

Definition transitionAllowed (from to : string) : bool :=
  existsb (λ allowed, allowed =? to)%string (validTransitions from).

(** [fmt.Sprintf("op-%06d", id)]: zero padding to six columns, the sign first. *)
Fixpoint zeros (n : nat) : string :=
  match n with O => "" | S n' => String (Ascii.ascii_of_N 48) (zeros n') end.

Definition padded (w : nat) (s : string) : string := zeros (w - String.length s) +:+ s.

Definition FormatOperationID (id : Z) : string :=
  "op-" +:+ (if id <? 0 then "-" +:+ padded 5 (Strconv.FormatInt (- id))
             else padded 6 (Strconv.FormatInt id)).

(** * Reservations *)

Record DiskReservation := mkDisk { dVMID : string; dDiskMiB : Z }.

Record ReservationTotals := mkTotals {
  Disks : list DiskReservation;
  MemoryMiB : Z;
  VCPU : Z;
  DiskMiB : Z;
  ActiveVMs : Z
}.

Definition sumZ {A} (f : A → Z) (l : list A) : Z := foldr (λ r acc, f r + acc) 0 l.

Definition live (r : Reservation) : bool := negb (rReleased r).
Definition computeOf (f : Reservation → Z) (r : Reservation) : Z :=
  if rComputeReleased r then 0 else f r.

Definition fitsInt64 (x : Z) : bool := (Int.MinInt64 <=? x) && (x <=? Int.MaxInt64).

Definition disk_le (a b : DiskReservation) : Prop := (dVMID a ≤ dVMID b)%string.
#[export] Instance disk_le_dec a b : Decision (disk_le a b).
Proof. unfold disk_le. apply _. Defined.

(** SQLite's [SUM] over integers fails when the sum leaves the 64-bit range. *)
Definition reservationTotals (t : list Reservation) : option ReservationTotals :=
  let l := select live t in
  let mem := sumZ (computeOf rMemoryTotalMiB) l in
  let cpu := sumZ (computeOf rVCPU) l in
  let disk := sumZ rDiskMiB l in
  if fitsInt64 mem && fitsInt64 cpu && fitsInt64 disk then
    Some (mkTotals (merge_sort disk_le ((λ r, mkDisk (rVMID r) (rDiskMiB r)) <$> l))
            mem cpu disk (Z.of_nat (length l)))
  else None.

Definition reservationTotalsInTx : M ReservationTotals :=
  t ← gets (λ d, reservationTotals (reservations d));
  some t ErrSumOverflow.

Definition byReservation (vm : string) (r : Reservation) : bool := (rVMID r =? vm)%string.

Definition GetReservation (vm : string) : M Reservation :=
  r ← gets (λ d, select1 (byReservation vm) (reservations d));
  some r ErrVMUnknown.

(** * Reads *)

Definition byVMID (vm : string) (v : VM) : bool := (vVMID v =? vm)%string.
Definition byOperationID (id : Z) (o : Operation) : bool := oOperationID o =? id.

Definition GetVM (vm : string) : M VM :=
  v ← gets (λ d, select1 (byVMID vm) (rows (vms d)));
  some v ErrVMUnknown.

Definition scanVMInTx (vm : string) : M VM :=
  v ← gets (λ d, select1 (byVMID vm) (rows (vms d)));
  some v ErrBadRecord.

Definition GetOperation (id : Z) : M Operation :=
  o ← gets (λ d, select1 (byOperationID id) (rows (operations d)));
  some o ErrOperationUnknown.

Definition scanOperationInTx (id : Z) : M Operation :=
  o ← gets (λ d, select1 (byOperationID id) (rows (operations d)));
  some o ErrBadRecord.

Definition ListOperationsByState (state : string) : M (list Operation) :=
  gets (λ d, select (λ o, oState o =? state)%string (rows (operations d))).

Definition DefaultPageLimit : Z := 200.
Definition MaxPageLimit : Z := 1000.

Definition event_le (a b : VM) : Prop := vLastEventID a ≤ vLastEventID b.
#[export] Instance event_le_dec a b : Decision (event_le a b).
Proof. unfold event_le. apply _. Defined.

(** [ChangedVMs]: the feed of the situation delta. *)
Definition ChangedVMs (since limit : Z) : M (list VM) :=
  let limit := if limit <=? 0 then DefaultPageLimit else limit in
  let limit := if MaxPageLimit <? limit then MaxPageLimit else limit in
  gets (λ d, take (Z.to_nat limit)
    (merge_sort event_le (select (λ v, since <? vLastEventID v) (rows (vms d))))).

(** * Creation *)

Record RunAttachment := mkRunAttachment {
  aGoal : string;
  aCriteriaType : string;
  aOnCompletion : string;
  aProgressEvents : bool
}.

Record CreateVMInput := mkCreateVM {
  iVMID : string;
  iName : string;
  iOwner : string;
  iTemplateID : string;
  iTemplateDigest : string;
  iVCPUCount : Z;
  iMemoryMiB : Z;
  iRootDiskMiB : Z;
  iWorkspaceDiskMiB : Z;
  iMemoryTotalMiB : Z;
  iNetworkProfile : string;
  iNetworkPolicyID : string;
  iLabels : option (gmap string string);
  iKind : string;
  iIdempotencyKey : option string;
  iRequestHash : string;
  iAdmit : ReservationTotals → option AdmitErr;
  iRun : option RunAttachment
}.

(** What a create that does not fail returns: a new VM, the VM of an earlier
    identical request, a refusal recorded now, or the one recorded earlier. *)
Inductive CreateOutcome :=
  | Created (vm : VM) (op : Operation)
  | Replayed (vm : VM) (op : Operation)
  | RefusedNow (op : Operation) (r : AdmissionRefusal)
  | RefusedBefore (op : Operation) (r : AdmissionRefusal).

Definition opKey (owner kind key : string) (o : Operation) : bool :=
  (oOwner o =? owner)%string && (oKind o =? kind)%string &&
  match oIdempotencyKey o with Some k => (k =? key)%string | None => false end.

Definition replayedRefusal (op : Operation) : result StoreErr AdmissionRefusal :=
  if negb (oState op =? "failed")%string then Err ErrReplayInconsistent
  else match oErrorCause op with
  | None => Err ErrReplayInconsistent
  | Some c => Ok (mkRefusal c (default "" (oErrorMessage op)))
  end.

(** [lookupByIdempotencyKey], the pre-check: [None] when the key is unknown. *)
Definition lookupByIdempotencyKey (owner kind key rh : string)
    : M (option (option VM * Operation)) :=
  existing ← gets (λ d, select1 (opKey owner kind key) (rows (operations d)));
  match existing with
  | None => mret None
  | Some o =>
    _ ← ensure (oRequestHash o =? rh)%string ErrIdempotencyConflict;
    op ← GetOperation (oOperationID o);
    match oVMID op with
    | None => mret (Some (None, op))
    | Some v => vm ← GetVM v; mret (Some (Some vm, op))
    end
  end.

(** The re-check inside the transaction. *)
Definition replayInTx (owner kind key rh : string) : M (option CreateOutcome) :=
  existing ← gets (λ d, select1 (opKey owner kind key) (rows (operations d)));
  match existing with
  | None => mret None
  | Some o =>
    _ ← ensure (oRequestHash o =? rh)%string ErrIdempotencyConflict;
    row ← gets (λ d, select1 (byOperationID (oOperationID o)) (rows (operations d)));
    row ← some row ErrBadRecord;
    op ← GetOperation (oOperationID o);
    match oVMID row with
    | None =>
      match replayedRefusal op with
      | Ok r => mret (Some (RefusedBefore op r))
      | Err e => throw e
      end
    | Some v => vm ← GetVM v; mret (Some (Replayed vm op))
    end
  end.

Section ops.
Context (hash : Envelope → string).

(** [INSERT INTO operations]: the partial unique index on the idempotency key. *)
Definition insertOperation (mk : Z → Operation) : M Z :=
  t ← gets operations;
  id ← some (nextID t) ErrFull;
  _ ← ensure (negb (match oIdempotencyKey (mk id) with
                    | Some k => exists_ (opKey (oOwner (mk id)) (oKind (mk id)) k) (rows t)
                    | None => false end)) (ErrConstraint "operations.idempotency_key");
  _ ← modify (set_operations (insertRow id (mk id)));
  mret id.

Definition insertVM (mk : Z → VM) : M unit :=
  t ← gets vms;
  id ← some (nextID t) ErrFull;
  _ ← ensure (negb (exists_ (byVMID (vVMID (mk id))) (rows t))) (ErrConstraint "vms.vm_id");
  modify (set_vms (insertRow id (mk id))).

Definition insertReservation (r : Reservation) : M unit :=
  t ← gets reservations;
  _ ← ensure (negb (exists_ (byReservation (rVMID r)) t)) (ErrConstraint "reservations.vm_id");
  modify (set_reservations (λ t, t ++ [r])).

Definition refusedOp (e : Env) (inp : CreateVMInput) (r : AdmissionRefusal) (id : Z)
    : Operation :=
  mkOperation id (iOwner inp) (iKind inp) (iIdempotencyKey inp) (iRequestHash inp) None
    "admission" "failed" (Some (Cause r)) (Some (Message r)) 1 (sqlNow e) (sqlNow e).

Definition refusalData (inp : CreateVMInput) (r : AdmissionRefusal) (op : Z) : object :=
  [("operation_id", JStr (FormatOperationID op)); ("kind", JStr (iKind inp));
   ("vm_id", JNull); ("phase", JStr "admission"); ("state", JStr "failed");
   ("attempt", JNum 1);
   ("error", JObj [("cause", JStr (Cause r)); ("message", JStr (Message r))])].

(** The refused branch: the failed operation is committed as evidence. *)
Definition createRefused (e : Env) (inp : CreateVMInput) (r : AdmissionRefusal)
    : M CreateOutcome :=
  op ← insertOperation (refusedOp e inp r);
  _ ← emit hash e "operation.state_changed" (refusalData inp r op);
  o ← scanOperationInTx op;
  mret (RefusedNow o r).

Definition newVM (e : Env) (inp : CreateVMInput) (id : Z) : VM :=
  mkVM id (iVMID inp) (iName inp) (iOwner inp) (iTemplateID inp) (iTemplateDigest inp)
    "running" "provisioning" 1 (iVCPUCount inp) (iMemoryMiB inp) (iRootDiskMiB inp)
    (iWorkspaceDiskMiB inp) (iNetworkProfile inp) (iNetworkPolicyID inp)
    (default ∅ (iLabels inp)) None None "" None (sqlNow e) (sqlNow e) 0.

Definition admittedOp (e : Env) (inp : CreateVMInput) (id : Z) : Operation :=
  mkOperation id (iOwner inp) (iKind inp) (iIdempotencyKey inp) (iRequestHash inp)
    (Some (iVMID inp)) "admitted" "running" None None 1 (sqlNow e) (sqlNow e).

Definition newReservation (e : Env) (inp : CreateVMInput) : Reservation :=
  mkReservation (iVMID inp) (iMemoryTotalMiB inp) (iVCPUCount inp)
    (Int.i64 (iRootDiskMiB inp + iWorkspaceDiskMiB inp)) false false (sqlNow e) (sqlNow e).

Definition vmCreatedData (inp : CreateVMInput) (op : Z) : object :=
  [("vm_id", JStr (iVMID inp)); ("name", JStr (iName inp));
   ("template_id", JStr (iTemplateID inp)); ("template_digest", JStr (iTemplateDigest inp));
   ("operation_id", JStr (FormatOperationID op)); ("owner", JStr (iOwner inp));
   ("resources", JObj [("vcpu", JNum (iVCPUCount inp)); ("memory_mib", JNum (iMemoryMiB inp));
      ("root_disk_mib", JNum (iRootDiskMiB inp));
      ("workspace_disk_mib", JNum (iWorkspaceDiskMiB inp))])].

Definition opData (op : Z) (kind vm phase state : string) : object :=
  [("operation_id", JStr (FormatOperationID op)); ("kind", JStr kind); ("vm_id", JStr vm);
   ("phase", JStr phase); ("state", JStr state); ("attempt", JNum 1)].

(** The admitted branch. *)
Definition createGranted (e : Env) (inp : CreateVMInput) : M CreateOutcome :=
  _ ← insertVM (newVM e inp);
  op ← insertOperation (admittedOp e inp);
  _ ← insertReservation (newReservation e inp);
  created ← emit hash e "vm.created" (vmCreatedData inp op);
  _ ← bumpVM (iVMID inp) created;
  _ ← emit hash e "operation.state_changed"
        (opData op (iKind inp) (iVMID inp) "admitted" "running");
  _ ← (match iRun inp with
       | None => mret ()
       | Some a => createRunInTx hash e
           (mkCreateRun (iVMID inp) (iOwner inp) (aGoal a) (aCriteriaType a)
              (aOnCompletion a) (aProgressEvents a) None "" "pending")
       end);
  vm ← scanVMInTx (iVMID inp);
  o ← scanOperationInTx op;
  mret (Created vm o).

(** The transaction of a create: the idempotency re-check, admission on totals
    read in the same transaction, then one of the two branches. *)
Definition createInTx (e : Env) (inp : CreateVMInput) : M CreateOutcome :=
  again ← (match iIdempotencyKey inp with
           | Some k => replayInTx (iOwner inp) (iKind inp) k (iRequestHash inp)
           | None => mret None
           end);
  match again with
  | Some out => mret out
  | None =>
    totals ← reservationTotalsInTx;
    match iAdmit inp totals with
    | Some (Refused r) => createRefused e inp r
    | Some (AdmitInternal msg) => throw (ErrAdmission (AdmitInternal msg))
    | None => createGranted e inp
    end
  end.

Definition CreateVMWithOperation (e : Env) (inp : CreateVMInput) : M CreateOutcome :=
  pre ← (match iIdempotencyKey inp with
         | Some k => lookupByIdempotencyKey (iOwner inp) (iKind inp) k (iRequestHash inp)
         | None => mret None
         end);
  match pre with
  | Some (Some vm, op) => mret (Replayed vm op)
  | _ => inTx (createInTx e inp)
  end.

(** * Transitions *)

Record TransitionInput := mkTransition {
  nVMID : string;
  nExpectedRevision : option Z;
  nFrom : option string;
  nTo : string;
  nReason : string;
  nOperationID : Z;
  nDesiredState : option string;
  nFailureStage : option string;
  nFailureReason : option string;
  nReleaseCompute : bool;
  nAcquireCompute : bool;
  nReleaseAll : bool;
  nBootID : option string;
  nImages : option Images;
  nAdmit : option (ReservationTotals → option AdmitErr)
}.

(** The new row: a boot identity moves the row onto the new boot and clears the
    images of the previous one. *)
Definition movedVM (e : Env) (inp : TransitionInput) (current v : VM) : VM :=
  mkVM (vRowID v) (vVMID v) (vName v) (vOwner v) (vTemplateID v) (vTemplateDigest v)
    (default (vDesiredState current) (nDesiredState inp)) (nTo inp)
    (Int.i64 (vRevision current + 1)) (vVCPUCount v) (vMemoryMiB v)
    (vRootDiskMiB v) (vWorkspaceDiskMiB v) (vNetworkProfile v) (vNetworkPolicyID v)
    (vLabels v) (nFailureStage inp) (nFailureReason inp)
    (default (vCurrentBootID current) (nBootID inp))
    (match nImages inp with
     | Some i => Some i
     | None => match nBootID inp with Some _ => None | None => vBootImages current end
     end)
    (vCreatedAt v) (sqlNow e) (vLastEventID v).

Definition setReleased (e : Env) (r : Reservation) : Reservation :=
  mkReservation (rVMID r) (rMemoryTotalMiB r) (rVCPU r) (rDiskMiB r) true true
    (rCreatedAt r) (sqlNow e).
Definition setComputeReleased (e : Env) (b : bool) (r : Reservation) : Reservation :=
  mkReservation (rVMID r) (rMemoryTotalMiB r) (rVCPU r) (rDiskMiB r) b (rReleased r)
    (rCreatedAt r) (sqlNow e).

Definition updateReservation (e : Env) (inp : TransitionInput) : DB → DB :=
  if nReleaseAll inp then
    set_reservations (update (byReservation (nVMID inp)) (setReleased e))
  else if nReleaseCompute inp then
    set_reservations (update (byReservation (nVMID inp)) (setComputeReleased e true))
  else if nAcquireCompute inp then
    set_reservations (update (byReservation (nVMID inp)) (setComputeReleased e false))
  else id.

Definition stateData (inp : TransitionInput) (current : VM) : object :=
  [("vm_id", JStr (nVMID inp)); ("from", JStr (vObservedState current));
   ("to", JStr (nTo inp)); ("reason", JStr (nReason inp));
   ("operation_id", JStr (FormatOperationID (nOperationID inp)));
   ("revision", JStr (Strconv.FormatInt (Int.i64 (vRevision current + 1))))]
  ++ (match nBootID inp with Some b => [("boot_id", JStr b)] | None => [] end).

(** The admission of a restart, inside the transaction. *)
Definition acquireCompute (inp : TransitionInput) : M unit :=
  if nAcquireCompute inp then
    adm ← some (nAdmit inp) ErrAdmitMissing;
    totals ← reservationTotalsInTx;
    match adm totals with
    | None => mret ()
    | Some err => throw (ErrAdmission err)
    end
  else mret ().

Definition TransitionVM (e : Env) (inp : TransitionInput) : M VM := inTx (
  cur ← gets (λ d, select1 (byVMID (nVMID inp)) (rows (vms d)));
  current ← some cur ErrVMUnknown;
  _ ← ensure (match nExpectedRevision inp with
              | Some x => x =? vRevision current | None => true end)
        (RevisionMismatch (vRevision current));
  _ ← ensure (match nFrom inp with
              | Some f => (f =? vObservedState current)%string | None => true end)
        (InvalidTransition (vObservedState current) (nTo inp));
  _ ← ensure (transitionAllowed (vObservedState current) (nTo inp))
        (InvalidTransition (vObservedState current) (nTo inp));
  _ ← acquireCompute inp;
  _ ← modify (set_vms (on_rows (update (byVMID (nVMID inp)) (movedVM e inp current))));
  _ ← (if (nTo inp =? "stopped")%string then mret ()
       else modify (set_cleanup_debt (delete (λ v, v =? nVMID inp)%string)));
  _ ← modify (updateReservation e inp);
  changed ← emit hash e "vm.state_changed" (stateData inp current);
  _ ← bumpVM (nVMID inp) changed;
  _ ← (if (nTo inp =? "deleted")%string
       then emit hash e "vm.deleted"
              [("vm_id", JStr (nVMID inp));
               ("operation_id", JStr (FormatOperationID (nOperationID inp)))]
       else mret 0);
  scanVMInTx (nVMID inp)).

(** * Operations *)

Record OperationUpdate := mkOpUpdate {
  wOperationID : Z;
  wPhase : string;
  wState : string;
  wIfState : string;
  wErrorCause : option string;
  wErrorMessage : option string
}.

Definition movedOp (e : Env) (u : OperationUpdate) (o : Operation) : Operation :=
  mkOperation (oOperationID o) (oOwner o) (oKind o) (oIdempotencyKey o) (oRequestHash o)
    (oVMID o) (wPhase u) (wState u) (wErrorCause u) (wErrorMessage u) (oAttempt o)
    (oCreatedAt o) (sqlNow e).

Definition opUpdateMatches (u : OperationUpdate) (o : Operation) : bool :=
  byOperationID (wOperationID u) o &&
  ((wIfState u =? "")%string || (oState o =? wIfState u)%string).

(** The error object dereferences the message: [None] there is the panic of a
    nil pointer. *)
Definition opChangedData (o : Operation) : option object :=
  let base := [("operation_id", JStr (FormatOperationID (oOperationID o)));
               ("kind", JStr (oKind o)); ("phase", JStr (oPhase o));
               ("state", JStr (oState o)); ("attempt", JNum (oAttempt o))]
    ++ (match oVMID o with Some v => [("vm_id", JStr v)] | None => [] end) in
  match oErrorCause o, oErrorMessage o with
  | None, _ => Some base
  | Some c, Some m => Some (base ++ [("error", JObj [("cause", JStr c); ("message", JStr m)])])
  | Some _, None => None
  end.

Definition UpdateOperation (e : Env) (u : OperationUpdate) : M Operation := inTx (
  n ← gets (λ d, select (opUpdateMatches u) (rows (operations d)));
  match n with
  | [] =>
    if (wIfState u =? "")%string then throw ErrOperationUnknown
    else
      known ← gets (λ d, select1 (byOperationID (wOperationID u)) (rows (operations d)));
      match known with None => throw ErrOperationUnknown | Some _ => throw ErrOperationStale end
  | _ =>
    _ ← modify (set_operations (on_rows (update (opUpdateMatches u) (movedOp e u))));
    op ← scanOperationInTx (wOperationID u);
    data ← some (opChangedData op) ErrBadRecord;
    _ ← emit hash e "operation.state_changed" data;
    mret op
  end).

Record ActionOperationInput := mkActionOp {
  xOwner : string;
  xVMID : string;
  xPhase : string;
  xRequestHash : string
}.

Definition InsertActionOperation (e : Env) (inp : ActionOperationInput) : M Z := inTx (
  op ← insertOperation (λ id, mkOperation id (xOwner inp) "vm.action" None (xRequestHash inp)
         (Some (xVMID inp)) (xPhase inp) "running" None None 1 (sqlNow e) (sqlNow e));
  _ ← emit hash e "operation.state_changed"
        (opData op "vm.action" (xVMID inp) (xPhase inp) "running");
  mret op).

(** [InsertReportOperation]: the run's id is kept in the request hash. *)
Definition InsertReportOperation (e : Env) (owner vm run : string) : M Z := inTx (
  op ← insertOperation (λ id, mkOperation id owner "run.report_generate" None run
         (Some vm) "generating" "running" None None 1 (sqlNow e) (sqlNow e));
  _ ← emit hash e "operation.state_changed"
        (opData op "run.report_generate" vm "generating" "running");
  mret op).

(** * Batches *)

(** The operation of a whole batch: what [CreateVMBatch] has decided when it
    inserts it. *)
Record BatchOpInput := mkBatchOp {
  yOwner : string;
  yIdempotencyKey : option string;
  yRequestHash : string;
  yState : string;
  yRefusal : option AdmissionRefusal
}.

Definition batchOpPhase (y : BatchOpInput) : string :=
  if (yState y =? "failed")%string then "admission" else "admitted".

Definition newBatchOp (e : Env) (y : BatchOpInput) (id : Z) : Operation :=
  mkOperation id (yOwner y) "vm_batch.create" (yIdempotencyKey y) (yRequestHash y) None
    (batchOpPhase y) (yState y) (Cause <$> yRefusal y) (Message <$> yRefusal y) 1
    (sqlNow e) (sqlNow e).

Definition batchOpData (y : BatchOpInput) (op : Z) : object :=
  [("operation_id", JStr (FormatOperationID op)); ("kind", JStr "vm_batch.create");
   ("vm_id", JNull); ("phase", JStr (batchOpPhase y)); ("state", JStr (yState y));
   ("attempt", JNum 1)] ++
  match yRefusal y with
  | Some r => [("error", JObj [("cause", JStr (Cause r)); ("message", JStr (Message r))])]
  | None => []
  end.

(** The row, its event and the row read back. *)
Definition recordBatchOp (e : Env) (y : BatchOpInput) : M Operation :=
  op ← insertOperation (newBatchOp e y);
  _ ← emit hash e "operation.state_changed" (batchOpData y op);
  scanOperationInTx op.

(** * Cleanup records *)

(** [recordVMStatement]: one event, and for a stopped VM's failed cleanup the
    durable debt marker, if the row is still stopping or stopped. *)
Definition recordVMStatement (e : Env) (k vm state : string) (data : object) : M unit := inTx (
  _ ← emit hash e k data;
  if (k =? "vm.cleanup_failed")%string && (state =? "stopped")%string then
    ok ← gets (λ d, exists_ (λ v, byVMID vm v &&
            ((vObservedState v =? "stopping")%string || (vObservedState v =? "stopped")%string))
            (rows (vms d)));
    modify (set_cleanup_debt (λ t,
      if ok && negb (exists_ (λ v, v =? vm)%string t) then t ++ [vm] else t))
  else mret ()).

Definition ReleaseVMReservations (e : Env) (vm : string) : M unit :=
  failed ← gets (λ d, exists_ (λ v, byVMID vm v && (vObservedState v =? "failed")%string)
                        (rows (vms d)));
  modify (set_reservations (update (λ r, byReservation vm r && failed) (setReleased e))).

Definition ClearCleanupDebt (vm : string) : M unit :=
  modify (set_cleanup_debt (delete (λ v, v =? vm)%string)).

End ops.
End Vms.
