(* ===== verification/StoreRules.v ===== *)
(** Compositional rules for the store's monad: [keeps R m] says that [m] relates
    the store before and after by [R], whatever it returns; [logs n K m] that it
    emits at most [n] events, all of kinds in [K], and keeps the log in order. *)

From S2P Require Import Prelude Events Store RunStore VmStore.
Import Events Sql Store Log Runs Vms.

Local Open Scope Z_scope.

Module Rules.

(** * Relations between the tables before and after *)

Definition keeps (R : DB → DB → Prop) {A} (m : M A) : Prop :=
  ∀ s r s', m s = (r, s') → R (db s) (db s').

Section keeps.
Context (R : DB → DB → Prop) `{!PreOrder R}.

Lemma keeps_id {A} (m : M A) : (∀ s, (m s).2 = s) → keeps R m.
Proof. intros H s r s' E. specialize (H s). rewrite E in H. by simplify_eq/=. Qed.

Lemma keeps_ret {A} (a : A) : keeps R (mret a : M A).
Proof. by apply keeps_id. Qed.
Lemma keeps_throw {A} e : keeps R (throw (A:=A) e).
Proof. by apply keeps_id. Qed.
Lemma keeps_gets {A} (f : DB → A) : keeps R (gets f).
Proof. by apply keeps_id. Qed.
Lemma keeps_ensure b e : keeps R (ensure b e).
Proof. apply keeps_id. by destruct b. Qed.
Lemma keeps_some {A} (o : option A) e : keeps R (some o e).
Proof. apply keeps_id. by destruct o. Qed.

Lemma keeps_bind {A B} (m : M A) (f : A → M B) :
  keeps R m → (∀ a, keeps R (f a)) → keeps R (m ≫= f).
Proof.
  intros Hm Hf s r s'. unfold mbind, M_bind. destruct (m s) as [[a|e] s1] eqn:E.
  - intros H. apply Hm in E. apply Hf in H. by etrans.
  - intros [= <- <-]. by apply Hm in E.
Qed.

Lemma keeps_inTx {A} (m : M A) : keeps R m → keeps R (inTx m).
Proof.
  intros Hm s r s'. unfold inTx. destruct (m s) as [[a|e] s1] eqn:E; intros [= <- <-].
  - by apply Hm in E.
  - done.
Qed.

Lemma keeps_modify f : (∀ d, R d (f d)) → keeps R (modify f).
Proof. intros H s r s' [= <- <-]. apply H. Qed.

Lemma keeps_seq {A} (m : M A) : (∀ s, db (m s).2 = db s) → keeps R m.
Proof. intros H s r s' E. specialize (H s). rewrite E in H. simpl in H. by rewrite H. Qed.

End keeps.

(** Relations that do not look at the log. *)
Class LogBlind (R : DB → DB → Prop) := {
  lb_streams d f : R d (set_streams f d);
  lb_events d f : R d (set_events f d)
}.

Section blind.
Context (hash : Envelope → string).
Context (R : DB → DB → Prop) `{!PreOrder R, !LogBlind R}.

Lemma blind_bindStream e env d : R d (bindStream e env d).
Proof. unfold bindStream. destruct (boundStream env d); [done|apply lb_streams]. Qed.

Lemma blind_recorded e env d : R d (recorded hash e env d).
Proof. unfold recorded. etrans; [apply blind_bindStream|apply lb_events]. Qed.

Lemma keeps_appendInTx e env : keeps R (appendInTx hash e env).
Proof.
  intros s r s'. rewrite appendInTx_eq.
  repeat case_match; intros [= <- <-]; try done; cbn [db];
    [apply blind_recorded|apply blind_bindStream].
Qed.

Lemma keeps_systemAppend e env : keeps R (appendSystemInTx hash e env).
Proof.
  unfold appendSystemInTx. apply keeps_bind; [done| |intros _].
  { destruct (Validate env); [by apply keeps_ret|by apply keeps_throw]. }
  apply keeps_bind; [done|apply keeps_appendInTx|]. intros. by apply keeps_some.
Qed.

Lemma keeps_emitAs prov e k data : keeps R (emitAs hash prov e k data).
Proof.
  unfold emitAs. apply keeps_bind; [done|by apply keeps_seq|]. intros i.
  apply keeps_bind; [done|by apply keeps_seq|]. intros q. apply keeps_systemAppend.
Qed.

Lemma keeps_systemEmit e k sensor ql data : keeps R (systemEmit hash e k sensor ql data).
Proof.
  unfold systemEmit. apply keeps_bind; [done| |intros; apply keeps_systemAppend].
  unfold systemEnvelope. apply keeps_bind; [done|by apply keeps_seq|]. intros i.
  apply keeps_bind; [done|by apply keeps_seq|]. intros q. by apply keeps_ret.
Qed.

Lemma keeps_emit e k data : keeps R (emit hash e k data).
Proof. exact (keeps_emitAs HostObserved e k data). Qed.

Lemma keeps_appendQuiet e env : keeps R (appendQuiet hash e env).
Proof.
  unfold appendQuiet. apply keeps_bind; [done|by apply keeps_ensure|intros _].
  apply keeps_bind; [done| |intros _].
  { destruct (Validate env); [by apply keeps_ret|by apply keeps_throw]. }
  apply keeps_bind; [done|by apply keeps_some|intros i].
  apply keeps_bind; [done|by apply keeps_ensure|intros _].
  apply keeps_inTx; [done|apply keeps_appendInTx].
Qed.

Lemma keeps_withHealth {A} e c k data : keeps R (withHealth (A:=A) hash e c k data).
Proof.
  intros s r s'. unfold withHealth. unfold systemEnvelope, mbind, M_bind, getInstanceID,
    addSystemSeq, mret, M_ret.
  destruct (appendQuiet _ _ _ _) as [[]] eqn:E; intros [= <- <-];
    by apply keeps_appendQuiet in E.
Qed.

Lemma keeps_Append e env : keeps R (Append hash e env).
Proof.
  intros s r s'. unfold Append. destruct (appendQuiet hash e env s) as [r1 s1] eqn:E.
  apply keeps_appendQuiet in E. intros H. etrans; [exact E|].
  destruct r1 as [|[]]; try (by simplify_eq); by apply keeps_withHealth in H.
Qed.

Lemma keeps_rejected {A} e run what reason n :
  keeps R (recordSubmissionRejected (A:=A) hash e run what reason n).
Proof.
  intros s r s'. unfold recordSubmissionRejected, systemEnvelope, mbind, M_bind,
    getInstanceID, addSystemSeq, mret, M_ret.
  match goal with |- context [appendQuiet ?h ?e ?env ?s0] =>
    destruct (appendQuiet h e env s0) as [r1 s1] eqn:E end.
  intros [= <- <-]. by apply keeps_appendQuiet in E.
Qed.

End blind.

(** * Growth of the log *)

Section logs.
Context (hash : Envelope → string).

Record grown (n : Z) (K : string → Prop) (s s' : Store) : Prop := mkGrown {
  g_ok : log_ok hash s';
  g_inst : instanceID s' = instanceID s;
  g_seq : systemSeq s ≤ systemSeq s' ≤ systemSeq s + n;
  g_rows : ∃ tl, rows (events (db s')) = rows (events (db s)) ++ tl ∧
             Forall (λ r, K (kind r)) tl
}.

Definition logs (n : Z) (K : string → Prop) {A} (m : M A) : Prop :=
  ∀ s r s', m s = (r, s') → log_ok hash s → systemSeq s + n ≤ Int.MaxInt64 →
  grown n K s s'.

Lemma grown_refl n K s : 0 ≤ n → log_ok hash s → grown n K s s.
Proof. intros. split; [done..|lia|]. exists []. by rewrite app_nil_r. Qed.

Lemma grown_trans n1 n2 K s s1 s2 :
  grown n1 K s s1 → grown n2 K s1 s2 → grown (n1 + n2) K s s2.
Proof.
  intros [? ? ? (t1 & E1 & F1)] [? ? ? (t2 & E2 & F2)].
  split; [done|congruence|lia|]. exists (t1 ++ t2).
  rewrite E2, E1, app_assoc. split; [done|]. by apply Forall_app.
Qed.

Lemma grown_le n n' K s s' : n ≤ n' → grown n K s s' → grown n' K s s'.
Proof. intros ? []. split; try done. lia. Qed.

Lemma logs_id {A} n K (m : M A) : 0 ≤ n → (∀ s, (m s).2 = s) → logs n K m.
Proof.
  intros Hn H s r s' E Hl _. specialize (H s). rewrite E in H. simpl in H. subst.
  by apply grown_refl.
Qed.

Lemma logs_ensure n K b e : 0 ≤ n → logs n K (ensure b e).
Proof. intros. apply logs_id; [done|]. by destruct b. Qed.
Lemma logs_some n K {A} (o : option A) e : 0 ≤ n → logs n K (some o e).
Proof. intros. apply logs_id; [done|]. by destruct o. Qed.

Lemma logs_bind n1 n2 n K {A B} (m : M A) (f : A → M B) :
  n1 + n2 ≤ n → 0 ≤ n2 → logs n1 K m → (∀ a, logs n2 K (f a)) → logs n K (m ≫= f).
Proof.
  intros Hn H2 Hm Hf s r s' E Hl Hq. unfold mbind, M_bind in E.
  destruct (m s) as [r1 s1] eqn:E1.
  pose proof (Hm _ _ _ E1 Hl ltac:(lia)) as G1.
  destruct r1 as [a|e].
  - pose proof G1 as [Hl1 _ Hq1 _]. pose proof (Hf a _ _ _ E Hl1 ltac:(lia)).
    eapply grown_le; [done|]. by eapply grown_trans.
  - simplify_eq. eapply grown_le; [|done]. lia.
Qed.

Lemma logs_inTx n K {A} (m : M A) : logs n K m → logs n K (inTx m).
Proof.
  intros Hm s r s' E Hl Hq. unfold inTx in E. destruct (m s) as [[a|e] s1] eqn:E1; simplify_eq.
  - by apply (Hm _ _ _ E1).
  - pose proof (Hm _ _ _ E1 Hl Hq) as []. split; cbn [db instanceID systemSeq]; try done.
    + rewrite g_inst0. apply log_ok_seq; [done|lia].
    + exists []. by rewrite app_nil_r.
Qed.

(** Statements on other tables leave the log alone. *)
Lemma logs_modify n K f :
  0 ≤ n → (∀ d, events (f d) = events d ∧ streams (f d) = streams d) →
  logs n K (modify f).
Proof.
  intros Hn Hf s r s' [= <- <-] Hl Hq. destruct (Hf (db s)) as [He Hs].
  split; cbn [db instanceID systemSeq]; [by apply log_ok_frame|done|lia|].
  exists []. by rewrite He, app_nil_r.
Qed.

Lemma log_ok_bindStream s e prov sensor ql k data q :
  log_ok hash s → systemSeq s ≤ q ≤ Int.MaxInt64 →
  log_ok hash (mkStore (instanceID s) q
    (bindStream e (ownEnvQ prov sensor ql e k data s) (db s))).
Proof.
  intros Hl Hq. pose proof (log_ok_seq hash s q Hl Hq) as Hl'.
  unfold bindStream. destruct (boundStream _ _) as [b|] eqn:E; [done|].
  destruct Hl'. constructor; cbn; try done.
  - pose proof (bindStream_nodup e (ownEnvQ prov sensor ql e k data s) (db s)) as Hn.
    unfold bindStream in Hn. rewrite E in Hn. by apply Hn.
  - intros r Hr. destruct (lo_scope0 r Hr) as (b & ? & ?). exists b.
    split; [|done]. apply elem_of_app. by left.
  - intros b [Hb| ->%list_elem_of_singleton]%elem_of_app; [by apply lo_sysscope0|done].
Qed.

Lemma logs_emitAs n (K : string → Prop) prov e k data :
  1 ≤ n → K k → logs n K (emitAs hash prov e k data).
Proof.
  intros Hn HK s r s' E Hl Hq. pose proof Hl as [].
  rewrite emitAs_eq in E by (done || lia).
  destruct (Validate _) eqn:Hv; [destruct (_ <? _) eqn:Hm|]; simplify_eq.
  - apply Z.ltb_lt in Hm. split; cbn [db instanceID systemSeq emitted]; [|done|lia|].
    + apply log_ok_own; done || lia.
    + rewrite events_recorded. eexists [_]. split; [done|]. by repeat constructor.
  - split; cbn [db instanceID systemSeq]; [|done|lia|].
    + apply log_ok_bindStream; [done|lia].
    + exists []. rewrite app_nil_r. split; [|done].
      unfold bindStream. by destruct (boundStream _ _).
  - split; cbn [db instanceID systemSeq]; [apply log_ok_seq; [done|lia]|done|lia|].
    exists []. by rewrite app_nil_r.
Qed.

Lemma logs_systemEmit n (K : string → Prop) e k sensor ql data :
  1 ≤ n → K k → logs n K (systemEmit hash e k sensor ql data).
Proof.
  intros Hn HK s r s' E Hl Hq. pose proof Hl as [].
  rewrite systemEmit_eq in E by (done || lia).
  destruct (Validate _) eqn:Hv; [destruct (_ <? _) eqn:Hm|]; simplify_eq.
  - apply Z.ltb_lt in Hm. split; cbn [db instanceID systemSeq noted]; [|done|lia|].
    + apply log_ok_ownQ; done || lia.
    + rewrite events_recorded. eexists [_]. split; [done|]. by repeat constructor.
  - split; cbn [db instanceID systemSeq]; [|done|lia|].
    + apply log_ok_bindStream; [done|lia].
    + exists []. rewrite app_nil_r. split; [|done].
      unfold bindStream. by destruct (boundStream _ _).
  - split; cbn [db instanceID systemSeq]; [apply log_ok_seq; [done|lia]|done|lia|].
    exists []. by rewrite app_nil_r.
Qed.

Lemma logs_emit n (K : string → Prop) e k data :
  1 ≤ n → K k → logs n K (emit hash e k data).
Proof. exact (logs_emitAs n K HostObserved e k data). Qed.

(** The quiet append of an envelope on the store's own stream. *)
Lemma grown_appendQuiet_own e prov sensor k data (K : string → Prop) s r s' :
  K k → log_ok hash s → systemSeq s + 1 ≤ Int.MaxInt64 →
  appendQuiet hash e (ownEnv prov sensor e k data s)
    (mkStore (instanceID s) (systemSeq s + 1) (db s)) = (r, s') →
  grown 1 K s s'.
Proof.
  intros HK Hl Hq E. pose proof Hl as [].
  assert (Hid : ∀ q, systemSeq s ≤ q ≤ systemSeq s + 1 →
    grown 1 K s (mkStore (instanceID s) q (db s))).
  { intros q ?. split; cbn [db instanceID systemSeq]; [apply log_ok_seq; [done|lia]|done|lia|].
    exists []. by rewrite app_nil_r. }
  destruct (ownEnv_fresh hash prov sensor e k data s Hl) as [Hsc Hky].
  unfold appendQuiet, mbind, M_bind, ensure, some, mret, M_ret, throw in E.
  change (isSome (Events.EventID _)) with false in E. cbn [negb] in E.
  destruct (Validate _) eqn:Hv; [|simplify_eq; apply (Hid (systemSeq s + 1)); lia].
  destruct (LookupKind _); [|simplify_eq; apply (Hid (systemSeq s + 1)); lia].
  destruct (String.eqb _ _); [|simplify_eq; apply (Hid (systemSeq s + 1)); lia].
  unfold appendTx, inTx in E. rewrite appendInTx_eq in E. cbn [db instanceID systemSeq] in E.
  rewrite Hsc, Hky in E. cbn [negb] in E.
  destruct (seq (events (db s)) <? Int.MaxInt64) eqn:Hm; simplify_eq; [|apply (Hid (systemSeq s + 1)); lia].
  apply Z.ltb_lt in Hm. split; cbn [db instanceID systemSeq]; [|done|lia|].
  - apply log_ok_own; done || lia.
  - rewrite events_recorded. eexists [_]. split; [done|]. by repeat constructor.
Qed.

Lemma logs_rejected n (K : string → Prop) {A} e run what reason sz :
  1 ≤ n → K "run.submission_rejected" →
  logs n K (recordSubmissionRejected (A:=A) hash e run what reason sz).
Proof.
  intros Hn HK s r s' E Hl Hq. pose proof Hl as []. eapply grown_le; [done|].
  unfold recordSubmissionRejected, systemEnvelope, mbind, M_bind, getInstanceID,
    addSystemSeq, mret, M_ret in E.
  rewrite Int.i64_small in E by (unfold Int.MaxInt64 in *; lia).
  match type of E with context [appendQuiet ?h ?e ?env ?s0] =>
    destruct (appendQuiet h e env s0) as [r1 s1] eqn:E1 end.
  simplify_eq/=.
  by eapply (grown_appendQuiet_own e HostObserved "registry"); [done|done|lia|].
Qed.

End logs.

End Rules.

(** The structural part of a [keeps] proof; what is left are the statements that
    modify tables. *)
Ltac keeps_step :=
  match goal with
  | |- Rules.keeps _ (_ ≫= _) => apply Rules.keeps_bind; [apply _| |intros ?]
  | |- Rules.keeps _ (Store.inTx _) => apply Rules.keeps_inTx; [apply _|]
  | |- Rules.keeps _ (mret _) => apply Rules.keeps_ret; apply _
  | |- Rules.keeps _ (Store.throw _) => apply Rules.keeps_throw; apply _
  | |- Rules.keeps _ (Store.gets _) => apply Rules.keeps_gets; apply _
  | |- Rules.keeps _ (Store.ensure _ _) => apply Rules.keeps_ensure; apply _
  | |- Rules.keeps _ (Store.some _ _) => apply Rules.keeps_some; apply _
  | |- Rules.keeps _ (Store.emit _ _ _ _) => apply Rules.keeps_emit; apply _
  | |- Rules.keeps _ (Log.emitAs _ _ _ _ _) => apply Rules.keeps_emitAs; apply _
  | |- Rules.keeps _ (Store.systemEmit _ _ _ _ _ _) => apply Rules.keeps_systemEmit; apply _
  | |- Rules.keeps _ (Runs.recordSubmissionRejected _ _ _ _ _ _) =>
      apply Rules.keeps_rejected; apply _
  | |- Rules.keeps _ (let _ := _ in _) => cbv zeta
  | |- Rules.keeps _ (match ?x with _ => _ end) => destruct x
  end.
Ltac keeps_tac := repeat keeps_step.

(** The structural part of a [logs] proof: an emission takes one event from the
    budget, everything else none. *)
Ltac logs_kind := first [exact I|reflexivity|assumption].
Ltac logs_step :=
  match goal with
  | |- Rules.logs _ _ _ (Store.inTx _) => apply Rules.logs_inTx
  | |- Rules.logs _ ?n _ (Store.emit _ _ _ _ ≫= _) =>
      apply (Rules.logs_bind _ 1 (n - 1)); [lia|lia| |intros ?]
  | |- Rules.logs _ ?n _ (Log.emitAs _ _ _ _ _ ≫= _) =>
      apply (Rules.logs_bind _ 1 (n - 1)); [lia|lia| |intros ?]
  | |- Rules.logs _ ?n _ (_ ≫= _) =>
      apply (Rules.logs_bind _ 0 n); [lia|lia| |intros ?]
  | |- Rules.logs _ _ _ (let _ := _ in _) => cbv zeta
  | |- Rules.logs _ _ _ (match ?x with _ => _ end) => destruct x
  | |- Rules.logs _ _ _ (Store.emit _ _ _ _) => apply Rules.logs_emit; [lia|logs_kind]
  | |- Rules.logs _ _ _ (Log.emitAs _ _ _ _ _) => apply Rules.logs_emitAs; [lia|logs_kind]
  | |- Rules.logs _ _ _ (Store.systemEmit _ _ _ _ _ _) => apply Rules.logs_systemEmit; [lia|logs_kind]
  | |- Rules.logs _ _ _ (Runs.recordSubmissionRejected _ _ _ _ _ _) =>
      apply Rules.logs_rejected; [lia|logs_kind]
  | |- Rules.logs _ _ _ (Store.ensure _ _) => apply Rules.logs_ensure; lia
  | |- Rules.logs _ _ _ (Store.some _ _) => apply Rules.logs_some; lia
  | |- Rules.logs _ _ _ (mret _) => apply Rules.logs_id; [lia|intros ?; reflexivity]
  | |- Rules.logs _ _ _ (Store.throw _) => apply Rules.logs_id; [lia|intros ?; reflexivity]
  | |- Rules.logs _ _ _ (Store.gets _) => apply Rules.logs_id; [lia|intros ?; reflexivity]
  | |- Rules.logs _ _ _ (Store.modify _) => apply Rules.logs_modify;
      [lia|intros ?; try unfold Vms.updateReservation; repeat case_match; split; reflexivity]
  end.
