(* ===== verification/Registry.v ===== *)
(** The store as one state machine: any sequence of its write operations, by any
    callers, with controller restarts in between. Each operation is a transaction
    on the single writer connection, so a sequence is what concurrency amounts to. *)

From S2P Require Import Prelude Events Store RunStore VmStore StoreRules.
Import Events Sql Store Log Runs Vms Rules.

Local Open Scope Z_scope.

Module Registry.

Inductive Op :=
  | OAppend (env : Envelope)
  | OCreateVM (inp : CreateVMInput)
  | OTransitionVM (inp : TransitionInput)
  | OUpdateOperation (u : OperationUpdate)
  | OInsertAction (inp : ActionOperationInput)
  | OCreateRun (inp : CreateRunInput)
  | OTransitionRun (inp : RunTransitionInput)
  | OProgress (run : string) (p : Submission) (max : Z)
  | OResult (quote : json → string) (run : string) (p : Submission) (max : Z)
  | OReport (run report digest : string) (op : Z)
  | OStatement (ambiguous : bool) (vm state : string) (data : object)
  | ORelease (vm : string)
  | OClearDebt (vm : string)
  | OReopen (inst : string)
  | OMember (inp : CreateVMInput)
  | OBatchOp (y : BatchOpInput)
  | OAborted (q : Z)
  | ONotice (k sensor : string) (ql : Quality) (data : object)
  | OReportOp (owner vm run : string).

Section exec.
Context (hash : Envelope → string).

(** The store an operation leaves, whatever it returns. [OMember] to [ONotice] are
    what the transactions on the other tables amount to here: a batch's admitted member,
    a batch's operation, a rollback that keeps the sequence numbers taken, and the
    event of a raised attention or a new annotation. *)
Definition exec (e : Env) (o : Op) (s : Store) : Store :=
  match o with
  | OAppend env => (Append hash e env s).2
  | OCreateVM inp => (CreateVMWithOperation hash e inp s).2
  | OTransitionVM inp => (TransitionVM hash e inp s).2
  | OUpdateOperation u => (UpdateOperation hash e u s).2
  | OInsertAction inp => (InsertActionOperation hash e inp s).2
  | OCreateRun inp => (CreateRun hash e inp s).2
  | OTransitionRun inp => (TransitionRun hash e inp s).2
  | OProgress run p max => (SubmitRunProgress hash e run p max s).2
  | OResult quote run p max => (SubmitRunResult hash quote e run p max s).2
  | OReport run report digest op => (PutRunReport e run report digest op s).2
  | OStatement ambiguous vm state data =>
    (recordVMStatement hash e
       (if ambiguous then "vm.reconcile_ambiguous" else "vm.cleanup_failed")
       vm state data s).2
  | ORelease vm => (ReleaseVMReservations e vm s).2
  | OClearDebt vm => (ClearCleanupDebt vm s).2
  | OReopen inst => Open inst (db s)
  | OMember inp => (inTx (createGranted hash e inp) s).2
  | OBatchOp y => (inTx (recordBatchOp hash e y) s).2
  | OAborted q => mkStore (instanceID s) q (db s)
  | ONotice k sensor ql data => (inTx (systemEmit hash e k sensor ql data) s).2
  | OReportOp owner vm run => (InsertReportOperation hash e owner vm run s).2
  end.

(** The kinds that carry the registry's state, and those only the store writes:
    producers do not send them. *)
Definition registryKind (k : string) : bool :=
  (k =? "vm.created")%string || (k =? "vm.state_changed")%string.
Definition storeKind (k : string) : bool :=
  registryKind k || (k =? "run.progress")%string || (k =? "run.result_recorded")%string.

(** What callers do: a producer uses an instance id of its own and leaves the
    registry's kinds alone, and a new controller process takes a fresh id. *)
Definition legal (o : Op) (s : Store) : Prop :=
  match o with
  | OAppend env => SourceInstanceID env ≠ instanceID s ∧ storeKind (Kind env) = false
  | OReopen inst => UUIDString inst = true ∧ inst ∉ s_source <$> streams (db s)
  | OAborted q => systemSeq s ≤ q ≤ Int.MaxInt64
  | ONotice k _ _ _ => storeKind k = false
  | _ => True
  end.

(** One operation, with the environment it reads: the clock is past the zero
    time and neither 64-bit counter is within four of its end. *)
Inductive step : Store → Op → Store → Prop :=
  | step_op e o s : ready 4 e s → legal o s → step s o (exec e o s).

Inductive steps : Store → list Op → Store → Prop :=
  | steps_nil s : steps s [] s
  | steps_cons s o s1 os s2 : step s o s1 → steps s1 os s2 → steps s (o :: os) s2.

Lemma steps_app s os1 os2 s2 :
  steps s (os1 ++ os2) s2 ↔ ∃ s1, steps s os1 s1 ∧ steps s1 os2 s2.
Proof.
  revert s. induction os1 as [|o os1 IH]; intros s; simpl; split.
  - eauto using steps.
  - intros (s1 & H1 & H2). by inversion H1; subst.
  - intros H. inversion H as [|? ? s1 ? ? Hs Hr]; subst.
    apply IH in Hr as (s3 & ? & ?). eauto using steps.
  - intros (s1 & H1 & H2). inversion H1; subst. econstructor; [done|]. apply IH. eauto.
Qed.

(** * The log under every operation *)

Definition otherKind (k : string) : Prop := registryKind k = false.
Definition kindIn (l : list string) (k : string) : Prop := existsb (String.eqb k) l = true.

(** The kinds of the events an operation can write. *)
Definition opKinds (o : Op) : list string :=
  match o with
  | OAppend env => [Kind env; "telemetry.unregistered_kind"; "telemetry.integrity_failure"]
  | OCreateVM _ | OMember _ => ["vm.created"; "operation.state_changed"; "run.created"]
  | OTransitionVM _ => ["vm.state_changed"; "vm.deleted"]
  | OUpdateOperation _ | OInsertAction _ | OBatchOp _ | OReportOp _ _ _ => ["operation.state_changed"]
  | OCreateRun _ => ["run.created"]
  | OTransitionRun _ => ["run.state_changed"]
  | OProgress _ _ _ => ["run.progress"; "run.submission_rejected"]
  | OResult _ _ _ _ => ["run.result_recorded"; "run.submission_rejected"]
  | OStatement _ _ _ _ => ["vm.reconcile_ambiguous"; "vm.cleanup_failed"]
  | OReport _ _ _ _ | ORelease _ | OClearDebt _ | OReopen _ | OAborted _ => []
  | ONotice k _ _ _ => [k]
  end.

Definition quietOp (o : Op) : bool :=
  match o with OCreateVM _ | OTransitionVM _ | OMember _ => false | _ => true end.

Lemma logs_lookupRun n K owner key rh : 0 ≤ n →
  logs hash n K (lookupRunByIdempotencyKey owner key rh).
Proof.
  intros Hn. apply logs_id; [done|]. intros s.
  unfold lookupRunByIdempotencyKey, GetRun, mbind, M_bind, gets, ensure, some, mret, M_ret, throw.
  repeat case_match; simplify_eq; done.
Qed.

Lemma logs_insertRun n K mk : 0 ≤ n → logs hash n K (insertRun mk).
Proof. intros Hn. unfold insertRun. repeat logs_step. Qed.

Lemma logs_createRunInTx n (K : string → Prop) e inp :
  1 ≤ n → K "run.created" → logs hash n K (createRunInTx hash e inp).
Proof.
  intros Hn HK. unfold createRunInTx. logs_step; [by apply logs_emit|].
  logs_step; [apply logs_insertRun; lia|]. unfold bumpVM. logs_step.
Qed.

Lemma logs_CreateRun e inp : logs hash 4 (kindIn (opKinds (OCreateRun inp))) (CreateRun hash e inp).
Proof.
  unfold CreateRun, scanRunInTx, bumpVM. repeat first [apply logs_lookupRun; lia|apply logs_insertRun; lia|logs_step].
Qed.

Lemma logs_TransitionRun e inp : logs hash 4 (kindIn (opKinds (OTransitionRun inp))) (TransitionRun hash e inp).
Proof. unfold TransitionRun, scanRunInTx, bumpVM. repeat logs_step. Qed.

Lemma logs_Progress e run p max : logs hash 4 (kindIn (opKinds (OProgress run p max))) (SubmitRunProgress hash e run p max).
Proof. unfold SubmitRunProgress, GetRun, bumpVM. repeat logs_step. Qed.

Lemma logs_Result quote e run p max :
  logs hash 4 (kindIn (opKinds (OResult quote run p max))) (SubmitRunResult hash quote e run p max).
Proof. unfold SubmitRunResult, GetRun, scanRunInTx, bumpVM. repeat logs_step. Qed.

Lemma logs_Report e run rep dig op : logs hash 4 (kindIn (opKinds (OReport run rep dig op))) (PutRunReport e run rep dig op).
Proof. unfold PutRunReport. repeat logs_step. Qed.

Lemma logs_UpdateOperation e u : logs hash 4 (kindIn (opKinds (OUpdateOperation u))) (UpdateOperation hash e u).
Proof. unfold UpdateOperation, scanOperationInTx. repeat logs_step. Qed.

Lemma logs_insertOperation n K mk : 0 ≤ n → logs hash n K (insertOperation mk).
Proof. intros. unfold insertOperation. repeat logs_step. Qed.

Lemma logs_InsertAction e inp : logs hash 4 (kindIn (opKinds (OInsertAction inp))) (InsertActionOperation hash e inp).
Proof.
  unfold InsertActionOperation. repeat first [apply logs_insertOperation; lia|logs_step].
Qed.

Lemma logs_statement e (amb : bool) vm state data :
  logs hash 4 (kindIn (opKinds (OStatement amb vm state data))) (recordVMStatement hash e
    (if amb then "vm.reconcile_ambiguous" else "vm.cleanup_failed") vm state data).
Proof. unfold recordVMStatement. destruct amb; repeat logs_step. Qed.

Lemma logs_TransitionVM e inp : logs hash 4 (kindIn (opKinds (OTransitionVM inp))) (TransitionVM hash e inp).
Proof.
  unfold TransitionVM, acquireCompute, reservationTotalsInTx, scanVMInTx, bumpVM.
  destruct (nTo inp =? "deleted")%string; repeat logs_step.
Qed.

Lemma logs_lookup n K owner kd key rh : 0 ≤ n →
  logs hash n K (lookupByIdempotencyKey owner kd key rh).
Proof.
  intros Hn. unfold lookupByIdempotencyKey, GetOperation, GetVM. repeat logs_step.
Qed.

Lemma logs_replay n K owner kd key rh : 0 ≤ n →
  logs hash n K (replayInTx owner kd key rh).
Proof.
  intros Hn. unfold replayInTx, GetOperation, GetVM. repeat logs_step.
Qed.

Lemma logs_createRefused e inp r :
  logs hash 4 (kindIn ["operation.state_changed"]) (createRefused hash e inp r).
Proof.
  unfold createRefused, scanOperationInTx.
  repeat first [apply logs_insertOperation; lia|logs_step].
Qed.

Lemma logs_createGranted e inp : logs hash 4 (kindIn (opKinds (OCreateVM inp))) (createGranted hash e inp).
Proof.
  unfold createGranted. destruct (iRun inp) as [a|].
  all: unfold insertVM, insertReservation, scanVMInTx, scanOperationInTx, bumpVM.
  all: repeat (match goal with
    | |- logs _ _ _ (insertOperation _) => apply logs_insertOperation; lia
    | |- logs _ ?n _ (createRunInTx _ _ _ ≫= _) =>
        apply (logs_bind _ 1 (n - 1)); [lia|lia| |intros ?]
    | |- logs _ _ _ (createRunInTx _ _ _) => apply logs_createRunInTx; [lia|done]
    | _ => logs_step end).
Qed.

Lemma logs_CreateVM e inp : logs hash 4 (kindIn (opKinds (OCreateVM inp))) (CreateVMWithOperation hash e inp).
Proof.
  unfold CreateVMWithOperation, createInTx, reservationTotalsInTx.
  repeat (match goal with
    | |- logs _ _ _ (lookupByIdempotencyKey _ _ _ _) => apply logs_lookup; lia
    | |- logs _ _ _ (replayInTx _ _ _ _) => apply logs_replay; lia
    | |- logs _ _ _ (createGranted _ _ _) => apply logs_createGranted
    | |- logs _ _ _ (createRefused _ _ _ _) =>
        intros ? ? ? E ? ?; apply logs_createRefused in E; destruct (E ltac:(done) ltac:(done))
          as [? ? ? (tl & ? & HK)]; split; [done..|]; exists tl; split; [done|];
          eapply Forall_impl; [exact HK|]; intros x Hx; cbv beta in *;
          unfold kindIn in *; cbn in *; by rewrite orb_false_r in Hx; rewrite Hx, orb_true_r
    | _ => logs_step end).
Qed.

Lemma logs_Member e inp :
  logs hash 4 (kindIn (opKinds (OMember inp))) (inTx (createGranted hash e inp)).
Proof. apply logs_inTx, (logs_createGranted e inp). Qed.

Lemma logs_BatchOp e y :
  logs hash 4 (kindIn (opKinds (OBatchOp y))) (inTx (recordBatchOp hash e y)).
Proof.
  unfold recordBatchOp, scanOperationInTx.
  repeat first [apply logs_insertOperation; lia|logs_step].
Qed.

Lemma logs_ReportOp e owner vm run :
  logs hash 4 (kindIn (opKinds (OReportOp owner vm run))) (InsertReportOperation hash e owner vm run).
Proof.
  unfold InsertReportOperation. repeat first [apply logs_insertOperation; lia|logs_step].
Qed.

Lemma logs_Notice e k sensor ql data :
  logs hash 4 (kindIn (opKinds (ONotice k sensor ql data)))
    (inTx (systemEmit hash e k sensor ql data)).
Proof.
  apply logs_inTx, logs_systemEmit; [lia|]. unfold kindIn. cbn. by rewrite String.eqb_refl.
Qed.

Lemma logs_release e vm : logs hash 4 (kindIn (opKinds (ORelease vm))) (ReleaseVMReservations e vm).
Proof. unfold ReleaseVMReservations. repeat logs_step. Qed.

Lemma logs_clear vm : logs hash 4 (kindIn (opKinds (OClearDebt vm))) (ClearCleanupDebt vm).
Proof. unfold ClearCleanupDebt. repeat logs_step. Qed.

(** What a step adds to the log. *)
Definition grows (K : string → Prop) (s s' : Store) : Prop :=
  ∃ tl, rows (events (db s')) = rows (events (db s)) ++ tl ∧ Forall (λ r, K (kind r)) tl.

Lemma grows_events K s s' : events (db s') = events (db s) → grows K s s'.
Proof. intros E. exists []. by rewrite E, app_nil_r. Qed.

Lemma grows_recorded (K : string → Prop) e env s q :
  K (Kind env) → grows K s (mkStore (instanceID s) q (recorded hash e env (db s))).
Proof.
  intros HK. eexists [_]. cbn [db]. rewrite events_recorded. split; [done|].
  by repeat constructor.
Qed.

Lemma grows_weaken (K K' : string → Prop) s s' :
  grows K s s' → (∀ k, K k → K' k) → grows K' s s'.
Proof.
  intros (tl & E & H) HK. exists tl. split; [done|]. eapply Forall_impl; [exact H|]. auto.
Qed.

Lemma kindIn_other l k :
  forallb (λ k, negb (registryKind k)) l = true → kindIn l k → otherKind k.
Proof.
  rewrite forallb_forall. unfold kindIn. rewrite existsb_exists.
  intros H (x & Hx & ->%String.eqb_eq). by apply negb_true_iff, H.
Qed.

Lemma quiet_kinds o s k : quietOp o = true → legal o s → kindIn (opKinds o) k → otherKind k.
Proof.
  intros Hq Hl. apply kindIn_other.
  destruct o; try done; cbn in Hl; [destruct Hl as [_ Hs]|rename Hl into Hs];
    unfold storeKind in Hs; apply orb_false_iff in Hs as [[Hs _]%orb_false_iff _];
    cbn [opKinds forallb]; by rewrite Hs.
Qed.

Lemma Append_grows e env s :
  log_ok hash s → ready 1 e s → SourceInstanceID env ≠ instanceID s →
  log_ok hash (Append hash e env s).2 ∧
  grows (kindIn (opKinds (OAppend env))) s (Append hash e env s).2.
Proof.
  intros Hl Hr Hne. rewrite Append_ingest by done.
  destruct (ingest hash e env s) as [r s'] eqn:E. cbn [snd]. split; [by eapply ingest_ok|].
  unfold ingest in E. destruct (verdict hash env (db s)); simplify_eq;
    try by apply grows_events.
  all: apply grows_recorded; unfold kindIn; cbn [opKinds existsb];
    rewrite ?String.eqb_refl, ?orb_true_r; reflexivity.
Qed.

Lemma ready_le n n' e s : n ≤ n' → ready n' e s → ready n e s.
Proof. intros ? (? & ? & ? & ?). split_and!; try done; lia. Qed.

Lemma logs_step_grows {A} n K (m : M A) s :
  logs hash n K m → log_ok hash s → systemSeq s + n ≤ Int.MaxInt64 →
  log_ok hash (m s).2 ∧ grows K s (m s).2.
Proof.
  intros Hm Hl Hq. destruct (m s) as [r s'] eqn:E.
  destruct (Hm _ _ _ E Hl Hq). done.
Qed.

Lemma log_ok_reopen inst s :
  log_ok hash s → inst ∉ s_source <$> streams (db s) → log_ok hash (Open inst (db s)).
Proof.
  intros [] Hi. constructor; cbn [db instanceID systemSeq Open]; try done.
  - intros r Hr Hs. destruct (lo_scope0 r Hr) as (b & Hb & Hbs & _).
    destruct Hi. rewrite <- Hs, <- Hbs. by apply list_elem_of_fmap_2.
  - intros b Hb Hs. destruct Hi. rewrite <- Hs. by apply list_elem_of_fmap_2.
Qed.

Lemma step_log s o s' :
  step s o s' → log_ok hash s →
  log_ok hash s' ∧ grows (kindIn (opKinds o)) s s'.
Proof.
  intros [e o' s0 Hr Hlg] Hl. clear s s'.
  assert (Hq : systemSeq s0 + 4 ≤ Int.MaxInt64) by apply Hr.
  destruct o'; cbn [exec];
    try (eapply logs_step_grows; [|done|exact Hq];
      solve [eauto using logs_CreateVM, logs_TransitionVM, logs_UpdateOperation,
      logs_InsertAction, logs_CreateRun, logs_TransitionRun, logs_Progress, logs_Result,
      logs_Report, logs_statement, logs_release, logs_clear, logs_Member, logs_BatchOp, logs_Notice,
      logs_ReportOp]).
  - destruct Hlg. apply Append_grows; try done. by eapply ready_le; [|exact Hr].
  - destruct Hlg. split; [by apply log_ok_reopen|by apply grows_events].
  - split; [by apply log_ok_seq|by apply grows_events].
Qed.

Lemma steps_log s os s' :
  steps s os s' → log_ok hash s →
  log_ok hash s' ∧ grows (λ _, True) s s'.
Proof.
  induction 1 as [s|s o s1 os s2 Hs _ IH]; intros Hl.
  - split; [done|by apply grows_events].
  - destruct (step_log _ _ _ Hs Hl) as [Hl1 (t1 & E1 & _)].
    destruct (IH Hl1) as [Hl2 (t2 & E2 & _)]. split; [done|].
    exists (t1 ++ t2). rewrite E2, E1, app_assoc. split; [done|]. by apply Forall_true.
Qed.

(** * Transitions as a function of what they read *)

Definition on (f : DB → DB) (s : Store) : Store :=
  mkStore (instanceID s) (systemSeq s) (f (db s)).

(** The guards of a transition, in the code's order: the row it may move, or the
    error of the first guard that fails. *)
Definition transitionCheck (inp : TransitionInput) (d : DB) : result StoreErr VM :=
  match select1 (byVMID (nVMID inp)) (rows (vms d)) with
  | None => Err ErrVMUnknown
  | Some cur =>
    if negb (match nExpectedRevision inp with Some x => x =? vRevision cur | None => true end)
    then Err (RevisionMismatch (vRevision cur))
    else if negb (match nFrom inp with
                  | Some f => (f =? vObservedState cur)%string | None => true end)
    then Err (InvalidTransition (vObservedState cur) (nTo inp))
    else if negb (transitionAllowed (vObservedState cur) (nTo inp))
    then Err (InvalidTransition (vObservedState cur) (nTo inp))
    else if nAcquireCompute inp then
      match nAdmit inp with
      | None => Err ErrAdmitMissing
      | Some adm =>
        match reservationTotals (reservations d) with
        | None => Err ErrSumOverflow
        | Some t => match adm t with Some err => Err (ErrAdmission err) | None => Ok cur end
        end
      end
    else Ok cur
  end.

(** The tables after the updates of the row, the cleanup debt and the
    reservation. *)
Definition movedTables (e : Env) (inp : TransitionInput) (cur : VM) (d : DB) : DB :=
  updateReservation e inp
    ((if (nTo inp =? "stopped")%string then id
      else set_cleanup_debt (delete (λ v, v =? nVMID inp)%string))
       (set_vms (on_rows (update (byVMID (nVMID inp)) (movedVM e inp cur))) d)).

Definition bumped (vm : string) (id : Z) : DB → DB :=
  set_vms (on_rows (update (λ v, vVMID v =? vm)%string (setVMLastEvent id))).

Definition deletedData (inp : TransitionInput) : object :=
  [("vm_id", JStr (nVMID inp)); ("operation_id", JStr (FormatOperationID (nOperationID inp)))].

Definition moved (e : Env) (inp : TransitionInput) (cur : VM) (s : Store) : Store :=
  let s1 := on (movedTables e inp cur) s in
  let s2 := emitted hash HostObserved e "vm.state_changed" (stateData inp cur) s1 in
  let s3 := on (bumped (nVMID inp) (seq (events (db s)) + 1)) s2 in
  if (nTo inp =? "deleted")%string
  then emitted hash HostObserved e "vm.deleted" (deletedData inp) s3 else s3.

Definition movedRow (e : Env) (inp : TransitionInput) (cur : VM) (s : Store) : VM :=
  setVMLastEvent (seq (events (db s)) + 1) (movedVM e inp cur cur).

Lemma movedTables_log e inp cur d :
  events (movedTables e inp cur d) = events d ∧ streams (movedTables e inp cur d) = streams d.
Proof. unfold movedTables, updateReservation. repeat case_match; done. Qed.

Lemma vms_movedTables e inp cur d :
  vms (movedTables e inp cur d) =
  on_rows (update (byVMID (nVMID inp)) (movedVM e inp cur)) (vms d).
Proof. unfold movedTables, updateReservation. repeat case_match; done. Qed.

Lemma vms_recorded e env d : vms (recorded hash e env d) = vms d.
Proof. unfold recorded, bindStream. by destruct (boundStream env d). Qed.

Lemma vms_emitted p e k data s : vms (db (emitted hash p e k data s)) = vms (db s).
Proof. apply vms_recorded. Qed.

Lemma seq_emitted p e k data s :
  seq (events (db (emitted hash p e k data s))) = seq (events (db s)) + 1.
Proof. cbn [db emitted]. by rewrite events_recorded. Qed.

Lemma vms_moved e inp cur s :
  vms (db (moved e inp cur s)) =
  on_rows (update (byVMID (nVMID inp)) (setVMLastEvent (seq (events (db s)) + 1)))
    (on_rows (update (byVMID (nVMID inp)) (movedVM e inp cur)) (vms (db s))).
Proof.
  unfold moved. cbv zeta. case_match; rewrite ?vms_emitted; cbn [db on bumped set_vms vms];
    by rewrite vms_emitted; cbn [db on]; rewrite vms_movedTables.
Qed.

Lemma byVMID_moved vm e inp cur v : byVMID vm (movedVM e inp cur v) = byVMID vm v.
Proof. done. Qed.

Lemma select1_moved e inp cur s :
  select1 (byVMID (nVMID inp)) (rows (vms (db s))) = Some cur →
  select1 (byVMID (nVMID inp)) (rows (vms (db (moved e inp cur s)))) =
  Some (movedRow e inp cur s).
Proof.
  intros Hc. rewrite vms_moved. unfold on_rows. cbn [rows].
  rewrite !select1_update, Hc by done. cbn.
  pose proof (select1_Some _ _ _ Hc) as [_ Hk]. by rewrite Hk, byVMID_moved, Hk.
Qed.

Lemma ready_on n e f s :
  events (f (db s)) = events (db s) → ready n e s → ready n e (on f s).
Proof. intros E (? & ? & ? & ?). unfold ready, on. cbn. by rewrite E. Qed.

Lemma ready_emitted n p e e' k data s :
  ready (n + 1) e s → ready n e (emitted hash p e' k data s).
Proof.
  intros (? & ? & ? & ?). unfold ready. rewrite seq_emitted. cbn. split_and!; try done; lia.
Qed.

Lemma log_ok_on f s :
  events (f (db s)) = events (db s) → streams (f (db s)) = streams (db s) →
  log_ok hash s → log_ok hash (on f s).
Proof. intros. by apply log_ok_frame. Qed.

Lemma log_ok_emitted p e k data s :
  log_ok hash s → ready 1 e s → kindOk k = true → knownProvenance p = true →
  log_ok hash (emitted hash p e k data s).
Proof.
  intros Hl (? & ? & ? & ?) ? ?. pose proof Hl as []. apply log_ok_own; try done; try lia.
  apply Validate_store. split_and!; done || lia.
Qed.

(** An emission in the middle of a transaction, when its kind is well formed. *)
Lemma emit_total e k data s :
  log_ok hash s → ready 1 e s → kindOk k = true →
  emit hash e k data s = (Ok (seq (events (db s)) + 1), emitted hash HostObserved e k data s).
Proof. intros. by apply emitAs_total. Qed.

Lemma modify_eq f s : modify f s = (Ok tt, on f s).
Proof. done. Qed.

Lemma gets_bind {A B} (f : DB → A) (k : A → M B) s : (gets f ≫= k) s = k (f (db s)) s.
Proof. done. Qed.
Lemma ensure_bind {B} b e (k : unit → M B) s :
  (ensure b e ≫= k) s = if b then k tt s else (Err e, s).
Proof. by destruct b. Qed.
Lemma some_bind {A B} (o : option A) e (k : A → M B) s :
  (some o e ≫= k) s = match o with Some a => k a s | None => (Err e, s) end.
Proof. by destruct o. Qed.
Lemma modify_bind {B} f (k : unit → M B) s : (modify f ≫= k) s = k tt (on f s).
Proof. done. Qed.
Lemma ret_bind {A B} (a : A) (k : A → M B) s : ((mret a : M A) ≫= k) s = k a s.
Proof. done. Qed.
Lemma emit_bind {B} e kd data (k : Z → M B) s :
  log_ok hash s → ready 1 e s → kindOk kd = true →
  (emit hash e kd data ≫= k) s =
  k (seq (events (db s)) + 1) (emitted hash HostObserved e kd data s).
Proof. intros. by erewrite bind_eq by by apply emit_total. Qed.

Lemma gets_some_bind {A B} (f : DB → option A) e (k : A → M B) s :
  ((o ← gets f; some o e) ≫= k) s =
  match f (db s) with Some a => k a s | None => (Err e, s) end.
Proof. unfold mbind, M_bind, gets, some, mret, M_ret, throw. by destruct (f (db s)). Qed.

Lemma on_id s : on id s = s.
Proof. by destruct s. Qed.

Lemma if_modify_bind {B} (b : bool) f (k : unit → M B) s :
  ((if b then mret () else modify f) ≫= k) s = k tt (on (if b then id else f) s).
Proof. destruct b; [by rewrite on_id|done]. Qed.

(** The writes of a transition whose guards hold. *)
Lemma transition_tail e inp cur s :
  log_ok hash s → ready 2 e s →
  select1 (byVMID (nVMID inp)) (rows (vms (db s))) = Some cur →
  (_ ← modify (set_vms (on_rows (update (byVMID (nVMID inp)) (movedVM e inp cur))));
   _ ← (if (nTo inp =? "stopped")%string then mret ()
        else modify (set_cleanup_debt (delete (λ v, v =? nVMID inp)%string)));
   _ ← modify (updateReservation e inp);
   changed ← emit hash e "vm.state_changed" (stateData inp cur);
   _ ← bumpVM (nVMID inp) changed;
   _ ← (if (nTo inp =? "deleted")%string
        then emit hash e "vm.deleted" (deletedData inp) else mret 0);
   scanVMInTx (nVMID inp)) s = (Ok (movedRow e inp cur s), moved e inp cur s).
Proof.
  intros Hl Hr Hc. rewrite modify_bind, if_modify_bind, modify_bind.
  change (on _ (on _ (on _ s))) with (on (movedTables e inp cur) s).
  destruct (movedTables_log e inp cur (db s)) as [He Hs].
  assert (Hl1 : log_ok hash (on (movedTables e inp cur) s)) by by apply log_ok_on.
  assert (Hr1 : ready 2 e (on (movedTables e inp cur) s)) by by apply ready_on.
  rewrite emit_bind by (done || by eapply ready_le; [|exact Hr1]).
  unfold bumpVM. rewrite modify_bind.
  change (seq (events (db (on (movedTables e inp cur) s))))
    with (seq (events (movedTables e inp cur (db s)))). rewrite He.
  pose proof (select1_moved e inp cur s Hc) as Hm. unfold moved in Hm |- *. cbv zeta in Hm |- *.
  change (set_vms (on_rows (update (λ v, (vVMID v =? nVMID inp)%string)
    (setVMLastEvent (seq (events (db s)) + 1)))))
    with (bumped (nVMID inp) (seq (events (db s)) + 1)).
  destruct (nTo inp =? "deleted")%string.
  - rewrite emit_bind; [| |by apply ready_on, ready_emitted|done].
    + unfold scanVMInTx. by rewrite gets_bind, Hm.
    + apply log_ok_on; [done..|]. apply log_ok_emitted; try done.
      by eapply ready_le; [|exact Hr1].
  - rewrite ret_bind. unfold scanVMInTx. by rewrite gets_bind, Hm.
Qed.

Lemma TransitionVM_eq e inp s :
  log_ok hash s → ready 2 e s →
  TransitionVM hash e inp s =
  match transitionCheck inp (db s) with
  | Err err => (Err err, s)
  | Ok cur => (Ok (movedRow e inp cur s), moved e inp cur s)
  end.
Proof.
  intros Hl Hr. unfold TransitionVM, inTx, transitionCheck.
  rewrite gets_bind, some_bind.
  destruct (select1 _ (rows (vms (db s)))) as [cur|] eqn:Hc; [|by destruct s].
  rewrite ensure_bind. destruct (match nExpectedRevision inp with
    | Some x => x =? vRevision cur | None => true end); [|by destruct s]. cbn [negb].
  rewrite ensure_bind. destruct (match nFrom inp with
    | Some f => (f =? vObservedState cur)%string | None => true end); [|by destruct s]. cbn [negb].
  rewrite ensure_bind. destruct (transitionAllowed _ _); [|by destruct s]. cbn [negb].
  assert (Ha : acquireCompute inp s =
    match (if nAcquireCompute inp then
      match nAdmit inp with
      | None => Err ErrAdmitMissing
      | Some adm =>
        match reservationTotals (reservations (db s)) with
        | None => Err ErrSumOverflow
        | Some t => match adm t with Some err => Err (ErrAdmission err) | None => Ok cur end
        end
      end else Ok cur) with Err err => (Err err, s) | Ok _ => (Ok tt, s) end).
  { unfold acquireCompute, reservationTotalsInTx, mbind, M_bind, gets, some, mret, M_ret, throw.
    repeat case_match; simplify_eq; done. }
  destruct (if nAcquireCompute inp then _ else _) as [cur'|err] eqn:Hg; cycle 1.
  { unfold mbind at 1, M_bind at 1. rewrite Ha. by destruct s. }
  assert (cur' = cur) as -> by (repeat case_match; simplify_eq; done).
  rewrite (bind_eq _ _ _ _ _ Ha). by rewrite transition_tail.
Qed.

(** * Creation as a function of what it reads *)

Definition attached (inp : CreateVMInput) (a : RunAttachment) : CreateRunInput :=
  mkCreateRun (iVMID inp) (iOwner inp) (aGoal a) (aCriteriaType a) (aOnCompletion a)
    (aProgressEvents a) None "" "pending".

(** The three rows of an admitted VM. *)
Definition grantedTables (e : Env) (inp : CreateVMInput) (d : DB) : DB :=
  let vid := seq (vms d) + 1 in
  let oid := seq (operations d) + 1 in
  set_reservations (λ t, t ++ [newReservation e inp])
    (set_operations (insertRow oid (admittedOp e inp oid))
       (set_vms (insertRow vid (newVM e inp vid)) d)).

Definition ranRun (e : Env) (inp : CreateRunInput) (s : Store) : Store :=
  let ev := seq (events (db s)) + 1 in
  let s1 := emitted hash HostObserved e "run.created" (runCreatedData (newUUID e) inp) s in
  let rid := seq (runs (db s)) + 1 in
  on (bumped (cVMID inp) ev)
    (on (set_runs (insertRow rid (newRun e inp None "" "" ev rid))) s1).

Definition granted (e : Env) (inp : CreateVMInput) (s : Store) : Store :=
  let op := seq (operations (db s)) + 1 in
  let s1 := on (grantedTables e inp) s in
  let s2 := emitted hash HostObserved e "vm.created" (vmCreatedData inp op) s1 in
  let s3 := on (bumped (iVMID inp) (seq (events (db s)) + 1)) s2 in
  let s4 := emitted hash HostObserved e "operation.state_changed"
              (opData op (iKind inp) (iVMID inp) "admitted" "running") s3 in
  match iRun inp with None => s4 | Some a => ranRun e (attached inp a) s4 end.

Definition refused (e : Env) (inp : CreateVMInput) (r : AdmissionRefusal) (s : Store) : Store :=
  let op := seq (operations (db s)) + 1 in
  emitted hash HostObserved e "operation.state_changed" (refusalData inp r op)
    (on (set_operations (insertRow op (refusedOp e inp r op))) s).

Lemma nextID_Some {A} (t : table A) id : nextID t = Some id → id = seq t + 1.
Proof. unfold nextID. case_match; naive_solver. Qed.

Lemma insertOperation_Ok mk s id s' :
  insertOperation mk s = (Ok id, s') →
  id = seq (operations (db s)) + 1 ∧ s' = on (set_operations (insertRow id (mk id))) s ∧
  (∀ k, oIdempotencyKey (mk id) = Some k →
    select1 (opKey (oOwner (mk id)) (oKind (mk id)) k) (rows (operations (db s))) = None).
Proof.
  unfold insertOperation. intros H. m_inv.
  match goal with H : nextID _ = Some _ |- _ => apply nextID_Some in H; subst end.
  split_and!; [done..|]. intros k Hk. apply exists_select1, negb_true_iff.
  by match goal with H : negb _ = true |- _ => rewrite Hk in H end.
Qed.

Lemma insertVM_Ok mk s u s' :
  insertVM mk s = (Ok u, s') →
  let id := seq (vms (db s)) + 1 in
  s' = on (set_vms (insertRow id (mk id))) s ∧
  select1 (byVMID (vVMID (mk id))) (rows (vms (db s))) = None.
Proof.
  unfold insertVM. intros H. m_inv.
  match goal with H : nextID _ = Some _ |- _ => apply nextID_Some in H; subst end.
  split; [done|]. by apply exists_select1, negb_true_iff.
Qed.

Lemma insertReservation_Ok r s u s' :
  insertReservation r s = (Ok u, s') →
  s' = on (set_reservations (λ t, t ++ [r])) s ∧
  select1 (byReservation (rVMID r)) (reservations (db s)) = None.
Proof.
  unfold insertReservation. intros H. m_inv.
  split; [done|]. by apply exists_select1, negb_true_iff.
Qed.

Lemma insertRun_Ok mk s u s' :
  insertRun mk s = (Ok u, s') →
  let id := seq (runs (db s)) + 1 in
  s' = on (set_runs (insertRow id (mk id))) s ∧
  (activePhase (uPhase (mk id)) = true → select1 (λ r',
     (uVMID r' =? uVMID (mk id))%string && activePhase (uPhase r')) (rows (runs (db s))) = None) ∧
  select1 (byRunID (uRunID (mk id))) (rows (runs (db s))) = None ∧
  (∀ k, uIdempotencyKey (mk id) = Some k →
    select1 (runKey (uOwner (mk id)) k) (rows (runs (db s))) = None).
Proof.
  unfold insertRun. intros H. m_inv. cbv zeta in *. m_inv.
  match goal with H : nextID _ = Some _ |- _ => apply nextID_Some in H; subst end.
  rewrite negb_true_iff in *. split_and!; [done|..].
  - intros Ha. rewrite Ha in *. by apply exists_select1.
  - by apply exists_select1.
  - intros k Hk. rewrite Hk in *. by apply exists_select1.
Qed.

Lemma emit_Ok e k data s id s' :
  log_ok hash s → ready 1 e s → kindOk k = true → emit hash e k data s = (Ok id, s') →
  id = seq (events (db s)) + 1 ∧ s' = emitted hash HostObserved e k data s.
Proof. intros Hl Hr Hk. rewrite emit_total by done. by intros [= <- <-]. Qed.

Lemma runs_emitted p e k data s : runs (db (emitted hash p e k data s)) = runs (db s).
Proof. cbn [db emitted]. unfold recorded, bindStream. by destruct (boundStream _ _). Qed.
Lemma operations_emitted p e k data s :
  operations (db (emitted hash p e k data s)) = operations (db s).
Proof. cbn [db emitted]. unfold recorded, bindStream. by destruct (boundStream _ _). Qed.
Lemma reservations_emitted p e k data s :
  reservations (db (emitted hash p e k data s)) = reservations (db s).
Proof. cbn [db emitted]. unfold recorded, bindStream. by destruct (boundStream _ _). Qed.

Lemma createRunInTx_Ok e inp s u s' :
  log_ok hash s → ready 1 e s → createRunInTx hash e inp s = (Ok u, s') →
  s' = ranRun e inp s ∧
  (activePhase (cInitialPhase inp) = true → select1 (λ r',
     (uVMID r' =? cVMID inp)%string && activePhase (uPhase r')) (rows (runs (db s))) = None) ∧
  select1 (byRunID (newUUID e)) (rows (runs (db s))) = None.
Proof.
  intros Hl Hr H. unfold createRunInTx in H. rewrite emit_bind in H by done.
  apply bind_Ok in H as (? & s1 & Hi & Hb). apply insertRun_Ok in Hi as (-> & Ha & Hid & _).
  unfold bumpVM in Hb. rewrite modify_eq in Hb. simplify_eq.
  cbn [uPhase uVMID uRunID newRun] in *. rewrite runs_emitted in *. split_and!; [|done..].
  unfold ranRun. cbv zeta. by rewrite ?runs_emitted.
Qed.

Lemma grantedTables_log e inp d :
  events (grantedTables e inp d) = events d ∧ streams (grantedTables e inp d) = streams d.
Proof. done. Qed.

Lemma createRefused_Ok e inp r s out s' :
  log_ok hash s → ready 1 e s → createRefused hash e inp r s = (Ok out, s') →
  ∃ o, out = RefusedNow o r ∧ s' = refused e inp r s ∧
    select1 (byOperationID (seq (operations (db s)) + 1))
      (rows (operations (db s'))) = Some o ∧
    (∀ k, iIdempotencyKey inp = Some k →
      select1 (opKey (iOwner inp) (iKind inp) k) (rows (operations (db s))) = None).
Proof.
  intros Hl Hr H. unfold createRefused in H. apply bind_Ok in H as (op & s1 & Hi & H).
  apply insertOperation_Ok in Hi as (-> & -> & Hk). cbn [oIdempotencyKey oOwner oKind refusedOp] in Hk.
  rewrite emit_bind in H; [|by apply log_ok_on|by apply ready_on|done].
  unfold scanOperationInTx in H. m_inv. eexists. by split_and!.
Qed.

Lemma createGranted_Ok e inp s out s' :
  log_ok hash s → ready 4 e s → createGranted hash e inp s = (Ok out, s') →
  ∃ v o, out = Created v o ∧ s' = granted e inp s ∧
    select1 (byVMID (iVMID inp)) (rows (vms (db s'))) = Some v ∧
    select1 (byOperationID (seq (operations (db s)) + 1)) (rows (operations (db s'))) = Some o ∧
    select1 (byVMID (iVMID inp)) (rows (vms (db s))) = None ∧
    select1 (byReservation (iVMID inp)) (reservations (db s)) = None ∧
    (∀ k, iIdempotencyKey inp = Some k →
      select1 (opKey (iOwner inp) (iKind inp) k) (rows (operations (db s))) = None) ∧
    (iRun inp ≠ None → select1 (λ r', (uVMID r' =? iVMID inp)%string && activePhase (uPhase r'))
      (rows (runs (db s))) = None ∧
      select1 (byRunID (newUUID e)) (rows (runs (db s))) = None).
Proof.
  intros Hl Hr H. unfold createGranted in H.
  apply bind_Ok in H as (? & s1 & Hv & H). apply insertVM_Ok in Hv as [-> Hnv].
  apply bind_Ok in H as (op & s2 & Ho & H). apply insertOperation_Ok in Ho as (-> & -> & Hok).
  apply bind_Ok in H as (? & s3 & Hrs & H). apply insertReservation_Ok in Hrs as [-> Hnr].
  change (on _ (on _ (on _ s))) with (on (grantedTables e inp) s) in H.
  cbn [db on set_vms operations reservations] in Hok, Hnr, H |- *.
  assert (Hl1 : log_ok hash (on (grantedTables e inp) s)) by by apply log_ok_on.
  assert (Hr1 : ready 4 e (on (grantedTables e inp) s)) by by apply ready_on.
  rewrite emit_bind in H by (done || by eapply ready_le; [|exact Hr1]).
  unfold bumpVM in H. rewrite modify_bind in H.
  match type of H with (emit _ _ _ _ ≫= _) ?x = _ => set (s4 := x) in H end.
  assert (Hl4 : log_ok hash s4).
  { apply log_ok_on; [done..|]. apply log_ok_emitted; try done.
    by eapply ready_le; [|exact Hr1]. }
  assert (Hr4 : ready 3 e s4) by by apply ready_on, ready_emitted.
  rewrite emit_bind in H by (done || by eapply ready_le; [|exact Hr4]).
  match type of H with (_ ≫= _) ?x = _ => set (s5 := x) in H end.
  assert (Hl5 : log_ok hash s5).
  { apply log_ok_emitted; try done. by eapply ready_le; [|exact Hr4]. }
  assert (Hr5 : ready 2 e s5) by by apply ready_emitted.
  assert (Hrun5 : runs (db s5) = runs (db s)).
  { subst s5 s4. rewrite runs_emitted. cbn [db on bumped set_vms runs].
    by rewrite runs_emitted. }
  apply bind_Ok in H as (? & s6 & Hrun & H). unfold scanVMInTx, scanOperationInTx in H. m_inv.
  assert (Hs : s' = granted e inp s ∧
    (iRun inp ≠ None → select1 (λ r', (uVMID r' =? iVMID inp)%string && activePhase (uPhase r'))
      (rows (runs (db s))) = None ∧
      select1 (byRunID (newUUID e)) (rows (runs (db s))) = None)).
  { unfold granted. destruct (iRun inp) as [a|]; [|by apply ret_Ok in Hrun as [_ <-]].
    apply createRunInTx_Ok in Hrun as (-> & Hra & Hri);
      [|done|by eapply ready_le; [|exact Hr5]].
    rewrite Hrun5 in Hra, Hri. split; [done|]. intros _. split; [by apply Hra|done]. }
  destruct Hs as [-> Hs]. eexists _, _. by split_and!.
Qed.

Lemma lookup_state owner kd key rh s r s' :
  lookupByIdempotencyKey owner kd key rh s = (r, s') → s' = s.
Proof.
  unfold lookupByIdempotencyKey, GetOperation, GetVM, mbind, M_bind, gets, ensure, some, mret,
    M_ret, throw.
  intros H. repeat (case_match; simplify_eq); done.
Qed.

Lemma replay_state owner kd key rh s r s' :
  replayInTx owner kd key rh s = (r, s') → s' = s.
Proof.
  unfold replayInTx, GetOperation, GetVM, mbind, M_bind, gets, ensure, some, mret,
    M_ret, throw.
  intros H. repeat (case_match; simplify_eq); done.
Qed.

Definition replays (out : CreateOutcome) : bool :=
  match out with Replayed _ _ | RefusedBefore _ _ => true | _ => false end.

(** Every outcome of a create that does not fail. *)
Lemma CreateVM_Ok e inp s out s' :
  log_ok hash s → ready 4 e s → CreateVMWithOperation hash e inp s = (Ok out, s') →
  (s' = s ∧ replays out = true) ∨
  ∃ t, reservationTotals (reservations (db s)) = Some t ∧
    ((∃ r, iAdmit inp t = Some (Refused r) ∧
        createRefused hash e inp r s = (Ok out, s')) ∨
     (iAdmit inp t = None ∧ createGranted hash e inp s = (Ok out, s'))).
Proof.
  intros Hl Hr H. unfold CreateVMWithOperation in H.
  apply bind_Ok in H as (pre & s1 & Hpre & H).
  assert (s1 = s) as ->.
  { destruct (iIdempotencyKey inp); [by apply lookup_state in Hpre|].
    by apply ret_Ok in Hpre as [_ <-]. }
  assert (Htx : (∃ v op, pre = Some (Some v, op)) ∧ s' = s ∧ replays out = true ∨
    createInTx hash e inp s = (Ok out, s')).
  { destruct pre as [[[v|] op]|]; [left|right; by apply inTx_Ok..].
    apply ret_Ok in H as [<- <-]. eauto. }
  clear H. destruct Htx as [(_ & -> & ?)|H]; [by left|].
  unfold createInTx in H. apply bind_Ok in H as (again & s1 & Ha & H).
  assert (s1 = s) as ->.
  { destruct (iIdempotencyKey inp); [by apply replay_state in Ha|].
    by apply ret_Ok in Ha as [_ <-]. }
  destruct again as [o|].
  { apply ret_Ok in H as [-> ->]. left. split; [done|].
    destruct (iIdempotencyKey inp); [|by apply ret_Ok in Ha as [? _]].
    unfold replayInTx, GetOperation, GetVM in Ha. m_inv.
    repeat (case_match; m_inv; simplify_eq); done. }
  right. unfold reservationTotalsInTx in H. rewrite gets_some_bind in H.
  destruct (reservationTotals _) as [t|]; [|done]. exists t. split; [done|].
  destruct (iAdmit inp t) as [[r|msg]|]; [left; eauto|done|by right].
Qed.

Lemma CreateVM_Err e inp s err s' :
  CreateVMWithOperation hash e inp s = (Err err, s') → db s' = db s.
Proof.
  unfold CreateVMWithOperation. intros [H|(pre & s1 & Hpre & H)]%bind_Err.
  - destruct (iIdempotencyKey inp); [by apply lookup_state in H as ->|by simplify_eq].
  - assert (s1 = s) as ->.
    { destruct (iIdempotencyKey inp); [by apply lookup_state in Hpre|].
      by apply ret_Ok in Hpre as [_ <-]. }
    destruct pre as [[[v|] op]|]; [done|by apply inTx_Err in H..].
Qed.

(** * VM rows under every operation *)

(** What the state machine is about: identity, observed state, revision. *)
Definition sig (v : VM) : string * string * Z := (vVMID v, vObservedState v, vRevision v).
Definition sigs (d : DB) := sig <$> rows (vms d).
Definition sameSigs (d d' : DB) : Prop := sigs d' = sigs d.

#[local] Instance sameSigs_preorder : PreOrder sameSigs.
Proof. split; [done|]. intros d1 d2 d3 H1 H2. unfold sameSigs in *. congruence. Qed.
#[local] Instance sameSigs_blind : LogBlind sameSigs.
Proof. split; done. Qed.

Lemma keeps_bump vm id : keeps sameSigs (bumpVM vm id).
Proof.
  apply keeps_modify. intros d. unfold sameSigs, sigs. cbn. by apply fmap_update.
Qed.

Ltac keeps_sigs :=
  repeat first [apply keeps_bump|keeps_step|apply keeps_modify; done].

Lemma sigs_quiet e o s :
  quietOp o = true → sameSigs (db s) (db (exec e o s)).
Proof.
  assert (Hk : ∀ A (m : M A), keeps sameSigs m → sameSigs (db s) (db (m s).2)).
  { intros A m Hm. destruct (m s) as [r s'] eqn:E. by apply Hm in E. }
  destruct o; intros Hq; try done; cbn [exec].
  - apply Hk. apply keeps_Append; apply _.
  - apply Hk. unfold UpdateOperation, scanOperationInTx. keeps_sigs.
  - apply Hk. unfold InsertActionOperation, insertOperation. keeps_sigs.
  - apply Hk. unfold CreateRun, lookupRunByIdempotencyKey, GetRun, insertRun, scanRunInTx.
    keeps_sigs.
  - apply Hk. unfold TransitionRun, scanRunInTx. keeps_sigs.
  - apply Hk. unfold SubmitRunProgress, GetRun. keeps_sigs.
  - apply Hk. unfold SubmitRunResult, GetRun, scanRunInTx. keeps_sigs.
  - apply Hk. unfold PutRunReport. keeps_sigs.
  - apply Hk. unfold recordVMStatement. keeps_sigs.
  - apply Hk. unfold recordBatchOp, insertOperation, scanOperationInTx. keeps_sigs.
  - apply Hk. keeps_sigs.
  - apply Hk. unfold InsertReportOperation, insertOperation. keeps_sigs.
Qed.

(** ** Edges and new rows *)

(** How a step changes a row: not at all, or along one edge of the machine with
    the next revision. *)
Inductive vmMove : VM → VM → Prop :=
  | vm_same v v' : sig v' = sig v → vmMove v v'
  | vm_edge v v' : vVMID v' = vVMID v →
      transitionAllowed (vObservedState v) (vObservedState v') = true →
      vRevision v' = Int.i64 (vRevision v + 1) → vmMove v v'.

Definition fresh_vm (v : VM) : Prop := vObservedState v = "provisioning" ∧ vRevision v = 1.

(** The rows after a step: the old ones, each at its place and moved at most once,
    then new ones at the start of the machine. *)
Definition vmsMove (d d' : DB) : Prop :=
  ∃ old new, rows (vms d') = old ++ new ∧ Forall2 vmMove (rows (vms d)) old ∧
    Forall fresh_vm new.

Lemma vmsMove_same d d' : sameSigs d d' → vmsMove d d'.
Proof.
  unfold sameSigs, sigs. intros H. exists (rows (vms d')), []. rewrite app_nil_r.
  split_and!; [done| |constructor].
  revert H. generalize (rows (vms d)) (rows (vms d')). intros l l'.
  revert l'. induction l as [|v l IH]; intros [|v' l'] H; try done.
  csimpl in H. injection H as H1 H2 H3 H4. constructor; [|by apply IH].
  apply vm_same. unfold sig. congruence.
Qed.

Lemma vmsMove_refl d : vmsMove d d.
Proof. by apply vmsMove_same. Qed.

Lemma fmap_Forall2 {A B} (R : A → B → Prop) (f : A → B) l :
  (∀ x, x ∈ l → R x (f x)) → Forall2 R l (f <$> l).
Proof.
  induction l as [|x l IH]; intros H; csimpl; constructor.
  - apply H. left.
  - apply IH. intros y Hy. apply H. by right.
Qed.

Lemma vmsMove_moved e inp cur s :
  NoDup (vVMID <$> rows (vms (db s))) →
  transitionCheck inp (db s) = Ok cur → vmsMove (db s) (db (moved e inp cur s)).
Proof.
  intros Hnd Hc. eexists _, []. rewrite vms_moved, app_nil_r. unfold on_rows. cbn [rows].
  split_and!; [done| |constructor].
  unfold transitionCheck in Hc. destruct (select1 _ _) as [v|] eqn:Hs; [|done].
  assert (Ha : transitionAllowed (vObservedState cur) (nTo inp) = true ∧ v = cur).
  { destruct (transitionAllowed (vObservedState v) (nTo inp)) eqn:?;
      repeat case_match; simplify_eq; done. }
  destruct Ha as [Ha ->]. unfold update. rewrite <- list_fmap_compose. apply fmap_Forall2.
  intros x Hx. unfold compose. destruct (byVMID (nVMID inp) x) eqn:Hb.
  - rewrite byVMID_moved, Hb.
    assert (x = cur) as ->.
    { rewrite (select1_unique vVMID _ _ x Hnd Hx Hb) in Hs; [by simplify_eq|].
      intros r' _ H1%String.eqb_eq. apply String.eqb_eq in Hb. congruence. }
    by apply vm_edge.
  - rewrite Hb. by apply vm_same.
Qed.

Lemma vms_bumped vm id s :
  vms (db (on (bumped vm id) s)) = on_rows (update (byVMID vm) (setVMLastEvent id)) (vms (db s)).
Proof. done. Qed.

Lemma vms_ranRun e inp s :
  vms (db (ranRun e inp s)) =
  on_rows (update (byVMID (cVMID inp)) (setVMLastEvent (seq (events (db s)) + 1))) (vms (db s)).
Proof.
  unfold ranRun. cbv zeta. rewrite vms_bumped.
  assert (Hf : ∀ f s0, vms (db (on (set_runs f) s0)) = vms (db s0)) by done.
  by rewrite Hf, vms_emitted.
Qed.

Lemma update_bump_twice vm a b l :
  update (byVMID vm) (setVMLastEvent b) (update (byVMID vm) (setVMLastEvent a) l) =
  update (byVMID vm) (setVMLastEvent b) l.
Proof.
  unfold update. rewrite <- list_fmap_compose. apply list_fmap_ext. intros i x _.
  unfold compose, byVMID. destruct (vVMID x =? vm)%string eqn:E;
    cbn [vVMID setVMLastEvent]; by rewrite E.
Qed.

(** The rows of the VM table after a granted create, for some last event id. *)
Lemma vms_granted e inp s :
  ∃ id1, rows (vms (db (granted e inp s))) =
    update (byVMID (iVMID inp)) (setVMLastEvent id1)
      (rows (vms (db s)) ++ [newVM e inp (seq (vms (db s)) + 1)]).
Proof.
  assert (Hg : vms (db (on (grantedTables e inp) s)) =
    insertRow (seq (vms (db s)) + 1) (newVM e inp (seq (vms (db s)) + 1)) (vms (db s))) by done.
  unfold granted. cbv zeta. destruct (iRun inp) as [a|].
  - rewrite vms_ranRun, vms_emitted, vms_bumped, vms_emitted, Hg.
    change (cVMID (attached inp a)) with (iVMID inp). eexists.
    unfold on_rows. cbn [rows]. apply update_bump_twice.
  - rewrite vms_emitted, vms_bumped, vms_emitted, Hg. eexists. done.
Qed.

Lemma vmsMove_granted e inp s :
  select1 (byVMID (iVMID inp)) (rows (vms (db s))) = None →
  vmsMove (db s) (db (granted e inp s)).
Proof.
  intros Hn. destruct (vms_granted e inp s) as [id1 H]. rewrite update_app in H.
  eexists _, _. split_and!; [exact H| |].
  - rewrite update_id by (by apply select1_None).
    apply Forall2_same_length_lookup_2; [done|]. intros i x y Hx Hy. simplify_eq.
    by apply vm_same.
  - unfold update. csimpl. change (byVMID _ (newVM _ _ _)) with (iVMID inp =? iVMID inp)%string.
    rewrite String.eqb_refl. by repeat constructor.
Qed.

Lemma nodup_sig d d' : sameSigs d d' →
  NoDup (vVMID <$> rows (vms d)) → NoDup (vVMID <$> rows (vms d')).
Proof.
  unfold sameSigs, sigs. intros H.
  assert (Hv : ∀ l : list VM, vVMID <$> l = (fst ∘ fst) <$> (sig <$> l)).
  { intros l. by rewrite <- list_fmap_compose. }
  by rewrite !Hv, H.
Qed.

Lemma nodup_granted e inp s :
  select1 (byVMID (iVMID inp)) (rows (vms (db s))) = None →
  NoDup (vVMID <$> rows (vms (db s))) → NoDup (vVMID <$> rows (vms (db (granted e inp s)))).
Proof.
  intros Hn Hnd. destruct (vms_granted e inp s) as [id1 ->]. rewrite fmap_update by done.
  rewrite fmap_app. apply NoDup_app. split_and!; [done| |apply NoDup_singleton].
  intros x (v' & -> & Hv')%list_elem_of_fmap Hx%list_elem_of_singleton.
  apply (proj1 (select1_None _ _) Hn) in Hv'. unfold byVMID in Hv'.
  rewrite Hx in Hv'. cbn in Hv'. by rewrite String.eqb_refl in Hv'.
Qed.

(** A member of a batch changes the tables only when it succeeds. *)
Lemma member_store e inp s :
  db (inTx (createGranted hash e inp) s).2 = db s ∨
  ∃ out, createGranted hash e inp s = (Ok out, (inTx (createGranted hash e inp) s).2).
Proof.
  destruct (inTx _ s) as [[out|err] s'] eqn:E; cbn [snd].
  - right. exists out. by apply (proj1 (inTx_Ok _ _ _ _)) in E.
  - left. by apply inTx_Err in E.
Qed.

(** Unique VM ids, and every step moves rows along the machine. *)
Lemma step_vms s o s' :
  step s o s' → log_ok hash s → NoDup (vVMID <$> rows (vms (db s))) →
  NoDup (vVMID <$> rows (vms (db s'))) ∧ vmsMove (db s) (db s').
Proof.
  intros [e o' s0 Hr Hlg] Hl Hnd. clear s s'.
  assert (Hsame : sameSigs (db s0) (db (exec e o' s0)) →
    NoDup (vVMID <$> rows (vms (db (exec e o' s0)))) ∧ vmsMove (db s0) (db (exec e o' s0))).
  { intros H. split; [by eapply nodup_sig|by apply vmsMove_same]. }
  destruct (quietOp o') eqn:Hq; [by apply Hsame, sigs_quiet|].
  destruct o' as [|inp|inp| | | | | | | | | | | |inp| | | |]; try done; cbn [exec] in *.
  - destruct (CreateVMWithOperation hash e inp s0) as [[out|err] s'] eqn:E; cbn [snd] in *.
    2: { apply CreateVM_Err in E. apply Hsame. by rewrite E. }
    apply CreateVM_Ok in E as [[-> _]|(t & _ & [(r & _ & E)|(_ & E)])]; [by apply Hsame|..|done|done].
    + apply createRefused_Ok in E as (op & _ & -> & _);
        [|done|by eapply ready_le; [|exact Hr]].
      apply Hsame. unfold refused, sameSigs, sigs. cbv zeta. by rewrite vms_emitted.
    + apply createGranted_Ok in E as (v & op & _ & -> & _ & _ & Hn & _); [|done..].
      split; [by apply nodup_granted|by apply vmsMove_granted].
  - rewrite TransitionVM_eq in * by (done || by eapply ready_le; [|exact Hr]).
    destruct (transitionCheck inp (db s0)) as [cur|err] eqn:Hc; cbn [snd] in *; [|by apply Hsame].
    split; [|by apply vmsMove_moved].
    rewrite vms_moved. unfold on_rows. cbn [rows]. by rewrite !fmap_update.
  - destruct (member_store e inp s0) as [E|(out & E)]; [apply Hsame; by rewrite E|].
    apply createGranted_Ok in E as (v & op & _ & E & _ & _ & Hn & _); [|done..].
    rewrite E in *. split; [by apply nodup_granted|by apply vmsMove_granted].
Qed.

(** * The registry as a reading of the log *)

Definition dataStr (r : EventRow) (k : string) : option string :=
  match Data (payload r) with
  | Some o => match field o k with Some (JStr x) => Some x | _ => None end
  | None => None
  end.

Definition aboutVM (vm : string) (r : EventRow) : bool :=
  match dataStr r "vm_id" with Some x => (x =? vm)%string | None => false end.

(** The state and revision of a VM after one more event. *)
Definition replay1 (vm : string) (acc : option (string * string)) (r : EventRow)
    : option (string * string) :=
  if (kind r =? "vm.created")%string && aboutVM vm r then Some ("provisioning", "1")
  else if (kind r =? "vm.state_changed")%string && aboutVM vm r then
    match dataStr r "to", dataStr r "revision" with
    | Some t, Some n => Some (t, n)
    | _, _ => acc
    end
  else acc.

Definition replay (vm : string) (log : list EventRow) : option (string * string) :=
  foldl (replay1 vm) None log.

Definition statusOf (v : VM) : string * string :=
  (vObservedState v, Strconv.FormatInt (vRevision v)).

Definition replayed (d : DB) : Prop :=
  ∀ vm, replay vm (rows (events d)) = statusOf <$> select1 (byVMID vm) (rows (vms d)).

Lemma status_sigs vm l :
  statusOf <$> select1 (byVMID vm) l =
  (λ t, (t.1.2, Strconv.FormatInt t.2)) <$> select1 (λ t, t.1.1 =? vm)%string (sig <$> l).
Proof.
  unfold select1, select. induction l as [|v l IH]; csimpl; [done|].
  change (byVMID vm v) with (vVMID v =? vm)%string. by destruct (_ =? _)%string.
Qed.

Lemma replay_other vm acc l :
  Forall (λ r, otherKind (kind r)) l → foldl (replay1 vm) acc l = acc.
Proof.
  induction 1 as [|r l Hr _ IH]; [done|]. cbn.
  unfold otherKind, registryKind in Hr. apply orb_false_iff in Hr as [H1 H2].
  unfold replay1 at 2. by rewrite H1, H2.
Qed.

Lemma replayed_quiet s s' :
  sameSigs (db s) (db s') → grows otherKind s s' → replayed (db s) → replayed (db s').
Proof.
  intros Hs (tl & Htl & HK) Hr vm. unfold replay. rewrite Htl, foldl_app, replay_other by done.
  rewrite status_sigs. unfold sameSigs, sigs in Hs. rewrite Hs, <- status_sigs. apply Hr.
Qed.

Lemma rows_emitted p e k data s :
  rows (events (db (emitted hash p e k data s))) =
  rows (events (db s)) ++
    [eventRow hash (seq (events (db s)) + 1) (emittedEnv p e k data s)].
Proof. cbn [db emitted]. by rewrite events_recorded. Qed.

Lemma dataStr_emitted id p e k data s key :
  dataStr (eventRow hash id (emittedEnv p e k data s)) key =
  match field data key with Some (JStr x) => Some x | _ => None end.
Proof. done. Qed.

Lemma kind_emitted id p e k data s : kind (eventRow hash id (emittedEnv p e k data s)) = k.
Proof. done. Qed.

Lemma replay1_emitted_other vm acc id p e k data s :
  otherKind k → replay1 vm acc (eventRow hash id (emittedEnv p e k data s)) = acc.
Proof.
  unfold otherKind, registryKind. intros [H1 H2]%orb_false_iff. unfold replay1.
  by rewrite kind_emitted, H1, H2.
Qed.

Lemma replay1_moved vm acc id e inp cur s :
  replay1 vm acc (eventRow hash id
    (emittedEnv HostObserved e "vm.state_changed" (stateData inp cur) s)) =
  if (nVMID inp =? vm)%string
  then Some (nTo inp, Strconv.FormatInt (Int.i64 (vRevision cur + 1))) else acc.
Proof.
  unfold replay1, aboutVM. rewrite kind_emitted, !dataStr_emitted. unfold stateData.
  destruct (nBootID inp); reflexivity.
Qed.

Lemma replay1_created vm acc id e inp op s :
  replay1 vm acc (eventRow hash id
    (emittedEnv HostObserved e "vm.created" (vmCreatedData inp op) s)) =
  if (iVMID inp =? vm)%string then Some ("provisioning", "1") else acc.
Proof.
  unfold replay1, aboutVM. rewrite kind_emitted, dataStr_emitted.
  change (field (vmCreatedData inp op) "vm_id") with (Some (JStr (iVMID inp))).
  cbn [andb String.eqb]. by destruct (iVMID inp =? vm)%string.
Qed.

Lemma replayed_moved e inp cur s :
  select1 (byVMID (nVMID inp)) (rows (vms (db s))) = Some cur →
  replayed (db s) → replayed (db (moved e inp cur s)).
Proof.
  intros Hc Hr vm. specialize (Hr vm).
  assert (Hlog : replay vm (rows (events (db (moved e inp cur s)))) =
    if (nVMID inp =? vm)%string
    then Some (nTo inp, Strconv.FormatInt (Int.i64 (vRevision cur + 1)))
    else replay vm (rows (events (db s)))).
  { assert (He : rows (events (db (on (movedTables e inp cur) s))) = rows (events (db s))).
    { cbn [db on]. by rewrite (proj1 (movedTables_log e inp cur (db s))). }
    assert (Hb : ∀ x i s0, rows (events (db (on (bumped x i) s0))) = rows (events (db s0))) by done.
    unfold moved, replay. cbv zeta. destruct (nTo inp =? "deleted")%string;
      rewrite ?rows_emitted, ?Hb, ?rows_emitted, ?He, ?foldl_app; cbn [foldl];
      rewrite ?replay1_emitted_other by done; apply replay1_moved. }
  rewrite Hlog, vms_moved. unfold on_rows. cbn [rows]. rewrite !select1_update by done.
  destruct (nVMID inp =? vm)%string eqn:E.
  - apply String.eqb_eq in E as <-. rewrite Hc. cbn.
    pose proof (select1_Some _ _ _ Hc) as [_ Hk]. by rewrite Hk, byVMID_moved, Hk.
  - rewrite Hr. destruct (select1 (byVMID vm) _) as [v|] eqn:Hv; [|done]. cbn.
    apply select1_Some in Hv as [_ Hv%String.eqb_eq].
    assert (byVMID (nVMID inp) v = false) as Hn
      by (unfold byVMID; by rewrite Hv, String.eqb_sym).
    by rewrite Hn, Hn.
Qed.

Lemma select1_one {A} (p : A → bool) x : select1 p [x] = if p x then Some x else None.
Proof. unfold select1, select. cbn. by destruct (p x). Qed.

Lemma byVMID_new vm e inp id : byVMID vm (newVM e inp id) = (iVMID inp =? vm)%string.
Proof. done. Qed.

Lemma replayed_granted e inp s :
  select1 (byVMID (iVMID inp)) (rows (vms (db s))) = None →
  replayed (db s) → replayed (db (granted e inp s)).
Proof.
  intros Hn Hr vm. specialize (Hr vm).
  assert (Hlog : replay vm (rows (events (db (granted e inp s)))) =
    if (iVMID inp =? vm)%string then Some ("provisioning", "1")
    else replay vm (rows (events (db s)))).
  { assert (Hb : ∀ x i s0, rows (events (db (on (bumped x i) s0))) = rows (events (db s0))) by done.
    assert (Hu : ∀ f s0, rows (events (db (on (set_runs f) s0))) = rows (events (db s0))) by done.
    assert (Hg : rows (events (db (on (grantedTables e inp) s))) = rows (events (db s))) by done.
    unfold granted, ranRun, replay. cbv zeta. destruct (iRun inp);
      rewrite ?Hb, ?Hu, ?rows_emitted, ?Hb, ?rows_emitted, ?Hg, ?foldl_app; cbn [foldl];
      rewrite ?replay1_emitted_other by done; apply replay1_created. }
  destruct (vms_granted e inp s) as [id1 ->]. rewrite Hlog, select1_update by done.
  rewrite select1_app. destruct (iVMID inp =? vm)%string eqn:E.
  - apply String.eqb_eq in E as <-. rewrite Hn, select1_one, byVMID_new, String.eqb_refl.
    cbn [fmap option_fmap option_map]. by rewrite byVMID_new, String.eqb_refl.
  - rewrite Hr. destruct (select1 (byVMID vm) (rows _)) as [v|] eqn:Hv.
    + cbn. by destruct (byVMID _ _).
    + by rewrite select1_one, byVMID_new, E.
Qed.

Lemma transitionCheck_row inp d cur :
  transitionCheck inp d = Ok cur → select1 (byVMID (nVMID inp)) (rows (vms d)) = Some cur.
Proof.
  unfold transitionCheck. destruct (select1 _ _) as [v|]; [|done].
  intros H. repeat case_match; simplify_eq; done.
Qed.

Lemma step_replayed s o s' :
  step s o s' → log_ok hash s → replayed (db s) → replayed (db s').
Proof.
  intros Hst Hl Hrp. destruct (step_log _ _ _ Hst Hl) as [_ Hg].
  destruct Hst as [e o' s0 Hr Hlg].
  assert (Hsame : db (exec e o' s0) = db s0 → replayed (db (exec e o' s0))).
  { by intros ->. }
  destruct (quietOp o') eqn:Hq.
  { eapply replayed_quiet; [by apply sigs_quiet| |done].
    by eapply grows_weaken; [exact Hg|intros k; eapply quiet_kinds]. }
  destruct o' as [|inp|inp| | | | | | | | | | | |inp| | | |]; try done; cbn [exec] in *; clear Hg.
  - destruct (CreateVMWithOperation hash e inp s0) as [[out|err] s'] eqn:E; cbn [snd] in *.
    2: { apply CreateVM_Err in E. by apply Hsame. }
    apply CreateVM_Ok in E as [[-> _]|(t & _ & [(r & _ & E)|(_ & E)])]; [done|..|done|done].
    + assert (Hr1 : ready 1 e s0) by by eapply ready_le; [|exact Hr].
      destruct (logs_createRefused e inp r _ _ _ E Hl) as [_ _ _ Hg]; [apply Hr|].
      apply (grows_weaken _ otherKind) in Hg; [|intros k; apply kindIn_other; reflexivity].
      apply createRefused_Ok in E as (op & _ & -> & _); [|done..].
      eapply replayed_quiet; [|exact Hg|done].
      unfold refused, sameSigs, sigs. cbv zeta. by rewrite vms_emitted.
    + apply createGranted_Ok in E as (v & op & _ & -> & _ & _ & Hn & _); [|done..].
      by apply replayed_granted.
  - rewrite TransitionVM_eq in * by (done || by eapply ready_le; [|exact Hr]).
    destruct (transitionCheck inp (db s0)) as [cur|err] eqn:Hc; cbn [snd] in *; [|done].
    apply replayed_moved; [|done]. by apply transitionCheck_row in Hc.
  - destruct (member_store e inp s0) as [E|(out & E)]; [by apply Hsame|].
    apply createGranted_Ok in E as (v & op & _ & -> & _ & _ & Hn & _); [|done..].
    by apply replayed_granted.
Qed.

(** * Executions *)

(** The invariant of a store reached from an empty database. *)
Record inv (s : Store) : Prop := mkInv {
  inv_log : log_ok hash s;
  inv_vms : NoDup (vVMID <$> rows (vms (db s)));
  inv_replay : replayed (db s)
}.

Lemma inv_empty inst : inv (Open inst emptyDB).
Proof. split; [apply log_ok_empty|constructor|done]. Qed.

Lemma registry_inv_step s o s' : step s o s' → inv s → inv s'.
Proof.
  intros Hst [Hl Hv Hr]. split.
  - by eapply step_log.
  - by eapply step_vms.
  - by eapply step_replayed.
Qed.

Lemma registry_inv_steps s os s' : steps s os s' → inv s → inv s'.
Proof. induction 1; eauto using registry_inv_step. Qed.

Definition readyb (n : Z) (e : Env) (s : Store) : bool :=
  UUIDString (instanceID s) && negb (timeNow e =? 0) &&
  (systemSeq s + n <=? Int.MaxInt64) && (seq (events (db s)) + n <=? Int.MaxInt64).

Lemma readyb_spec n e s : readyb n e s = true → ready n e s.
Proof.
  unfold readyb, ready. rewrite !andb_true_iff, negb_true_iff, Z.eqb_neq, !Z.leb_le. tauto.
Qed.

Definition legalb (o : Op) (s : Store) : bool :=
  match o with
  | OAppend env => negb (SourceInstanceID env =? instanceID s)%string &&
      negb (storeKind (Kind env))
  | OReopen inst => UUIDString inst &&
      negb (exists_ (λ b, s_source b =? inst)%string (streams (db s)))
  | OAborted q => (systemSeq s <=? q) && (q <=? Int.MaxInt64)
  | ONotice k _ _ _ => negb (storeKind k)
  | _ => true
  end.

Lemma legalb_spec o s : legalb o s = true → legal o s.
Proof.
  destruct o; cbn; try done.
  - rewrite andb_true_iff, !negb_true_iff, String.eqb_neq. done.
  - rewrite andb_true_iff, negb_true_iff, exists_false. intros [? H]. split; [done|].
    intros (b & -> & Hb)%list_elem_of_fmap. apply H in Hb. by rewrite String.eqb_refl in Hb.
  - rewrite andb_true_iff, !Z.leb_le. done.
  - by rewrite negb_true_iff.
Qed.

(** A script of operations, run with the checks of [step]. *)
Fixpoint run (l : list (Env * Op)) (s : Store) : option Store :=
  match l with
  | [] => Some s
  | (e, o) :: l =>
    if readyb 4 e s && legalb o s then run l (exec e o s) else None
  end.

Lemma run_steps l s s' : run l s = Some s' → steps s l.*2 s'.
Proof.
  revert s. induction l as [|[e o] l IH]; intros s; simpl.
  - intros [= <-]. constructor.
  - case_match eqn:E; [|done]. intros H. apply andb_true_iff in E as [? ?].
    econstructor; [|by apply IH]. constructor; [by apply readyb_spec|by apply legalb_spec].
Qed.

End exec.
End Registry.
