(* ===== verification/History.v ===== *)
(** What the store's executions guarantee about the log and the VM registry. *)

From S2P Require Import Prelude Events Store RunStore VmStore StoreRules Registry.
Import Events Sql Store Log Runs Vms Rules Registry.

Local Open Scope Z_scope.

Module History.

(** * Example executions *)

Definition exInst : string := "6f9619ff-8b86-4d01-b42d-00cf4fc964ff".
Definition exInst2 : string := "7f9619ff-8b86-4d01-b42d-00cf4fc964ff".
Definition exVM : string := "11111111-1111-4111-8111-111111111111".
Definition exSource : string := "22222222-2222-4222-8222-222222222222".
Definition exEnv (u : string) : Env := mkEnv "2026-01-01T00:00:00.000Z" 1 u.
Definition exHash (env : Envelope) : string :=
  Kind env +:+ "/" +:+ SourceSeq env +:+ "/" +:+ Sensor env.

Definition exGuest (sq sensor : string) : Envelope :=
  mkEnvelope 1 None (Some exVM) None exSource sq "guest.sensor_health" GuestReported sensor 1
    "" "" None None None None [] notApplicableQuality (Some []).

Definition exCreate (key : option string) (adm : ReservationTotals → option AdmitErr)
    (vm : string) : CreateVMInput :=
  mkCreateVM vm "web" "alice" "tpl" "sha256:00" 2 2048 4096 1024 2176 "default" "open" None
    "vm.create" key "h1" adm
    (Some (mkRunAttachment "build" "exec_exit_zero" "stop" true)).

Definition exMove (from : option string) (to : string) : TransitionInput :=
  mkTransition exVM None from to "test" 1 None None None false false false None None None.

Definition exScript : list (Env * Op) :=
  [(exEnv "33333333-3333-4333-8333-333333333333",
      OCreateVM (exCreate (Some "k") (λ _, None) exVM));
   (exEnv "", OAppend (exGuest "1" "agent"));
   (exEnv "", OTransitionVM (exMove (Some "provisioning") "starting"));
   (exEnv "", OTransitionVM (exMove None "deleting"));
   (exEnv "", OAppend (exGuest "1" "other"));
   (exEnv "", OReopen exInst2);
   (exEnv "", OTransitionVM (exMove None "running"))].

Definition exState : Store :=
  default (Open exInst emptyDB) (run exHash exScript (Open exInst emptyDB)).

Lemma exState_steps : steps exHash (Open exInst emptyDB) exScript.*2 exState.
Proof. apply run_steps. vm_compute. reflexivity. Qed.

(** * The log *)

(** The recorded events, in cursor order. *)
Definition logOf (s : Store) : list EventRow := rows (events (db s)).

(** C27: The event log is append-only and well formed in every execution. From an
    empty database, through any sequence of store operations and restarts, the
    log at an earlier point is a prefix of the log at a later one; cursors
    strictly increase; a (source, sequence) pair occurs once; all events of a
    source instance carry the same VM scope; and every recorded envelope is
    valid. *)
Theorem log_durable hash inst os1 os2 s1 s2 :
  steps hash (Open inst emptyDB) os1 s1 → steps hash s1 os2 s2 →
  (∃ tl, logOf s2 = logOf s1 ++ tl) ∧
  StronglySorted Z.lt (event_id <$> logOf s2) ∧
  NoDup ((λ r, (source_instance_id r, source_seq r)) <$> logOf s2) ∧
  (∀ r r', r ∈ logOf s2 → r' ∈ logOf s2 →
    source_instance_id r = source_instance_id r' → vm_id r = vm_id r') ∧
  (∀ r, r ∈ logOf s2 → Validate (payload r) = []).
Proof.
  unfold logOf.
  intros H1 H2. destruct (steps_log _ _ _ _ H1 (log_ok_empty hash inst)) as [Hl1 _].
  destruct (steps_log _ _ _ _ H2 Hl1) as [[] (tl & Htl & _)].
  split_and!; [by eauto|done|done| |naive_solver].
  intros r r' Hr Hr' E.
  destruct (lo_scope0 r Hr) as (b & Hb & Hbs & <-).
  destruct (lo_scope0 r' Hr') as (b' & Hb' & Hbs' & <-).
  f_equal. assert (E' : s_source b = s_source b') by congruence.
  apply list_elem_of_lookup in Hb as [i Hi]. apply list_elem_of_lookup in Hb' as [j Hj].
  assert (i = j) as -> by (eapply (NoDup_lookup (s_source <$> streams (db s2)));
    [done|rewrite list_lookup_fmap, Hi; done|rewrite list_lookup_fmap, Hj; cbn; by rewrite E']).
  congruence.
Qed.

Lemma log_durable_witness :
  length (logOf exState) = 7%nat ∧
  StronglySorted Z.lt (event_id <$> logOf exState).
Proof.
  split; [vm_compute; reflexivity|].
  apply (log_durable exHash exInst exScript.*2 [] exState exState);
    [exact exState_steps|constructor].
Defined.

(** * What a transition leaves alone *)

Section moved.
Context (hash : Envelope → string).

Lemma check_allowed inp d cur :
  transitionCheck inp d = Ok cur → transitionAllowed (vObservedState cur) (nTo inp) = true.
Proof.
  unfold transitionCheck. destruct (select1 _ _) as [v|]; [|done].
  destruct (transitionAllowed (vObservedState v) (nTo inp)) eqn:E; intros H;
    repeat case_match; simplify_eq; done.
Qed.

Lemma vms_moved_other e inp cur s vm :
  vm ≠ nVMID inp →
  select1 (byVMID vm) (rows (vms (db (moved hash e inp cur s)))) =
  select1 (byVMID vm) (rows (vms (db s))).
Proof.
  intros Hne. rewrite vms_moved. unfold on_rows. cbn [rows]. rewrite !select1_update by done.
  destruct (select1 (byVMID vm) _) as [v|] eqn:E; [|done]. cbn.
  apply select1_Some in E as [_ E%String.eqb_eq].
  assert (byVMID (nVMID inp) v = false) as Hn by (apply String.eqb_neq; congruence).
  by rewrite Hn, Hn.
Qed.

Lemma operations_moved e inp cur s :
  operations (db (moved hash e inp cur s)) = operations (db s).
Proof.
  assert (Hb : ∀ x i s0, operations (db (on (bumped x i) s0)) = operations (db s0)) by done.
  unfold moved. cbv zeta. destruct (nTo inp =? "deleted")%string;
    rewrite ?operations_emitted, ?Hb, ?operations_emitted; cbn [db on];
    unfold movedTables, updateReservation; repeat case_match; done.
Qed.

Lemma runs_moved e inp cur s : runs (db (moved hash e inp cur s)) = runs (db s).
Proof.
  assert (Hb : ∀ x i s0, runs (db (on (bumped x i) s0)) = runs (db s0)) by done.
  unfold moved. cbv zeta. destruct (nTo inp =? "deleted")%string;
    rewrite ?runs_emitted, ?Hb, ?runs_emitted; cbn [db on];
    unfold movedTables, updateReservation; repeat case_match; done.
Qed.

Lemma select1_update_other vm vm' f (l : list Reservation) :
  (∀ r, rVMID (f r) = rVMID r) → vm' ≠ vm →
  select1 (byReservation vm') (update (byReservation vm) f l) = select1 (byReservation vm') l.
Proof.
  intros Hf Hne. rewrite select1_update by (intros r; unfold byReservation; by rewrite Hf).
  destruct (select1 (byReservation vm') l) as [r|] eqn:E; [|done]. cbn.
  apply select1_Some in E as [_ E%String.eqb_eq].
  assert (byReservation vm r = false) as -> by (apply String.eqb_neq; congruence). done.
Qed.

(** What a transition does to the VM's hold on (compute, everything). *)
Definition released (r : Reservation) : bool * bool := (rComputeReleased r, rReleased r).

Definition heldAfter (inp : TransitionInput) (h : bool * bool) : bool * bool :=
  if nReleaseAll inp then (true, true)
  else if nReleaseCompute inp then (true, h.2)
  else if nAcquireCompute inp then (false, h.2)
  else h.

Lemma select1_update_own vm f (l : list Reservation) :
  (∀ r, rVMID (f r) = rVMID r) →
  select1 (byReservation vm) (update (byReservation vm) f l) = f <$> select1 (byReservation vm) l.
Proof.
  intros Hf. rewrite select1_update by (intros r; unfold byReservation; by rewrite Hf).
  destruct (select1 (byReservation vm) l) as [r|] eqn:E; [|done].
  apply select1_Some in E as [_ E]. cbn. by rewrite E.
Qed.

Lemma res_moved_held e inp cur s :
  released <$> select1 (byReservation (nVMID inp)) (reservations (db (moved hash e inp cur s))) =
  heldAfter inp ∘ released <$> select1 (byReservation (nVMID inp)) (reservations (db s)).
Proof.
  assert (Hb : ∀ x i s0, reservations (db (on (bumped x i) s0)) = reservations (db s0)) by done.
  unfold moved. cbv zeta. destruct (nTo inp =? "deleted")%string;
    rewrite ?reservations_emitted, ?Hb, ?reservations_emitted; cbn [db on];
    unfold movedTables, updateReservation, heldAfter; repeat case_match;
    cbn [reservations set_reservations set_cleanup_debt set_vms id];
    rewrite ?select1_update_own by done;
    by destruct (select1 _ (reservations (db s))) as [[]|].
Qed.

Lemma res_moved_other e inp cur s vm :
  vm ≠ nVMID inp →
  select1 (byReservation vm) (reservations (db (moved hash e inp cur s))) =
  select1 (byReservation vm) (reservations (db s)).
Proof.
  intros Hne.
  assert (Hb : ∀ x i s0, reservations (db (on (bumped x i) s0)) = reservations (db s0)) by done.
  unfold moved. cbv zeta. destruct (nTo inp =? "deleted")%string;
    rewrite ?reservations_emitted, ?Hb, ?reservations_emitted; cbn [db on];
    unfold movedTables, updateReservation; repeat case_match;
    cbn [reservations set_reservations set_cleanup_debt set_vms id];
    try done; by apply select1_update_other.
Qed.

Lemma log_moved e inp cur s :
  ∃ tl, rows (events (db (moved hash e inp cur s))) = rows (events (db s)) ++ tl ∧
    kind <$> tl = "vm.state_changed" ::
      (if (nTo inp =? "deleted")%string then ["vm.deleted"] else []).
Proof.
  assert (Hb : ∀ x i s0, rows (events (db (on (bumped x i) s0))) = rows (events (db s0))) by done.
  assert (He : rows (events (db (on (movedTables e inp cur) s))) = rows (events (db s))).
  { cbn [db on]. by rewrite (proj1 (movedTables_log e inp cur (db s))). }
  unfold moved. cbv zeta. destruct (nTo inp =? "deleted")%string;
    rewrite ?rows_emitted, ?Hb, ?rows_emitted, ?He, <- ?app_assoc; by eexists.
Qed.

End moved.

(** * The VM registry *)

Inductive path : nat → string → string → Prop :=
  | path_refl a : path 0 a a
  | path_snoc n a b c : path n a b → transitionAllowed b c = true → path (S n) a c.

Lemma path_trans n m a b c : path n a b → path m b c → path (n + m) a c.
Proof.
  intros H. revert c. induction m as [|m IH]; intros c Hc; inversion Hc; subst.
  - by rewrite Nat.add_0_r.
  - rewrite Nat.add_succ_r. econstructor; eauto.
Qed.

Lemma i64_i64_add a b : Int.i64 (Int.i64 a + b) = Int.i64 (a + b).
Proof.
  unfold Int.i64. f_equal.
  replace ((a + 2 ^ 63) mod 2 ^ 64 - 2 ^ 63 + b + 2 ^ 63)
    with ((a + 2 ^ 63) mod 2 ^ 64 + b) by lia.
  rewrite Zplus_mod_idemp_l. f_equal. lia.
Qed.

Definition descends (v v' : VM) : Prop :=
  ∃ n, vVMID v' = vVMID v ∧ path n (vObservedState v) (vObservedState v') ∧
    Int.i64 (vRevision v') = Int.i64 (vRevision v + Z.of_nat n).

Lemma descends_trans v1 v2 v3 : descends v1 v2 → descends v2 v3 → descends v1 v3.
Proof.
  intros (n & E1 & P1 & R1) (m & E2 & P2 & R2). exists (n + m)%nat.
  split_and!; [congruence|by eapply path_trans|].
  rewrite R2, <- i64_i64_add, R1, i64_i64_add. f_equal. lia.
Qed.

Lemma vmMove_descends v v' : vmMove v v' → descends v v'.
Proof.
  intros [w w' [= E1 E2 E3]|w w' E Ht R].
  - exists 0%nat. rewrite E2. split_and!; [done|constructor|]. f_equal. lia.
  - exists 1%nat. split_and!; [done|by repeat econstructor|].
    rewrite R. pose proof (i64_i64_add (vRevision w + 1) 0) as Hi. rewrite !Z.add_0_r in Hi.
    rewrite Hi. f_equal.
Qed.

Lemma vmsMove_desc d d' v :
  vmsMove d d' → v ∈ rows (vms d) → ∃ v', v' ∈ rows (vms d') ∧ descends v v'.
Proof.
  intros (old & new & -> & Hf & _) Hv. apply list_elem_of_lookup in Hv as [i Hi].
  destruct (Forall2_lookup_l _ _ _ _ _ Hf Hi) as (v' & Hi' & Hm). exists v'. split.
  - apply elem_of_app. left. by eapply list_elem_of_lookup_2.
  - by apply vmMove_descends.
Qed.

Lemma vmsMove_origin d d' v' :
  vmsMove d d' → v' ∈ rows (vms d') →
  (∃ v, v ∈ rows (vms d) ∧ descends v v') ∨ fresh_vm v'.
Proof.
  intros (old & new & -> & Hf & Hn) [Hv|Hv]%elem_of_app.
  - left. apply list_elem_of_lookup in Hv as [i Hi].
    destruct (Forall2_lookup_r _ _ _ _ _ Hf Hi) as (v & Hi' & Hm).
    exists v. split; [by eapply list_elem_of_lookup_2|by apply vmMove_descends].
  - right. by eapply Forall_forall in Hn.
Qed.

Section history.
Context (hash : Envelope → string).

Lemma steps_desc s os s' v :
  steps hash s os s' → inv hash s → v ∈ rows (vms (db s)) →
  ∃ v', v' ∈ rows (vms (db s')) ∧ descends v v'.
Proof.
  intros H. revert v. induction H as [s|s o s1 os s2 Hs _ IH]; intros v Hi Hv.
  - exists v. split; [done|]. exists 0%nat. split_and!; [done|constructor|]. f_equal. lia.
  - destruct (step_vms hash _ _ _ Hs) as [_ Hm]; [apply Hi..|].
    destruct (vmsMove_desc _ _ v Hm Hv) as (v1 & Hv1 & D1).
    destruct (IH v1) as (v2 & ? & D2); [by eapply registry_inv_step|done|].
    exists v2. split; [done|]. by eapply descends_trans.
Qed.

Definition started (v : VM) : Prop :=
  ∃ n, path n "provisioning" (vObservedState v) ∧
    Int.i64 (vRevision v) = Int.i64 (1 + Z.of_nat n).

Lemma steps_started s os s' :
  steps hash s os s' → inv hash s → (∀ v, v ∈ rows (vms (db s)) → started v) →
  ∀ v, v ∈ rows (vms (db s')) → started v.
Proof.
  induction 1 as [s|s o s1 os s2 Hs _ IH]; intros Hi Hst; [done|].
  apply IH; [by eapply registry_inv_step|]. intros v Hv.
  destruct (step_vms hash _ _ _ Hs) as [_ Hm]; [apply Hi..|].
  destruct (vmsMove_origin _ _ v Hm Hv) as [(w & Hw & (n & _ & P & R))|[E1 E2]].
  - destruct (Hst w Hw) as (m & P' & R'). exists (m + n)%nat.
    split; [by eapply path_trans|]. rewrite R, <- i64_i64_add, R', i64_i64_add. f_equal. lia.
  - exists 0%nat. rewrite E1, E2. split; [constructor|done].
Qed.

End history.

(** C28: Every VM's life is a walk of the state machine, counted by its revision.
    In any execution from an empty database, each VM row present at an earlier
    point is still present later, its observed state reached by [n] legal edges
    and its revision advanced by [n] (in 64-bit arithmetic); and every row's
    whole life is such a walk from "provisioning" at revision 1. *)
Theorem vm_history hash inst os1 os2 s1 s2 :
  steps hash (Open inst emptyDB) os1 s1 → steps hash s1 os2 s2 →
  (∀ v, v ∈ rows (vms (db s1)) → ∃ v', v' ∈ rows (vms (db s2)) ∧ descends v v') ∧
  (∀ v, v ∈ rows (vms (db s2)) → started v).
Proof.
  intros H1 H2. pose proof (registry_inv_steps hash _ _ _ H1 (inv_empty hash inst)) as Hi. split.
  - intros v Hv. by eapply steps_desc.
  - eapply (steps_started hash s1); [done..|].
    eapply (steps_started hash); [done|apply inv_empty|]. intros v Hv. by apply elem_of_nil in Hv.
Qed.

Lemma vm_history_witness :
  (sig <$> rows (vms (db exState))) = [(exVM, "running", 3)] ∧
  ∀ v, v ∈ rows (vms (db exState)) → started v.
Proof.
  split; [vm_compute; reflexivity|].
  apply (vm_history exHash exInst exScript.*2 [] exState exState);
    [exact exState_steps|constructor].
Defined.

(** C1: The registry is a materialization of the log. In every state reached
    from an empty database, replaying the log's vm.created and vm.state_changed
    events for a VM id gives exactly the observed state and revision of that VM's
    row, and gives nothing for an id that has no row: no committed change of a
    VM's state lacks its event and no event of this kind lacks its change. *)
Theorem registry_replay hash inst os s :
  steps hash (Open inst emptyDB) os s →
  ∀ vm, replay vm (logOf s) =
        statusOf <$> select1 (byVMID vm) (rows (vms (db s))).
Proof. intros H. apply (registry_inv_steps hash _ _ _ H (inv_empty hash inst)). Qed.

Lemma registry_replay_witness :
  replay exVM (logOf exState) = Some ("running", "3") ∧
  replay exVM (logOf exState) =
    statusOf <$> select1 (byVMID exVM) (rows (vms (db exState))).
Proof.
  split; [vm_compute; reflexivity|].
  exact (registry_replay exHash exInst exScript.*2 exState exState_steps exVM).
Defined.

(** * Transitions *)

(** C29: A transition, on every branch. The guards are the code's, in its order:
    the row, the expected revision, the pinned origin state, the edge of the
    machine, and for a restart admission against the totals of the same
    transaction; the first that fails is the error, and nothing is changed. When
    all hold, the transition succeeds: the row moves to the target state with the
    next revision, the boot and failure fields the request names and the cursor of
    the event; its reservation gives up or takes back exactly what the request
    says; every other VM's row and reservation, the operations and the runs are
    untouched; and the log gains exactly
    vm.state_changed, followed by vm.deleted when the target is "deleted". *)
Theorem TransitionVM_spec hash e inp s :
  log_ok hash s → ready 2 e s →
  match transitionCheck inp (db s) with
  | Err err => TransitionVM hash e inp s = (Err err, s)
  | Ok cur => ∃ v s', TransitionVM hash e inp s = (Ok v, s') ∧
      transitionAllowed (vObservedState cur) (nTo inp) = true ∧
      select1 (byVMID (nVMID inp)) (rows (vms (db s))) = Some cur ∧
      select1 (byVMID (nVMID inp)) (rows (vms (db s'))) = Some v ∧
      (vObservedState v, vRevision v, vLastEventID v, vFailureStage v, vFailureReason v) =
        (nTo inp, Int.i64 (vRevision cur + 1), seq (events (db s)) + 1,
         nFailureStage inp, nFailureReason inp) ∧
      vCurrentBootID v = default (vCurrentBootID cur) (nBootID inp) ∧
      (∀ vm, vm ≠ nVMID inp → select1 (byVMID vm) (rows (vms (db s'))) =
         select1 (byVMID vm) (rows (vms (db s)))) ∧
      operations (db s') = operations (db s) ∧ runs (db s') = runs (db s) ∧
      released <$> select1 (byReservation (nVMID inp)) (reservations (db s')) =
        heldAfter inp ∘ released <$> select1 (byReservation (nVMID inp)) (reservations (db s)) ∧
      (∀ vm, vm ≠ nVMID inp → select1 (byReservation vm) (reservations (db s')) =
         select1 (byReservation vm) (reservations (db s))) ∧
      ∃ tl, logOf s' = logOf s ++ tl ∧
        kind <$> tl = "vm.state_changed" ::
          (if (nTo inp =? "deleted")%string then ["vm.deleted"] else [])
  end.
Proof.
  intros Hl Hr. rewrite TransitionVM_eq by done.
  destruct (transitionCheck inp (db s)) as [cur|err] eqn:Hc; [|done].
  pose proof (transitionCheck_row _ _ _ Hc) as Hrow.
  exists (movedRow e inp cur s), (moved hash e inp cur s).
  split; [done|]. split; [by eapply check_allowed|]. split; [done|].
  split; [by apply select1_moved|]. split; [done|]. split; [done|].
  split; [intros vm Hne; by apply vms_moved_other|].
  split; [apply operations_moved|]. split; [apply runs_moved|].
  split; [apply res_moved_held|]. split; [intros vm Hne; by apply res_moved_other|].
  apply log_moved.
Qed.

Definition exMoving : Store :=
  (CreateVMWithOperation exHash (exEnv "33333333-3333-4333-8333-333333333333")
     (exCreate None (λ _, None) exVM) (Open exInst emptyDB)).2.

Definition exCurrent : VM :=
  default (newVM (exEnv "") (exCreate None (λ _, None) exVM) 0)
    (select1 (byVMID exVM) (rows (vms (db exMoving)))).

Lemma TransitionVM_spec_witness :
  (TransitionVM exHash (exEnv "") (exMove None "paused") exMoving).1 =
    Err (InvalidTransition "provisioning" "paused") ∧
  ∃ v s', TransitionVM exHash (exEnv "") (exMove None "starting") exMoving = (Ok v, s') ∧
    vRevision v = 2.
Proof.
  assert (Hst : steps exHash (Open exInst emptyDB)
    [OCreateVM (exCreate None (λ _, None) exVM)] exMoving).
  { apply (run_steps exHash [(exEnv "33333333-3333-4333-8333-333333333333",
      OCreateVM (exCreate None (λ _, None) exVM))]). vm_compute. reflexivity. }
  pose proof (steps_log exHash _ _ _ Hst (log_ok_empty exHash exInst)) as [Hl _].
  assert (Hr : ready 2 (exEnv "") exMoving) by (apply readyb_spec; vm_compute; reflexivity).
  split.
  - pose proof (TransitionVM_spec exHash (exEnv "") (exMove None "paused") exMoving Hl Hr) as H.
    assert (Hc : transitionCheck (exMove None "paused") (db exMoving) =
      Err (InvalidTransition "provisioning" "paused")) by (vm_compute; reflexivity).
    rewrite Hc in H. by rewrite H.
  - pose proof (TransitionVM_spec exHash (exEnv "") (exMove None "starting") exMoving Hl Hr) as H.
    assert (Hc : transitionCheck (exMove None "starting") (db exMoving) = Ok exCurrent)
      by (vm_compute; reflexivity).
    rewrite Hc in H. destruct H as (v & s' & E & _ & _ & _ & F & _).
    exists v, s'. split; [exact E|].
    assert (Hrev : Int.i64 (vRevision exCurrent + 1) = 2) by (vm_compute; reflexivity).
    rewrite Hrev in F. exact (f_equal (λ t, t.1.1.1.2) F).
Defined.

End History.
