(* ===== verification/EventQuery.v ===== *)
(** Reading the event log (internal/store/query.go): bounded pages after a cursor,
    with filters, and the newest event of a kind in one boot. *)

From S2P Require Import Prelude Events Store RunStore VmStore StoreRules Registry History.
Import Events Sql Store Log Runs Vms Rules Registry History.

Local Open Scope Z_scope.

Module EventQuery.

Inductive QueryErr :=
  | ErrConflictingFilters
  | BoundError (requested : Z)
  | ErrInvalidCursor (field value : string)
  | ErrUnknownFamily (family : string).

Record Query := mkQuery {
  QVMID : option string;
  QKind : string;
  QFamily : string;
  QAfter : string;
  QUntil : string;
  QLimit : Z;
  QTail : bool
}.

Record QueryResult := mkQueryResult {
  Page : list Envelope;
  NextAfter : string;
  LatestEventID : string
}.

(** A cursor of a query: absent, or a decimal that fits 64 bits. *)
Definition cursorOf (field s : string) (absent : Z) : result QueryErr Z :=
  if (s =? "")%string then Ok absent
  else if negb (DecimalString s) then Err (ErrInvalidCursor field s)
  else match Strconv.ParseInt s with
       | Some v => Ok v
       | None => Err (ErrInvalidCursor field s)
       end.

Section query.
(** The text [json_extract] gives an array or an object. *)
Context (containerText : json → string).

(** The text [json_extract] gives a value; numbers and booleans are integers to
    SQLite, which equal no text, and null is NULL. *)
Definition extracted (j : json) : option string :=
  match j with
  | JStr s => Some s
  | JArr _ | JObj _ => Some (containerText j)
  | _ => None
  end.

Definition dataVMID (env : Envelope) : option string :=
  d ← Data env; j ← field d "vm_id"; extracted j.

Definition isText (o : option string) (s : string) : bool :=
  match o with Some t => (t =? s)%string | None => false end.

(** The [WHERE] clause: the filters, and the lower cursor. *)
Definition wanted (until : option Z) (vm : option string) (kd : string) (kinds : list string)
    (r : EventRow) : bool :=
  match until with Some u => event_id r <=? u | None => true end &&
  match vm with
  | Some v => isText (vm_id r) v || isText (dataVMID (payload r)) v
  | None => true
  end &&
  ((kd =? "")%string || (kind r =? kd)%string) &&
  ((length kinds =? 0)%nat || existsb (String.eqb (kind r)) kinds).

Definition matching (after : Z) (until : option Z) (vm : option string) (kd : string)
    (kinds : list string) (r : EventRow) : bool :=
  (after <? event_id r) && wanted until vm kd kinds r.

(** A stored event as it is read: the payload with its cursor. *)
Definition withCursor (r : EventRow) : Envelope :=
  let e := payload r in
  mkEnvelope (SchemaVersion e) (Some (Strconv.FormatInt (event_id r))) (VMID e) (BootID e)
    (SourceInstanceID e) (SourceSeq e) (Kind e) (EProvenance e) (Sensor e) (HostReceivedAt e)
    (HostBootID e) (HostMonotonicNS e) (GuestWallAt e) (GuestMonotonicNS e) (ProcessKey e)
    (RunID e) (RelatedEventIDs e) (EQuality e) (Data e).

Definition id_le (a b : EventRow) : Prop := event_id a ≤ event_id b.
#[export] Instance id_le_dec a b : Decision (id_le a b).
Proof. unfold id_le. apply _. Defined.
#[export] Instance id_le_total : Total id_le.
Proof. intros a b. unfold id_le. lia. Qed.
#[export] Instance id_le_trans : Transitive id_le.
Proof. intros a b c. unfold id_le. lia. Qed.

(** [ORDER BY event_id ASC LIMIT n], or the same from the newest end, which the
    code turns round again. *)
Definition pageOf (tail_ : bool) (limit : Z) (l : list EventRow) : list EventRow :=
  let n := Z.to_nat limit in
  if tail_ then reverse (take n (reverse (merge_sort id_le l)))
  else take n (merge_sort id_le l).

(** [COALESCE(MAX(event_id), 0)]. *)
Definition latestID (l : list EventRow) : Z := foldr (λ r m, Z.max (event_id r) m) 0 l.

(** The checks of [Query]: what is left of a request are its cursors, the kinds of
    its family and its limit. *)
Definition checkQuery (q : Query) : result QueryErr (Z * option Z * list string * Z) :=
  if negb (QKind q =? "")%string && negb (QFamily q =? "")%string
  then Err ErrConflictingFilters else
  let limit := if QLimit q =? 0 then DefaultPageLimit else QLimit q in
  if (limit <? 1) || (MaxPageLimit <? limit) then Err (BoundError (QLimit q)) else
  match cursorOf "after" (QAfter q) 0 with
  | Err e => Err e
  | Ok after =>
    match cursorOf "until" (QUntil q) (-1) with
    | Err e => Err e
    | Ok until =>
      let kinds := if (QFamily q =? "")%string then [] else KindsByFamily (QFamily q) in
      if negb (QFamily q =? "")%string && (length kinds =? 0)%nat
      then Err (ErrUnknownFamily (QFamily q))
      else Ok (after, if 0 <=? until then Some until else None, kinds, limit)
    end
  end.

Definition Query_ (q : Query) (d : DB) : result QueryErr QueryResult :=
  match checkQuery q with
  | Err e => Err e
  | Ok (after, until, kinds, limit) =>
    let all := rows (events d) in
    let page := pageOf (QTail q) limit
      (select (matching after until (QVMID q) (QKind q) kinds) all) in
    let latest := latestID all in
    Ok (mkQueryResult (withCursor <$> page)
          (match last page with
           | Some r => Strconv.FormatInt (event_id r) | None => QAfter q end)
          (if 0 <? latest then Strconv.FormatInt latest else ""))
  end.

Definition ofBoot (vm boot kd : string) (r : EventRow) : bool :=
  isText (vm_id r) vm && isText (boot_id r) boot && (kind r =? kd)%string.

(** [ORDER BY event_id DESC LIMIT 1]. *)
Definition LatestForBoot (vm boot kd : string) (d : DB) : option Envelope :=
  withCursor <$> last (merge_sort id_le (select (ofBoot vm boot kd) (rows (events d)))).

(** * Pages of an ordered log *)

Lemma select_none {A} (p : A → bool) l : (∀ r, r ∈ l → p r = false) → select p l = [].
Proof.
  induction l as [|r l IH]; intros H; [done|]. cbn. rewrite H by left. apply IH.
  intros r' Hr'. apply H. by right.
Qed.

Lemma select_ext {A} (p q : A → bool) l :
  (∀ r, r ∈ l → p r = q r) → select p l = select q l.
Proof.
  unfold select. induction l as [|r l IH]; intros H; [done|]. cbn. rewrite H by left.
  rewrite IH; [done|]. intros r' Hr'. apply H. by right.
Qed.

Lemma select_select {A} (p q : A → bool) l :
  select q (select p l) = select (λ r, p r && q r) l.
Proof.
  unfold select. induction l as [|r l IH]; [done|]. cbn. destruct (p r); cbn; [|done]. by rewrite IH.
Qed.

Lemma elem_of_select {A} (p : A → bool) l r : r ∈ select p l ↔ r ∈ l ∧ p r = true.
Proof. unfold select. by rewrite !list_elem_of_In, filter_In. Qed.

Lemma select_app {A} (p : A → bool) l l' : select p (l ++ l') = select p l ++ select p l'.
Proof. apply List.filter_app. Qed.

Definition ordered (l : list EventRow) : Prop := StronglySorted Z.lt (event_id <$> l).

Lemma ordered_cons r l :
  ordered (r :: l) ↔ ordered l ∧ ∀ r', r' ∈ l → event_id r < event_id r'.
Proof.
  unfold ordered. rewrite fmap_cons. split.
  - intros H. apply StronglySorted_inv in H as [H Hf]. split; [done|]. intros r' Hr'.
    rewrite Forall_forall in Hf. apply Hf, list_elem_of_fmap. eauto.
  - intros [H Hf]. constructor; [done|]. apply Forall_forall.
    intros x (r' & -> & Hr')%list_elem_of_fmap. by apply Hf.
Qed.

Lemma ordered_select p l : ordered l → ordered (select p l).
Proof.
  induction l as [|r l IH]; [done|]. rewrite ordered_cons. intros [Hl Hr]. cbn.
  destruct (p r); [|by apply IH]. apply ordered_cons. split; [by apply IH|].
  intros r' [Hr' _]%elem_of_select. by apply Hr.
Qed.

Lemma ordered_sort l : ordered l → merge_sort id_le l = l.
Proof.
  intros Hs. apply (StronglySorted_unique_strong id_le);
    [|apply StronglySorted_merge_sort; apply _| |apply merge_sort_Permutation].
  - intros a b Ha Hb Hab Hba. rewrite merge_sort_Permutation in Ha. unfold id_le in *.
    assert (E : event_id a = event_id b) by lia. clear Hab Hba.
    induction l as [|c l IH]; [by apply elem_of_nil in Ha|].
    apply ordered_cons in Hs as [Hs Hc]. rewrite !elem_of_cons in *.
    destruct Ha as [->|Ha], Hb as [->|Hb]; [done|..|by apply IH].
    + apply Hc in Hb. lia.
    + apply Hc in Ha. lia.
  - induction l as [|a l IH]; [constructor|]. apply ordered_cons in Hs as [Hs Hc].
    constructor; [by apply IH|]. apply Forall_forall. intros b Hb%Hc. unfold id_le. lia.
Qed.

Lemma ordered_take n l : ordered l → ordered (take n l).
Proof.
  intros H. rewrite <- (take_drop n l) in H. unfold ordered in *. rewrite fmap_app in H.
  by eapply StronglySorted_app_1_l.
Qed.

(** Where a page ends. *)
Definition endOf (after : Z) (page : list EventRow) : Z :=
  match last page with Some r => event_id r | None => after end.

Lemma endOf_cons after r l : endOf after (r :: l) = endOf (event_id r) l.
Proof. unfold endOf. rewrite last_cons. by destruct (last l). Qed.

Lemma endOf_ge after l : ordered l → (∀ r, r ∈ l → after ≤ event_id r) → after ≤ endOf after l.
Proof.
  revert after. induction l as [|r l IH]; intros after Hl Ha; [cbn; lia|]. rewrite endOf_cons.
  apply ordered_cons in Hl as [Hl Hr]. transitivity (event_id r); [apply Ha; left|].
  apply IH; [done|]. intros r' Hr'%Hr. lia.
Qed.

(** The first rows of an ordered list are those up to the last of them. *)
Lemma take_ordered n after l :
  ordered l → (∀ r, r ∈ l → after < event_id r) →
  take n l = select (λ r, event_id r <=? endOf after (take n l)) l.
Proof.
  revert n after. induction l as [|r l IH]; intros n after Hl Ha; [by destruct n|].
  assert (Hafter : after < event_id r) by (apply Ha; left).
  apply ordered_cons in Hl as [Hl Hr]. destruct n as [|n].
  - cbn. unfold endOf. cbn. rewrite (proj2 (Z.leb_gt _ _) Hafter).
    symmetry. apply select_none. intros x Hx%Hr. apply Z.leb_gt. lia.
  - cbn [take]. rewrite endOf_cons. cbn. rewrite (proj2 (Z.leb_le (event_id r) _)).
    + f_equal. by apply IH.
    + apply endOf_ge; [by apply ordered_take|].
      intros r' (i & Hr'%list_elem_of_lookup_2%Hr & _)%elem_of_take. lia.
Qed.

(** The page after a cursor is what the filter selects up to the page's end. *)
Lemma page_ordered limit after p l :
  ordered l → (∀ r, p r = true → after < event_id r) →
  pageOf false limit (select p l) =
  select (λ r, p r && (event_id r <=? endOf after (pageOf false limit (select p l)))) l.
Proof.
  intros Hl Hp. unfold pageOf. rewrite ordered_sort by by apply ordered_select.
  rewrite <- select_select. apply take_ordered; [by apply ordered_select|].
  intros r [_ Hr%Hp]%elem_of_select. done.
Qed.

(** * A reader that pages *)

Definition afterCursor (q : Query) (c : string) : Query :=
  mkQuery (QVMID q) (QKind q) (QFamily q) c (QUntil q) (QLimit q) (QTail q).

(** Each page starts at the cursor the page before returned; the pages are taken
    from the log at the given times. *)
Fixpoint readPages (q : Query) (ds : list DB) : result QueryErr (list Envelope * string) :=
  match ds with
  | [] => Ok ([], QAfter q)
  | d :: ds =>
    match Query_ q d with
    | Err e => Err e
    | Ok r =>
      match readPages (afterCursor q (NextAfter r)) ds with
      | Err e => Err e
      | Ok (es, c) => Ok (Page r ++ es, c)
      end
    end
  end.

(** The last of these pages. *)
Fixpoint lastPage (q : Query) (ds : list DB) : option (list Envelope) :=
  match ds with
  | [] => None
  | d :: ds =>
    match Query_ q d, ds with
    | Err _, _ => None
    | Ok r, [] => Some (Page r)
    | Ok r, _ :: _ => lastPage (afterCursor q (NextAfter r)) ds
    end
  end.

#[local] Opaque KindsByFamily.

Lemma checkQuery_after q a u ks n : checkQuery q = Ok (a, u, ks, n) → cursorOf "after" (QAfter q) 0 = Ok a.
Proof. unfold checkQuery. intros H. repeat case_match; congruence. Qed.

Lemma cursorOf_format f v z :
  0 ≤ v ≤ Int.MaxInt64 → cursorOf f (Strconv.FormatInt v) z = Ok v.
Proof.
  intros Hv. unfold cursorOf.
  assert (Strconv.FormatInt v ≠ "") by apply Strconv.FormatUint_nonempty.
  rewrite (proj2 (String.eqb_neq _ _)) by done.
  rewrite (proj2 (DecimalString_FormatInt v)) by lia. cbn.
  by rewrite Strconv.ParseInt_FormatInt.
Qed.

(** A later page is asked for with the same filters. *)
Lemma checkQuery_next q c a u ks n a' :
  checkQuery q = Ok (a, u, ks, n) → cursorOf "after" c 0 = Ok a' →
  checkQuery (afterCursor q c) = Ok (a', u, ks, n).
Proof.
  unfold checkQuery, afterCursor. cbn. intros H ->. repeat case_match; congruence.
Qed.

Definition between (a c : Z) (p : EventRow → bool) (r : EventRow) : bool :=
  (a <? event_id r) && p r && (event_id r <=? c).

Lemma select_between a b c p l :
  ordered l → a ≤ b → b ≤ c →
  select (between a b p) l ++ select (between b c p) l = select (between a c p) l.
Proof.
  intros Hl Hab Hbc. induction l as [|r l IH]; [done|].
  apply ordered_cons in Hl as [Hl Hr]. specialize (IH Hl). unfold select in *. cbn.
  unfold between in *. destruct (p r) eqn:Hp; rewrite ?andb_true_r, ?andb_false_r; [|done].
  destruct (Z.ltb_spec a (event_id r)), (Z.leb_spec (event_id r) b),
    (Z.ltb_spec b (event_id r)), (Z.leb_spec (event_id r) c); try lia; cbn;
    try (by rewrite IH); try done.
  rewrite <- IH. clear IH.
  assert (E : List.filter (λ r0, (a <? event_id r0) && p r0 && (event_id r0 <=? b)) l = []).
  { apply (select_none _ l). intros x Hx%Hr. rewrite (proj2 (Z.leb_gt _ _)) by lia.
    by rewrite andb_false_r. }
  by rewrite E.
Qed.

(** What is appended later lies behind a page that was read. *)
Lemma select_extended a c p l tl :
  ordered (l ++ tl) → (∀ r, r ∈ tl → c < event_id r) →
  select (between a c p) (l ++ tl) = select (between a c p) l.
Proof.
  intros _ Ht. rewrite select_app, (select_none _ tl); [by rewrite app_nil_r|].
  intros r Hr%Ht. unfold between. rewrite (proj2 (Z.leb_gt _ _)) by lia. by rewrite andb_false_r.
Qed.

Section reading.
Context (hash : Envelope → string).

(** The log at the times of the pages: anything may happen in between. *)
Fixpoint growing (s : Store) (ss : list Store) : Prop :=
  match ss with
  | [] => True
  | s' :: ss => (∃ os, steps hash s os s') ∧ growing s' ss
  end.

Definition lastOf (s : Store) (ss : list Store) : Store := default s (last ss).

Lemma growing_last s ss : growing s ss → ∃ os, steps hash s os (lastOf s ss).
Proof.
  revert s. induction ss as [|s1 ss IH]; intros s; cbn [growing].
  - intros _. exists []. constructor.
  - intros [[os H] Hg]. apply IH in Hg as [os' H']. exists (os ++ os').
    unfold lastOf in *. rewrite last_cons. destruct (last ss); cbn in *;
      apply steps_app; eauto using steps_nil.
Qed.

Lemma log_ordered s : log_ok hash s → ordered (rows (events (db s))).
Proof. intros []. done. Qed.

(** Rows behind a cursor of an earlier log. *)
Lemma log_behind s s' os c :
  log_ok hash s → steps hash s os s' →
  (∃ r, r ∈ rows (events (db s)) ∧ c = event_id r) →
  ∃ tl, rows (events (db s')) = rows (events (db s)) ++ tl ∧ ∀ r, r ∈ tl → c < event_id r.
Proof.
  intros Hl Hs (r0 & Hr0 & ->). destruct (steps_log hash _ _ _ Hs Hl) as [Hl' (tl & E & _)].
  exists tl. split; [done|]. intros r Hr. pose proof (log_ordered _ Hl') as Ho.
  unfold ordered in Ho. rewrite E, fmap_app in Ho.
  eapply StronglySorted_app_1_elem_of; [exact Ho|by apply list_elem_of_fmap_2..].
Qed.

Lemma page_cases limit a p s c :
  log_ok hash s → c = endOf a (pageOf false limit (select (λ r, (a <? event_id r) && p r)
    (rows (events (db s))))) →
  a ≤ c ∧ pageOf false limit (select (λ r, (a <? event_id r) && p r) (rows (events (db s)))) =
    select (between a c p) (rows (events (db s))) ∧
  (c = a ∨ ∃ r, r ∈ rows (events (db s)) ∧ c = event_id r).
Proof.
  intros Hl ->. pose proof (log_ordered _ Hl) as Ho.
  set (sel := select _ _).
  assert (Hsel : ∀ r, r ∈ sel → a < event_id r).
  { intros r [_ [Hr%Z.ltb_lt _]%andb_true_iff]%elem_of_select. done. }
  assert (Hpg : ∀ r, r ∈ pageOf false limit sel → r ∈ sel).
  { intros r. unfold pageOf. rewrite ordered_sort by by apply ordered_select.
    intros (i & Hi & _)%elem_of_take. by eapply list_elem_of_lookup_2. }
  split_and!.
  - apply endOf_ge; [|intros r Hr%Hpg%Hsel; lia]. unfold pageOf.
    rewrite ordered_sort by by apply ordered_select. by apply ordered_take, ordered_select.
  - apply page_ordered; [done|]. by intros r [?%Z.ltb_lt _]%andb_true_iff.
  - unfold endOf. destruct (last (pageOf false limit sel)) as [r|] eqn:E; [right|by left].
    exists r. split; [|done]. apply last_Some_elem_of, Hpg, elem_of_select in E. by apply E.
Qed.

Lemma checkQuery_limit q a u ks n : checkQuery q = Ok (a, u, ks, n) → 1 ≤ n.
Proof.
  unfold checkQuery. repeat case_match; try done; intros [= <- <- <- <-];
    match goal with H : _ || _ = false |- _ => apply orb_false_iff in H as [H%Z.ltb_ge _] end; lia.
Qed.

(** One page: the matching events up to its end, which is where the next starts. *)
Lemma page_next q a u ks n s (p := wanted u (QVMID q) (QKind q) ks) :
  QTail q = false → checkQuery q = Ok (a, u, ks, n) → log_ok hash s →
  ∃ next lat z,
    Query_ q (db s) = Ok (mkQueryResult
      (withCursor <$> select (between a z p) (rows (events (db s)))) next lat) ∧
    cursorOf "after" next 0 = Ok z ∧ a ≤ z ∧
    (z = a ∨ ∃ r, r ∈ rows (events (db s)) ∧ z = event_id r) ∧
    (Z.of_nat (length (select (between a z p) (rows (events (db s))))) < n →
     ∀ r, r ∈ rows (events (db s)) → p r = true → event_id r ≤ z) ∧
    (select (between a z p) (rows (events (db s))) = [] →
     select (matching a u (QVMID q) (QKind q) ks) (rows (events (db s))) = []).
Proof.
  intros Ht Hq Hl. pose proof (checkQuery_limit _ _ _ _ _ Hq) as Hn.
  set (page := pageOf false n (select (λ r, (a <? event_id r) && p r) (rows (events (db s))))).
  destruct (page_cases n a p s (endOf a page) Hl eq_refl) as (Hac & Hpage & Hc); fold page in Hpage.
  exists (match last page with
          | Some r => Strconv.FormatInt (event_id r) | None => QAfter q end),
    (if 0 <? latestID (rows (events (db s)))
     then Strconv.FormatInt (latestID (rows (events (db s)))) else ""), (endOf a page).
  split_and!; [| |done|done| |].
  - unfold Query_. rewrite Hq, Ht. rewrite <- Hpage. reflexivity.
  - unfold endOf in *. destruct (last page) as [r|] eqn:E; [|by eapply checkQuery_after].
    apply cursorOf_format. apply last_Some_elem_of in E. rewrite Hpage in E.
    apply elem_of_select in E as [E _]. pose proof (lo_range hash s Hl r E).
    pose proof (lo_seq hash s Hl). lia.
  - intros Hlt r Hin Hp. destruct (Z.le_gt_cases (event_id r) a); [lia|].
    assert (Hr : r ∈ page); [|rewrite Hpage in Hr; apply elem_of_select in Hr as [_ Hr];
      unfold between in Hr; by apply andb_true_iff in Hr as [_ ?%Z.leb_le]].
    rewrite <- Hpage in Hlt. unfold page, pageOf in Hlt |- *.
    rewrite ordered_sort in Hlt |- * by by apply ordered_select, log_ordered.
    rewrite length_take in Hlt. rewrite take_ge by lia. apply elem_of_select. split; [done|].
    rewrite Hp, andb_true_r. by apply Z.ltb_lt.
  - rewrite <- Hpage. unfold page, pageOf. rewrite ordered_sort
      by by apply ordered_select, log_ordered.
    change (matching a u (QVMID q) (QKind q) ks) with (λ r, (a <? event_id r) && p r).
    destruct (select _ _); [done|]. destruct (Z.to_nat n) eqn:E; [lia|done].
Qed.

Lemma pages_from q a u ks n s ss :
  QTail q = false → checkQuery q = Ok (a, u, ks, n) → log_ok hash s → growing s ss →
  ∃ es c z, readPages q (db <$> s :: ss) = Ok (es, c) ∧ cursorOf "after" c 0 = Ok z ∧ a ≤ z ∧
    es = withCursor <$> select (between a z (wanted u (QVMID q) (QKind q) ks))
           (rows (events (db (lastOf s ss)))) ∧
    (∀ page, lastPage q (db <$> s :: ss) = Some page → Z.of_nat (length page) < n →
       ∀ r, r ∈ rows (events (db (lastOf s ss))) → wanted u (QVMID q) (QKind q) ks r = true →
       event_id r ≤ z).
Proof.
  revert q a s. induction ss as [|s1 ss IH]; intros q a s Ht Hq Hl Hg;
    destruct (page_next q a u ks n s Ht Hq Hl) as (next & lat & z1 & HQ & Hnext & Ha & Hc & Hshort & _);
    set (p := wanted u (QVMID q) (QKind q) ks) in *.
  - eexists _, next, z1. cbn [readPages fmap list_fmap]. rewrite HQ.
    cbn [readPages NextAfter Page QAfter afterCursor]. rewrite app_nil_r.
    split_and!; [done..|]. intros page. cbn [lastPage]. rewrite HQ. intros [= <-].
    by rewrite length_fmap.
  - destruct Hg as [[os Hs] Hg].
    pose proof (checkQuery_next q next a u ks n _ Hq Hnext) as Hq'.
    destruct (steps_log hash _ _ _ Hs Hl) as [Hl1 _].
    destruct (IH (afterCursor q next) _ s1 Ht Hq' Hl1 Hg) as (es & c & z & Hr & Hz & Hle & -> & Hlast').
    cbn [QVMID QKind afterCursor] in *. fold p in Hr |- *.
    eexists _, c, z. split.
    { change (db <$> s :: s1 :: ss) with (db s :: (db <$> s1 :: ss)).
      cbn [readPages]. rewrite HQ. cbn [NextAfter Page]. by rewrite Hr. }
    assert (El : lastOf s (s1 :: ss) = lastOf s1 ss).
    { unfold lastOf. rewrite last_cons. by destruct (last ss). }
    rewrite El, <- fmap_app. split_and!; [done|lia| |].
    2: { intros page. change (db <$> s :: s1 :: ss) with (db s :: (db <$> s1 :: ss)).
         cbn [lastPage]. rewrite HQ. cbn [fmap list_fmap NextAfter]. apply Hlast'. }
    f_equal.
    destruct (growing_last s1 ss Hg) as [os' Hs'].
    assert (Hlast : log_ok hash (lastOf s1 ss)) by by apply (steps_log hash _ _ _ Hs').
    rewrite <- (select_between a z1 z p) by (done || by apply log_ordered).
    f_equal. destruct Hc as [E|Hc].
    + rewrite E. transitivity (@nil EventRow); [|symmetry]; apply select_none; intros r _;
        unfold between; destruct (Z.ltb_spec a (event_id r)), (Z.leb_spec (event_id r) a);
        rewrite ?andb_false_r; try done; lia.
    + destruct (log_behind s (lastOf s1 ss) (os ++ os') z1 Hl) as (tl & E & Htl);
        [apply steps_app; eauto|done|]. rewrite E. symmetry. apply select_extended; [|done].
      rewrite <- E. by apply log_ordered.
Qed.

End reading.

End query.

(** C38: A reader that pages forwards through the event log misses nothing and sees
    nothing twice. Take any execution of the store, and a reader who asks for pages of
    events in ascending order (not for the newest, the [tail] option) at arbitrary
    times, each starting after the cursor the last one returned, while the log grows. A
    request that passes its checks is answered with pages for ever; what the reader has
    got, in order, are exactly the events of the log as it is at the last page which
    match the filters and lie after the first cursor and up to the last, each with its
    cursor. If the last page is not full, they are all the matching events after the
    first cursor. *)
Theorem pages_exact text hash inst os s ss q a u ks n :
  steps hash (Open inst emptyDB) os s → growing hash s ss →
  QTail q = false → checkQuery q = Ok (a, u, ks, n) →
  ∃ es c z, readPages text q (db <$> s :: ss) = Ok (es, c) ∧ cursorOf "after" c 0 = Ok z ∧
    a ≤ z ∧
    es = withCursor <$> select (between a z (wanted text u (QVMID q) (QKind q) ks))
           (rows (events (db (lastOf s ss)))) ∧
    ∀ page, lastPage text q (db <$> s :: ss) = Some page → Z.of_nat (length page) < n →
      es = withCursor <$> select (matching text a u (QVMID q) (QKind q) ks)
             (rows (events (db (lastOf s ss)))).
Proof.
  intros Hs Hg Ht Hq. destruct (steps_log hash _ _ _ Hs (log_ok_empty hash inst)) as [Hl _].
  destruct (pages_from text hash q a u ks n s ss Ht Hq Hl Hg) as (es & c & z & Hr & Hz & Hle & Hes & Hsh).
  exists es, c, z. split_and!; [done..|]. intros page Hp Hlt. rewrite Hes. f_equal.
  apply select_ext. intros x Hx. unfold between, matching.
  destruct (wanted _ _ _ _ _ x) eqn:Hw; [|by rewrite andb_false_r].
  specialize (Hsh page Hp Hlt x Hx Hw). by rewrite (proj2 (Z.leb_le _ _) Hsh), andb_true_r.
Qed.

(** Two pages of two, the second after the log has grown. *)
Definition exQuery : Query := mkQuery (Some exVM) "" "" "" "" 2 false.
Definition exEarly : Store :=
  default (Open exInst emptyDB) (run exHash (take 3 exScript) (Open exInst emptyDB)).

Lemma exEarly_steps :
  steps exHash (Open exInst emptyDB) (take 3 exScript).*2 exEarly ∧
  steps exHash exEarly (drop 3 exScript).*2 exState.
Proof.
  split.
  - apply run_steps. unfold exEarly. vm_compute. reflexivity.
  - apply run_steps. vm_compute. reflexivity.
Qed.

(** A reader that asks for more than there is. *)
Definition exAll : Query := mkQuery (Some exVM) "" "" "" "" 50 false.

Lemma pages_exact_witness :
  (∃ es c z, readPages (λ _, "") exQuery (db <$> [exEarly; exState]) = Ok (es, c) ∧
    cursorOf "after" c 0 = Ok z ∧
    es = withCursor <$> select (between 0 z (wanted (λ _, "") None (Some exVM) "" []))
           (rows (events (db exState)))) ∧
  ∃ es c, readPages (λ _, "") exAll (db <$> [exEarly; exState]) = Ok (es, c) ∧
    es = withCursor <$> select (matching (λ _, "") 0 None (Some exVM) "" []) (rows (events (db exState))).
Proof.
  destruct exEarly_steps as [H1 H2]. split.
  - destruct (pages_exact (λ _, "") exHash exInst _ exEarly [exState] exQuery 0 None [] 2 H1
      (conj (ex_intro _ _ H2) I) eq_refl ltac:(vm_compute; reflexivity))
      as (es & c & z & Hr & Hz & _ & He & _).
    exists es, c, z. split; [exact Hr|]. split; [exact Hz|exact He].
  - destruct (pages_exact (λ _, "") exHash exInst _ exEarly [exState] exAll 0 None [] 50 H1
      (conj (ex_intro _ _ H2) I) eq_refl ltac:(vm_compute; reflexivity))
      as (es & c & z & Hr & _ & _ & _ & Hall).
    exists es, c. split; [exact Hr|].
    assert (Hp : ∃ page, lastPage (λ _, "") exAll (db <$> [exEarly; exState]) = Some page ∧
      Z.of_nat (length page) < 50).
    { vm_compute. eexists. split; reflexivity. }
    destruct Hp as (page & Hp & Hlt). exact (Hall page Hp Hlt).
Defined.

End EventQuery.
