(* ===== verification/EventsAPI.v ===== *)
(** GET /events (internal/api/events.go): from the text of the request's target to a
    page of the log or a refusal, with net/url's reading of a query string. *)

From S2P Require Import Prelude Text Events Store RunStore VmStore StoreRules Registry History.
From S2P Require Import EventQuery.
Import Events Sql Store Log Runs Vms Rules Registry History EventQuery.

Local Open Scope Z_scope.

Module EventsAPI.

(** * Query strings *)

(** [strings.Cut] at the first byte with a code; all of it when there is none. *)
Fixpoint cut (c : Z) (s : string) : string * string :=
  match s with
  | EmptyString => ("", "")
  | String a s' =>
    if code a =? c then ("", s')
    else let '(l, r) := cut c s' in (String a l, r)
  end.

Fixpoint contains (c : Z) (s : string) : bool :=
  match s with
  | EmptyString => false
  | String a s' => (code a =? c) || contains c s'
  end.

Definition unhex (a : Ascii.ascii) : option Z :=
  let c := code a in
  if (48 <=? c) && (c <=? 57) then Some (c - 48)
  else if (97 <=? c) && (c <=? 102) then Some (c - 87)
  else if (65 <=? c) && (c <=? 70) then Some (c - 55)
  else None.

(** [url.QueryUnescape]. *)
Fixpoint unescape (s : string) : option string :=
  match s with
  | EmptyString => Some ""
  | String a s1 =>
    if code a =? 37 then
      match s1 with
      | String b (String c s3) =>
        x ← unhex b; y ← unhex c; t ← unescape s3;
        Some (String (Text.chr (16 * x + y)) t)
      | _ => None
      end
    else
      t ← unescape s1; Some (String (if code a =? 43 then Text.chr 32 else a) t)
  end.

(** One pair; a pair that does not read is dropped. *)
Definition pair (s : string) : option (string * string) :=
  if contains 59 s then None
  else if (s =? "")%string then None
  else let '(k, v) := cut 61 s in
       k ← unescape k; v ← unescape v; Some (k, v).

(** [url.ParseQuery]; every round consumes a byte. *)
Fixpoint parseQuery (fuel : nat) (s : string) : list (string * string) :=
  match fuel with
  | O => []
  | S fuel =>
    if (s =? "")%string then []
    else let '(p, rest) := cut 38 s in
         option_list (pair p) ++ parseQuery fuel rest
  end.

Definition params (target : string) : list (string * string) :=
  let raw := (cut 63 target).2 in parseQuery (String.length raw) raw.

(** [params.Get]: the first value, or nothing. *)
Fixpoint get (k : string) (l : list (string * string)) : string :=
  match l with
  | [] => ""
  | (k', v) :: l => if (k' =? k)%string then v else get k l
  end.

(** * The handler *)

(** A page, or a refusal with its status, code and cause. *)
Inductive Reply :=
  | EventsResponse (r : QueryResult)
  | Refusal (status : Z) (code cause : string).

Definition malformed (cause : string) : Reply := Refusal 400 "malformed_request" cause.

Definition writeQueryError (e : QueryErr) : Reply :=
  match e with
  | BoundError _ => Refusal 400 "limit_exceeded" "limit_out_of_bounds"
  | ErrInvalidCursor _ _ => malformed "cursor_invalid"
  | ErrUnknownFamily _ => malformed "family_unknown"
  | ErrConflictingFilters => malformed "conflicting_filters"
  end.

(** The checks, in order, and the query they leave. *)
Definition eventsQuery (l : list (string * string)) : result Reply Query :=
  let vm := get "vm_id" l in
  if negb (vm =? "")%string && negb (UUIDString vm)
  then Err (malformed "query_parameter_invalid") else
  let kd := get "kind" l in
  if negb (kd =? "")%string && negb (isSome (LookupKind kd))
  then Err (malformed "kind_unregistered") else
  let family := get "family" l in
  if negb (family =? "")%string && negb (kd =? "")%string
  then Err (malformed "conflicting_filters") else
  if negb (family =? "")%string && (length (KindsByFamily family) =? 0)%nat
  then Err (malformed "family_unknown") else
  let until := get "until" l in
  if negb (until =? "")%string && negb (DecimalString until)
  then Err (malformed "query_parameter_invalid") else
  match (if (get "limit" l =? "")%string then Some 0 else Strconv.ParseInt (get "limit" l)) with
  | None => Err (malformed "query_parameter_invalid")
  | Some limit =>
    let raw := get "tail" l in
    if negb (existsb (String.eqb raw) [""; "true"; "false"])
    then Err (malformed "query_parameter_invalid") else
    Ok (mkQuery (if (vm =? "")%string then None else Some vm) kd family (get "after" l) until
          limit (raw =? "true")%string)
  end.

Definition handleEvents (text : json → string) (target : string) (d : DB) : Reply :=
  match eventsQuery (params target) with
  | Err r => r
  | Ok q => match Query_ text q d with
            | Err e => writeQueryError e
            | Ok r => EventsResponse r
            end
  end.

(** * The texts of queries *)

(** Bytes that stand for themselves in a query string. *)
Definition plain (a : Ascii.ascii) : bool :=
  negb (existsb (Z.eqb (code a)) [37; 38; 43; 59; 61; 63]).

Definition plainText (s : string) : Prop := Forall (λ a, plain a = true) (String.list_ascii_of_string s).

Lemma plain_codes a c : plain a = true → existsb (Z.eqb c) [37; 38; 43; 59; 61; 63] = true → (code a =? c) = false.
Proof.
  unfold plain. intros Ha Hc. apply negb_true_iff in Ha. apply Z.eqb_neq. intros <-. congruence.
Qed.

Lemma plain_cons a s : plainText (String a s) ↔ plain a = true ∧ plainText s.
Proof. unfold plainText. cbn. by rewrite Forall_cons. Qed.

Lemma plain_app s t : plainText (s +:+ t) ↔ plainText s ∧ plainText t.
Proof.
  induction s as [|a s IH]; [unfold plainText; cbn; naive_solver|].
  change (String a s +:+ t) with (String a (s +:+ t)). rewrite !plain_cons, IH. naive_solver.
Qed.

Lemma unescape_plain s : plainText s → unescape s = Some s.
Proof.
  induction s as [|a s IH]; [done|]. rewrite plain_cons. intros [Ha Hs]. cbn [unescape].
  rewrite !(plain_codes a _ Ha) by done. by rewrite IH.
Qed.

Lemma contains_app c s t : contains c (s +:+ t) = contains c s || contains c t.
Proof.
  induction s as [|a s IH]; [done|]. change (String a s +:+ t) with (String a (s +:+ t)).
  cbn [contains]. by rewrite IH, orb_assoc.
Qed.

Lemma contains_none c s :
  plainText s → existsb (Z.eqb c) [37; 38; 43; 59; 61; 63] = true → contains c s = false.
Proof.
  intros Hs Hc. induction s as [|a s IH]; [done|]. apply plain_cons in Hs as [Ha Hs]. cbn [contains].
  rewrite (plain_codes a _ Ha) by done. by apply IH.
Qed.

Lemma cut_app c s t : contains c s = false → cut c (s +:+ t) = (s +:+ (cut c t).1, (cut c t).2).
Proof.
  induction s as [|a s IH]; cbn [contains].
  - intros _. change ("" +:+ ?x) with x. apply surjective_pairing.
  - intros [Ha Hs]%orb_false_iff. change (String a s +:+ ?x) with (String a (s +:+ x)).
    cbn [cut]. by rewrite Ha, IH.
Qed.

Lemma cut_none c s : contains c s = false → cut c s = (s, "").
Proof.
  induction s as [|a s IH]; [done|]. cbn [contains cut]. intros [-> Hs]%orb_false_iff. by rewrite IH.
Qed.

Lemma append_empty s : s +:+ "" = s.
Proof. induction s as [|a s IH]; [done|]. change (String a (s +:+ "") = String a s). by rewrite IH. Qed.

Lemma append_assoc (s t u : string) : (s +:+ t) +:+ u = s +:+ t +:+ u.
Proof.
  induction s as [|a s IH]; [done|]. change (String a ((s +:+ t) +:+ u) = String a (s +:+ t +:+ u)).
  by rewrite IH.
Qed.

(** A list of plain pairs as a query string. *)
Definition written1 (kv : string * string) : string := kv.1 +:+ "=" +:+ kv.2.

Fixpoint written (l : list (string * string)) : string :=
  match l with
  | [] => ""
  | [kv] => written1 kv
  | kv :: l => written1 kv +:+ "&" +:+ written l
  end.

Definition plainPair (kv : string * string) : Prop := plainText kv.1 ∧ plainText kv.2.

Lemma written1_lacks c kv :
  plainPair kv → existsb (Z.eqb c) [37; 38; 43; 59; 61; 63] = true → c ≠ 61 →
  contains c (written1 kv) = false.
Proof.
  intros [Hk Hv] Hc Hne. unfold written1. rewrite !contains_app, (contains_none c kv.1), (contains_none c kv.2) by done.
  change (contains c "=") with ((61 =? c) || false). by rewrite (proj2 (Z.eqb_neq 61 c)) by congruence.
Qed.

Lemma written1_ne kv : written1 kv ≠ "".
Proof. unfold written1. by destruct (kv.1). Qed.

Lemma pair_written kv : plainPair kv → pair (written1 kv) = Some kv.
Proof.
  intros Hp. unfold pair. rewrite written1_lacks by (done || lia).
  rewrite (proj2 (String.eqb_neq _ _)) by apply written1_ne.
  destruct Hp as [Hk Hv], kv as [k v]. cbn [fst snd] in *. unfold written1. cbn [fst snd].
  rewrite cut_app by by apply contains_none. change ("=" +:+ v) with (String (Text.chr 61) v).
  cbn [cut]. change (code (Text.chr 61) =? 61) with true. cbn [fst snd].
  rewrite append_empty. by rewrite !unescape_plain.
Qed.

(** It reads back as it was written. *)
Lemma parse_written fuel l :
  Forall plainPair l → (length l ≤ fuel)%nat → parseQuery fuel (written l) = l.
Proof.
  revert fuel. induction l as [|kv l IH]; intros fuel Hl Hf; [by destruct fuel|].
  destruct fuel as [|fuel]; [cbn in Hf; lia|]. apply Forall_cons in Hl as [Hp Hl]. cbn [length] in Hf.
  assert (H38 : contains 38 (written1 kv) = false) by (apply written1_lacks; (done || lia)).
  cbn [parseQuery]. destruct l as [|kv2 l].
  - cbn [written]. rewrite (proj2 (String.eqb_neq _ _)) by apply written1_ne.
    rewrite cut_none, pair_written by done. cbn [option_list app]. by destruct fuel.
  - change (written (kv :: kv2 :: l)) with (written1 kv +:+ "&" +:+ written (kv2 :: l)).
    rewrite (proj2 (String.eqb_neq _ _)).
    2: { pose proof (written1_ne kv). by destruct (written1 kv). }
    rewrite cut_app by done. change ("&" +:+ ?x) with (String (Text.chr 38) x). cbn [cut].
    change (code (Text.chr 38) =? 38) with true. cbn [fst snd].
    rewrite append_empty, pair_written by done. cbn [option_list app]. f_equal. apply IH; [done|]. cbn in *. lia.
Qed.

Lemma written_length l : (length l ≤ String.length (written l))%nat.
Proof.
  assert (Ha : ∀ s t, String.length (s +:+ t) = (String.length s + String.length t)%nat).
  { intros s t. induction s as [|a s IH]; [done|]. change (String a s +:+ t) with (String a (s +:+ t)).
    cbn [String.length]. by rewrite IH. }
  induction l as [|kv l IH]; [done|]. destruct l as [|kv2 l].
  - cbn [written length]. pose proof (written1_ne kv). destruct (written1 kv); [done|]. cbn. lia.
  - change (written (kv :: kv2 :: l)) with (written1 kv +:+ "&" +:+ written (kv2 :: l)).
    rewrite !Ha. cbn [length] in *. cbn [String.length]. lia.
Qed.

Lemma params_written path l :
  contains 63 path = false → Forall plainPair l → params (path +:+ "?" +:+ written l) = l.
Proof.
  intros Hp Hl. unfold params. rewrite cut_app by done.
  change ("?" +:+ ?x) with (String (Text.chr 63) x). cbn [cut].
  change (code (Text.chr 63) =? 63) with true. cbn [fst snd]. apply parse_written; [done|apply written_length].
Qed.

(** ** Texts that are plain *)

Lemma plain_word a : 45 ≤ code a ≤ 57 ∨ 97 ≤ code a ≤ 122 → plain a = true.
Proof.
  intros H. unfold plain. cbn [existsb].
  rewrite !(proj2 (Z.eqb_neq (code a) _)) by lia. done.
Qed.

Lemma plain_all p s :
  (∀ a, p a = true → 45 ≤ code a ≤ 57 ∨ 97 ≤ code a ≤ 122) → allChars p s = true → plainText s.
Proof.
  intros Hp. induction s as [|a s IH]; [constructor|]. cbn. intros [Ha Hs]%andb_true_iff.
  apply plain_cons. split; [by apply plain_word, Hp|by apply IH].
Qed.

Lemma digit_word a : isDigit a = true → 45 ≤ code a ≤ 57 ∨ 97 ≤ code a ≤ 122.
Proof. unfold isDigit. rewrite andb_true_iff, !Z.leb_le. lia. Qed.

Lemma hex_word a : isHex a = true → 45 ≤ code a ≤ 57 ∨ 97 ≤ code a ≤ 122.
Proof.
  unfold isHex. rewrite orb_true_iff, andb_true_iff, !Z.leb_le. intros [H%digit_word|H]; lia.
Qed.

Lemma plain_decimal v : 0 ≤ v ≤ Int.MaxInt64 → plainText (Strconv.FormatInt v).
Proof.
  intros Hv. pose proof (proj2 (DecimalString_FormatInt v) ltac:(lia)) as H.
  destruct (Strconv.FormatInt v) as [|a s]; [done|]. apply plain_cons. unfold DecimalString in H.
  destruct s as [|b s]; [split; [by apply plain_word, digit_word|constructor]|].
  apply andb_true_iff in H as [[H1 _]%andb_true_iff H2].
  split; [by apply plain_word, digit_word|]. by eapply plain_all; [apply digit_word|].
Qed.

Lemma plain_hexRun n k s :
  (∀ t, k t = true → plainText t) → hexRun n k s = true → plainText s.
Proof.
  intros Hk. revert s. induction n as [|n IH]; intros s; cbn; [apply Hk|]. destruct s as [|a s]; [done|].
  intros [Ha Hs]%andb_true_iff. apply plain_cons. split; [by apply plain_word, hex_word|by apply IH].
Qed.

Lemma plain_dash k s : (∀ t, k t = true → plainText t) → dash k s = true → plainText s.
Proof.
  intros Hk. destruct s as [|a s]; [done|]. cbn. intros [Ha%Z.eqb_eq Hs]%andb_true_iff.
  apply plain_cons. split; [apply plain_word; lia|by apply Hk].
Qed.

Lemma plain_uuid s : UUIDString s = true → plainText s.
Proof.
  unfold UUIDString. do 4 (apply plain_hexRun; intros ?; apply plain_dash; intros ?).
  apply plain_hexRun. intros x ->%String.eqb_eq. constructor.
Qed.

End EventsAPI.
