(* ===== verification/AttentionStore.v ===== *)
(** Attention and annotations in the store (internal/store/attention.go,
    annotations.go): the queue of items for the operator, the cursors of the engine
    that fills it, and the operator's notes. *)

From S2P Require Import Prelude Events Text Store RunStore VmStore StoreRules Registry History.
From S2P Require Import EventQuery.
Import Events Sql Store Log Runs Vms Rules Registry History EventQuery.

Local Open Scope Z_scope.

Module Attention.

(** * Data *)

Definition SeverityInfo : string := "info".
Definition SeverityNeedsDecision : string := "needs_decision".
Definition SeverityCritical : string := "critical".

Record SuggestedAction := mkAction {
  aAction : string;
  aParams : object;
  aRationale : string
}.

Record RaiseInput := mkRaise {
  iTriggerClass : string;
  iSeverity : string;
  iVM : option string;
  iRunID : option string;
  iSummary : string;
  iSystemAction : string;
  iEvidenceLinks : list string;
  iSuggestedActions : list SuggestedAction;
  iCollapse : bool;
  iQueueMax : Z;
  iCursorName : string;
  iCursorTo : Z
}.

Record AttentionItem := mkItem {
  tAttentionID : Z;
  tRaisedEventID : Z;
  tLastEventID : Z;
  tVMID : option string;
  tRunID : option string;
  tTriggerClass : string;
  tSeverity : string;
  tSummary : string;
  tSystemAction : string;
  tEvidenceLinks : list string;
  tSuggestedActions : list SuggestedAction;
  tCount : Z;
  tAcked : bool;
  tAckedAt : option string;
  tCreatedAt : string;
  tUpdatedAt : string
}.

Record AttentionQuery := mkAttentionQuery {
  cIncludeAcked : bool;
  cAfter : Z;
  cLimit : Z
}.

Record AnnotationInput := mkAnnotationInput {
  nTargetRef : string;
  nAuthor : string;
  nText : string;
  nTags : gmap string string
}.

Record Annotation := mkAnnotation {
  eAnnotationID : Z;
  eTargetRef : string;
  eAuthor : string;
  eText : string;
  eTags : gmap string string;
  eRedacted : bool;
  eRedactionPolicyID : string;
  eEventID : Z;
  eCreatedAt : string
}.

Record AnnotationQuery := mkAnnotationQuery {
  wRef : string;
  wAfter : Z;
  wLimit : Z
}.

Inductive AttentionErr :=
  | AStore (e : StoreErr)
  | ErrRaiseIncomplete
  | ErrSeverity (s : string)
  | ErrAttentionUnknown (id : Z)
  | ABound (requested : Z)
  | ErrInvalidTargetRef (ref : string)
  | ErrAuthorRequired
  | ErrTextRequired
  | AnnotationBoundError (field : string) (got max : Z).

(** * The store with these tables *)

Record AStore_ := mkAStore {
  abase : Store;
  attention_items : table AttentionItem;
  engine_cursors : gmap string Z;
  annotations : table Annotation
}.

Definition A (X : Type) := AStore_ → result AttentionErr X * AStore_.

#[export] Instance A_ret : MRet A := λ X a s, (Ok a, s).
#[export] Instance A_bind : MBind A := λ X Y f m s,
  match m s with
  | (Ok a, s') => f a s'
  | (Err e, s') => (Err e, s')
  end.

Definition athrow {X} (e : AttentionErr) : A X := λ s, (Err e, s).
Definition agets {X} (f : AStore_ → X) : A X := λ s, (Ok (f s), s).
Definition asome {X} (o : option X) (e : AttentionErr) : A X :=
  match o with Some a => mret a | None => athrow e end.
Definition aensure (b : bool) (e : AttentionErr) : A unit := if b then mret () else athrow e.
Definition amodify (f : AStore_ → AStore_) : A unit := λ s, (Ok tt, f s).

Definition set_items (f : table AttentionItem → table AttentionItem) (s : AStore_) : AStore_ :=
  mkAStore (abase s) (f (attention_items s)) (engine_cursors s) (annotations s).
Definition set_cursors (f : gmap string Z → gmap string Z) (s : AStore_) : AStore_ :=
  mkAStore (abase s) (attention_items s) (f (engine_cursors s)) (annotations s).
Definition set_annotations (f : table Annotation → table Annotation) (s : AStore_) : AStore_ :=
  mkAStore (abase s) (attention_items s) (engine_cursors s) (f (annotations s)).
Definition with_base (b : Store) (s : AStore_) : AStore_ :=
  mkAStore b (attention_items s) (engine_cursors s) (annotations s).

(** A statement on the other tables. *)
Definition onBase {X} (m : M X) : A X := λ s,
  match m (abase s) with
  | (Ok a, b) => (Ok a, with_base b s)
  | (Err e, b) => (Err (AStore e), with_base b s)
  end.

(** A transaction: an error restores every table, and not the process's counter. *)
Definition ainTx {X} (m : A X) : A X := λ s,
  match m s with
  | (Ok a, s') => (Ok a, s')
  | (Err e, s') =>
    (Err e, with_base (mkStore (instanceID (abase s')) (systemSeq (abase s')) (db (abase s))) s)
  end.

(** * Raising *)

Definition validSeverity (s : string) : bool :=
  (s =? SeverityInfo)%string || (s =? SeverityNeedsDecision)%string || (s =? SeverityCritical)%string.

Definition byAttentionID (id : Z) (t : AttentionItem) : bool := tAttentionID t =? id.
Definition open_ (t : AttentionItem) : bool := negb (tAcked t).

(** [acked = 0 AND trigger_class = ? AND vm_id IS ?]: two NULLs are the same. *)
Definition sameTrigger (class : string) (vm : option string) (t : AttentionItem) : bool :=
  open_ t && (tTriggerClass t =? class)%string &&
  match tVMID t, vm with
  | Some a, Some b => (a =? b)%string
  | None, None => true
  | _, _ => false
  end.

Definition collapsed (e : Env) (eid : Z) (t : AttentionItem) : AttentionItem :=
  mkItem (tAttentionID t) (tRaisedEventID t) eid (tVMID t) (tRunID t) (tTriggerClass t)
    (tSeverity t) (tSummary t) (tSystemAction t) (tEvidenceLinks t) (tSuggestedActions t)
    (tCount t + 1) (tAcked t) (tAckedAt t) (tCreatedAt t) (sqlNow e).

Definition linked (eid : Z) (t : AttentionItem) : AttentionItem :=
  mkItem (tAttentionID t) eid eid (tVMID t) (tRunID t) (tTriggerClass t) (tSeverity t)
    (tSummary t) (tSystemAction t) (tEvidenceLinks t) (tSuggestedActions t) (tCount t)
    (tAcked t) (tAckedAt t) (tCreatedAt t) (tUpdatedAt t).

Definition ackedItem (e : Env) (t : AttentionItem) : AttentionItem :=
  mkItem (tAttentionID t) (tRaisedEventID t) (tLastEventID t) (tVMID t) (tRunID t)
    (tTriggerClass t) (tSeverity t) (tSummary t) (tSystemAction t) (tEvidenceLinks t)
    (tSuggestedActions t) (tCount t) true (Some (sqlNow e)) (tCreatedAt t) (tUpdatedAt t).

Definition readAttentionInTx (id : Z) : A AttentionItem :=
  t ← agets attention_items;
  asome (select1 (byAttentionID id) (rows t)) (ErrAttentionUnknown id).

Definition optField (k : string) (o : option string) : object :=
  match o with Some v => [(k, JStr v)] | None => [] end.

(** The data of an [attention.raised] event. *)
Definition raisedData (inp : RaiseInput) (summary : string) : object :=
  [("trigger_class", JStr (iTriggerClass inp)); ("severity", JStr (iSeverity inp));
   ("summary", JStr summary); ("system_action", JStr (iSystemAction inp))] ++
  optField "vm_id" (iVM inp) ++ optField "run_id" (iRunID inp).

Definition overflowData (inp : RaiseInput) (openCount : Z) : object :=
  [("trigger_class", JStr (iTriggerClass inp));
   ("open_count", JStr (Strconv.FormatInt openCount));
   ("queue_max", JStr (Strconv.FormatInt (iQueueMax inp)))] ++ optField "vm_id" (iVM inp).

Definition newItem (e : Env) (inp : RaiseInput) (summary : string) (id : Z) : AttentionItem :=
  mkItem id 0 0 (iVM inp) (iRunID inp) (iTriggerClass inp) (iSeverity inp) summary
    (iSystemAction inp) (iEvidenceLinks inp) (iSuggestedActions inp) 1 false None
    (sqlNow e) (sqlNow e).

Definition openCount (s : AStore_) : Z :=
  Z.of_nat (length (select open_ (rows (attention_items s)))).

Section ops.
Context (hash : Envelope → string).
(** [redact.Apply]: the redacted text, and whether it differs. *)
Context (redact : string → string * bool).

Definition emitSituation (e : Env) (k : string) (data : object) : A Z :=
  onBase (systemEmit hash e k "situation" notApplicableQuality data).

Definition raiseInTx (e : Env) (inp : RaiseInput) (summary : string) : A (option AttentionItem) :=
  t ← agets attention_items;
  match (if iCollapse inp
         then select1 (sameTrigger (iTriggerClass inp) (iVM inp)) (rows t) else None) with
  | Some existing =>
    eid ← emitSituation e "attention.raised"
      (raisedData inp summary ++
       [("attention_id", JStr (Strconv.FormatInt (tAttentionID existing))); ("collapsed", JBool true)]);
    _ ← amodify (set_items (on_rows (update (byAttentionID (tAttentionID existing)) (collapsed e eid))));
    it ← readAttentionInTx (tAttentionID existing);
    mret (Some it)
  | None =>
    open ← agets openCount;
    if (0 <? iQueueMax inp) && negb (iSeverity inp =? SeverityCritical)%string &&
       (iQueueMax inp <=? open) then
      _ ← emitSituation e "attention.queue_overflow" (overflowData inp open);
      mret None
    else
      id ← asome (nextID t) (AStore ErrFull);
      _ ← amodify (set_items (insertRow id (newItem e inp summary id)));
      eid ← emitSituation e "attention.raised"
        (raisedData inp summary ++ [("attention_id", JStr (Strconv.FormatInt id))]);
      _ ← amodify (set_items (on_rows (update (byAttentionID id) (linked eid))));
      it ← readAttentionInTx id;
      mret (Some it)
  end.

Definition advanceCursorInTx (name : string) (to : Z) : A unit :=
  amodify (set_cursors <[name := to]>).

Definition RaiseAttention (e : Env) (inp : RaiseInput) : A (option AttentionItem) :=
  _ ← aensure (negb ((iTriggerClass inp =? "")%string || (iSummary inp =? "")%string))
        ErrRaiseIncomplete;
  _ ← aensure (validSeverity (iSeverity inp)) (ErrSeverity (iSeverity inp));
  ainTx (
    it ← raiseInTx e inp (redact (iSummary inp)).1;
    _ ← (if (iCursorName inp =? "")%string then mret tt
         else advanceCursorInTx (iCursorName inp) (iCursorTo inp));
    mret it).

(** * The queue *)

Definition AckAttention (e : Env) (id : Z) : A AttentionItem := ainTx (
  _ ← readAttentionInTx id;
  _ ← amodify (set_items (on_rows (update (λ t, byAttentionID id t && open_ t) (ackedItem e))));
  readAttentionInTx id).

Definition attention_le (a b : AttentionItem) : Prop := tAttentionID a ≤ tAttentionID b.
#[export] Instance attention_le_dec a b : Decision (attention_le a b).
Proof. unfold attention_le. apply _. Defined.

Definition ListAttention (q : AttentionQuery) (s : AStore_)
    : result AttentionErr (list AttentionItem) :=
  let limit := if cLimit q =? 0 then DefaultPageLimit else cLimit q in
  if (limit <? 0) || (MaxPageLimit <? limit) then Err (ABound (cLimit q)) else
  Ok (take (Z.to_nat limit) (merge_sort attention_le
    (select (λ t, (cAfter q <? tAttentionID t) && (cIncludeAcked q || open_ t))
       (rows (attention_items s))))).

Definition severityRank (s : string) : Z :=
  if (s =? "critical")%string then 0 else if (s =? "needs_decision")%string then 1 else 2.

(** Severity first, newest within a severity. *)
Definition head_le (a b : AttentionItem) : Prop :=
  severityRank (tSeverity a) < severityRank (tSeverity b) ∨
  severityRank (tSeverity a) = severityRank (tSeverity b) ∧ tAttentionID b ≤ tAttentionID a.
#[export] Instance head_le_dec a b : Decision (head_le a b).
Proof. unfold head_le. apply _. Defined.

Definition OpenAttentionHead (n : nat) (s : AStore_) : list AttentionItem :=
  take n (merge_sort head_le (select open_ (rows (attention_items s)))).

Definition CountOpenAttention (s : AStore_) : Z := openCount s.

Definition CountOpenAttentionByVM (s : AStore_) : gmap string Z :=
  foldl (λ m t, match tVMID t with
                | Some vm => <[vm := default 0 (m !! vm) + 1]> m
                | None => m
                end) ∅ (select open_ (rows (attention_items s))).

Definition ReadEngineCursor (name : string) (s : AStore_) : Z :=
  default 0 (engine_cursors s !! name).

Definition AdvanceEngineCursor (name : string) (to : Z) : A unit :=
  ainTx (advanceCursorInTx name to).

(** * Annotations *)

Definition AnnotationTextMaxBytes : Z := 4096.
Definition AnnotationMaxTags : Z := 16.
Definition AnnotationTagKeyMaxBytes : Z := 64.
Definition AnnotationTagValueMaxBytes : Z := 256.
Definition AnnotationRefMaxBytes : Z := 256.
Definition PolicyID : string := "rp1".

Definition refTypes : list string :=
  ["vm"; "boot"; "run"; "event"; "operation"; "template"; "artifact"; "host"].

Definition len (s : string) : Z := Z.of_nat (String.length s).

(** A printable character that is not a space. *)
Definition graphic (c : Ascii.ascii) : bool := (32 <? code c) && (code c <=? 126).

(** [strings.Cut] at the first colon. *)
Fixpoint cutColon (s : string) : option (string * string) :=
  match s with
  | EmptyString => None
  | String c s' =>
    if code c =? 58 then Some ("", s')
    else match cutColon s' with
         | Some (a, b) => Some (String c a, b)
         | None => None
         end
  end.

Definition validateRef (ref : string) : bool :=
  match cutColon ref with
  | None => false
  | Some (typ, id) =>
    (len ref <=? AnnotationRefMaxBytes) && existsb (String.eqb typ) refTypes &&
    negb (id =? "")%string && allChars graphic id
  end.

(** The tags in some order, up to the first that is out of bounds. *)
Fixpoint checkTags (l : list (string * string)) : option AttentionErr :=
  match l with
  | [] => None
  | (k, v) :: l =>
    if (k =? "")%string || (AnnotationTagKeyMaxBytes <? len k)
    then Some (AnnotationBoundError "tag key" (len k) AnnotationTagKeyMaxBytes)
    else if AnnotationTagValueMaxBytes <? len v
    then Some (AnnotationBoundError "tag value" (len v) AnnotationTagValueMaxBytes)
    else checkTags l
  end.

Definition validateAnnotation (inp : AnnotationInput) : option AttentionErr :=
  if negb (validateRef (nTargetRef inp)) then Some (ErrInvalidTargetRef (nTargetRef inp))
  else if (nAuthor inp =? "")%string then Some ErrAuthorRequired
  else if (nText inp =? "")%string then Some ErrTextRequired
  else if AnnotationTextMaxBytes <? len (nText inp)
  then Some (AnnotationBoundError "text" (len (nText inp)) AnnotationTextMaxBytes)
  else if AnnotationMaxTags <? Z.of_nat (size (nTags inp))
  then Some (AnnotationBoundError "tags" (Z.of_nat (size (nTags inp))) AnnotationMaxTags)
  else checkTags (map_to_list (nTags inp)).

Definition annotationQuality (redacted : bool) (policy : string) : Quality :=
  mkQuality PathNotApplicable AttributionNotApplicable false redacted policy [].

Definition annotationData (inp : AnnotationInput) (text : string) (id : Z) : object :=
  [("annotation_id", JStr (Strconv.FormatInt id)); ("target_ref", JStr (nTargetRef inp));
   ("author", JStr (nAuthor inp)); ("text", JStr text);
   ("tags", JObj ((λ kv, (kv.1, JStr kv.2)) <$> map_to_list (nTags inp)))].

Definition byAnnotationID (id : Z) (a : Annotation) : bool := eAnnotationID a =? id.

Definition noteLinked (eid : Z) (a : Annotation) : Annotation :=
  mkAnnotation (eAnnotationID a) (eTargetRef a) (eAuthor a) (eText a) (eTags a) (eRedacted a)
    (eRedactionPolicyID a) eid (eCreatedAt a).

Definition CreateAnnotation (e : Env) (inp : AnnotationInput) : A Annotation :=
  _ ← (match validateAnnotation inp with Some err => athrow err | None => mret tt end);
  let '(text, redacted) := redact (nText inp) in
  let policy := if redacted then PolicyID else "" in
  ainTx (
    t ← agets annotations;
    id ← asome (nextID t) (AStore ErrFull);
    _ ← amodify (set_annotations (insertRow id (mkAnnotation id (nTargetRef inp) (nAuthor inp)
          text (nTags inp) redacted policy 0 (sqlNow e))));
    eid ← onBase (systemEmit hash e "annotation.created" "annotations"
            (annotationQuality redacted policy) (annotationData inp text id));
    _ ← amodify (set_annotations (on_rows (update (byAnnotationID id) (noteLinked eid))));
    t ← agets annotations;
    asome (select1 (byAnnotationID id) (rows t)) (AStore ErrStorage)).

Definition annotation_le (a b : Annotation) : Prop := eAnnotationID a ≤ eAnnotationID b.
#[export] Instance annotation_le_dec a b : Decision (annotation_le a b).
Proof. unfold annotation_le. apply _. Defined.

Definition ListAnnotations (q : AnnotationQuery) (s : AStore_)
    : result AttentionErr (list Annotation) :=
  let limit := if wLimit q =? 0 then DefaultPageLimit else wLimit q in
  if (limit <? 0) || (MaxPageLimit <? limit) then Err (ABound (wLimit q))
  else if negb (wRef q =? "")%string && negb (validateRef (wRef q))
  then Err (ErrInvalidTargetRef (wRef q))
  else Ok (take (Z.to_nat limit) (merge_sort annotation_le
    (select (λ a, (wAfter q <? eAnnotationID a) &&
                  ((wRef q =? "")%string || (eTargetRef a =? wRef q)%string))
       (rows (annotations s))))).

End ops.
End Attention.
