(* ===== verification/AttentionRules.v ===== *)
(** What the operations on the attention queue do: a raise as one event of the log
    and one change of the queue, and the queue as the log's account. *)

From S2P Require Import Prelude Events Store RunStore VmStore StoreRules Registry History.
From S2P Require Import EventQuery AttentionStore.
Import Events Sql Store Log Runs Vms Rules Registry History EventQuery Attention.

Local Open Scope Z_scope.

Module AttentionRules.

Definition attentionKind (k : string) : bool :=
  (k =? "attention.raised")%string || (k =? "attention.queue_overflow")%string.

Section rules.
Context (hash : Envelope → string) (redact : string → string * bool).

(** The store after one event of the situation sensor. *)
Definition told (e : Env) (k : string) (data : object) (s : Store) : Store :=
  noted hash "situation" notApplicableQuality e k data s.

Lemma told_exec e k data s :
  log_ok hash s → ready 1 e s → kindOk k = true →
  told e k data s = exec hash e (ONotice k "situation" notApplicableQuality data) s ∧
  log_ok hash (told e k data s).
Proof.
  intros Hl Hr Hk. cbn [exec]. unfold inTx.
  destruct (systemEmit_total hash e k "situation" notApplicableQuality data s Hl Hr Hk) as [E Hl'];
    [done..|]. by rewrite E.
Qed.

(** ** A raise, case by case *)

Inductive raised (e : Env) (inp : RaiseInput) (s : AStore_) : option AttentionItem → AStore_ → Prop :=
  | raised_collapsed t it data :
      iCollapse inp = true →
      select1 (sameTrigger (iTriggerClass inp) (iVM inp)) (rows (attention_items s)) = Some t →
      field data "attention_id" = Some (JStr (Strconv.FormatInt (tAttentionID t))) →
      raised e inp s (Some it) (mkAStore (told e "attention.raised" data (abase s))
        (on_rows (update (byAttentionID (tAttentionID t))
           (collapsed e (seq (events (db (abase s))) + 1))) (attention_items s))
        (engine_cursors s) (annotations s))
  | raised_overflow data :
      0 < iQueueMax inp ≤ openCount s → iSeverity inp ≠ SeverityCritical →
      raised e inp s None (mkAStore (told e "attention.queue_overflow" data (abase s))
        (attention_items s) (engine_cursors s) (annotations s))
  | raised_new it data :
      let id := seq (attention_items s) + 1 in
      (iCollapse inp = true →
       select1 (sameTrigger (iTriggerClass inp) (iVM inp)) (rows (attention_items s)) = None) →
      (0 < iQueueMax inp → iSeverity inp ≠ SeverityCritical → openCount s < iQueueMax inp) →
      seq (attention_items s) < Int.MaxInt64 →
      field data "attention_id" = Some (JStr (Strconv.FormatInt id)) →
      raised e inp s (Some it) (mkAStore (told e "attention.raised" data (abase s))
        (on_rows (update (byAttentionID id) (linked (seq (events (db (abase s))) + 1)))
           (insertRow id (newItem e inp (redact (iSummary inp)).1 id) (attention_items s)))
        (engine_cursors s) (annotations s)).

(** The cursor a raise carries. *)
Definition cursorAfter (inp : RaiseInput) (s : AStore_) : AStore_ :=
  if (iCursorName inp =? "")%string then s
  else set_cursors <[iCursorName inp := iCursorTo inp]> s.

Lemma field_last o k v : field (o ++ [(k, v)]) k = Some v.
Proof.
  induction o as [|[k' v'] o IH]; cbn; [by rewrite String.eqb_refl|]. by rewrite IH.
Qed.

Lemma field_last_but o k v k2 v2 :
  k2 ≠ k → field (o ++ [(k, v); (k2, v2)]) k = Some v.
Proof.
  intros Hn. induction o as [|[k' v'] o IH]; cbn.
  - by rewrite (proj2 (String.eqb_neq k2 k) Hn), String.eqb_refl.
  - by rewrite IH.
Qed.

Lemma emitSituation_eq e k data s :
  log_ok hash (abase s) → ready 1 e (abase s) → kindOk k = true →
  emitSituation hash e k data s =
  (Ok (seq (events (db (abase s))) + 1), with_base (told e k data (abase s)) s).
Proof.
  intros Hl Hr Hk. unfold emitSituation, onBase.
  destruct (systemEmit_total hash e k "situation" notApplicableQuality data (abase s) Hl Hr Hk)
    as [E _]; [done..|]. by rewrite E.
Qed.

Lemma byID_collapsed e eid id t : byAttentionID id (collapsed e eid t) = byAttentionID id t.
Proof. done. Qed.
Lemma byID_linked eid id t : byAttentionID id (linked eid t) = byAttentionID id t.
Proof. done. Qed.

Lemma select1_byID_Some id (l : list AttentionItem) t :
  t ∈ l → tAttentionID t = id → ∃ t', select1 (byAttentionID id) l = Some t'.
Proof.
  intros Ht <-. destruct (select1 (byAttentionID (tAttentionID t)) l) eqn:E; [by eexists|].
  apply (proj1 (select1_None _ _) E) in Ht. unfold byAttentionID in Ht. by rewrite Z.eqb_refl in Ht.
Qed.

Definition complete (inp : RaiseInput) : Prop :=
  iTriggerClass inp ≠ "" ∧ iSummary inp ≠ "" ∧ validSeverity (iSeverity inp) = true.

(** With room for one more event and item, a complete raise succeeds. *)
Lemma RaiseAttention_spec e inp s :
  log_ok hash (abase s) → ready 1 e (abase s) → seq (attention_items s) < Int.MaxInt64 →
  complete inp →
  ∃ r s1, raised e inp s r s1 ∧ RaiseAttention hash redact e inp s = (Ok r, cursorAfter inp s1).
Proof.
  intros Hl Hr Hm (Hc & Hs & Hv). set (sum := (redact (iSummary inp)).1).
  assert (Hin : ∃ r s1, raised e inp s r s1 ∧ raiseInTx hash e inp sum s = (Ok r, s1)).
  { unfold raiseInTx, mbind, A_bind, agets. cbv beta iota.
    destruct (if iCollapse inp then select1 _ _ else None) as [t|] eqn:Et.
    - destruct (iCollapse inp) eqn:Ec; [|done].
      match goal with |- context [emitSituation _ _ _ ?d] => set (data := d) end.
      assert (Hd : field data "attention_id" = Some (JStr (Strconv.FormatInt (tAttentionID t))))
        by by apply field_last_but. clearbody data.
      rewrite (emitSituation_eq e _ _ s Hl Hr) by done.
      unfold amodify, readAttentionInTx, mbind, A_bind, agets, asome, mret, A_ret.
      cbn [attention_items set_items with_base abase engine_cursors annotations on_rows rows].
      rewrite select1_update by apply byID_collapsed.
      pose proof (select1_Some _ _ _ Et) as [Ht _].
      destruct (select1_byID_Some _ _ t Ht eq_refl) as [t' Et']. rewrite Et'. cbn.
      eexists _, _. split; [|reflexivity].
      unfold set_items, with_base. cbn [abase attention_items engine_cursors annotations].
      by eapply raised_collapsed.
    - assert (Hnone : iCollapse inp = true → select1 (sameTrigger (iTriggerClass inp) (iVM inp))
        (rows (attention_items s)) = None) by by intros E; rewrite E in Et.
      destruct ((0 <? iQueueMax inp) && negb (iSeverity inp =? SeverityCritical)%string &&
        (iQueueMax inp <=? openCount s)) eqn:Eo.
      + apply andb_true_iff in Eo as [[H1%Z.ltb_lt H2]%andb_true_iff H3%Z.leb_le].
        apply negb_true_iff, String.eqb_neq in H2.
        rewrite (emitSituation_eq e _ _ s Hl Hr) by done. unfold mret, A_ret, with_base.
        eexists _, _. split; [|reflexivity]. by eapply raised_overflow.
      + unfold asome, nextID. rewrite (proj2 (Z.ltb_lt _ _) Hm). unfold mret, A_ret, amodify.
        match goal with |- context [emitSituation _ _ _ ?d] => set (data := d) end.
        assert (Hd : field data "attention_id" =
          Some (JStr (Strconv.FormatInt (seq (attention_items s) + 1)))) by by apply field_last.
        clearbody data.
        rewrite emitSituation_eq by done.
        unfold readAttentionInTx, mbind, A_bind, agets, asome, mret, A_ret.
        cbn [attention_items set_items with_base abase engine_cursors annotations on_rows rows insertRow].
        rewrite select1_update by apply byID_linked.
        destruct (select1_byID_Some (seq (attention_items s) + 1)
          (rows (attention_items s) ++ [newItem e inp sum (seq (attention_items s) + 1)])
          (newItem e inp sum (seq (attention_items s) + 1))) as [t' Et'];
          [apply elem_of_app; right; by apply list_elem_of_singleton|done|].
        rewrite Et'. cbn. eexists _, _. split; [|reflexivity].
        unfold set_items, with_base. cbn [abase attention_items engine_cursors annotations].
        apply raised_new; [done| |done|done].
        intros H1 H2. apply andb_false_iff in Eo as [Eo|Eo%Z.leb_gt]; [|done].
        apply andb_false_iff in Eo as [Eo%Z.ltb_ge|Eo]; [lia|].
        apply negb_false_iff, String.eqb_eq in Eo. done. }
  destruct Hin as (r & s1 & Hra & Hin). exists r, s1. split; [done|].
  unfold RaiseAttention. rewrite (proj2 (String.eqb_neq _ _) Hc), (proj2 (String.eqb_neq _ _) Hs), Hv.
  unfold aensure, mbind, A_bind, mret, A_ret, ainTx, cursorAfter, advanceCursorInTx, amodify.
  cbn [negb orb]. fold sum. rewrite Hin. by destruct (iCursorName inp =? "")%string.
Qed.

Lemma RaiseAttention_incomplete e inp s :
  ¬ complete inp → (RaiseAttention hash redact e inp s).2 = s.
Proof.
  intros Hn. unfold RaiseAttention, aensure, mbind, A_bind, athrow, mret, A_ret.
  destruct (iTriggerClass inp =? "")%string eqn:Ec; [done|].
  destruct (iSummary inp =? "")%string eqn:Es; [done|]. cbn [orb negb].
  destruct (validSeverity (iSeverity inp)) eqn:Ev; [|done]. destruct Hn.
  apply String.eqb_neq in Ec, Es. done.
Qed.

(** ** Annotations *)

Lemma CreateAnnotation_spec e inp s :
  log_ok hash (abase s) → ready 1 e (abase s) → seq (annotations s) < Int.MaxInt64 →
  (validateAnnotation inp ≠ None ∧ (CreateAnnotation hash redact e inp s).2 = s) ∨
  ∃ a ql data t', CreateAnnotation hash redact e inp s =
    (Ok a, mkAStore (noted hash "annotations" ql e "annotation.created" data (abase s))
       (attention_items s) (engine_cursors s) t') ∧ qualityOk ql = true.
Proof.
  intros Hl Hr Hm. unfold CreateAnnotation.
  destruct (validateAnnotation inp) as [err|]; [by left|right].
  unfold mbind at 1, A_bind at 1, mret at 1, A_ret at 1.
  destruct (redact (nText inp)) as [text red].
  set (ql := annotationQuality red (if red then PolicyID else "")).
  assert (Hq : qualityOk ql = true) by done.
  unfold ainTx, mbind, A_bind, agets, asome, nextID, amodify, onBase.
  rewrite (proj2 (Z.ltb_lt _ _) Hm). cbn [mret A_ret].
  set (data := annotationData inp text (seq (annotations s) + 1)).
  unfold mret, A_ret. cbn [set_annotations abase with_base attention_items engine_cursors annotations].
  destruct (systemEmit_total hash e "annotation.created" "annotations" ql data (abase s) Hl Hr)
    as [E _]; [done..|]. rewrite E.
  cbn [set_annotations abase with_base attention_items engine_cursors annotations on_rows rows insertRow].
  rewrite select1_update by done. rewrite select1_app.
  destruct (select1 (byAnnotationID (seq (annotations s) + 1)) (rows (annotations s))) as [a|];
    [by eexists _, ql, data, _|].
  unfold select1 at 1, select. cbn [List.filter].
  assert (Hb : byAnnotationID (seq (annotations s) + 1)
    (mkAnnotation (seq (annotations s) + 1) (nTargetRef inp) (nAuthor inp) text (nTags inp) red
       (if red then PolicyID else "") 0 (sqlNow e)) = true) by apply Z.eqb_refl.
  rewrite Hb. cbn. by eexists _, ql, data, _.
Qed.

(** * Executions *)

Inductive AOp :=
  | ABase (o : Op)
  | ARaise (inp : RaiseInput)
  | AAck (id : Z)
  | AAdvance (name : string) (to : Z)
  | ANote (inp : AnnotationInput).

Definition aexec (e : Env) (o : AOp) (s : AStore_) : AStore_ :=
  match o with
  | ABase o => with_base (exec hash e o (abase s)) s
  | ARaise inp => (RaiseAttention hash redact e inp s).2
  | AAck id => (AckAttention e id s).2
  | AAdvance name to => (AdvanceEngineCursor name to s).2
  | ANote inp => (CreateAnnotation hash redact e inp s).2
  end.

(** Only raises write the attention kinds. *)
Definition alegal (o : AOp) (s : AStore_) : Prop :=
  match o with
  | ABase o => legal o (abase s) ∧ ∀ k, kindIn (opKinds o) k → attentionKind k = false
  | _ => True
  end.

Definition aready (e : Env) (s : AStore_) : Prop :=
  ready 4 e (abase s) ∧ seq (attention_items s) < Int.MaxInt64 ∧
  seq (annotations s) < Int.MaxInt64.

Inductive astep : AStore_ → AOp → AStore_ → Prop :=
  | astep_op e o s : aready e s → alegal o s → astep s o (aexec e o s).

Definition asteps : AStore_ → AStore_ → Prop := rtc (λ s s', ∃ o, astep s o s').

Definition openA (inst : string) : AStore_ :=
  mkAStore (Open inst emptyDB) empty_table ∅ empty_table.

End rules.
End AttentionRules.
