(* ===== verification/AttentionRuns.v ===== *)
(** The attention queue in every execution of the store. *)

From S2P Require Import Prelude Events Store RunStore VmStore StoreRules Registry History.
From S2P Require Import EventQuery AttentionStore AttentionRules.
Import Events Sql Store Log Runs Vms Rules Registry History EventQuery Attention AttentionRules.

Local Open Scope Z_scope.

Module AttentionRuns.

Abbreviation log s := (rows (events (db (abase s)))).
Abbreviation items s := (rows (attention_items s)).

(** An event that raises the item with an id. *)
Definition raises (id : Z) (r : EventRow) : bool :=
  (kind r =? "attention.raised")%string &&
  match Data (payload r) with
  | Some d => match field d "attention_id" with
              | Some (JStr x) => (x =? Strconv.FormatInt id)%string
              | _ => false
              end
  | None => false
  end.

(** What an item says of itself is what the log says of it. *)
Definition accountedItem (l : list EventRow) (t : AttentionItem) : Prop :=
  let evs := select (raises (tAttentionID t)) l in
  tCount t = Z.of_nat (length evs) ∧
  event_id <$> head evs = Some (tRaisedEventID t) ∧
  event_id <$> last evs = Some (tLastEventID t).

Section runs.
Context (hash : Envelope → string) (redact : string → string * bool).

Record accounted (s : AStore_) : Prop := mkAccounted {
  ac_log : log_ok hash (abase s);
  ac_ids : NoDup (tAttentionID <$> items s);
  ac_range : ∀ t, t ∈ items s → 1 ≤ tAttentionID t ≤ seq (attention_items s);
  ac_seq : 0 ≤ seq (attention_items s);
  ac_item : ∀ t, t ∈ items s → accountedItem (log s) t;
  ac_event : ∀ r, r ∈ log s → kind r = "attention.raised" →
    ∃ t, t ∈ items s ∧ raises (tAttentionID t) r = true
}.

Lemma accounted_empty inst : accounted (openA inst).
Proof.
  split; cbn; [apply log_ok_empty|constructor|..|done| |];
    intros ? H; by apply elem_of_nil in H.
Qed.

(** ** The log of a step *)

Lemma quiet_raises k id r : attentionKind k = false → kind r = k → raises id r = false.
Proof.
  intros Hk Hr. unfold raises. subst k. unfold attentionKind in Hk.
  apply orb_false_iff in Hk as [-> _]. done.
Qed.

(** Events of other kinds do not change the account. *)
Lemma accounted_quiet s b tl :
  accounted s → log_ok hash b → rows (events (db b)) = log s ++ tl →
  Forall (λ r, kind r ≠ "attention.raised") tl →
  accounted (with_base b s).
Proof.
  intros [Hl Hi Hr Hs Ht He] Hb E Hk. split; cbn [abase with_base attention_items]; try done.
  - intros t Hin. specialize (Ht t Hin). unfold accountedItem. rewrite E, select_app.
    rewrite (select_none _ tl), app_nil_r; [done|]. intros r Hr'.
    rewrite Forall_forall in Hk. apply Hk in Hr'. unfold raises.
    by rewrite (proj2 (String.eqb_neq _ _) Hr').
  - intros r Hr'. rewrite E in Hr'. apply elem_of_app in Hr' as [Hr'|Hr']; [by apply He|].
    rewrite Forall_forall in Hk. by apply Hk in Hr'.
Qed.

Lemma log_told e k data s : rows (events (db (told hash e k data s))) =
  rows (events (db s)) ++ [eventRow hash (seq (events (db s)) + 1)
    (ownEnvQ HostObserved "situation" notApplicableQuality e k data s)].
Proof. unfold told, noted. cbn [db]. by rewrite events_recorded. Qed.

Lemma raises_told e data s id0 id :
  field data "attention_id" = Some (JStr (Strconv.FormatInt id0)) → 0 ≤ id0 → 0 ≤ id →
  raises id (eventRow hash (seq (events (db s)) + 1)
    (ownEnvQ HostObserved "situation" notApplicableQuality e "attention.raised" data s)) =
  bool_decide (id0 = id).
Proof.
  intros Hd H0 H1. unfold raises. cbn [kind eventRow ownEnvQ storeEnvelope Kind payload Data].
  rewrite Hd. change ((?x =? ?x)%string && ?b) with b.
  destruct (String.eqb_spec (Strconv.FormatInt id0) (Strconv.FormatInt id)) as [E|E].
  - apply (inj Strconv.FormatInt) in E. by rewrite bool_decide_true.
  - rewrite bool_decide_false; [done|congruence].
Qed.

Lemma told_ok e k data s :
  log_ok hash s → ready 4 e s → kindOk k = true → log_ok hash (told hash e k data s).
Proof. intros Hl Hr Hk. by apply told_exec; [|eapply ready_le; [|exact Hr]|]. Qed.

(** ** Every step *)

Lemma accountedItem_snoc l r t :
  accountedItem l t → raises (tAttentionID t) r = false → accountedItem (l ++ [r]) t.
Proof.
  unfold accountedItem. intros H Hr. rewrite select_app. unfold select at 2 4 6. cbn.
  by rewrite Hr, app_nil_r.
Qed.

Lemma accountedItem_hit l r t t' :
  accountedItem l t → tAttentionID t' = tAttentionID t →
  raises (tAttentionID t) r = true → tCount t' = tCount t + 1 →
  tRaisedEventID t' = tRaisedEventID t → tLastEventID t' = event_id r →
  accountedItem (l ++ [r]) t'.
Proof.
  unfold accountedItem. intros (Hc & Hh & Hla) Hi Hr Hc' Hr' Hl'. rewrite Hi, select_app.
  assert (E : select (raises (tAttentionID t)) [r] = [r]) by (unfold select; cbn; by rewrite Hr).
  rewrite E, length_app, last_snoc. split_and!; [cbn; lia| |cbn; congruence].
  rewrite Hr', <- Hh. by destruct (select (raises (tAttentionID t)) l).
Qed.

(** A collapsed raise: one more event for the item, and its count. *)
Lemma accounted_collapsed e inp s t data :
  accounted s → ready 4 e (abase s) →
  select1 (sameTrigger (iTriggerClass inp) (iVM inp)) (items s) = Some t →
  field data "attention_id" = Some (JStr (Strconv.FormatInt (tAttentionID t))) →
  accounted (mkAStore (told hash e "attention.raised" data (abase s))
    (on_rows (update (byAttentionID (tAttentionID t))
       (collapsed e (seq (events (db (abase s))) + 1))) (attention_items s))
    (engine_cursors s) (annotations s)).
Proof.
  intros H Hrd Hsel Hf. pose proof H as [Hl Hi Hr Hs Ht He].
  pose proof (select1_Some _ _ _ Hsel) as [Hin Hst].
  set (row := eventRow hash (seq (events (db (abase s))) + 1)
    (ownEnvQ HostObserved "situation" notApplicableQuality e "attention.raised" data (abase s))).
  assert (Hpos : ∀ t, t ∈ items s → 0 ≤ tAttentionID t) by (intros t' Ht'%Hr; lia).
  assert (Hrow : ∀ t', t' ∈ items s → raises (tAttentionID t') row =
    bool_decide (tAttentionID t = tAttentionID t')) by (intros; apply raises_told; auto).
  split; cbn [abase attention_items on_rows rows seq].
  - by apply told_ok.
  - by rewrite fmap_update.
  - intros t' (t0 & Ht0 & ->)%elem_of_update. destruct (byAttentionID _ t0); cbn; by apply Hr.
  - done.
  - intros t' (t0 & Ht0 & ->)%elem_of_update. rewrite log_told. fold row.
    destruct (byAttentionID (tAttentionID t) t0) eqn:E.
    + apply Z.eqb_eq in E.
      eapply (accountedItem_hit _ _ t0); [by apply Ht|done| |done..].
      rewrite Hrow by done. rewrite bool_decide_true; [done|congruence].
    + apply accountedItem_snoc; [by apply Ht|]. rewrite Hrow by done.
      apply bool_decide_false. apply Z.eqb_neq in E. congruence.
  - intros r Hr' Hk. rewrite log_told in Hr'. apply elem_of_app in Hr' as [Hr'|Hr'].
    + destruct (He r Hr' Hk) as (t0 & Ht0 & Hra).
      exists (if byAttentionID (tAttentionID t) t0 then
        collapsed e (seq (events (db (abase s))) + 1) t0 else t0).
      split; [apply elem_of_update; eauto|]. by destruct (byAttentionID _ t0).
    + apply list_elem_of_singleton in Hr' as ->. fold row.
      exists (collapsed e (seq (events (db (abase s))) + 1) t). split.
      * apply elem_of_update. exists t. split; [done|]. unfold byAttentionID.
         by rewrite Z.eqb_refl.
      * cbn [collapsed tAttentionID]. rewrite Hrow by done. by apply bool_decide_true.
Qed.

(** No event raises an id that no item has. *)
Lemma raises_unused s id :
  accounted s → seq (attention_items s) < id → select (raises id) (log s) = [].
Proof.
  intros [Hl Hi Hr Hs Ht He] Hid. apply select_none. intros r Hin. apply not_true_iff_false. intros Hra.
  assert (Hk : kind r = "attention.raised").
  { unfold raises in Hra. apply andb_true_iff in Hra as [E%String.eqb_eq _]. done. }
  destruct (He r Hin Hk) as (t & Htin & Hra'). pose proof (Hr t Htin).
  unfold raises in Hra, Hra'. destruct (kind r =? "attention.raised")%string; [|done].
  cbn [andb] in *. destruct (Data (payload r)) as [d|]; [|done].
  destruct (field d "attention_id") as [[]|]; try done.
  apply String.eqb_eq in Hra, Hra'. rewrite Hra in Hra'.
  apply (inj Strconv.FormatInt) in Hra'. lia.
Qed.

(** A new item: the first event for its id. *)
Lemma accounted_new e inp s id data :
  accounted s → ready 4 e (abase s) → id = seq (attention_items s) + 1 →
  field data "attention_id" = Some (JStr (Strconv.FormatInt id)) →
  accounted (mkAStore (told hash e "attention.raised" data (abase s))
    (on_rows (update (byAttentionID id) (linked (seq (events (db (abase s))) + 1)))
       (insertRow id (newItem e inp (redact (iSummary inp)).1 id) (attention_items s)))
    (engine_cursors s) (annotations s)).
Proof.
  intros H Hrd Hid Hf. pose proof H as [Hl Hi Hr Hs Ht He].
  set (row := eventRow hash (seq (events (db (abase s))) + 1)
    (ownEnvQ HostObserved "situation" notApplicableQuality e "attention.raised" data (abase s))).
  assert (Hfresh : ∀ t, t ∈ items s → byAttentionID id t = false).
  { intros t Hin%Hr. apply Z.eqb_neq. lia. }
  set (new := newItem e inp (redact (iSummary inp)).1 id).
  assert (Hup : update (byAttentionID id) (linked (seq (events (db (abase s))) + 1)) (items s ++ [new]) =
    items s ++ [linked (seq (events (db (abase s))) + 1) new]).
  { rewrite update_app, update_id by done. f_equal. unfold update. cbn.
    unfold byAttentionID. cbn. by rewrite Z.eqb_refl. }
  assert (Hold : select (raises id) (log s) = []) by (apply raises_unused; [done|lia]).
  assert (Hrow : ∀ id', 0 ≤ id' → raises id' row = bool_decide (id = id'))
    by (intros; apply raises_told; lia || done).
  split; cbn [abase attention_items on_rows rows seq insertRow]; fold new; rewrite ?Hup.
  - by apply told_ok.
  - rewrite fmap_app. apply NoDup_app. split_and!; [done| |apply NoDup_singleton].
    intros x (t & -> & Hin)%list_elem_of_fmap Hx%list_elem_of_singleton. cbn in Hx.
    apply Hr in Hin. lia.
  - intros t [Hin| ->%list_elem_of_singleton]%elem_of_app; [apply Hr in Hin|cbn]; lia.
  - lia.
  - intros t [Hin| ->%list_elem_of_singleton]%elem_of_app; rewrite log_told; fold row.
    + apply accountedItem_snoc; [by apply Ht|]. pose proof (Hr t Hin).
      rewrite Hrow by lia. apply bool_decide_false. lia.
    + unfold accountedItem. cbn [linked tAttentionID tCount tRaisedEventID tLastEventID new newItem].
      rewrite select_app, Hold. unfold select. cbn [List.filter app].
      rewrite Hrow by lia. by rewrite bool_decide_true.
  - intros r Hr' Hk. rewrite log_told in Hr'. apply elem_of_app in Hr' as [Hr'|Hr'].
    + destruct (He r Hr' Hk) as (t0 & Ht0 & Hra). exists t0.
      split; [apply elem_of_app; by left|done].
    + apply list_elem_of_singleton in Hr' as ->. fold row.
      eexists. split; [apply elem_of_app; right; by apply list_elem_of_singleton|].
      cbn [linked tAttentionID new newItem]. rewrite Hrow by lia. by apply bool_decide_true.
Qed.

Lemma raised_accounted e inp s r s' :
  accounted s → ready 4 e (abase s) → raised hash redact e inp s r s' → accounted s'.
Proof.
  intros H Hrd [t it data Hc Hsel Hf|data Hq Hsv|it data id Hsel Hq Hm Hf].
  - by eapply accounted_collapsed.
  - apply (accounted_quiet s (told hash e "attention.queue_overflow" data (abase s)) [eventRow hash (seq (events (db (abase s))) + 1)
      (ownEnvQ HostObserved "situation" notApplicableQuality e "attention.queue_overflow" data
         (abase s))]); [done|apply told_ok; [by apply ac_log|done..]|apply log_told|]. by repeat constructor.
  - by apply accounted_new.
Qed.

(** The other operations leave the attention events alone. *)
Lemma accounted_cursors s f : accounted s → accounted (set_cursors f s).
Proof. by intros []. Qed.

Lemma Ack_cases e id s :
  (AckAttention e id s).2 = s ∨
  (AckAttention e id s).2 = set_items (on_rows (update (λ t, byAttentionID id t && open_ t) (ackedItem e))) s.
Proof.
  unfold AckAttention, ainTx, readAttentionInTx, mbind, A_bind, agets, asome, amodify, mret, A_ret, athrow.
  destruct (select1 (byAttentionID id) (items s)) eqn:E; cbn.
  - destruct (select1 _ (update _ _ _)); cbn; [by right|left]. by destruct s as [[]].
  - left. by destruct s as [[]].
Qed.

Lemma accounted_ack e id s : accounted s → accounted (AckAttention e id s).2.
Proof.
  intros H. destruct (Ack_cases e id s) as [->| ->]; [done|].
  destruct H as [Hl Hi Hr Hs Ht He]. split; cbn [abase set_items attention_items on_rows rows seq]; try done.
  - by rewrite fmap_update.
  - intros t (t0 & Ht0 & ->)%elem_of_update. specialize (Hr t0 Ht0).
    by destruct (byAttentionID id t0 && open_ t0).
  - intros t (t0 & Ht0 & ->)%elem_of_update. specialize (Ht t0 Ht0).
    by destruct (byAttentionID id t0 && open_ t0).
  - intros r Hr' Hk. destruct (He r Hr' Hk) as (t & Hin & Hra).
    exists (if byAttentionID id t && open_ t then ackedItem e t else t).
    split; [apply elem_of_update; eauto|by destruct (byAttentionID id t && open_ t)].
Qed.

Lemma noted_base e ql data s :
  log_ok hash s → ready 4 e s → qualityOk ql = true →
  noted hash "annotations" ql e "annotation.created" data s =
    exec hash e (ONotice "annotation.created" "annotations" ql data) s ∧
  log_ok hash (noted hash "annotations" ql e "annotation.created" data s) ∧
  ∃ r, rows (events (db (noted hash "annotations" ql e "annotation.created" data s))) =
    rows (events (db s)) ++ [r] ∧ kind r = "annotation.created".
Proof.
  intros Hl Hr Hq. cbn [exec]. unfold inTx.
  destruct (systemEmit_total hash e "annotation.created" "annotations" ql data s Hl)
    as [E Hl']; [by eapply ready_le; [|exact Hr]|done..|]. rewrite E.
  split_and!; [done..|]. eexists. unfold noted. cbn [db]. by rewrite events_recorded.
Qed.

#[local] Instance complete_dec inp : Decision (complete inp).
Proof. unfold complete. apply _. Defined.

Lemma astep_accounted s o s' : astep hash redact s o s' → accounted s → accounted s'.
Proof.
  intros [e o' s0 (Hrd & Hit & Han) Hlg] H. clear s s' o. pose proof H as [Hl _ _ _ _ _].
  assert (Hr1 : ready 1 e (abase s0)) by by eapply ready_le; [|exact Hrd].
  destruct o' as [o|inp|id|name to|inp]; cbn [aexec].
  - destruct Hlg as [Hlg Hk].
    destruct (step_log hash (abase s0) o (exec hash e o (abase s0))) as [Hl' (tl & E & Ht)];
      [by constructor|done|].
    eapply accounted_quiet; [done|done|exact E|]. eapply Forall_impl; [exact Ht|].
    intros r Hr. cbv beta in Hr. apply Hk in Hr. intros Er. rewrite Er in Hr. done.
  - destruct (decide (complete inp)) as [Hc|Hc]; [|by rewrite RaiseAttention_incomplete].
    destruct (RaiseAttention_spec hash redact e inp s0 Hl Hr1 Hit Hc) as (r & s1 & Hra & ->). cbn.
    apply raised_accounted in Hra; [|done..]. unfold cursorAfter.
    destruct (iCursorName inp =? "")%string; [done|by apply accounted_cursors].
  - by apply accounted_ack.
  - by apply accounted_cursors.
  - destruct (CreateAnnotation_spec hash redact e inp s0 Hl Hr1 Han)
      as [[_ ->]|(a & ql & data & t' & -> & Hq)]; [done|]. cbn.
    destruct (noted_base e ql data (abase s0) Hl Hrd Hq) as (_ & Hl' & r & E & Hk).
    assert (H' : accounted (with_base (noted hash "annotations" ql e "annotation.created" data (abase s0)) s0)).
    { eapply accounted_quiet; [done|done|exact E|]. repeat constructor. by rewrite Hk. }
    by destruct H'.
Qed.

Lemma asteps_accounted s s' : asteps hash redact s s' → accounted s → accounted s'.
Proof. induction 1 as [|s1 s2 s3 [o Ho] _ IH]; [done|]. intros H. by eapply IH, astep_accounted. Qed.

(** ** The other tables *)

(** The rest of the store moves as it does without attention. *)
Lemma astep_base s o s' :
  astep hash redact s o s' → log_ok hash (abase s) →
  abase s' = abase s ∨ ∃ o', step hash (abase s) o' (abase s').
Proof.
  intros [e o' s0 (Hrd & Hit & Han) Hlg] Hl. clear s s' o.
  assert (Hr1 : ready 1 e (abase s0)) by by eapply ready_le; [|exact Hrd].
  destruct o' as [o|inp|id|name to|inp]; cbn [aexec].
  - right. exists o. destruct Hlg. by constructor.
  - destruct (decide (complete inp)) as [Hc|Hc]; [|left; by rewrite RaiseAttention_incomplete].
    destruct (RaiseAttention_spec hash redact e inp s0 Hl Hr1 Hit Hc) as (r & s1 & Hra & ->). cbn.
    assert (E : abase (cursorAfter inp s1) = abase s1) by (unfold cursorAfter; by case_match).
    rewrite E. right. destruct Hra; cbn [abase]; eexists;
      (match goal with |- context [told hash e ?k ?d _] =>
         rewrite (proj1 (told_exec hash e k d (abase s0) Hl Hr1 ltac:(reflexivity))) end;
       by constructor).
  - left. by destruct (Ack_cases e id s0) as [->| ->].
  - by left.
  - destruct (CreateAnnotation_spec hash redact e inp s0 Hl Hr1 Han)
      as [[_ ->]|(a & ql & data & t' & -> & Hq)]; [by left|right]. cbn.
    destruct (noted_base e ql data (abase s0) Hl Hrd Hq) as (-> & _). eexists. by constructor.
Qed.

Lemma asteps_base s s' :
  asteps hash redact s s' → log_ok hash (abase s) → ∃ os, steps hash (abase s) os (abase s').
Proof.
  induction 1 as [s|s1 s2 s3 [o Ho] _ IH]; intros Hl; [exists []; constructor|].
  destruct (astep_base _ _ _ Ho Hl) as [E|[o' Hs]].
  - rewrite E in IH. by apply IH.
  - destruct (IH (proj1 (step_log hash _ _ _ Hs Hl))) as [os Hos].
    exists (o' :: os). by econstructor.
Qed.

(** ** Acknowledged items *)

Lemma raised_acked e inp s r s' t :
  raised hash redact e inp s r s' → accounted s → t ∈ items s → tAcked t = true → t ∈ items s'.
Proof.
  intros Hra [Hl Hi Hr _ _ _] Hin Ha. destruct Hra as [x it data Hc Hsel Hf| |it data id Hsel Hq Hm Hf];
    cbn [attention_items on_rows rows insertRow]; [|done|].
  - apply elem_of_update. exists t. split; [done|].
    destruct (byAttentionID (tAttentionID x) t) eqn:E; [|done]. exfalso.
    apply Z.eqb_eq in E. apply select1_Some in Hsel as [Hx Hs].
    assert (t = x) as ->.
    { apply list_elem_of_lookup in Hin as [i Hi1], Hx as [j Hj].
      assert (i = j) as ->; [|congruence].
      eapply (NoDup_lookup _ _ _ (tAttentionID t) Hi); rewrite list_lookup_fmap, ?Hi1, ?Hj; cbn; congruence. }
    unfold sameTrigger, open_ in Hs. by rewrite Ha in Hs.
  - apply elem_of_update. exists t. split; [apply elem_of_app; by left|].
    apply Hr in Hin. unfold byAttentionID. by rewrite (proj2 (Z.eqb_neq _ _)) by lia.
Qed.

Lemma astep_acked s o s' t :
  astep hash redact s o s' → accounted s → t ∈ items s → tAcked t = true → t ∈ items s'.
Proof.
  intros [e o' s0 (Hrd & Hit & Han) Hlg] H Hin Ha. clear s s' o. pose proof (ac_log _ H) as Hl.
  assert (Hr1 : ready 1 e (abase s0)) by by eapply ready_le; [|exact Hrd].
  destruct o' as [o|inp|id|name to|inp]; cbn [aexec]; [done| | |done|].
  - destruct (decide (complete inp)) as [Hc|Hc]; [|by rewrite RaiseAttention_incomplete].
    destruct (RaiseAttention_spec hash redact e inp s0 Hl Hr1 Hit Hc) as (r & s1 & Hra & ->). cbn.
    eapply raised_acked in Hra; [|done..]. unfold cursorAfter. by case_match.
  - destruct (Ack_cases e id s0) as [->| ->]; [done|]. cbn [attention_items set_items on_rows rows].
    apply elem_of_update. exists t. split; [done|]. unfold open_. rewrite Ha. by rewrite andb_false_r.
  - destruct (CreateAnnotation_spec hash redact e inp s0 Hl Hr1 Han)
      as [[_ ->]|(a & ql & data & t' & -> & Hq)]; done.
Qed.

End runs.

(** C14: The attention queue is the log's account, and what the operator has
    acknowledged is final. In any execution of the store with raises, collapses,
    refusals at the bound, acknowledgements, cursors and annotations: every item
    counts exactly the [attention.raised] events that name it, and carries the
    cursors of the first and the last of them; every such event names an item; an
    item that was acknowledged is in the queue unchanged for ever, whatever fires
    again. The rest of the store is in a state its own operations reach. *)
Theorem attention_accounted hash redact inst s1 s2 :
  asteps hash redact (openA inst) s1 → asteps hash redact s1 s2 →
  (∀ t, t ∈ items s2 → accountedItem (log s2) t) ∧
  (∀ r, r ∈ log s2 → kind r = "attention.raised" →
     ∃ t, t ∈ items s2 ∧ raises (tAttentionID t) r = true) ∧
  NoDup (tAttentionID <$> items s2) ∧
  (∀ t, t ∈ items s1 → tAcked t = true → t ∈ items s2) ∧
  ∃ os, steps hash (Open inst emptyDB) os (abase s2).
Proof.
  intros H1 H2. pose proof (asteps_accounted hash redact _ _ H1 (accounted_empty hash inst)) as A1.
  pose proof (asteps_accounted hash redact _ _ H2 A1) as A2. pose proof A2 as [_ Hi _ _ Ht He].
  split_and!; [done..| |].
  - clear A2 Hi Ht He H1. induction H2 as [|s1 s2 s3 [o Ho] _ IH]; [done|]. intros t Hin Ha.
    apply IH; [by eapply astep_accounted|by eapply astep_acked|done].
  - destruct (asteps_base hash redact (openA inst) s2) as [os Hos];
      [by etrans|apply log_ok_empty|]. by exists os.
Qed.

(** A trigger that fires twice and is acknowledged, then fires again. *)
Definition exRaise : RaiseInput :=
  mkRaise "lifecycle_failed" SeverityNeedsDecision (Some exVM) None "VM failed" "recorded" [] []
    true 10 "" 0.
Definition exRedact (t : string) : string * bool := (t, false).
Definition exOps : list AOp := [ARaise exRaise; ARaise exRaise; AAck 1].
Definition exDo (s : AStore_) (o : AOp) : AStore_ := aexec exHash exRedact (exEnv "") o s.
Definition exAcked : AStore_ := foldl exDo (openA exInst) exOps.
Definition exAgain : AStore_ := exDo exAcked (ARaise exRaise).

Definition areadyb (e : Env) (s : AStore_) : bool :=
  readyb 4 e (abase s) && (seq (attention_items s) <? Int.MaxInt64) &&
  (seq (annotations s) <? Int.MaxInt64).

Lemma areadyb_spec e s : areadyb e s = true → aready e s.
Proof.
  unfold areadyb. intros [[H ?%Z.ltb_lt]%andb_true_iff ?%Z.ltb_lt]%andb_true_iff.
  split; [by apply readyb_spec|done].
Qed.

Lemma exDo_step s o :
  areadyb (exEnv "") s = true → alegal o s → astep exHash exRedact s o (exDo s o).
Proof.
  intros H%areadyb_spec Hl. by constructor.
Qed.

Lemma exAcked_steps : asteps exHash exRedact (openA exInst) exAcked.
Proof.
  unfold exAcked, exOps. cbn [foldl].
  do 3 (eapply rtc_r; [|eexists; apply exDo_step; [vm_compute; reflexivity|exact I]]).
  apply rtc_refl.
Qed.

Lemma exAgain_steps : asteps exHash exRedact exAcked exAgain.
Proof.
  eapply rtc_r; [apply rtc_refl|eexists; apply exDo_step; [vm_compute; reflexivity|exact I]].
Qed.

Lemma attention_accounted_witness :
  (∀ t, t ∈ items exAgain → accountedItem (log exAgain) t) ∧
  (tCount <$> items exAgain = [2; 1]) ∧
  (∀ t, t ∈ items exAcked → tAcked t = true → t ∈ items exAgain).
Proof.
  destruct (attention_accounted exHash exRedact exInst exAcked exAgain exAcked_steps exAgain_steps)
    as (H & _ & _ & Hk & _).
  split; [exact H|]. split; [vm_compute; reflexivity|exact Hk].
Defined.

End AttentionRuns.
