(* ===== verification/Redact.v ===== *)
(** The redaction policy (internal/redact/redact.go), on the bytes of a text. The two
    regular expressions as matchers with Go's meaning: leftmost match, alternatives in
    order, greedy repetition with backtracking; under (?i) the letters k and s also
    match U+212A and U+017F, and the class of the second pattern contains them. *)

From S2P Require Import Prelude Text.
Import Text.

Local Open Scope Z_scope.

Module Redact.

Definition codes (s : string) : list Z := code <$> String.list_ascii_of_string s.

Definition PolicyID : string := "rp1".
Definition marker : string := "[redacted:" +:+ PolicyID +:+ "]".

(** * Pieces *)

Definition between (lo b hi : Z) : bool := (lo <=? b) && (b <=? hi).
Definition lower (b : Z) : Z := if between 65 b 90 then b + 32 else b.

(** [\w], [\s], and the end of a line. *)
Definition isWord (b : Z) : bool :=
  between 48 b 57 || between 65 b 90 || between 97 b 122 || (b =? 95).
Definition ws (b : Z) : bool := (b =? 9) || (b =? 10) || (b =? 12) || (b =? 13) || (b =? 32).
Definition crlf (b : Z) : bool := (b =? 10) || (b =? 13).

(** [\b] between what precedes and what follows. *)
Definition wordAt (o : option Z) : bool := match o with Some b => isWord b | None => false end.
Definition boundary (prev : option Z) (s : list Z) : bool :=
  negb (Bool.eqb (wordAt prev) (wordAt (head s))).

(** A literal under (?i); what follows it. *)
Fixpoint lit (k s : list Z) : option (list Z) :=
  match k with
  | [] => Some s
  | c :: k =>
    match s with
    | b :: s' =>
      if lower b =? c then lit k s'
      else if (c =? 115) && (b =? 197) then
        match s' with b2 :: s2 => if b2 =? 191 then lit k s2 else None | [] => None end
      else if (c =? 107) && (b =? 226) then
        match s' with
        | b2 :: b3 :: s3 => if (b2 =? 132) && (b3 =? 170) then lit k s3 else None
        | _ => None
        end
      else None
    | [] => None
    end
  end.

Fixpoint alt (ks : list (list Z)) (s : list Z) : option (list Z) :=
  match ks with
  | [] => None
  | k :: ks => match lit k s with Some r => Some r | None => alt ks s end
  end.

Fixpoint dropWhile (p : Z → bool) (s : list Z) : list Z :=
  match s with
  | b :: s' => if p b then dropWhile p s' else s
  | [] => []
  end.

(** * The patterns *)

(** A matcher: the first group and what follows the match. *)
Definition Matcher := option Z → list Z → option (list Z * list Z).

Definition upTo (s rest : list Z) : list Z := take (length s - length rest) s.

Definition headerWords : list (list Z) :=
  codes <$> ["authorization"; "proxy-authorization"; "cookie"; "set-cookie"].

(** [\s*[^\r\n]+] when only white space is left: it gives back as little as it must. *)
Fixpoint giveBack (s : list Z) : option (list Z) :=
  match s with
  | [] => None
  | b :: s' => match giveBack s' with
               | Some r => Some r
               | None => if crlf b then None else Some s'
               end
  end.

Definition value (s : list Z) : option (list Z) :=
  match dropWhile ws s with
  | [] => giveBack s
  | x => Some (dropWhile (λ b, negb (crlf b)) x)
  end.

(** [(?im)\b(authorization|proxy-authorization|cookie|set-cookie)\s*:\s*[^\r\n]+]. *)
Definition header : Matcher := λ prev s,
  if boundary prev s then
    match alt headerWords s with
    | None => None
    | Some r1 =>
      match dropWhile ws r1 with
      | b :: r2 => if b =? 58 then
                     match value r2 with Some rest => Some (upTo s r1, rest) | None => None end
                   else None
      | [] => None
      end
    end
  else None.

Definition grantWords : list (list Z) := codes <$> ["bearer"; "basic"].

Definition inClass (b : Z) : bool :=
  between 48 b 57 || between 65 b 90 || between 97 b 122 ||
  existsb (Z.eqb b) (codes "._~+/=-").

(** The longest run of the class: its runes and what follows. *)
Fixpoint classRun (s : list Z) : nat * list Z :=
  match s with
  | [] => (O, [])
  | b :: s' =>
    if inClass b then let (n, r) := classRun s' in (S n, r)
    else if b =? 197 then
      match s' with
      | b2 :: s2 => if b2 =? 191 then let (n, r) := classRun s2 in (S n, r) else (O, s)
      | [] => (O, s)
      end
    else if b =? 226 then
      match s' with
      | b2 :: b3 :: s3 => if (b2 =? 132) && (b3 =? 170) then let (n, r) := classRun s3 in (S n, r)
                          else (O, s)
      | _ => (O, s)
      end
    else (O, s)
  end.

(** [(?i)\b(bearer|basic)\s+[A-Za-z0-9._~+/=-]{8,}]. *)
Definition grant : Matcher := λ prev s,
  if boundary prev s then
    match alt grantWords s with
    | None => None
    | Some r1 =>
      match r1 with
      | b :: _ => if ws b then
                    let (n, rest) := classRun (dropWhile ws r1) in
                    if (8 <=? n)%nat then Some (upTo s r1, rest) else None
                  else None
      | [] => None
      end
    end
  else None.

(** * Replacement *)

(** [FindStringSubmatchIndex]: the leftmost match. *)
Fixpoint find (p : Matcher) (prev : option Z) (s : list Z) : option (list Z * list Z) :=
  match p prev s with
  | Some r => Some r
  | None => match s with [] => None | b :: s' => find p (Some b) s' end
  end.

(** [ReplaceAllStringFunc] with the policy's function; [skip] counts the bytes of a
    match still to be passed. [None] stands for the panic on an index into no match. *)
Fixpoint replaceAll (p : Matcher) (prev : option Z) (skip : nat) (s : list Z) : option (list Z) :=
  match s with
  | [] => Some []
  | b :: s' =>
    match skip with
    | S k => replaceAll p (Some b) k s'
    | O =>
      match p prev s with
      | None => t ← replaceAll p (Some b) 0 s'; Some (b :: t)
      | Some (_, rest) =>
        let m := upTo s rest in
        match find p None m with
        | None => None
        | Some (g, _) =>
          t ← replaceAll p (Some b) (length m - 1) s'; Some (g ++ 32 :: codes marker ++ t)
        end
      end
    end
  end.

Definition redacted (s : list Z) : option (list Z) :=
  t ← replaceAll header None 0 s; replaceAll grant None 0 t.

(** [Apply]. *)
Definition Apply (s : string) : option (string * bool) :=
  t ← redacted (codes s);
  let out := bytes t in Some (out, negb (out =? s)%string).

Example redacts_cookie :
  Apply "x Cookie: a=b; c
next Bearer abcdefgh1 end" = Some ("x Cookie [redacted:rp1]
next Bearer [redacted:rp1] end", true).
Proof. vm_compute. reflexivity. Qed.

Example redacts_both :
  Apply "bearer authorization: secret" = Some ("bearer [redacted:rp1] [redacted:rp1]", true).
Proof. vm_compute. reflexivity. Qed.

(** * Nothing is left to redact *)

(** The bytes keywords are made of. *)
Definition key (b : Z) : bool :=
  between 97 (lower b) 122 || (b =? 45) || existsb (Z.eqb b) [197; 191; 226; 132; 170].

Definition keywords (ks : list (list Z)) : Prop :=
  Forall (λ k, k ≠ [] ∧ Forall (λ c, between 97 c 122 = true ∨ c = 45) k) ks.

Lemma key_not b : key b = true → ws b = false ∧ crlf b = false ∧ b ≠ 58 ∧ b ≠ 91 ∧ b ≠ 32.
Proof.
  unfold key, ws, crlf, lower, between. intros H.
  destruct (existsb (Z.eqb b) [197; 191; 226; 132; 170]) eqn:E.
  - cbn in E. repeat rewrite orb_true_iff in E. repeat rewrite Z.eqb_eq in E.
    assert (b = 197 ∨ b = 191 ∨ b = 226 ∨ b = 132 ∨ b = 170) as [->|[->|[->|[->| ->]]]] by naive_solver; done.
  - rewrite orb_false_r in H.
    destruct (Z.leb_spec 65 b), (Z.leb_spec b 90); cbn [andb] in H;
      apply orb_true_iff in H as [H|H%Z.eqb_eq]; try (apply andb_true_iff in H as [?%Z.leb_le ?%Z.leb_le]);
      rewrite !orb_false_iff, !Z.eqb_neq; lia.
Qed.

Lemma lit_key_char c b : (between 97 c 122 = true ∨ c = 45) → (lower b =? c) = true → key b = true.
Proof.
  intros Hc Hb%Z.eqb_eq. rewrite <- Hb in Hc. unfold key. destruct Hc as [Hc| Hc]; [by rewrite Hc|].
  assert (b = 45) as ->; [|done]. unfold lower, between in Hc.
  destruct (Z.leb_spec 65 b), (Z.leb_spec b 90); cbn in Hc; lia.
Qed.

(** A literal takes a stretch of keyword bytes, whatever follows it. *)
Lemma lit_local k s r :
  Forall (λ c, between 97 c 122 = true ∨ c = 45) k → lit k s = Some r →
  ∃ u, s = u ++ r ∧ Forall (λ b, key b = true) u ∧ (k ≠ [] → u ≠ []) ∧ ∀ y, lit k (u ++ y) = Some y.
Proof.
  intros Hk. revert s. induction k as [|c k IH]; intros s E; cbn in E.
  { simplify_eq. exists []. by split_and!. }
  apply Forall_cons in Hk as [Hc Hk]. destruct s as [|b s']; [done|].
  destruct (lower b =? c) eqn:El.
  { destruct (IH Hk _ E) as (u & -> & Hu & _ & Hy). exists (b :: u). split_and!; try done.
    - constructor; [by eapply lit_key_char|done].
    - intros y. cbn. by rewrite El. }
  destruct ((c =? 115) && (b =? 197)) eqn:Es.
  { destruct s' as [|b2 s2]; [done|]. destruct (b2 =? 191) eqn:E2; [|done].
    destruct (IH Hk _ E) as (u & -> & Hu & _ & Hy). exists (b :: b2 :: u). split_and!; try done.
    - apply andb_true_iff in Es as [_ ->%Z.eqb_eq]. apply Z.eqb_eq in E2 as ->. by repeat constructor.
    - intros y. cbn. by rewrite El, Es, E2. }
  destruct ((c =? 107) && (b =? 226)) eqn:Ek; [|done].
  destruct s' as [|b2 [|b3 s3]]; try done. destruct ((b2 =? 132) && (b3 =? 170)) eqn:E2; [|done].
  destruct (IH Hk _ E) as (u & -> & Hu & _ & Hy). exists (b :: b2 :: b3 :: u). split_and!; try done.
  - apply andb_true_iff in Ek as [_ ->%Z.eqb_eq]. apply andb_true_iff in E2 as [->%Z.eqb_eq ->%Z.eqb_eq].
    by repeat constructor.
  - intros y. cbn. by rewrite El, Es, Ek, E2.
Qed.

(** The alternatives differ in their first letter. *)
Definition apart (ks : list (list Z)) : Prop :=
  ∀ k1 k2 s r1 r2, k1 ∈ ks → k2 ∈ ks → lit k1 s = Some r1 → lit k2 s = Some r2 → k1 = k2.

Lemma alt_Some ks s r : alt ks s = Some r → ∃ k, k ∈ ks ∧ lit k s = Some r.
Proof.
  induction ks as [|k ks IH]; cbn; [done|]. destruct (lit k s) eqn:E.
  - intros [= <-]. exists k. split; [left|done].
  - intros H. destruct (IH H) as (k' & ? & ?). exists k'. split; [by right|done].
Qed.

Lemma alt_lit ks k s r : apart ks → k ∈ ks → lit k s = Some r → alt ks s = Some r.
Proof.
  intros Ha Hk E. destruct (alt ks s) as [r'|] eqn:Ea.
  - apply alt_Some in Ea as (k' & Hk' & E'). rewrite (Ha _ _ _ _ _ Hk Hk' E E') in E. congruence.
  - exfalso. clear Ha. induction ks as [|k0 ks IH]; [by apply elem_of_nil in Hk|]. cbn in Ea.
    destruct (lit k0 s) eqn:E0; [done|]. apply elem_of_cons in Hk as [->|Hk]; [congruence|]. by apply IH.
Qed.

(** The first letter of a literal, as a set of first bytes. *)
Definition starts (c b : Z) : bool :=
  (lower b =? c) || (c =? 115) && (b =? 197) || (c =? 107) && (b =? 226).

Lemma lit_starts c k s r : lit (c :: k) s = Some r → ∃ b s', s = b :: s' ∧ starts c b = true.
Proof.
  destruct s as [|b s']; cbn; [done|]. unfold starts. intros H. exists b, s'. split; [done|].
  destruct (lower b =? c); [done|]. destruct ((c =? 115) && (b =? 197)); [done|].
  by destruct ((c =? 107) && (b =? 226)).
Qed.

Lemma apart_firsts ks :
  Forall (λ k, k ≠ []) ks → NoDup (head <$> ks) →
  (∀ c1 c2 b, Some c1 ∈ head <$> ks → Some c2 ∈ head <$> ks → starts c1 b = true → starts c2 b = true → c1 = c2) →
  apart ks.
Proof.
  intros Hne Hn Hs k1 k2 s r1 r2 H1 H2 E1 E2. rewrite Forall_forall in Hne.
  destruct k1 as [|c1 k1]; [by destruct (Hne [])|]. destruct k2 as [|c2 k2]; [by destruct (Hne [])|].
  destruct (lit_starts _ _ _ _ E1) as (b & s1 & -> & Hb1).
  destruct (lit_starts _ _ _ _ E2) as (b' & s2 & [= <- <-] & Hb2).
  assert (Hc : c1 = c2).
  { apply (Hs c1 c2 b); try done; apply list_elem_of_fmap;
      [by exists (c1 :: k1)|by exists (c2 :: k2)]. }
  subst c2. apply list_elem_of_lookup in H1 as [i Hi], H2 as [j Hj].
  assert (i = j) as ->; [|congruence].
  eapply (NoDup_lookup (head <$> ks) i j (Some c1) Hn); rewrite list_lookup_fmap, ?Hi, ?Hj; done.
Qed.

Lemma starts_spec c b : starts c b = true →
  between 97 c 122 = true → b = c ∨ b = c - 32 ∨ c = 115 ∧ b = 197 ∨ c = 107 ∧ b = 226.
Proof.
  unfold starts, lower, between. intros H Hc. apply andb_true_iff in Hc as [?%Z.leb_le ?%Z.leb_le].
  destruct (Z.leb_spec 65 b), (Z.leb_spec b 90); cbn [andb] in H;
    rewrite !orb_true_iff, !andb_true_iff, !Z.eqb_eq in H; lia.
Qed.

Lemma headerWords_apart : apart headerWords.
Proof.
  apply apart_firsts; [by repeat constructor| |].
  - apply (bool_decide_unpack _). vm_compute. exact I.
  - intros c1 c2 b H1 H2 S1 S2.
    assert (Hf : ∀ c, Some c ∈ head <$> headerWords → c = 97 ∨ c = 112 ∨ c = 99 ∨ c = 115).
    { intros c Hc. change (head <$> headerWords) with [Some 97; Some 112; Some 99; Some 115] in Hc.
      repeat (apply elem_of_cons in Hc as [[=]|Hc]; [lia|]). by apply elem_of_nil in Hc. }
    apply Hf in H1, H2. apply starts_spec in S1, S2; try lia;
      unfold between; rewrite andb_true_iff, !Z.leb_le; lia.
Qed.

Lemma lit_plain c k s r :
  c ≠ 115 → c ≠ 107 → lit (c :: k) s = Some r →
  ∃ b s', s = b :: s' ∧ lower b = c ∧ lit k s' = Some r.
Proof.
  intros H1 H2. destruct s as [|b s']; cbn [lit]; [done|].
  rewrite (proj2 (Z.eqb_neq _ _) H1), (proj2 (Z.eqb_neq _ _) H2). cbn [andb].
  destruct (Z.eqb_spec (lower b) c); [|done]. intros E. by exists b, s'.
Qed.

Lemma grantWords_apart : apart grantWords.
Proof.
  intros k1 k2 s r1 r2 H1 H2.
  assert (Hf : ∀ k, k ∈ grantWords → k = codes "bearer" ∨ k = codes "basic").
  { intros k Hk. unfold grantWords in Hk. cbn [fmap list_fmap] in Hk.
    repeat (apply elem_of_cons in Hk as [->|Hk]; [auto|]). by apply elem_of_nil in Hk. }
  assert (Hx : ∀ r1 r2, lit (codes "bearer") s = Some r1 → lit (codes "basic") s = Some r2 → False).
  { intros x1 x2 E1 E2. change (codes "bearer") with (98 :: 101 :: codes "arer") in E1.
    change (codes "basic") with (98 :: 97 :: codes "sic") in E2.
    apply lit_plain in E1 as (b1 & s1 & -> & _ & E1); [|done..].
    apply lit_plain in E2 as (b2 & s2 & [= <- <-] & _ & E2); [|done..].
    apply lit_plain in E1 as (b3 & s3 & -> & Hb3 & _); [|done..].
    apply lit_plain in E2 as (b4 & s4 & [= <- <-] & Hb4 & _); [|done..]. congruence. }
  apply Hf in H1, H2. destruct H1 as [->| ->], H2 as [->| ->]; try done; intros E1 E2; exfalso; eauto.
Qed.

(** ** What a replacement changes around it *)

Abbreviation allKey u := (Forall (λ b, key b = true) u).

Lemma alt_local ks s r :
  keywords ks → apart ks → alt ks s = Some r →
  ∃ u, s = u ++ r ∧ allKey u ∧ u ≠ [] ∧ ∀ y, alt ks (u ++ y) = Some y.
Proof.
  intros Hk Ha (k & Hin & E)%alt_Some. unfold keywords in Hk. rewrite Forall_forall in Hk.
  destruct (Hk k Hin) as [Hne Hc]. destruct (lit_local k s r Hc E) as (u & -> & Hu & Hn & Hy).
  exists u. split_and!; auto. intros y. by eapply alt_lit.
Qed.

Lemma keywords_check ks :
  forallb (λ k, negb (bool_decide (k = [])) &&
    forallb (λ c, between 97 c 122 || (c =? 45)) k) ks = true → keywords ks.
Proof.
  rewrite forallb_forall. intros H. apply Forall_forall. intros k Hk%list_elem_of_In%H.
  apply andb_true_iff in Hk as [Hn Hk]. apply negb_true_iff, bool_decide_eq_false in Hn.
  split; [done|]. rewrite forallb_forall in Hk. apply Forall_forall. intros c Hc%list_elem_of_In%Hk.
  by rewrite orb_true_iff, Z.eqb_eq in Hc.
Qed.

Lemma headerWords_keys : keywords headerWords.
Proof. apply keywords_check. vm_compute. reflexivity. Qed.
Lemma grantWords_keys : keywords grantWords.
Proof. apply keywords_check. vm_compute. reflexivity. Qed.

(** A replacement: the group, and the marker. *)
Definition rep (g t : list Z) : list Z := g ++ 32 :: codes marker ++ t.

Lemma rep_eq g t : rep g t = g ++ 32 :: 91 :: tl (codes marker) ++ t.
Proof. done. Qed.

Lemma dropWhile_app p x y :
  dropWhile p (x ++ y) = if forallb p x then dropWhile p y else dropWhile p x ++ y.
Proof. induction x as [|b x IH]; [done|]. cbn. by destruct (p b). Qed.

Lemma dropWhile_some p x : forallb p x = false → ∃ b x', dropWhile p x = b :: x' ∧ p b = false.
Proof. induction x as [|b x IH]; [done|]. cbn. destruct (p b) eqn:E; [done|]. intros _. by exists b, x. Qed.

Lemma dropWhile_stop p b x : p b = false → dropWhile p (b :: x) = b :: x.
Proof. intros E. cbn. by rewrite E. Qed.

(** Keyword bytes at the front of a replacement lie in its group. *)
Lemma rep_key g t v y :
  rep g t = v ++ y → allKey v → ∃ g', g = v ++ g' ∧ y = rep g' t.
Proof.
  intros E Hv. unfold rep in E. apply app_eq_inv in E as [(k & -> & ->)|(k & -> & E)]; [by exists k|].
  destruct k as [|b k]; [cbn in E; subst y; exists []; by rewrite !app_nil_r|].
  apply Forall_app in Hv as [_ Hv]. inversion E; subst. by inversion Hv.
Qed.

Lemma value_some x y b : ws b = false → value (x ++ b :: y) ≠ None.
Proof.
  intros Hb. unfold value. rewrite dropWhile_app. destruct (forallb ws x) eqn:E.
  - rewrite dropWhile_stop by done. done.
  - destruct (dropWhile_some ws x E) as (b' & x' & -> & _). done.
Qed.

(** After white space, a replacement goes on with a keyword byte or "[". *)
Lemma dropWs_rep g t :
  allKey g → ∃ b x, dropWhile ws (rep g t) = b :: x ∧ b ≠ 58 ∧ (b = 91 ∧ g = [] ∨ b :: x = rep g t).
Proof.
  intros Hg. destruct g as [|b g].
  - exists 91, (tl (codes marker) ++ t). split_and!; [done|done|by left].
  - apply Forall_cons in Hg as [Hb _]. destruct (key_not b Hb) as (Hw & _ & H58 & _).
    exists b, (g ++ 32 :: codes marker ++ t). split_and!; [by apply dropWhile_stop|done|by right].
Qed.

Lemma boundary_app prev b c x y : boundary prev ((b :: c) ++ x) = boundary prev ((b :: c) ++ y).
Proof. done. Qed.

(** A replacement further on makes no header of a place that was none. *)
Lemma header_kept prev c b m g t :
  c ≠ [] → key b = true → allKey g →
  header prev (c ++ b :: m) = None → header prev (c ++ rep g t) = None.
Proof.
  intros Hc Hb Hg. destruct c as [|b0 c0]; [done|]. unfold header.
  rewrite (boundary_app prev b0 c0 _ (rep g t)). destruct (boundary prev _); [|done].
  set (c := b0 :: c0) in *. intros H.
  destruct (alt headerWords (c ++ rep g t)) as [y|] eqn:Ea; [|done].
  destruct (alt_local _ _ _ headerWords_keys headerWords_apart Ea) as (u & E & Hu & _ & Hy).
  clear Ea. apply app_eq_inv in E as [(c' & Ec & ->)|(v & -> & E)].
  - rewrite Ec, <- app_assoc, Hy, dropWhile_app in H. rewrite dropWhile_app.
    destruct (forallb ws c') eqn:Ew.
    + destruct (dropWs_rep g t Hg) as (x & xs & -> & Hx & _). by rewrite (proj2 (Z.eqb_neq _ _) Hx).
    + destruct (dropWhile_some ws c' Ew) as (x & xs & Ex & _). rewrite Ex in *. cbn [app] in *.
      destruct (x =? 58); [|done].
      destruct (value (xs ++ b :: m)) eqn:Ev; [done|]. by apply value_some in Ev; [|apply key_not].
  - apply Forall_app in Hu as [_ Hv]. destruct (rep_key _ _ _ _ E Hv) as (g' & -> & ->).
    apply Forall_app in Hg as [_ Hg'].
    destruct (dropWs_rep g' t Hg') as (x & xs & -> & Hx & _). by rewrite (proj2 (Z.eqb_neq _ _) Hx).
Qed.

(** ** Grants *)

(** A byte at which a run of the class ends. *)
Definition halts (b : Z) : bool := negb (inClass b) && negb (existsb (Z.eqb b) [197; 191; 226; 132; 170]).

Lemma classRun_halt b x : halts b = true → classRun (b :: x) = (O, b :: x).
Proof.
  unfold halts. intros [Hc Hn]%andb_true_iff. apply negb_true_iff in Hc, Hn. cbn in Hn.
  repeat (apply orb_false_iff in Hn as [? Hn]). cbn. rewrite Hc. by rewrite H, H1.
Qed.

(** What a run counts does not depend on what halts it. *)
Lemma classRun_app z b x b' x' :
  halts b = true → halts b' = true → (classRun (z ++ b :: x)).1 = (classRun (z ++ b' :: x')).1.
Proof.
  intros Hb Hb'. assert (Hn : ∀ c, halts c = true → (c =? 191) = false ∧ (c =? 132) = false ∧ (c =? 170) = false).
  { intros c. unfold halts. intros [_ Hn]%andb_true_iff. apply negb_true_iff in Hn. cbn in Hn.
    repeat (apply orb_false_iff in Hn as [? Hn]). done. }
  destruct (Hn b Hb) as (B1 & B2 & B3), (Hn b' Hb') as (B1' & B2' & B3').
  assert (H : ∀ n z, (length z ≤ n)%nat → (classRun (z ++ b :: x)).1 = (classRun (z ++ b' :: x')).1).
  2: by apply (H (length z)).
  clear z. induction n as [|n IH]; intros z Hl.
  { destruct z; [|cbn in Hl; lia]. cbn [app]. by rewrite !classRun_halt. }
  destruct z as [|c z]; [cbn [app]; by rewrite !classRun_halt|]. cbn in Hl.
  cbn [app classRun]. destruct (inClass c).
  { specialize (IH z ltac:(lia)). destruct (classRun (z ++ b :: x)), (classRun (z ++ b' :: x')). cbn in *. lia. }
  destruct (c =? 197).
  { destruct z as [|c2 z]; cbn [app]; [by rewrite B1, B1'|]. destruct (c2 =? 191); [|done].
    cbn in Hl. specialize (IH z ltac:(lia)).
    destruct (classRun (z ++ b :: x)), (classRun (z ++ b' :: x')). cbn in *. lia. }
  destruct (c =? 226); [|done].
  destruct z as [|c2 [|c3 z]]; cbn [app].
  - rewrite B2, B2'. destruct x, x'; done.
  - rewrite B3, B3', !andb_false_r. done.
  - destruct ((c2 =? 132) && (c3 =? 170)); [|done]. cbn in Hl. specialize (IH z ltac:(lia)).
    destruct (classRun (z ++ b :: x)), (classRun (z ++ b' :: x')). cbn in *. lia.
Qed.

Lemma ws_halts b : ws b = true → halts b = true.
Proof.
  unfold ws. rewrite !orb_true_iff, !Z.eqb_eq.
  intros [[[[->| ->]| ->]| ->]| ->]; reflexivity.
Qed.

(** The runes of a group, up to what follows it. *)
Definition groupRunes (g : list Z) : nat := (classRun (g ++ [32])).1.

Lemma classRun_group g x : (classRun (g ++ 32 :: x)).1 = groupRunes g.
Proof. apply classRun_app; done. Qed.

Lemma rep_cons g t : rep g t = g ++ 32 :: (codes marker ++ t).
Proof. done. Qed.

Lemma grant_kept prev c w m g t :
  c ≠ [] → allKey g → g ≠ [] → (groupRunes g < 8)%nat → ws w = true →
  grant prev (c ++ g ++ w :: m) = None → grant prev (c ++ rep g t) = None.
Proof.
  intros Hc Hg Hne Hn Hw. destruct c as [|b0 c0]; [done|]. unfold grant.
  rewrite (boundary_app prev b0 c0 _ (rep g t)). destruct (boundary prev _); [|done].
  set (c := b0 :: c0) in *. intros H.
  assert (Hgb : ∃ b g', g = b :: g' ∧ ws b = false).
  { destruct g as [|b g']; [done|]. apply Forall_cons in Hg as [Hb _]. exists b, g'. split; [done|].
    by apply key_not. }
  destruct (alt grantWords (c ++ rep g t)) as [y|] eqn:Ea; [|done].
  destruct (alt_local _ _ _ grantWords_keys grantWords_apart Ea) as (u & E & Hu & _ & Hy).
  clear Ea. apply app_eq_inv in E as [(c' & Ec & ->)|(v & -> & E)].
  - rewrite Ec, <- app_assoc, Hy in H. destruct c' as [|b1 c'].
    { destruct Hgb as (b & g' & -> & Eb). cbn [app] in *. cbn. by rewrite Eb. }
    cbn [app] in *. destruct (ws b1) eqn:E1; [|done].
    rewrite !app_comm_cons, dropWhile_app in H. rewrite app_comm_cons, dropWhile_app.
    destruct (forallb ws (b1 :: c')) eqn:Ew.
    + assert (Ed : dropWhile ws (rep g t) = rep g t).
      { destruct Hgb as (b & g' & -> & Eb). by apply dropWhile_stop. }
      rewrite Ed, rep_cons.
      destruct (classRun (g ++ 32 :: codes marker ++ t)) as [n rest] eqn:Er.
      assert (n = groupRunes g) as -> by (rewrite <- (classRun_group g (codes marker ++ t)); by rewrite Er).
      by rewrite (proj2 (Nat.leb_gt _ _) Hn).
    + destruct (dropWhile ws (b1 :: c')) as [|d ds] eqn:Ed.
      { destruct (dropWhile_some _ _ Ew) as (? & ? & E & _). congruence. }
      rewrite rep_cons. rewrite (app_assoc (d :: ds) g) in *.
      pose proof (classRun_app ((d :: ds) ++ g) w m 32 (codes marker ++ t) (ws_halts w Hw) eq_refl) as Hr.
      destruct (classRun (((d :: ds) ++ g) ++ w :: m)) as [n1 x1].
      destruct (classRun (((d :: ds) ++ g) ++ 32 :: codes marker ++ t)) as [n2 x2]. cbn [fst] in Hr. subst n2.
      by destruct (8 <=? n1)%nat.
  - apply Forall_app in Hu as [_ Hv]. destruct (rep_key _ _ _ _ E Hv) as (g' & -> & ->).
    apply Forall_app in Hg as [_ Hg']. destruct g' as [|b g']; [reflexivity|].
    apply Forall_cons in Hg' as [Hb _]. cbn. by rewrite (proj1 (key_not b Hb)).
Qed.

(** ** Places inside a replacement *)

Lemma header_rep prev g t : allKey g → header prev (rep g t) = None.
Proof.
  intros Hg. unfold header. destruct (boundary prev _); [|done].
  destruct (alt headerWords (rep g t)) as [y|] eqn:Ea; [|done].
  destruct (alt_local _ _ _ headerWords_keys headerWords_apart Ea) as (u & E & Hu & _ & _).
  destruct (rep_key _ _ _ _ E Hu) as (g' & -> & ->). apply Forall_app in Hg as [_ Hg'].
  destruct (dropWs_rep g' t Hg') as (x & xs & -> & Hx & _). by rewrite (proj2 (Z.eqb_neq _ _) Hx).
Qed.

Lemma grant_rep prev g t : allKey g → grant prev (rep g t) = None.
Proof.
  intros Hg. unfold grant. destruct (boundary prev _); [|done].
  destruct (alt grantWords (rep g t)) as [y|] eqn:Ea; [|done].
  destruct (alt_local _ _ _ grantWords_keys grantWords_apart Ea) as (u & E & Hu & _ & _).
  destruct (rep_key _ _ _ _ E Hu) as (g' & -> & ->). apply Forall_app in Hg as [_ Hg'].
  destruct g' as [|b g']; [reflexivity|].
  apply Forall_cons in Hg' as [Hb _]. cbn. by rewrite (proj1 (key_not b Hb)).
Qed.

Lemma marker_alt i t :
  (i < length (codes marker))%nat →
  alt headerWords (drop i (codes marker) ++ t) = None ∧ alt grantWords (drop i (codes marker) ++ t) = None.
Proof.
  change (length (codes marker)) with 14%nat. intros Hi.
  do 14 (destruct i as [|i]; [split; reflexivity|]). lia.
Qed.

(** ** Replacing, for any pattern *)

Definition mark (g : list Z) : list Z := g ++ 32 :: codes marker.

Lemma rep_mark g t : rep g t = mark g ++ t.
Proof. unfold rep, mark. by rewrite <- app_assoc. Qed.

(** No place of a text matches. *)
Fixpoint clean (p : Matcher) (prev : option Z) (s : list Z) : Prop :=
  match s with
  | [] => True
  | b :: s' => p prev s = None ∧ clean p (Some b) s'
  end.

Lemma upTo_app m rest : upTo (m ++ rest) rest = m.
Proof. unfold upTo. rewrite length_app, Nat.add_sub. apply take_app_length. Qed.

Section replace.
Context (p : Matcher) (Seg : list Z → list Z → Prop).
Hypothesis p_match : ∀ prev s g rest, p prev s = Some (g, rest) →
  ∃ m g' r', s = m ++ rest ∧ m ≠ [] ∧ find p None m = Some (g', r') ∧ Seg m g'.

Lemma replace_skip k prev s :
  (k ≤ length s)%nat →
  ∃ prev', replaceAll p prev k s = replaceAll p prev' 0 (drop k s).
Proof.
  revert prev s. induction k as [|k IH]; intros prev s Hk; [by exists prev|].
  destruct s as [|b s]; [cbn in Hk; lia|]. cbn. apply IH. cbn in Hk. lia.
Qed.

Lemma replace_match prev s g rest :
  p prev s = Some (g, rest) →
  ∃ m g' prev', s = m ++ rest ∧ m ≠ [] ∧ Seg m g' ∧
    replaceAll p prev 0 s = (t ← replaceAll p prev' 0 rest; Some (rep g' t)).
Proof.
  intros E. destruct (p_match _ _ _ _ E) as (m & g' & r' & -> & Hm & Hf & Hs).
  destruct m as [|b m]; [done|].
  destruct (replace_skip (length m) (Some b) (m ++ rest)) as [prev' Hp]; [rewrite length_app; lia|].
  exists (b :: m), g', prev'. split_and!; try done. cbn [app replaceAll] in *. rewrite E.
  change (b :: m ++ rest) with ((b :: m) ++ rest). rewrite upTo_app, Hf.
  replace (length (b :: m) - 1)%nat with (length m) by (cbn; lia). rewrite Hp. by rewrite drop_app_length.
Qed.

Lemma replace_total s prev : ∃ t, replaceAll p prev 0 s = Some t.
Proof.
  assert (H : ∀ n s prev, (length s ≤ n)%nat → ∃ t, replaceAll p prev 0 s = Some t); [|by apply (H (length s))].
  clear s prev. induction n as [|n IH]; intros s prev Hl.
  { destruct s; [by exists []|cbn in Hl; lia]. }
  destruct s as [|b s]; [by exists []|]. destruct (p prev (b :: s)) as [[g rest]|] eqn:E.
  - destruct (replace_match _ _ _ _ E) as (m & g' & prev' & Es & Hm & _ & ->).
    destruct (IH rest prev') as [t ->]; [|by eexists].
    assert (length (b :: s) = length (m ++ rest)) by by rewrite Es.
    rewrite length_app in *. destruct m; [done|]. cbn in *. lia.
  - cbn [replaceAll]. rewrite E. destruct (IH s (Some b)) as [t ->]; [cbn in Hl; lia|]. by eexists.
Qed.

(** The first replacement of a text, if it has one. *)
Lemma first_segment s prev t :
  replaceAll p prev 0 s = Some t →
  t = s ∨ ∃ c m r g t', s = c ++ m ++ r ∧ t = c ++ rep g t' ∧ Seg m g.
Proof.
  revert prev t. induction s as [|b s IH]; intros prev t E; [cbn in E; simplify_eq; by left|].
  destruct (p prev (b :: s)) as [[g rest]|] eqn:Em.
  - destruct (replace_match _ _ _ _ Em) as (m & g' & prev' & Es & _ & Hs & Er).
    rewrite Er in E. apply bind_Some in E as (t' & _ & [= <-]). right.
    exists [], m, rest, g', t'. split_and!; done.
  - cbn [replaceAll] in E. rewrite Em in E. apply bind_Some in E as (t' & Et & [= <-]).
    destruct (IH _ _ Et) as [->|(c & m & r & g & t2 & -> & -> & Hs)]; [by left|right].
    by exists (b :: c), m, r, g, t2.
Qed.

Section keeps.
Context (q : Matcher).
Hypothesis q_kept : ∀ prev c m r g t, c ≠ [] → Seg m g →
  q prev (c ++ m ++ r) = None → q prev (c ++ rep g t) = None.
Hypothesis q_dead : ∀ prev m g t i, Seg m g → (i < length (mark g))%nat →
  q prev (drop i (mark g) ++ t) = None.
Hypothesis q_rest : ∀ prev s g rest, p prev s = Some (g, rest) → ∀ x, q x rest = None.

Lemma clean_app x prev t :
  (∀ i y, (i < length x)%nat → q y (drop i x ++ t) = None) →
  (∀ y, clean q y t) → clean q prev (x ++ t).
Proof.
  revert prev. induction x as [|b x IH]; intros prev Hd Ht; [apply Ht|]. cbn [app clean]. split.
  - apply (Hd 0%nat). cbn. lia.
  - apply IH; [|done]. intros i y Hi. apply (Hd (S i)). cbn. lia.
Qed.

(** The output has no match of [q], if unmatched places of the input have none. The
    byte before the output may differ when the input cannot match where it starts. *)
Lemma replace_clean n s prev t :
  (length s ≤ n)%nat → (q = p ∨ clean q prev s) → replaceAll p prev 0 s = Some t →
  clean q prev t ∧ ((∀ x, q x s = None) → ∀ y, clean q y t).
Proof.
  revert s prev t. induction n as [|n IH]; intros s prev t Hl Hq E.
  { destruct s; [cbn in E; by simplify_eq|cbn in Hl; lia]. }
  destruct s as [|b s]; [cbn in E; by simplify_eq|].
  destruct (p prev (b :: s)) as [[g rest]|] eqn:Em.
  - destruct (replace_match _ _ _ _ Em) as (m & g' & prev' & Es & Hm & Hs & Er).
    rewrite Er in E. apply bind_Some in E as (t' & Et & [= <-]).
    assert (Hlen : (length rest ≤ n)%nat).
    { assert (length (b :: s) = length (m ++ rest)) by by rewrite Es.
      rewrite length_app in *. destruct m; [done|]. cbn in *. lia. }
    assert (Hq' : q = p ∨ clean q prev' rest).
    { destruct Hq as [->|Hc]; [by left|right]. rewrite Es in Hc.
      clear - Hc Hm q_rest Em. revert prev Hc Em. generalize (b :: s). intros s0.
      destruct rest as [|x rest]; [done|]. intros prev Hc Em. split; [by eapply q_rest|].
      clear Em. revert prev Hc. induction m as [|y m IHm]; [done|]. intros prev Hc. cbn [app clean] in Hc.
      destruct Hc as [_ Hc]. destruct m; [by destruct Hc|]. by eapply IHm. }
    destruct (IH _ _ _ Hlen Hq' Et) as [_ Hall]. specialize (Hall (q_rest _ _ _ _ Em)).
    assert (Hc : ∀ y, clean q y (rep g' t')).
    { intros y. rewrite rep_mark. apply clean_app; [|done]. intros i x Hi. by eapply q_dead. }
    split; [apply Hc|intros _; apply Hc].
  - cbn [replaceAll] in E. rewrite Em in E. apply bind_Some in E as (t' & Et & [= <-]).
    assert (Hq' : q = p ∨ clean q (Some b) s) by (destruct Hq as [->|[_ Hc]]; auto).
    assert (Hlen : (length s ≤ n)%nat) by (cbn in Hl; lia).
    destruct (IH _ _ _ Hlen Hq' Et) as [Hc _].
    assert (Hk : ∀ y, q y (b :: s) = None → q y (b :: t') = None).
    { intros y Hy. destruct (first_segment _ _ _ Et) as [->|(c & m & r & g & t2 & -> & -> & Hs)]; [done|].
      apply (q_kept y (b :: c) m r g t2); done. }
    split.
    + cbn [clean]. split; [|done]. apply Hk. destruct Hq as [->|[Hy _]]; done.
    + intros Hx y. cbn [clean]. split; [|done]. by apply Hk.
Qed.

End keeps.
End replace.

(** ** Headers *)

Lemma giveBack_spec s :
  match giveBack s with
  | Some r => ∃ a b, s = a ++ b :: r ∧ crlf b = false ∧ forallb crlf r = true
  | None => forallb crlf s = true
  end.
Proof.
  induction s as [|b s IH]; [done|]. cbn. destruct (giveBack s) as [r|].
  - destruct IH as (a & b' & -> & H1 & H2). by exists (b :: a), b'.
  - destruct (crlf b) eqn:E; [done|]. by exists [], b.
Qed.

Lemma dropWhile_split p s : ∃ a, s = a ++ dropWhile p s ∧ forallb p a = true.
Proof.
  induction s as [|b s [a [E Ha]]]; [by exists []|]. cbn. destruct (p b) eqn:Eb; [|by exists []].
  exists (b :: a). cbn. rewrite <- E, Eb. done.
Qed.

Lemma dropWhile_head p s b x : dropWhile p s = b :: x → p b = false.
Proof. induction s as [|c s IH]; [done|]. cbn. destruct (p c) eqn:E; [done|]. congruence. Qed.

Lemma crlf_ws b : crlf b = true → ws b = true.
Proof. unfold crlf, ws. rewrite !orb_true_iff, !Z.eqb_eq. naive_solver. Qed.

(** What follows a value is nothing, or the end of a line. *)
Definition ends (rest : list Z) : Prop := ∀ b x, rest = b :: x → crlf b = true.

Lemma value_spec s rest :
  value s = Some rest → ∃ x, s = x ++ rest ∧ forallb crlf x = false ∧ ends rest.
Proof.
  unfold value. destruct (dropWhile ws s) as [|b y] eqn:E.
  - pose proof (giveBack_spec s) as H. intros Eg. rewrite Eg in H. destruct H as (a & b & -> & Hb & Hr).
    exists (a ++ [b]). rewrite <- app_assoc. split_and!; [done| |].
    + rewrite forallb_app. cbn. by rewrite Hb, andb_false_r.
    + intros b' x ->. cbn in Hr. by apply andb_true_iff in Hr as [? _].
  - intros [= <-]. destruct (dropWhile_split ws s) as (a & Es & _). rewrite E in Es.
    destruct (dropWhile_split (λ b, negb (crlf b)) (b :: y)) as (v & Ev & Hv).
    exists (a ++ v). split_and!.
    + rewrite <- app_assoc, Es. f_equal. exact Ev.
    + assert (Hb : crlf b = false).
      { apply dropWhile_head in E. destruct (crlf b) eqn:Ec; [|done]. by apply crlf_ws in Ec; congruence. }
      destruct v as [|b' v].
      * cbn in Ev. rewrite Hb in Ev. cbn [negb] in Ev.
        exfalso. revert Ev. clear. intros Ev. apply (f_equal length) in Ev.
        destruct (dropWhile_split (λ b, negb (crlf b)) y) as (w & Ew & _).
        apply (f_equal length) in Ew. rewrite length_app in Ew. cbn in Ev. lia.
      * injection Ev as <- _. rewrite forallb_app. cbn. by rewrite Hb, andb_false_r.
    + intros b' x Ex. apply (dropWhile_head (λ b, negb (crlf b)) (b :: y)) in Ex.
      by apply negb_false_iff in Ex.
Qed.

Lemma value_none s : value s = None → forallb crlf s = true.
Proof.
  unfold value. destruct (dropWhile ws s) as [|b y] eqn:E; [|done].
  pose proof (giveBack_spec s) as H. intros Eg. by rewrite Eg in H.
Qed.

Lemma find_some (p : Matcher) x prev prev' s r :
  p prev' s = Some r → (x = [] → prev' = prev) → (∀ b x', x = x' ++ [b] → prev' = Some b) →
  find p prev (x ++ s) ≠ None.
Proof.
  intros E. revert prev. induction x as [|b x IH]; intros prev H1 H2; cbn [app].
  - rewrite H1 in E by done. destruct s; cbn [find]; by rewrite E.
  - cbn [find]. destruct (p prev (b :: x ++ s)); [done|]. apply IH.
    + intros ->. by rewrite (H2 b []).
    + intros b' x' ->. by rewrite (H2 b' (b :: x')).
Qed.

Lemma find_at (p : Matcher) prev s g r :
  find p prev s = Some (g, r) → ∃ prev' s', p prev' s' = Some (g, r).
Proof.
  revert prev. induction s as [|b s IH]; intros prev; cbn [find].
  - destruct (p prev []) as [x|] eqn:E; [|done]. intros [= ->]. eauto.
  - destruct (p prev (b :: s)) as [x|] eqn:E; [|apply IH]. intros [= ->]. eauto.
Qed.

Lemma header_parts prev s g rest :
  header prev s = Some (g, rest) →
  ∃ k w x, k ∈ headerWords ∧ s = g ++ w ++ 58 :: x ++ rest ∧ allKey g ∧ g ≠ [] ∧
    (∀ y, lit k (g ++ y) = Some y) ∧ forallb ws w = true ∧ forallb crlf x = false ∧ ends rest.
Proof.
  unfold header. destruct (boundary prev s); [|done].
  destruct (alt headerWords s) as [r1|] eqn:Ea; [|done].
  apply alt_Some in Ea as (k & Hk & El).
  pose proof headerWords_keys as Hkeys. unfold keywords in Hkeys. rewrite Forall_forall in Hkeys.
  destruct (Hkeys k Hk) as [Hne Hc]. destruct (lit_local k s r1 Hc El) as (u & -> & Hu & Hun & Hy).
  rewrite upTo_app. destruct (dropWhile ws r1) as [|b r2] eqn:Ed; [done|].
  destruct (Z.eqb_spec b 58) as [->|]; [|done]. destruct (value r2) as [rest'|] eqn:Ev; [|done].
  intros [= <- <-]. destruct (dropWhile_split ws r1) as (w & Ew & Hw). rewrite Ed in Ew.
  destruct (value_spec _ _ Ev) as (x & Ex & Hx & He). exists k, w, x. split_and!; auto.
  by rewrite Ew, Ex.
Qed.

(** A keyword, a colon and a value match where a word may begin. *)
Lemma header_here prev k u w x :
  k ∈ headerWords → (∀ y, lit k (u ++ y) = Some y) → forallb ws w = true → forallb crlf x = false →
  boundary prev (u ++ w ++ 58 :: x) = true → ∃ r, header prev (u ++ w ++ 58 :: x) = Some r.
Proof.
  intros Hk Hy Hw Hx Hb. unfold header. rewrite Hb, (alt_lit _ k _ _ headerWords_apart Hk (Hy _)).
  rewrite dropWhile_app, Hw. cbn [dropWhile]. change (ws 58) with false. cbv iota.
  change (58 =? 58) with true. cbv iota.
  destruct (value x) eqn:Ev; [by eexists|]. apply value_none in Ev. congruence.
Qed.

(** What is replaced starts with a keyword byte, and keeps a group of them. *)
Definition Seg (m g : list Z) : Prop :=
  (∃ b m', m = b :: m' ∧ key b = true) ∧ allKey g ∧ g ≠ [].

Lemma lower_word c b : between 97 c 122 = true → lower b = c → isWord b = true.
Proof.
  unfold isWord, lower, between. intros [?%Z.leb_le ?%Z.leb_le]%andb_true_iff Hc.
  rewrite !orb_true_iff, !andb_true_iff, !Z.leb_le, Z.eqb_eq.
  destruct (Z.leb_spec 65 b), (Z.leb_spec b 90); cbn in Hc; lia.
Qed.

Lemma lit_long k s r :
  lit (115 :: k) s = Some r →
  ∃ b s', s = b :: s' ∧ (lower b = 115 ∧ lit k s' = Some r ∨ ∃ b2 s2, s' = b2 :: s2 ∧ lit k s2 = Some r).
Proof.
  destruct s as [|b s']; cbn [lit]; [done|]. intros E. exists b, s'. split; [done|].
  destruct (Z.eqb_spec (lower b) 115) as [Eb|_]; [by left|right].
  change ((115 =? 115) && (b =? 197)) with (b =? 197) in E. change ((115 =? 107) && (b =? 226)) with false in E.
  destruct (b =? 197); [|done]. destruct s' as [|b2 s2]; [done|]. destruct (b2 =? 191); [|done].
  by exists b2, s2.
Qed.

(** A keyword that does not start with a word byte is set-cookie, written with a long
    s; a word begins at its cookie. *)
Lemma long_s k u :
  k ∈ headerWords → (∀ y, lit k (u ++ y) = Some y) → wordAt (head u) = false →
  ∃ a u3, u = a ++ 45 :: u3 ∧ (∀ y, lit (codes "cookie") (u3 ++ y) = Some y) ∧ wordAt (head u3) = true.
Proof.
  intros Hk Hy Hw.
  assert (Hx : ∀ c k', k = c :: k' → c ≠ 115 → c ≠ 107 → between 97 c 122 = true → False).
  { intros c k' -> H1 H2 Hc. specialize (Hy []). rewrite app_nil_r in Hy.
    apply lit_plain in Hy as (b & s' & -> & Hb & _); [|done..]. cbn in Hw.
    by rewrite (lower_word c b Hc Hb) in Hw. }
  assert (Hks : k = codes "set-cookie").
  { unfold headerWords in Hk. cbn [fmap list_fmap] in Hk.
    repeat (apply elem_of_cons in Hk as [->|Hk]; [first [done|exfalso; eapply Hx; reflexivity || done]|]).
    by apply elem_of_nil in Hk. }
  subst k. specialize (Hy []). rewrite app_nil_r in Hy.
  change (codes "set-cookie") with (115 :: 101 :: 116 :: 45 :: codes "cookie") in Hy.
  apply lit_long in Hy as (b & u' & -> & [[Eb _]|(b2 & u2 & -> & Hy)]).
  { cbn in Hw. by rewrite (lower_word 115 b eq_refl Eb) in Hw. }
  apply (lit_plain 101) in Hy as (x1 & s1 & -> & _ & Hy); [|done..].
  apply (lit_plain 116) in Hy as (x2 & s2 & -> & _ & Hy); [|done..].
  apply (lit_plain 45) in Hy as (x3 & s3 & -> & H3 & Hy); [|done..].
  assert (x3 = 45) as ->.
  { unfold lower, between in H3. destruct (Z.leb_spec 65 x3), (Z.leb_spec x3 90); cbn in H3; lia. }
  exists [b; b2; x1; x2], s3. split; [done|].
  destruct (lit_local (codes "cookie") s3 []) as (u3 & E3 & _ & _ & Hy3); [|done|].
  { pose proof headerWords_keys as Hkeys. unfold keywords in Hkeys. rewrite Forall_forall in Hkeys.
    apply (Hkeys (codes "cookie")). unfold headerWords. cbn [fmap list_fmap]. do 2 right. left. }
  rewrite app_nil_r in E3. subst u3. split; [done|].
  change (codes "cookie") with (99 :: codes "ookie") in Hy.
  apply lit_plain in Hy as (x4 & s4 & -> & H4 & _); [|done..]. cbn. by apply (lower_word 99).
Qed.

Lemma boundary_word prev s : wordAt prev = false → wordAt (head s) = true → boundary prev s = true.
Proof. unfold boundary. by intros -> ->. Qed.

Lemma head_app_cons {A} (u y : list A) : u ≠ [] → head (u ++ y) = head u.
Proof. by destruct u. Qed.

Lemma header_match prev s g rest :
  header prev s = Some (g, rest) →
  ∃ m g' r', s = m ++ rest ∧ m ≠ [] ∧ find header None m = Some (g', r') ∧ Seg m g'.
Proof.
  intros H. destruct (header_parts _ _ _ _ H) as (k & w & x & Hk & -> & Hg & Hne & Hy & Hw & Hx & _).
  set (m := g ++ w ++ 58 :: x).
  assert (Hf : find header None m ≠ None).
  { destruct (wordAt (head g)) eqn:Eg.
    - destruct (header_here None k g w x Hk Hy Hw Hx) as [r Er].
      { apply boundary_word; [done|]. by rewrite head_app_cons. }
      apply (find_some header [] None None m r Er); [done|]. intros b x' E. by destruct x'.
    - destruct (long_s k g Hk Hy Eg) as (a & u3 & E & Hy3 & Hw3).
      assert (Hne3 : u3 ≠ []) by (by intros ->).
      assert (Hck : codes "cookie" ∈ headerWords)
        by (unfold headerWords; cbn [fmap list_fmap]; do 2 right; left).
      destruct (header_here (Some 45) (codes "cookie") u3 w x Hck Hy3 Hw Hx) as [r Er].
      { apply boundary_word; [done|]. by rewrite head_app_cons. }
      assert (Em : m = (a ++ [45]) ++ (u3 ++ w ++ 58 :: x)).
      { unfold m. rewrite E, <- !app_assoc. done. }
      rewrite Em. apply (find_some header (a ++ [45]) None (Some 45) _ r Er).
      + intros E0. by destruct a.
      + intros b x' E0. by apply app_inj_tail in E0 as [_ <-]. }
  destruct (find header None m) as [[g' r']|] eqn:Ef; [|done].
  exists m, g', r'. split_and!; [unfold m; by rewrite <- !app_assoc|unfold m; by destruct g|done|].
  destruct (find_at _ _ _ _ _ Ef) as (prev' & s' & E').
  destruct (header_parts _ _ _ _ E') as (k' & w' & x' & _ & _ & Hg' & Hne' & _).
  split; [|done]. unfold m. destruct g as [|b g]; [done|]. apply Forall_cons in Hg as [Hb _].
  by exists b, (g ++ w ++ 58 :: x).
Qed.

(** Nothing starts at the end of a line. *)
Lemma header_ends rest prev : ends rest → header prev rest = None.
Proof.
  intros He. unfold header. destruct (boundary prev rest); [|done].
  destruct (alt headerWords rest) as [y|] eqn:Ea; [|done].
  destruct (alt_local _ _ _ headerWords_keys headerWords_apart Ea) as (u & -> & Hu & Hne & _).
  destruct u as [|b u]; [done|]. apply Forall_cons in Hu as [Hb _].
  specialize (He b (u ++ y) eq_refl). by rewrite (proj1 (proj2 (key_not b Hb))) in He.
Qed.

(** ** Both patterns inside a replacement *)

Lemma drop_mark g i : (i < length (mark g))%nat →
  (∃ g1 g2, g = g1 ++ g2 ∧ drop i (mark g) = mark g2) ∨
  (∃ j, (j < length (codes marker))%nat ∧ drop i (mark g) = drop j (codes marker)).
Proof.
  unfold mark. rewrite length_app. intros Hi. destruct (decide (i ≤ length g)%nat) as [Hl|Hl].
  - left. exists (take i g), (drop i g). rewrite take_drop. split; [done|]. by rewrite drop_app_le.
  - right. exists (i - length g - 1)%nat. cbn [length] in Hi. split; [lia|].
    rewrite drop_app_ge by lia. replace (i - length g)%nat with (S (i - length g - 1)) at 1 by lia. done.
Qed.

Lemma header_mark prev m g t i : Seg m g → (i < length (mark g))%nat →
  header prev (drop i (mark g) ++ t) = None.
Proof.
  intros (_ & Hg & _) [(g1 & g2 & -> & ->)|(j & Hj & ->)]%drop_mark.
  - rewrite <- rep_mark. apply header_rep. by apply Forall_app in Hg as [_ ?].
  - unfold header. destruct (boundary prev _); [|done]. by rewrite (proj1 (marker_alt j t Hj)).
Qed.

Lemma grant_mark prev m g t i : Seg m g → (i < length (mark g))%nat →
  grant prev (drop i (mark g) ++ t) = None.
Proof.
  intros (_ & Hg & _) [(g1 & g2 & -> & ->)|(j & Hj & ->)]%drop_mark.
  - rewrite <- rep_mark. apply grant_rep. by apply Forall_app in Hg as [_ ?].
  - unfold grant. destruct (boundary prev _); [|done]. by rewrite (proj2 (marker_alt j t Hj)).
Qed.

Lemma header_seg prev c m r g t : c ≠ [] → Seg m g →
  header prev (c ++ m ++ r) = None → header prev (c ++ rep g t) = None.
Proof. intros Hc ((b & m' & -> & Hb) & Hg & _). by apply header_kept. Qed.

(** ** Grants, from match to match *)

Lemma classRun_split s n r :
  classRun s = (n, r) → ∃ z, s = z ++ r ∧ classRun z = (n, []) ∧ classRun r = (O, r).
Proof.
  assert (H : ∀ l s n r, (length s ≤ l)%nat → classRun s = (n, r) →
    ∃ z, s = z ++ r ∧ classRun z = (n, []) ∧ classRun r = (O, r)); [|by apply (H (length s))].
  clear. induction l as [|l IH]; intros s n r Hl E.
  { destruct s; [|cbn in Hl; lia]. cbn in E. simplify_eq. by exists []. }
  destruct s as [|b s]; [cbn in E; simplify_eq; by exists []|]. cbn [length] in Hl.
  pose proof E as E0. cbn [classRun] in E. destruct (inClass b) eqn:Eb.
  { destruct (classRun s) as [n' r'] eqn:Er. simplify_eq.
    destruct (IH s n' r) as (z & -> & Hz & Hr); [lia|done|]. exists (b :: z). split_and!; try done.
    cbn [classRun]. by rewrite Eb, Hz. }
  destruct (b =? 197) eqn:E1.
  { destruct s as [|b2 s]; [simplify_eq; by exists []|]. destruct (b2 =? 191) eqn:E2; [|simplify_eq; by exists []].
    destruct (classRun s) as [n' r'] eqn:Er. simplify_eq. cbn in Hl.
    destruct (IH s n' r) as (z & -> & Hz & Hr); [lia|done|]. exists (b :: b2 :: z). split_and!; try done.
    cbn [classRun]. by rewrite Eb, E1, E2, Hz. }
  destruct (b =? 226) eqn:E3; [|simplify_eq; by exists []].
  destruct s as [|b2 [|b3 s]]; [simplify_eq; by exists []..|].
  destruct ((b2 =? 132) && (b3 =? 170)) eqn:E4; [|simplify_eq; by exists []].
  destruct (classRun s) as [n' r'] eqn:Er. simplify_eq. cbn in Hl.
  destruct (IH s n' r) as (z & -> & Hz & Hr); [lia|done|]. exists (b :: b2 :: b3 :: z). split_and!; try done.
  cbn [classRun]. by rewrite Eb, E1, E3, E4, Hz.
Qed.

Lemma class_letter c b : (between 97 c 122 = true ∨ c = 45) → lower b = c → inClass b = true.
Proof.
  intros Hc Hb. unfold inClass. destruct Hc as [Hc| ->].
  - unfold lower, between in *. apply andb_true_iff in Hc as [?%Z.leb_le ?%Z.leb_le].
    rewrite !orb_true_iff, !andb_true_iff, !Z.leb_le.
    destruct (Z.leb_spec 65 b), (Z.leb_spec b 90); cbn in Hb; lia.
  - assert (b = 45) as ->; [|done]. unfold lower, between in Hb.
    destruct (Z.leb_spec 65 b), (Z.leb_spec b 90); cbn in Hb; lia.
Qed.

(** The bytes of a literal are runes of the class. *)
Lemma lit_class k s r :
  Forall (λ c, between 97 c 122 = true ∨ c = 45) k → lit k s = Some r →
  (classRun s).1 = (length k + (classRun r).1)%nat.
Proof.
  intros Hk. revert s. induction k as [|c k IH]; intros s E; [cbn in E; by simplify_eq|].
  apply Forall_cons in Hk as [Hc Hk]. destruct s as [|b s]; [done|]. cbn [lit] in E.
  destruct (Z.eqb_spec (lower b) c) as [Eb|_].
  { cbn [classRun]. rewrite (class_letter c b Hc Eb). specialize (IH Hk s E).
    destruct (classRun s). cbn [fst length] in *. lia. }
  destruct ((c =? 115) && (b =? 197)) eqn:E1.
  { apply andb_true_iff in E1 as [_ ->%Z.eqb_eq]. destruct s as [|b2 s]; [done|].
    destruct (Z.eqb_spec b2 191) as [->|]; [|done]. specialize (IH Hk s E).
    change (classRun (197 :: 191 :: s)) with (let (n, r) := classRun s in (S n, r)).
    destruct (classRun s). cbn [fst length] in *. lia. }
  destruct ((c =? 107) && (b =? 226)) eqn:E2; [|done].
  apply andb_true_iff in E2 as [_ ->%Z.eqb_eq]. destruct s as [|b2 [|b3 s]]; try done.
  destruct ((b2 =? 132) && (b3 =? 170)) eqn:E3; [|done].
  apply andb_true_iff in E3 as [->%Z.eqb_eq ->%Z.eqb_eq]. specialize (IH Hk s E).
  change (classRun (226 :: 132 :: 170 :: s)) with (let (n, r) := classRun s in (S n, r)).
  destruct (classRun s). cbn [fst length] in *. lia.
Qed.

Lemma alt_class ks s : keywords ks → (classRun s).1 = O → alt ks s = None.
Proof.
  intros Hk Hs. destruct (alt ks s) as [r|] eqn:E; [|done]. apply alt_Some in E as (k & Hin & E).
  unfold keywords in Hk. rewrite Forall_forall in Hk. destruct (Hk k Hin) as [Hne Hc].
  rewrite (lit_class k s r Hc E) in Hs. destruct k; [done|]. cbn in Hs. lia.
Qed.

Lemma grant_parts prev s g rest :
  grant prev s = Some (g, rest) →
  ∃ k w0 w z n, k ∈ grantWords ∧ s = (g ++ w0 :: w ++ z) ++ rest ∧ allKey g ∧ g ≠ [] ∧
    (∀ y, lit k (g ++ y) = Some y) ∧ ws w0 = true ∧ dropWhile ws (w0 :: w ++ z) = z ∧
    classRun z = (n, []) ∧ (8 ≤ n)%nat ∧ (classRun rest).1 = O.
Proof.
  unfold grant. destruct (boundary prev s); [|done].
  destruct (alt grantWords s) as [r1|] eqn:Ea; [|done].
  apply alt_Some in Ea as (k & Hk & El).
  pose proof grantWords_keys as Hkeys. unfold keywords in Hkeys. rewrite Forall_forall in Hkeys.
  destruct (Hkeys k Hk) as [Hne Hc]. destruct (lit_local k s r1 Hc El) as (u & -> & Hu & Hun & Hy).
  rewrite upTo_app. destruct r1 as [|w0 r1]; [done|]. destruct (ws w0) eqn:Ew; [|done].
  destruct (classRun (dropWhile ws (w0 :: r1))) as [n rest'] eqn:Er.
  destruct (Nat.leb_spec 8 n) as [Hn|]; [|done]. intros [= <- <-].
  destruct (classRun_split _ _ _ Er) as (z & Ez & Hz & Hr).
  destruct (dropWhile_split ws r1) as (w & Ew1 & Hw). cbn [dropWhile] in Ez. rewrite Ew in Ez.
  exists k, w0, w, z, n. split_and!; try done; auto.
  - rewrite <- app_assoc. cbn [app]. rewrite <- app_assoc, <- Ez, <- Ew1. done.
  - cbn [dropWhile]. rewrite Ew, dropWhile_app, Hw. destruct z as [|b z]; [cbn in Hz; simplify_eq; lia|].
    apply dropWhile_stop. cbn [app] in Ez. by eapply dropWhile_head.
  - by rewrite Hr.
Qed.

Definition GrantSeg (m g : list Z) : Prop :=
  Seg m g ∧ (∃ w m', m = g ++ w :: m' ∧ ws w = true) ∧ (groupRunes g < 8)%nat.

Lemma grantWord_first k u : k ∈ grantWords → (∀ y, lit k (u ++ y) = Some y) →
  wordAt (head u) = true ∧ (length k < 8)%nat.
Proof.
  intros Hk Hy. specialize (Hy []). rewrite app_nil_r in Hy. unfold grantWords in Hk.
  cbn [fmap list_fmap] in Hk.
  assert (Hx : (k = codes "bearer" ∨ k = codes "basic")).
  { repeat (apply elem_of_cons in Hk as [->|Hk]; [auto|]). by apply elem_of_nil in Hk. }
  destruct Hx as [->| ->]; (split; [|cbn; lia]).
  - change (codes "bearer") with (98 :: codes "earer") in Hy.
    apply lit_plain in Hy as (b & s' & -> & Hb & _); [|done..]. by apply (lower_word 98).
  - change (codes "basic") with (98 :: codes "asic") in Hy.
    apply lit_plain in Hy as (b & s' & -> & Hb & _); [|done..]. by apply (lower_word 98).
Qed.

Lemma grant_match prev s g rest :
  grant prev s = Some (g, rest) →
  ∃ m g' r', s = m ++ rest ∧ m ≠ [] ∧ find grant None m = Some (g', r') ∧ GrantSeg m g'.
Proof.
  intros H. destruct (grant_parts _ _ _ _ H)
    as (k & w0 & w & z & n & Hk & -> & Hg & Hne & Hy & Hw0 & Hd & Hz & Hn & _).
  destruct (grantWord_first k g Hk Hy) as [Hw Hlen].
  set (m := g ++ w0 :: w ++ z).
  assert (Hf : grant None m = Some (g, [])).
  { unfold grant. rewrite boundary_word by (done || (unfold m; by rewrite head_app_cons)).
    unfold m. rewrite (alt_lit _ k _ _ grantWords_apart Hk (Hy _)), Hw0, Hd, Hz.
    rewrite (proj2 (Nat.leb_le _ _) Hn). by rewrite upTo_app. }
  exists m, g, []. split_and!; [done|unfold m; by destruct g| |].
  - destruct m as [|b m'] eqn:Em; [by destruct g|]. cbn [find]. by rewrite Hf.
  - split_and!.
    + split; [|done]. unfold m. destruct g as [|b g]; [done|]. apply Forall_cons in Hg as [Hb _].
      by exists b, (g ++ w0 :: w ++ z).
    + by exists w0, (w ++ z).
    + unfold groupRunes. pose proof grantWords_keys as Hkeys. unfold keywords in Hkeys.
      rewrite Forall_forall in Hkeys. destruct (Hkeys k Hk) as [_ Hc].
      rewrite (lit_class k _ _ Hc (Hy [32])). change (classRun [32]).1 with O. lia.
Qed.

Lemma grant_seg prev c m r g t : c ≠ [] → GrantSeg m g →
  grant prev (c ++ m ++ r) = None → grant prev (c ++ rep g t) = None.
Proof.
  intros Hc ((_ & Hg & Hne) & (w & m' & -> & Hw) & Hn). rewrite <- app_assoc. cbn [app].
  by apply grant_kept.
Qed.

Lemma after_grant prev s g rest : grant prev s = Some (g, rest) →
  ∀ x, header x rest = None ∧ grant x rest = None.
Proof.
  intros H x. destruct (grant_parts _ _ _ _ H) as (k & w0 & w & z & n & _ & _ & _ & _ & _ & _ & _ & _ & _ & Hr).
  unfold header, grant. rewrite (alt_class _ _ headerWords_keys Hr), (alt_class _ _ grantWords_keys Hr).
  by destruct (boundary x rest).
Qed.

(** A text without matches is left alone. *)
Lemma clean_replace p prev s : clean p prev s → replaceAll p prev 0 s = Some s.
Proof.
  revert prev. induction s as [|b s IH]; intros prev H; [done|]. destruct H as [H1 H2].
  cbn [replaceAll]. by rewrite H1, IH.
Qed.

Lemma redacted_clean s :
  ∃ t, redacted s = Some t ∧ clean header None t ∧ clean grant None t ∧ redacted t = Some t.
Proof.
  destruct (replace_total header Seg header_match s None) as [t1 E1].
  destruct (replace_clean header Seg header_match header header_seg header_mark
    (λ prev s g rest H x, header_ends rest x
       (let '(ex_intro _ _ (ex_intro _ _ (ex_intro _ _ P))) := header_parts prev s g rest H in
        proj2 (proj2 (proj2 (proj2 (proj2 (proj2 (proj2 P))))))))
    (length s) s None t1 (le_n _) (or_introl eq_refl) E1) as [H1 _].
  destruct (replace_total grant GrantSeg grant_match t1 None) as [t2 E2].
  destruct (replace_clean grant GrantSeg grant_match header
    (λ prev c m r g t Hc Hs, header_seg prev c m r g t Hc (proj1 Hs))
    (λ prev m g t i Hs, header_mark prev m g t i (proj1 Hs))
    (λ prev s g rest H x, proj1 (after_grant prev s g rest H x))
    (length t1) t1 None t2 (le_n _) (or_intror H1) E2) as [H2 _].
  destruct (replace_clean grant GrantSeg grant_match grant grant_seg
    (λ prev m g t i Hs, grant_mark prev m g t i (proj1 Hs))
    (λ prev s g rest H x, proj2 (after_grant prev s g rest H x))
    (length t1) t1 None t2 (le_n _) (or_introl eq_refl) E2) as [H3 _].
  exists t2. unfold redacted. rewrite E1. cbn [mbind option_bind]. rewrite E2. split_and!; try done.
  rewrite (clean_replace _ _ _ H2). cbn [mbind option_bind]. by apply clean_replace.
Qed.

(** ** Bytes and strings *)

Abbreviation isBytes := (Forall (λ b, 0 ≤ b < 256)).

Lemma key_byte b : key b = true → 0 ≤ b < 256.
Proof.
  unfold key, lower, between. intros H.
  destruct (existsb (Z.eqb b) [197; 191; 226; 132; 170]) eqn:E.
  - cbn in E. repeat rewrite orb_true_iff in E. repeat rewrite Z.eqb_eq in E. naive_solver lia.
  - rewrite orb_false_r in H.
    destruct (Z.leb_spec 65 b), (Z.leb_spec b 90); cbn [andb] in H;
      apply orb_true_iff in H as [H|H%Z.eqb_eq]; try (apply andb_true_iff in H as [?%Z.leb_le ?%Z.leb_le]); lia.
Qed.

Lemma replace_bytes p (Sg : list Z → list Z → Prop) s prev t :
  (∀ prev s g rest, p prev s = Some (g, rest) →
    ∃ m g' r', s = m ++ rest ∧ m ≠ [] ∧ find p None m = Some (g', r') ∧ Sg m g') →
  (∀ m g, Sg m g → Seg m g) →
  isBytes s → replaceAll p prev 0 s = Some t → isBytes t.
Proof.
  intros Hp Hs.
  assert (H : ∀ n s prev t, (length s ≤ n)%nat → isBytes s → replaceAll p prev 0 s = Some t → isBytes t).
  2: by apply (H (length s)).
  clear s prev t. induction n as [|n IH]; intros s prev t Hl Hb E.
  { destruct s; [cbn in E; by simplify_eq|cbn in Hl; lia]. }
  destruct s as [|b s]; [cbn in E; by simplify_eq|].
  destruct (p prev (b :: s)) as [[g rest]|] eqn:Em.
  - destruct (replace_match p Sg Hp _ _ _ _ Em) as (m & g' & prev' & Es & Hm & Hsg & Er).
    rewrite Er in E. apply bind_Some in E as (t' & Et & [= <-]). rewrite Es in Hb, Hl.
    apply Forall_app in Hb as [_ Hb]. unfold rep. apply Forall_app. split.
    + apply Hs in Hsg as (_ & Hg & _). eapply Forall_impl; [exact Hg|]. apply key_byte.
    + constructor; [lia|]. apply Forall_app. split; [by repeat constructor|].
      eapply IH; [|exact Hb|exact Et]. rewrite length_app in Hl. destruct m; [done|]. cbn in Hl. lia.
  - cbn [replaceAll] in E. rewrite Em in E. apply bind_Some in E as (t' & Et & [= <-]).
    apply Forall_cons in Hb as [Hb Hbs]. constructor; [done|].
    eapply IH; [|exact Hbs|exact Et]. cbn in Hl. lia.
Qed.

Lemma codes_bytes s : isBytes (codes s).
Proof.
  unfold codes. apply Forall_forall. intros b (c & -> & _)%list_elem_of_fmap. apply code_range.
Qed.

Lemma code_chr z : 0 ≤ z < 256 → code (chr z) = z.
Proof.
  intros Hz. unfold code, chr. rewrite Ascii.N_ascii_embedding by lia. lia.
Qed.

Lemma codes_of_bytes l : isBytes l → codes (bytes l) = l.
Proof.
  intros Hl. unfold codes, bytes. rewrite String.list_ascii_of_string_of_list_ascii.
  induction Hl as [|b l Hb _ IH]; [done|]. cbn. by rewrite code_chr, IH.
Qed.

Lemma bytes_of_codes s : bytes (codes s) = s.
Proof.
  unfold codes, bytes.
  assert (E : ∀ l : list Ascii.ascii, chr <$> (code <$> l) = l).
  { induction l as [|c l IH]; [done|]. cbn. by rewrite chr_code, IH. }
  rewrite E. apply String.string_of_list_ascii_of_string.
Qed.

Lemma redacted_bytes s t : redacted (codes s) = Some t → isBytes t.
Proof.
  unfold redacted. intros (t1 & Et1 & Et)%bind_Some.
  eapply (replace_bytes grant GrantSeg); [apply grant_match|by intros m g []| |exact Et].
  eapply (replace_bytes header Seg); [apply header_match|done|apply codes_bytes|exact Et1].
Qed.

(** ** What is kept *)

(** A text and its redaction: both are the same but where a match was replaced by a
    part of itself and the marker. *)
Inductive Cut (p : Matcher) : list Z → list Z → Prop :=
  | cut_end : Cut p [] []
  | cut_keep b s t : Cut p s t → Cut p (b :: s) (b :: t)
  | cut_match prev a g z rest g0 t :
      p prev ((a ++ g ++ z) ++ rest) = Some (g0, rest) → Cut p rest t →
      Cut p ((a ++ g ++ z) ++ rest) (g ++ 32 :: codes marker ++ t).

Definition grouped (p : Matcher) : Prop :=
  ∀ prev s g rest, p prev s = Some (g, rest) → ∃ z, s = g ++ z.

Lemma header_grouped : grouped header.
Proof.
  intros prev s g rest. unfold header, upTo.
  repeat case_match; intros [= <- _]; eexists; symmetry; apply take_drop.
Qed.

Lemma grant_grouped : grouped grant.
Proof.
  intros prev s g rest. unfold grant, upTo.
  repeat case_match; intros [= <- _]; eexists; symmetry; apply take_drop.
Qed.

Lemma find_group p prev s g r : grouped p → find p prev s = Some (g, r) → ∃ a z, s = a ++ g ++ z.
Proof.
  intros Hp. revert prev. induction s as [|b s IH]; intros prev; cbn [find].
  - destruct (p prev []) as [[g' r']|] eqn:E; [|done]. intros [= -> ->].
    destruct (Hp _ _ _ _ E) as [z Hz]. by exists [], z.
  - destruct (p prev (b :: s)) as [[g' r']|] eqn:E.
    + intros [= -> ->]. destruct (Hp _ _ _ _ E) as [z Hz]. by exists [], z.
    + intros (a & z & ->)%IH. by exists (b :: a), z.
Qed.

Lemma replace_cut p (G : list Z → list Z → Prop) prev s t :
  grouped p →
  (∀ prev s g rest, p prev s = Some (g, rest) →
     ∃ m g' r', s = m ++ rest ∧ m ≠ [] ∧ find p None m = Some (g', r') ∧ G m g') →
  replaceAll p prev 0 s = Some t → Cut p s t.
Proof.
  intros Hg Hm.
  assert (Hm' : ∀ prev s g rest, p prev s = Some (g, rest) →
    ∃ m g' r', s = m ++ rest ∧ m ≠ [] ∧ find p None m = Some (g', r') ∧ ∃ a z, m = a ++ g' ++ z).
  { intros ? ? ? ? (m & g' & r' & H1 & H2 & H3 & _)%Hm. exists m, g', r'. eauto using find_group. }
  clear Hm. remember (length s) as n eqn:Hn. revert s prev t Hn.
  induction (lt_wf n) as [n _ IH]. intros [|b s] prev t -> E; [cbn in E; simplify_eq; constructor|].
  destruct (p prev (b :: s)) as [[g rest]|] eqn:Em.
  - destruct (replace_match p _ Hm' _ _ _ _ Em) as (m & g' & prev' & Es & Hne & (a & z & ->) & Er).
    rewrite Er in E. apply bind_Some in E as (t' & Et & [= <-]). rewrite Es in *.
    eapply cut_match; [exact Em|]. eapply IH; [|reflexivity|exact Et].
    rewrite length_app. destruct (a ++ g' ++ z); [done|]. cbn. lia.
  - cbn [replaceAll] in E. rewrite Em in E. apply bind_Some in E as (t' & Et & [= <-]).
    constructor. eapply IH; [|reflexivity|exact Et]. cbn. lia.
Qed.

Lemma redacted_cut s t : redacted s = Some t → ∃ u, Cut header s u ∧ Cut grant u t.
Proof.
  unfold redacted. intros (u & E1 & E2)%bind_Some. exists u. split.
  - by eapply replace_cut; [apply header_grouped|apply header_match|].
  - by eapply replace_cut; [apply grant_grouped|apply grant_match|].
Qed.

(** C16: Redaction is complete and exact. Every text is redacted without a failure; no
    place of the result matches either pattern, neither inside what was kept nor where
    a replacement meets its surroundings; every byte outside the matches is kept, and a
    match is replaced by a part of itself and the marker; redacting again changes
    nothing; and the flag says whether the text had a match. *)
Theorem redaction_complete s :
  ∃ out changed, Apply s = Some (out, changed) ∧
    clean header None (codes out) ∧ clean grant None (codes out) ∧
    (∃ u, Cut header (codes s) u ∧ Cut grant u (codes out)) ∧
    Apply out = Some (out, false) ∧
    (changed = false ↔ clean header None (codes s) ∧ clean grant None (codes s)).
Proof.
  destruct (redacted_clean (codes s)) as (t & E & H1 & H2 & E2).
  pose proof (redacted_bytes s t E) as Hb. pose proof (redacted_cut _ _ E) as Hcut.
  exists (bytes t), (negb (bytes t =? s)%string). unfold Apply. rewrite E. cbn [mbind option_bind].
  rewrite (codes_of_bytes t Hb), E2. cbn [mbind option_bind]. split_and!; try done.
  - by rewrite String.eqb_refl.
  - rewrite negb_false_iff, String.eqb_eq. split.
    + intros <-. by rewrite (codes_of_bytes t Hb).
    + intros [C1 C2]. unfold redacted in E. rewrite (clean_replace _ _ _ C1) in E. cbn [mbind option_bind] in E.
      rewrite (clean_replace _ _ _ C2) in E. injection E as <-. apply bytes_of_codes.
Qed.

End Redact.
