(* ===== verification/RedactStore.v ===== *)
(** The redaction policy where the store applies it: the texts of attention items and
    annotations, in every execution. *)

From S2P Require Import Prelude Events Store RunStore VmStore StoreRules Registry History.
From S2P Require Import EventQuery AttentionStore AttentionRules AttentionRuns Text Redact.
Import Events Sql Store Log Runs Vms Rules Registry History EventQuery Attention AttentionRules.
Import AttentionRuns Redact.

Local Open Scope Z_scope.

Module RedactStore.

(** [redact.Apply], which never fails. *)
Definition policy (s : string) : string * bool := default (s, false) (Apply s).

Definition cleanText (s : string) : Prop :=
  clean header None (codes s) ∧ clean grant None (codes s).

Lemma policy_clean s : cleanText (policy s).1.
Proof.
  destruct (redacted_clean (codes s)) as (t & E & H1 & H2 & _).
  assert (Hb : Forall (λ b, 0 ≤ b < 256) t) by by eapply redacted_bytes.
  assert (Ep : (policy s).1 = Text.bytes t) by (unfold policy, Apply; by rewrite E).
  unfold cleanText. by rewrite Ep, codes_of_bytes.
Qed.

Section runs.
Context (hash : Envelope → string).

Definition textsClean (s : AStore_) : Prop :=
  (∀ t, t ∈ items s → cleanText (tSummary t)) ∧
  (∀ a, a ∈ rows (annotations s) → cleanText (eText a)).

Lemma raised_texts e inp s r s' :
  raised hash policy e inp s r s' → textsClean s → textsClean s'.
Proof.
  intros Hra [Hi Ha]. destruct Hra as [t it data _ _ _| |it data id _ _ _ _]; split;
    cbn [attention_items annotations on_rows rows insertRow]; try done.
  - intros x (y & Hy & ->)%elem_of_update. specialize (Hi y Hy). by case_match.
  - intros x (y & Hy & ->)%elem_of_update.
    assert (Hc : cleanText (tSummary y)).
    { apply elem_of_app in Hy as [Hy| ->%list_elem_of_singleton]; [by apply Hi|]. apply policy_clean. }
    by case_match.
Qed.

Lemma note_texts e inp s : textsClean s → textsClean (CreateAnnotation hash policy e inp s).2.
Proof.
  intros [Hi Ha]. unfold CreateAnnotation. destruct (validateAnnotation inp); [done|].
  unfold mbind, A_bind, mret, A_ret. pose proof (policy_clean (nText inp)) as Hc.
  destruct (policy (nText inp)) as [text red]. cbn [fst] in Hc.
  unfold ainTx, agets, asome, amodify, onBase, mret, A_ret.
  destruct (nextID (annotations s)) as [id|]; cbn [athrow]; [|done].
  match goal with |- context [systemEmit ?h ?e ?k ?sn ?q ?d ?b] => destruct (systemEmit h e k sn q d b) as [[eid|err] b'] end;
    [|done].
  match goal with |- context [match select1 ?p ?l with _ => _ end] => destruct (select1 p l) end; [|done].
  split; [done|]. cbn [snd annotations set_annotations with_base on_rows rows insertRow].
  intros x (y & Hy & ->)%elem_of_update.
  assert (Hcy : cleanText (eText y)).
  { apply elem_of_app in Hy as [Hy| ->%list_elem_of_singleton]; [by apply Ha|done]. }
  destruct (byAnnotationID id y); exact Hcy.
Qed.

Lemma astep_texts s o s' :
  astep hash policy s o s' → log_ok hash (abase s) → textsClean s → textsClean s'.
Proof.
  intros [e o' s0 (Hrd & Hit & Han) Hlg] Hl H. clear s s' o.
  assert (Hr1 : ready 1 e (abase s0)) by by eapply ready_le; [|exact Hrd].
  destruct o' as [o|inp|id|name to|inp]; cbn [aexec]; [done| | |done|by apply note_texts].
  - destruct (decide (complete inp)) as [Hc|Hc]; [|by rewrite RaiseAttention_incomplete].
    destruct (RaiseAttention_spec hash policy e inp s0 Hl Hr1 Hit Hc) as (r & s1 & Hra & ->). cbn.
    apply raised_texts in Hra; [|done]. unfold cursorAfter. by case_match.
  - destruct (Ack_cases e id s0) as [->| ->]; [done|]. destruct H as [Hi Ha]. split; [|done].
    cbn [attention_items set_items on_rows rows].
    intros x (y & Hy & ->)%elem_of_update. specialize (Hi y Hy). by case_match.
Qed.

End runs.

(** C15: No credential is stored with an item. In every execution of the store with the
    redaction policy, the summary of every attention item and the text of every
    annotation has no place that matches the policy's patterns: no authorization or
    cookie header with a value, no bearer or basic grant. *)
Theorem stored_text_redacted hash inst s :
  asteps hash policy (openA inst) s →
  (∀ t, t ∈ items s → cleanText (tSummary t)) ∧
  (∀ a, a ∈ rows (annotations s) → cleanText (eText a)).
Proof.
  assert (H : ∀ s1, asteps hash policy s1 s → accounted hash s1 → textsClean s1 → textsClean s).
  { intros s1. induction 1 as [|s1 s2 s3 [o Ho] _ IH]; [done|]. intros Ha Ht.
    apply IH; [by eapply astep_accounted|]. eapply astep_texts; [exact Ho|by apply ac_log|done]. }
  intros Hst. apply (H _ Hst); [apply accounted_empty|]. split; intros ? Hx; by apply elem_of_nil in Hx.
Qed.

(** A failure whose summary quotes a request. *)
Definition exSecret : RaiseInput :=
  mkRaise "lifecycle_failed" SeverityNeedsDecision (Some exVM) None
    "probe failed: Authorization: Basic dXNlcjpwYXNz" "recorded" [] [] true 10 "" 0.
Definition exStored : AStore_ := aexec exHash policy (exEnv "") (ARaise exSecret) (openA exInst).

Lemma exStored_steps : asteps exHash policy (openA exInst) exStored.
Proof.
  apply rtc_once. exists (ARaise exSecret). constructor; [|exact I].
  apply areadyb_spec. vm_compute. reflexivity.
Qed.

Lemma stored_text_redacted_witness :
  (∀ t, t ∈ items exStored → cleanText (tSummary t)) ∧
  tSummary <$> items exStored = ["probe failed: Authorization [redacted:rp1]"].
Proof.
  destruct (stored_text_redacted exHash exInst exStored exStored_steps) as [H _].
  split; [exact H|vm_compute; reflexivity].
Defined.

End RedactStore.
