(* ===== verification/Situation.v ===== *)
(** The situation engine (internal/situation): the trigger rules, the fold over the
    event log that raises attention, the snapshot, and telemetry health. *)

From S2P Require Import Prelude Events Store RunStore VmStore StoreRules Registry History.
From S2P Require Import EventQuery AttentionStore.
Import Events Sql Store Log Runs Vms Rules Registry History EventQuery Attention.

Local Open Scope Z_scope.

Module Situation.

Definition CursorName : string := "attention_triggers".

Record Config := mkConfig {
  Triggers : gmap string bool;
  QueueMaxItems : Z;
  CollapseDuplicates : bool
}.

(** * Reading an event *)

Definition dataOf (env : Envelope) : object := default [] (Data env).

(** [v, _ := env.Data[k].(string)]. *)
Definition strOf (o : object) (k : string) : string :=
  match field o k with Some (JStr s) => s | _ => "" end.
Definition dataStr (env : Envelope) (k : string) : string := strOf (dataOf env) k.

(** [errData, _ := env.Data["error"].(map[string]any)]. *)
Definition errorOf (env : Envelope) : object :=
  match field (dataOf env) "error" with Some (JObj o) => o | _ => [] end.

Definition nonEmpty (s : string) : option string := if (s =? "")%string then None else Some s.

Definition envVMID (env : Envelope) : option string :=
  match VMID env with Some v => Some v | None => nonEmpty (dataStr env "vm_id") end.

Definition runIDFromData (env : Envelope) : option string := nonEmpty (dataStr env "run_id").

Definition reconciliationReason (r : string) : bool :=
  (r =? "controller_restart")%string || (r =? "vmm_disappeared_on_restart")%string.

Definition terminalRunPhase (p : string) : bool :=
  existsb (String.eqb p) ["succeeded"; "failed"; "inconclusive"; "aborted"].

(** * Rules *)

Record rule := mkRule {
  class : string;
  severity : Envelope → string;
  match_ : Envelope → bool;
  summary : Envelope → string;
  systemAction : string;
  evidenceFn : option (Envelope → list string);
  actionsFn : Envelope → list SuggestedAction
}.

Section rules.
(** [fmt]'s [%q] of a string. *)
Context (quote : string → string).

Definition needsDecision (_ : Envelope) : string := SeverityNeedsDecision.
Definition always (_ : Envelope) : bool := true.
Definition noActions (_ : Envelope) : list SuggestedAction := [].

Definition lossRule : rule :=
  mkRule "telemetry_degraded" needsDecision always
    (λ env, "telemetry loss reported by sensor " +:+ quote (Sensor env) +:+
            "; counts are in the event record")
    "recorded the loss as evidence; capture continues" None noActions.

Definition integrityRule : rule :=
  mkRule "telemetry_degraded" needsDecision always
    (λ env, let f := dataStr env "failure" in
            "telemetry stream integrity failure (" +:+
            (if (f =? "")%string then "unspecified" else f) +:+ ")")
    "rejected the conflicting append; the original event stands" None noActions.

Definition unregisteredRule : rule :=
  mkRule "telemetry_degraded" needsDecision always
    (λ env, "producer sent unregistered event kind " +:+ quote (dataStr env "kind"))
    "rejected the append; kinds must be registered before ingest" None noActions.

Definition lifecycleRule : rule :=
  mkRule "lifecycle_failed" needsDecision
    (λ env, (dataStr env "to" =? "failed")%string &&
            negb (reconciliationReason (dataStr env "reason")))
    (λ env, "VM " +:+ dataStr env "vm_id" +:+ " failed from " +:+ dataStr env "from" +:+ ": " +:+
            dataStr env "reason")
    "recorded the failure; VM compute released, history preserved" None noActions.

Definition surpriseRule : rule :=
  mkRule "reconciliation_surprise" needsDecision
    (λ env, reconciliationReason (dataStr env "reason"))
    (λ env, "VM " +:+ dataStr env "vm_id" +:+ " found in unexpected state on restart: " +:+
            dataStr env "reason")
    "recorded the unexpected state; VM compute released, history preserved" None noActions.

(** A suggestion with a path about the VM of the event, if it names one. *)
Definition aboutVM (env : Envelope) (action pre post why : string) : list SuggestedAction :=
  let vm := dataStr env "vm_id" in
  if (vm =? "")%string then []
  else [mkAction action [("path", JStr (pre +:+ vm +:+ post))] why].

Definition cleanupRule : rule :=
  mkRule "lifecycle_failed" needsDecision always
    (λ env, "cleanup of VM " +:+ dataStr env "vm_id" +:+ " did not complete; the row is held at " +:+
            dataStr env "state" +:+ ": " +:+ dataStr env "reason")
    "retained the row and its resource reservations; the cleanup is retried at every controller start"
    None
    (λ env, aboutVM env "delete" "/api/v1/vms/" "?force=true"
       "retry the cleanup once the cause named in the summary is cleared on the host").

Definition ambiguousRule : rule :=
  mkRule "reconciliation_surprise" needsDecision always
    (λ env, "VM " +:+ dataStr env "vm_id" +:+
            " could not be classified on restart; the row is held at " +:+
            dataStr env "state" +:+ ": " +:+ dataStr env "detail")
    "left the row and its resource reservations exactly as the last controller wrote them"
    None
    (λ env, aboutVM env "get" "/api/v1/events?vm_id=" ""
       "the row is the last controller's word; this VM's event history is what led to it").

Definition concludedRule : rule :=
  mkRule "run_concluded"
    (λ env, if (dataStr env "to" =? "succeeded")%string then SeverityInfo else SeverityNeedsDecision)
    (λ env, terminalRunPhase (dataStr env "to"))
    (λ env,
       let by_ := dataStr env "evaluated_by" in
       let reason := dataStr env "reason" in
       "run " +:+ dataStr env "run_id" +:+ " on VM " +:+ dataStr env "vm_id" +:+ " concluded " +:+
       dataStr env "to" +:+
       (if (by_ =? "")%string then "" else "; evaluated_by " +:+ by_) +:+
       (if (reason =? "")%string then "" else ": " +:+ reason))
    "recorded the terminal phase; report generation enqueued"
    (Some (λ env,
       let run := dataStr env "run_id" in
       if (run =? "")%string then []
       else ["/api/v1/runs/" +:+ run; "/api/v1/runs/" +:+ run +:+ "/report"]))
    (λ env,
       let run := dataStr env "run_id" in
       if (run =? "")%string then []
       else [mkAction "get" [("path", JStr ("/api/v1/runs/" +:+ run +:+ "/report"))]
               "review the run report to understand the outcome"]).

Definition capacityRule : rule :=
  mkRule "capacity_exhausted" needsDecision
    (λ env, (dataStr env "state" =? "failed")%string &&
            (strOf (errorOf env) "cause" =? "insufficient_capacity")%string)
    (λ env, "create rejected: capacity exhausted — " +:+ strOf (errorOf env) "message")
    "rejected the create; no VM or reservation was written" None noActions.

Definition rulesByKind : list (string * list rule) :=
  [("telemetry.loss", [lossRule]);
   ("telemetry.integrity_failure", [integrityRule]);
   ("telemetry.unregistered_kind", [unregisteredRule]);
   ("vm.state_changed", [lifecycleRule; surpriseRule]);
   ("vm.cleanup_failed", [cleanupRule]);
   ("vm.reconcile_ambiguous", [ambiguousRule]);
   ("run.state_changed", [concludedRule]);
   ("operation.state_changed", [capacityRule])].

Definition rulesOf (k : string) : list rule :=
  match List.find (λ kr, (kr.1 =? k)%string) rulesByKind with Some kr => kr.2 | None => [] end.

Definition enabled (cfg : Config) (c : string) : bool := default false (Triggers cfg !! c).

(** [ActiveClasses]: configured and implemented, in order. *)
Definition ActiveClasses (cfg : Config) : list string :=
  merge_sort String.le
    (List.filter (λ c, existsb (λ kr, existsb (λ r, (class r =? c)%string) kr.2) rulesByKind)
       (fst <$> List.filter snd (map_to_list (Triggers cfg)))).

(** * The fold *)

(** The rules that fire on an event, in order. *)
Definition firing (cfg : Config) (env : Envelope) : list rule :=
  List.filter (λ r, enabled cfg (class r) && match_ r env) (rulesOf (Kind env)).

Definition raiseInput (cfg : Config) (r : rule) (env : Envelope) (id : Z) : RaiseInput :=
  mkRaise (class r) (severity r env) (envVMID env) (runIDFromData env) (summary r env)
    (systemAction r)
    (match evidenceFn r with
     | Some f => f env
     | None => ["/api/v1/events?after=" +:+ Strconv.FormatInt (Int.i64 (id - 1)) +:+ "&limit=1"]
     end)
    (actionsFn r env) (CollapseDuplicates cfg) (QueueMaxItems cfg) CursorName id.

Inductive EvalErr :=
  | EQuery (e : QueryErr)
  | EBadCursor
  | ERaise (id : Z) (e : AttentionErr)
  | ECursor (e : AttentionErr).

(** Where a pass of [Evaluate] is: each state but the last two is before one access
    of the store. *)
Inductive Pass :=
  | PStart
  | PQuery (cursor : Z)
  | PRaise (id : Z) (env : Envelope) (r : rule) (rs : list rule) (page : list Envelope)
  | PAdvance (cursor : Z)
  | PDone
  | PFailed (e : EvalErr).

(** The loop over a page, to the next raise or to the page's end. *)
Fixpoint scan (cfg : Config) (cursor : Z) (page : list Envelope) : Pass :=
  match page with
  | [] => PAdvance cursor
  | env :: page =>
    match Strconv.ParseInt (default "" (Events.EventID env)) with
    | None => PFailed EBadCursor
    | Some id =>
      match firing cfg env with
      | [] => scan cfg id page
      | r :: rs => PRaise id env r rs page
      end
    end
  end.

Definition pageQuery (cursor : Z) : Query :=
  EventQuery.mkQuery None "" "" (Strconv.FormatInt cursor) "" MaxPageLimit false.

Section pass.
Context (hash : Envelope → string) (redact : string → string * bool).
Context (containerText : json → string) (cfg : Config).

Definition passStep (e : Env) (p : Pass) (s : AStore_) : Pass * AStore_ :=
  match p with
  | PStart => (PQuery (ReadEngineCursor CursorName s), s)
  | PQuery cursor =>
    match Query_ containerText (pageQuery cursor) (db (abase s)) with
    | Err err => (PFailed (EQuery err), s)
    | Ok r => match Page r with
              | [] => (PDone, s)
              | page => (scan cfg cursor page, s)
              end
    end
  | PRaise id env r rs page =>
    match RaiseAttention hash redact e (raiseInput cfg r env id) s with
    | (Err err, s') => (PFailed (ERaise id err), s')
    | (Ok _, s') =>
      (match rs with [] => scan cfg id page | r' :: rs' => PRaise id env r' rs' page end, s')
    end
  | PAdvance cursor =>
    match AdvanceEngineCursor CursorName cursor s with
    | (Err err, s') => (PFailed (ECursor err), s')
    | (Ok _, s') => (PQuery cursor, s')
    end
  | PDone => (PDone, s)
  | PFailed err => (PFailed err, s)
  end.

Definition finished (p : Pass) : bool :=
  match p with PDone | PFailed _ => true | _ => false end.

(** [Evaluate] without interruption, with an environment per access. *)
Fixpoint evaluate (es : nat → Env) (fuel : nat) (p : Pass) (s : AStore_) : Pass * AStore_ :=
  match fuel with
  | O => (p, s)
  | S fuel =>
    if finished p then (p, s)
    else let '(p', s') := passStep (es fuel) p s in evaluate es fuel p' s'
  end.

(** * Reports of the importer *)

(** [reportImportFailure] and [reportWriterFailure]: [None] when the class is off. *)
Definition importLink (id : string) : string :=
  if (id =? "")%string then "/api/v1/telemetry/import"
  else "/api/v1/vms/" +:+ id +:+ "/telemetry/import".

Definition reportInput (vm : option string) (text action link why : string) : RaiseInput :=
  mkRaise "telemetry_degraded" SeverityNeedsDecision vm None text action [link]
    [mkAction "inspect_spool_import" [("url", JStr link)] why]
    (CollapseDuplicates cfg) (QueueMaxItems cfg) "" 0.

Definition importFailure (id lastError : string) : RaiseInput :=
  reportInput (nonEmpty id) ("spool import failed: " +:+ lastError)
    "kept uncommitted segments; retrying with per-VM backoff capped at one minute"
    (importLink id)
    "Inspect the current error; repair spool permissions, cursor or storage availability, then allow the next retry.".

Definition writerFailure (id since cause : string) : RaiseInput :=
  reportInput (Some id) ("runner spool writer failing since " +:+ since +:+ ": " +:+ cause)
    "refusing records the spool cannot make durable; the runner retries on every append and writes a telemetry.loss record once an append succeeds"
    ("/api/v1/vms/" +:+ id +:+ "/telemetry/import")
    "Free space or repair permissions on the spool filesystem; the writer resumes on its next append and records the loss.".

Definition report (e : Env) (inp : RaiseInput) : A unit :=
  if enabled cfg "telemetry_degraded" then
    _ ← RaiseAttention hash redact e inp; mret tt
  else mret tt.

End pass.
End rules.
End Situation.
