(* ===== verification/SituationRuns.v ===== *)
(** The trigger engine in every execution: passes of [Evaluate] beside everything
    else that happens to the store. *)

From S2P Require Import Prelude Events Store RunStore VmStore StoreRules Registry History.
From S2P Require Import EventQuery AttentionStore AttentionRules AttentionRuns Situation.
Import Events Sql Store Log Runs Vms Rules Registry History EventQuery Attention AttentionRules.
Import AttentionRuns Situation.

Local Open Scope Z_scope.

Module SituationRuns.

Record SSys := mkSSys { store_ : AStore_; passes : list Pass }.

(** What others do: they leave the engine's cursor alone. *)
Definition foreign (o : AOp) : Prop :=
  match o with
  | AAdvance _ _ => False
  | ARaise inp => iCursorName inp = ""
  | _ => True
  end.

Section engine.
Context (quote : string → string) (hash : Envelope → string).
Context (redact : string → string * bool) (text : json → string) (cfg : Config).

Abbreviation firing := (firing quote cfg).
Abbreviation scan := (scan quote cfg).
Abbreviation passStep := (passStep quote hash redact text cfg).

(** The raise a step of a pass commits, if any: the event and the class. *)
Definition commits (e : Env) (p : Pass) (s : AStore_) : list (Z * string) :=
  match p with
  | PRaise id env r _ _ =>
    match RaiseAttention hash redact e (raiseInput cfg r env id) s with
    | (Ok _, _) => [(id, class r)]
    | _ => []
    end
  | _ => []
  end.

(** Passes begin, move by one access of the store, and vanish (a request that is
    cancelled, a process that dies) at any point. [serial] asks that a pass begins
    only when none is under way. *)
Inductive sstep (serial : bool) : SSys → list (Z * string) → SSys → Prop :=
  | s_begin s ps :
      (serial = true → ps = []) → sstep serial (mkSSys s ps) [] (mkSSys s (ps ++ [PStart]))
  | s_pass e i p s ps :
      ps !! i = Some p → aready e s →
      sstep serial (mkSSys s ps) (commits e p s)
        (mkSSys (passStep e p s).2 (<[i := (passStep e p s).1]> ps))
  | s_drop (i : nat) s ps : sstep serial (mkSSys s ps) [] (mkSSys s (base.delete i ps))
  | s_other o s s' ps :
      astep hash redact s o s' → foreign o → sstep serial (mkSSys s ps) [] (mkSSys s' ps).

Inductive sruns (serial : bool) : SSys → list (Z * string) → SSys → Prop :=
  | sruns_nil y : sruns serial y [] y
  | sruns_snoc y1 tr y2 l y3 :
      sruns serial y1 tr y2 → sstep serial y2 l y3 → sruns serial y1 (tr ++ l) y3.

(** * What is due *)

Definition firedBy (r : EventRow) : list (Z * string) :=
  (λ u, (event_id r, class u)) <$> firing (withCursor r).

(** The raises the events up to a cursor call for, in order. *)
Definition due (c : Z) (l : list EventRow) : list (Z * string) :=
  concat (firedBy <$> select (λ r, event_id r <=? c) l).

(** A cursor that is zero or of an event in the log. *)
Definition known (c : Z) (l : list EventRow) : Prop := c = 0 ∨ ∃ r, r ∈ l ∧ c = event_id r.

Definition all (_ : EventRow) : bool := true.

Definition pageAfter (a z : Z) (l : list EventRow) : list Envelope :=
  withCursor <$> select (between a z all) l.

(** ** At most one rule fires *)

Lemma firing_cases env : firing env = [] ∨ ∃ r, firing env = [r].
Proof.
  assert (Hx : match_ lifecycleRule env = true → match_ surpriseRule env = true → False).
  { cbn. intros [_ H]%andb_true_iff H'. by rewrite H' in H. }
  unfold Situation.firing, rulesOf, rulesByKind. cbn [List.find fst snd].
  repeat (match goal with |- context [if ?b then _ else _] => destruct b end;
    [cbn [List.filter snd]; repeat case_match; eauto|]); [|cbn; by left].
  match goal with H1 : _ && _ = true, H2 : _ && _ = true |- _ =>
    apply andb_true_iff in H1 as [_ H1], H2 as [_ H2] end.
  exfalso. by apply Hx.
Qed.

Lemma rulesByKind_complete :
  Forall (λ kr, Forall (λ r, ∀ env id, complete (raiseInput cfg r env id)) kr.2) (rulesByKind quote).
Proof.
  unfold rulesByKind. repeat (apply Forall_cons; split); try done; cbn [snd];
    repeat (apply Forall_cons; split); try done; intros env id;
    (split; [done|split; [cbn [raiseInput iSummary summary]; by intros [=]|]]); try done.
  cbn. by case_match.
Qed.

Lemma rules_complete k r env id :
  r ∈ rulesOf quote k → complete (raiseInput cfg r env id).
Proof.
  unfold rulesOf. destruct (List.find _ _) as [kr|] eqn:E; [|by intros H%elem_of_nil].
  apply find_some in E as [Hin _]. intros Hr.
  pose proof rulesByKind_complete as H. rewrite Forall_forall in H.
  specialize (H kr (proj2 (list_elem_of_In _ _) Hin)). rewrite Forall_forall in H. by apply H.
Qed.

Lemma firing_rules env r : firing env = [r] → r ∈ rulesOf quote (Kind env).
Proof.
  intros E. assert (H : r ∈ firing env) by (rewrite E; left).
  unfold Situation.firing in H. apply list_elem_of_In, filter_In in H as [H _].
  by apply list_elem_of_In.
Qed.

(** ** Cursors in a growing log *)

Lemma known_app c l tl : known c l → known c (l ++ tl).
Proof.
  intros [->|(r & Hr & ->)]; [by left|right]. exists r. split; [|done]. apply elem_of_app. by left.
Qed.

(** What comes later lies behind every known cursor. *)
Definition behind (l tl : list EventRow) : Prop :=
  ∀ c r, known c l → r ∈ tl → c < event_id r.

Lemma due_app c l tl : behind l tl → known c l → due c (l ++ tl) = due c l.
Proof.
  intros Hb Hk. unfold due. rewrite select_app, (select_none _ tl), app_nil_r; [done|].
  intros r Hr. apply Z.leb_gt. by apply (Hb c).
Qed.

Lemma pageAfter_app a z l tl : behind l tl → known z l → pageAfter a z (l ++ tl) = pageAfter a z l.
Proof.
  intros Hb Hk. unfold pageAfter. rewrite select_app, (select_none _ tl), app_nil_r; [done|].
  intros r Hr. unfold between. rewrite (proj2 (Z.leb_gt _ _)); [by rewrite andb_false_r|].
  by apply (Hb z).
Qed.

Lemma select_le_split a c l :
  ordered l → a ≤ c →
  select (λ r, event_id r <=? c) l =
  select (λ r, event_id r <=? a) l ++ select (between a c all) l.
Proof.
  intros Hl Hac. induction l as [|r l IH]; [done|].
  apply ordered_cons in Hl as [Hl Hr]. specialize (IH Hl). unfold select in *. cbn.
  unfold between, all in *. rewrite andb_true_r.
  destruct (Z.leb_spec (event_id r) c), (Z.leb_spec (event_id r) a), (Z.ltb_spec a (event_id r));
    try lia; cbn; rewrite IH; try done.
  assert (E : List.filter (λ r0, event_id r0 <=? a) l = []).
  { apply (select_none _ l). intros x Hx%Hr. apply Z.leb_gt. lia. }
  by rewrite E.
Qed.

Lemma due_split a c l :
  ordered l → a ≤ c → due c l = due a l ++ concat (firedBy <$> select (between a c all) l).
Proof.
  intros Hl Hac. unfold due. by rewrite (select_le_split a c l Hl Hac), fmap_app, concat_app.
Qed.

(** The first row of a stretch, and the stretch behind it. *)
Lemma between_first a z l r rest :
  ordered l → select (between a z all) l = r :: rest →
  r ∈ l ∧ a < event_id r ≤ z ∧ rest = select (between (event_id r) z all) l ∧
  select (between a (event_id r) all) l = [r].
Proof.
  intros Hl E. assert (Hr : r ∈ select (between a z all) l) by (rewrite E; left).
  apply elem_of_select in Hr as [Hin Hb]. unfold between, all in Hb.
  rewrite andb_true_r in Hb. apply andb_true_iff in Hb as [H1%Z.ltb_lt H2%Z.leb_le].
  pose proof (select_between a (event_id r) z all l Hl ltac:(lia) H2) as Hs. rewrite E in Hs.
  pose proof (ordered_select (between a z all) l Hl) as Ho. rewrite E in Ho.
  apply ordered_cons in Ho as [_ Hlt].
  assert (Hx : ∀ x, x ∈ select (between a (event_id r) all) l → x = r).
  { intros x Hx. assert (Hx' : x ∈ r :: rest) by (rewrite <- Hs; apply elem_of_app; by left).
    apply elem_of_cons in Hx' as [->|Hx'%Hlt]; [done|].
    apply elem_of_select in Hx as [_ Hx]. unfold between in Hx.
    apply andb_true_iff in Hx as [_ Hx%Z.leb_le]. lia. }
  assert (Hrin : r ∈ select (between a (event_id r) all) l).
  { apply elem_of_select. split; [done|]. unfold between, all. rewrite andb_true_r.
    by rewrite (proj2 (Z.ltb_lt _ _) H1), Z.leb_refl. }
  destruct (select (between a (event_id r) all) l) as [|x [|x' xs]] eqn:E1.
  - by apply elem_of_nil in Hrin.
  - assert (x = r) as -> by (apply Hx; left). cbn in Hs. simplify_eq. done.
  - exfalso. assert (x = r) as -> by (apply Hx; left). assert (x' = r) as -> by (apply Hx; right; left).
    pose proof (ordered_select (between a (event_id r) all) l Hl) as Ho. rewrite E1 in Ho.
    apply ordered_cons in Ho as [_ Ho]. specialize (Ho r ltac:(left)). lia.
Qed.

(** * The invariant of serial passes *)

Definition cursorOfEngine (s : AStore_) : Z := ReadEngineCursor CursorName s.

Definition passOk (c : Z) (l : list EventRow) (p : Pass) : Prop :=
  match p with
  | PQuery c' => c' = c
  | PAdvance c' => c ≤ c' ∧ known c' l ∧ due c' l = due c l
  | PRaise id env r rs page =>
    rs = [] ∧ ∃ row z, row ∈ l ∧ event_id row = id ∧ env = withCursor row ∧ firing env = [r] ∧
      c < id ∧ due id l = due c l ++ [(id, class r)] ∧ id ≤ z ∧ known z l ∧ page = pageAfter id z l
  | PFailed _ => False
  | _ => True
  end.

Record engineOk (s : AStore_) (ps : list Pass) (tr : list (Z * string)) : Prop := mkEngineOk {
  en_log : log_ok hash (abase s);
  en_known : known (cursorOfEngine s) (log s);
  en_due : tr = due (cursorOfEngine s) (log s);
  en_pass : ps = [] ∨ ∃ p, ps = [p] ∧ passOk (cursorOfEngine s) (log s) p
}.

Lemma parse_cursor s r :
  log_ok hash s → r ∈ rows (events (db s)) →
  Strconv.ParseInt (default "" (Events.EventID (withCursor r))) = Some (event_id r).
Proof.
  intros Hl Hr. cbn. apply Strconv.ParseInt_FormatInt.
  pose proof (lo_range hash s Hl r Hr). pose proof (lo_seq hash s Hl). lia.
Qed.

(** The loop over a page ends before the next raise, or at the page's end. *)
Lemma scan_ok s c a z :
  log_ok hash (abase s) → c ≤ a → a ≤ z → known a (log s) → known z (log s) →
  due a (log s) = due c (log s) → passOk c (log s) (scan a (pageAfter a z (log s))).
Proof.
  intros Hl Hca Haz Ha Hz Hd. pose proof (log_ordered hash _ Hl) as Ho.
  remember (select (between a z all) (log s)) as rest eqn:E.
  revert a Hca Haz Ha Hd E. induction rest as [|r rest IH]; intros a Hca Haz Ha Hd E;
    unfold pageAfter; rewrite <- E; cbn [fmap list_fmap Situation.scan]; [done|].
  symmetry in E. destruct (between_first _ _ _ _ _ Ho E) as (Hin & Hlt & Hrest & Hone).
  rewrite (parse_cursor (abase s) r Hl Hin).
  assert (Hdue : due (event_id r) (log s) = due c (log s) ++ firedBy r).
  { rewrite (due_split a (event_id r) _ Ho ltac:(lia)), Hd, Hone. cbn. by rewrite app_nil_r. }
  assert (Hk : known (event_id r) (log s)) by (right; eauto).
  unfold firedBy in Hdue. destruct (firing_cases (withCursor r)) as [Ef|[u Ef]]; rewrite Ef in *.
  - rewrite app_nil_r in Hdue.
    pose proof (IH (event_id r) ltac:(lia) ltac:(lia) Hk Hdue Hrest) as H.
    unfold pageAfter in H. by rewrite <- Hrest in H.
  - cbn [passOk]. split; [done|]. exists r, z. split_and!; try done; try lia.
    unfold pageAfter. by rewrite Hrest.
Qed.

(** ** Growth *)

Lemma grown_behind s b tl :
  log_ok hash b → rows (events (db b)) = log s ++ tl → behind (log s) tl.
Proof.
  intros Hb E c r [->|(r0 & Hr0 & ->)] Hr.
  - assert (Hin : r ∈ rows (events (db b))) by (rewrite E; apply elem_of_app; by right).
    pose proof (lo_range hash b Hb r Hin). lia.
  - pose proof (log_ordered hash b Hb) as Ho. unfold ordered in Ho. rewrite E, fmap_app in Ho.
    eapply StronglySorted_app_1_elem_of; [exact Ho|by apply list_elem_of_fmap_2..].
Qed.

Lemma passOk_grow c l tl p : behind l tl → known c l → passOk c l p → passOk c (l ++ tl) p.
Proof.
  intros Hb Hc. destruct p as [|c'|id env r rs page|c'| |]; cbn; try done.
  - intros (-> & row & z & Hin & <- & -> & Hf & Hlt & Hd & Hz & Hkz & ->). split; [done|].
    assert (Hk : known (event_id row) l) by (right; eauto).
    exists row, z. rewrite !due_app, pageAfter_app by done.
    split_and!; try done; [apply elem_of_app; by left|by apply known_app].
  - intros (? & ? & Hd). rewrite !due_app by done. split_and!; [done|by apply known_app|done].
Qed.

Lemma engineOk_grow s s' ps tr tl :
  engineOk s ps tr → log_ok hash (abase s') → log s' = log s ++ tl →
  cursorOfEngine s' = cursorOfEngine s → engineOk s' ps tr.
Proof.
  intros [Hl Hk Hd Hp] Hl' E Hc. pose proof (grown_behind s (abase s') tl Hl' E) as Hb.
  split; [done|..]; rewrite ?Hc, E.
  - by apply known_app.
  - by rewrite due_app.
  - destruct Hp as [->|(p & -> & Hp)]; [by left|right]. exists p. split; [done|].
    by apply passOk_grow.
Qed.

(** A raise adds one event, and moves the cursor it carries. *)
Lemma RaiseAttention_log e inp s :
  log_ok hash (abase s) → aready e s → complete inp →
  ∃ r s' row, RaiseAttention hash redact e inp s = (Ok r, s') ∧ log_ok hash (abase s') ∧
    log s' = log s ++ [row] ∧ attentionKind (kind row) = true ∧
    cursorOfEngine s' = (if (iCursorName inp =? CursorName)%string then iCursorTo inp
                         else cursorOfEngine s) ∧
    seq (attention_items s') ≤ seq (attention_items s) + 1 ∧ annotations s' = annotations s ∧
    instanceID (abase s') = instanceID (abase s) ∧
    systemSeq (abase s') = systemSeq (abase s) + 1 ∧
    seq (events (db (abase s'))) = seq (events (db (abase s))) + 1.
Proof.
  intros Hl (Hrd & Hit & _) Hc.
  destruct (RaiseAttention_spec hash redact e inp s Hl) as (r & s1 & Hra & E);
    [by eapply ready_le; [|exact Hrd]|done..|].
  assert (Hcur : cursorOfEngine s1 = cursorOfEngine s) by by destruct Hra.
  assert (Hs1 : ∃ row, log_ok hash (abase s1) ∧ log s1 = log s ++ [row] ∧
    attentionKind (kind row) = true ∧ seq (attention_items s1) ≤ seq (attention_items s) + 1 ∧
    annotations s1 = annotations s ∧ instanceID (abase s1) = instanceID (abase s) ∧
    systemSeq (abase s1) = systemSeq (abase s) + 1 ∧
    seq (events (db (abase s1))) = seq (events (db (abase s))) + 1).
  { destruct Hra; eexists; cbn [abase attention_items annotations on_rows seq insertRow];
      rewrite log_told; unfold told, noted; cbn [instanceID systemSeq db];
      rewrite events_recorded; split_and!; try done; try (cbn; lia); by apply told_ok. }
  destruct Hs1 as (row & H1 & H2 & H3 & H4 & H5 & H6 & H7 & H8).
  exists r, (cursorAfter inp s1), row. split; [done|].
  unfold cursorAfter, cursorOfEngine, ReadEngineCursor in *.
  destruct (iCursorName inp =? "")%string eqn:En.
  - apply String.eqb_eq in En. rewrite En. cbn [String.eqb]. by split_and!.
  - cbn [abase set_cursors attention_items engine_cursors annotations]. split_and!; try done.
    destruct (String.eqb_spec (iCursorName inp) CursorName) as [->|Hne];
      [by rewrite lookup_insert_eq|by rewrite lookup_insert_ne].
Qed.

Lemma raise_step e s id env r page tr :
  engineOk s [PRaise id env r [] page] tr → aready e s →
  engineOk (passStep e (PRaise id env r [] page) s).2 [(passStep e (PRaise id env r [] page) s).1]
    (tr ++ commits e (PRaise id env r [] page) s).
Proof.
  intros [Hl Hk Hd [Hp|(p & [= <-] & Hp)]] Hr; [done|].
  destruct Hp as (_ & row & z & Hin & <- & -> & Hf & Hlt & Hdue & Hz & Hkz & ->).
  assert (Hc : complete (raiseInput cfg r (withCursor row) (event_id row))).
  { eapply rules_complete. by apply firing_rules. }
  destruct (RaiseAttention_log e _ s Hl Hr Hc) as (o & s' & row' & E & Hl' & El & _ & Hcur & _).
  cbn [Situation.passStep commits]. rewrite E. cbn [fst snd].
  change (iCursorName (raiseInput cfg r (withCursor row) (event_id row))) with CursorName in Hcur.
  rewrite String.eqb_refl in Hcur. cbn [iCursorTo raiseInput] in Hcur.
  pose proof (grown_behind s (abase s') [row'] Hl' El) as Hb.
  assert (Hki : known (event_id row) (log s)) by (right; eauto).
  split; [done|..]; rewrite ?Hcur.
  - rewrite El. by apply known_app.
  - rewrite El, due_app by done. by rewrite Hdue, Hd.
  - right. eexists. split; [done|]. rewrite <- (pageAfter_app _ z (log s) [row']), <- El by done.
    apply scan_ok; try done; rewrite El; by apply known_app.
Qed.

(** A page is what the log has behind the cursor. *)
Lemma query_step s :
  log_ok hash (abase s) → known (cursorOfEngine s) (log s) →
  ∃ z nx lt, Query_ text (pageQuery (cursorOfEngine s)) (db (abase s)) =
    Ok (mkQueryResult (pageAfter (cursorOfEngine s) z (log s)) nx lt) ∧
    cursorOfEngine s ≤ z ∧ known z (log s) ∧
    (pageAfter (cursorOfEngine s) z (log s) = [] →
     select (λ r, cursorOfEngine s <? event_id r) (log s) = []).
Proof.
  intros Hl Hk. set (c := cursorOfEngine s) in *.
  assert (Hc : 0 ≤ c ≤ Int.MaxInt64).
  { destruct Hk as [->|(r & Hr & ->)]; [unfold Int.MaxInt64; lia|].
    pose proof (lo_range hash _ Hl r Hr). pose proof (lo_seq hash _ Hl). lia. }
  assert (Hq : checkQuery (pageQuery c) = Ok (c, None, [], MaxPageLimit)).
  { unfold checkQuery, pageQuery. cbn [QKind QFamily QLimit QAfter QUntil].
    cbn -[cursorOf KindsByFamily]. by rewrite cursorOf_format. }
  destruct (page_next text hash (pageQuery c) c None [] MaxPageLimit (abase s) eq_refl Hq Hl)
    as (nx & lt & z & E & _ & Hle & Hz & _ & Hnone).
  assert (Hw : ∀ a b, select (between a b (wanted text None (QVMID (pageQuery c)) (QKind (pageQuery c)) [])) (log s)
    = select (between a b all) (log s)) by (intros; by apply select_ext).
  exists z, nx, lt. rewrite Hw in E, Hnone. split_and!; [done|done| |].
  - destruct Hz as [->|(r & Hr & ->)]; [done|]. right. eauto.
  - intros Hp%fmap_nil_inv. specialize (Hnone Hp). rewrite <- Hnone. apply select_ext. intros r _.
    unfold matching. cbn. by rewrite andb_true_r.
Qed.

Lemma pass_step e s p tr :
  engineOk s [p] tr → aready e s →
  engineOk (passStep e p s).2 [(passStep e p s).1] (tr ++ commits e p s).
Proof.
  intros H Hr. destruct p as [|c|id env r rs page|c| |]; cbn [commits]; rewrite ?app_nil_r.
  - destruct H as [Hl Hk Hd _]. split; try done. right. by eexists.
  - destruct H as [Hl Hk Hd [Hp|(p & [= <-] & Hp)]]; [done|]. cbn in Hp. subst c.
    destruct (query_step s Hl Hk) as (z & nx & lt & E & Hle & Hz & _).
    cbn [Situation.passStep]. rewrite E. cbn [Page].
    destruct (pageAfter (cursorOfEngine s) z (log s)) as [|env page] eqn:Ep.
    + split; try done. right. by eexists.
    + split; try done. right. eexists. split; [done|]. cbn [fst snd]. rewrite <- Ep.
      by apply scan_ok.
  - assert (rs = []) as ->.
    { destruct H as [_ _ _ [Hp|(p & [= <-] & Hp)]]; [done|]. by destruct Hp. }
    by apply raise_step.
  - destruct H as [Hl Hk Hd [Hp|(p & [= <-] & Hp)]]; [done|]. destruct Hp as (Hle & Hkc & Hdue).
    assert (Hcur : ∀ x, cursorOfEngine (set_cursors <[CursorName := x]> s) = x).
    { intros x. unfold cursorOfEngine, ReadEngineCursor. cbn [engine_cursors set_cursors].
      by rewrite lookup_insert_eq. }
    cbn [Situation.passStep AdvanceEngineCursor ainTx advanceCursorInTx amodify fst snd].
    split; [done|..]; rewrite ?Hcur; [done|by rewrite Hd, <- Hdue|].
    right. by eexists.
  - destruct H as [Hl Hk Hd _]. split; try done. right. by eexists.
  - by destruct H as [_ _ _ [Hp|(p & [= <-] & Hp)]].
Qed.

(** Everything else leaves the cursor, and lengthens the log. *)
Lemma foreign_cursor s o s' :
  astep hash redact s o s' → foreign o → log_ok hash (abase s) →
  cursorOfEngine s' = cursorOfEngine s.
Proof.
  intros [e o' s0 (Hrd & Hit & Han) Hlg] Hf Hl. clear s s' o.
  destruct o' as [o|inp|id|name to|inp]; cbn [aexec foreign] in *; [done| | |done|].
  - destruct (decide (complete inp)) as [Hc|Hc]; [|by rewrite RaiseAttention_incomplete].
    destruct (RaiseAttention_log e inp s0 Hl) as (r & s' & row & -> & _ & _ & _ & Hcur & _);
      [done..|]. cbn [snd]. by rewrite Hcur, Hf.
  - by destruct (Ack_cases e id s0) as [->| ->].
  - destruct (CreateAnnotation_spec hash redact e inp s0 Hl) as [[_ ->]|(a & ql & data & t' & -> & Hq)];
      [by eapply ready_le; [|exact Hrd]|done..].
Qed.

Lemma other_grows s o s' :
  astep hash redact s o s' → log_ok hash (abase s) →
  log_ok hash (abase s') ∧ ∃ tl, log s' = log s ++ tl.
Proof.
  intros Ho Hl. destruct (astep_base hash redact s o s' Ho Hl) as [E|[o' Hs]].
  - rewrite E. split; [done|]. exists []. by rewrite app_nil_r.
  - destruct (step_log hash _ _ _ Hs Hl) as [Hl' (tl & E & _)]. split; [done|]. by exists tl.
Qed.

Lemma sstep_ok y l y' tr :
  sstep true y l y' → engineOk (store_ y) (passes y) tr → engineOk (store_ y') (passes y') (tr ++ l).
Proof.
  intros [s ps Hs|e i p s ps Hi Hr|i s ps|o s s' ps Ho Hf] H; cbn [store_ passes] in *;
    rewrite ?app_nil_r.
  - rewrite (Hs eq_refl) in *. destruct H as [Hl Hk Hd _]. split; try done. right. by exists PStart.
  - destruct (en_pass _ _ _ H) as [->|(p' & -> & _)]; [by rewrite lookup_nil in Hi|].
    apply list_lookup_singleton_Some in Hi as [-> ->]. by apply pass_step.
  - destruct H as [Hl Hk Hd [->|(p & -> & Hp)]]; split; try done; destruct i; cbn; eauto.
  - pose proof (en_log _ _ _ H) as Hl. destruct (other_grows s o s' Ho Hl) as [Hl' [tl E]].
    eapply engineOk_grow; [done..|]. by eapply foreign_cursor.
Qed.

Lemma engineOk_start inst : engineOk (openA inst) [] [].
Proof. split; [apply log_ok_empty|by left|done|by left]. Qed.

Lemma sruns_ok y tr y' tr0 :
  sruns true y tr y' → engineOk (store_ y) (passes y) tr0 →
  engineOk (store_ y') (passes y') (tr0 ++ tr).
Proof.
  induction 1 as [y|y1 tr y2 l y3 _ IH Hs]; intros H; [by rewrite app_nil_r|].
  rewrite (assoc_L (++)). eapply sstep_ok; [done|auto].
Qed.

(** One event, at most one raise. *)
Lemma fired_ids l :
  ordered l → NoDup (concat (firedBy <$> l)).*1 ∧
    ∀ x, x ∈ (concat (firedBy <$> l)).*1 → x ∈ event_id <$> l.
Proof.
  induction l as [|r l IH]; intros Hl; [split; [constructor|done]|].
  apply ordered_cons in Hl as [Hl Hr]. destruct (IH Hl) as [Hn Hin]. cbn [fmap list_fmap concat].
  unfold firedBy at 1 3. destruct (firing_cases (withCursor r)) as [->|[u ->]]; cbn.
  - split; [done|]. intros x Hx. right. by apply Hin.
  - split.
    + constructor; [|done]. intros (r' & E & Hr')%Hin%list_elem_of_fmap. specialize (Hr r' Hr'). lia.
    + intros x [->|Hx]%elem_of_cons; [left|right; by apply Hin].
Qed.

Lemma due_ids c l : ordered l → NoDup (due c l).*1.
Proof. intros Hl. apply fired_ids. by apply ordered_select. Qed.

(** ** Executions from scripts *)

Inductive SIn := IBegin | IPass (i : nat) | IDrop (i : nat) | IOther (o : AOp).

Definition alegalb (o : AOp) (s : AStore_) : bool :=
  match o with
  | ABase o => legalb o (abase s) && match o with ONotice k _ _ _ => negb (attentionKind k) | _ => false end
  | _ => true
  end.

Definition foreignb (o : AOp) : bool :=
  match o with
  | AAdvance _ _ => false
  | ARaise inp => (iCursorName inp =? "")%string
  | _ => true
  end.

Definition sdo (serial : bool) (e : Env) (i : SIn) (y : SSys) : option (list (Z * string) * SSys) :=
  let (s, ps) := y in
  match i with
  | IBegin => if serial && negb (bool_decide (length ps = 0%nat)) then None
              else Some ([], mkSSys s (ps ++ [PStart]))
  | IPass i =>
    p ← ps !! i;
    if areadyb e s then
      Some (commits e p s, mkSSys (passStep e p s).2 (<[i := (passStep e p s).1]> ps))
    else None
  | IDrop i => Some ([], mkSSys s (base.delete i ps))
  | IOther o => if areadyb e s && alegalb o s && foreignb o then
                  Some ([], mkSSys (aexec hash redact e o s) ps)
                else None
  end.

Fixpoint splay (serial : bool) (e : Env) (l : list SIn) (tr : list (Z * string)) (y : SSys) :
    option (list (Z * string) * SSys) :=
  match l with
  | [] => Some (tr, y)
  | i :: l => x ← sdo serial e i y; splay serial e l (tr ++ x.1) x.2
  end.

Lemma alegalb_spec o s : alegalb o s = true → alegal o s.
Proof.
  destruct o as [o| | | |]; cbn; try done. intros [H1 H2]%andb_true_iff.
  split; [by apply legalb_spec|]. destruct o; try done. apply negb_true_iff in H2.
  intros k' Hk. unfold kindIn in Hk. cbn in Hk. rewrite orb_false_r in Hk.
  by apply String.eqb_eq in Hk as ->.
Qed.

Lemma sdo_step serial e i y l y' : sdo serial e i y = Some (l, y') → sstep serial y l y'.
Proof.
  destruct y as [s ps], i as [|i|i|o]; cbn [sdo]; intros H.
  - destruct (serial && _) eqn:E; [done|]. simplify_eq. constructor. intros ->. cbn in E.
    apply negb_false_iff, bool_decide_eq_true in E. by destruct ps.
  - apply bind_Some in H as (p & Hp & H). case_match eqn:E; [|done]. simplify_eq.
    constructor; [done|by apply areadyb_spec].
  - simplify_eq. constructor.
  - case_match eqn:E; [|done]. simplify_eq.
    apply andb_true_iff in E as [[H1 H2]%andb_true_iff H3]. apply (s_other _ o).
    + constructor; [by apply areadyb_spec|by apply alegalb_spec].
    + destruct o; try done. by apply String.eqb_eq in H3.
Qed.

Lemma splay_runs serial e l y0 tr y tr' y' :
  sruns serial y0 tr y → splay serial e l tr y = Some (tr', y') → sruns serial y0 tr' y'.
Proof.
  revert tr y. induction l as [|i l IH]; intros tr y Hy H; cbn in H; [by simplify_eq|].
  apply bind_Some in H as ([l1 y1] & E & H). cbn in H. eapply IH; [|exact H].
  eapply sruns_snoc; [done|by eapply sdo_step].
Qed.

End engine.

(** C12: No event is evaluated twice, and none is passed over. Passes of [Evaluate]
    that do not overlap begin, are cut off and begin again in any execution of the
    store, beside appends, acknowledgements, annotations and raises of others. The
    raises they committed, in order, are exactly the ones the trigger rules call for
    on the events up to the durable cursor: none is missing, none is there twice,
    whatever was interrupted; and no pass under way has failed. *)
Theorem triggers_once quote hash redact text cfg inst tr y :
  sruns quote hash redact text cfg true (mkSSys (openA inst) []) tr y →
  tr = due quote cfg (cursorOfEngine (store_ y)) (log (store_ y)) ∧
  NoDup tr.*1 ∧
  known (cursorOfEngine (store_ y)) (log (store_ y)) ∧
  ∀ err, PFailed err ∉ passes y.
Proof.
  intros H. destruct (sruns_ok quote hash redact text cfg _ _ _ [] H (engineOk_start _ _ _ inst))
    as [Hl Hk Hd Hp]. cbn [app] in Hd.
  split_and!; [done| |done|].
  - rewrite Hd. apply due_ids. by eapply log_ordered.
  - intros err Hin. destruct Hp as [Hp|(p & Hp & Hok)]; rewrite Hp in Hin; [by apply elem_of_nil in Hin|].
    apply list_elem_of_singleton in Hin. by subst p.
Qed.

(** A cleanup that failed; a pass that is cut off right after its raise; another. *)
Definition exCfg : Config := mkConfig {["lifecycle_failed" := true]} 10 true.
Definition exQuote (t : string) : string := t.
Definition exContainer (_ : json) : string := "".
Definition exCleanup : AOp :=
  ABase (ONotice "vm.cleanup_failed" "lifecycle" notApplicableQuality [("vm_id", JStr exVM)]).
Definition exInputs : list SIn :=
  [IOther exCleanup; IBegin; IPass 0; IPass 0; IPass 0; IDrop 0; IOther exCleanup;
   IBegin; IPass 0; IPass 0; IPass 0; IPass 0; IPass 0].
Definition exPlay (serial : bool) (l : list SIn) : option (list (Z * string) * SSys) :=
  splay exQuote exHash exRedact exContainer exCfg serial (exEnv "") l [] (mkSSys (openA exInst) []).
Definition exEnd (serial : bool) (l : list SIn) : SSys :=
  match exPlay serial l with Some (_, y) => y | None => mkSSys (openA exInst) [] end.

Lemma exPlay_runs serial l tr y :
  exPlay serial l = Some (tr, y) →
  sruns exQuote exHash exRedact exContainer exCfg serial (mkSSys (openA exInst) []) tr y.
Proof. intros H. eapply splay_runs; [constructor|exact H]. Qed.

Lemma exInputs_play : exPlay true exInputs = Some ([(1, "lifecycle_failed"); (3, "lifecycle_failed")], exEnd true exInputs).
Proof. unfold exEnd. vm_compute. reflexivity. Qed.

Lemma triggers_once_witness :
  [(1, "lifecycle_failed"); (3, "lifecycle_failed")] =
    due exQuote exCfg (cursorOfEngine (store_ (exEnd true exInputs))) (log (store_ (exEnd true exInputs))) ∧
  tCount <$> items (store_ (exEnd true exInputs)) = [2].
Proof.
  destruct (triggers_once exQuote exHash exRedact exContainer exCfg exInst _ _
    (exPlay_runs true exInputs _ _ exInputs_play)) as [H _].
  split; [exact H|vm_compute; reflexivity].
Defined.

End SituationRuns.
