(* ===== verification/SituationLive.v ===== *)
(** A pass of the trigger engine comes to an end, with every event evaluated; and what
    two passes at once do. *)

From S2P Require Import Prelude Events Store RunStore VmStore StoreRules Registry History.
From S2P Require Import EventQuery AttentionStore AttentionRules AttentionRuns Situation SituationRuns.
Import Events Sql Store Log Runs Vms Rules Registry History EventQuery Attention AttentionRules.
Import AttentionRuns Situation SituationRuns.

Local Open Scope Z_scope.

Module SituationLive.

(** The events behind a cursor. *)
Definition after (c : Z) (l : list EventRow) : list EventRow := select (λ r, c <? event_id r) l.

Lemma select_everything l : select all l = l.
Proof. unfold select. induction l as [|r l IH]; [done|]. cbn. by rewrite IH. Qed.

Section live.
Context (quote : string → string) (hash : Envelope → string).
Context (redact : string → string * bool) (text : json → string) (cfg : Config).

Abbreviation firing := (firing quote cfg).
Abbreviation scan := (scan quote cfg).
Abbreviation passStep := (passStep quote hash redact text cfg).
Abbreviation firedBy := (firedBy quote cfg).
Abbreviation engineOk := (engineOk quote hash cfg).
Abbreviation commits := (commits hash redact cfg).

(** The raises the events behind a cursor call for. *)
Definition dueAfter (c : Z) (l : list EventRow) : list (Z * string) := concat (firedBy <$> after c l).
Definition pending (s : AStore_) : list (Z * string) := dueAfter (cursorOfEngine s) (log s).

Lemma after_split a z l :
  ordered l → a ≤ z → after a l = select (between a z all) l ++ after z l.
Proof.
  intros Hl Haz. unfold after. induction l as [|r l IH]; [done|].
  apply ordered_cons in Hl as [Hl Hr]. specialize (IH Hl). unfold select in *. cbn.
  unfold between, all in *. rewrite andb_true_r.
  destruct (Z.leb_spec (event_id r) z), (Z.ltb_spec a (event_id r)), (Z.ltb_spec z (event_id r));
    try lia; cbn; rewrite ?IH; try done.
  assert (E : List.filter (λ r0, (a <? event_id r0) && true && (event_id r0 <=? z)) l = []).
  { apply (select_none _ l). intros x Hx%Hr. rewrite (proj2 (Z.leb_gt _ _)) by lia.
    by rewrite andb_false_r. }
  by rewrite E.
Qed.

Lemma after_snoc c l r : after c (l ++ [r]) = after c l ++ (if c <? event_id r then [r] else []).
Proof. unfold after. rewrite select_app. unfold select at 2. cbn. by case_match. Qed.

Lemma dueAfter_split a z l :
  ordered l → a ≤ z →
  dueAfter a l = concat (firedBy <$> select (between a z all) l) ++ dueAfter z l.
Proof.
  intros Hl Haz. unfold dueAfter. by rewrite (after_split a z l Hl Haz), fmap_app, concat_app.
Qed.

(** Attention events fire nothing. *)
Lemma attention_fires s r :
  log_ok hash s → r ∈ rows (events (db s)) → attentionKind (kind r) = true → firedBy r = [].
Proof.
  intros Hl Hr Hk. unfold SituationRuns.firedBy, Situation.firing. cbn [Kind withCursor].
  destruct (lo_row hash s Hl r Hr) as [E _]. rewrite E in Hk. cbn [kind eventRow] in Hk.
  assert (Er : rulesOf quote (Kind (payload r)) = []); [|by rewrite Er].
  unfold attentionKind in Hk. apply orb_true_iff in Hk as [->%String.eqb_eq| ->%String.eqb_eq]; done.
Qed.

Lemma dueAfter_snoc c l r : firedBy r = [] → dueAfter c (l ++ [r]) = dueAfter c l.
Proof.
  intros E. unfold dueAfter. rewrite after_snoc, fmap_app, concat_app.
  destruct (c <? event_id r); cbn; rewrite ?E, ?app_nil_r; done.
Qed.

(** * The measure *)

Definition weight (c : Z) (l : list EventRow) : nat :=
  2 * length (after c l) + 3 * length (dueAfter c l).

Definition measure (p : Pass) (s : AStore_) : nat :=
  match p with
  | PStart => 2 + weight (cursorOfEngine s) (log s)
  | PQuery c => 1 + weight c (log s)
  | PAdvance c => 2 + weight c (log s)
  | PRaise id _ _ _ _ => 5 + weight id (log s)
  | PDone | PFailed _ => 0
  end.

Lemma weight_first a l r :
  ordered l → a < event_id r → select (between a (event_id r) all) l = [r] →
  weight a l = (2 + 3 * length (firedBy r) + weight (event_id r) l)%nat.
Proof.
  intros Hl Ha E. unfold weight. rewrite (after_split a (event_id r) l), E by (done || lia).
  rewrite (dueAfter_split a (event_id r) l), E by (done || lia).
  cbn [fmap list_fmap concat]. rewrite app_nil_r, !length_app. cbn. lia.
Qed.

(** A page moves the pass on. *)
Lemma scan_weight s a z :
  log_ok hash (abase s) →
  let p := scan a (pageAfter a z (log s)) in
  finished p = false ∧ (measure p s ≤ 2 + weight a (log s))%nat ∧
  (pageAfter a z (log s) ≠ [] → measure p s ≤ weight a (log s))%nat.
Proof.
  intros Hl. cbv zeta. pose proof (log_ordered hash _ Hl) as Ho.
  remember (select (between a z all) (log s)) as rest eqn:E. revert a E.
  induction rest as [|r rest IH]; intros a E; unfold pageAfter; rewrite <- E;
    cbn [fmap list_fmap Situation.scan]; [by split_and!|].
  symmetry in E. destruct (between_first _ _ _ _ _ Ho E) as (Hin & Hlt & Hrest & Hone).
  rewrite (parse_cursor hash (abase s) r Hl Hin).
  pose proof (weight_first a (log s) r Ho ltac:(lia) Hone) as Hw.
  unfold SituationRuns.firedBy in Hw.
  destruct (firing_cases quote cfg (withCursor r)) as [Ef|[u Ef]]; rewrite Ef in *;
    cbn [length fmap list_fmap] in Hw.
  - destruct (IH (event_id r) Hrest) as (Hf & Hm & _). unfold pageAfter in *. rewrite <- Hrest in *.
    split_and!; [done|..]; intros; (eapply Nat.le_trans; [exact Hm|lia]).
  - cbn [finished measure]. split_and!; [done|lia..].
Qed.

(** * One step *)

Record moved (e : Env) (p : Pass) (s : AStore_) : Prop := mkMoved {
  mv_pending : pending s = commits e p s ++ pending (passStep e p s).2;
  mv_pass : ((passStep e p s).1 = PDone ∧ after (cursorOfEngine s) (log s) = [] ∧ (passStep e p s).2 = s) ∨
    (finished (passStep e p s).1 = false ∧
     measure (passStep e p s).1 (passStep e p s).2 < measure p s)%nat;
  mv_log : ∃ tl, log (passStep e p s).2 = log s ++ tl ∧ length tl = length (commits e p s) ∧
    Forall (λ r, attentionKind (kind r) = true) tl;
  mv_inst : instanceID (abase (passStep e p s).2) = instanceID (abase s);
  mv_seq : systemSeq (abase (passStep e p s).2) = systemSeq (abase s) + Z.of_nat (length (commits e p s));
  mv_events : seq (events (db (abase (passStep e p s).2))) =
    seq (events (db (abase s))) + Z.of_nat (length (commits e p s));
  mv_items : seq (attention_items (passStep e p s).2) ≤
    seq (attention_items s) + Z.of_nat (length (commits e p s));
  mv_notes : annotations (passStep e p s).2 = annotations s
}.

(** A step that only reads. *)
Lemma moved_read e p s p' :
  commits e p s = [] → passStep e p s = (p', s) →
  (p' = PDone ∧ after (cursorOfEngine s) (log s) = [] ∨
   finished p' = false ∧ (measure p' s < measure p s)%nat) →
  moved e p s.
Proof.
  intros Hc E Hp. split; rewrite ?Hc, ?E; cbn [fst snd length app]; try done; try lia.
  - destruct Hp as [[??]|?]; auto.
  - exists []. by rewrite app_nil_r.
Qed.

Lemma raise_moved e s id env r page tr :
  engineOk s [PRaise id env r [] page] tr → aready e s → moved e (PRaise id env r [] page) s.
Proof.
  intros [Hl Hk Hd [Hp|(p & [= <-] & Hp)]] Hr; [done|].
  destruct Hp as (_ & row & z & Hin & <- & -> & Hf & Hlt & Hdue & Hz & Hkz & ->).
  assert (Hc : complete (raiseInput cfg r (withCursor row) (event_id row))).
  { eapply (rules_complete quote). by eapply firing_rules. }
  destruct (RaiseAttention_log hash redact e _ s Hl Hr Hc)
    as (o & s' & row' & E & Hl' & El & Hka & Hcur & Hit & Han & Hi & Hq & He).
  change (iCursorName (raiseInput cfg r (withCursor row) (event_id row))) with CursorName in Hcur.
  rewrite String.eqb_refl in Hcur. cbn [iCursorTo raiseInput] in Hcur.
  assert (Hr' : firedBy row' = []).
  { eapply (attention_fires (abase s')); [done| |done]. rewrite El. apply elem_of_app. right.
    by apply list_elem_of_singleton. }
  assert (Hst : passStep e (PRaise (event_id row) (withCursor row) r [] (pageAfter (event_id row) z (log s))) s
    = (scan (event_id row) (pageAfter (event_id row) z (log s)), s')).
  { cbn [Situation.passStep]. by rewrite E. }
  assert (Hcm : commits e (PRaise (event_id row) (withCursor row) r [] (pageAfter (event_id row) z (log s))) s
    = [(event_id row, class r)]) by (cbn [SituationRuns.commits]; by rewrite E).
  pose proof (log_ordered hash _ Hl) as Ho.
  split; rewrite ?Hst, ?Hcm; cbn [fst snd length]; try done; try lia.
  - unfold pending at 2. rewrite Hcur, El, dueAfter_snoc by done.
    unfold pending. rewrite (dueAfter_split _ (event_id row)) by (done || lia).
    rewrite (due_split _ _ (cursorOfEngine s) (event_id row) (log s)) in Hdue by (done || lia).
    apply (inj (due quote cfg (cursorOfEngine s) (log s) ++.)) in Hdue. by rewrite Hdue.
  - right. pose proof (grown_behind hash s (abase s') [row'] Hl' El) as Hb.
    rewrite <- (pageAfter_app _ z (log s) [row']), <- El by done.
    destruct (scan_weight s' (event_id row) z Hl') as (H1 & H2 & _). split; [done|].
    cbn [measure]. eapply Nat.le_lt_trans; [exact H2|]. unfold weight.
    rewrite El, dueAfter_snoc, after_snoc, length_app by done.
    destruct (event_id row <? event_id row'); cbn; lia.
  - exists [row']. split_and!; [done..|]. by constructor.
Qed.

Lemma advance_moved e s c tr : engineOk s [PAdvance c] tr → moved e (PAdvance c) s.
Proof.
  intros [Hl Hk Hd [Hp|(p & [= <-] & Hp)]]; [done|]. destruct Hp as (Hle & Hkc & Hdue).
  assert (Hcur : cursorOfEngine (set_cursors <[CursorName := c]> s) = c).
  { unfold cursorOfEngine, ReadEngineCursor. cbn [engine_cursors set_cursors].
    by rewrite lookup_insert_eq. }
  assert (Hst : passStep e (PAdvance c) s = (PQuery c, set_cursors <[CursorName := c]> s)) by done.
  split; rewrite ?Hst; cbn [fst snd SituationRuns.commits length app abase set_cursors attention_items];
    try done; try lia.
  - unfold pending. rewrite Hcur. cbn [abase set_cursors].
    pose proof (log_ordered hash _ Hl) as Ho.
    rewrite (dueAfter_split (cursorOfEngine s) c) by done.
    rewrite (due_split _ _ (cursorOfEngine s) c (log s)) in Hdue by done.
    rewrite <- (app_nil_r (due quote cfg (cursorOfEngine s) (log s))) in Hdue at 2.
    apply (inj (due quote cfg (cursorOfEngine s) (log s) ++.)) in Hdue. by rewrite Hdue.
  - right. split; [done|]. cbn [measure abase set_cursors]. lia.
  - exists []. by rewrite app_nil_r.
Qed.

Lemma step_moved e s p tr :
  engineOk s [p] tr → aready e s → finished p = false → moved e p s.
Proof.
  intros H Hr Hf. destruct p as [|c|id env r rs page|c| |]; try done.
  - eapply moved_read; [done|reflexivity|]. right. split; [done|]. cbn [measure].
    unfold cursorOfEngine. lia.
  - destruct H as [Hl Hk Hd [Hp|(p & [= <-] & Hp)]]; [done|]. cbn in Hp. subst c.
    destruct (query_step hash text s Hl Hk) as (z & nx & lt & E & Hle & Hz & Hnone).
    destruct (pageAfter (cursorOfEngine s) z (log s)) as [|env page] eqn:Ep.
    + apply (moved_read _ _ _ PDone); [done|cbn [Situation.passStep]; by rewrite E|].
      left. split; [done|]. by apply Hnone.
    + destruct (scan_weight s (cursorOfEngine s) z Hl) as (H1 & _ & H3).
      apply (moved_read _ _ _ (scan (cursorOfEngine s) (pageAfter (cursorOfEngine s) z (log s))));
        [done|cbn [Situation.passStep]; rewrite E; cbn [Page]; by rewrite Ep|].
      right. split; [done|]. cbn [measure]. apply Nat.le_lt_trans with (2 := Nat.lt_succ_diag_r _).
      apply H3. by rewrite Ep.
  - assert (rs = []) as ->.
    { destruct H as [_ _ _ [Hp|(p & [= <-] & Hp)]]; [done|]. by destruct Hp. }
    by eapply raise_moved.
  - by eapply advance_moved.
Qed.

(** * A whole pass *)

(** Room for [n] more events and items, and a clock past the zero time. *)
Record roomy (es : nat → Env) (n : nat) (s : AStore_) : Prop := mkRoomy {
  rm_inst : UUIDString (instanceID (abase s)) = true;
  rm_time : ∀ i, timeNow (es i) ≠ 0;
  rm_seq : systemSeq (abase s) + Z.of_nat n + 4 ≤ Int.MaxInt64;
  rm_events : seq (events (db (abase s))) + Z.of_nat n + 4 ≤ Int.MaxInt64;
  rm_items : seq (attention_items s) + Z.of_nat n < Int.MaxInt64;
  rm_notes : seq (annotations s) < Int.MaxInt64
}.

Lemma roomy_ready es n s i : roomy es n s → aready (es i) s.
Proof. intros []. unfold aready, ready. split_and!; try done; lia. Qed.

Abbreviation sruns := (sruns quote hash redact text cfg).
Abbreviation evaluate := (evaluate quote hash redact text cfg).

Lemma sruns_one e s p y tr l :
  sruns true y tr (mkSSys s [p]) → aready e s → l = tr ++ commits e p s →
  sruns true y l (mkSSys (passStep e p s).2 [(passStep e p s).1]).
Proof.
  intros H Hr ->. eapply sruns_snoc; [done|].
  apply (s_pass quote hash redact text cfg true e 0 p s [p]); done.
Qed.

Lemma evaluate_ends es fuel p s y tr :
  sruns true y tr (mkSSys s [p]) → engineOk s [p] tr → roomy es (length (pending s)) s →
  finished p = false → (measure p s ≤ fuel)%nat →
  ∃ s' att, evaluate es (S fuel) p s = (PDone, s') ∧
    sruns true y (tr ++ pending s) (mkSSys s' [PDone]) ∧
    after (cursorOfEngine s') (log s') = [] ∧
    log s' = log s ++ att ∧ length att = length (pending s) ∧
    Forall (λ r, attentionKind (kind r) = true) att.
Proof.
  revert p s tr. induction fuel as [|fuel IH]; intros p s tr Hrun Hok Hroom Hf Hm.
  { destruct p; cbn in Hm; done || lia. }
  pose proof (roomy_ready es _ s (S fuel) Hroom) as Hr.
  destruct (step_moved (es (S fuel)) s p tr Hok Hr Hf)
    as [Hpe Hpass (tl & Hlog & Hlen & Hkind) Hi Hq He Hit Hn].
  pose proof (pass_step quote hash redact text cfg (es (S fuel)) s p tr Hok Hr) as Hok'.
  pose proof (sruns_one _ _ _ _ _ _ Hrun Hr eq_refl) as Hrun'.
  cbn [Situation.evaluate]. rewrite Hf.
  destruct (passStep (es (S fuel)) p s) as [p' s'] eqn:E. cbn [fst snd] in *.
  destruct Hpass as [(-> & Hnone & ->)|[Hf' Hm']].
  - assert (Hp0 : pending s = []) by (unfold pending, dueAfter; by rewrite Hnone).
    rewrite Hp0 in Hpe. symmetry in Hpe. apply app_nil in Hpe as [Hc0 _]. rewrite Hc0 in *.
    exists s, []. rewrite Hp0. cbn [finished]. rewrite !app_nil_r in *. by split_and!.
  - assert (Hroom' : roomy es (length (pending s')) s').
    { destruct Hroom as [? ? ? ? ? ?]. rewrite Hpe, length_app in *. split; try done; try congruence; try lia. }
    destruct (IH p' s' _ Hrun' Hok' Hroom' Hf' ltac:(lia))
      as (s2 & att & E2 & Hr2 & Ha & Hl2 & Hn2 & Hk2).
    exists s2, (tl ++ att). rewrite Hpe, <- (assoc_L (++)) in *. split_and!; try done.
    + by rewrite Hl2, Hlog, (assoc_L (++)).
    + rewrite !length_app. lia.
    + by apply Forall_app.
Qed.

End live.

(** C13: A pass of [Evaluate] that is left alone comes to an end, and nothing is left
    to evaluate. From any state an execution with serial passes reaches, with the
    counters below their limits: with fuel two for every event behind the cursor and
    three for every raise the rules call for, the pass ends without an error, the
    cursor stands at the end of the log, the log has grown by exactly one attention
    event per raise that was due, and the raises of the whole history are exactly
    those the rules call for on all of it. *)
Theorem evaluation_complete quote hash redact text cfg inst tr s es fuel :
  sruns quote hash redact text cfg true (mkSSys (openA inst) []) tr (mkSSys s []) →
  roomy es (length (pending quote cfg s)) s →
  (2 + weight quote cfg (cursorOfEngine s) (log s) ≤ fuel)%nat →
  ∃ s' att, evaluate quote hash redact text cfg es (S fuel) PStart s = (PDone, s') ∧
    (∀ r, r ∈ log s' → event_id r ≤ cursorOfEngine s') ∧
    log s' = log s ++ att ∧ length att = length (pending quote cfg s) ∧
    Forall (λ r, attentionKind (kind r) = true) att ∧
    sruns quote hash redact text cfg true (mkSSys (openA inst) [])
      (tr ++ pending quote cfg s) (mkSSys s' [PDone]) ∧
    tr ++ pending quote cfg s = concat (firedBy quote cfg <$> log s').
Proof.
  intros Hrun Hroom Hfuel.
  assert (Hrun1 : sruns quote hash redact text cfg true (mkSSys (openA inst) []) tr (mkSSys s [PStart])).
  { rewrite <- (app_nil_r tr). eapply sruns_snoc; [done|]. by apply s_begin. }
  pose proof (sruns_ok quote hash redact text cfg _ _ _ [] Hrun1 (engineOk_start _ _ _ inst)) as Hok.
  destruct (evaluate_ends quote hash redact text cfg es fuel PStart s _ tr Hrun1 Hok Hroom eq_refl Hfuel)
    as (s' & att & E & Hr & Ha & Hl & Hn & Hk).
  assert (Hle : ∀ r, r ∈ log s' → event_id r ≤ cursorOfEngine s').
  { intros r Hin. apply Z.nlt_ge. intros Hlt%Z.ltb_lt.
    assert (Hx : r ∈ after (cursorOfEngine s') (log s')) by by apply elem_of_select.
    rewrite Ha in Hx. by apply elem_of_nil in Hx. }
  exists s', att. split_and!; try done.
  destruct (sruns_ok quote hash redact text cfg _ _ _ [] Hr (engineOk_start _ _ _ inst)) as [_ _ Hd _].
  cbn [app store_] in Hd. rewrite Hd. unfold due. f_equal. f_equal.
  rewrite (select_ext _ all) by (intros r Hin; by apply Z.leb_le, Hle).
  apply select_everything.
Qed.

(** Two failed cleanups and one pass. *)
Definition exTwo : list SIn := [IOther exCleanup; IOther exCleanup].
Definition exBefore : AStore_ := store_ (exEnd true exTwo).
Definition exEnvs (_ : nat) : Env := exEnv "".

Lemma exTwo_play : exPlay true exTwo = Some ([], mkSSys exBefore []).
Proof. unfold exBefore, exEnd. vm_compute. reflexivity. Qed.

Lemma exBefore_roomy : roomy exEnvs (length (pending exQuote exCfg exBefore)) exBefore.
Proof.
  split; [vm_compute; reflexivity|done|apply Z.leb_le; vm_compute; reflexivity..| |];
    apply Z.ltb_lt; vm_compute; reflexivity.
Qed.

Lemma evaluation_complete_witness :
  length (pending exQuote exCfg exBefore) = 2%nat ∧
  ∃ s', evaluate exQuote exHash exRedact exContainer exCfg exEnvs 13 PStart exBefore = (PDone, s') ∧
    ∀ r, r ∈ log s' → event_id r ≤ cursorOfEngine s'.
Proof.
  split; [vm_compute; reflexivity|].
  destruct (evaluation_complete exQuote exHash exRedact exContainer exCfg exInst [] exBefore exEnvs 12
    (exPlay_runs true exTwo _ _ exTwo_play) exBefore_roomy
    (proj1 (Nat.leb_le _ _) (eq_refl : (2 + weight exQuote exCfg (cursorOfEngine exBefore)
      (log exBefore) <=? 12)%nat = true))) as (s' & att & E & H & _).
  exists s'. split; [exact E|exact H].
Defined.

(** * Two passes at once *)

(** Nothing keeps two requests from evaluating at once. Both read cursor zero and the
    page with the event; the first raises it; the operator acknowledges the item; the
    second raises the same event again, as a new item. *)
Definition exRace : list SIn :=
  [IOther exCleanup; IBegin; IBegin; IPass 0; IPass 0; IPass 1; IPass 1; IPass 0;
   IOther (AAck 1); IPass 1].

Lemma concurrent_passes_raise_twice :
  ∃ y, sruns exQuote exHash exRedact exContainer exCfg false (mkSSys (openA exInst) [])
    [(1, "lifecycle_failed"); (1, "lifecycle_failed")] y ∧
    (λ t, (tAttentionID t, tAcked t)) <$> items (store_ y) = [(1, true); (2, false)].
Proof.
  exists (exEnd false exRace). split.
  - apply exPlay_runs with exRace. unfold exEnd. vm_compute. reflexivity.
  - vm_compute. reflexivity.
Qed.

(** The cursor goes back: a pass that read an empty stretch long ago writes what it
    saw over what a later pass has covered. *)
Definition exBackwards : list SIn :=
  [IOther (ABase (ONotice "auth.login_failed" "auth" notApplicableQuality [])); IBegin; IPass 0; IPass 0;
   IOther exCleanup; IBegin; IPass 1; IPass 1; IPass 1].

Lemma concurrent_passes_move_back :
  ∃ y y' tr, sruns exQuote exHash exRedact exContainer exCfg false (mkSSys (openA exInst) []) tr y ∧
    sstep exQuote exHash exRedact exContainer exCfg false y [] y' ∧
    cursorOfEngine (store_ y) = 2 ∧ cursorOfEngine (store_ y') = 1.
Proof.
  exists (exEnd false exBackwards), (exEnd false (exBackwards ++ [IPass 0])), [(2, "lifecycle_failed")].
  split; [apply exPlay_runs with exBackwards; unfold exEnd; vm_compute; reflexivity|].
  split; [|split; vm_compute; reflexivity].
  eapply (sdo_step _ _ _ _ _ _ (exEnv "") (IPass 0)). unfold exEnd. vm_compute. reflexivity.
Qed.

End SituationLive.
