(* ===== verification/Idempotency.v ===== *)
(** Operations and idempotent creation: an operation's identity never changes,
    a key names one operation, and a repeated create returns the first outcome. *)

From S2P Require Import Prelude Events Store RunStore VmStore StoreRules Registry History.
Import Events Sql Store Log Runs Vms Rules Registry History.

Local Open Scope Z_scope.

Module Idempotency.

(** * The identity of operations *)

(** The columns no statement updates. *)
Definition OpSig : Type := Z * string * string * option string * string * option string.
Definition opsig (o : Operation) : OpSig :=
  (oOperationID o, oOwner o, oKind o, oIdempotencyKey o, oRequestHash o, oVMID o).
Definition sigKey (t : OpSig) : option string := t.1.1.2.
Definition opsigs (d : DB) : list OpSig := opsig <$> rows (operations d).

Definition sigVM (t : OpSig) : option string := t.2.

(** The table grows at its end, by operations without a key or without a VM. *)
Definition opsGrow (d d' : DB) : Prop :=
  ∃ tl, opsigs d' = opsigs d ++ tl ∧ Forall (λ t, sigKey t = None ∨ sigVM t = None) tl.

#[local] Instance opsGrow_preorder : PreOrder opsGrow.
Proof.
  split.
  - intros d. exists []. by rewrite app_nil_r.
  - intros d1 d2 d3 (t1 & E1 & F1) (t2 & E2 & F2). exists (t1 ++ t2).
    rewrite E2, E1, app_assoc. split; [done|]. by apply Forall_app.
Qed.

Lemma opsGrow_same d d' : opsigs d' = opsigs d → opsGrow d d'.
Proof. intros H. exists []. by rewrite app_nil_r. Qed.

#[local] Instance opsGrow_blind : LogBlind opsGrow.
Proof. split; intros; by apply opsGrow_same. Qed.

Lemma keeps_insertOperation mk :
  (∀ id, oIdempotencyKey (mk id) = None ∨ oVMID (mk id) = None) →
  keeps opsGrow (insertOperation mk).
Proof.
  intros Hk. unfold insertOperation. keeps_tac. apply keeps_modify. intros d.
  eexists [_]. unfold opsigs. cbn. rewrite fmap_app. split; [done|].
  constructor; [apply Hk|constructor].
Qed.

Ltac keeps_ops :=
  repeat first
  [ apply keeps_insertOperation; intros ?; by (left + right)
  | keeps_step
  | apply keeps_modify; intros ?;
    try unfold updateReservation; repeat case_match; by apply opsGrow_same ].

Lemma keeps_update e u :
  keeps opsGrow (modify (set_operations (on_rows (update (opUpdateMatches u) (movedOp e u))))).
Proof.
  apply keeps_modify. intros d. apply opsGrow_same. unfold opsigs. cbn. by apply fmap_update.
Qed.

(** ** Unique ids and keys *)

Definition sigID (t : OpSig) : Z := t.1.1.1.1.1.
Definition sigMatches (owner kd key : string) (t : OpSig) : bool :=
  (t.1.1.1.1.2 =? owner)%string && (t.1.1.1.2 =? kd)%string &&
  match sigKey t with Some k => (k =? key)%string | None => false end.

Record sigs_ok (l : list OpSig) (n : Z) : Prop := mkSigsOk {
  so_ids : NoDup (sigID <$> l);
  so_max : ∀ t, t ∈ l → sigID t ≤ n;
  so_keys : ∀ owner kd k t t', t ∈ l → t' ∈ l →
    sigMatches owner kd k t = true → sigMatches owner kd k t' = true → t = t'
}.

Definition ops_ok (d : DB) : Prop := sigs_ok (opsigs d) (seq (operations d)).
Definition opsOk (d d' : DB) : Prop := ops_ok d → ops_ok d'.

#[local] Instance opsOk_preorder : PreOrder opsOk.
Proof. split; [by intros d ?|]. intros d1 d2 d3 H1 H2 H. by apply H2, H1. Qed.
#[local] Instance opsOk_blind : LogBlind opsOk.
Proof. split; by intros d f H. Qed.

Lemma opsOk_same d d' :
  opsigs d' = opsigs d → seq (operations d') = seq (operations d) → opsOk d d'.
Proof. unfold opsOk, ops_ok. by intros -> ->. Qed.

Lemma opKey_sig owner kd k o : opKey owner kd k o = sigMatches owner kd k (opsig o).
Proof. done. Qed.

Lemma sigMatches_key owner kd k t : sigMatches owner kd k t = true → sigKey t = Some k.
Proof.
  unfold sigMatches. rewrite !andb_true_iff. intros [_ H].
  destruct (sigKey t); [|done]. by apply String.eqb_eq in H as ->.
Qed.

Lemma insertOperation_Err mk s e s' : insertOperation mk s = (Err e, s') → s' = s.
Proof.
  unfold insertOperation, mbind, M_bind, gets, some, ensure, modify, mret, M_ret, throw.
  intros H. repeat (case_match; simplify_eq); done.
Qed.

Lemma keeps_insertOk mk :
  (∀ id, oOperationID (mk id) = id) → keeps opsOk (insertOperation mk).
Proof.
  intros Hid s [r|err] s' E; [|by apply insertOperation_Err in E as ->].
  apply insertOperation_Ok in E as (-> & -> & Hk). intros [H1 H2 H3].
  set (n := seq (operations (db s)) + 1) in *. unfold ops_ok, opsigs. cbn. rewrite fmap_app.
  fold (opsigs (db s)).
  assert (Hnew : ∀ owner kd k t, t ∈ opsigs (db s) → sigMatches owner kd k t = true →
    sigMatches owner kd k (opsig (mk n)) = true → False).
  { intros owner kd k t Ht Hm Hm'. pose proof (sigMatches_key _ _ _ _ Hm') as Hk'.
    apply list_elem_of_fmap in Ht as (o & -> & Ho).
    assert (Hn : select1 (opKey (oOwner (mk n)) (oKind (mk n)) k)
      (rows (operations (db s))) = None) by by apply Hk.
    apply (proj1 (select1_None _ _) Hn) in Ho. rewrite opKey_sig in Ho.
    unfold sigMatches in Hm, Hm', Ho. cbn in Hm, Hm', Ho.
    rewrite !andb_true_iff, !String.eqb_eq in Hm'. destruct Hm' as [[E1 E2] _]. rewrite E1, E2 in Ho. congruence. }
  split; cbn.
  - rewrite fmap_app. apply NoDup_app. split_and!; [done| |apply NoDup_singleton].
    intros x (t & -> & Ht)%list_elem_of_fmap Hx%list_elem_of_singleton.
    apply H2 in Ht. cbn in Hx. rewrite Hid in Hx. lia.
  - intros t [Ht| ->%list_elem_of_singleton]%elem_of_app; [apply H2 in Ht; lia|].
    cbn. rewrite Hid. lia.
  - intros owner kd k t t' [Ht| ->%list_elem_of_singleton]%elem_of_app
      [Ht'| ->%list_elem_of_singleton]%elem_of_app Hm Hm'; [by eapply H3|..|done];
      exfalso; by eapply Hnew.
Qed.

Ltac keeps_ok :=
  repeat first
  [ apply keeps_insertOk; done
  | keeps_step
  | apply keeps_modify; intros ?;
    try unfold updateReservation; repeat case_match; by apply opsOk_same ].

Lemma keeps_updateOk e u :
  keeps opsOk (modify (set_operations (on_rows (update (opUpdateMatches u) (movedOp e u))))).
Proof.
  apply keeps_modify. intros d. apply opsOk_same; [|done].
  unfold opsigs. cbn. by apply fmap_update.
Qed.

(** The ids of operations only go up. *)
Definition opsUp (d d' : DB) : Prop := seq (operations d) ≤ seq (operations d').

#[local] Instance opsUp_preorder : PreOrder opsUp.
Proof. split; [intros d|intros d1 d2 d3]; unfold opsUp; lia. Qed.
#[local] Instance opsUp_blind : LogBlind opsUp.
Proof. split; intros; unfold opsUp; cbn; lia. Qed.

Lemma keeps_insertUp mk : keeps opsUp (insertOperation mk).
Proof.
  intros s [r|err] s' E; [|by apply insertOperation_Err in E as ->].
  apply insertOperation_Ok in E as (-> & -> & _). unfold opsUp. cbn. lia.
Qed.

Ltac keeps_up :=
  repeat first
  [ apply keeps_insertUp
  | keeps_step
  | apply keeps_modify; intros ?; unfold opsUp;
    try unfold updateReservation; repeat case_match; cbn; lia ].

Definition createsVM (o : Op) : bool :=
  match o with OCreateVM _ | OMember _ => true | _ => false end.

Section ops.
Context (hash : Envelope → string).

Lemma ops_step e o s :
  createsVM o = false → opsGrow (db s) (db (exec hash e o s)).
Proof.
  assert (Hk : ∀ A (m : M A), keeps opsGrow m → opsGrow (db s) (db (m s).2)).
  { intros A m Hm. destruct (m s) as [r s'] eqn:E. by apply Hm in E. }
  destruct o; intros Hq; try done; cbn [exec]; try apply Hk.
  - apply keeps_Append; apply _.
  - unfold TransitionVM, acquireCompute, reservationTotalsInTx, scanVMInTx, bumpVM. keeps_ops.
  - unfold UpdateOperation, scanOperationInTx.
    repeat first [apply keeps_update|keeps_step].
  - unfold InsertActionOperation. keeps_ops.
  - unfold CreateRun, lookupRunByIdempotencyKey, GetRun, insertRun, scanRunInTx, bumpVM.
    keeps_ops.
  - unfold TransitionRun, scanRunInTx, bumpVM. keeps_ops.
  - unfold SubmitRunProgress, GetRun, bumpVM. keeps_ops.
  - unfold SubmitRunResult, GetRun, scanRunInTx, bumpVM. keeps_ops.
  - unfold PutRunReport. keeps_ops.
  - unfold recordVMStatement. keeps_ops.
  - unfold ReleaseVMReservations. keeps_ops.
  - unfold ClearCleanupDebt. keeps_ops.
  - unfold recordBatchOp, scanOperationInTx. keeps_ops.
  - keeps_ops.
  - unfold InsertReportOperation. keeps_ops.
Qed.

Lemma opsOk_step e o s : opsOk (db s) (db (exec hash e o s)).
Proof.
  assert (Hk : ∀ A (m : M A), keeps opsOk m → opsOk (db s) (db (m s).2)).
  { intros A m Hm. destruct (m s) as [r s'] eqn:E. by apply Hm in E. }
  destruct o; cbn [exec]; try apply Hk.
  - apply keeps_Append; apply _.
  - unfold CreateVMWithOperation, createInTx, lookupByIdempotencyKey, replayInTx,
      reservationTotalsInTx, GetOperation, GetVM, createRefused, createGranted,
      insertVM, insertReservation, createRunInTx, insertRun, scanVMInTx, scanOperationInTx, bumpVM.
    keeps_ok.
  - unfold TransitionVM, acquireCompute, reservationTotalsInTx, scanVMInTx, bumpVM. keeps_ok.
  - unfold UpdateOperation, scanOperationInTx.
    repeat first [apply keeps_updateOk|keeps_step].
  - unfold InsertActionOperation. keeps_ok.
  - unfold CreateRun, lookupRunByIdempotencyKey, GetRun, insertRun, scanRunInTx, bumpVM.
    keeps_ok.
  - unfold TransitionRun, scanRunInTx, bumpVM. keeps_ok.
  - unfold SubmitRunProgress, GetRun, bumpVM. keeps_ok.
  - unfold SubmitRunResult, GetRun, scanRunInTx, bumpVM. keeps_ok.
  - unfold PutRunReport. keeps_ok.
  - unfold recordVMStatement. keeps_ok.
  - unfold ReleaseVMReservations. keeps_ok.
  - unfold ClearCleanupDebt. keeps_ok.
  - done.
  - unfold createGranted, insertVM, insertReservation, createRunInTx, insertRun, scanVMInTx,
      scanOperationInTx, bumpVM. keeps_ok.
  - unfold recordBatchOp, scanOperationInTx. keeps_ok.
  - done.
  - keeps_ok.
  - unfold InsertReportOperation. keeps_ok.
Qed.

(** ** Ids grow *)

Lemma opsUp_step e o s : opsUp (db s) (db (exec hash e o s)).
Proof.
  assert (Hk : ∀ A (m : M A), keeps opsUp m → opsUp (db s) (db (m s).2)).
  { intros A m Hm. destruct (m s) as [r s'] eqn:E. by apply Hm in E. }
  destruct o; cbn [exec]; try (unfold opsUp; cbn; lia); apply Hk; [apply keeps_Append; apply _|..];
    unfold CreateVMWithOperation, createInTx, lookupByIdempotencyKey, replayInTx,
      GetOperation, GetVM, createRefused, createGranted,
      insertVM, insertReservation, createRunInTx, TransitionVM, acquireCompute,
      UpdateOperation, InsertActionOperation, InsertReportOperation, CreateRun, lookupRunByIdempotencyKey,
      TransitionRun, SubmitRunProgress, SubmitRunResult, PutRunReport, recordVMStatement,
      ReleaseVMReservations, ClearCleanupDebt, recordBatchOp, scanVMInTx, scanOperationInTx,
      scanRunInTx, bumpVM, reservationTotalsInTx, insertRun, GetRun; keeps_up.
Qed.

Lemma opsUp_steps s os s' : steps hash s os s' → opsUp (db s) (db s').
Proof.
  induction 1 as [s|s o s1 os s2 [] _ IH]; [done|]. etrans; [apply opsUp_step|done].
Qed.

(** ** Keyed operations point at existing VMs *)

Definition sigHash (t : OpSig) : string := t.1.2.

Definition refs (d : DB) : Prop :=
  ∀ t v, t ∈ opsigs d → sigKey t ≠ None → sigVM t = Some v → v ∈ vVMID <$> rows (vms d).

Lemma vmids_mono d d' v :
  vmsMove d d' → v ∈ vVMID <$> rows (vms d) → v ∈ vVMID <$> rows (vms d').
Proof.
  intros Hm (x & -> & Hx)%list_elem_of_fmap.
  destruct (vmsMove_desc _ _ x Hm Hx) as (x' & Hx' & n & E & _). rewrite <- E.
  by apply list_elem_of_fmap_2.
Qed.

Lemma operations_granted e inp s :
  operations (db (granted hash e inp s)) =
  insertRow (seq (operations (db s)) + 1)
    (admittedOp e inp (seq (operations (db s)) + 1)) (operations (db s)).
Proof.
  unfold granted, ranRun. cbv zeta.
  assert (Hb : ∀ x i s0, operations (db (on (bumped x i) s0)) = operations (db s0)) by done.
  assert (Hu : ∀ f s0, operations (db (on (set_runs f) s0)) = operations (db s0)) by done.
  by destruct (iRun inp); rewrite ?Hb, ?Hu, ?operations_emitted, ?Hb, ?operations_emitted.
Qed.

Lemma operations_refused e inp r s :
  operations (db (refused hash e inp r s)) =
  insertRow (seq (operations (db s)) + 1)
    (refusedOp e inp r (seq (operations (db s)) + 1)) (operations (db s)).
Proof. unfold refused. cbv zeta. by rewrite operations_emitted. Qed.

Lemma iVMID_granted e inp s :
  iVMID inp ∈ vVMID <$> rows (vms (db (granted hash e inp s))).
Proof.
  destruct (vms_granted hash e inp s) as [id1 ->]. rewrite fmap_update by done.
  rewrite fmap_app. apply elem_of_app. right. by apply list_elem_of_singleton.
Qed.

Record keyed_ok (s : Store) : Prop := mkKeyed {
  ko_inv : inv hash s;
  ko_ops : ops_ok (db s);
  ko_refs : refs (db s)
}.

Lemma newest_op d o x :
  ops_ok d → oOperationID x = seq (operations d) + 1 →
  select1 (byOperationID (seq (operations d) + 1)) (rows (operations d) ++ [x]) = Some o →
  o = x.
Proof.
  intros [_ Hm _] Hx H. rewrite select1_app in H.
  destruct (select1 _ (rows (operations d))) as [y|] eqn:E.
  - exfalso. apply select1_Some in E as [Hy Hk%Z.eqb_eq].
    assert (oOperationID y ≤ seq (operations d)); [|lia].
    apply (Hm (opsig y)). by apply list_elem_of_fmap_2.
  - rewrite select1_one in H. case_match; by simplify_eq.
Qed.

(** What a create appends to the operations, if anything. *)
Lemma create_sigs e inp s out s' :
  keyed_ok s → ready 4 e s → CreateVMWithOperation hash e inp s = (Ok out, s') →
  (s' = s ∧ replays out = true) ∨
  (∃ v o, out = Created v o ∧ s' = granted hash e inp s ∧ vVMID v = iVMID inp ∧
     opsigs (db s') = opsigs (db s) ++ [opsig o] ∧
     o = admittedOp e inp (seq (operations (db s)) + 1)) ∨
  (∃ o r, out = RefusedNow o r ∧ s' = refused hash e inp r s ∧
     opsigs (db s') = opsigs (db s) ++ [opsig o] ∧
     o = refusedOp e inp r (seq (operations (db s)) + 1)).
Proof.
  intros [[Hl Hv Hrp] Hops _] Hr H.
  apply CreateVM_Ok in H as [[-> ?]|(t & _ & [(r & _ & H)|(_ & H)])]; [by left|..|done|done].
  - right. right. apply createRefused_Ok in H as (o & -> & -> & Ho & _);
      [|done|by eapply ready_le; [|exact Hr]].
    rewrite operations_refused in Ho. unfold insertRow in Ho. cbn [rows] in Ho.
    apply newest_op in Ho; [|done..].
    exists o, r. split_and!; [done..| |done].
    unfold opsigs. rewrite operations_refused. unfold insertRow. cbn [rows].
    by rewrite fmap_app, Ho.
  - right. left. apply createGranted_Ok in H as (v & o & -> & -> & Hsv & Ho & _); [|done..].
    rewrite operations_granted in Ho. unfold insertRow in Ho. cbn [rows] in Ho.
    apply newest_op in Ho; [|done..].
    exists v, o. split_and!; [done|done| | |done].
    + by apply select1_Some in Hsv as [_ Hsv%String.eqb_eq].
    + unfold opsigs. rewrite operations_granted. unfold insertRow. cbn [rows].
      by rewrite fmap_app, Ho.
Qed.

Lemma keyed_step s o s' :
  step hash s o s' → keyed_ok s →
  keyed_ok s' ∧ ∃ tl, opsigs (db s') = opsigs (db s) ++ tl.
Proof.
  intros Hst Hk. pose proof Hk as [Hi Ho Hrf].
  pose proof (registry_inv_step hash _ _ _ Hst Hi) as Hi'.
  destruct (step_vms hash _ _ _ Hst (inv_log _ _ Hi) (inv_vms _ _ Hi)) as [_ Hmv].
  destruct Hst as [e o' s0 Hr Hlg].
  pose proof (opsOk_step e o' s0 Ho) as Ho'.
  assert (Hgoal : (∃ tl, opsigs (db (exec hash e o' s0)) = opsigs (db s0) ++ tl ∧
      ∀ t v, t ∈ tl → sigKey t ≠ None → sigVM t = Some v →
        v ∈ vVMID <$> rows (vms (db (exec hash e o' s0)))) →
    keyed_ok (exec hash e o' s0) ∧ ∃ tl, opsigs (db (exec hash e o' s0)) = opsigs (db s0) ++ tl).
  { intros (tl & Htl & Hn). split; [|eauto]. split; [done..|].
    intros t v Ht Hky Hvm. rewrite Htl, elem_of_app in Ht. destruct Ht as [Ht|Ht]; [|by eapply Hn].
    eapply vmids_mono; [done|]. by eapply Hrf. }
  apply Hgoal. clear Hgoal.
  destruct (createsVM o') eqn:Hc.
  - destruct o' as [|inp| | | | | | | | | | | | |inp| | | |]; try done; cbn [exec] in *.
    2: { destruct (member_store hash e inp s0) as [E|(out & E)].
         - exists []. rewrite E, app_nil_r. split; [done|]. intros t v Ht.
           by apply elem_of_nil in Ht.
         - apply createGranted_Ok in E as (v & o & _ & E & _); [|apply Hi|done].
           rewrite E. unfold opsigs. rewrite operations_granted. unfold insertRow. cbn [rows].
           rewrite fmap_app. eexists. split; [done|].
           intros t x ->%list_elem_of_singleton _ [= <-]. apply iVMID_granted. }
    destruct (CreateVMWithOperation hash e inp s0) as [[out|err] s'] eqn:E; cbn [snd] in *.
    2: { apply CreateVM_Err in E. exists []. rewrite E, app_nil_r. split; [done|].
         intros t v Ht. by apply elem_of_nil in Ht. }
    apply create_sigs in E as [[-> _]|[(v & o1 & _ & -> & _ & E & ->)|(o1 & r & _ & -> & E & ->)]];
      [..|done|done].
    + exists []. rewrite app_nil_r. split; [done|]. intros t v Ht. by apply elem_of_nil in Ht.
    + eexists. split; [exact E|]. intros t x ->%list_elem_of_singleton _ [= <-].
      apply iVMID_granted.
    + eexists. split; [exact E|]. by intros t x ->%list_elem_of_singleton _.
  - destruct (ops_step e o' s0 Hc) as (tl & Htl & Hn). exists tl. split; [done|].
    intros t v Ht Hky Hvm. rewrite Forall_forall in Hn. apply Hn in Ht as [?|?]; [done|congruence].
Qed.

Lemma keyed_steps s os s' :
  steps hash s os s' → keyed_ok s →
  keyed_ok s' ∧ ∃ tl, opsigs (db s') = opsigs (db s) ++ tl.
Proof.
  induction 1 as [s|s o s1 os s2 Hs _ IH]; intros Hk.
  - split; [done|]. exists []. by rewrite app_nil_r.
  - destruct (keyed_step _ _ _ Hs Hk) as [Hk1 (t1 & E1)].
    destruct (IH Hk1) as [Hk2 (t2 & E2)]. split; [done|].
    exists (t1 ++ t2). by rewrite E2, E1, app_assoc.
Qed.

Lemma keyed_empty inst : keyed_ok (Open inst emptyDB).
Proof.
  split; [apply inv_empty|..].
  - split; cbn; [constructor|by intros ? ?%elem_of_nil|by intros ????? ?%elem_of_nil].
  - intros t v Ht. by apply elem_of_nil in Ht.
Qed.

(** ** Replay *)

(** The lookups of a key that names a recorded operation. *)
Lemma key_lookup d owner kd k t :
  ops_ok d → t ∈ opsigs d → sigMatches owner kd k t = true →
  ∃ o, opsig o = t ∧ o ∈ rows (operations d) ∧
    select1 (opKey owner kd k) (rows (operations d)) = Some o ∧
    select1 (byOperationID (oOperationID o)) (rows (operations d)) = Some o.
Proof.
  intros [Hid Hmx Hky] Ht Hm. apply list_elem_of_fmap in Ht as (o & -> & Ho).
  assert (Hn : NoDup (oOperationID <$> rows (operations d))).
  { unfold opsigs in Hid. by rewrite <- list_fmap_compose in Hid. }
  exists o. split_and!; [done..| |].
  - apply (select1_unique oOperationID); [done..|]. intros o' Ho' Hm'.
    assert (opsig o' = opsig o) as E by (eapply Hky; [by apply list_elem_of_fmap_2..|done|done]).
    by injection E.
  - apply (select1_unique oOperationID); [done..|apply Z.eqb_refl|].
    intros o' _ E%Z.eqb_eq. done.
Qed.

Lemma vm_lookup d v :
  v ∈ vVMID <$> rows (vms d) → ∃ x, select1 (byVMID v) (rows (vms d)) = Some x ∧ vVMID x = v.
Proof.
  intros (x & -> & Hx)%list_elem_of_fmap.
  destruct (select1 (byVMID (vVMID x)) (rows (vms d))) as [y|] eqn:E.
  - exists y. split; [done|]. by apply select1_Some in E as [_ E%String.eqb_eq].
  - apply (proj1 (select1_None _ _) E) in Hx. unfold byVMID in Hx.
    by rewrite String.eqb_refl in Hx.
Qed.

(** A create whose key names a recorded operation. *)
Lemma create_replay e inp s k t :
  keyed_ok s → iIdempotencyKey inp = Some k → t ∈ opsigs (db s) →
  sigMatches (iOwner inp) (iKind inp) k t = true →
  (sigHash t ≠ iRequestHash inp →
     CreateVMWithOperation hash e inp s = (Err ErrIdempotencyConflict, s)) ∧
  (sigHash t = iRequestHash inp → ∃ o, opsig o = t ∧ o ∈ rows (operations (db s)) ∧
     match sigVM t with
     | Some v => ∃ x, vVMID x = v ∧
         CreateVMWithOperation hash e inp s = (Ok (Replayed x o), s)
     | None => CreateVMWithOperation hash e inp s =
         match replayedRefusal o with
         | Ok r => (Ok (RefusedBefore o r), s) | Err x => (Err x, s) end
     end).
Proof.
  intros [Hi Ho Hrf] Hk Ht Hm.
  destruct (key_lookup _ _ _ _ _ Ho Ht Hm) as (o & <- & Hin & Hs1 & Hs2).
  change (sigHash (opsig o)) with (oRequestHash o).
  change (sigVM (opsig o)) with (oVMID o).
  assert (Hpre : lookupByIdempotencyKey (iOwner inp) (iKind inp) k (iRequestHash inp) s =
    if (oRequestHash o =? iRequestHash inp)%string
    then (match oVMID o with
          | None => mret (Some (None, o))
          | Some v => vm ← GetVM v; mret (Some (Some vm, o))
          end : M _) s
    else (Err ErrIdempotencyConflict, s)).
  { unfold lookupByIdempotencyKey, GetOperation. rewrite gets_bind, Hs1, ensure_bind.
    destruct (String.eqb _ _); [|done]. by rewrite gets_some_bind, Hs2. }
  split; intros Hh.
  - unfold CreateVMWithOperation. rewrite Hk. unfold mbind, M_bind. rewrite Hpre.
    by rewrite (proj2 (String.eqb_neq _ _) Hh).
  - rewrite Hh, String.eqb_refl in Hpre. exists o. split; [done|]. split; [done|].
    destruct (oVMID o) as [v|] eqn:Hv.
    + assert (Hx : v ∈ vVMID <$> rows (vms (db s))).
      { eapply (Hrf (opsig o)); [done| |done]. by erewrite sigMatches_key. }
      destruct (vm_lookup _ _ Hx) as (x & Hx1 & Hx2). exists x. split; [done|].
      unfold GetVM in Hpre. rewrite gets_some_bind, Hx1 in Hpre.
      unfold CreateVMWithOperation. rewrite Hk. by rewrite (bind_eq _ _ _ _ _ Hpre).
    + unfold CreateVMWithOperation. rewrite Hk. rewrite (bind_eq _ _ _ _ _ Hpre).
      unfold inTx, createInTx. rewrite Hk.
      assert (Hrp : replayInTx (iOwner inp) (iKind inp) k (iRequestHash inp) s =
        match replayedRefusal o with
        | Ok r => (Ok (Some (RefusedBefore o r)), s) | Err x => (Err x, s) end).
      { unfold replayInTx. rewrite gets_bind, Hs1, ensure_bind, Hh, String.eqb_refl.
        rewrite gets_bind, Hs2, some_bind. unfold GetOperation.
        rewrite gets_some_bind, Hs2, Hv. by destruct (replayedRefusal o). }
      unfold mbind, M_bind. rewrite Hrp. destruct (replayedRefusal o); [done|by destruct s].
Qed.

Lemma create_fresh_key e inp s out s' k :
  log_ok hash s → ready 4 e s → iIdempotencyKey inp = Some k →
  select1 (opKey (iOwner inp) (iKind inp) k) (rows (operations (db s))) = None →
  CreateVMWithOperation hash e inp s = (Ok out, s') → replays out = false.
Proof.
  intros Hl Hr Hk Hn H. unfold CreateVMWithOperation in H. rewrite Hk in H.
  assert (Hpre : lookupByIdempotencyKey (iOwner inp) (iKind inp) k (iRequestHash inp) s =
    (Ok None, s)) by (unfold lookupByIdempotencyKey; by rewrite gets_bind, Hn).
  rewrite (bind_eq _ _ _ _ _ Hpre) in H. apply (proj1 (inTx_Ok _ _ _ _)) in H. unfold createInTx in H.
  rewrite Hk in H. cbv iota in H.
  assert (Hrp : replayInTx (iOwner inp) (iKind inp) k (iRequestHash inp) s =
    (Ok None, s)) by (unfold replayInTx; by rewrite gets_bind, Hn).
  rewrite (bind_eq _ _ _ _ _ Hrp) in H. unfold reservationTotalsInTx in H.
  rewrite gets_some_bind in H. destruct (reservationTotals _) as [t|]; [|done].
  destruct (iAdmit inp t) as [[r|msg]|]; [|done|].
  - apply createRefused_Ok in H as (o & -> & _); [done..|by eapply ready_le; [|exact Hr]].
  - by apply createGranted_Ok in H as (v & o & -> & _).
Qed.

Definition outcomeVM (out : CreateOutcome) : option string :=
  match out with Created v _ | Replayed v _ => Some (vVMID v) | _ => None end.
Definition outcomeOp (out : CreateOutcome) : Operation :=
  match out with
  | Created _ o | Replayed _ o | RefusedNow o _ | RefusedBefore o _ => o
  end.

(** The durable trace of a keyed create. *)
Lemma create_leaves e inp s out s' k :
  keyed_ok s → ready 4 e s → iIdempotencyKey inp = Some k →
  CreateVMWithOperation hash e inp s = (Ok out, s') →
  opsig (outcomeOp out) ∈ opsigs (db s') ∧
  sigMatches (iOwner inp) (iKind inp) k (opsig (outcomeOp out)) = true ∧
  oRequestHash (outcomeOp out) = iRequestHash inp ∧ oVMID (outcomeOp out) = outcomeVM out.
Proof.
  intros Hko Hr Hk H. pose proof Hko as [Hi Ho _].
  destruct (select1 (opKey (iOwner inp) (iKind inp) k) (rows (operations (db s))))
    as [o|] eqn:Hs.
  - apply select1_Some in Hs as [Hin Hm]. rewrite opKey_sig in Hm.
    assert (Hin' : opsig o ∈ opsigs (db s)) by by apply list_elem_of_fmap_2.
    destruct (create_replay e inp s k (opsig o) Hko Hk Hin' Hm) as [Hne Heq].
    destruct (decide (sigHash (opsig o) = iRequestHash inp)) as [Hh|Hh];
      [|rewrite (Hne Hh) in H; done].
    destruct (Heq Hh) as (o' & Ho' & _ & Hv). clear Heq Hne.
    destruct (sigVM (opsig o)) as [v|] eqn:Hvm.
    + destruct Hv as (x & <- & Hv). rewrite H in Hv. injection Hv as -> ->.
      cbn [outcomeOp outcomeVM]. rewrite Ho'. split_and!; [done..| |].
      * by injection Ho' as _ _ _ _ -> _.
      * by injection Ho' as _ _ _ _ _ ->.
    + rewrite H in Hv. destruct (replayedRefusal o'); [|done]. injection Hv as -> ->.
      cbn [outcomeOp outcomeVM]. rewrite Ho'. split_and!; [done..| |].
      * by injection Ho' as _ _ _ _ -> _.
      * by injection Ho' as _ _ _ _ _ ->.
  - pose proof (create_fresh_key _ _ _ _ _ _ (inv_log _ _ Hi) Hr Hk Hs H) as Hf.
    assert (Hm : ∀ o, oOwner o = iOwner inp → oKind o = iKind inp →
      oIdempotencyKey o = Some k → sigMatches (iOwner inp) (iKind inp) k (opsig o) = true).
    { intros o E1 E2 E3. unfold sigMatches. cbn. by rewrite E1, E2, E3, !String.eqb_refl. }
    apply create_sigs in H as [[_ Hrp]|[(v & o & -> & -> & Hv & E & ->)|(o & r & -> & -> & E & ->)]];
      [congruence|..|done|done]; cbn [outcomeOp outcomeVM]; rewrite E;
      (split_and!; [apply elem_of_app; right; by apply list_elem_of_singleton|by apply Hm|done|]);
      cbn; congruence.
Qed.

End ops.

(** C8: Creation is idempotent under its key. Take any reachable store and a
    create with an idempotency key that returned an outcome, then any further
    sequence of store operations, restarts included. A create with the same
    owner, kind and key changes nothing from then on: with another request hash
    it is refused as a conflict; with the same hash it returns the same VM and
    operation as a replay if the outcome was a VM, and the recorded refusal if
    the outcome was a refusal whose operation nobody has rewritten. *)
Theorem create_idempotent hash inst os0 s e inp k out s1 os s2 e2 inp2 :
  steps hash (Open inst emptyDB) os0 s → ready 4 e s →
  iIdempotencyKey inp = Some k → CreateVMWithOperation hash e inp s = (Ok out, s1) →
  steps hash s1 os s2 →
  iOwner inp2 = iOwner inp → iKind inp2 = iKind inp → iIdempotencyKey inp2 = Some k →
  (iRequestHash inp2 ≠ iRequestHash inp →
     CreateVMWithOperation hash e2 inp2 s2 = (Err ErrIdempotencyConflict, s2)) ∧
  (iRequestHash inp2 = iRequestHash inp →
     (∀ v, outcomeVM out = Some v → ∃ x o, vVMID x = v ∧
        oOperationID o = oOperationID (outcomeOp out) ∧
        CreateVMWithOperation hash e2 inp2 s2 = (Ok (Replayed x o), s2)) ∧
     (∀ o r, out = RefusedNow o r → o ∈ rows (operations (db s2)) →
        CreateVMWithOperation hash e2 inp2 s2 = (Ok (RefusedBefore o r), s2))).
Proof.
  intros H0 Hr Hk H Hs Eo Ek Hk2.
  destruct (keyed_steps hash _ _ _ H0 (keyed_empty hash inst)) as [Hko _].
  destruct (create_leaves hash _ _ _ _ _ _ Hko Hr Hk H) as (Hin & Hm & Hh & Hv).
  assert (Hko1 : keyed_ok hash s1).
  { replace s1 with (exec hash e (OCreateVM inp) s) by (cbn [exec]; by rewrite H).
    by eapply keyed_step; [by constructor|]. }
  destruct (keyed_steps hash _ _ _ Hs Hko1) as [Hko2 (tl & Htl)].
  set (t := opsig (outcomeOp out)) in *.
  assert (Hin2 : t ∈ opsigs (db s2)) by (rewrite Htl, elem_of_app; by left).
  rewrite <- Eo, <- Ek in Hm.
  destruct (create_replay hash e2 inp2 s2 k t Hko2 Hk2 Hin2 Hm) as [Hne Heq].
  change (sigHash t) with (oRequestHash (outcomeOp out)) in *.
  change (sigVM t) with (oVMID (outcomeOp out)) in *. rewrite Hh, Hv in *.
  split; [intros ?; apply Hne; congruence|]. intros E.
  destruct (Heq (eq_sym E)) as (o & Ho & Hio & Hc). split.
  - intros v Hvo. rewrite Hvo in Hc. destruct Hc as (x & Hx & Hc).
    exists x, o. split_and!; [done| |done]. by injection Ho.
  - intros o1 r -> Ho1. cbn [outcomeVM] in Hc. rewrite Hc.
    assert (o = o1) as ->.
    { cbn [outcomeOp] in *. destruct Hko2 as [_ [Hid _ _] _].
      unfold opsigs in Hid. rewrite <- list_fmap_compose in Hid.
      apply list_elem_of_lookup in Hio as [i Hi]. apply list_elem_of_lookup in Ho1 as [j Hj].
      assert (i = j) as ->; [|congruence].
      eapply (NoDup_lookup _ i j); [exact Hid|by rewrite list_lookup_fmap, Hi|].
      rewrite list_lookup_fmap, Hj. unfold t in Ho. cbn. f_equal. by injection Ho. }
    assert (Hrr : replayedRefusal o1 = Ok r); [|by rewrite Hrr].
    apply create_sigs in H as [[_ ?]|[(? & ? & ? & _)|(o' & r' & [= <- <-] & _ & _ & ->)]];
      [done|done|by destruct r|done|done].
Qed.

Definition exInput : CreateVMInput := exCreate (Some "k") (λ _, None) exVM.
Definition exFirst : result StoreErr CreateOutcome * Store :=
  CreateVMWithOperation exHash (exEnv "33333333-3333-4333-8333-333333333333") exInput
    (Open exInst emptyDB).
Definition exOut : CreateOutcome :=
  match exFirst.1 with
  | Ok out => out
  | Err _ => RefusedNow (refusedOp (exEnv "") exInput (mkRefusal "" "") 0) (mkRefusal "" "")
  end.

Lemma exFirst_ok : exFirst = (Ok exOut, exFirst.2).
Proof. vm_compute. reflexivity. Qed.

Lemma exRest_steps : steps exHash exFirst.2 (tail exScript).*2 exState.
Proof. apply run_steps. vm_compute. reflexivity. Qed.

Lemma create_idempotent_witness :
  ∃ x o, vVMID x = exVM ∧ oOperationID o = 1 ∧
    CreateVMWithOperation exHash (exEnv "") exInput exState = (Ok (Replayed x o), exState).
Proof.
  destruct (create_idempotent exHash exInst [] (Open exInst emptyDB)
    (exEnv "33333333-3333-4333-8333-333333333333") exInput "k" exOut exFirst.2
    (tail exScript).*2 exState (exEnv "") exInput) as [_ H];
    [constructor|apply readyb_spec; vm_compute; reflexivity|reflexivity|exact exFirst_ok
    |exact exRest_steps|reflexivity|reflexivity|reflexivity|].
  exact (proj1 (H eq_refl) exVM ltac:(vm_compute; reflexivity)).
Defined.

End Idempotency.
