(* ===== verification/RunHistory.v ===== *)
(** Runs over whole executions: one active run per VM, the phase machine, and the
    agreement of progress numbers and results with the log. *)

From S2P Require Import Prelude Events Store RunStore VmStore StoreRules Registry History.
Import Events Sql Store Log Runs Vms Rules Registry History.

Local Open Scope Z_scope.

Module RunHistory.

(** * What one operation does to the runs *)

Definition activeOf (vm : string) (r : Run) : bool :=
  (uVMID r =? vm)%string && activePhase (uPhase r).

(** The columns submissions and transitions leave alone. *)
Definition runIdent (r : Run) : string * string := (uRunID r, uVMID r).

(** Creation and transitions. *)
Inductive runMove (l : list Run) : list Run → Prop :=
  | rm_same : runMove l l
  | rm_new r :
      select1 (byRunID (uRunID r)) l = None →
      (activePhase (uPhase r) = true → select1 (activeOf (uVMID r)) l = None) →
      uProgressSeq r = 0 → uResultStatus r = "" → runMove l (l ++ [r])
  | rm_move id cur f :
      select1 (byRunID id) l = Some cur →
      (∀ r, runIdent (f r) = runIdent r ∧ uProgressSeq (f r) = uProgressSeq r ∧
            uResultStatus (f r) = uResultStatus r ∧ uResultJSON (f r) = uResultJSON r) →
      runTransitionAllowed (uPhase cur) (uPhase (f cur)) = true →
      runMove l (update (byRunID id) f l).

(** Those, and the two submissions. *)
Inductive runStep (l : list Run) : list Run → Prop :=
  | rs_move l' : runMove l l' → runStep l l'
  | rs_progress id cur f :
      select1 (byRunID id) l = Some cur → acceptsSubmissions (uPhase cur) = true →
      (∀ r, runIdent (f r) = runIdent r ∧ uPhase (f r) = uPhase r ∧
            uResultStatus (f r) = uResultStatus r ∧ uResultJSON (f r) = uResultJSON r ∧
            uProgressSeq (f r) = Int.i64 (uProgressSeq cur + 1)) →
      runStep l (update (byRunID id) f l)
  | rs_result id cur status f :
      select1 (byRunID id) l = Some cur → acceptsSubmissions (uPhase cur) = true →
      uResultStatus cur = "" → status = "succeeded" ∨ status = "failed" →
      (∀ r, runIdent (f r) = runIdent r ∧ uPhase (f r) = uPhase r ∧
            uResultStatus (f r) = status ∧ uProgressSeq (f r) = uProgressSeq r) →
      runStep l (update (byRunID id) f l).

(** Operations that do not touch the runs table. *)
Definition sameRuns (d d' : DB) : Prop := runs d' = runs d.
#[local] Instance sameRuns_preorder : PreOrder sameRuns.
Proof. split; [done|]. intros d1 d2 d3 H1 H2. unfold sameRuns in *. congruence. Qed.
#[local] Instance sameRuns_blind : LogBlind sameRuns.
Proof. split; done. Qed.

Ltac keeps_runs :=
  repeat first [keeps_step|apply keeps_modify; intros ?; try unfold updateReservation;
    repeat case_match; reflexivity].

Definition touchesRuns (o : Op) : bool :=
  match o with
  | OCreateVM _ | OMember _ | OCreateRun _ | OTransitionRun _ | OProgress _ _ _ | OResult _ _ _ _ => true
  | _ => false
  end.

Section runs.
Context (hash : Envelope → string).

Lemma runs_quiet e o s :
  touchesRuns o = false → sameRuns (db s) (db (exec hash e o s)).
Proof.
  assert (Hk : ∀ A (m : M A), keeps sameRuns m → sameRuns (db s) (db (m s).2)).
  { intros A m Hm. destruct (m s) as [r s'] eqn:E. by apply Hm in E. }
  destruct o; intros Hq; try done; cbn [exec]; apply Hk.
  - apply keeps_Append; apply _.
  - unfold TransitionVM, acquireCompute, reservationTotalsInTx, scanVMInTx, bumpVM. keeps_runs.
  - unfold UpdateOperation, scanOperationInTx. keeps_runs.
  - unfold InsertActionOperation, insertOperation. keeps_runs.
  - unfold PutRunReport. keeps_runs.
  - unfold recordVMStatement. keeps_runs.
  - unfold recordBatchOp, insertOperation, scanOperationInTx. keeps_runs.
  - keeps_runs.
  - unfold InsertReportOperation, insertOperation. keeps_runs.
Qed.

(** ** Creation *)

Lemma runs_on_bumped vm id s : runs (db (on (bumped vm id) s)) = runs (db s).
Proof. done. Qed.
Lemma runs_on_runs f s : runs (db (on (set_runs f) s)) = f (runs (db s)).
Proof. done. Qed.

Lemma runs_granted e inp s :
  runs (db (granted hash e inp s)) =
  match iRun inp with
  | None => runs (db s)
  | Some a => insertRow (seq (runs (db s)) + 1)
      (newRun e (attached inp a) None "" ""
         (seq (events (db (granted hash e inp s)))) (seq (runs (db s)) + 1)) (runs (db s))
  end.
Proof.
  unfold granted. cbv zeta.
  match goal with |- context [emitted hash HostObserved e "operation.state_changed" ?d ?x] =>
    set (s4 := emitted hash HostObserved e "operation.state_changed" d x) end.
  assert (H4 : runs (db s4) = runs (db s)).
  { unfold s4. rewrite runs_emitted, runs_on_bumped, runs_emitted. done. }
  destruct (iRun inp) as [a|]; [|done].
  assert (Hb : ∀ x i s0, seq (events (db (on (bumped x i) s0))) = seq (events (db s0))) by done.
  assert (Hu : ∀ f s0, seq (events (db (on (set_runs f) s0))) = seq (events (db s0))) by done.
  unfold ranRun. cbv zeta.
  by rewrite runs_on_bumped, runs_on_runs, runs_emitted, H4, Hb, Hu, seq_emitted.
Qed.

Lemma createGranted_runStep e inp s out s' :
  log_ok hash s → ready 4 e s → createGranted hash e inp s = (Ok out, s') →
  runMove (rows (runs (db s))) (rows (runs (db s'))).
Proof.
  intros Hl Hr E.
  apply createGranted_Ok in E as (v & o & _ & -> & _ & _ & _ & _ & _ & Hrun); [|done..].
  rewrite runs_granted. destruct (iRun inp) as [a|]; [|constructor].
  destruct Hrun as [Ha Hid]; [done|]. unfold insertRow. cbn [rows]. by apply rm_new.
Qed.

Lemma member_runStep e inp s :
  log_ok hash s → ready 4 e s →
  runMove (rows (runs (db s))) (rows (runs (db (inTx (createGranted hash e inp) s).2))).
Proof.
  intros Hl Hr. destruct (member_store hash e inp s) as [->|(out & E)]; [constructor|].
  by eapply createGranted_runStep.
Qed.

Lemma createVM_runStep e inp s :
  log_ok hash s → ready 4 e s →
  runMove (rows (runs (db s))) (rows (runs (db (CreateVMWithOperation hash e inp s).2))).
Proof.
  intros Hl Hr. destruct (CreateVMWithOperation hash e inp s) as [[out|err] s'] eqn:E;
    cbn [snd]; [|apply CreateVM_Err in E; rewrite E; constructor].
  apply CreateVM_Ok in E as [[-> _]|(t & _ & [(r & _ & E)|(_ & E)])]; [constructor|..|done|done].
  - apply createRefused_Ok in E as (o & _ & -> & _); [|done|by eapply ready_le; [|exact Hr]].
    unfold refused. cbv zeta. rewrite runs_emitted. constructor.
  - by eapply createGranted_runStep.
Qed.

Lemma lookupRun_state owner key rh s r s' :
  lookupRunByIdempotencyKey owner key rh s = (r, s') → s' = s.
Proof.
  unfold lookupRunByIdempotencyKey, GetRun, mbind, M_bind, gets, ensure, some, mret, M_ret, throw.
  intros H. repeat (case_match; simplify_eq); done.
Qed.

Definition runLookup (inp : CreateRunInput) : M (option Run) :=
  match cIdempotencyKey inp with
  | Some k => lookupRunByIdempotencyKey (cOwner inp) k (cRequestHash inp)
  | None => mret None
  end.

Lemma runLookup_state inp s r s' : runLookup inp s = (r, s') → s' = s.
Proof.
  unfold runLookup. destruct (cIdempotencyKey inp); [apply lookupRun_state|].
  by intros [= <- <-].
Qed.

Lemma createRun_runStep e inp s :
  log_ok hash s → ready 4 e s →
  runMove (rows (runs (db s))) (rows (runs (db (CreateRun hash e inp s).2))).
Proof.
  intros Hl Hr. destruct (CreateRun hash e inp s) as [r s'] eqn:E. cbn [snd].
  unfold CreateRun in E. fold (runLookup inp) in E. unfold mbind at 1, M_bind at 1 in E.
  destruct (runLookup inp s) as [pre s1] eqn:Hp. apply runLookup_state in Hp as ->.
  destruct pre as [[run|]|err]; [by injection E as <- <-; constructor| |
    by injection E as <- <-; constructor].
  destruct r as [[run b]|err]; [|apply inTx_Err in E; rewrite E; constructor].
  apply (proj1 (inTx_Ok _ _ _ _)) in E. apply bind_Ok in E as (again & s1 & Hp & E).
  apply runLookup_state in Hp as ->. destruct again as [run'|];
    [apply ret_Ok in E as [_ <-]; constructor|].
  rewrite emit_bind in E by (done || by eapply ready_le; [|exact Hr]).
  apply bind_Ok in E as (? & s1 & Hi & E). apply insertRun_Ok in Hi as (-> & Ha & Hid & _).
  rewrite runs_emitted in Ha, Hid.
  unfold bumpVM in E. rewrite modify_bind in E. unfold scanRunInTx in E. m_inv.
  change (runs (db (on _ (on (set_runs ?f) ?x)))) with (f (runs (db x))).
  rewrite runs_emitted. unfold insertRow. cbn [rows]. by apply rm_new.
Qed.

(** ** Transitions *)

Lemma transitionRun_runStep e inp s :
  log_ok hash s → ready 4 e s →
  runMove (rows (runs (db s))) (rows (runs (db (TransitionRun hash e inp s).2))).
Proof.
  intros Hl Hr. destruct (TransitionRun hash e inp s) as [[run|err] s'] eqn:E; cbn [snd];
    [|apply inTx_Err in E; rewrite E; constructor].
  apply (proj1 (inTx_Ok _ _ _ _)) in E. rewrite gets_bind, some_bind in E.
  destruct (select1 _ _) as [cur|] eqn:Hc; [|done].
  rewrite ensure_bind in E. destruct (_ || _); [|done].
  rewrite ensure_bind in E. destruct (runTransitionAllowed _ _) eqn:Ha; [|done].
  rewrite emit_bind in E by (done || by eapply ready_le; [|exact Hr]).
  rewrite modify_bind in E. unfold bumpVM in E. rewrite modify_bind in E.
  unfold scanRunInTx in E. m_inv.
  change (runs (db (on _ (on (set_runs ?f) ?x)))) with (f (runs (db x))).
  rewrite runs_emitted. unfold on_rows. cbn [rows].
  by eapply rm_move.
Qed.

(** ** Submissions *)

Definition progressed (e : Env) (id : string) (cur : Run) (j : json) (s : Store) : Store :=
  let next := Int.i64 (uProgressSeq cur + 1) in
  on (bumped (uVMID cur) (seq (events (db s)) + 1))
    (on (set_runs (on_rows (update (byRunID id) (setProgress e next))))
       (emitted hash GuestReported e "run.progress" (progressData id (uVMID cur) next j) s)).

Definition resultData (id : string) (cur : Run) (status : string) (n : Z) : object :=
  [("run_id", JStr id); ("vm_id", JStr (uVMID cur)); ("status", JStr status);
   ("size_bytes", JNum n)].

Definition resulted (e : Env) (id : string) (cur : Run) (txt status : string) (n : Z)
    (s : Store) : Store :=
  on (bumped (uVMID cur) (seq (events (db s)) + 1))
    (on (set_runs (on_rows (update (byRunID id) (setResult e txt status))))
       (emitted hash HostObserved e "run.result_recorded" (resultData id cur status n) s)).

(** A submission that records nothing: the runs stay, and the log gains at most
    the rejection. *)
Definition rejectedOnly (s s' : Store) : Prop :=
  runs (db s') = runs (db s) ∧ grows (kindIn ["run.submission_rejected"]) s s'.

Lemma rejected_db s s' : db s' = db s → rejectedOnly s s'.
Proof. intros E. split; [by rewrite E|]. apply grows_events. by rewrite E. Qed.

Lemma rejected_event {A} e run what reason n s (r : result StoreErr A) s' :
  log_ok hash s → ready 1 e s →
  recordSubmissionRejected hash e run what reason n s = (r, s') → rejectedOnly s s'.
Proof.
  intros Hl (_ & _ & Hq & _) E. split.
  - by apply (keeps_rejected hash sameRuns) in E.
  - by destruct (logs_rejected hash 1 (kindIn ["run.submission_rejected"]) e run what reason n
      ltac:(lia) ltac:(reflexivity) _ _ _ E Hl Hq).
Qed.

Lemma emitAs_bind {B} p e kd data (k : Z → M B) s :
  log_ok hash s → ready 1 e s → kindOk kd = true → knownProvenance p = true →
  (emitAs hash p e kd data ≫= k) s = k (seq (events (db s)) + 1) (emitted hash p e kd data s).
Proof. intros. by erewrite bind_eq by by apply emitAs_total. Qed.

Lemma progress_cases e id p max s r s' :
  log_ok hash s → ready 1 e s → SubmitRunProgress hash e id p max s = (r, s') →
  rejectedOnly s s' ∨
  ∃ cur j, select1 (byRunID id) (rows (runs (db s))) = Some cur ∧
    acceptsSubmissions (uPhase cur) = true ∧ uProgressEvents cur = true ∧
    subJSON p = Some j ∧ subLen p ≤ max ∧
    r = Ok (Int.i64 (uProgressSeq cur + 1)) ∧ s' = progressed e id cur j s.
Proof.
  intros Hl Hr E. unfold SubmitRunProgress, GetRun in E. rewrite gets_some_bind in E.
  destruct (select1 _ _) as [cur|] eqn:Hc;
    [|left; injection E as <- <-; by apply rejected_db].
  rewrite ensure_bind in E. destruct (acceptsSubmissions _) eqn:Ha;
    [|left; injection E as <- <-; by apply rejected_db].
  destruct (max <? subLen p) eqn:Hm; [left; by eapply rejected_event|].
  destruct (subJSON p) as [j|] eqn:Hj; [|left; by eapply rejected_event].
  destruct (uProgressEvents cur) eqn:Hp; cbn [negb] in E; [|left; by eapply rejected_event].
  right. exists cur, j. apply Z.ltb_ge in Hm. split_and!; try done; revert E; unfold inTx;
    rewrite gets_bind, Hc, some_bind, ensure_bind, Ha; cbv zeta; rewrite emitAs_bind by done;
    rewrite modify_bind; unfold bumpVM; rewrite modify_bind; by intros [= <- <-].
Qed.

Lemma checkResult_status quote p max status :
  checkResult quote p max = Ok status → status = "succeeded" ∨ status = "failed".
Proof.
  unfold checkResult. intros H. repeat case_match; simplify_eq;
    match goal with H : _ || _ = true |- _ =>
      by apply orb_true_iff in H as [H|H]; apply String.eqb_eq in H; auto end.
Qed.

Lemma result_cases quote e id p max s r s' :
  log_ok hash s → ready 1 e s → SubmitRunResult hash quote e id p max s = (r, s') →
  rejectedOnly s s' ∨
  ∃ cur status run, select1 (byRunID id) (rows (runs (db s))) = Some cur ∧
    acceptsSubmissions (uPhase cur) = true ∧ uResultStatus cur = "" ∧
    checkResult quote p max = Ok status ∧ r = Ok run ∧
    s' = resulted e id cur (subText p) status (subLen p) s.
Proof.
  intros Hl Hr E. unfold SubmitRunResult, GetRun in E. rewrite gets_some_bind in E.
  destruct (select1 _ _) as [cur|] eqn:Hc;
    [|left; injection E as <- <-; by apply rejected_db].
  rewrite ensure_bind in E. destruct (acceptsSubmissions _) eqn:Ha;
    [|left; injection E as <- <-; by apply rejected_db].
  destruct (checkResult quote p max) as [status|reason] eqn:Hk; [|left; by eapply rejected_event].
  rewrite gets_bind, Hc, some_bind, ensure_bind, Ha in E.
  destruct (uResultStatus cur =? "")%string eqn:Hs; cbn [negb] in E;
    [|left; by eapply rejected_event].
  destruct r as [run|err]; [|left; apply inTx_Err in E; by apply rejected_db].
  right. exists cur, status, run. apply String.eqb_eq in Hs. split_and!; try done.
  apply (proj1 (inTx_Ok _ _ _ _)) in E. rewrite emit_bind in E by done.
  rewrite modify_bind in E. unfold bumpVM in E. rewrite modify_bind in E.
  unfold scanRunInTx in E. m_inv. done.
Qed.

Lemma step_runs s o s' :
  step hash s o s' → log_ok hash s →
  runStep (rows (runs (db s))) (rows (runs (db s'))).
Proof.
  intros [e o' s0 Hr Hlg] Hl. assert (Hr1 : ready 1 e s0) by by eapply ready_le; [|exact Hr].
  destruct (touchesRuns o') eqn:Ht; [|rewrite (runs_quiet e o' s0 Ht); constructor; constructor].
  destruct o' as [|inp| | | |inp|inp|id p max|quote id p max| | | | | |inp| | | |]; try done; cbn [exec].
  - by apply rs_move, createVM_runStep.
  - by apply rs_move, createRun_runStep.
  - by apply rs_move, transitionRun_runStep.
  - destruct (SubmitRunProgress hash e id p max s0) as [r s1] eqn:E. cbn [snd].
    apply progress_cases in E as [[-> _]|(cur & j & Hc & Ha & _ & _ & _ & _ & ->)];
      [by repeat constructor| |done|done].
    unfold progressed. cbv zeta. rewrite runs_on_bumped, runs_on_runs, runs_emitted.
    by eapply rs_progress.
  - destruct (SubmitRunResult hash quote e id p max s0) as [r s1] eqn:E. cbn [snd].
    apply result_cases in E as [[-> _]|(cur & st & x & Hc & Ha & Hst & Hk & _ & ->)];
      [by repeat constructor| |done|done].
    unfold resulted. rewrite runs_on_bumped, runs_on_runs, runs_emitted.
    apply (rs_result _ id cur st); [done|done|done|by eapply checkResult_status|done].
  - by apply rs_move, member_runStep.
Qed.

(** * Invariants *)

(** ** Run ids are unique and a VM has at most one active run *)

Record runs_ok (l : list Run) : Prop := mkRunsOk {
  ro_ids : NoDup (uRunID <$> l);
  ro_active : ∀ r r', r ∈ l → r' ∈ l → activePhase (uPhase r) = true →
    activePhase (uPhase r') = true → uVMID r = uVMID r' → r = r'
}.

Lemma byRunID_spec id r : byRunID id r = true ↔ uRunID r = id.
Proof. apply String.eqb_eq. Qed.

Lemma allowed_active a b : runTransitionAllowed a b = true → activePhase a = true.
Proof.
  unfold runTransitionAllowed, validRunTransitions, activePhase. cbn [existsb].
  destruct (a =? "pending")%string; [done|]. destruct (a =? "running")%string; [done|].
  by destruct (a =? "concluding")%string.
Qed.

(** A row update that keeps identities and never makes a row active keeps the
    invariant. *)
Lemma runs_ok_update id f l :
  (∀ r, runIdent (f r) = runIdent r) →
  (∀ r, r ∈ l → byRunID id r = true → activePhase (uPhase (f r)) = true →
    activePhase (uPhase r) = true) →
  runs_ok l → runs_ok (update (byRunID id) f l).
Proof.
  intros Hf Ha [Hi Hx].
  assert (Hid : ∀ r, uRunID (f r) = uRunID r ∧ uVMID (f r) = uVMID r).
  { intros r. specialize (Hf r). unfold runIdent in Hf. split; congruence. }
  split; [rewrite fmap_update; [done|]; intros r _; apply Hid|].
  intros r r' Hr Hr' A A' E.
  apply elem_of_update in Hr as (x & Hxl & ->). apply elem_of_update in Hr' as (x' & Hxl' & ->).
  assert (Hact : ∀ y, y ∈ l → activePhase (uPhase (if byRunID id y then f y else y)) = true →
    activePhase (uPhase y) = true).
  { intros y Hy. destruct (byRunID id y) eqn:Eb; auto. }
  assert (Hvm : ∀ y, uVMID (if byRunID id y then f y else y) = uVMID y).
  { intros y. destruct (byRunID id y); [apply Hid|done]. }
  rewrite !Hvm in E. by assert (x = x') as -> by (apply Hx; auto).
Qed.

Lemma runStep_ok l l' : runStep l l' → runs_ok l → runs_ok l'.
Proof.
  intros [? [|r Hn Ha _ _|id cur f Hc Hf Ht]|id cur f Hc _ Hf|id cur st f Hc _ _ _ Hf] Hok.
  - done.
  - destruct Hok as [Hi Hx].
    assert (Hv : activePhase (uPhase r) = true →
      ∀ x, x ∈ l → activePhase (uPhase x) = true → uVMID x ≠ uVMID r).
    { intros A x Hxl Ax E. apply (proj1 (select1_None _ _) (Ha A)) in Hxl.
      unfold activeOf in Hxl. by rewrite E, String.eqb_refl, Ax in Hxl. }
    split.
    + rewrite fmap_app. apply NoDup_app. split_and!; [done| |apply NoDup_singleton].
      intros x (y & -> & Hy)%list_elem_of_fmap E%list_elem_of_singleton.
      apply (proj1 (select1_None _ _) Hn), not_true_iff_false in Hy.
      apply Hy. by apply byRunID_spec.
    + intros x x' [Hxl| ->%list_elem_of_singleton]%elem_of_app
        [Hxl'| ->%list_elem_of_singleton]%elem_of_app A A' E; [by apply Hx|..|done].
      * by destruct (Hv A' x Hxl A).
      * by destruct (Hv A x' Hxl' A').
  - apply runs_ok_update; [intros r; apply Hf| |done].
    intros r Hr Hb _. assert (r = cur) as ->.
    { rewrite (select1_unique uRunID _ _ r (ro_ids _ Hok) Hr Hb) in Hc; [by simplify_eq|].
      intros r' _ E%byRunID_spec. apply byRunID_spec in Hb. congruence. }
    by eapply allowed_active.
  - apply runs_ok_update; [intros r; apply Hf| |done].
    intros r Hr _. destruct (Hf r) as (_ & -> & _). done.
  - apply runs_ok_update; [intros r; apply Hf| |done].
    intros r Hr _. destruct (Hf r) as (_ & -> & _). done.
Qed.

End runs.

(** ** The phase machine *)

Inductive runPath (a : string) : string → Prop :=
  | rp_refl : runPath a a
  | rp_snoc b c : runPath a b → runTransitionAllowed b c = true → runPath a c.

Lemma runPath_trans a b c : runPath a b → runPath b c → runPath a c.
Proof. intros H. induction 1; [done|]. econstructor; eauto. Qed.

(** Later forms of a run: its phase further along the machine, its progress not
    lower in count, a recorded result final, and nothing recorded once it stopped
    accepting submissions. *)
Record runDesc (r r' : Run) : Prop := mkRunDesc {
  rd_ident : runIdent r' = runIdent r;
  rd_phase : runPath (uPhase r) (uPhase r');
  rd_result : uResultStatus r ≠ "" →
    uResultStatus r' = uResultStatus r ∧ uResultJSON r' = uResultJSON r;
  rd_closed : acceptsSubmissions (uPhase r) = false →
    uResultStatus r' = uResultStatus r ∧ uResultJSON r' = uResultJSON r ∧
    uProgressSeq r' = uProgressSeq r
}.

Lemma accepts_path a b : runPath a b → acceptsSubmissions a = false → acceptsSubmissions b = false.
Proof.
  induction 1 as [|b c _ IH Ht]; [done|]. intros H. specialize (IH H).
  unfold acceptsSubmissions in IH. apply orb_false_iff in IH as [E1 E2].
  unfold runTransitionAllowed, validRunTransitions in Ht. rewrite E1, E2 in Ht.
  destruct (b =? "concluding")%string; [|done]. apply existsb_exists in Ht as (x & Hx & Hc).
  apply String.eqb_eq in Hc as <-. cbn in Hx.
  destruct_or! Hx; subst; done.
Qed.

Lemma runDesc_refl r : runDesc r r.
Proof. split; [done|constructor|done|done]. Qed.

Lemma runDesc_trans r1 r2 r3 : runDesc r1 r2 → runDesc r2 r3 → runDesc r1 r3.
Proof.
  intros [A1 A2 A3 A4] [B1 B2 B3 B4]. split.
  - congruence.
  - by eapply runPath_trans.
  - intros H. destruct (A3 H) as [E1 E2]. rewrite <- E1 in H. destruct (B3 H) as [F1 F2].
    split; congruence.
  - intros H. destruct (A4 H) as (E1 & E2 & E3).
    destruct (B4 (accepts_path _ _ A2 H)) as (F1 & F2 & F3). split_and!; congruence.
Qed.

Lemma runStep_desc l l' r :
  runStep l l' → runs_ok l → r ∈ l → ∃ r', r' ∈ l' ∧ runDesc r r'.
Proof.
  intros Hst Hok Hr.
  assert (Hup : ∀ id f cur, select1 (byRunID id) l = Some cur → runDesc cur (f cur) →
    ∃ r', r' ∈ update (byRunID id) f l ∧ runDesc r r').
  { intros id f cur Hc Hd. destruct (byRunID id r) eqn:Hb.
    - assert (r = cur) as ->.
      { rewrite (select1_unique uRunID _ _ r (ro_ids _ Hok) Hr Hb) in Hc; [by simplify_eq|].
        intros r' _ E%byRunID_spec. apply byRunID_spec in Hb. congruence. }
      exists (f cur). split; [|done]. apply elem_of_update. exists cur. by rewrite Hb.
    - exists r. split; [|apply runDesc_refl]. apply elem_of_update. exists r. by rewrite Hb. }
  destruct Hst as [? [|x _ _ _ _|id cur f Hc Hf Ht]|id cur f Hc Ha Hf|id cur st f Hc Ha Hs _ Hf].
  - exists r. split; [done|apply runDesc_refl].
  - exists r. split; [apply elem_of_app; by left|apply runDesc_refl].
  - eapply Hup; [done|]. destruct (Hf cur) as (E1 & E2 & E3 & E4).
    split; [done| |by rewrite E3, E4|by rewrite E2, E3, E4].
    econstructor; [constructor|done].
  - eapply Hup; [done|]. destruct (Hf cur) as (E1 & E2 & E3 & E4 & E5).
    split; [done|rewrite E2; constructor|by rewrite E3, E4|]. rewrite Ha. done.
  - eapply Hup; [done|]. destruct (Hf cur) as (E1 & E2 & E3 & E4).
    split; [done|rewrite E2; constructor|by rewrite Hs|]. rewrite Ha. done.
Qed.

(** ** Progress numbers and results in the log *)

Definition aboutRun (run : string) (r : EventRow) : bool :=
  match dataStr r "run_id" with Some x => (x =? run)%string | None => false end.

Definition dataNum (r : EventRow) (k : string) : option Z :=
  match Data (payload r) with
  | Some o => match field o k with Some (JNum n) => Some n | _ => None end
  | None => None
  end.

Definition progressOf (run : string) (log : list EventRow) : list Z :=
  omap (λ r, if (kind r =? "run.progress")%string && aboutRun run r
             then dataNum r "seq" else None) log.

Definition resultsOf (run : string) (log : list EventRow) : list string :=
  omap (λ r, if (kind r =? "run.result_recorded")%string && aboutRun run r
             then dataStr r "status" else None) log.

Definition countOf (o : option Run) : Z := match o with Some r => uProgressSeq r | None => 0 end.
Definition statusesOf (o : option Run) : list string :=
  match o with
  | Some r => if (uResultStatus r =? "")%string then [] else [uResultStatus r]
  | None => []
  end.

Record evidence (d : DB) : Prop := mkEvidence {
  ev_range : ∀ run, 0 ≤ countOf (select1 (byRunID run) (rows (runs d)));
  ev_progress : ∀ run, progressOf run (rows (events d)) =
    seqZ 1 (countOf (select1 (byRunID run) (rows (runs d))));
  ev_results : ∀ run, resultsOf run (rows (events d)) =
    statusesOf (select1 (byRunID run) (rows (runs d)))
}.

Definition submissionKind (k : string) : bool :=
  (k =? "run.progress")%string || (k =? "run.result_recorded")%string.

Lemma other_submissions run log :
  Forall (λ r, submissionKind (kind r) = false) log →
  progressOf run log = [] ∧ resultsOf run log = [].
Proof.
  induction 1 as [|r l Hr _ [IH1 IH2]]; [done|].
  apply orb_false_iff in Hr as [E1 E2]. unfold progressOf, resultsOf in *. cbn.
  by rewrite E1, E2.
Qed.

(** A step on runs other than a submission keeps what the log is compared with. *)
Lemma runMove_counts l l' run :
  runMove l l' →
  countOf (select1 (byRunID run) l') = countOf (select1 (byRunID run) l) ∧
  statusesOf (select1 (byRunID run) l') = statusesOf (select1 (byRunID run) l).
Proof.
  intros [|r Hn _ Hp Hs|id cur f Hc Hf _].
  - done.
  - rewrite select1_app. destruct (select1 (byRunID run) l); [done|].
    rewrite select1_one. case_match; [|done]. cbn. by rewrite Hp, Hs.
  - assert (Hid : ∀ r, byRunID run (f r) = byRunID run r).
    { intros r. destruct (Hf r) as [E _]. unfold byRunID. unfold runIdent in E. congruence. }
    rewrite select1_update by done. destruct (select1 (byRunID run) l) as [x|]; [|done]. cbn.
    destruct (byRunID id x); [|done]. destruct (Hf x) as (_ & -> & -> & _). done.
Qed.

Lemma evidence_move d d' tl :
  runMove (rows (runs d)) (rows (runs d')) →
  rows (events d') = rows (events d) ++ tl →
  Forall (λ r, submissionKind (kind r) = false) tl → evidence d → evidence d'.
Proof.
  intros Hm He Hk [H1 H2 H3]. split; intros run;
    destruct (runMove_counts _ _ run Hm) as [E1 E2];
    destruct (other_submissions run tl Hk) as [O1 O2].
  - by rewrite E1.
  - unfold progressOf in *. by rewrite He, omap_app, O1, app_nil_r, E1.
  - unfold resultsOf in *. by rewrite He, omap_app, O2, app_nil_r, E2.
Qed.

Lemma sorted_length (l : list Z) lo hi :
  StronglySorted Z.lt l → (∀ x, x ∈ l → lo < x ≤ hi) → lo ≤ hi → Z.of_nat (length l) ≤ hi - lo.
Proof.
  intros Hs. revert lo. induction Hs as [|x l Hs IH Hx]; intros lo Hr Hle; cbn [length]; [lia|].
  assert (lo < x ≤ hi) by (apply Hr; left).
  assert (Z.of_nat (length l) ≤ hi - x); [|lia].
  apply IH; [|lia]. intros y Hy. rewrite Forall_forall in Hx. specialize (Hx y Hy).
  assert (lo < y ≤ hi) by (apply Hr; by right). lia.
Qed.

Lemma length_omap_le {A B} (f : A → option B) l : (length (omap f l) ≤ length l)%nat.
Proof. induction l as [|x l IH]; cbn; [lia|]. destruct (f x); cbn; lia. Qed.

Section trace.
Context (hash : Envelope → string).

(** The progress counter never reaches the end of its range: each submission
    took a cursor. *)
Lemma count_small s run :
  log_ok hash s → evidence (db s) → seq (events (db s)) < Int.MaxInt64 →
  countOf (select1 (byRunID run) (rows (runs (db s)))) < Int.MaxInt64.
Proof.
  intros [] [H1 H2 _] Hs. specialize (H1 run). specialize (H2 run).
  apply (f_equal length) in H2. rewrite length_seqZ in H2.
  pose proof (length_omap_le (λ r, if (kind r =? "run.progress")%string && aboutRun run r
    then dataNum r "seq" else None) (rows (events (db s)))) as Hle.
  unfold progressOf in H2. rewrite H2 in Hle.
  pose proof (sorted_length (event_id <$> rows (events (db s))) 0 (seq (events (db s)))
    lo_ids0) as Hl. rewrite length_fmap in Hl.
  assert (Z.of_nat (length (rows (events (db s)))) ≤ seq (events (db s)) - 0).
  { apply Hl; [|lia]. intros x (r & -> & Hr)%list_elem_of_fmap. specialize (lo_range0 r Hr). lia. }
  lia.
Qed.

Lemma evidence_progressed e id cur j s :
  log_ok hash s → ready 1 e s → select1 (byRunID id) (rows (runs (db s))) = Some cur →
  evidence (db s) → evidence (db (progressed hash e id cur j s)).
Proof.
  intros Hl (_ & _ & _ & Hq) Hc Hev.
  assert (Hsm : uProgressSeq cur < Int.MaxInt64).
  { pose proof (count_small s id Hl Hev ltac:(lia)) as H. by rewrite Hc in H. }
  pose proof Hev as [H1 H2 H3].
  assert (H0 : 0 ≤ uProgressSeq cur) by (specialize (H1 id); by rewrite Hc in H1).
  assert (Hi : Int.i64 (uProgressSeq cur + 1) = uProgressSeq cur + 1).
  { apply Int.i64_small. unfold Int.MaxInt64 in Hsm. lia. }
  assert (Hsel : ∀ run, select1 (byRunID run) (rows (runs (db (progressed hash e id cur j s)))) =
    (λ r, if byRunID id r then setProgress e (uProgressSeq cur + 1) r else r)
      <$> select1 (byRunID run) (rows (runs (db s)))).
  { intros run. unfold progressed. cbv zeta. rewrite runs_on_bumped, runs_on_runs, runs_emitted, Hi.
    unfold on_rows. cbn [rows]. by rewrite select1_update. }
  assert (Hlog : rows (events (db (progressed hash e id cur j s))) = rows (events (db s)) ++
    [eventRow hash (seq (events (db s)) + 1) (emittedEnv GuestReported e "run.progress"
       (progressData id (uVMID cur) (uProgressSeq cur + 1) j) s)]).
  { unfold progressed. cbv zeta.
    change (rows (events (db (on _ (on _ ?x))))) with (rows (events (db x))).
    by rewrite rows_emitted, Hi. }
  assert (Hcnt : ∀ run, countOf (select1 (byRunID run)
      (rows (runs (db (progressed hash e id cur j s))))) =
    if (id =? run)%string then uProgressSeq cur + 1
    else countOf (select1 (byRunID run) (rows (runs (db s))))).
  { intros run. rewrite Hsel. destruct (id =? run)%string eqn:E.
    - apply String.eqb_eq in E as <-. rewrite Hc. cbn.
      pose proof (select1_Some _ _ _ Hc) as [_ ->]. done.
    - destruct (select1 (byRunID run) _) as [x|] eqn:Ex; [|done]. cbn.
      apply select1_Some in Ex as [_ Ex%byRunID_spec]. unfold byRunID.
      rewrite Ex, String.eqb_sym, E. done. }
  split; intros run.
  - rewrite Hcnt. case_match; [lia|done].
  - rewrite Hcnt, Hlog. unfold progressOf. rewrite omap_app. fold (progressOf run (rows (events (db s)))).
    rewrite H2. cbn [omap list_omap]. unfold aboutRun. rewrite kind_emitted, dataStr_emitted.
    change (field (progressData id (uVMID cur) (uProgressSeq cur + 1) j) "run_id")
      with (Some (JStr id)). cbn [andb String.eqb].
    change ((_ =? _)%string && ?b) with b.
    change (dataNum _ "seq") with (Some (uProgressSeq cur + 1)).
    destruct (id =? run)%string eqn:E; [|by rewrite app_nil_r].
    apply String.eqb_eq in E as <-. rewrite Hc. cbn [countOf].
    rewrite seqZ_app by lia. f_equal.
    rewrite (seqZ_cons _ 1), seqZ_nil by lia. f_equal. lia.
  - rewrite Hlog, Hsel. unfold resultsOf. rewrite omap_app.
    fold (resultsOf run (rows (events (db s)))). rewrite H3. cbn [omap list_omap].
    rewrite kind_emitted. change ("run.progress" =? "run.result_recorded")%string with false.
    cbn [andb]. rewrite app_nil_r.
    destruct (select1 (byRunID run) (rows (runs (db s)))) as [x|]; [|done]. cbn.
    by destruct (byRunID id x).
Qed.

Lemma evidence_resulted e id cur txt st n s :
  select1 (byRunID id) (rows (runs (db s))) = Some cur → uResultStatus cur = "" →
  st = "succeeded" ∨ st = "failed" →
  evidence (db s) → evidence (db (resulted hash e id cur txt st n s)).
Proof.
  intros Hc Hs Hst [H1 H2 H3].
  assert (Hsel : ∀ run, select1 (byRunID run)
      (rows (runs (db (resulted hash e id cur txt st n s)))) =
    (λ r, if byRunID id r then setResult e txt st r else r)
      <$> select1 (byRunID run) (rows (runs (db s)))).
  { intros run. unfold resulted. rewrite runs_on_bumped, runs_on_runs, runs_emitted.
    unfold on_rows. cbn [rows]. by rewrite select1_update. }
  assert (Hlog : rows (events (db (resulted hash e id cur txt st n s))) =
    rows (events (db s)) ++ [eventRow hash (seq (events (db s)) + 1)
      (emittedEnv HostObserved e "run.result_recorded" (resultData id cur st n) s)]).
  { unfold resulted.
    change (rows (events (db (on _ (on _ ?x))))) with (rows (events (db x))).
    by rewrite rows_emitted. }
  assert (Hcnt : ∀ run, countOf (select1 (byRunID run)
      (rows (runs (db (resulted hash e id cur txt st n s))))) =
    countOf (select1 (byRunID run) (rows (runs (db s))))).
  { intros run. rewrite Hsel.
    destruct (select1 (byRunID run) (rows (runs (db s)))) as [x|]; [|done]. cbn.
    by destruct (byRunID id x). }
  split; intros run.
  - by rewrite Hcnt.
  - rewrite Hcnt, Hlog. unfold progressOf. rewrite omap_app.
    fold (progressOf run (rows (events (db s)))). rewrite H2. cbn [omap list_omap].
    rewrite kind_emitted. change ("run.result_recorded" =? "run.progress")%string with false.
    cbn [andb]. by rewrite app_nil_r.
  - rewrite Hlog, Hsel. unfold resultsOf. rewrite omap_app.
    fold (resultsOf run (rows (events (db s)))). rewrite H3. cbn [omap list_omap].
    unfold aboutRun. rewrite kind_emitted, !dataStr_emitted.
    change (field (resultData id cur st n) "run_id") with (Some (JStr id)).
    change (field (resultData id cur st n) "status") with (Some (JStr st)).
    change ((_ =? _)%string && ?b) with b.
    destruct (id =? run)%string eqn:E.
    + apply String.eqb_eq in E as <-. rewrite Hc. cbn.
      pose proof (select1_Some _ _ _ Hc) as [_ Hb]. rewrite Hb, Hs. cbn.
      by destruct Hst as [-> | ->].
    + rewrite app_nil_r. destruct (select1 (byRunID run) _) as [x|] eqn:Ex; [|done]. cbn.
      apply select1_Some in Ex as [_ Ex%byRunID_spec]. unfold byRunID.
      by rewrite Ex, (String.eqb_sym run id), E.
Qed.

(** The kinds of submissions come from submissions only. *)
Definition submits (o : Op) : bool :=
  match o with OProgress _ _ _ | OResult _ _ _ _ => true | _ => false end.

Lemma opKinds_submission o s k :
  submits o = false → legal o s → kindIn (opKinds o) k → submissionKind k = false.
Proof.
  intros Hq Hl. unfold kindIn. intros (x & Hx & ->%String.eqb_eq)%existsb_exists.
  assert (Hs : ∀ k, storeKind k = false → submissionKind k = false).
  { intros k [[_ E1]%orb_false_iff E2]%orb_false_iff. unfold submissionKind. by rewrite E1, E2. }
  destruct o; try done; cbn [opKinds] in Hx;
    try (repeat (destruct Hx as [<-|Hx]; [reflexivity|]); done).
  - destruct Hl as [_ Hl]. destruct Hx as [<-|Hx]; [by apply Hs|].
    repeat (destruct Hx as [<-|Hx]; [reflexivity|]). done.
  - destruct Hx as [<-|[]]. by apply Hs.
Qed.

Lemma step_runMove s o s' :
  step hash s o s' → submits o = false → log_ok hash s →
  runMove (rows (runs (db s))) (rows (runs (db s'))).
Proof.
  intros [e o' s0 Hr Hlg] Hsub Hl.
  destruct (touchesRuns o') eqn:Ht; [|rewrite (runs_quiet hash e o' s0 Ht); constructor].
  destruct o'; try done; cbn [exec];
    [by apply createVM_runStep|by apply createRun_runStep|by apply transitionRun_runStep
    |by apply member_runStep].
Qed.

Lemma rejected_evidence s s' : rejectedOnly s s' → evidence (db s) → evidence (db s').
Proof.
  intros [Hr (tl & Htl & Hk)] He. eapply evidence_move; [|exact Htl| |done].
  - rewrite Hr. constructor.
  - eapply Forall_impl; [exact Hk|]. intros r Hx. cbv beta in *. unfold kindIn in Hx.
    cbn in Hx. rewrite orb_false_r in Hx. apply String.eqb_eq in Hx. by rewrite Hx.
Qed.

Lemma step_evidence s o s' :
  step hash s o s' → log_ok hash s → evidence (db s) → evidence (db s').
Proof.
  intros Hst Hl Hev. destruct (submits o) eqn:Hsub.
  - destruct Hst as [e o' s0 Hr Hlg].
    assert (Hr1 : ready 1 e s0) by by eapply ready_le; [|exact Hr].
    destruct o' as [| | | | | | |id p max|quote id p max| | | | | | | | | |]; try done; cbn [exec].
    + destruct (SubmitRunProgress hash e id p max s0) as [r s1] eqn:E. cbn [snd].
      apply progress_cases in E as [E|(cur & j & Hc & _ & _ & _ & _ & _ & ->)];
        [by eapply rejected_evidence| |done|done].
      by apply evidence_progressed.
    + destruct (SubmitRunResult hash quote e id p max s0) as [r s1] eqn:E. cbn [snd].
      apply result_cases in E as [E|(cur & st & x & Hc & _ & Hs & Hk & _ & ->)];
        [by eapply rejected_evidence| |done|done].
      apply evidence_resulted; [done..| |done]. by eapply checkResult_status.
  - pose proof (step_runMove _ _ _ Hst Hsub Hl) as Hm.
    destruct (step_log hash _ _ _ Hst Hl) as [_ (tl & Htl & Hk)].
    assert (Hlg : ∃ sx, legal o sx) by (destruct Hst; eauto). destruct Hlg as [sx Hlg].
    eapply evidence_move; [exact Hm|exact Htl| |done].
    eapply Forall_impl; [exact Hk|]. intros r Hx. by eapply opKinds_submission.
Qed.

Lemma steps_evidence s os s' :
  steps hash s os s' → log_ok hash s → evidence (db s) → evidence (db s').
Proof.
  induction 1 as [s|s o s1 os s2 Hs _ IH]; intros Hl He; [done|].
  apply IH; [by eapply step_log|by eapply step_evidence].
Qed.

Lemma evidence_empty inst : evidence (db (Open inst emptyDB)).
Proof. split; done. Qed.

Lemma steps_runs s os s' :
  steps hash s os s' → log_ok hash s → runs_ok (rows (runs (db s))) →
  runs_ok (rows (runs (db s'))) ∧
  ∀ r, r ∈ rows (runs (db s)) → ∃ r', r' ∈ rows (runs (db s')) ∧ runDesc r r'.
Proof.
  induction 1 as [s|s o s1 os s2 Hs _ IH]; intros Hl Hok.
  - split; [done|]. intros r Hr. exists r. split; [done|apply runDesc_refl].
  - pose proof (step_runs hash _ _ _ Hs Hl) as Hst.
    destruct (step_log hash _ _ _ Hs Hl) as [Hl1 _].
    destruct (IH Hl1 (runStep_ok _ _ Hst Hok)) as [Hok2 Hd]. split; [done|].
    intros r Hr. destruct (runStep_desc _ _ r Hst Hok Hr) as (r1 & Hr1 & D1).
    destruct (Hd r1 Hr1) as (r2 & Hr2 & D2). exists r2. split; [done|]. by eapply runDesc_trans.
Qed.

End trace.

(** C30: Runs are exclusive, ordered and final. In any execution from an empty
    database, run ids are unique and a VM never has two active (pending, running
    or concluding) runs; every run seen at an earlier point still exists later
    with its phase further along the phase machine; a recorded result is never
    replaced; and once a run has left pending and running, neither its result nor
    its progress count changes any more. *)
Theorem run_lifecycle hash inst os1 os2 s1 s2 :
  steps hash (Open inst emptyDB) os1 s1 → steps hash s1 os2 s2 →
  runs_ok (rows (runs (db s2))) ∧
  ∀ r, r ∈ rows (runs (db s1)) → ∃ r', r' ∈ rows (runs (db s2)) ∧ runDesc r r'.
Proof.
  intros H1 H2. destruct (steps_log hash _ _ _ H1 (log_ok_empty hash inst)) as [Hl1 _].
  destruct (steps_runs hash _ _ _ H1 (log_ok_empty hash inst)) as [Hok1 _].
  { split; [constructor|]. by intros ? ? ?%elem_of_nil. }
  by apply (steps_runs hash _ _ _ H2).
Qed.

Definition exRun : string := "33333333-3333-4333-8333-333333333333".
Definition exRun2 : string := "44444444-4444-4444-8444-444444444444".
Definition exProgress (n : Z) : Submission := mkSubmission n (Some (JStr "p")) "'p'".
Definition exResult : Submission :=
  mkSubmission 22 (Some (JObj [("status", JStr "succeeded")])) "{'status':'succeeded'}".
Definition exPhase (to : string) : RunTransitionInput :=
  mkRunTransition exRun "" to "done" "guest_result".

Definition exRunScript : list (Env * Op) :=
  [(exEnv exRun, OCreateVM (exCreate None (λ _, None) exVM));
   (exEnv exRun2, OCreateRun (mkCreateRun exVM "alice" "again" "guest_result" "stop" true
      None "h" "running"));
   (exEnv "", OTransitionRun (exPhase "running"));
   (exEnv "", OProgress exRun (exProgress 3) 100);
   (exEnv "", OProgress exRun (exProgress 300) 100);
   (exEnv "", OProgress exRun (exProgress 4) 100);
   (exEnv "", OResult (λ _, "") exRun exResult 100);
   (exEnv "", OResult (λ _, "") exRun exResult 100);
   (exEnv "", OTransitionRun (exPhase "concluding"));
   (exEnv "", OProgress exRun (exProgress 5) 100);
   (exEnv "", OTransitionRun (exPhase "succeeded"));
   (exEnv exRun2, OCreateRun (mkCreateRun exVM "alice" "again" "guest_result" "stop" true
      None "h" "running"))].

Definition exRuns : Store :=
  default (Open exInst emptyDB) (run exHash exRunScript (Open exInst emptyDB)).

Lemma exRuns_steps : steps exHash (Open exInst emptyDB) exRunScript.*2 exRuns.
Proof. apply run_steps. vm_compute. reflexivity. Qed.

Lemma run_lifecycle_witness :
  (uRunID <$> rows (runs (db exRuns))) = [exRun; exRun2] ∧
  (uPhase <$> rows (runs (db exRuns))) = ["succeeded"; "running"] ∧
  runs_ok (rows (runs (db exRuns))).
Proof.
  split; [vm_compute; reflexivity|]. split; [vm_compute; reflexivity|].
  exact (proj1 (run_lifecycle exHash exInst exRunScript.*2 [] exRuns exRuns
    exRuns_steps (steps_nil exHash exRuns))).
Defined.

(** C31: Guest submissions and the log agree. In every state reached from an empty
    database, the run.progress events about a run carry the numbers 1, 2, 3, ...
    up to the run's progress count, in log order and without a gap or a repeat;
    and there is one run.result_recorded event, with the recorded status, exactly
    when the run's row holds a result. *)
Theorem run_evidence hash inst os s run :
  steps hash (Open inst emptyDB) os s →
  progressOf run (rows (events (db s))) =
    seqZ 1 (countOf (select1 (byRunID run) (rows (runs (db s))))) ∧
  resultsOf run (rows (events (db s))) =
    statusesOf (select1 (byRunID run) (rows (runs (db s)))).
Proof.
  intros H.
  destruct (steps_evidence hash _ _ _ H (log_ok_empty hash inst) (evidence_empty inst)).
  done.
Qed.

Lemma run_evidence_witness :
  progressOf exRun (rows (events (db exRuns))) = [1; 2] ∧
  resultsOf exRun (rows (events (db exRuns))) = ["succeeded"] ∧
  progressOf exRun (rows (events (db exRuns))) =
    seqZ 1 (countOf (select1 (byRunID exRun) (rows (runs (db exRuns))))).
Proof.
  split; [vm_compute; reflexivity|]. split; [vm_compute; reflexivity|].
  exact (proj1 (run_evidence exHash exInst exRunScript.*2 exRuns exRun exRuns_steps)).
Defined.

End RunHistory.
