(* ===== verification/Float64.v ===== *)
(** [float64] arithmetic on whole numbers. The specification of binary64 is
    [SpecFloat]'s; here is what the sum of two non-negative integers and a comparison
    with it mean: below 2^53 they are exact, and from there on nothing rounds back
    below it. *)

From S2P Require Import Prelude.
From Stdlib Require Import SpecFloat.

Local Open Scope Z_scope.

Module Float64.

Definition f64 (x : Z) : spec_float := binary_normalize 53 1024 x 0 false.
Definition fadd : spec_float → spec_float → spec_float := SFadd 53 1024.
Definition fsub : spec_float → spec_float → spec_float := SFsub 53 1024.
Definition fmul : spec_float → spec_float → spec_float := SFmul 53 1024.
(** [x > y], false on NaN. *)
Definition fgt (x y : spec_float) : bool := SFltb y x.

(** [int64(f)]: towards zero; out of range and NaN give the amd64 result. *)
Definition int64_of_f64 (f : spec_float) : Z :=
  match f with
  | S754_zero _ => 0
  | S754_finite sg m e =>
    let a := if 0 <=? e then Z.pos m * 2 ^ e else Z.pos m / 2 ^ (- e) in
    let v := if sg then - a else a in
    if (Int.MinInt64 <=? v) && (v <=? Int.MaxInt64) then v else Int.MinInt64
  | _ => Int.MinInt64
  end.

(** Below 2^53, as [float64] compares. *)
Definition exact (f : spec_float) : bool := valid_binary 53 1024 f && fgt (f64 (2 ^ 53)) f.

(** * Digits and shifts *)

Definition digits (p : positive) : Z := Z.pos (digits2_pos p).

Lemma digits_bounds p : 1 ≤ digits p ∧ 2 ^ (digits p - 1) ≤ Z.pos p < 2 ^ digits p.
Proof.
  unfold digits. induction p as [p IH|p IH|]; cbn [digits2_pos]; [| |by vm_compute].
  all: rewrite Pos2Z.inj_succ; destruct IH as (H1 & H2 & H3); split; [lia|].
  all: replace (Z.succ (Z.pos (digits2_pos p)) - 1) with (Z.succ (Z.pos (digits2_pos p) - 1)) by lia.
  all: rewrite !Z.pow_succ_r by lia; lia.
Qed.

Lemma digits_unique p d : 1 ≤ d → 2 ^ (d - 1) ≤ Z.pos p < 2 ^ d → digits p = d.
Proof.
  intros Hd [H1 H2]. destruct (digits_bounds p) as (Hp & H3 & H4).
  assert (d - 1 < digits p) by (apply (Z.pow_lt_mono_r_iff 2); lia).
  assert (digits p - 1 < d) by (apply (Z.pow_lt_mono_r_iff 2); lia). lia.
Qed.

Lemma digits_mul p k q : 0 ≤ k → Z.pos q = Z.pos p * 2 ^ k → digits q = digits p + k.
Proof.
  intros Hk E. destruct (digits_bounds p) as (Hp & H1 & H2).
  apply digits_unique; [lia|]. rewrite E.
  replace (digits p + k - 1) with (digits p - 1 + k) by lia. rewrite !Z.pow_add_r by lia.
  pose proof (Z.pow_pos_nonneg 2 k). nia.
Qed.

Lemma iter_xO p n : Z.pos (Pos.iter xO p n) = Z.pos p * 2 ^ Z.pos n.
Proof.
  revert p. induction n as [|n IH] using Pos.peano_ind; intros p; [cbn; lia|].
  rewrite Pos.iter_succ, Pos2Z.inj_succ, Z.pow_succ_r by lia. rewrite Pos2Z.inj_xO, IH. lia.
Qed.

(** Aligning to a smaller exponent multiplies. *)
Lemma shl_align_le m e e' :
  let '(m', e1) := shl_align m e e' in e1 = Z.min e e' ∧ Z.pos m' = Z.pos m * 2 ^ (e - e1).
Proof.
  unfold shl_align. destruct (e' - e) as [|d|d] eqn:E.
  - replace (Z.min e e') with e by lia. rewrite Z.sub_diag. lia.
  - replace (Z.min e e') with e by lia. rewrite Z.sub_diag. lia.
  - rewrite iter_xO. split; [lia|]. f_equal. f_equal. lia.
Qed.

Lemma iter_pos_nat {A} (f : A → A) n x : iter_pos f n x = Nat.iter (Pos.to_nat n) f x.
Proof.
  revert x. induction n as [n IH|n IH|]; intros x; cbn [iter_pos]; [..|done].
  - rewrite Pos2Nat.inj_xI, !IH, <- Nat.iter_add, <- Nat.iter_succ_r. do 2 f_equal. lia.
  - rewrite Pos2Nat.inj_xO, !IH, <- Nat.iter_add. f_equal. lia.
Qed.

Lemma shr_1_half mrs : 0 ≤ shr_m mrs → shr_m (shr_1 mrs) = shr_m mrs / 2.
Proof.
  destruct mrs as [[|[p|p|]|p] r s]; cbn; intros H; try done; [|].
  - rewrite Pos2Z.inj_xI, Z.add_comm, Z.mul_comm, Z.div_add by lia. done.
  - rewrite Pos2Z.inj_xO, Z.mul_comm, Z.div_mul by lia. done.
Qed.

Lemma shr_iter n mrs :
  0 ≤ shr_m mrs → shr_m (Nat.iter n shr_1 mrs) = shr_m mrs / 2 ^ Z.of_nat n.
Proof.
  intros H. induction n as [|n IH]; [by rewrite Z.div_1_r|].
  rewrite Nat.iter_succ, shr_1_half, IH by (rewrite IH; apply Z.div_pos; lia).
  rewrite Z.div_div by lia. f_equal. rewrite Nat2Z.inj_succ, Z.pow_succ_r by lia. lia.
Qed.

Lemma shr_iter_exact n k :
  0 < k → Nat.iter n shr_1 (Build_shr_record (k * 2 ^ Z.of_nat n) false false) =
          Build_shr_record k false false.
Proof.
  revert k. induction n as [|n IH]; intros k Hk; [cbn; f_equal; lia|].
  rewrite Nat2Z.inj_succ, Z.pow_succ_r by lia. replace (k * (2 * 2 ^ Z.of_nat n))
    with ((2 * k) * 2 ^ Z.of_nat n) by lia.
  rewrite Nat.iter_succ, IH by lia. by destruct k.
Qed.

Lemma shr_0 mrs e n : n ≤ 0 → shr mrs e n = (mrs, e).
Proof. destruct n; done. Qed.

Lemma shr_exact k e n :
  0 < k → 0 ≤ n → shr (Build_shr_record (k * 2 ^ n) false false) e n = (Build_shr_record k false false, e + n).
Proof.
  intros Hk Hn. destruct n as [|n|n]; [|cbn [shr]|lia].
  - cbn. do 2 f_equal; lia.
  - rewrite iter_pos_nat. replace (2 ^ Z.pos n) with (2 ^ Z.of_nat (Pos.to_nat n)) by (f_equal; lia).
    by rewrite shr_iter_exact.
Qed.

Lemma shr_div mrs e n :
  0 ≤ shr_m mrs → 0 ≤ n → shr_m (shr mrs e n).1 = shr_m mrs / 2 ^ n ∧ (shr mrs e n).2 = e + n.
Proof.
  intros Hm Hn. destruct n as [|n|n]; [|cbn [shr fst snd]|lia].
  - cbn. rewrite Z.div_1_r. lia.
  - rewrite iter_pos_nat, shr_iter by done. split; [|done]. do 2 f_equal. lia.
Qed.

Lemma fexp_eq e : -1074 ≤ e - 53 → fexp 53 1024 e = e - 53.
Proof. unfold fexp, emin. lia. Qed.

(** * Rounding *)

(** [m * 2^e], a whole number. *)
Definition whole (m : positive) (e n : Z) : Prop :=
  0 ≤ e ∧ n = Z.pos m * 2 ^ e ∨ e ≤ 0 ∧ Z.pos m = n * 2 ^ (- e).

(** The one representation of a number below 2^53. *)
Definition canon (n : positive) : spec_float :=
  S754_finite false (Z.to_pos (Z.pos n * 2 ^ (53 - digits n))) (digits n - 53).

(** Rounded to 2^53 or more. *)
Definition huge (f : spec_float) : Prop :=
  f = S754_infinity false ∨ ∃ m e, f = S754_finite false m e ∧ 2 ^ 52 ≤ Z.pos m ∧ 1 ≤ e.

Lemma canon_mantissa n :
  digits n ≤ 53 → 2 ^ 52 ≤ Z.pos n * 2 ^ (53 - digits n) < 2 ^ 53.
Proof.
  intros Hd. destruct (digits_bounds n) as (H0 & H1 & H2).
  pose proof (Z.pow_pos_nonneg 2 (53 - digits n)).
  replace (2 ^ 52) with (2 ^ (digits n - 1) * 2 ^ (53 - digits n)) by (rewrite <- Z.pow_add_r by lia; f_equal; lia).
  replace (2 ^ 53) with (2 ^ digits n * 2 ^ (53 - digits n)) by (rewrite <- Z.pow_add_r by lia; f_equal; lia).
  nia.
Qed.

Lemma digits_small n : Z.pos n < 2 ^ 53 ↔ digits n ≤ 53.
Proof.
  destruct (digits_bounds n) as (H0 & H1 & H2). split; intros H.
  - assert (digits n - 1 < 53); [|lia]. apply (Z.pow_lt_mono_r_iff 2); lia.
  - pose proof (Z.pow_le_mono_r 2 (digits n) 53). lia.
Qed.

Lemma whole_digits m e n : whole m e (Z.pos n) → digits n = digits m + e.
Proof.
  intros [[He E]|[He E]]; [by apply digits_mul in E|]. apply digits_mul in E; lia.
Qed.

(** What is rounded: the mantissa at an exponent no larger than the result's. *)
Lemma aligned m e f (mz := (shl_align m e f).1) (ez := (shl_align m e f).2) :
  ez ≤ f ∧ ez ≤ e ∧ Z.pos mz = Z.pos m * 2 ^ (e - ez) ∧ digits mz + ez = digits m + e.
Proof.
  pose proof (shl_align_le m e f) as H. subst mz ez. destruct (shl_align m e f) as [mz ez].
  destruct H as [-> H]. cbn [fst snd]. split_and!; [lia..|done|].
  apply digits_mul in H; lia.
Qed.

Lemma round_exact m e n :
  Z.pos n < 2 ^ 53 → whole m e (Z.pos n) → binary_round 53 1024 false m e = canon n.
Proof.
  intros Hn Hw. pose proof (proj1 (digits_small n) Hn) as Hd.
  pose proof (whole_digits _ _ _ Hw) as Ed. destruct (digits_bounds n) as (Hd1 & _).
  pose proof (canon_mantissa n Hd) as HK. set (K := Z.pos n * 2 ^ (53 - digits n)) in *.
  unfold binary_round. fold (digits m). rewrite <- Ed, fexp_eq by lia.
  pose proof (aligned m e (digits n - 53)) as Ha.
  destruct (shl_align m e (digits n - 53)) as [mz ez]. cbn [fst snd] in Ha.
  destruct Ha as (H1 & H2 & Hmz & Hdz).
  assert (Emz : Z.pos mz = K * 2 ^ (digits n - 53 - ez)).
  { unfold K. rewrite Hmz, <- Z.mul_assoc, <- Z.pow_add_r by lia. destruct Hw as [[He ->]|[He ->]].
    - rewrite <- !Z.mul_assoc, <- Z.pow_add_r by lia. do 2 f_equal. lia.
    - rewrite <- !Z.mul_assoc, <- Z.pow_add_r by lia. do 2 f_equal. lia. }
  unfold binary_round_aux, shr_fexp. cbn [Zdigits2 shr_record_of_loc]. fold (digits mz).
  rewrite Hdz, <- Ed, fexp_eq by lia. rewrite Emz, shr_exact by lia.
  cbn [loc_of_shr_record round_nearest_even shr_m].
  destruct K as [|k|k] eqn:EK; [lia| |lia]. cbn [Zdigits2]. fold (digits k).
  rewrite (digits_unique k 53), fexp_eq by lia. rewrite shr_0 by lia. cbn [shr_m].
  replace (ez + (digits n - 53 - ez)) with (digits n - 53) by lia.
  unfold canon. fold K. rewrite (proj2 (Z.leb_le _ _)) by lia. by rewrite EK.
Qed.

Lemma round_huge m e : 54 ≤ digits m + e → huge (binary_round 53 1024 false m e).
Proof.
  intros Hd. unfold binary_round. fold (digits m). rewrite fexp_eq by lia.
  set (F := digits m + e - 53). pose proof (aligned m e F) as Ha.
  destruct (shl_align m e F) as [mz ez]. cbn [fst snd] in Ha.
  destruct Ha as (H1 & H2 & Hmz & Hdz). destruct (digits_bounds mz) as (_ & Hb1 & Hb2).
  unfold binary_round_aux, shr_fexp. cbn [Zdigits2 shr_record_of_loc]. fold (digits mz).
  rewrite Hdz, fexp_eq by lia. fold F.
  destruct (shr_div (Build_shr_record (Z.pos mz) false false) ez (F - ez)) as [Hm' He'];
    [done|lia|].
  destruct (shr _ ez (F - ez)) as [mrs e']. cbn [fst snd shr_m] in *. subst e'.
  assert (H52 : 2 ^ 52 ≤ shr_m mrs < 2 ^ 53).
  { pose proof (Z.pow_pos_nonneg 2 (F - ez)).
    assert (2 ^ (digits mz - 1) = 2 ^ 52 * 2 ^ (F - ez)) by (rewrite <- Z.pow_add_r by lia; f_equal; lia).
    assert (2 ^ digits mz = 2 ^ 53 * 2 ^ (F - ez)) by (rewrite <- Z.pow_add_r by lia; f_equal; lia).
    rewrite Hm'. split; [apply Z.div_le_lower_bound; lia|apply Z.div_lt_upper_bound; lia]. }
  set (R := round_nearest_even _ _).
  assert (HR : 2 ^ 52 ≤ R ≤ 2 ^ 53).
  { unfold R, round_nearest_even. destruct (loc_of_shr_record mrs) as [|[]]; try case_match; lia. }
  destruct R as [|r|r]; [lia| |lia]. cbn [Zdigits2]. fold (digits r).
  assert (Hr : digits r = 53 ∨ digits r = 54 ∧ Z.pos r = 2 ^ 53).
  { destruct (decide (Z.pos r = 2 ^ 53)) as [E|]; [right|left; apply digits_unique; lia].
    split; [apply digits_unique; lia|done]. }
  destruct Hr as [-> |[-> E]]; rewrite fexp_eq by lia.
  - rewrite shr_0 by lia. cbn [shr_m]. destruct (_ <=? _); [right|by left].
    exists r, (ez + (F - ez)). split; [done|lia].
  - replace (54 + (ez + (F - ez)) - 53 - (ez + (F - ez))) with 1 by lia.
    rewrite E. change (shr (Build_shr_record (2 ^ 53) false false)) with
      (shr (Build_shr_record (2 ^ 52 * 2 ^ 1) false false)). rewrite shr_exact by lia. cbn [shr_m].
    change (2 ^ 52) with (Z.pos (2 ^ 52)). cbv iota. destruct (_ <=? _); [right|by left].
    eexists _, _. split; [reflexivity|lia].
Qed.

(** * Whole numbers *)

Lemma f64_canon n : Z.pos n < 2 ^ 53 → f64 (Z.pos n) = canon n.
Proof. intros H. apply round_exact; [done|]. left. lia. Qed.

Lemma f64_huge n : 2 ^ 53 ≤ n → huge (f64 n).
Proof.
  intros H. destruct n as [|n|n]; [lia| |lia]. apply round_huge.
  pose proof (digits_small n). lia.
Qed.

(** The sum of two representations, before it is rounded. *)
Lemma fadd_finite m1 e1 m2 e2 :
  ∃ M, Z.pos M = Z.pos m1 * 2 ^ (e1 - Z.min e1 e2) + Z.pos m2 * 2 ^ (e2 - Z.min e1 e2) ∧
    fadd (S754_finite false m1 e1) (S754_finite false m2 e2) = binary_round 53 1024 false M (Z.min e1 e2).
Proof.
  unfold fadd, SFadd. cbn [cond_Zopp].
  pose proof (shl_align_le m1 e1 (Z.min e1 e2)) as H1. pose proof (shl_align_le m2 e2 (Z.min e1 e2)) as H2.
  destruct (shl_align m1 e1 _) as [n1 x1], (shl_align m2 e2 _) as [n2 x2]. cbn [fst].
  destruct H1 as [-> H1], H2 as [-> H2]. exists (n1 + n2)%positive. split; [|done].
  replace (Z.min e1 (Z.min e1 e2)) with (Z.min e1 e2) in H1 by lia.
  replace (Z.min e2 (Z.min e1 e2)) with (Z.min e1 e2) in H2 by lia. lia.
Qed.

Lemma fadd_canon a b :
  Z.pos a < 2 ^ 53 → Z.pos b < 2 ^ 53 →
  ∃ M e, whole M e (Z.pos (a + b)) ∧ fadd (canon a) (canon b) = binary_round 53 1024 false M e.
Proof.
  intros Ha%digits_small Hb%digits_small. unfold canon.
  destruct (fadd_finite (Z.to_pos (Z.pos a * 2 ^ (53 - digits a))) (digits a - 53)
    (Z.to_pos (Z.pos b * 2 ^ (53 - digits b))) (digits b - 53)) as (M & HM & E).
  pose proof (canon_mantissa a Ha). pose proof (canon_mantissa b Hb).
  rewrite !Z2Pos.id in HM by lia. eexists M, _. split; [|exact E]. right. split; [lia|].
  rewrite HM, Pos2Z.inj_add, Z.mul_add_distr_r, <- !Z.mul_assoc, <- !Z.pow_add_r by lia.
  do 2 f_equal; f_equal; lia.
Qed.

Lemma fadd_huge a f : Z.pos a < 2 ^ 53 → huge f → huge (fadd (canon a) f).
Proof.
  intros Ha%digits_small [-> |(m & e & -> & Hm & He)]; [by left|]. unfold canon.
  destruct (fadd_finite (Z.to_pos (Z.pos a * 2 ^ (53 - digits a))) (digits a - 53) m e) as (M & HM & ->).
  apply round_huge. set (z := Z.min _ _) in *.
  pose proof (canon_mantissa a Ha) as HK. rewrite Z2Pos.id in HM by lia.
  destruct (digits_bounds M) as (? & _ & HM2). destruct (digits_bounds a) as (? & _).
  assert (52 + (e - z) < digits M); [|lia]. apply (Z.pow_lt_mono_r_iff 2); [lia..|].
  rewrite Z.pow_add_r by lia. pose proof (Z.pow_pos_nonneg 2 (e - z)).
  pose proof (Z.pow_pos_nonneg 2 (digits a - 53 - z)). nia.
Qed.

(** The sum of non-negative numbers is exact, or it is 2^53 or more. *)
Lemma fadd_whole a b :
  0 ≤ a < 2 ^ 53 → 0 ≤ b →
  if decide (a + b < 2 ^ 53) then fadd (f64 a) (f64 b) = f64 (a + b) else huge (fadd (f64 a) (f64 b)).
Proof.
  intros Ha Hb. destruct a as [|a|a]; [|..|lia].
  - replace (fadd (f64 0) (f64 b)) with (f64 b).
    + case_decide; [done|]. apply f64_huge. lia.
    + change (f64 0) with (S754_zero false). destruct b as [|b|b]; [done| |lia].
      destruct (decide (Z.pos b < 2 ^ 53)) as [H|H]; [by rewrite f64_canon|].
      assert (huge (f64 (Z.pos b))) as [-> |(m & e & -> & _)] by (apply f64_huge; lia); done.
  - destruct b as [|b|b]; [| |lia].
    + rewrite decide_True by lia. rewrite Z.add_0_r, f64_canon by lia. done.
    + destruct (decide (Z.pos b < 2 ^ 53)) as [H|H].
      * rewrite !f64_canon by lia. destruct (fadd_canon a b) as (M & e & Hw & ->); [lia..|].
        case_decide.
        -- change (Z.pos a + Z.pos b) with (Z.pos (a + b)). rewrite f64_canon by lia. by apply round_exact; [lia|].
        -- apply round_huge. rewrite <- (whole_digits _ _ _ Hw).
           pose proof (digits_small (a + b)). lia.
      * rewrite decide_False by lia. rewrite f64_canon by lia. apply fadd_huge; [lia|].
        apply f64_huge. lia.
Qed.

(** * Comparisons *)

Lemma f64_top : f64 (2 ^ 53) = S754_finite false (2 ^ 52) 1.
Proof. vm_compute. reflexivity. Qed.

Lemma compare_pos p q : Pos.compare_cont Eq p q = (p ?= q)%positive.
Proof. done. Qed.

(** A binary64 number below 2^53 that is positive. *)
Lemma exact_finite m e :
  exact (S754_finite false m e) = true →
  e ≤ 0 ∧ digits m ≤ 53 ∧ (-1074 < e → digits m = 53) ∧ -1074 ≤ e.
Proof.
  unfold exact. intros [Hv Hlt]%andb_true_iff. cbn [valid_binary] in Hv.
  unfold bounded, canonical_mantissa in Hv. fold (digits m) in Hv.
  apply andb_true_iff in Hv as [Hc%Z.eqb_eq _]. unfold fexp, emin in Hc.
  assert (digits m ≤ 53 ∧ (-1074 < e → digits m = 53) ∧ -1074 ≤ e) as (? & H53 & ?) by lia.
  split; [|done]. rewrite f64_top in Hlt.
  unfold fgt, SFltb in Hlt. cbn [SFcompare] in Hlt. destruct (Z.compare_spec e 1) as [-> |?|?]; [|lia|done].
  destruct (digits_bounds m) as (_ & Hm & _). rewrite H53 in Hm by lia.
  rewrite compare_pos in Hlt.
  destruct (Pos.compare_spec m (2 ^ 52)); try done. lia.
Qed.

Lemma in_range v : 0 ≤ v ≤ 2 ^ 53 → (Int.MinInt64 <=? v) && (v <=? Int.MaxInt64) = true.
Proof. intros H. unfold Int.MinInt64, Int.MaxInt64. apply andb_true_iff. split; apply Z.leb_le; lia. Qed.

(** A sum the comparison lets pass fits. *)
Lemma fgt_f64 n f :
  0 ≤ n < 2 ^ 53 → exact f = true → fgt (f64 n) f = false → n ≤ Z.max 0 (int64_of_f64 f).
Proof.
  intros Hn Hf Hgt. destruct n as [|n|n]; [lia| |lia]. rewrite f64_canon in Hgt by lia.
  destruct f as [sg|[]| |[] m e]; try done. apply exact_finite in Hf as (He & Hd & H53 & Hmin).
  unfold canon, fgt, SFltb in Hgt. cbn [SFcompare] in Hgt.
  pose proof (canon_mantissa n (proj1 (digits_small n) (proj2 Hn))) as HK.
  destruct (digits_bounds n) as (? & _ & Hn2). destruct (digits_bounds m) as (? & Hm1 & Hm2).
  assert (Hle : Z.pos n * 2 ^ (- e) ≤ Z.pos m).
  { destruct (Z.compare_spec e (digits n - 53)) as [E|E|E]; [|done|].
    - replace (- e) with (53 - digits n) by lia. set (K := Z.pos n * _) in *.
      rewrite compare_pos in Hgt.
      destruct (Pos.compare_spec m (Z.to_pos K)); try done; lia.
    - rewrite H53 in Hm1 by lia. transitivity (2 ^ digits n * 2 ^ (- e)); [nia|].
      rewrite <- Z.pow_add_r by lia. transitivity (2 ^ 52); [|done]. apply Z.pow_le_mono_r; lia. }
  pose proof (Z.pow_le_mono_r 2 (digits m) 53). cbn [int64_of_f64].
  destruct (Z.leb_spec 0 e).
  - assert (e = 0) as -> by lia. rewrite Z.pow_0_r, Z.mul_1_r, in_range in * by lia. cbn in Hle. lia.
  - pose proof (Z.pow_pos_nonneg 2 (- e)).
    assert (Hq : Z.pos n ≤ Z.pos m / 2 ^ (- e)) by (apply Z.div_le_lower_bound; lia).
    assert (Z.pos m / 2 ^ (- e) ≤ Z.pos m) by (apply Z.div_le_upper_bound; nia).
    rewrite in_range by lia. lia.
Qed.

Lemma huge_fgt f g : exact f = true → huge g → fgt g f = true.
Proof.
  intros Hf Hg. destruct f as [sg|[]| |[] m e]; try done;
    destruct Hg as [-> |(k & x & -> & _ & Hx)]; try done.
  apply exact_finite in Hf as (He & _). unfold fgt, SFltb. cbn [SFcompare].
  by rewrite (proj2 (Z.compare_lt_iff _ _)) by lia.
Qed.

Lemma exact_bound f : exact f = true → Z.max 0 (int64_of_f64 f) < 2 ^ 53.
Proof.
  destruct f as [sg|[]| |[] m e]; try done.
  - intros _. cbn [int64_of_f64]. unfold Int.MinInt64. destruct (0 <=? e); case_match; try lia;
      enough (0 ≤ Z.pos m * 2 ^ e ∧ 0 ≤ Z.pos m / 2 ^ (- e)) by lia;
      (split; [pose proof (Z.pow_nonneg 2 e); nia|apply Z_div_nonneg_nonneg; [lia|by apply Z.pow_nonneg]]).
  - intros (He & Hd & _)%exact_finite. destruct (digits_bounds m) as (? & _ & Hm).
    pose proof (Z.pow_le_mono_r 2 (digits m) 53). cbn [int64_of_f64]. unfold Int.MinInt64.
    assert ((if 0 <=? e then Z.pos m * 2 ^ e else Z.pos m / 2 ^ (- e)) ≤ Z.pos m).
    { destruct (Z.leb_spec 0 e); [assert (e = 0) as -> by lia; lia|].
      pose proof (Z.pow_pos_nonneg 2 (- e)). apply Z.div_le_upper_bound; nia. }
    set (v := if 0 <=? e then _ else _) in *. destruct (_ && _); lia.
Qed.

(** What an accepted sum says of whole numbers. *)
Lemma accepted_sum a b f :
  0 ≤ a ≤ Z.max 0 (int64_of_f64 f) → 0 ≤ b → exact f = true →
  fgt (fadd (f64 a) (f64 b)) f = false → a + b ≤ Z.max 0 (int64_of_f64 f).
Proof.
  intros Ha Hb Hf Hgt. pose proof (exact_bound f Hf).
  pose proof (fadd_whole a b ltac:(lia) Hb) as H'. case_decide.
  - rewrite H' in Hgt. by apply fgt_f64; [lia|..].
  - by rewrite (huge_fgt f _ Hf H') in Hgt.
Qed.

End Float64.
