(* ===== verification/Admission.v ===== *)
(** Admission (internal/runtime/admission.go) and the request resolution of
    [Manager.CreateVM] (internal/runtime/manager.go): the capacity the host offers
    and the proof that reservations never exceed it.

    [float64] arithmetic is that of [Float64]. *)

From S2P Require Import Prelude Events Store RunStore VmStore StoreRules Registry History.
From S2P Require Import Float64.
From Stdlib Require Import SpecFloat.
Import Float64 Events Sql Store Log Runs Vms Rules Registry History.

Local Open Scope Z_scope.

Module Admission.

(** * Configuration and capacity *)

(** [config.Admission], the fields admission reads. *)
Record Config := mkConfig {
  AllowMemoryOvercommit : bool;
  CPUOvercommitRatio : spec_float;
  ReserveHostCPUCores : Z;
  ReserveHostMemoryMinMiB : Z;
  ReserveHostMemoryFraction : spec_float;
  ReservePerVMHostOverheadMiB : Z;
  ReserveInspectionSlots : Z;
  ReserveInspectorMemoryMiB : Z;
  ReserveInspectorCPUCores : Z;
  ReserveInspectorScratchMiB : Z
}.

Record HostResources := mkHost {
  TotalMemoryMiB : Z;
  CPUCores : Z;
  StateDiskFreeMiB : Z
}.

Record DiskObservation := mkObservation { FreeMiB : Z; MaterializedMiB : Z }.

Record Policy := mkPolicy {
  pAdmission : Config;
  pHost : HostResources;
  pObserveDisk : option (list DiskReservation → result string DiskObservation)
}.

Definition UsableMemoryMiB (p : Policy) : Z :=
  let c := pAdmission p in
  let fraction := int64_of_f64
    (fmul (f64 (TotalMemoryMiB (pHost p))) (ReserveHostMemoryFraction c)) in
  let hostReserve := if ReserveHostMemoryMinMiB c <? fraction
                     then fraction else ReserveHostMemoryMinMiB c in
  let inspectorReserve := Int.i64 (ReserveInspectorMemoryMiB c * ReserveInspectionSlots c) in
  let usable := Int.i64 (Int.i64 (TotalMemoryMiB (pHost p) - hostReserve) - inspectorReserve) in
  if usable <? 0 then 0 else usable.

Definition UsableVCPU (p : Policy) : spec_float :=
  let c := pAdmission p in
  let raw := fsub (fsub (f64 (CPUCores (pHost p))) (f64 (ReserveHostCPUCores c)))
               (fmul (f64 (ReserveInspectorCPUCores c)) (f64 (ReserveInspectionSlots c))) in
  let raw := if SFltb raw (f64 0) then f64 0 else raw in
  fmul raw (CPUOvercommitRatio c).

Definition UsableDiskMiB (p : Policy) : Z :=
  let usable := Int.i64 (StateDiskFreeMiB (pHost p)
                         - ReserveInspectorScratchMiB (pAdmission p)) in
  if usable <? 0 then 0 else usable.

Definition DiskCapacity (p : Policy) (t : ReservationTotals) : result string Z :=
  match pObserveDisk p with
  | None => Ok (UsableDiskMiB p)
  | Some observe =>
    match observe (Disks t) with
    | Err e => Err ("observe disk capacity: " +:+ e)
    | Ok o =>
      if (FreeMiB o <? 0) || (MaterializedMiB o <? 0) || (DiskMiB t <? MaterializedMiB o)
      then Err "invalid disk capacity observation"
      else Ok (Int.i64 (Int.i64 (FreeMiB o - ReserveInspectorScratchMiB (pAdmission p))
                        + MaterializedMiB o))
    end
  end.

(** [Admit]: [None] when the VM fits. The messages name the exhausted dimension;
    the numbers they quote are left out. *)
Definition insufficient (dim : string) : option AdmitErr :=
  Some (Refused (mkRefusal "insufficient_capacity" dim)).

Definition Admit (p : Policy) (t : ReservationTotals) (mem vcpu disk : Z) : option AdmitErr :=
  if negb (AllowMemoryOvercommit (pAdmission p)) &&
     (UsableMemoryMiB p <? Int.i64 (MemoryMiB t + mem))
  then insufficient "memory"
  else if fgt (fadd (f64 (VCPU t)) (f64 vcpu)) (UsableVCPU p)
  then insufficient "cpu"
  else match DiskCapacity p t with
  | Err e => insufficient e
  | Ok usable =>
    if usable <? Int.i64 (DiskMiB t + disk) then insufficient "disk" else None
  end.

(** * The manager's requests *)

Record VMDefaults := mkDefaults {
  dVCPUCount : Z;
  dMemoryMiB : Z;
  dRootDiskMiB : Z;
  dWorkspaceDiskMiB : Z;
  dNetworkProfile : string;
  dNetworkPolicyID : string
}.

Record Template := mkTemplate { TemplateID : string; Digest : string }.

Record ManagerConfig := mkManagerConfig {
  mcTemplates : gmap string Template;
  mcDefaults : VMDefaults;
  mcPolicy : Policy
}.

Record CreateRequest := mkRequest {
  qTemplateID : string;
  qName : string;
  qVCPUCount : Z;
  qMemoryMiB : Z;
  qRootDiskMiB : Z;
  qWorkspaceDiskMiB : Z;
  qLabels : option (gmap string string);
  qIdempotencyKey : option string;
  qRun : option RunAttachment
}.

Inductive RequestErr :=
  | ErrInvalidRequest (reason : string)
  | ErrTemplateUnknown (requested : string).

Definition printable (c : Ascii.ascii) : bool := (32 <=? code c) && (code c <=? 126).

(** A value that is not positive stands for the configured default. *)
Definition orDefault (x d : Z) : Z := if x <=? 0 then d else x.

(** The request [Manager.CreateVM] makes of the store. [requestHash] is the SHA-256
    of the JSON of the effective request: template, name and the four sizes. *)
Definition planCreate (requestHash : string → string → Z → Z → Z → Z → string)
    (mc : ManagerConfig) (owner vmID : string) (req : CreateRequest)
    : result RequestErr CreateVMInput :=
  if (qTemplateID req =? "")%string then Err (ErrInvalidRequest "template_id is required") else
  match mcTemplates mc !! qTemplateID req with
  | None => Err (ErrTemplateUnknown (qTemplateID req))
  | Some tpl =>
    if (qName req =? "")%string then Err (ErrInvalidRequest "name is required")
    else if (128 <? String.length (qName req))%nat
    then Err (ErrInvalidRequest "name exceeds 128 bytes")
    else if negb (allChars printable (qName req))
    then Err (ErrInvalidRequest "name contains non-printable characters")
    else
      let d := mcDefaults mc in
      let vcpu := orDefault (qVCPUCount req) (dVCPUCount d) in
      let mem := orDefault (qMemoryMiB req) (dMemoryMiB d) in
      let root := orDefault (qRootDiskMiB req) (dRootDiskMiB d) in
      let ws := orDefault (qWorkspaceDiskMiB req) (dWorkspaceDiskMiB d) in
      if (vcpu <=? 0) || (mem <=? 0) || (root <=? 0) || (ws <=? 0)
      then Err (ErrInvalidRequest "resource values must be positive")
      else
        let memTotal := Int.i64
          (mem + ReservePerVMHostOverheadMiB (pAdmission (mcPolicy mc))) in
        let diskTotal := Int.i64 (root + ws) in
        Ok (mkCreateVM vmID (qName req) owner (TemplateID tpl) (Digest tpl)
              vcpu mem root ws memTotal (dNetworkProfile d) (dNetworkPolicyID d)
              (qLabels req) "vm.create" (qIdempotencyKey req)
              (requestHash (qTemplateID req) (qName req) vcpu mem root ws)
              (λ t, Admit (mcPolicy mc) t memTotal vcpu diskTotal) (qRun req))
  end.

(** The restart's admission, for what the reservation row holds. *)
Definition restartAdmit (p : Policy) (r : Reservation) (t : ReservationTotals) : option AdmitErr :=
  Admit p t (rMemoryTotalMiB r) (rVCPU r) 0.

(** * Sums of reservations *)

Section sums.
Context {A : Type} (w : A → Z).

Lemma sumZ_cons x l : sumZ w (x :: l) = w x + sumZ w l.
Proof. done. Qed.

Lemma sumZ_app l l' : sumZ w (l ++ l') = sumZ w l + sumZ w l'.
Proof.
  induction l as [|x l IH]; [done|].
  change ((x :: l) ++ l') with (x :: (l ++ l')). rewrite !sumZ_cons, IH. lia.
Qed.

Lemma update_cons q (f : A → A) x l :
  update q f (x :: l) = (if q x then f x else x) :: update q f l.
Proof. done. Qed.

Lemma sumZ_update_le q f l :
  (∀ r, r ∈ l → w (f r) ≤ w r) → sumZ w (update q f l) ≤ sumZ w l.
Proof.
  induction l as [|x l IH]; intros H; [done|].
  assert (Hx : w (f x) ≤ w x) by (apply H; left).
  assert (sumZ w (update q f l) ≤ sumZ w l) by (apply IH; intros r Hr; apply H; by right).
  rewrite update_cons, !sumZ_cons. destruct (q x); lia.
Qed.

(** An update of the one row a unique key selects. *)
Lemma sumZ_update_one {B} (c : A → B) q f l r :
  NoDup (c <$> l) → select1 q l = Some r → (∀ r', r' ∈ l → q r' = true → c r' = c r) →
  sumZ w (update q f l) = sumZ w l - w r + w (f r).
Proof.
  induction l as [|x l IH]; intros Hnd Hs Hc; [done|].
  csimpl in Hnd. apply NoDup_cons in Hnd as [Hx Hnd].
  change (select1 q (x :: l)) with (head (if q x then x :: List.filter q l
    else List.filter q l)) in Hs.
  rewrite update_cons, !sumZ_cons. destruct (q x) eqn:E.
  - injection Hs as ->. rewrite update_id; [lia|].
    intros y Hy. apply not_true_iff_false. intros Hq.
    apply Hx. rewrite <- (Hc y); [by apply list_elem_of_fmap_2|by right|done].
  - rewrite IH; [lia|done..|]. intros r' Hr' Hq. apply Hc; [by right|done].
Qed.

Lemma sumZ_filter q l : sumZ w (List.filter q l) = sumZ (λ r, if q r then w r else 0) l.
Proof.
  induction l as [|x l IH]; [done|].
  change (sumZ (λ r, if q r then w r else 0) (x :: l))
    with ((if q x then w x else 0) + sumZ (λ r, if q r then w r else 0) l).
  rewrite <- IH. cbn [List.filter]. destruct (q x); [by rewrite sumZ_cons|lia].
Qed.

Lemma sumZ_nonneg l : (∀ r, r ∈ l → 0 ≤ w r) → 0 ≤ sumZ w l.
Proof.
  induction l as [|x l IH]; intros H; [done|]. rewrite sumZ_cons.
  assert (0 ≤ w x) by (apply H; left).
  assert (0 ≤ sumZ w l) by (apply IH; intros r Hr; apply H; by right). lia.
Qed.

End sums.

(** What a row holds of each resource. *)
Definition held (f : Reservation → Z) (r : Reservation) : Z :=
  if rReleased r then 0 else if rComputeReleased r then 0 else f r.
Definition heldDisk (r : Reservation) : Z := if rReleased r then 0 else rDiskMiB r.

Definition memHeld (d : DB) : Z := sumZ (held rMemoryTotalMiB) (reservations d).
Definition cpuHeld (d : DB) : Z := sumZ (held rVCPU) (reservations d).
Definition diskHeld (d : DB) : Z := sumZ heldDisk (reservations d).

Lemma sumZ_ext {A} (f g : A → Z) l : (∀ x, f x = g x) → sumZ f l = sumZ g l.
Proof. intros H. induction l as [|x l IH]; [done|]. by rewrite !sumZ_cons, H, IH. Qed.

Lemma sumZ_ext_in {A} (f g : A → Z) l :
  (∀ x, x ∈ l → f x = g x) → sumZ f l = sumZ g l.
Proof.
  intros H. induction l as [|x l IH]; [done|]. rewrite !sumZ_cons, H by left.
  rewrite IH; [done|]. intros y Hy. apply H. by right.
Qed.

Lemma totals_held d t :
  reservationTotals (reservations d) = Some t →
  MemoryMiB t = memHeld d ∧ VCPU t = cpuHeld d ∧ DiskMiB t = diskHeld d.
Proof.
  unfold reservationTotals. case_match; [|done]. intros [= <-]. cbn [MemoryMiB VCPU DiskMiB].
  unfold memHeld, cpuHeld, diskHeld, select. rewrite !sumZ_filter.
  split_and!; apply sumZ_ext; intros r; unfold held, heldDisk, computeOf, live;
    by destruct (rReleased r).
Qed.

(** * Capacity is never exceeded *)

Definition room : Z := 2 ^ 62.

(** A policy whose capacities leave room for one more request below the 64-bit
    limit, and for which per-VM overhead is a cost. *)
Definition sane (p : Policy) : Prop :=
  UsableMemoryMiB p < room ∧ UsableDiskMiB p < room ∧
  0 ≤ ReservePerVMHostOverheadMiB (pAdmission p).

(** The operations the manager makes under a policy: creates come from its
    request resolution, with sizes below the limit; a restart asks for what the
    VM's reservation row holds. Members of batches are admitted with their batch,
    not on their own. *)
Definition governed (p : Policy) (o : Op) (s : Store) : Prop :=
  match o with
  | OCreateVM inp => ∃ rh mc owner vm req, mcPolicy mc = p ∧
      planCreate rh mc owner vm req = Ok inp ∧
      iMemoryMiB inp + ReservePerVMHostOverheadMiB (pAdmission p) < room ∧
      iRootDiskMiB inp + iWorkspaceDiskMiB inp < room
  | OTransitionVM inp => nAcquireCompute inp = true → ∃ r,
      select1 (byReservation (nVMID inp)) (reservations (db s)) = Some r ∧
      nAdmit inp = Some (restartAdmit p r)
  | OMember _ => False
  | _ => True
  end.

Inductive gsteps (hash : Envelope → string) (p : Policy) : Store → list Op → Store → Prop :=
  | gsteps_nil s : gsteps hash p s [] s
  | gsteps_cons s o s1 os s2 : governed p o s → step hash s o s1 →
      gsteps hash p s1 os s2 → gsteps hash p s (o :: os) s2.

(** The whole vCPUs that may be held. *)
Definition vcpuLimit (p : Policy) : Z := Z.max 0 (int64_of_f64 (UsableVCPU p)).

Record within (p : Policy) (d : DB) : Prop := mkWithin {
  w_keys : NoDup (rVMID <$> reservations d);
  w_nonneg : ∀ r, r ∈ reservations d →
    0 ≤ rMemoryTotalMiB r < room ∧ 0 ≤ rVCPU r ∧ 0 ≤ rDiskMiB r < room;
  w_memory : AllowMemoryOvercommit (pAdmission p) = false → memHeld d ≤ UsableMemoryMiB p;
  w_cpu : exact (UsableVCPU p) = true → cpuHeld d ≤ vcpuLimit p;
  w_disk : pObserveDisk p = None → diskHeld d ≤ UsableDiskMiB p
}.

Lemma usable_nonneg p : 0 ≤ UsableMemoryMiB p ∧ 0 ≤ UsableDiskMiB p.
Proof. unfold UsableMemoryMiB, UsableDiskMiB. cbv zeta. split; case_match; lia. Qed.

Lemma held_nonneg f r : 0 ≤ f r → 0 ≤ held f r ≤ f r.
Proof. unfold held. intros. repeat case_match; lia. Qed.

(** What an admission that says yes has checked. *)
Lemma Admit_None p t mem vcpu disk :
  Admit p t mem vcpu disk = None →
  (AllowMemoryOvercommit (pAdmission p) = false →
     Int.i64 (MemoryMiB t + mem) ≤ UsableMemoryMiB p) ∧
  fgt (fadd (f64 (VCPU t)) (f64 vcpu)) (UsableVCPU p) = false ∧
  (pObserveDisk p = None → Int.i64 (DiskMiB t + disk) ≤ UsableDiskMiB p).
Proof.
  unfold Admit, insufficient, DiskCapacity. intros H. split_and!.
  - intros E. rewrite E in H. cbn [negb andb] in H.
    destruct (UsableMemoryMiB p <? _) eqn:Hm; [done|]. by apply Z.ltb_ge in Hm.
  - destruct (_ && _); [done|]. by destruct (fgt _ _).
  - intros E. rewrite E in H. destruct (_ && _); [done|]. destruct (fgt _ _); [done|].
    destruct (UsableDiskMiB p <? _) eqn:Hd; [done|]. by apply Z.ltb_ge in Hd.
Qed.

(** Rows that hold no more than before keep the capacity. *)
Lemma within_shrink p d d' :
  within p d → rVMID <$> reservations d' = rVMID <$> reservations d →
  (∀ r', r' ∈ reservations d' → ∃ r, r ∈ reservations d ∧
     rMemoryTotalMiB r' = rMemoryTotalMiB r ∧ rVCPU r' = rVCPU r ∧ rDiskMiB r' = rDiskMiB r) →
  memHeld d' ≤ memHeld d → 0 ≤ cpuHeld d' ≤ cpuHeld d → diskHeld d' ≤ diskHeld d →
  within p d'.
Proof.
  intros [W1 W2 W3 W4 W5] Hk Hr Hm Hc Hd. split.
  - by rewrite Hk.
  - intros r' Hr'. destruct (Hr r' Hr') as (r & Hin & -> & -> & ->). by apply W2.
  - intros E. specialize (W3 E). lia.
  - intros E. specialize (W4 E). lia.
  - intros E. specialize (W5 E). lia.
Qed.

(** ** Reservations under each operation *)

Definition sameRes (d d' : DB) : Prop := reservations d' = reservations d.
#[local] Instance sameRes_preorder : PreOrder sameRes.
Proof. split; [done|]. intros d1 d2 d3 H1 H2. unfold sameRes in *. congruence. Qed.
#[local] Instance sameRes_blind : LogBlind sameRes.
Proof. split; done. Qed.

Definition reserves (o : Op) : bool :=
  match o with OCreateVM _ | OTransitionVM _ | ORelease _ | OMember _ => true | _ => false end.

Section step.
Context (hash : Envelope → string).

Lemma res_quiet e o s : reserves o = false → sameRes (db s) (db (exec hash e o s)).
Proof.
  assert (Hk : ∀ A (m : M A), keeps sameRes m → sameRes (db s) (db (m s).2)).
  { intros A m Hm. destruct (m s) as [r s'] eqn:E. by apply Hm in E. }
  destruct o; intros Hq; try done; cbn [exec]; apply Hk.
  - apply keeps_Append; apply _.
  - unfold UpdateOperation, scanOperationInTx.
    repeat first [keeps_step|apply keeps_modify; done].
  - unfold InsertActionOperation, insertOperation.
    repeat first [keeps_step|apply keeps_modify; done].
  - unfold CreateRun, lookupRunByIdempotencyKey, GetRun, insertRun, scanRunInTx, bumpVM.
    repeat first [keeps_step|apply keeps_modify; done].
  - unfold TransitionRun, scanRunInTx, bumpVM.
    repeat first [keeps_step|apply keeps_modify; done].
  - unfold SubmitRunProgress, GetRun, bumpVM.
    repeat first [keeps_step|apply keeps_modify; done].
  - unfold SubmitRunResult, GetRun, scanRunInTx, bumpVM.
    repeat first [keeps_step|apply keeps_modify; done].
  - unfold PutRunReport. repeat first [keeps_step|apply keeps_modify; done].
  - unfold recordVMStatement. repeat first [keeps_step|apply keeps_modify; done].
  - unfold recordBatchOp, insertOperation, scanOperationInTx.
    repeat first [keeps_step|apply keeps_modify; done].
  - repeat keeps_step.
  - unfold InsertReportOperation, insertOperation.
    repeat first [keeps_step|apply keeps_modify; done].
Qed.

Lemma res_granted e inp s :
  reservations (db (granted hash e inp s)) = reservations (db s) ++ [newReservation e inp].
Proof.
  assert (Hb : ∀ x i s0, reservations (db (on (bumped x i) s0)) = reservations (db s0)) by done.
  assert (Hu : ∀ f s0, reservations (db (on (set_runs f) s0)) = reservations (db s0)) by done.
  unfold granted, ranRun. cbv zeta.
  by destruct (iRun inp); rewrite ?Hb, ?Hu, ?reservations_emitted, ?Hb, ?reservations_emitted.
Qed.

Lemma res_moved e inp cur s :
  reservations (db (moved hash e inp cur s)) = reservations (updateReservation e inp (db s)).
Proof.
  assert (Hb : ∀ x i s0, reservations (db (on (bumped x i) s0)) = reservations (db s0)) by done.
  unfold moved. cbv zeta. destruct (nTo inp =? "deleted")%string;
    rewrite ?reservations_emitted, ?Hb, ?reservations_emitted; cbn [db on];
    unfold movedTables, updateReservation; repeat case_match; done.
Qed.

(** Releasing a row, or its compute, holds no more than before. *)
Lemma within_release p d q f :
  within p d → (∀ r, rVMID (f r) = rVMID r ∧ rMemoryTotalMiB (f r) = rMemoryTotalMiB r ∧
    rVCPU (f r) = rVCPU r ∧ rDiskMiB (f r) = rDiskMiB r) →
  (∀ r, rComputeReleased (f r) = true ∧ (rReleased r = true → rReleased (f r) = true)) →
  within p (set_reservations (update q f) d).
Proof.
  intros W Hf Hrel. pose proof W as [_ W2 _ _ _].
  assert (Hh : ∀ g r, r ∈ reservations d → 0 ≤ g r → held g (f r) ≤ held g r).
  { intros g r Hr Hg. destruct (Hrel r) as [E _]. unfold held at 1. rewrite E.
    pose proof (held_nonneg g r Hg). case_match; lia. }
  apply (within_shrink p d); [done|..]; cbn [reservations set_reservations].
  - apply fmap_update. intros r _. apply Hf.
  - intros r' (r & Hr & ->)%elem_of_update. exists r. split; [done|].
    destruct (q r); [apply Hf|done].
  - unfold memHeld. cbn. apply sumZ_update_le. intros r Hr. apply Hh; [done|]. by apply W2.
  - unfold cpuHeld. cbn. split.
    + apply sumZ_nonneg. intros r' (r & Hr & ->)%elem_of_update.
      assert (0 ≤ rVCPU r) by by apply W2.
      apply held_nonneg. destruct (q r); [|done]. by destruct (Hf r) as (_ & _ & -> & _).
    + apply sumZ_update_le. intros r Hr. apply Hh; [done|]. by apply W2.
  - unfold diskHeld. cbn. apply sumZ_update_le. intros r Hr. unfold heldDisk.
    destruct (Hf r) as (_ & _ & _ & ->). destruct (Hrel r) as [_ Hl].
    assert (0 ≤ rDiskMiB r) by by apply W2. destruct (rReleased r); [by rewrite Hl|].
    case_match; lia.
Qed.

Lemma planCreate_Ok rh mc owner vm req inp :
  planCreate rh mc owner vm req = Ok inp →
  0 < iVCPUCount inp ∧ 0 < iMemoryMiB inp ∧ 0 < iRootDiskMiB inp ∧ 0 < iWorkspaceDiskMiB inp ∧
  iMemoryTotalMiB inp =
    Int.i64 (iMemoryMiB inp + ReservePerVMHostOverheadMiB (pAdmission (mcPolicy mc))) ∧
  ∀ t, iAdmit inp t = Admit (mcPolicy mc) t (iMemoryTotalMiB inp) (iVCPUCount inp)
         (Int.i64 (iRootDiskMiB inp + iWorkspaceDiskMiB inp)).
Proof.
  unfold planCreate. intros H. destruct (String.eqb _ _); [done|].
  destruct (_ !! _); [|done]. destruct (String.eqb _ _); [done|].
  destruct (_ <? _)%nat; [done|]. destruct (negb _); [done|].
  cbv zeta in H. destruct (_ || _) eqn:E; [done|]. injection H as <-.
  rewrite !orb_false_iff, !Z.leb_gt in E. cbn. split_and!; try lia; done.
Qed.

(** Rows added under one admission for all they hold. *)
Lemma within_append p d d' news t :
  sane p → within p d → reservationTotals (reservations d) = Some t →
  reservations d' = reservations d ++ news → NoDup (rVMID <$> reservations d') →
  (∀ r, r ∈ news → rReleased r = false ∧ rComputeReleased r = false ∧
    0 ≤ rMemoryTotalMiB r < room ∧ 0 ≤ rVCPU r ∧ 0 ≤ rDiskMiB r < room) →
  sumZ rMemoryTotalMiB news < room → sumZ rDiskMiB news < room →
  Admit p t (sumZ rMemoryTotalMiB news) (sumZ rVCPU news) (sumZ rDiskMiB news) = None →
  within p d'.
Proof.
  intros (S1 & S2 & S3) [W1 W2 W3 W4 W5] Ht Hd Hnd Hn Hm Hk Ha.
  destruct (totals_held _ _ Ht) as (Em & Ec & Ed).
  destruct (Admit_None _ _ _ _ _ Ha) as (A1 & A2 & A3).
  assert (Hheld : ∀ f, sumZ (held f) news = sumZ f news).
  { intros f. apply sumZ_ext_in. intros r Hr. destruct (Hn r Hr) as (E1 & E2 & _).
    unfold held. by rewrite E1, E2. }
  assert (Hdisk : sumZ heldDisk news = sumZ rDiskMiB news).
  { apply sumZ_ext_in. intros r Hr. destruct (Hn r Hr) as (E1 & _). unfold heldDisk. by rewrite E1. }
  assert (Hmh : 0 ≤ memHeld d).
  { apply sumZ_nonneg. intros r Hr. apply held_nonneg. by apply W2. }
  assert (Hdh : 0 ≤ diskHeld d).
  { apply sumZ_nonneg. intros r Hr. unfold heldDisk. destruct (W2 r Hr) as (_ & _ & ?).
    case_match; lia. }
  assert (0 ≤ sumZ rMemoryTotalMiB news) by (apply sumZ_nonneg; naive_solver).
  assert (0 ≤ sumZ rDiskMiB news) by (apply sumZ_nonneg; naive_solver).
  assert (Hch : 0 ≤ cpuHeld d) by (apply sumZ_nonneg; intros r Hr; apply held_nonneg; by apply W2).
  assert (Hcn : 0 ≤ sumZ rVCPU news) by (apply sumZ_nonneg; naive_solver).
  split; [done|..]; unfold memHeld, cpuHeld, diskHeld in *; rewrite Hd.
  - intros r [Hr|Hr]%elem_of_app; [by apply W2|]. by apply Hn.
  - intros E. rewrite sumZ_app, Hheld. specialize (A1 E). specialize (W3 E).
    rewrite Em, Int.i64_small in A1 by (unfold room in *; lia). lia.
  - intros E. rewrite sumZ_app, Hheld. rewrite Ec in A2. specialize (W4 E).
    by apply accepted_sum.
  - intros E. rewrite sumZ_app, Hdisk. specialize (A3 E). specialize (W5 E).
    rewrite Ed, Int.i64_small in A3 by (unfold room in *; lia). lia.
Qed.

Lemma nodup_res_granted e inp s :
  NoDup (rVMID <$> reservations (db s)) →
  select1 (byReservation (iVMID inp)) (reservations (db s)) = None →
  NoDup (rVMID <$> reservations (db (granted hash e inp s))).
Proof.
  intros Hnd Hn. rewrite res_granted, fmap_app. apply NoDup_app.
  split_and!; [done| |apply NoDup_singleton].
  intros x (r & -> & Hr)%list_elem_of_fmap E%list_elem_of_singleton.
  apply (proj1 (select1_None _ _) Hn) in Hr. unfold byReservation in Hr.
  rewrite E in Hr. cbn in Hr. by rewrite String.eqb_refl in Hr.
Qed.

(** One VM, admitted for what its reservation will hold. *)
Lemma within_admitted p e inp s t :
  sane p → within p (db s) → 0 ≤ iMemoryTotalMiB inp < room → 0 ≤ iVCPUCount inp →
  0 ≤ Int.i64 (iRootDiskMiB inp + iWorkspaceDiskMiB inp) < room →
  reservationTotals (reservations (db s)) = Some t →
  Admit p t (iMemoryTotalMiB inp) (iVCPUCount inp)
    (Int.i64 (iRootDiskMiB inp + iWorkspaceDiskMiB inp)) = None →
  select1 (byReservation (iVMID inp)) (reservations (db s)) = None →
  within p (db (granted hash e inp s)).
Proof.
  intros Hs W Hm Hc Hd Ht Ha Hn.
  apply (within_append p (db s) _ [newReservation e inp] t); try done.
  - apply res_granted.
  - apply nodup_res_granted; [apply W|done].
  - intros r ->%list_elem_of_singleton. done.
  - cbn. lia.
  - cbn. lia.
  - cbn. by rewrite !Z.add_0_r.
Qed.

Lemma within_granted p e inp s t :
  sane p → within p (db s) → governed p (OCreateVM inp) s →
  reservationTotals (reservations (db s)) = Some t → iAdmit inp t = None →
  select1 (byReservation (iVMID inp)) (reservations (db s)) = None →
  within p (db (granted hash e inp s)).
Proof.
  intros Hs W Hg Ht Ha Hn.
  destruct Hg as (rh & mc & owner & vm & req & <- & Hp & Hm & Hd).
  destruct (planCreate_Ok _ _ _ _ _ _ Hp) as (P1 & P2 & P3 & P4 & P5 & P6).
  rewrite P6 in Ha. pose proof Hs as (_ & _ & S3).
  apply (within_admitted _ e inp s t); try done; [|lia|].
  - rewrite P5, Int.i64_small by (unfold room in *; lia). lia.
  - rewrite Int.i64_small by (unfold room in *; lia). lia.
Qed.

Lemma within_acquire p e vm s r t :
  sane p → within p (db s) →
  select1 (byReservation vm) (reservations (db s)) = Some r →
  reservationTotals (reservations (db s)) = Some t → restartAdmit p r t = None →
  within p (set_reservations (update (byReservation vm) (setComputeReleased e false)) (db s)).
Proof.
  intros (S1 & S2 & S3) W Hs Ht Ha. pose proof W as [W1 W2 W3 W4 W5].
  destruct (totals_held _ _ Ht) as (Em & Ec & Ed).
  destruct (Admit_None _ _ _ _ _ Ha) as (A1 & A2 & A3).
  pose proof (select1_Some _ _ _ Hs) as [Hr Hb].
  destruct (W2 r Hr) as (R1 & R2 & R3).
  assert (Hone : ∀ w, sumZ w (update (byReservation vm) (setComputeReleased e false)
      (reservations (db s))) =
    sumZ w (reservations (db s)) - w r + w (setComputeReleased e false r)).
  { intros w. apply (sumZ_update_one w rVMID); [done..|].
    intros r' _ E%String.eqb_eq. apply String.eqb_eq in Hb. congruence. }
  assert (Hmh : 0 ≤ memHeld (db s)).
  { apply sumZ_nonneg. intros x Hx. apply held_nonneg. by apply W2. }
  assert (Hch : 0 ≤ cpuHeld (db s)).
  { apply sumZ_nonneg. intros x Hx. apply held_nonneg. by apply W2. }
  assert (Hg : ∀ g, 0 ≤ g r → g (setComputeReleased e false r) = g r →
    held g (setComputeReleased e false r) - held g r ≤ g r).
  { intros g Hg0 Hgs. unfold held at 1.
    change (rReleased (setComputeReleased e false r)) with (rReleased r).
    change (rComputeReleased (setComputeReleased e false r)) with false. rewrite Hgs.
    pose proof (held_nonneg g r Hg0). unfold held. repeat case_match; lia. }
  split; unfold memHeld, cpuHeld, diskHeld; cbn [reservations set_reservations].
  - by rewrite fmap_update.
  - intros r' (x & Hx & ->)%elem_of_update. specialize (W2 x Hx). by destruct (byReservation vm x).
  - intros E. rewrite Hone. fold (memHeld (db s)).
    specialize (A1 E). specialize (W3 E). rewrite Em, Int.i64_small in A1 by (unfold room in *; lia).
    pose proof (Hg rMemoryTotalMiB ltac:(lia) eq_refl). lia.
  - intros E. rewrite Hone. fold (cpuHeld (db s)). pose proof (Hg rVCPU ltac:(lia) eq_refl).
    rewrite Ec in A2. specialize (W4 E). unfold vcpuLimit in *.
    pose proof (accepted_sum (cpuHeld (db s)) (rVCPU r) (UsableVCPU p) ltac:(lia) R2 E A2). lia.
  - intros E. rewrite Hone. fold (diskHeld (db s)).
    change (heldDisk (setComputeReleased e false r)) with (heldDisk r). specialize (W5 E). lia.
Qed.

Lemma within_same p d d' : reservations d' = reservations d → within p d → within p d'.
Proof.
  intros E [W1 W2 W3 W4 W5]. unfold memHeld, cpuHeld, diskHeld in *.
  by split; unfold memHeld, cpuHeld, diskHeld; rewrite E.
Qed.

Lemma acquire_checked inp d cur :
  transitionCheck inp d = Ok cur → nAcquireCompute inp = true →
  ∃ adm t, nAdmit inp = Some adm ∧ reservationTotals (reservations d) = Some t ∧
    adm t = None.
Proof.
  unfold transitionCheck. intros H E. rewrite E in H.
  repeat case_match; simplify_eq; eauto.
Qed.

Lemma within_step p s o s' :
  sane p → governed p o s → step hash s o s' → log_ok hash s →
  within p (db s) → within p (db s').
Proof.
  intros Hsane Hg Hst Hl W. destruct Hst as [e o' s0 Hr Hlg].
  destruct (reserves o') eqn:Hq; [|by eapply within_same; [apply res_quiet|]].
  destruct o' as [|inp|inp| | | | | | | | |vm| | | | | | |]; try done; cbn [exec].
  - destruct (CreateVMWithOperation hash e inp s0) as [[out|err] s1] eqn:E; cbn [snd];
      [|apply CreateVM_Err in E; by rewrite E].
    apply CreateVM_Ok in E as [[-> _]|(t & Ht & [(r & _ & E)|(Ha & E)])]; [done|..|done|done].
    + apply createRefused_Ok in E as (op & _ & -> & _); [|done|by eapply ready_le; [|exact Hr]].
      eapply within_same; [|done]. unfold refused. cbv zeta. by rewrite reservations_emitted.
    + apply createGranted_Ok in E as (v & op & _ & -> & _ & _ & _ & Hn & _); [|done..].
      eapply within_granted; [exact Hsane|exact W|exact Hg|exact Ht|exact Ha|exact Hn].
  - rewrite TransitionVM_eq by (done || by eapply ready_le; [|exact Hr]).
    destruct (transitionCheck inp (db s0)) as [cur|err] eqn:Hc; cbn [snd]; [|done].
    eapply within_same; [apply res_moved|]. unfold updateReservation.
    destruct (nReleaseAll inp); [by apply within_release|].
    destruct (nReleaseCompute inp); [by apply within_release|].
    destruct (nAcquireCompute inp) eqn:Hacq; [|done].
    destruct (acquire_checked _ _ _ Hc Hacq) as (adm & t & Hadm & Ht & Hok).
    destruct (Hg Hacq) as (r & Hs & Hadm'). simplify_eq.
    by eapply within_acquire.
  - by apply within_release.
Qed.

Lemma within_gsteps p s os s' :
  sane p → gsteps hash p s os s' → log_ok hash s → within p (db s) → within p (db s').
Proof.
  intros Hsane. induction 1 as [s|s o s1 os s2 Hg Hs _ IH]; intros Hl W; [done|].
  apply IH; [by eapply step_log|by eapply within_step].
Qed.

Lemma within_empty p inst : within p (db (Open inst emptyDB)).
Proof.
  destruct (usable_nonneg p). split; cbn; try done; [constructor| |].
  - by intros r ?%elem_of_nil.
  - intros _. unfold vcpuLimit. lia.
Qed.

End step.

(** Admission never oversubscribes the host. Under a policy that forbids
    memory overcommit, in any execution in which creates come from the manager's
    request resolution and restarts ask for what the VM's reservation row holds,
    interleaved in any way with every other store operation, refusal, deletion
    and controller restart: the memory held by unreleased reservations stays
    within [UsableMemoryMiB]; the vCPUs held stay within [UsableVCPU], when that is a
    number below 2^53; and, when disk capacity is the one measured at
    startup, the disk held stays within [UsableDiskMiB]. No sum wraps around. *)
Theorem never_oversubscribed hash inst p os s :
  sane p → gsteps hash p (Open inst emptyDB) os s →
  (AllowMemoryOvercommit (pAdmission p) = false → 0 ≤ memHeld (db s) ≤ UsableMemoryMiB p) ∧
  (exact (UsableVCPU p) = true → 0 ≤ cpuHeld (db s) ≤ vcpuLimit p) ∧
  (pObserveDisk p = None → 0 ≤ diskHeld (db s) ≤ UsableDiskMiB p).
Proof.
  intros Hs H.
  destruct (within_gsteps hash p _ _ _ Hs H (log_ok_empty hash inst) (within_empty p inst))
    as [_ W2 W3 W4 W5].
  split_and!.
  - intros E. split; [|by apply W3]. apply sumZ_nonneg. intros r Hr. apply held_nonneg.
    by apply W2.
  - intros E. split; [|by apply W4]. apply sumZ_nonneg. intros r Hr. apply held_nonneg.
    by apply W2.
  - intros E. split; [|by apply W5]. apply sumZ_nonneg. intros r Hr. unfold heldDisk.
    destruct (W2 r Hr) as (_ & _ & ?). case_match; lia.
Qed.

(** A host of 8192 MiB with 10 per cent held back, four cores, one create that
    fits and one that does not. *)
Definition exPolicy : Policy :=
  mkPolicy (mkConfig false (f64 2) 1 512 (S754_finite false 7205759403792794 (-56)) 128 1 256 1 1024)
    (mkHost 8192 4 20000) None.
Definition exManager : ManagerConfig :=
  mkManagerConfig {["tpl" := mkTemplate "tpl" "sha256:00"]}
    (mkDefaults 2 4096 4096 1024 "default" "open") exPolicy.
Definition exRequest : CreateRequest := mkRequest "tpl" "web" 0 0 0 0 None None None.
Definition exVM2 : string := "55555555-5555-4555-8555-555555555555".

Definition exPlan (vm : string) : CreateVMInput :=
  mkCreateVM vm "web" "alice" "tpl" "sha256:00" 2 4096 4096 1024 4224 "default" "open" None
    "vm.create" None "h" (λ t, Admit exPolicy t 4224 2 5120) None.

Definition exGrants : list (Env * Op) :=
  [(exEnv "", OCreateVM (exPlan exVM)); (exEnv "", OCreateVM (exPlan exVM2))].

Definition exHost : Store :=
  default (Open exInst emptyDB) (run exHash exGrants (Open exInst emptyDB)).

Lemma exGrants_governed vm s : governed exPolicy (OCreateVM (exPlan vm)) s.
Proof.
  exists (λ _ _ _ _ _ _, "h"), exManager, "alice", vm, exRequest.
  split_and!; reflexivity.
Qed.

Lemma exHost_gsteps : gsteps exHash exPolicy (Open exInst emptyDB) exGrants.*2 exHost.
Proof.
  assert (H : ∀ l s s', (∀ e o, (e, o) ∈ l → ∀ s, governed exPolicy o s) →
    run exHash l s = Some s' → gsteps exHash exPolicy s l.*2 s').
  { intros l. induction l as [|[e o] l IH]; intros s s' Hl; simpl.
    - intros [= <-]. constructor.
    - case_match eqn:E; [|done]. intros Hr. apply andb_true_iff in E as [? ?].
      econstructor; [eapply Hl; left| |apply IH; [|done]].
      + constructor; [by apply readyb_spec|by apply legalb_spec].
      + intros e' o' Hin. eapply Hl. by right. }
  apply H; [|vm_compute; reflexivity].
  intros e o Hin s. unfold exGrants in Hin.
  rewrite !elem_of_cons, elem_of_nil in Hin. destruct_or! Hin; simplify_eq;
    apply exGrants_governed.
Qed.

Lemma never_oversubscribed_witness :
  UsableMemoryMiB exPolicy = 7117 ∧ memHeld (db exHost) = 4224 ∧
  (oPhase <$> rows (operations (db exHost))) = ["admitted"; "admission"] ∧
  0 ≤ memHeld (db exHost) ≤ UsableMemoryMiB exPolicy.
Proof.
  split; [vm_compute; reflexivity|]. split; [vm_compute; reflexivity|].
  split; [vm_compute; reflexivity|].
  refine (proj1 (never_oversubscribed exHash exInst exPolicy exGrants.*2 exHost _ exHost_gsteps)
    eq_refl).
  split; [vm_compute; reflexivity|split; vm_compute; [reflexivity|discriminate]].
Defined.

End Admission.
