(* ===== verification/BatchStore.v ===== *)
(** Batches of VMs in the store (internal/store/batches.go): the two tables, the
    transaction that records a batch in either reservation mode, its idempotency
    key, and reading a batch back. *)

From S2P Require Import Prelude Events Store RunStore VmStore StoreRules Registry.
Import Events Sql Store Log Runs Vms Rules Registry.

Local Open Scope Z_scope.

Module Batches.

(** * Data *)

Record Batch := mkBatch {
  bBatchID : Z;
  bOwner : string;
  bIdempotencyKey : option string;
  bRequestHash : string;
  bReservationMode : string;
  bOnFailure : string;
  bBatchOpID : option Z;
  bCreatedAt : string;
  bUpdatedAt : string
}.

(** A row of [vm_batch_members]. *)
Record MemberRow := mkMemberRow {
  mBatchID : Z;
  mPosition : nat;
  mName : string;
  mVMID : option string;
  mOperationID : option Z;
  mRefusalCause : option string;
  mRefusalMessage : option string
}.

Record BatchMemberInput := mkMemberInput {
  kName : string;
  kVMID : string;
  kTemplateID : string;
  kTemplateDigest : string;
  kVCPUCount : Z;
  kMemoryMiB : Z;
  kRootDiskMiB : Z;
  kWorkspaceDiskMiB : Z;
  kMemoryTotalMiB : Z;
  kNetworkProfile : string;
  kNetworkPolicyID : string;
  kLabels : option (gmap string string);
  kRun : option RunAttachment
}.

Record BatchMemberResult := mkMemberResult {
  rPosition : nat;
  rName : string;
  rVM : option VM;
  rOperation : option Operation;
  rRefusalCause : option string;
  rRefusalMessage : option string
}.

(** The callbacks are nil when the mode does not call them. *)
Record CreateVMBatchInput := mkCreateBatch {
  gOwner : string;
  gIdempotencyKey : option string;
  gRequestHash : string;
  gReservationMode : string;
  gOnFailure : string;
  gMembers : list BatchMemberInput;
  gAdmitBatch : option (ReservationTotals → option AdmitErr);
  gAdmitMember : option (ReservationTotals → Z → Z → Z → option AdmitErr)
}.

Record CreateVMBatchResult := mkBatchResult {
  zBatch : Batch;
  zBatchOp : option Operation;
  zMembers : list BatchMemberResult;
  zIsReplay : bool
}.

(** * The store with its batch tables *)

Record BStore := mkBStore {
  base : Store;
  vm_batches : table Batch;
  vm_batch_members : list MemberRow
}.

Inductive BatchErr :=
  | BErr (e : StoreErr)
  | ErrBatchUnknown
  | ErrUnknownMode (mode : string)
  | ErrNilCallback.

Definition B (A : Type) := BStore → result BatchErr A * BStore.

#[export] Instance B_ret : MRet B := λ A a x, (Ok a, x).
#[export] Instance B_bind : MBind B := λ A C f m x,
  match m x with
  | (Ok a, x') => f a x'
  | (Err e, x') => (Err e, x')
  end.

Definition bthrow {A} (e : BatchErr) : B A := λ x, (Err e, x).
Definition bgets {A} (f : BStore → A) : B A := λ x, (Ok (f x), x).
Definition bsome {A} (o : option A) (e : BatchErr) : B A :=
  match o with Some a => mret a | None => bthrow e end.
Definition bensure (b : bool) (e : BatchErr) : B unit := if b then mret () else bthrow e.
Definition bmodify (f : BStore → BStore) : B unit := λ x, (Ok tt, f x).

(** A statement on the other tables. *)
Definition lift {A} (m : M A) : B A := λ x,
  match m (base x) with
  | (Ok a, s) => (Ok a, mkBStore s (vm_batches x) (vm_batch_members x))
  | (Err e, s) => (Err (BErr e), mkBStore s (vm_batches x) (vm_batch_members x))
  end.

(** The store an aborted transaction leaves: the tables it found, and the
    sequence numbers it took. *)
Definition rolledBack (x x' : BStore) : BStore :=
  mkBStore (mkStore (instanceID (base x')) (systemSeq (base x')) (db (base x)))
    (vm_batches x) (vm_batch_members x).

Definition binTx {A} (m : B A) : B A := λ x,
  match m x with
  | (Ok a, x') => (Ok a, x')
  | (Err e, x') => (Err e, rolledBack x x')
  end.

(** * Statements *)

Definition set_batches (f : table Batch → table Batch) (x : BStore) : BStore :=
  mkBStore (base x) (f (vm_batches x)) (vm_batch_members x).
Definition set_members (f : list MemberRow → list MemberRow) (x : BStore) : BStore :=
  mkBStore (base x) (vm_batches x) (f (vm_batch_members x)).

Definition batchKey (owner key : string) (b : Batch) : bool :=
  (bOwner b =? owner)%string &&
  match bIdempotencyKey b with Some k => (k =? key)%string | None => false end.
Definition byBatchID (id : Z) (b : Batch) : bool := bBatchID b =? id.
Definition ofBatch (id : Z) (r : MemberRow) : bool := mBatchID r =? id.
Definition memberKey (id : Z) (pos : nat) (r : MemberRow) : bool :=
  (mBatchID r =? id) && (mPosition r =? pos)%nat.

(** [INSERT INTO vm_batches]: the partial unique index on the key. *)
Definition insertBatch (mk : Z → Batch) : B Z :=
  t ← bgets vm_batches;
  id ← bsome (nextID t) (BErr ErrFull);
  _ ← bensure (negb (match bIdempotencyKey (mk id) with
                     | Some k => exists_ (batchKey (bOwner (mk id)) k) (rows t)
                     | None => false end)) (BErr (ErrConstraint "vm_batches.idempotency_key"));
  _ ← bmodify (set_batches (insertRow id (mk id)));
  mret id.

(** [INSERT INTO vm_batch_members]: the primary key. *)
Definition insertMember (r : MemberRow) : B unit :=
  t ← bgets vm_batch_members;
  _ ← bensure (negb (exists_ (memberKey (mBatchID r) (mPosition r)) t))
        (BErr (ErrConstraint "vm_batch_members"));
  bmodify (set_members (λ t, t ++ [r])).

Definition setBatchOpID (op : Z) (b : Batch) : Batch :=
  mkBatch (bBatchID b) (bOwner b) (bIdempotencyKey b) (bRequestHash b) (bReservationMode b)
    (bOnFailure b) (Some op) (bCreatedAt b) (bUpdatedAt b).

(** * Members *)

Section ops.
Context (hash : Envelope → string).

(** The member as the single create that mirrors it: kind [vm.create], no key, no
    hash, and no admission of its own. *)
Definition memberInput (owner : string) (m : BatchMemberInput) : CreateVMInput :=
  mkCreateVM (kVMID m) (kName m) owner (kTemplateID m) (kTemplateDigest m) (kVCPUCount m)
    (kMemoryMiB m) (kRootDiskMiB m) (kWorkspaceDiskMiB m) (kMemoryTotalMiB m)
    (kNetworkProfile m) (kNetworkPolicyID m) (kLabels m) "vm.create" None "" (λ _, None)
    (kRun m).

Definition insertOneMember (e : Env) (batchID : Z) (pos : nat) (owner : string)
    (m : BatchMemberInput) : B BatchMemberResult :=
  let inp := memberInput owner m in
  _ ← lift (insertVM (newVM e inp));
  op ← lift (insertOperation (admittedOp e inp));
  _ ← lift (insertReservation (newReservation e inp));
  created ← lift (emit hash e "vm.created" (vmCreatedData inp op));
  _ ← lift (bumpVM (kVMID m) created);
  _ ← lift (emit hash e "operation.state_changed"
        (opData op "vm.create" (kVMID m) "admitted" "running"));
  _ ← (match kRun m with
       | None => mret ()
       | Some a => lift (createRunInTx hash e
           (mkCreateRun (kVMID m) owner (aGoal a) (aCriteriaType a)
              (aOnCompletion a) (aProgressEvents a) None "" "pending"))
       end);
  _ ← insertMember (mkMemberRow batchID pos (kName m) (Some (kVMID m)) (Some op) None None);
  vm ← lift (scanVMInTx (kVMID m));
  o ← lift (scanOperationInTx op);
  mret (mkMemberResult pos (kName m) (Some vm) (Some o) None None).

(** A refused member: its row carries the refusal, and nothing else is created. *)
Definition insertRefused (batchID : Z) (pos : nat) (m : BatchMemberInput) (r : AdmissionRefusal)
    : B BatchMemberResult :=
  _ ← insertMember (mkMemberRow batchID pos (kName m) None None
        (Some (Cause r)) (Some (Message r)));
  mret (mkMemberResult pos (kName m) None None (Some (Cause r)) (Some (Message r))).

(** The environments of the members, by position. *)
Context (es : nat → Env).

Fixpoint insertAdmittedMembers (batchID : Z) (owner : string) (pos : nat)
    (ms : list BatchMemberInput) : B (list BatchMemberResult) :=
  match ms with
  | [] => mret []
  | m :: ms =>
    r ← insertOneMember (es pos) batchID pos owner m;
    rs ← insertAdmittedMembers batchID owner (S pos) ms;
    mret (r :: rs)
  end.

Fixpoint refuseMembers (batchID : Z) (r : AdmissionRefusal) (pos : nat)
    (ms : list BatchMemberInput) : B (list BatchMemberResult) :=
  match ms with
  | [] => mret []
  | m :: ms =>
    x ← insertRefused batchID pos m r;
    xs ← refuseMembers batchID r (S pos) ms;
    mret (x :: xs)
  end.

(** What the processing of the members returns: their results, the state of the
    batch's operation, and the refusal it carries. *)
Definition Processed : Type := list BatchMemberResult * string * option AdmissionRefusal.

Definition processAtomicBatch (batchID : Z) (inp : CreateVMBatchInput) : B Processed :=
  totals ← lift reservationTotalsInTx;
  admitFn ← bsome (gAdmitBatch inp) ErrNilCallback;
  match admitFn totals with
  | Some (AdmitInternal msg) => bthrow (BErr (ErrAdmission (AdmitInternal msg)))
  | Some (Refused r) =>
    rs ← refuseMembers batchID r 0 (gMembers inp);
    mret (rs, "failed", Some r)
  | None =>
    rs ← insertAdmittedMembers batchID (gOwner inp) 0 (gMembers inp);
    mret (rs, "running", None)
  end.

(** The loop of a best-effort batch, with its variables [anyAdmitted] and
    [lastRefusal]. *)
Fixpoint bestEffortLoop (batchID : Z) (owner : string)
    (admitFn : option (ReservationTotals → Z → Z → Z → option AdmitErr)) (pos : nat)
    (ms : list BatchMemberInput) (anyAdmitted : bool) (lastRefusal : option AdmissionRefusal)
    : B (list BatchMemberResult * bool * option AdmissionRefusal) :=
  match ms with
  | [] => mret ([], anyAdmitted, lastRefusal)
  | m :: ms =>
    totals ← lift reservationTotalsInTx;
    adm ← bsome admitFn ErrNilCallback;
    match adm totals (kMemoryTotalMiB m) (kVCPUCount m)
            (Int.i64 (kRootDiskMiB m + kWorkspaceDiskMiB m)) with
    | Some (AdmitInternal msg) => bthrow (BErr (ErrAdmission (AdmitInternal msg)))
    | Some (Refused r) =>
      x ← insertRefused batchID pos m r;
      '(xs, any, last) ← bestEffortLoop batchID owner admitFn (S pos) ms anyAdmitted (Some r);
      mret (x :: xs, any, last)
    | None =>
      x ← insertOneMember (es pos) batchID pos owner m;
      '(xs, any, last) ← bestEffortLoop batchID owner admitFn (S pos) ms true lastRefusal;
      mret (x :: xs, any, last)
    end
  end.

Definition processBestEffortBatch (batchID : Z) (inp : CreateVMBatchInput) : B Processed :=
  '(rs, any, last) ← bestEffortLoop batchID (gOwner inp) (gAdmitMember inp) 0 (gMembers inp)
                       false None;
  mret (if any : bool then (rs, "running", None) else (rs, "failed", last)).

(** * Reading *)

Definition getBatchRow (batchID : Z) : B Batch :=
  t ← bgets vm_batches;
  bsome (select1 (byBatchID batchID) (rows t)) ErrBatchUnknown.

(** A row whose VM or operation is gone shows neither. *)
Definition readMember (r : MemberRow) : B BatchMemberResult :=
  vm ← (match mVMID r with
        | None => mret None
        | Some v => bgets (λ x, select1 (byVMID v) (rows (vms (db (base x)))))
        end);
  op ← (match mOperationID r with
        | None => mret None
        | Some o => bgets (λ x, select1 (byOperationID o) (rows (operations (db (base x)))))
        end);
  mret (mkMemberResult (mPosition r) (mName r) vm op (mRefusalCause r) (mRefusalMessage r)).

Fixpoint readMembers (rs : list MemberRow) : B (list BatchMemberResult) :=
  match rs with
  | [] => mret []
  | r :: rs => x ← readMember r; xs ← readMembers rs; mret (x :: xs)
  end.

Definition position_le (a b : MemberRow) : Prop := (mPosition a ≤ mPosition b)%nat.
#[export] Instance position_le_dec a b : Decision (position_le a b).
Proof. unfold position_le. apply _. Defined.

Definition readBatchOp (batch : Batch) : B (option Operation) :=
  match bBatchOpID batch with
  | None => mret None
  | Some o => op ← lift (GetOperation o); mret (Some op)
  end.

Definition GetVMBatch (batchID : Z) : B CreateVMBatchResult :=
  batch ← getBatchRow batchID;
  batchOp ← readBatchOp batch;
  rs ← bgets (λ x, merge_sort position_le (select (ofBatch batchID) (vm_batch_members x)));
  members ← readMembers rs;
  mret (mkBatchResult batch batchOp members false).

Definition asReplay (z : CreateVMBatchResult) : CreateVMBatchResult :=
  mkBatchResult (zBatch z) (zBatchOp z) (zMembers z) true.

Definition lookupBatch (owner key requestHash : string) : B (option CreateVMBatchResult) :=
  t ← bgets vm_batches;
  match select1 (batchKey owner key) (rows t) with
  | None => mret None
  | Some b =>
    _ ← bensure (bRequestHash b =? requestHash)%string (BErr ErrIdempotencyConflict);
    z ← GetVMBatch (bBatchID b);
    mret (Some z)
  end.

(** * Creation *)

Definition newBatch (e : Env) (inp : CreateVMBatchInput) (id : Z) : Batch :=
  mkBatch id (gOwner inp) (gIdempotencyKey inp) (gRequestHash inp) (gReservationMode inp)
    (gOnFailure inp) None (sqlNow e) (sqlNow e).

(** What the transaction decides: an earlier batch under the key, to be read after
    the rollback, or the new batch with its operation and members. *)
Inductive TxOutcome :=
  | ReplayOf (batchID : Z)
  | NewBatch (batchID : Z) (op : Operation) (members : list BatchMemberResult).

Definition batchInTx (e : Env) (inp : CreateVMBatchInput) : B TxOutcome :=
  t ← bgets vm_batches;
  existing ← mret (match gIdempotencyKey inp with
                   | Some k => select1 (batchKey (gOwner inp) k) (rows t)
                   | None => None
                   end);
  match existing with
  | Some b =>
    _ ← bensure (bRequestHash b =? gRequestHash inp)%string (BErr ErrIdempotencyConflict);
    mret (ReplayOf (bBatchID b))
  | None =>
    batchID ← insertBatch (newBatch e inp);
    '(members, state, refusal) ←
      (if (gReservationMode inp =? "atomic_reservation")%string
       then processAtomicBatch batchID inp
       else if (gReservationMode inp =? "best_effort")%string
       then processBestEffortBatch batchID inp
       else bthrow (ErrUnknownMode (gReservationMode inp)));
    let y := mkBatchOp (gOwner inp) (gIdempotencyKey inp) (gRequestHash inp) state refusal in
    op ← lift (insertOperation (newBatchOp e y));
    _ ← bmodify (set_batches (on_rows (update (byBatchID batchID) (setBatchOpID op))));
    _ ← lift (emit hash e "operation.state_changed" (batchOpData y op));
    o ← lift (scanOperationInTx op);
    mret (NewBatch batchID o members)
  end.

(** From the transaction on: the serialization point, and the reads behind it. *)
Definition finishBatch (e : Env) (inp : CreateVMBatchInput) : B CreateVMBatchResult :=
  out ← binTx (batchInTx e inp);
  match out with
  | ReplayOf id => z ← GetVMBatch id; mret (asReplay z)
  | NewBatch id o members =>
    b ← getBatchRow id;
    mret (mkBatchResult b (Some o) members false)
  end.

Definition CreateVMBatch (e : Env) (inp : CreateVMBatchInput) : B CreateVMBatchResult :=
  pre ← (match gIdempotencyKey inp with
         | Some k => lookupBatch (gOwner inp) k (gRequestHash inp)
         | None => mret None
         end);
  match pre with
  | Some z => mret (asReplay z)
  | None => finishBatch e inp
  end.

(** The write of a batch operation's final state. *)
Definition UpdateBatchOp (e : Env) (op : Z) (state cause message : string) : B unit :=
  _ ← lift (UpdateOperation hash e (mkOpUpdate op "complete" state ""
        (if (cause =? "")%string then None else Some cause)
        (if (cause =? "")%string then None else Some message)));
  mret tt.

End ops.
End Batches.
