(* ===== verification/BatchRules.v ===== *)
(** What the transaction of a batch does to the tables: member by member the
    creates it mirrors, then one operation; or nothing but sequence numbers. *)

From S2P Require Import Prelude Events Store RunStore VmStore StoreRules Registry History.
From S2P Require Import Idempotency BatchStore.
Import Events Sql Store Log Runs Vms Rules Registry History Idempotency Batches.

Local Open Scope Z_scope.

Module BatchRules.

(** * Reasoning in the monad *)

Lemma bbind_Ok {A C} (m : B A) (f : A → B C) x c x' :
  (m ≫= f) x = (Ok c, x') ↔ ∃ a x1, m x = (Ok a, x1) ∧ f a x1 = (Ok c, x').
Proof. unfold mbind, B_bind. destruct (m x) as [[a|e] x1]; naive_solver. Qed.

Lemma bret_Ok {A} (a b : A) x x' : (mret a : B A) x = (Ok b, x') ↔ a = b ∧ x = x'.
Proof. unfold mret, B_ret. naive_solver. Qed.
Lemma bthrow_Ok {A} e (a : A) x x' : bthrow e x = (Ok a, x') ↔ False.
Proof. unfold bthrow. naive_solver. Qed.
Lemma bgets_Ok {A} (f : BStore → A) a x x' : bgets f x = (Ok a, x') ↔ a = f x ∧ x = x'.
Proof. unfold bgets. naive_solver. Qed.
Lemma bsome_Ok {A} (o : option A) e a x x' : bsome o e x = (Ok a, x') ↔ o = Some a ∧ x = x'.
Proof. unfold bsome, mret, B_ret, bthrow. destruct o; naive_solver. Qed.
Lemma bensure_Ok b e u x x' : bensure b e x = (Ok u, x') ↔ b = true ∧ x = x'.
Proof. unfold bensure, mret, B_ret, bthrow. destruct b, u; naive_solver. Qed.
Lemma bmodify_Ok f u x x' : bmodify f x = (Ok u, x') ↔ x' = f x.
Proof. unfold bmodify. destruct u. naive_solver. Qed.

(** The same tables of batches over another store. *)
Definition over (s : Store) (x : BStore) : BStore :=
  mkBStore s (vm_batches x) (vm_batch_members x).

Lemma over_over s s' x : over s (over s' x) = over s x.
Proof. done. Qed.
Lemma over_base x : over (base x) x = x.
Proof. by destruct x. Qed.

Lemma lift_Ok {A} (m : M A) a x x' :
  lift m x = (Ok a, x') ↔ ∃ s, m (base x) = (Ok a, s) ∧ x' = over s x.
Proof. unfold lift. destruct (m (base x)) as [[a'|e] s]; naive_solver. Qed.

Lemma binTx_Ok {A} (m : B A) a x x' : binTx m x = (Ok a, x') ↔ m x = (Ok a, x').
Proof. unfold binTx. destruct (m x) as [[]]; naive_solver. Qed.

(** * Sequence numbers *)

Section rules.
Context (hash : Envelope → string).

(** [m] takes at most [n] sequence numbers and keeps the log in order. *)
Definition takes (n : Z) {A} (m : B A) : Prop :=
  ∀ x r x', m x = (r, x') → log_ok hash (base x) → systemSeq (base x) + n ≤ Int.MaxInt64 →
  grown hash n (λ _, True) (base x) (base x').

Lemma takes_id n {A} (m : B A) : 0 ≤ n → (∀ x, base (m x).2 = base x) → takes n m.
Proof.
  intros Hn H x r x' E Hl _. specialize (H x). rewrite E in H. cbn in H. rewrite H.
  by apply grown_refl.
Qed.

Lemma takes_bind n1 n2 {A C} (m : B A) (f : A → B C) :
  0 ≤ n2 → takes n1 m → (∀ a, takes n2 (f a)) → takes (n1 + n2) (m ≫= f).
Proof.
  intros H2 Hm Hf x r x' E Hl Hq. unfold mbind, B_bind in E.
  destruct (m x) as [r1 x1] eqn:E1. pose proof (Hm _ _ _ E1 Hl ltac:(lia)) as G1.
  destruct r1 as [a|e].
  - pose proof G1 as [Hl1 _ Hq1 _]. pose proof (Hf a _ _ _ E Hl1 ltac:(lia)).
    by eapply grown_trans.
  - simplify_eq. eapply grown_le; [|done]. lia.
Qed.

Lemma takes_le n n' {A} (m : B A) : n ≤ n' → takes n m → takes n' m.
Proof.
  intros Hn Hm x r x' E Hl Hq. eapply grown_le; [done|]. apply (Hm _ _ _ E Hl). lia.
Qed.

(** A bind whose first part takes none. *)
Lemma takes_bind0 n {A C} (m : B A) (f : A → B C) :
  0 ≤ n → takes 0 m → (∀ a, takes n (f a)) → takes n (m ≫= f).
Proof. intros. by apply (takes_bind 0 n). Qed.

Lemma takes_lift n {A} (m : M A) : logs hash n (λ _, True) m → takes n (lift m).
Proof.
  intros Hm x r x' E Hl Hq. unfold lift in E.
  destruct (m (base x)) as [[a|e] s] eqn:Em; simplify_eq; by apply (Hm _ _ _ Em).
Qed.

Lemma takes_insertMember r : takes 0 (insertMember r).
Proof.
  apply takes_id; [done|]. intros x.
  unfold insertMember, mbind, B_bind, bgets, bensure, mret, B_ret, bthrow, bmodify.
  by destruct (negb _).
Qed.

Lemma takes_insertBatch mk : takes 0 (insertBatch mk).
Proof.
  apply takes_id; [done|]. intros x.
  unfold insertBatch, mbind, B_bind, bgets, bsome, bensure, mret, B_ret, bthrow, bmodify.
  repeat (case_match; simplify_eq; try done).
Qed.

Lemma takes_refused b pos m r : takes 0 (insertRefused b pos m r).
Proof.
  apply takes_bind0; [done|apply takes_insertMember|]. intros. by apply takes_id.
Qed.

Local Ltac logs_any := repeat (match goal with
  | |- logs _ _ _ (insertOperation _) => apply logs_insertOperation; lia
  | |- logs _ _ _ (createRunInTx _ _ _) => apply logs_createRunInTx; [lia|done]
  | _ => logs_step end).

Local Ltac takes_none :=
  apply takes_bind0;
  [lia|first [apply takes_insertMember|apply takes_lift;
     unfold insertVM, insertReservation, bumpVM, scanVMInTx, scanOperationInTx;
     logs_any]|intros ?].

Lemma takes_member e b pos owner m : takes 4 (insertOneMember hash e b pos owner m).
Proof.
  unfold insertOneMember. cbv zeta. do 3 takes_none.
  change 4 with (1 + 3). apply takes_bind; [lia|apply takes_lift; logs_any|intros ?]. takes_none.
  change 3 with (1 + 2). apply takes_bind; [lia|apply takes_lift; logs_any|intros ?].
  apply (takes_le (1 + 0)); [lia|]. apply takes_bind; [done| |intros ?].
  - destruct (kRun m); [apply takes_lift; logs_any|by apply takes_id].
  - do 3 takes_none. by apply takes_id.
Qed.

Context (es : nat → Env).

Lemma takes_admitted b owner pos ms :
  takes (4 * Z.of_nat (length ms)) (insertAdmittedMembers hash es b owner pos ms).
Proof.
  revert pos. induction ms as [|m ms IH]; intros pos; [by apply takes_id|].
  cbn [insertAdmittedMembers length]. replace (4 * Z.of_nat (S (length ms)))
    with (4 + 4 * Z.of_nat (length ms)) by lia.
  apply takes_bind; [lia|apply takes_member|intros r].
  replace (4 * Z.of_nat (length ms)) with (4 * Z.of_nat (length ms) + 0) by lia.
  apply takes_bind; [done|apply IH|]. intros rs. by apply takes_id.
Qed.

Lemma takes_refuse b r pos ms : takes 0 (refuseMembers b r pos ms).
Proof.
  revert pos. induction ms as [|m ms IH]; intros pos; [by apply takes_id|].
  cbn [refuseMembers]. apply takes_bind0; [done|apply takes_refused|intros x].
  apply takes_bind0; [done|apply IH|]. intros. by apply takes_id.
Qed.

Lemma takes_totals : takes 0 (lift reservationTotalsInTx).
Proof. apply takes_lift. unfold reservationTotalsInTx. logs_any. Qed.

Lemma takes_bsome {A} (o : option A) e : takes 0 (bsome o e).
Proof. apply takes_id; [done|]. by destruct o. Qed.

Lemma takes_bestEffort b owner admitFn pos ms any last :
  takes (4 * Z.of_nat (length ms)) (bestEffortLoop hash es b owner admitFn pos ms any last).
Proof.
  revert pos any last. induction ms as [|m ms IH]; intros pos any last; [by apply takes_id|].
  cbn [bestEffortLoop length]. set (n := 4 * Z.of_nat (length ms)) in IH.
  replace (4 * Z.of_nat (S (length ms))) with (4 + (n + 0)) by lia.
  apply takes_bind0; [lia|apply takes_totals|intros t].
  apply takes_bind0; [lia|apply takes_bsome|intros adm].
  assert (Hk : ∀ any last (x : BatchMemberResult), takes (n + 0)
    ('(xs, any, last) ← bestEffortLoop hash es b owner admitFn (S pos) ms any last;
     mret (x :: xs, any, last))).
  { intros. apply takes_bind; [done|apply IH|]. intros [[xs ?] ?]. by apply takes_id. }
  destruct (adm _ _ _ _) as [[r|msg]|].
  - apply (takes_le (n + 0)); [lia|]. apply takes_bind0; [lia|apply takes_refused|]. intros. apply Hk.
  - apply takes_id; [lia|done].
  - apply takes_bind; [lia|apply takes_member|]. intros. apply Hk.
Qed.

Definition cost (inp : CreateVMBatchInput) : Z := 4 * Z.of_nat (S (length (gMembers inp))).

Lemma takes_process (inp : CreateVMBatchInput) b :
  takes (4 * Z.of_nat (length (gMembers inp)))
    (if (gReservationMode inp =? "atomic_reservation")%string
     then processAtomicBatch hash es b inp
     else if (gReservationMode inp =? "best_effort")%string
     then processBestEffortBatch hash es b inp
     else bthrow (ErrUnknownMode (gReservationMode inp))).
Proof.
  set (n := 4 * Z.of_nat _). assert (0 ≤ n) by lia. destruct (String.eqb _ _).
  { unfold processAtomicBatch. apply takes_bind0; [done|apply takes_totals|intros t].
    apply takes_bind0; [done|apply takes_bsome|intros adm].
    destruct (adm t) as [[r|msg]|].
    - apply (takes_le 0); [done|]. apply takes_bind0; [done|apply takes_refuse|].
      intros. by apply takes_id.
    - by apply takes_id.
    - replace n with (n + 0) by lia. apply takes_bind; [done|apply takes_admitted|].
      intros. by apply takes_id. }
  destruct (String.eqb _ _); [|by apply takes_id].
  unfold processBestEffortBatch. replace n with (n + 0) by lia.
  apply takes_bind; [done|apply takes_bestEffort|]. intros [[rs any] last]. by apply takes_id.
Qed.

Lemma takes_batchInTx e inp : takes (cost inp) (batchInTx hash es e inp).
Proof.
  unfold batchInTx, cost. set (n := Z.of_nat (S _)). assert (1 ≤ n) by lia.
  apply takes_bind0; [lia|by apply takes_id|intros t].
  apply takes_bind0; [lia|by apply takes_id|intros [b|]].
  { apply (takes_le 0); [lia|]. apply takes_bind0; [done| |intros; by apply takes_id].
    apply takes_id; [done|]. intros x. by destruct (String.eqb _ _). }
  apply takes_bind0; [lia|apply takes_insertBatch|intros id].
  replace (4 * n) with (4 * Z.of_nat (length (gMembers inp)) + 4) by lia.
  apply takes_bind; [lia|apply takes_process|intros [[rs st] rf]]. cbv zeta.
  apply takes_bind0; [lia|apply takes_lift; logs_any|intros op].
  apply takes_bind0; [lia|by apply takes_id|intros []].
  apply (takes_le (1 + 0)); [lia|]. apply takes_bind; [lia|apply takes_lift; logs_any|intros ?].
  takes_none. by apply takes_id.
Qed.

(** * Members *)

(** The row a member's result leaves. *)
Definition rowOf (b : Z) (r : BatchMemberResult) : MemberRow :=
  mkMemberRow b (rPosition r) (rName r) (vVMID <$> rVM r) (oOperationID <$> rOperation r)
    (rRefusalCause r) (rRefusalMessage r).

(** A member is admitted, with a VM and an operation, or refused, with neither. *)
Definition admittedAs (m : BatchMemberInput) (r : BatchMemberResult) (v : VM) (o : Operation)
    : Prop :=
  rVM r = Some v ∧ rOperation r = Some o ∧ vVMID v = kVMID m ∧
  rRefusalCause r = None ∧ rRefusalMessage r = None.
Definition refusedAs (r : BatchMemberResult) (f : AdmissionRefusal) : Prop :=
  rVM r = None ∧ rOperation r = None ∧
  rRefusalCause r = Some (Cause f) ∧ rRefusalMessage r = Some (Message f).

Definition outcome (m : BatchMemberInput) (r : BatchMemberResult) : Prop :=
  rName r = kName m ∧ ((∃ v o, admittedAs m r v o) ∨ ∃ f, refusedAs r f).

(** The creates that the admitted members of a batch amount to. *)
Definition memberOps (owner : string) (ms : list BatchMemberInput)
    (rs : list BatchMemberResult) : list Op :=
  (λ mr, OMember (memberInput owner mr.1)) <$>
    List.filter (λ mr, isSome (rVM mr.2)) (zip ms rs).

(** The VM and the operation of a result are in the tables. *)
Definition vmIDs (s : Store) : list string := vVMID <$> rows (vms (db s)).
Definition opIDs (s : Store) : list Z := oOperationID <$> rows (operations (db s)).
Definition held (s : Store) (r : BatchMemberResult) : Prop :=
  (∀ v, rVM r = Some v → vVMID v ∈ vmIDs s) ∧
  (∀ o, rOperation r = Some o → oOperationID o ∈ opIDs s).

Record persists (s s' : Store) : Prop := mkPersists {
  pe_vms v : v ∈ vmIDs s → v ∈ vmIDs s';
  pe_ops o : o ∈ opIDs s → o ∈ opIDs s'
}.

Lemma steps_persists s os s' : keyed_ok hash s → steps hash s os s' → persists s s'.
Proof.
  intros Hk H. split.
  - intros v (x & -> & Hx)%list_elem_of_fmap.
    destruct (steps_desc hash _ _ _ x H (ko_inv _ _ Hk) Hx) as (x' & Hx' & n & E & _).
    rewrite <- E. by apply list_elem_of_fmap_2.
  - destruct (keyed_steps hash _ _ _ H Hk) as [_ (tl & E)].
    assert (Hs : ∀ s0, opIDs s0 = sigID <$> opsigs (db s0))
      by (intros; unfold opIDs, opsigs; by rewrite <- list_fmap_compose).
    intros o. rewrite !Hs, E, fmap_app, elem_of_app. by left.
Qed.

Lemma held_persists s s' r : persists s s' → held s r → held s' r.
Proof. intros [Hv Ho] [H1 H2]. split; naive_solver. Qed.

Record ran (b : Z) (owner : string) (pos : nat) (ms : list BatchMemberInput)
    (rs : list BatchMemberResult) (x x' : BStore) : Prop := mkRan {
  ran_steps : steps hash (base x) (memberOps owner ms rs) (base x');
  ran_keyed : keyed_ok hash (base x');
  ran_held : Forall (held (base x')) rs;
  ran_ready n e : ready (4 * Z.of_nat (length ms) + n) e (base x) → ready n e (base x');
  ran_batches : vm_batches x' = vm_batches x;
  ran_rows : vm_batch_members x' = vm_batch_members x ++ (rowOf b <$> rs);
  ran_outcomes : Forall2 outcome ms rs;
  ran_positions : rPosition <$> rs = List.seq pos (length ms)
}.

Lemma ready_bumped n e vm id s : ready n e s → ready n e (on (bumped vm id) s).
Proof. apply ready_on. reflexivity. Qed.
Lemma ready_runs n e f s : ready n e s → ready n e (on (set_runs f) s).
Proof. apply ready_on. reflexivity. Qed.
Lemma ready_tables n e e' inp s : ready n e s → ready n e (on (grantedTables e' inp) s).
Proof. apply ready_on. reflexivity. Qed.

Lemma ready_granted n e e' inp s : ready (n + 4) e' s → ready n e' (granted hash e inp s).
Proof.
  intros Hr. assert (Hr' : ready (n + 1 + 1 + 1) e' s) by (eapply ready_le; [|exact Hr]; lia).
  assert (ready (n + 1) e' (emitted hash HostObserved e "operation.state_changed"
    (opData (seq (operations (db s)) + 1) (iKind inp) (iVMID inp) "admitted" "running")
    (on (bumped (iVMID inp) (seq (events (db s)) + 1))
      (emitted hash HostObserved e "vm.created" (vmCreatedData inp (seq (operations (db s)) + 1))
        (on (grantedTables e inp) s))))) as H4
    by by apply ready_emitted, ready_bumped, ready_emitted, ready_tables.
  unfold granted, ranRun. cbv zeta. destruct (iRun inp).
  - by apply ready_bumped, ready_runs, ready_emitted.
  - eapply ready_le; [|exact H4]. lia.
Qed.

Lemma insertMember_Ok r x u x' :
  insertMember r x = (Ok u, x') → x' = set_members (λ t, t ++ [r]) x.
Proof.
  unfold insertMember. intros (t & x1 & [-> <-]%bgets_Ok & H)%bbind_Ok.
  apply bbind_Ok in H as (? & ? & [_ <-]%bensure_Ok & H). by apply bmodify_Ok in H.
Qed.

(** One member is the admitted branch of a create, and its row. *)
Lemma insertOneMember_Ok e b pos owner m x r x' :
  insertOneMember hash e b pos owner m x = (Ok r, x') →
  ∃ v o, createGranted hash e (memberInput owner m) (base x) = (Ok (Created v o), base x') ∧
    r = mkMemberResult pos (kName m) (Some v) (Some o) None None ∧ vVMID v = kVMID m ∧
    x' = set_members (λ t, t ++ [rowOf b r]) (over (base x') x).
Proof.
  unfold insertOneMember. cbv zeta.
  intros (? & ? & (s1 & E1 & ->)%lift_Ok & H)%bbind_Ok.
  apply bbind_Ok in H as (op & ? & (s2 & E2 & ->)%lift_Ok & H).
  apply bbind_Ok in H as (? & ? & (s3 & E3 & ->)%lift_Ok & H).
  apply bbind_Ok in H as (c & ? & (s4 & E4 & ->)%lift_Ok & H).
  apply bbind_Ok in H as (? & ? & (s5 & E5 & ->)%lift_Ok & H).
  apply bbind_Ok in H as (? & ? & (s6 & E6 & ->)%lift_Ok & H).
  cbn [base over] in *. rewrite !over_over in H.
  apply bbind_Ok in H as (u7 & x7 & E7 & H).
  assert (∃ s7, x7 = over s7 x ∧ (match kRun m with
       | None => mret ()
       | Some a => createRunInTx hash e (attached (memberInput owner m) a)
       end : M unit) s6 = (Ok (), s7)) as (s7 & -> & E7').
  { destruct (kRun m) as [a|].
    - apply lift_Ok in E7 as (s7 & E7 & ->). exists s7. split; [done|]. by destruct u7.
    - apply bret_Ok in E7 as [_ <-]. by exists s6. }
  clear E7. apply bbind_Ok in H as (? & x8 & ->%insertMember_Ok & H).
  apply bbind_Ok in H as (v & ? & (s9 & E9 & ->)%lift_Ok & H). cbn [base over set_members] in E9.
  apply bbind_Ok in H as (o & ? & (s10 & E10 & ->)%lift_Ok & H). cbn [base over set_members] in E10.
  apply bret_Ok in H as [<- <-]. exists v, o. cbn [base over].
  assert (s9 = s7 ∧ vVMID v = kVMID m) as [-> Hv].
  { unfold scanVMInTx in E9. m_inv. split; [done|].
    match goal with H : select1 _ _ = Some v |- _ => apply select1_Some in H as [_ H] end.
    by apply String.eqb_eq. }
  assert (s10 = s7 ∧ oOperationID o = op) as [-> Ho].
  { unfold scanOperationInTx in E10. m_inv. split; [done|].
    match goal with H : select1 _ _ = Some o |- _ => apply select1_Some in H as [_ H] end.
    by apply Z.eqb_eq. }
  split_and!; [|done|done|].
  - unfold createGranted.
    rewrite (bind_eq _ _ _ _ _ E1), (bind_eq _ _ _ _ _ E2), (bind_eq _ _ _ _ _ E3),
      (bind_eq _ _ _ _ _ E4), (bind_eq _ _ _ _ _ E5), (bind_eq _ _ _ _ _ E6).
    change (iRun (memberInput owner m)) with (kRun m). rewrite (bind_eq _ _ _ _ _ E7').
    by rewrite (bind_eq _ _ _ _ _ E9), (bind_eq _ _ _ _ _ E10).
  - unfold set_members, over, rowOf. cbn. by rewrite Hv, Ho.
Qed.

Lemma ran_nil b owner pos x : keyed_ok hash (base x) → ran b owner pos [] [] x x.
Proof.
  intros Hl. split; [constructor|done|constructor| |done|by rewrite app_nil_r|constructor|done].
  intros n e Hr. by eapply ready_le; [|exact Hr].
Qed.

Lemma ready_rest n k e s : ready (4 * Z.of_nat (S k) + n) e s → ready (4 * Z.of_nat k + n + 4) e s.
Proof. intros H. eapply ready_le; [|exact H]. lia. Qed.

Lemma member_after e b pos owner m x r x1 :
  keyed_ok hash (base x) → ready 4 e (base x) →
  insertOneMember hash e b pos owner m x = (Ok r, x1) →
  keyed_ok hash (base x1) ∧ held (base x1) r ∧ step hash (base x) (OMember (memberInput owner m)) (base x1) ∧
  ∀ n e', ready (n + 4) e' (base x) → ready n e' (base x1).
Proof.
  intros Hl Hr H. apply insertOneMember_Ok in H as (v & o & Hc & -> & _).
  assert (Hst : step hash (base x) (OMember (memberInput owner m)) (base x1)).
  { replace (base x1) with (exec hash e (OMember (memberInput owner m)) (base x));
      [by constructor|]. cbn [exec]. unfold inTx. by rewrite Hc. }
  split_and!; [by eapply keyed_step| |done|].
  - apply createGranted_Ok in Hc as (? & ? & [= <- <-] & _ & Hv & Ho & _); [|apply Hl|done].
    apply select1_Some in Hv as [Hv _]. apply select1_Some in Ho as [Ho _].
    split; intros ? [= <-]; by apply list_elem_of_fmap_2.
  - intros n e' Hn. apply createGranted_Ok in Hc as (? & ? & _ & -> & _); [|apply Hl|done].
    by apply ready_granted.
Qed.

(** An admitted member, then the others. *)
Lemma ran_admitted b owner pos m ms r rs e x x1 x' :
  keyed_ok hash (base x) → ready 4 e (base x) →
  insertOneMember hash e b pos owner m x = (Ok r, x1) →
  ran b owner (S pos) ms rs x1 x' → ran b owner pos (m :: ms) (r :: rs) x x'.
Proof.
  intros Hl Hr H [Rs Rl Rh Rr Rb Rm Ro Rp].
  destruct (member_after _ _ _ _ _ _ _ _ Hl Hr H) as (Hk1 & Hh & Hst & Hn).
  assert (Hp : persists (base x1) (base x')) by by eapply steps_persists.
  apply insertOneMember_Ok in H as (v & o & _ & -> & Hv & Hx).
  rewrite Hx in Rb, Rm. cbn in Rb, Rm. split; try done.
  - unfold memberOps. cbn. by econstructor.
  - constructor; [by eapply held_persists|done].
  - intros n e' Hn'. by apply Rr, Hn, ready_rest.
  - by rewrite Rm, <- app_assoc.
  - constructor; [|done]. split; [done|]. left. by exists v, o.
  - cbn. by rewrite Rp.
Qed.

(** A refused member, then the others. *)
Lemma insertRefused_Ok b pos m f x r x1 :
  insertRefused b pos m f x = (Ok r, x1) →
  r = mkMemberResult pos (kName m) None None (Some (Cause f)) (Some (Message f)) ∧
  x1 = set_members (λ t, t ++ [rowOf b r]) x.
Proof. by intros (? & ? & ->%insertMember_Ok & [<- <-]%bret_Ok)%bbind_Ok. Qed.

Lemma ran_refused b owner pos m ms f r rs x x1 x' :
  insertRefused b pos m f x = (Ok r, x1) →
  ran b owner (S pos) ms rs x1 x' → ran b owner pos (m :: ms) (r :: rs) x x'.
Proof.
  intros [-> ->]%insertRefused_Ok [Rs Rl Rh Rr Rb Rm Ro Rp]. cbn in Rs, Rb, Rm. split; try done.
  - by constructor.
  - intros n e' Hn. apply Rr. eapply ready_le; [|exact Hn]. cbn [length]. lia.
  - by rewrite Rm, <- app_assoc.
  - constructor; [|done]. split; [done|]. right. by exists f.
  - cbn. by rewrite Rp.
Qed.

(** The members' environments are good for [n] members. *)
Definition allReady (n : nat) (s : Store) : Prop := ∀ i, ready (4 * Z.of_nat n) (es i) s.

Lemma allReady_one n i s : allReady (S n) s → ready 4 (es i) s.
Proof. intros H. eapply ready_le; [|apply (H i)]. lia. Qed.
Lemma allReady_next n s s' :
  (∀ m e, ready (m + 4) e s → ready m e s') → allReady (S n) s → allReady n s'.
Proof. intros Hn H i. apply Hn. eapply ready_le; [|apply (H i)]. lia. Qed.
Lemma allReady_rest n s : allReady (S n) s → allReady n s.
Proof. intros H i. eapply ready_le; [|apply (H i)]. lia. Qed.

Lemma insertAdmitted_ran b owner pos ms rs x x' :
  keyed_ok hash (base x) → allReady (length ms) (base x) →
  insertAdmittedMembers hash es b owner pos ms x = (Ok rs, x') →
  ran b owner pos ms rs x x' ∧ Forall (λ r, isSome (rVM r) = true) rs.
Proof.
  revert pos rs x. induction ms as [|m ms IH]; intros pos rs x Hl Hr.
  { intros [<- <-]%bret_Ok. split; [by apply ran_nil|constructor]. }
  cbn [insertAdmittedMembers]. intros (r & x1 & H1 & H)%bbind_Ok.
  apply bbind_Ok in H as (rs' & x2 & H2 & [<- <-]%bret_Ok).
  pose proof (allReady_one _ pos _ Hr) as Hr4.
  destruct (member_after _ _ _ _ _ _ _ _ Hl Hr4 H1) as (Hl1 & _ & _ & Hn).
  destruct (IH _ _ _ Hl1 (allReady_next _ _ _ Hn Hr) H2) as [Hran Hall].
  split; [by eapply ran_admitted|]. constructor; [|done].
  by apply insertOneMember_Ok in H1 as (? & ? & _ & -> & _).
Qed.

Lemma refuse_ran b owner f pos ms rs x x' :
  keyed_ok hash (base x) → refuseMembers b f pos ms x = (Ok rs, x') →
  ran b owner pos ms rs x x' ∧ Forall (λ r, refusedAs r f) rs.
Proof.
  revert pos rs x. induction ms as [|m ms IH]; intros pos rs x Hl.
  { intros [<- <-]%bret_Ok. split; [by apply ran_nil|constructor]. }
  cbn [refuseMembers]. intros (r & x1 & H1 & H)%bbind_Ok.
  apply bbind_Ok in H as (rs' & x2 & H2 & [<- <-]%bret_Ok).
  pose proof H1 as [Hr1 Hx1]%insertRefused_Ok.
  assert (Hl1 : keyed_ok hash (base x1)) by by rewrite Hx1.
  destruct (IH _ _ _ Hl1 H2) as [Hran Hall]. split; [by eapply ran_refused|].
  constructor; [|done]. by rewrite Hr1.
Qed.

Lemma totals_state x t x' :
  lift reservationTotalsInTx x = (Ok t, x') →
  x' = x ∧ reservationTotals (reservations (db (base x))) = Some t.
Proof.
  intros (s & H & ->)%lift_Ok. unfold reservationTotalsInTx in H. m_inv.
  by rewrite over_base.
Qed.

Lemma bestEffort_ran b owner admitFn pos ms any last rs any' last' x x' :
  keyed_ok hash (base x) → allReady (length ms) (base x) →
  bestEffortLoop hash es b owner admitFn pos ms any last x = (Ok (rs, any', last'), x') →
  ran b owner pos ms rs x x' ∧
  any' = any || existsb (λ r, isSome (rVM r)) rs ∧
  (any' = false → ms ≠ [] → last' ≠ None).
Proof.
  revert pos any last rs any' last' x.
  induction ms as [|m ms IH]; intros pos any last rs any' last' x Hl Hr.
  { intros [[= <- <- <-] <-]%bret_Ok. split; [by apply ran_nil|]. by rewrite orb_false_r. }
  cbn [bestEffortLoop]. intros (t & ? & [-> Ht]%totals_state & H)%bbind_Ok.
  apply bbind_Ok in H as (adm & ? & [_ <-]%bsome_Ok & H).
  destruct (adm _ _ _ _) as [[f|msg]|]; [|done|].
  - apply bbind_Ok in H as (r & x1 & H1 & H).
    apply bbind_Ok in H as ([[rs' a'] l'] & x2 & H2 & [[= <- <- <-] <-]%bret_Ok).
    pose proof H1 as [Hr1 Hx1]%insertRefused_Ok.
    assert (Hb1 : base x1 = base x) by by rewrite Hx1.
    rewrite <- Hb1 in Hl. apply allReady_rest in Hr. rewrite <- Hb1 in Hr.
    destruct (IH _ _ _ _ _ _ _ Hl Hr H2) as (Hran & Ha & Hla).
    split_and!; [by eapply ran_refused|by rewrite Ha, Hr1|].
    intros E _. destruct ms as [|m' ms]; [|by apply Hla].
    apply bret_Ok in H2 as [[= _ _ <-] _]. done.
  - apply bbind_Ok in H as (r & x1 & H1 & H).
    apply bbind_Ok in H as ([[rs' a'] l'] & x2 & H2 & [[= <- <- <-] <-]%bret_Ok).
    pose proof (allReady_one _ pos _ Hr) as Hr4.
    destruct (member_after _ _ _ _ _ _ _ _ Hl Hr4 H1) as (Hl1 & _ & _ & Hn).
    destruct (IH _ _ _ _ _ _ _ Hl1 (allReady_next _ _ _ Hn Hr) H2) as (Hran & Ha & Hla).
    split_and!; [by eapply ran_admitted| |].
    + apply insertOneMember_Ok in H1 as (? & ? & _ & -> & _). cbn. by rewrite Ha, orb_true_r.
    + rewrite Ha. done.
Qed.

(** * The transaction *)

(** What the two modes decide. An atomic batch asks once, for the totals it found:
    all of its members are created, or all of them carry the one refusal. A
    best-effort batch fails when none of its members is admitted. *)
Definition decision (inp : CreateVMBatchInput) (x : BStore) (rs : list BatchMemberResult)
    (state : string) (refusal : option AdmissionRefusal) : Prop :=
  (gReservationMode inp = "atomic_reservation" ∧ ∃ admitFn t,
     gAdmitBatch inp = Some admitFn ∧ reservationTotals (reservations (db (base x))) = Some t ∧
     ((admitFn t = None ∧ Forall (λ r, isSome (rVM r) = true) rs ∧ state = "running" ∧
         refusal = None) ∨
      ∃ f, admitFn t = Some (Refused f) ∧ Forall (λ r, refusedAs r f) rs ∧ state = "failed" ∧
         refusal = Some f)) ∨
  (gReservationMode inp = "best_effort" ∧
     ((existsb (λ r, isSome (rVM r)) rs = true ∧ state = "running" ∧ refusal = None) ∨
      (existsb (λ r, isSome (rVM r)) rs = false ∧ state = "failed" ∧
         (gMembers inp ≠ [] → refusal ≠ None)))).

Definition process (b : Z) (inp : CreateVMBatchInput) : B Processed :=
  if (gReservationMode inp =? "atomic_reservation")%string then processAtomicBatch hash es b inp
  else if (gReservationMode inp =? "best_effort")%string then processBestEffortBatch hash es b inp
  else bthrow (ErrUnknownMode (gReservationMode inp)).

Lemma process_Ok b inp x rs state refusal x' :
  keyed_ok hash (base x) → allReady (length (gMembers inp)) (base x) →
  process b inp x = (Ok (rs, state, refusal), x') →
  ran b (gOwner inp) 0 (gMembers inp) rs x x' ∧ decision inp x rs state refusal.
Proof.
  intros Hl Hr. unfold process. destruct (String.eqb _ _) eqn:Hm.
  { apply String.eqb_eq in Hm. unfold processAtomicBatch.
    intros (t & ? & [-> Ht]%totals_state & H)%bbind_Ok.
    apply bbind_Ok in H as (adm & ? & [Ha <-]%bsome_Ok & H).
    destruct (adm t) as [[f|msg]|] eqn:E; [|done|].
    - apply bbind_Ok in H as (rs' & ? & H & [[= <- <- <-] <-]%bret_Ok).
      apply (refuse_ran b (gOwner inp)) in H as [Hran Hf]; [|done].
      split; [done|]. left. split; [done|]. exists adm, t. split_and!; [done..|]. right. by exists f.
    - apply bbind_Ok in H as (rs' & ? & H & [[= <- <- <-] <-]%bret_Ok).
      apply insertAdmitted_ran in H as [Hran Hf]; [|done..].
      split; [done|]. left. split; [done|]. exists adm, t. split_and!; [done..|]. by left. }
  destruct (String.eqb _ "best_effort") eqn:Hm'; [|done]. apply String.eqb_eq in Hm'.
  unfold processBestEffortBatch. intros ([[rs' any] last] & ? & H & [H' <-]%bret_Ok)%bbind_Ok.
  apply bestEffort_ran in H as (Hran & Hany & Hlast); [|done..]. cbn [orb] in Hany.
  destruct any; injection H' as <- <- <-; (split; [done|]); right; (split; [done|]);
    [by left|right]. split_and!; [done..|]. by apply Hlast.
Qed.

Definition batchOpOf (inp : CreateVMBatchInput) (state : string)
    (refusal : option AdmissionRefusal) : BatchOpInput :=
  mkBatchOp (gOwner inp) (gIdempotencyKey inp) (gRequestHash inp) state refusal.

Lemma insertBatch_Ok mk x id x' :
  insertBatch mk x = (Ok id, x') →
  id = seq (vm_batches x) + 1 ∧ x' = set_batches (insertRow id (mk id)) x ∧
  (∀ k, bIdempotencyKey (mk id) = Some k →
    select1 (batchKey (bOwner (mk id)) k) (rows (vm_batches x)) = None).
Proof.
  unfold insertBatch. intros (t & ? & [-> <-]%bgets_Ok & H)%bbind_Ok.
  apply bbind_Ok in H as (? & ? & [Hn%nextID_Some <-]%bsome_Ok & H). subst.
  apply bbind_Ok in H as (? & ? & [He <-]%bensure_Ok & H).
  apply bbind_Ok in H as (? & ? & ->%bmodify_Ok & [<- <-]%bret_Ok).
  split_and!; [done..|]. intros k Hk. rewrite Hk in He. apply exists_select1. by apply negb_true_iff.
Qed.

(** A batch that is new: its row, its members' rows, and on the other tables the
    creates of its admitted members, in order, and its operation. *)
Record recorded_as (e : Env) (inp : CreateVMBatchInput) (x : BStore) (id : Z) (o : Operation)
    (rs : list BatchMemberResult) (x' : BStore) : Prop := mkRecorded {
  rc_id : id = seq (vm_batches x) + 1;
  rc_key k : gIdempotencyKey inp = Some k →
    select1 (batchKey (gOwner inp) k) (rows (vm_batches x)) = None;
  rc_store : ∃ state refusal, decision inp x rs state refusal ∧
    steps hash (base x)
      (memberOps (gOwner inp) (gMembers inp) rs ++ [OBatchOp (batchOpOf inp state refusal)])
      (base x') ∧
    o = newBatchOp e (batchOpOf inp state refusal) (oOperationID o) ∧
    o ∈ rows (operations (db (base x')));
  rc_batches : vm_batches x' = on_rows (update (byBatchID id) (setBatchOpID (oOperationID o)))
    (insertRow id (newBatch e inp id) (vm_batches x));
  rc_rows : vm_batch_members x' = vm_batch_members x ++ (rowOf id <$> rs);
  rc_opid : seq (operations (db (base x))) < oOperationID o;
  rc_others r p : r ∈ rs → rOperation r = Some p → oOperationID p < oOperationID o;
  rc_held : Forall (held (base x')) rs;
  rc_outcomes : Forall2 outcome (gMembers inp) rs;
  rc_positions : rPosition <$> rs = List.seq 0 (length (gMembers inp))
}.

Lemma recordBatchOp_Ok e y s o s' :
  log_ok hash s → ops_ok (db s) → ready 1 e s → recordBatchOp hash e y s = (Ok o, s') →
  o = newBatchOp e y (oOperationID o) ∧ o ∈ rows (operations (db s')) ∧
  oOperationID o = seq (operations (db s)) + 1.
Proof.
  intros Hl Hk Hr H. unfold recordBatchOp in H. apply bind_Ok in H as (op & s1 & Hi & H).
  apply insertOperation_Ok in Hi as (-> & -> & _).
  rewrite emit_bind in H; [|by apply log_ok_on|by apply ready_on|done].
  unfold scanOperationInTx in H. m_inv.
  match goal with H : select1 _ _ = Some o |- _ => rename H into Ho end.
  assert (Hin : o ∈ rows (operations (db (emitted hash HostObserved e "operation.state_changed"
    (batchOpData y (seq (operations (db s)) + 1)) (on (set_operations (insertRow
      (seq (operations (db s)) + 1) (newBatchOp e y (seq (operations (db s)) + 1)))) s)))))
    by by apply select1_Some in Ho as [? _].
  rewrite operations_emitted in Ho. cbn [db on set_operations operations] in Ho.
  unfold insertRow in Ho. cbn [rows] in Ho. apply newest_op in Ho; [|done..].
  split_and!; [by subst|done|by rewrite Ho].
Qed.

(** The parts of a transaction that records a batch. *)
Lemma batchInTx_inv e inp x id o rs x' :
  batchInTx hash es e inp x = (Ok (NewBatch id o rs), x') →
  ∃ x2 state refusal,
    id = seq (vm_batches x) + 1 ∧
    (∀ k, gIdempotencyKey inp = Some k →
      select1 (batchKey (gOwner inp) k) (rows (vm_batches x)) = None) ∧
    process id inp (set_batches (insertRow id (newBatch e inp id)) x) =
      (Ok (rs, state, refusal), x2) ∧
    recordBatchOp hash e (batchOpOf inp state refusal) (base x2) = (Ok o, base x') ∧
    vm_batches x' =
      on_rows (update (byBatchID id) (setBatchOpID (oOperationID o))) (vm_batches x2) ∧
    vm_batch_members x' = vm_batch_members x2.
Proof.
  unfold batchInTx. intros (t & ? & [-> <-]%bgets_Ok & H)%bbind_Ok.
  apply bbind_Ok in H as (ex & ? & [Hex <-]%bret_Ok & H). destruct ex as [b|].
  { apply bbind_Ok in H as (? & ? & _ & H). by apply bret_Ok in H as [? _]. }
  apply bbind_Ok in H as (id' & x1 & Hins & H). apply insertBatch_Ok in Hins as (Hid & -> & Hkey).
  apply bbind_Ok in H as ([[rs' state] refusal] & x2 & Hp & H). fold (process id' inp) in Hp.
  cbv zeta in H. fold (batchOpOf inp state refusal) in H.
  apply bbind_Ok in H as (op & ? & (s3 & E3 & ->)%lift_Ok & H).
  apply bbind_Ok in H as (? & ? & ->%bmodify_Ok & H).
  apply bbind_Ok in H as (? & ? & (s4 & E4 & ->)%lift_Ok & H).
  apply bbind_Ok in H as (o' & ? & (s5 & E5 & ->)%lift_Ok & H).
  apply bret_Ok in H as [[= <- <- <-] <-]. cbn [base over set_batches] in E4, E5.
  assert (Hop : op = oOperationID o').
  { unfold scanOperationInTx in E5. m_inv.
    match goal with H : select1 _ _ = Some o' |- _ => apply select1_Some in H as [_ H] end.
    by apply Z.eqb_eq in H. }
  exists x2, state, refusal. split_and!; [done|done|done| |by rewrite <- Hop|done].
  unfold recordBatchOp. by rewrite (bind_eq _ _ _ _ _ E3), (bind_eq _ _ _ _ _ E4).
Qed.

Lemma batchInTx_new e inp x id o rs x' :
  keyed_ok hash (base x) → allReady (length (gMembers inp)) (base x) →
  ready (cost inp) e (base x) →
  batchInTx hash es e inp x = (Ok (NewBatch id o rs), x') →
  recorded_as e inp x id o rs x'.
Proof.
  intros Hk Hr He (x2 & state & refusal & Hid & Hkey & Hp & Hrec & Hb & Hm)%batchInTx_inv.
  set (y := batchOpOf inp state refusal) in *.
  apply process_Ok in Hp as [[Rs Rl Rh Rr Rb Rm Ro Rp] Hd]; [|done..].
  cbn [base set_batches vm_batches vm_batch_members] in Rs, Rr, Rb, Rm.
  assert (Hr4 : ready 4 e (base x2)).
  { apply Rr. eapply ready_le; [|exact He]. unfold cost. lia. }
  destruct (recordBatchOp_Ok e y _ _ _ (inv_log _ _ (ko_inv _ _ Rl)) (ko_ops _ _ Rl)
    ltac:(by eapply ready_le; [|exact Hr4]) Hrec) as (Ho & Hin & Hid').
  assert (Hst : steps hash (base x2) [OBatchOp y] (base x')).
  { econstructor; [|constructor].
    replace (base x') with (exec hash e (OBatchOp y) (base x2)); [by constructor|].
    cbn [exec]. unfold inTx. by rewrite Hrec. }
  split; try done; [|by rewrite Hb, Rb|by rewrite Hm, Rm|..].
  - exists state, refusal. fold y. split_and!; [done| |done|done].
    apply steps_app. by exists (base x2).
  - pose proof (opsUp_steps hash _ _ _ Rs) as Hup. unfold opsUp in Hup. lia.
  - intros r q Hr' Hq. rewrite Forall_forall in Rh. destruct (Rh r Hr') as [_ Hop].
    specialize (Hop q Hq). unfold opIDs in Hop. apply list_elem_of_fmap in Hop as (q' & Eq & Hq').
    pose proof (so_max _ _ (ko_ops _ _ Rl) (opsig q')) as Hmax.
    rewrite Eq. specialize (Hmax ltac:(by apply list_elem_of_fmap_2)). cbn in Hmax. lia.
  - eapply Forall_impl; [exact Rh|]. intros r. apply held_persists. by eapply steps_persists.
Qed.

End rules.
End BatchRules.
