(* ===== verification/BatchRuns.v ===== *)
(** Executions of the store with batches: a batch is the creates of its admitted
    members and one operation, or nothing; its key names one outcome for good. *)

From S2P Require Import Prelude Events Store RunStore VmStore StoreRules Registry History.
From S2P Require Import Idempotency BatchStore BatchRules.
Import Events Sql Store Log Runs Vms Rules Registry History Idempotency Batches BatchRules.

Local Open Scope Z_scope.

Module BatchRuns.

(** * Executions *)

Definition openB (inst : string) : BStore := mkBStore (Open inst emptyDB) empty_table [].

(** ** Lists *)

Lemma filter_none {A} (p : A → bool) l : (∀ a, a ∈ l → p a = false) → List.filter p l = [].
Proof.
  induction l as [|a l IH]; intros H; [done|]. cbn. rewrite H by left.
  apply IH. intros. apply H. by right.
Qed.
Lemma filter_all {A} (p : A → bool) l : (∀ a, a ∈ l → p a = true) → List.filter p l = l.
Proof.
  induction l as [|a l IH]; intros H; [done|]. cbn. rewrite H by left.
  f_equal. apply IH. intros. apply H. by right.
Qed.

Lemma seq_sorted i n : StronglySorted lt (List.seq i n).
Proof.
  revert i. induction n as [|n IH]; intros i; cbn; constructor; [done|].
  apply Forall_forall. intros j Hj%list_elem_of_In%in_seq. lia.
Qed.

#[local] Instance position_le_trans : Transitive position_le.
Proof. intros a b c. unfold position_le. lia. Qed.
#[local] Instance position_le_total : Total position_le.
Proof. intros a b. unfold position_le. lia. Qed.

Lemma sorted_cons a l :
  StronglySorted lt (mPosition <$> a :: l) →
  StronglySorted lt (mPosition <$> l) ∧ ∀ b, b ∈ l → (mPosition a < mPosition b)%nat.
Proof.
  intros H. apply StronglySorted_inv in H as [H Hf]. split; [done|]. intros b Hb.
  rewrite Forall_forall in Hf. by apply Hf, list_elem_of_fmap_2.
Qed.

Lemma sorted_inj l a b :
  StronglySorted lt (mPosition <$> l) → a ∈ l → b ∈ l → mPosition a = mPosition b → a = b.
Proof.
  induction l as [|c l IH]; intros Hs Ha Hb E; [by apply elem_of_nil in Ha|].
  apply sorted_cons in Hs as [Hs Hc]. rewrite !elem_of_cons in *.
  destruct Ha as [->|Ha], Hb as [->|Hb]; [done|..|by apply IH].
  - apply Hc in Hb. lia.
  - apply Hc in Ha. lia.
Qed.

(** Rows that are in order of position stay as they are. *)
Lemma sorted_positions l : StronglySorted lt (mPosition <$> l) → merge_sort position_le l = l.
Proof.
  intros Hs. apply (StronglySorted_unique_strong position_le);
    [|apply StronglySorted_merge_sort; apply _| |apply merge_sort_Permutation].
  - intros a b Ha Hb Hab Hba. rewrite merge_sort_Permutation in Ha.
    apply (sorted_inj l); [done..|]. unfold position_le in *. lia.
  - induction l as [|a l IH]; [constructor|]. apply sorted_cons in Hs as [Hs Hc].
    constructor; [by apply IH|]. apply Forall_forall. intros b Hb%Hc. unfold position_le. lia.
Qed.

(** An operation id that is in the table is found. *)
Lemma Sql_op_lookup s o :
  o ∈ opIDs s → ∃ p, select1 (byOperationID o) (rows (operations (db s))) = Some p ∧
    oOperationID p = o.
Proof.
  intros (p & -> & Hp)%list_elem_of_fmap.
  destruct (select1 (byOperationID (oOperationID p)) (rows (operations (db s)))) as [q|] eqn:E.
  - exists q. split; [done|]. by apply select1_Some in E as [_ E%Z.eqb_eq].
  - apply (proj1 (select1_None _ _) E) in Hp. unfold byOperationID in Hp. by rewrite Z.eqb_refl in Hp.
Qed.

Section runs.
Context (hash : Envelope → string).

(** One operation of the store, or one batch, with the environments they read. *)
Inductive bstep : BStore → BStore → Prop :=
  | bs_op o x s' : step hash (base x) o s' → bstep x (over s' x)
  | bs_batch es e inp x :
      allReady es (length (gMembers inp)) (base x) → ready (cost inp) e (base x) →
      bstep x (CreateVMBatch hash es e inp x).2.

Definition bsteps : BStore → BStore → Prop := rtc bstep.

(** ** What a batch returns and leaves *)

Lemma getBatchRow_state id x r x' : getBatchRow id x = (r, x') → x' = x.
Proof.
  unfold getBatchRow, mbind, B_bind, bgets, bsome, mret, B_ret, bthrow.
  repeat (case_match; simplify_eq); naive_solver.
Qed.

Lemma readMembers_eq rs x :
  ∃ zs, readMembers rs x = (Ok zs, x) ∧ length zs = length rs ∧
  ∀ i r, rs !! i = Some r → ∃ z, zs !! i = Some z ∧ readMember r x = (Ok z, x).
Proof.
  induction rs as [|r rs (zs & E & Hn & IH)].
  { exists []. split_and!; [done..|]. intros i r. by rewrite lookup_nil. }
  assert (∃ z, readMember r x = (Ok z, x)) as [z Hz].
  { unfold readMember, mbind, B_bind, bgets, mret, B_ret. repeat case_match; simplify_eq; eauto. }
  exists (z :: zs). split_and!; [|by cbn; rewrite Hn|].
  - cbn [readMembers]. unfold mbind at 1, B_bind at 1. rewrite Hz.
    unfold mbind at 1, B_bind at 1. by rewrite E.
  - intros [|i] r' H; cbn in *; [|by apply IH]. simplify_eq. eauto.
Qed.

Lemma readBatchOp_eq b x :
  readBatchOp b x = match bBatchOpID b with
    | None => (Ok None, x)
    | Some o => match select1 (byOperationID o) (rows (operations (db (base x)))) with
                | Some op => (Ok (Some op), x)
                | None => (Err (BErr ErrOperationUnknown), x)
                end
    end.
Proof.
  unfold readBatchOp. destruct (bBatchOpID b) as [o|]; [|done].
  unfold GetOperation, lift, mbind, B_bind, M_bind, gets, some, mret, M_ret, B_ret, throw.
  destruct x. cbn. by destruct (select1 _ _).
Qed.

Lemma getBatchRow_eq id x :
  getBatchRow id x = match select1 (byBatchID id) (rows (vm_batches x)) with
    | Some b => (Ok b, x) | None => (Err ErrBatchUnknown, x) end.
Proof. unfold getBatchRow, mbind, B_bind, bgets, bsome. by destruct (select1 _ _). Qed.

Definition memberRows (id : Z) (x : BStore) : list MemberRow :=
  merge_sort position_le (select (ofBatch id) (vm_batch_members x)).

Lemma GetVMBatch_eq id x :
  GetVMBatch id x = match getBatchRow id x with
    | (Err e, _) => (Err e, x)
    | (Ok b, _) => match readBatchOp b x with
      | (Err e, _) => (Err e, x)
      | (Ok o, _) => match readMembers (memberRows id x) x with
        | (Err e, _) => (Err e, x)
        | (Ok zs, _) => (Ok (mkBatchResult b o zs false), x)
        end
      end
    end.
Proof.
  unfold GetVMBatch. unfold mbind at 1, B_bind at 1. rewrite getBatchRow_eq.
  destruct (select1 _ _) as [b|]; [|done]. unfold mbind at 1, B_bind at 1.
  rewrite readBatchOp_eq.
  assert (Hr : ∀ o, (rs ← bgets (memberRows id); members ← readMembers rs;
      mret (mkBatchResult b o members false) : B _) x =
    match readMembers (memberRows id x) x with
    | (Err e, _) => (Err e, x) | (Ok zs, _) => (Ok (mkBatchResult b o zs false), x) end).
  { intros o. unfold mbind at 1, B_bind at 1, bgets at 1. unfold mbind, B_bind.
    by destruct (readMembers_eq (memberRows id x) x) as (zs & -> & _). }
  repeat case_match; simplify_eq; try done; by rewrite <- Hr.
Qed.

Lemma GetVMBatch_state id x r x' : GetVMBatch id x = (r, x') → x' = x.
Proof. rewrite GetVMBatch_eq. repeat case_match; by intros [= _ <-]. Qed.

Lemma lookupBatch_state owner k rh x r x' : lookupBatch owner k rh x = (r, x') → x' = x.
Proof.
  unfold lookupBatch. unfold mbind at 1, B_bind at 1, bgets at 1.
  destruct (select1 _ _) as [b|]; [|by intros [= _ <-]].
  unfold bensure. destruct (String.eqb _ _); [|by intros [= _ <-]].
  unfold mbind, B_bind, mret, B_ret.
  destruct (GetVMBatch (bBatchID b) x) as [[]] eqn:E; apply GetVMBatch_state in E as ->;
    by intros [= _ <-].
Qed.

Definition keyRow (inp : CreateVMBatchInput) (x : BStore) : option Batch :=
  match gIdempotencyKey inp with
  | Some k => select1 (batchKey (gOwner inp) k) (rows (vm_batches x))
  | None => None
  end.

(** The answer to a request whose key is taken. *)
Definition replayOf (inp : CreateVMBatchInput) (b : Batch) (x : BStore)
    : result BatchErr CreateVMBatchResult :=
  if (bRequestHash b =? gRequestHash inp)%string then
    match (GetVMBatch (bBatchID b) x).1 with Ok z => Ok (asReplay z) | Err e => Err e end
  else Err (BErr ErrIdempotencyConflict).

Lemma rolledBack_id x : rolledBack x x = x.
Proof. by destruct x as [[]]. Qed.

Lemma CreateVMBatch_taken es e inp x b :
  keyRow inp x = Some b → CreateVMBatch hash es e inp x = (replayOf inp b x, x).
Proof.
  unfold keyRow, replayOf. destruct (gIdempotencyKey inp) as [k|] eqn:Hk; [|done]. intros Hb.
  unfold CreateVMBatch. rewrite Hk. unfold mbind at 1, B_bind at 1, lookupBatch.
  unfold mbind at 1, B_bind at 1, bgets at 1. rewrite Hb. unfold mbind at 1, B_bind at 1, bensure.
  destruct (String.eqb _ _); [|done]. unfold mret at 1, B_ret at 1. unfold mbind, B_bind.
  destruct (GetVMBatch (bBatchID b) x) as [[z|err] x1] eqn:E; apply GetVMBatch_state in E as ->; done.
Qed.

Lemma finishBatch_taken es e inp x b :
  keyRow inp x = Some b → finishBatch hash es e inp x = (replayOf inp b x, x).
Proof.
  unfold keyRow. destruct (gIdempotencyKey inp) as [k|] eqn:Hk; [|done]. intros Hb.
  assert (Htx : binTx (batchInTx hash es e inp) x =
    (if (bRequestHash b =? gRequestHash inp)%string then Ok (ReplayOf (bBatchID b))
     else Err (BErr ErrIdempotencyConflict), x)).
  { unfold binTx, batchInTx. unfold mbind at 1, B_bind at 1, bgets at 1. rewrite Hk, Hb.
    unfold mbind at 1, B_bind at 1, mret at 1, B_ret at 1. unfold mbind, B_bind, bensure.
    destruct (String.eqb _ _); [done|]. cbn. by rewrite rolledBack_id. }
  unfold finishBatch, replayOf. unfold mbind at 1, B_bind at 1. rewrite Htx.
  destruct (String.eqb _ _); [|done]. unfold mbind, B_bind.
  destruct (GetVMBatch (bBatchID b) x) as [[z|err] x1] eqn:E; apply GetVMBatch_state in E as ->; done.
Qed.

Lemma CreateVMBatch_free es e inp x :
  keyRow inp x = None → CreateVMBatch hash es e inp x = finishBatch hash es e inp x.
Proof.
  unfold keyRow, CreateVMBatch. destruct (gIdempotencyKey inp) as [k|]; [|done]. intros Hb.
  unfold mbind at 1, B_bind at 1, lookupBatch. unfold mbind at 1, B_bind at 1, bgets at 1.
  by rewrite Hb.
Qed.

(** The check before the transaction decides nothing the transaction does not
    decide alike. *)
Lemma recheck es e inp x : finishBatch hash es e inp x = CreateVMBatch hash es e inp x.
Proof.
  destruct (keyRow inp x) as [b|] eqn:E; [|by rewrite CreateVMBatch_free].
  by rewrite (CreateVMBatch_taken _ _ _ _ _ E), (finishBatch_taken _ _ _ _ _ E).
Qed.

Lemma select1_new id op e inp t :
  ∃ b, select1 (byBatchID id) (rows (on_rows (update (byBatchID id) (setBatchOpID op))
    (insertRow id (newBatch e inp id) t))) = Some b.
Proof.
  unfold on_rows, insertRow. cbn [rows]. rewrite select1_update by done. rewrite select1_app.
  destruct (select1 _ (rows t)); [cbn; eauto|]. rewrite select1_one. unfold byBatchID. cbn.
  rewrite Z.eqb_refl. cbn. eauto.
Qed.

(** The transaction answers from the key only when it is taken. *)
Lemma batchInTx_replay es e inp x id x' :
  batchInTx hash es e inp x = (Ok (ReplayOf id), x') → keyRow inp x ≠ None ∧ x' = x.
Proof.
  unfold batchInTx. intros (t & ? & [-> <-]%bgets_Ok & H)%bbind_Ok.
  apply bbind_Ok in H as (ex & ? & [Hex <-]%bret_Ok & H). fold (keyRow inp x) in Hex.
  destruct ex as [b|].
  { apply bbind_Ok in H as (? & ? & [_ <-]%bensure_Ok & [_ <-]%bret_Ok). by rewrite Hex. }
  apply bbind_Ok in H as (? & ? & _ & H). apply bbind_Ok in H as ([[? ?] ?] & ? & _ & H).
  cbv zeta in H. do 4 (apply bbind_Ok in H as (? & ? & _ & H)). by apply bret_Ok in H as [? _].
Qed.

Lemma CreateVMBatch_cases es e inp x r x' :
  keyed_ok hash (base x) → allReady es (length (gMembers inp)) (base x) →
  ready (cost inp) e (base x) → CreateVMBatch hash es e inp x = (r, x') →
  (∃ b, keyRow inp x = Some b ∧ r = replayOf inp b x ∧ x' = x) ∨
  (∃ z o, r = Ok z ∧ zIsReplay z = false ∧ zBatchOp z = Some o ∧
     recorded_as hash e inp x (seq (vm_batches x) + 1) o (zMembers z) x' ∧
     select1 (byBatchID (seq (vm_batches x) + 1)) (rows (vm_batches x')) = Some (zBatch z)) ∨
  (∃ err q, r = Err err ∧ systemSeq (base x) ≤ q ≤ Int.MaxInt64 ∧
     x' = over (mkStore (instanceID (base x)) q (db (base x))) x).
Proof.
  intros Hk Hr He H. destruct (keyRow inp x) as [b|] eqn:Hb.
  { left. rewrite (CreateVMBatch_taken _ _ _ _ _ Hb) in H. injection H as <- <-. by exists b. }
  right. rewrite CreateVMBatch_free in H by done. unfold finishBatch in H.
  unfold mbind at 1, B_bind at 1, binTx in H.
  destruct (batchInTx hash es e inp x) as [[[id|id o rs]|err] x1] eqn:Htx.
  - by apply batchInTx_replay in Htx as [Htx _].
  - left. apply batchInTx_new in Htx; [|done..]. pose proof Htx as [-> _ _ Hbs _ _ _ _ _ _].
    destruct (select1_new (seq (vm_batches x) + 1) (oOperationID o) e inp (vm_batches x)) as [b Hs].
    rewrite <- Hbs in Hs. unfold mbind, B_bind in H. rewrite getBatchRow_eq, Hs in H.
    injection H as <- <-. by exists (mkBatchResult b (Some o) rs false), o.
  - right. injection H as <- <-.
    destruct (takes_batchInTx hash es e inp _ _ _ Htx) as [_ Hi Hq _]; [apply Hk|apply He|].
    exists err, (systemSeq (base x1)). unfold rolledBack, over. rewrite Hi. split_and!; try done; [lia|].
    destruct He as (_ & _ & He & _). lia.
Qed.

(** ** The store under batches *)

Lemma cost_pos inp : 4 ≤ cost inp.
Proof. unfold cost. lia. Qed.

(** A batch is a sequence of the store's own operations. *)
Lemma batch_steps es e inp x r x' :
  keyed_ok hash (base x) → allReady es (length (gMembers inp)) (base x) →
  ready (cost inp) e (base x) → CreateVMBatch hash es e inp x = (r, x') →
  ∃ os, steps hash (base x) os (base x').
Proof.
  intros Hk Hr He H.
  apply CreateVMBatch_cases in H as
    [(b & _ & _ & ->)|[(z & o & _ & _ & _ & [_ _ (st & rf & _ & Hs & _) _ _ _ _ _ _ _] & _)|
      (err & q & _ & Hq & ->)]]; [..|done|done|done].
  - exists []. constructor.
  - eauto.
  - exists [OAborted q]. econstructor; [|constructor].
    apply (step_op hash e (OAborted q) (base x)); [|done].
    eapply ready_le; [apply cost_pos|exact He].
Qed.

Lemma bsteps_store x x' :
  bsteps x x' → keyed_ok hash (base x) → keyed_ok hash (base x') ∧
  ∃ os, steps hash (base x) os (base x').
Proof.
  induction 1 as [x|x x1 x' Hs _ IH]; intros Hk; [split; [done|]; exists []; constructor|].
  assert (∃ os, steps hash (base x) os (base x1)) as [os1 H1].
  { destruct Hs as [o x s' Hs|es e inp x Hr He].
    - exists [o]. econstructor; [done|constructor].
    - destruct (CreateVMBatch hash es e inp x) as [r x'0] eqn:E. by eapply batch_steps. }
  destruct (keyed_steps hash _ _ _ H1 Hk) as [Hk1 _].
  destruct (IH Hk1) as [Hk2 [os2 H2]]. split; [done|]. exists (os1 ++ os2).
  apply steps_app. eauto.
Qed.

(** ** The batch tables *)

(** Ids and keys name one batch; every batch has its operation; the rows of
    members belong to known batches and point at rows that exist. *)
Record batches_ok (x : BStore) : Prop := mkBatchesOk {
  bo_ids : NoDup (bBatchID <$> rows (vm_batches x));
  bo_max b : b ∈ rows (vm_batches x) → bBatchID b ≤ seq (vm_batches x);
  bo_keys owner k b b' : b ∈ rows (vm_batches x) → b' ∈ rows (vm_batches x) →
    batchKey owner k b = true → batchKey owner k b' = true → b = b';
  bo_op b : b ∈ rows (vm_batches x) → ∃ o, bBatchOpID b = Some o ∧ o ∈ opIDs (base x);
  bo_members r : r ∈ vm_batch_members x → mBatchID r ≤ seq (vm_batches x) ∧
    (∀ v, mVMID r = Some v → v ∈ vmIDs (base x)) ∧
    (∀ o, mOperationID r = Some o → o ∈ opIDs (base x))
}.

(** The tables of batches only grow, by rows of batches that are new. *)
Record tables_grow (x x' : BStore) : Prop := mkGrow {
  tg_seq : seq (vm_batches x) ≤ seq (vm_batches x');
  tg_batches : ∃ tl, rows (vm_batches x') = rows (vm_batches x) ++ tl;
  tg_members : ∃ tl, vm_batch_members x' = vm_batch_members x ++ tl ∧
    Forall (λ r, seq (vm_batches x) < mBatchID r) tl
}.

#[local] Instance tables_grow_preorder : PreOrder tables_grow.
Proof.
  split.
  - intros x. split; [done|exists []; by rewrite app_nil_r..].
  - intros x1 x2 x3 [S1 (b1 & B1) (m1 & M1 & F1)] [S2 (b2 & B2) (m2 & M2 & F2)].
    split; [lia|exists (b1 ++ b2); by rewrite B2, B1, app_assoc|].
    exists (m1 ++ m2). rewrite M2, M1, app_assoc. split; [done|]. apply Forall_app.
    split; [done|]. eapply Forall_impl; [exact F2|]. intros r ?. cbv beta in *. lia.
Qed.

Lemma batches_ok_over s x : persists (base x) s → batches_ok x → batches_ok (over s x).
Proof.
  intros [Hv Ho] [H1 H2 H3 H4 H5]. split; cbn; [done..|naive_solver|].
  intros r Hr. destruct (H5 r Hr) as (? & ? & ?). split_and!; naive_solver.
Qed.

(** The row of a new batch. *)
Lemma new_rows e inp x id op :
  batches_ok x → id = seq (vm_batches x) + 1 →
  rows (on_rows (update (byBatchID id) (setBatchOpID op))
    (insertRow id (newBatch e inp id) (vm_batches x))) =
  rows (vm_batches x) ++ [setBatchOpID op (newBatch e inp id)].
Proof.
  intros Hx ->. unfold on_rows, insertRow. cbn [rows]. rewrite update_app, update_id.
  - f_equal. unfold update, byBatchID. cbn. by rewrite Z.eqb_refl.
  - intros b Hb. apply (bo_max _ Hx) in Hb. unfold byBatchID. apply Z.eqb_neq. lia.
Qed.

(** A key a batch already has is not free. *)
Lemma new_key_clash e inp x k owner b op id :
  (∀ k, gIdempotencyKey inp = Some k →
    select1 (batchKey (gOwner inp) k) (rows (vm_batches x)) = None) →
  b ∈ rows (vm_batches x) → batchKey owner k b = true →
  batchKey owner k (setBatchOpID op (newBatch e inp id)) = true → False.
Proof.
  intros Hfree Hb Hm Hm'. unfold batchKey in Hm'. cbn in Hm'.
  apply andb_true_iff in Hm' as [<-%String.eqb_eq Hk'].
  destruct (gIdempotencyKey inp) as [k'|] eqn:E; [|done]. apply String.eqb_eq in Hk' as ->.
  apply (proj1 (select1_None _ _) (Hfree k eq_refl)) in Hb. congruence.
Qed.

Lemma recorded_tables e inp x o rs x' :
  batches_ok x → keyed_ok hash (base x) →
  recorded_as hash e inp x (seq (vm_batches x) + 1) o rs x' →
  tables_grow x x' ∧ batches_ok x'.
Proof.
  intros Hx Hk [_ Rk (st & rf & _ & Rs & _ & Ro) Rb Rm _ _ Rh _ _].
  assert (Hp : persists (base x) (base x')) by by eapply steps_persists.
  set (id := seq (vm_batches x) + 1) in *.
  assert (Hrows : rows (vm_batches x') =
    rows (vm_batches x) ++ [setBatchOpID (oOperationID o) (newBatch e inp id)])
    by (rewrite Rb; by apply new_rows).
  assert (Hseq : seq (vm_batches x') = id) by by rewrite Rb.
  assert (Hmem : ∀ r, r ∈ rowOf id <$> rs → mBatchID r = id ∧
    (∀ v, mVMID r = Some v → v ∈ vmIDs (base x')) ∧
    (∀ o, mOperationID r = Some o → o ∈ opIDs (base x'))).
  { intros r (z & -> & Hz)%list_elem_of_fmap. rewrite Forall_forall in Rh.
    destruct (Rh z Hz) as [Hv Hop]. split; [done|]. cbn.
    split; [destruct (rVM z)|destruct (rOperation z)]; naive_solver. }
  split.
  - split; [lia|eauto|]. exists (rowOf id <$> rs). split; [done|].
    apply Forall_forall. intros r Hr. apply Hmem in Hr as [-> _]. lia.
  - destruct Hx as [H1 H2 H3 H4 H5]. destruct Hp as [Hpv Hpo]. split.
    + rewrite Hrows, fmap_app. apply NoDup_app. split_and!; [done| |apply NoDup_singleton].
      intros i (b & -> & Hb)%list_elem_of_fmap E%list_elem_of_singleton.
      apply H2 in Hb. cbn in E. lia.
    + rewrite Hrows, Hseq. intros b [Hb| ->%list_elem_of_singleton]%elem_of_app; [|done].
      apply H2 in Hb. lia.
    + rewrite Hrows. intros owner k b b' [Hb| ->%list_elem_of_singleton]%elem_of_app
        [Hb'| ->%list_elem_of_singleton]%elem_of_app Hm Hm'; [by eapply H3|..|done];
        exfalso; [eapply (new_key_clash e inp x k owner b)|eapply (new_key_clash e inp x k owner b')];
        done.
    + rewrite Hrows. intros b [Hb| ->%list_elem_of_singleton]%elem_of_app.
      * destruct (H4 b Hb) as (op & E & Hop). exists op. split; [done|]. by apply Hpo.
      * exists (oOperationID o). split; [done|]. by apply list_elem_of_fmap_2.
    + rewrite Rm, Hseq. intros r [Hr|Hr]%elem_of_app.
      * destruct (H5 r Hr) as (? & ? & ?). split_and!; [lia|naive_solver..].
      * apply Hmem in Hr as (-> & ? & ?). done.
Qed.

Record reached (x : BStore) : Prop := mkReached {
  re_store : keyed_ok hash (base x);
  re_tables : batches_ok x
}.

Lemma reached_open inst : reached (openB inst).
Proof.
  split; [apply keyed_empty|]. split; cbn; [constructor|..];
    try (intros; by match goal with H : _ ∈ [] |- _ => apply elem_of_nil in H end).
Qed.

Lemma batch_reached es e inp x r x' :
  reached x → allReady es (length (gMembers inp)) (base x) → ready (cost inp) e (base x) →
  CreateVMBatch hash es e inp x = (r, x') → reached x' ∧ tables_grow x x'.
Proof.
  intros [Hk Hx] Hr He H.
  destruct (batch_steps es e inp x r x' Hk Hr He H) as [os Hs].
  destruct (keyed_steps hash _ _ _ Hs Hk) as [Hk' _].
  apply CreateVMBatch_cases in H as
    [(b & _ & _ & ->)|[(z & o & _ & _ & _ & Hrec & _)|(err & q & _ & Hq & ->)]]; [..|done|done|done].
  - by split.
  - apply recorded_tables in Hrec as [Hg Hx']; [by split|done..].
  - split; [|by split; [|exists []; rewrite app_nil_r..]]. split; [done|].
    apply batches_ok_over; [|done]. by eapply steps_persists.
Qed.

Lemma bstep_reached x x' : bstep x x' → reached x → reached x' ∧ tables_grow x x'.
Proof.
  intros [o x0 s' Hs|es e inp x0 Hr He] Hx.
  - pose proof Hx as [Hk Hb]. split; [|by split; [|exists []; rewrite app_nil_r..]].
    split; [by eapply keyed_step|]. apply batches_ok_over; [|done].
    eapply steps_persists; [done|]. econstructor; [done|constructor].
  - destruct (CreateVMBatch hash es e inp x0) as [r x1] eqn:E. by eapply batch_reached.
Qed.

Lemma bsteps_reached x x' : bsteps x x' → reached x → reached x' ∧ tables_grow x x'.
Proof.
  induction 1 as [x|x x1 x' Hs _ IH]; intros Hx; [by split|].
  destruct (bstep_reached _ _ Hs Hx) as [Hx1 G1]. destruct (IH Hx1) as [Hx2 G2].
  split; [done|]. by etrans.
Qed.

(** ** Reading a batch back *)

Lemma readMember_row r x z :
  (∀ v, mVMID r = Some v → v ∈ vmIDs (base x)) →
  (∀ o, mOperationID r = Some o → o ∈ opIDs (base x)) →
  readMember r x = (Ok z, x) → rowOf (mBatchID r) z = r.
Proof.
  intros Hv Ho. unfold readMember, mbind, B_bind, bgets, mret, B_ret.
  destruct r as [id pos name [v|] [o|] c m]; cbn in *; intros [= <-]; unfold rowOf; cbn.
  - destruct (vm_lookup _ _ (Hv v eq_refl)) as (w & -> & <-).
    destruct (Sql_op_lookup (base x) o (Ho o eq_refl)) as (p & -> & <-). done.
  - by destruct (vm_lookup _ _ (Hv v eq_refl)) as (w & -> & <-).
  - by destruct (Sql_op_lookup (base x) o (Ho o eq_refl)) as (p & -> & <-).
  - done.
Qed.

Lemma GetVMBatch_reads x b :
  reached x → b ∈ rows (vm_batches x) →
  ∃ z, GetVMBatch (bBatchID b) x = (Ok z, x) ∧ zBatch z = b ∧
    oOperationID <$> zBatchOp z = bBatchOpID b ∧
    rowOf (bBatchID b) <$> zMembers z = memberRows (bBatchID b) x.
Proof.
  intros [Hk Hx] Hb. destruct (bo_op _ Hx b Hb) as (o & Eo & Ho).
  destruct (Sql_op_lookup (base x) o Ho) as (p & Ep & <-).
  destruct (readMembers_eq (memberRows (bBatchID b) x) x) as (zs & Ez & Hn & Hzs).
  exists (mkBatchResult b (Some p) zs false). split_and!; [|done|by cbn|].
  - rewrite GetVMBatch_eq, getBatchRow_eq.
    rewrite (select1_unique bBatchID _ _ b); [|apply Hx|done|apply Z.eqb_refl|by intros ? _ ?%Z.eqb_eq].
    by rewrite readBatchOp_eq, Eo, Ep, Ez.
  - cbn. apply list_eq_Forall2, Forall2_same_length_lookup_2; [by rewrite length_fmap|].
    intros i z' r Hz Hr. rewrite list_lookup_fmap in Hz.
    destruct (Hzs i r Hr) as (z & Ez' & Hread). rewrite Ez' in Hz. injection Hz as <-.
    assert (Hin : r ∈ vm_batch_members x ∧ mBatchID r = bBatchID b).
    { apply list_elem_of_lookup_2 in Hr. unfold memberRows in Hr. rewrite merge_sort_Permutation in Hr.
      unfold select in Hr. apply list_elem_of_In, filter_In in Hr as [Hr E%Z.eqb_eq].
      split; [by apply list_elem_of_In|done]. }
    destruct Hin as [Hin <-]. destruct (bo_members _ Hx r Hin) as (_ & ? & ?).
    by apply (readMember_row r x).
Qed.

(** Later batches do not show among the members of an earlier one. *)
Lemma memberRows_stable x x' id :
  tables_grow x x' → id ≤ seq (vm_batches x) → memberRows id x' = memberRows id x.
Proof.
  intros [_ _ (tl & E & Hf)] Hid. unfold memberRows, select. rewrite E, List.filter_app.
  assert (List.filter (ofBatch id) tl = []) as ->; [|by rewrite app_nil_r].
  apply filter_none. intros r Hr. rewrite Forall_forall in Hf. apply Hf in Hr.
  apply Z.eqb_neq. lia.
Qed.

(** The rows of a new batch, in order. *)
Lemma memberRows_new e inp x o rs x' :
  batches_ok x → recorded_as hash e inp x (seq (vm_batches x) + 1) o rs x' →
  memberRows (seq (vm_batches x) + 1) x' = rowOf (seq (vm_batches x) + 1) <$> rs.
Proof.
  intros Hx [_ _ _ _ Rm _ _ _ _ Rp]. set (id := seq (vm_batches x) + 1) in *.
  unfold memberRows, select. rewrite Rm, List.filter_app.
  assert (List.filter (ofBatch id) (vm_batch_members x) = []) as ->.
  { apply filter_none. intros r Hr. apply (bo_members _ Hx) in Hr as [Hr _].
    apply Z.eqb_neq. lia. }
  assert (List.filter (ofBatch id) (rowOf id <$> rs) = rowOf id <$> rs) as ->.
  { apply filter_all. intros r (z & -> & _)%list_elem_of_fmap. apply Z.eqb_refl. }
  cbn [app]. apply sorted_positions. rewrite <- list_fmap_compose.
  change (mPosition ∘ rowOf id) with rPosition. rewrite Rp. apply seq_sorted.
Qed.

(** The answer under a taken key, read from any later state. *)
Lemma replay_rows inp b x x' :
  reached x → reached x' → tables_grow x x' → b ∈ rows (vm_batches x) →
  bRequestHash b = gRequestHash inp →
  ∃ z, replayOf inp b x' = Ok z ∧ zIsReplay z = true ∧ zBatch z = b ∧
    oOperationID <$> zBatchOp z = bBatchOpID b ∧
    rowOf (bBatchID b) <$> zMembers z = memberRows (bBatchID b) x.
Proof.
  intros Hx Hx' Hg Hb Hh. assert (Hb' : b ∈ rows (vm_batches x')).
  { destruct Hg as [_ (tl & ->) _]. apply elem_of_app. by left. }
  destruct (GetVMBatch_reads x' b Hx' Hb') as (z & Hz & <- & Ho & Hm).
  exists (asReplay z). unfold replayOf. rewrite Hh, String.eqb_refl, Hz. split_and!; [done..|].
  cbn [zMembers asReplay]. rewrite Hm. apply memberRows_stable; [done|]. by apply Hx.
Qed.

(** The batch a call with a key leaves, and what it answered. *)
Lemma batch_leaves es e inp k x z x' :
  reached x → allReady es (length (gMembers inp)) (base x) → ready (cost inp) e (base x) →
  gIdempotencyKey inp = Some k → CreateVMBatch hash es e inp x = (Ok z, x') →
  zBatch z ∈ rows (vm_batches x') ∧ batchKey (gOwner inp) k (zBatch z) = true ∧
  bRequestHash (zBatch z) = gRequestHash inp ∧
  oOperationID <$> zBatchOp z = bBatchOpID (zBatch z) ∧
  rowOf (bBatchID (zBatch z)) <$> zMembers z = memberRows (bBatchID (zBatch z)) x'.
Proof.
  intros Hx Hr He Hk H.
  apply CreateVMBatch_cases in H as
    [(b & Hb & Hz & ->)|[(z' & o & [= <-] & _ & Ho & Hrec & Hs)|(err & q & ? & _)]];
    [..|done|apply Hx|done|done].
  - unfold keyRow in Hb. rewrite Hk in Hb. apply select1_Some in Hb as [Hb Hkey].
    destruct (decide (bRequestHash b = gRequestHash inp)) as [Hh|Hh].
    + destruct (replay_rows inp b x x Hx Hx ltac:(done) Hb Hh) as (z' & Hz' & _ & <- & ? & ?).
      rewrite Hz' in Hz. by injection Hz as ->.
    + unfold replayOf in Hz. by rewrite (proj2 (String.eqb_neq _ _) Hh) in Hz.
  - assert (Hz : zBatch z = setBatchOpID (oOperationID o) (newBatch e inp (seq (vm_batches x) + 1))).
    { destruct Hrec as [_ _ _ Rb _ _ _ _ _ _]. rewrite Rb, (new_rows e inp x) in Hs; [|apply Hx|done].
      rewrite select1_app in Hs. rewrite (proj2 (select1_None _ _)) in Hs.
      - rewrite select1_one in Hs. unfold byBatchID in Hs. cbn in Hs. rewrite Z.eqb_refl in Hs.
        by injection Hs.
      - intros b Hb. apply (bo_max _ (re_tables _ Hx)) in Hb. apply Z.eqb_neq. lia. }
    split; [by apply select1_Some in Hs as [? _]|]. rewrite Hz, Ho.
    split_and!; [|done|done|].
    + unfold batchKey. cbn. by rewrite Hk, !String.eqb_refl.
    + cbn [bBatchID setBatchOpID newBatch]. symmetry. eapply memberRows_new; [apply Hx|exact Hrec].
Qed.

End runs.

(** * An example: three members, of which two fit *)

Definition exAdmit (t : ReservationTotals) (mem vcpu disk : Z) : option AdmitErr :=
  if 5000 <? MemoryMiB t + mem
  then Some (Refused (mkRefusal "admission_refused" "insufficient memory")) else None.

Definition exMember (name vm : string) (run : option RunAttachment) : BatchMemberInput :=
  mkMemberInput name vm "tpl" "sha256:00" 2 2048 4096 1024 2176 "default" "open" None run.

Definition exBatch : CreateVMBatchInput :=
  mkCreateBatch "alice" (Some "k") "h1" "best_effort" "keep_successful"
    [exMember "a" "11111111-1111-4111-8111-111111111111" None;
     exMember "b" "22222222-2222-4222-8222-222222222222"
       (Some (mkRunAttachment "build" "exec_exit_zero" "stop" true));
     exMember "c" "44444444-4444-4444-8444-444444444444" None]
    None (Some exAdmit).

Definition exEs (i : nat) : Env := exEnv "33333333-3333-4333-8333-333333333333".
Definition exMade : result BatchErr CreateVMBatchResult * BStore :=
  CreateVMBatch exHash exEs (exEnv "") exBatch (openB exInst).
Definition exResult : CreateVMBatchResult :=
  match exMade.1 with
  | Ok z => z
  | Err _ => mkBatchResult (newBatch (exEnv "") exBatch 0) None [] true
  end.

Lemma exMade_ok : exMade = (Ok exResult, exMade.2).
Proof. vm_compute. reflexivity. Qed.

Lemma exReady n : n ≤ 1000 → allReady exEs (Z.to_nat n) (base (openB exInst)).
Proof. intros Hn i. split_and!; [vm_compute; reflexivity|done|..]; cbn; unfold Int.MaxInt64; lia. Qed.

Lemma exReady_op : ready (cost exBatch) (exEnv "") (base (openB exInst)).
Proof. apply readyb_spec. vm_compute. reflexivity. Qed.

(** The first member's VM has moved since. *)
Definition exLaunch : Op :=
  OTransitionVM (mkTransition "11111111-1111-4111-8111-111111111111" None (Some "provisioning")
    "starting" "launch" 1 None None None false false false None None None).
Definition exLater : BStore :=
  over (exec exHash (exEnv "") exLaunch (base exMade.2)) exMade.2.

Lemma exLater_steps : bsteps exHash exMade.2 exLater.
Proof.
  eapply rtc_l; [|apply rtc_refl]. apply (bs_op exHash exLaunch), step_op; [|exact I].
  apply readyb_spec. vm_compute. reflexivity.
Qed.

(** C9: A batch is nothing but the creates it mirrors, and it is atomic. In any
    execution of the store with batches, each batch that is recorded leaves the
    other tables exactly as the admitted branch of [CreateVMWithOperation] would
    for each of its admitted members, in order of position, followed by the
    batch's own operation; every member has its row, with a VM and an operation
    or with a refusal; an atomic batch admits all of its members or none; a batch
    fails exactly when no member is admitted. A batch answered from its key
    changes nothing, and one that fails leaves every table as it was. So the store
    itself is always in a state that its single operations reach. *)
Theorem batch_refines hash inst x es e inp r x' :
  bsteps hash (openB inst) x →
  allReady es (length (gMembers inp)) (base x) → ready (cost inp) e (base x) →
  CreateVMBatch hash es e inp x = (r, x') →
  (∃ os, steps hash (Open inst emptyDB) os (base x)) ∧
  match r with
  | Ok z =>
    if zIsReplay z then x' = x
    else ∃ o state refusal, zBatchOp z = Some o ∧ decision inp x (zMembers z) state refusal ∧
      o = newBatchOp e (batchOpOf inp state refusal) (oOperationID o) ∧
      steps hash (base x) (memberOps (gOwner inp) (gMembers inp) (zMembers z) ++
        [OBatchOp (batchOpOf inp state refusal)]) (base x') ∧
      Forall2 outcome (gMembers inp) (zMembers z) ∧
      rPosition <$> zMembers z = List.seq 0 (length (gMembers inp)) ∧
      vm_batch_members x' = vm_batch_members x ++ (rowOf (bBatchID (zBatch z)) <$> zMembers z)
  | Err _ => db (base x') = db (base x) ∧ vm_batches x' = vm_batches x ∧
      vm_batch_members x' = vm_batch_members x
  end.
Proof.
  intros Hs Hr He H.
  destruct (bsteps_store hash _ _ Hs (keyed_empty hash inst)) as [Hk Hos].
  split; [done|].
  apply CreateVMBatch_cases in H as
    [(b & _ & -> & ->)|[(z & o & -> & Hz & Ho & Hrec & Hb)|(err & q & -> & _ & ->)]]; [..|done|done|done].
  - unfold replayOf. destruct (String.eqb _ _); [destruct (GetVMBatch _ _).1|]; done.
  - rewrite Hz. destruct Hrec as [_ _ (st & rf & Hd & Hst & Hop & _) _ Hm _ _ _ Hout Hpos].
    apply select1_Some in Hb as [_ Hb%Z.eqb_eq]. rewrite Hb.
    by exists o, st, rf.
  - done.
Qed.

Lemma batch_refines_witness :
  (isSome ∘ rVM) <$> zMembers exResult = [true; true; false] ∧
  (oKind <$> rows (operations (db (base exMade.2)))) =
    ["vm.create"; "vm.create"; "vm_batch.create"] ∧
  Forall2 outcome (gMembers exBatch) (zMembers exResult).
Proof.
  split; [vm_compute; reflexivity|]. split; [vm_compute; reflexivity|].
  destruct (batch_refines exHash exInst (openB exInst) exEs (exEnv "") exBatch (Ok exResult)
    exMade.2 (rtc_refl _ _) (exReady 3 ltac:(lia)) exReady_op exMade_ok) as [_ H].
  assert (E : zIsReplay exResult = false) by (vm_compute; reflexivity). rewrite E in H.
  destruct H as (o & st & rf & _ & _ & _ & _ & H & _). exact H.
Defined.

(** C10: A batch key names one outcome for good. Take any execution of the store
    with batches and a batch request with an idempotency key that was answered,
    then any further sequence of batches and store operations, restarts included.
    A request under the same owner and key changes nothing from then on: with
    another request hash it is a conflict; with the same hash it is a replay of
    the same batch row and batch operation, and member by member of the same
    name, position, VM, operation and refusal. *)
Theorem batch_idempotent hash inst x es e inp k z x1 x2 es2 e2 inp2 :
  bsteps hash (openB inst) x →
  allReady es (length (gMembers inp)) (base x) → ready (cost inp) e (base x) →
  gIdempotencyKey inp = Some k → CreateVMBatch hash es e inp x = (Ok z, x1) →
  bsteps hash x1 x2 → gOwner inp2 = gOwner inp → gIdempotencyKey inp2 = Some k →
  (gRequestHash inp2 ≠ gRequestHash inp →
     CreateVMBatch hash es2 e2 inp2 x2 = (Err (BErr ErrIdempotencyConflict), x2)) ∧
  (gRequestHash inp2 = gRequestHash inp → ∃ z2,
     CreateVMBatch hash es2 e2 inp2 x2 = (Ok z2, x2) ∧ zIsReplay z2 = true ∧
     zBatch z2 = zBatch z ∧
     oOperationID <$> zBatchOp z2 = oOperationID <$> zBatchOp z ∧
     rowOf (bBatchID (zBatch z)) <$> zMembers z2 = rowOf (bBatchID (zBatch z)) <$> zMembers z).
Proof.
  intros Hs Hr He Hk H Hs2 Eo Hk2.
  destruct (bsteps_reached hash _ _ Hs (reached_open hash inst)) as [Hx _].
  destruct (batch_reached hash _ _ _ _ _ _ Hx Hr He H) as [Hx1 _].
  destruct (bsteps_reached hash _ _ Hs2 Hx1) as [Hx2 Hg].
  destruct (batch_leaves hash _ _ _ _ _ _ _ Hx Hr He Hk H) as (Hb & Hkey & Hh & Hop & Hm).
  assert (Hrow : keyRow inp2 x2 = Some (zBatch z)).
  { unfold keyRow. rewrite Hk2, Eo.
    assert (Hb2 : zBatch z ∈ rows (vm_batches x2)).
    { destruct Hg as [_ (tl & ->) _]. apply elem_of_app. by left. }
    apply (select1_unique bBatchID); [apply Hx2|done..|]. intros b' Hb' Hm'.
    f_equal. by eapply (bo_keys _ (re_tables _ _ Hx2)). }
  rewrite (CreateVMBatch_taken hash es2 e2 _ _ _ Hrow). split; intros E.
  - unfold replayOf. rewrite Hh. by rewrite (proj2 (String.eqb_neq _ _)) by congruence.
  - destruct (replay_rows hash inp2 (zBatch z) x1 x2 Hx1 Hx2 Hg Hb ltac:(congruence))
      as (z2 & -> & ? & ? & ? & Hm2).
    exists z2. split_and!; try done; congruence.
Qed.

Lemma batch_idempotent_witness :
  ∃ z2, CreateVMBatch exHash exEs (exEnv "") exBatch exLater = (Ok z2, exLater) ∧
    zIsReplay z2 = true ∧ zBatch z2 = zBatch exResult.
Proof.
  destruct (batch_idempotent exHash exInst (openB exInst) exEs (exEnv "") exBatch "k" exResult
    exMade.2 exLater exEs (exEnv "") exBatch (rtc_refl _ _) (exReady 3 ltac:(lia)) exReady_op
    eq_refl exMade_ok exLater_steps eq_refl eq_refl) as [_ H].
  destruct (H eq_refl) as (z2 & H1 & H2 & H3 & _). exact (ex_intro _ z2 (conj H1 (conj H2 H3))).
Defined.

End BatchRuns.
