(* ===== verification/BatchPlan.v ===== *)
(** The manager's side of a batch (CreateBatch and resolveMember of
    internal/runtime/batch.go, up to the call of the store): what is asked of the
    store, and that no mix of batches and single creates exceeds the host. *)

From S2P Require Import Prelude Events Store RunStore VmStore StoreRules Registry History.
From S2P Require Import Idempotency Float64 Admission BatchStore BatchRules BatchRuns.
Import Float64 Events Sql Store Log Runs Vms Rules Registry History Idempotency Admission Batches
  BatchRules BatchRuns.

Local Open Scope Z_scope.

Module BatchPlan.

(** * Requests *)

Record BatchMemberRequest := mkMemberRequest {
  uName_ : string;
  uTemplateID : string;
  uVCPUCount : Z;
  uMemoryMiB : Z;
  uRootDiskMiB : Z;
  uWorkspaceDiskMiB : Z;
  uLabels : option (gmap string string);
  uRun : option RunAttachment
}.

Record CreateBatchRequest := mkBatchRequest {
  wMembers : list BatchMemberRequest;
  wReservationMode : string;
  wOnFailure : string;
  wIdempotencyKey : option string
}.

Inductive BatchRequestErr :=
  | BatchInvalid (reason : string)
  | BatchMember (position : nat) (e : RequestErr).

Definition resolveMember (mc : ManagerConfig) (vmID : string) (mr : BatchMemberRequest)
    : result RequestErr BatchMemberInput :=
  if (uTemplateID mr =? "")%string then Err (ErrInvalidRequest "template_id is required") else
  match mcTemplates mc !! uTemplateID mr with
  | None => Err (ErrTemplateUnknown (uTemplateID mr))
  | Some tpl =>
    if (uName_ mr =? "")%string then Err (ErrInvalidRequest "name is required")
    else if (128 <? String.length (uName_ mr))%nat
    then Err (ErrInvalidRequest "name exceeds 128 bytes")
    else if negb (allChars printable (uName_ mr))
    then Err (ErrInvalidRequest "name contains non-printable characters")
    else
      let d := mcDefaults mc in
      let vcpu := orDefault (uVCPUCount mr) (dVCPUCount d) in
      let mem := orDefault (uMemoryMiB mr) (dMemoryMiB d) in
      let root := orDefault (uRootDiskMiB mr) (dRootDiskMiB d) in
      let ws := orDefault (uWorkspaceDiskMiB mr) (dWorkspaceDiskMiB d) in
      if (vcpu <=? 0) || (mem <=? 0) || (root <=? 0) || (ws <=? 0)
      then Err (ErrInvalidRequest "resource values must be positive")
      else Ok (mkMemberInput (uName_ mr) vmID (TemplateID tpl) (Digest tpl) vcpu mem root ws
             (Int.i64 (mem + ReservePerVMHostOverheadMiB (pAdmission (mcPolicy mc))))
             (dNetworkProfile d) (dNetworkPolicyID d) (uLabels mr) (uRun mr))
  end.

(** The members in order, each with its new id, up to the first that is invalid. *)
Fixpoint resolveMembers (mc : ManagerConfig) (ids : nat → string) (pos : nat)
    (ms : list BatchMemberRequest) : result BatchRequestErr (list BatchMemberInput) :=
  match ms with
  | [] => Ok []
  | m :: ms =>
    match resolveMember mc (ids pos) m with
    | Err e => Err (BatchMember pos e)
    | Ok i => match resolveMembers mc ids (S pos) ms with
              | Err e => Err e
              | Ok is_ => Ok (i :: is_)
              end
    end
  end.

(** What the request hash covers of a member: neither its id nor its run. *)
Record memberSig := mkSig {
  sgName : string; sgTpl : string; sgDigest : string; sgVCPU : Z; sgMem : Z; sgRoot : Z;
  sgWS : Z; sgProfile : string; sgPolicyID : string; sgLabels : gmap string string }.

Definition sigOf (r : BatchMemberInput) : memberSig :=
  mkSig (kName r) (kTemplateID r) (kTemplateDigest r) (kVCPUCount r) (kMemoryMiB r)
    (kRootDiskMiB r) (kWorkspaceDiskMiB r) (kNetworkProfile r) (kNetworkPolicyID r)
    (default ∅ (kLabels r)).

(** The accumulating loop, at 64 bits. *)
Definition total64 (f : BatchMemberInput → Z) (l : list BatchMemberInput) : Z :=
  foldl (λ acc r, Int.i64 (acc + f r)) 0 l.

Definition totalDisk64 (l : list BatchMemberInput) : Z :=
  total64 (λ r, Int.i64 (kRootDiskMiB r + kWorkspaceDiskMiB r)) l.

(** The failure mode, [keep_successful] by default. *)
Definition onFailureOf (req : CreateBatchRequest) : string :=
  if (wOnFailure req =? "")%string then "keep_successful" else wOnFailure req.

(** [requestHash] is the SHA-256 of the JSON of mode, failure mode and members. *)
Definition planBatch (requestHash : string → string → list memberSig → string)
    (mc : ManagerConfig) (owner : string) (ids : nat → string) (req : CreateBatchRequest)
    : result BatchRequestErr CreateVMBatchInput :=
  if (length (wMembers req) =? 0)%nat
  then Err (BatchInvalid "batch must have at least one member") else
  let mode := wReservationMode req in
  if negb (mode =? "atomic_reservation")%string && negb (mode =? "best_effort")%string
  then Err (BatchInvalid "reservation_mode must be atomic_reservation or best_effort") else
  let onFailure := onFailureOf req in
  if negb (onFailure =? "keep_successful")%string && negb (onFailure =? "stop_successful")%string
  then Err (BatchInvalid "on_failure must be keep_successful or stop_successful") else
  match resolveMembers mc ids 0 (wMembers req) with
  | Err e => Err e
  | Ok resolved =>
    let p := mcPolicy mc in
    let input := mkCreateBatch owner (wIdempotencyKey req)
      (requestHash mode onFailure (sigOf <$> resolved)) mode onFailure resolved in
    if (mode =? "atomic_reservation")%string then
      Ok (input (Some (λ t, Admit p t (total64 kMemoryTotalMiB resolved)
                              (total64 kVCPUCount resolved) (totalDisk64 resolved))) None)
    else
      Ok (input None (Some (λ t mem vcpu disk, Admit p t mem vcpu disk)))
  end.

(** ** A member is resolved as a single create is *)

Definition asRequest (mr : BatchMemberRequest) : CreateRequest :=
  mkRequest (uTemplateID mr) (uName_ mr) (uVCPUCount mr) (uMemoryMiB mr) (uRootDiskMiB mr)
    (uWorkspaceDiskMiB mr) (uLabels mr) None (uRun mr).

Definition memberOf (inp : CreateVMInput) : BatchMemberInput :=
  mkMemberInput (iName inp) (iVMID inp) (iTemplateID inp) (iTemplateDigest inp)
    (iVCPUCount inp) (iMemoryMiB inp) (iRootDiskMiB inp) (iWorkspaceDiskMiB inp)
    (iMemoryTotalMiB inp) (iNetworkProfile inp) (iNetworkPolicyID inp) (iLabels inp) (iRun inp).

Lemma resolveMember_planCreate rh mc owner vm mr :
  resolveMember mc vm mr =
  match planCreate rh mc owner vm (asRequest mr) with
  | Ok inp => Ok (memberOf inp) | Err e => Err e end.
Proof.
  unfold resolveMember, planCreate, asRequest.
  cbn [qTemplateID qName qVCPUCount qMemoryMiB qRootDiskMiB qWorkspaceDiskMiB].
  destruct (uTemplateID mr =? "")%string; [done|]. destruct (mcTemplates mc !! _); [|done].
  destruct (uName_ mr =? "")%string; [done|]. destruct (128 <? _)%nat; [done|].
  destruct (negb _); [done|]. cbv zeta. by destruct (_ || _).
Qed.

(** * Capacity *)

(** The sizes of a batch stay below the limit, together. *)
Definition sized (p : Policy) (inp : CreateVMBatchInput) : Prop :=
  sumZ kMemoryTotalMiB (gMembers inp) < room ∧
  sumZ (λ m, kRootDiskMiB m + kWorkspaceDiskMiB m) (gMembers inp) < room ∧
  sumZ kVCPUCount (gMembers inp) < room ∧
  ∀ m, m ∈ gMembers inp → kMemoryMiB m + ReservePerVMHostOverheadMiB (pAdmission p) < room.

Definition proper (p : Policy) (m : BatchMemberInput) : Prop :=
  0 < kVCPUCount m ∧ 0 < kMemoryMiB m ∧ 0 < kRootDiskMiB m ∧ 0 < kWorkspaceDiskMiB m ∧
  kMemoryTotalMiB m = Int.i64 (kMemoryMiB m + ReservePerVMHostOverheadMiB (pAdmission p)).

Lemma resolveMember_proper mc vm mr m :
  resolveMember mc vm mr = Ok m → proper (mcPolicy mc) m.
Proof.
  rewrite (resolveMember_planCreate (λ _ _ _ _ _ _, "") mc "").
  destruct (planCreate _ _ _ _ _) as [inp|e] eqn:E; [|done]. intros [= <-].
  by apply planCreate_Ok in E as (? & ? & ? & ? & ? & _).
Qed.

Lemma resolveMembers_proper mc ids pos ms ins :
  resolveMembers mc ids pos ms = Ok ins → Forall (proper (mcPolicy mc)) ins.
Proof.
  revert pos ins. induction ms as [|m ms IH]; intros pos ins; cbn; [intros [= <-]; constructor|].
  destruct (resolveMember _ _ _) eqn:E; [|done].
  destruct (resolveMembers _ _ _ _) eqn:E'; [|done]. intros [= <-].
  constructor; [by eapply resolveMember_proper|by eapply IH].
Qed.

Lemma total64_sum f l :
  (∀ m, m ∈ l → 0 ≤ f m) → sumZ f l < room → total64 f l = sumZ f l.
Proof.
  unfold total64. intros Hf Hs.
  assert (H : ∀ acc, 0 ≤ acc → acc + sumZ f l < room →
    foldl (λ acc r, Int.i64 (acc + f r)) acc l = acc + sumZ f l).
  { clear Hs. induction l as [|m l IH]; intros acc Ha Hs; cbn [foldl]; [cbn; lia|].
    rewrite sumZ_cons in *. assert (0 ≤ f m) by (apply Hf; left).
    assert (0 ≤ sumZ f l) by (apply sumZ_nonneg; intros x Hx; apply Hf; by right).
    rewrite Int.i64_small by (unfold room in *; lia).
    rewrite IH; [lia| |lia..]. intros x Hx. apply Hf. by right. }
  rewrite H; lia.
Qed.

Lemma sumZ_elem {A} (f : A → Z) l x :
  (∀ y, y ∈ l → 0 ≤ f y) → x ∈ l → f x ≤ sumZ f l.
Proof.
  intros Hf. induction l as [|y l IH]; intros Hx; [by apply elem_of_nil in Hx|].
  rewrite sumZ_cons. assert (0 ≤ f y) by (apply Hf; left).
  assert (0 ≤ sumZ f l) by (apply sumZ_nonneg; intros z Hz; apply Hf; by right).
  apply elem_of_cons in Hx as [->|Hx]; [lia|].
  pose proof (IH ltac:(intros z Hz; apply Hf; by right) Hx). lia.
Qed.

(** What a member costs, in range. *)
Definition fits (m : BatchMemberInput) : Prop :=
  0 ≤ kMemoryTotalMiB m < room ∧ 0 ≤ kVCPUCount m ∧
  Int.i64 (kRootDiskMiB m + kWorkspaceDiskMiB m) = kRootDiskMiB m + kWorkspaceDiskMiB m ∧
  0 ≤ kRootDiskMiB m + kWorkspaceDiskMiB m < room.

Lemma sized_fits p inp m :
  sane p → Forall (proper p) (gMembers inp) → sized p inp → m ∈ gMembers inp → fits m.
Proof.
  intros (_ & _ & Hov) Hp (H1 & H2 & _ & H4) Hm. rewrite Forall_forall in Hp.
  destruct (Hp m Hm) as (P1 & P2 & P3 & P4 & P5). specialize (H4 m Hm).
  assert (kRootDiskMiB m + kWorkspaceDiskMiB m ≤
    sumZ (λ m, kRootDiskMiB m + kWorkspaceDiskMiB m) (gMembers inp)).
  { apply (sumZ_elem (λ m, kRootDiskMiB m + kWorkspaceDiskMiB m)); [|done].
    intros y Hy. destruct (Hp y Hy) as (_ & _ & ? & ? & _). lia. }
  unfold fits. rewrite P5, !Int.i64_small by (unfold room in *; lia). lia.
Qed.

(** The reservation a member takes. *)
Definition reservedFor (m : BatchMemberInput) (r : Reservation) : Prop :=
  rMemoryTotalMiB r = kMemoryTotalMiB m ∧ rVCPU r = kVCPUCount m ∧
  rDiskMiB r = Int.i64 (kRootDiskMiB m + kWorkspaceDiskMiB m) ∧
  rReleased r = false ∧ rComputeReleased r = false.

Section capacity.
Context (hash : Envelope → string) (p : Policy) (es : nat → Env).

Lemma admitted_res b owner pos ms rs x x' :
  keyed_ok hash (base x) → allReady es (length ms) (base x) →
  NoDup (rVMID <$> reservations (db (base x))) →
  insertAdmittedMembers hash es b owner pos ms x = (Ok rs, x') →
  NoDup (rVMID <$> reservations (db (base x'))) ∧ ∃ news,
    reservations (db (base x')) = reservations (db (base x)) ++ news ∧
    Forall2 reservedFor ms news.
Proof.
  revert pos rs x. induction ms as [|m ms IH]; intros pos rs x Hk Hr Hnd.
  { intros [<- <-]%bret_Ok. split; [done|]. exists []. rewrite app_nil_r. by split; [|constructor]. }
  cbn [insertAdmittedMembers]. intros (r & x1 & H1 & H)%bbind_Ok.
  apply bbind_Ok in H as (rs' & x2 & H2 & [<- <-]%bret_Ok).
  pose proof (allReady_one _ _ pos _ Hr) as Hr4.
  destruct (member_after hash _ _ _ _ _ _ _ _ Hk Hr4 H1) as (Hk1 & _ & _ & Hn).
  apply insertOneMember_Ok in H1 as (v & o & Hc & _).
  apply createGranted_Ok in Hc as (? & ? & _ & Hx1 & _ & _ & _ & Hfree & _); [|apply Hk|done].
  destruct (IH (S pos) rs' x1 Hk1 (allReady_next _ _ _ _ Hn Hr)) as (Hnd2 & news & Hres & Hf);
    [rewrite Hx1; by apply nodup_res_granted|done|].
  split; [done|]. exists (newReservation (es pos) (memberInput owner m) :: news).
  rewrite Hres, Hx1, res_granted, <- app_assoc. split; [done|]. by constructor.
Qed.

Lemma bestEffort_within b owner pos ms any last rs any' last' x x' :
  sane p → keyed_ok hash (base x) → allReady es (length ms) (base x) →
  (∀ m, m ∈ ms → fits m) → within p (db (base x)) →
  bestEffortLoop hash es b owner (Some (λ t mem vcpu disk, Admit p t mem vcpu disk)) pos ms
    any last x = (Ok (rs, any', last'), x') →
  within p (db (base x')).
Proof.
  intros Hs. revert pos any last rs any' last' x.
  induction ms as [|m ms IH]; intros pos any last rs any' last' x Hk Hr Hf W.
  { by intros [_ <-]%bret_Ok. }
  cbn [bestEffortLoop]. intros (t & ? & [-> Ht]%totals_state & H)%bbind_Ok.
  apply bbind_Ok in H as (adm & ? & [[= <-] <-]%bsome_Ok & H).
  destruct (Admit _ _ _ _ _) as [[f|msg]|] eqn:Ha; [|done|].
  - apply bbind_Ok in H as (r & x1 & [_ ->]%insertRefused_Ok & H).
    apply bbind_Ok in H as ([[rs' a'] l'] & x2 & H2 & [_ <-]%bret_Ok).
    eapply IH; [| | | |exact H2]; [done|by apply allReady_rest| |done].
    intros m' Hm'. apply Hf. by right.
  - apply bbind_Ok in H as (r & x1 & H1 & H).
    apply bbind_Ok in H as ([[rs' a'] l'] & x2 & H2 & [_ <-]%bret_Ok).
    pose proof (allReady_one _ _ pos _ Hr) as Hr4.
    destruct (member_after hash _ _ _ _ _ _ _ _ Hk Hr4 H1) as (Hk1 & _ & _ & Hn).
    eapply IH; [exact Hk1|by eapply allReady_next| | |exact H2].
    + intros m' Hm'. apply Hf. by right.
    + apply insertOneMember_Ok in H1 as (v & o & Hc & _).
      apply createGranted_Ok in Hc as (? & ? & _ & -> & _ & _ & _ & Hfree & _); [|apply Hk|done].
      destruct (Hf m ltac:(left)) as (F1 & F2 & F3 & F4).
      apply (within_admitted hash p _ _ _ t); try done. cbn. by rewrite F3.
Qed.

Lemma reserved_sum (f : BatchMemberInput → Z) (g : Reservation → Z) ms news :
  (∀ m r, reservedFor m r → g r = f m) → Forall2 reservedFor ms news →
  sumZ g news = sumZ f ms.
Proof.
  intros Hfg. induction 1 as [|m r ms news H _ IH]; [done|].
  by rewrite !sumZ_cons, IH, (Hfg m r H).
Qed.

Lemma reserved_for ms news r :
  Forall2 reservedFor ms news → r ∈ news → ∃ m, m ∈ ms ∧ reservedFor m r.
Proof.
  intros H [i Hi]%list_elem_of_lookup.
  destruct (Forall2_lookup_r _ _ _ _ _ H Hi) as (m & Hm & ?). exists m.
  split; [by eapply list_elem_of_lookup_2|done].
Qed.

Lemma refuse_base b f pos ms rs x x' :
  refuseMembers b f pos ms x = (Ok rs, x') → base x' = base x.
Proof.
  revert pos rs x. induction ms as [|m ms IH]; intros pos rs x; [by intros [_ <-]%bret_Ok|].
  cbn [refuseMembers]. intros (r & x1 & [_ ->]%insertRefused_Ok & H)%bbind_Ok.
  apply bbind_Ok in H as (rs' & x2 & H2 & [_ <-]%bret_Ok). by apply IH in H2.
Qed.

Lemma atomic_within b inp rs state refusal x x' :
  sane p → keyed_ok hash (base x) → allReady es (length (gMembers inp)) (base x) →
  Forall (proper p) (gMembers inp) → sized p inp → within p (db (base x)) →
  gAdmitBatch inp = Some (λ t, Admit p t (total64 kMemoryTotalMiB (gMembers inp))
    (total64 kVCPUCount (gMembers inp)) (totalDisk64 (gMembers inp))) →
  processAtomicBatch hash es b inp x = (Ok (rs, state, refusal), x') →
  within p (db (base x')).
Proof.
  intros Hs Hk Hr Hp Hz W Hadm. unfold processAtomicBatch. rewrite Hadm.
  intros (t & ? & [-> Ht]%totals_state & H)%bbind_Ok.
  apply bbind_Ok in H as (adm & ? & [[= <-] <-]%bsome_Ok & H).
  destruct (Admit _ _ _ _ _) as [[f|msg]|] eqn:Ha; [|done|];
    apply bbind_Ok in H as (rs' & x2 & H & [_ <-]%bret_Ok).
  { apply refuse_base in H. by rewrite H. }
  apply admitted_res in H as (Hnd & news & Hres & Hf2); [|done|done|apply W].
  assert (Hfit : ∀ m, m ∈ gMembers inp → fits m) by (intros; by eapply sized_fits).
  assert (E1 : sumZ rMemoryTotalMiB news = sumZ kMemoryTotalMiB (gMembers inp))
    by (eapply reserved_sum; [|exact Hf2]; by intros ? ? (? & _)).
  assert (E2 : sumZ rVCPU news = sumZ kVCPUCount (gMembers inp))
    by (eapply reserved_sum; [|exact Hf2]; by intros ? ? (_ & ? & _)).
  assert (E3 : sumZ rDiskMiB news =
    sumZ (λ r, Int.i64 (kRootDiskMiB r + kWorkspaceDiskMiB r)) (gMembers inp)).
  { eapply (reserved_sum (λ r, Int.i64 (kRootDiskMiB r + kWorkspaceDiskMiB r))); [|exact Hf2].
    by intros ? ? (_ & _ & ? & _). }
  assert (E4 : sumZ (λ r, Int.i64 (kRootDiskMiB r + kWorkspaceDiskMiB r)) (gMembers inp) =
    sumZ (λ r, kRootDiskMiB r + kWorkspaceDiskMiB r) (gMembers inp)).
  { apply sumZ_ext_in. intros m Hm. by destruct (Hfit m Hm) as (_ & _ & ? & _). }
  destruct Hz as (Z1 & Z2 & Z3 & _).
  apply (within_append p (db (base x)) _ news t); try done; [|lia|lia|].
  - intros r Hin. destruct (reserved_for _ _ _ Hf2 Hin) as (m & Hm & R1 & R2 & R3 & R4 & R5).
    destruct (Hfit m Hm) as (F1 & F2 & F3 & F4). rewrite R1, R2, R3, F3. done.
  - unfold totalDisk64 in Ha. rewrite E1, E2, E3.
    rewrite !total64_sum in Ha; try done; try lia;
      intros m Hm; destruct (Hfit m Hm) as (? & ? & E & ?); rewrite ?E; lia.
Qed.

End capacity.

Lemma planBatch_Ok rh mc owner ids req inp :
  planBatch rh mc owner ids req = Ok inp →
  Forall (proper (mcPolicy mc)) (gMembers inp) ∧ gMembers inp ≠ [] ∧
  ((gReservationMode inp = "atomic_reservation" ∧
    gAdmitBatch inp = Some (λ t, Admit (mcPolicy mc) t
      (total64 kMemoryTotalMiB (gMembers inp)) (total64 kVCPUCount (gMembers inp))
      (totalDisk64 (gMembers inp)))) ∨
   (gReservationMode inp = "best_effort" ∧
    gAdmitMember inp = Some (λ t mem vcpu disk, Admit (mcPolicy mc) t mem vcpu disk))).
Proof.
  unfold planBatch. destruct (wMembers req) as [|m ms] eqn:Hm; [done|].
  change (length (m :: ms) =? 0)%nat with false. cbv zeta iota.
  match goal with |- (if ?b then _ else _) = _ → _ => destruct b eqn:Hmode end; [done|].
  match goal with |- (if ?b then _ else _) = _ → _ => destruct b end; [done|].
  destruct (resolveMembers _ _ _ _) as [l|] eqn:E; [|done].
  assert (Hl : l ≠ []).
  { cbn in E. destruct (resolveMember _ _ _); [|done].
    destruct (resolveMembers _ _ _ _); [|done]. by injection E as <-. }
  apply resolveMembers_proper in E.
  destruct (wReservationMode req =? "atomic_reservation")%string eqn:Ha; intros [= <-]; cbn.
  - split_and!; [done..|]. left. by apply String.eqb_eq in Ha.
  - split_and!; [done..|]. right. cbn in Hmode.
    apply negb_false_iff, String.eqb_eq in Hmode. done.
Qed.

Lemma resolveMembers_length mc ids pos ms ins :
  resolveMembers mc ids pos ms = Ok ins → length ins = length ms.
Proof.
  revert pos ins. induction ms as [|m ms IH]; intros pos ins; cbn; [by intros [= <-]|].
  destruct (resolveMember _ _ _); [|done]. destruct (resolveMembers _ _ _ _) eqn:E; [|done].
  intros [= <-]. cbn. f_equal. by eapply IH.
Qed.

Lemma planBatch_length rh mc owner ids req inp :
  planBatch rh mc owner ids req = Ok inp → length (gMembers inp) = length (wMembers req).
Proof.
  unfold planBatch. cbv zeta. intros H. repeat (case_match; try done); simplify_eq; cbn;
    by eapply resolveMembers_length.
Qed.

(** ** Executions under a policy *)

Section governed.
Context (hash : Envelope → string) (p : Policy).

(** The store's operations as the manager makes them, and batches that come from
    its request resolution. *)
Inductive gbstep : BStore → BStore → Prop :=
  | gb_op o x s' : governed p o (base x) → step hash (base x) o s' → gbstep x (over s' x)
  | gb_batch es e rh mc owner ids req inp x :
      mcPolicy mc = p → planBatch rh mc owner ids req = Ok inp → sized p inp →
      allReady es (length (gMembers inp)) (base x) → ready (cost inp) e (base x) →
      gbstep x (CreateVMBatch hash es e inp x).2.

Lemma gbstep_bstep x x' : gbstep x x' → bstep hash x x'.
Proof. intros []; [by eapply bs_op|by apply bs_batch]. Qed.

(** What a batch that changes tables processed on the way. *)
Lemma finish_process es e inp x r x' :
  CreateVMBatch hash es e inp x = (r, x') →
  db (base x') = db (base x) ∨ ∃ id rs st rf x2,
    process hash es id inp (set_batches (insertRow id (newBatch e inp id)) x) =
      (Ok (rs, st, rf), x2) ∧ reservations (db (base x')) = reservations (db (base x2)).
Proof.
  destruct (keyRow inp x) as [b|] eqn:Hb.
  { rewrite (CreateVMBatch_taken hash es e _ _ _ Hb). intros [= _ <-]. by left. }
  rewrite <- recheck. unfold finishBatch. unfold mbind at 1, B_bind at 1, binTx.
  destruct (batchInTx hash es e inp x) as [[[id|id o rs]|err] x1] eqn:Htx.
  - by apply batchInTx_replay in Htx as [Htx _].
  - apply batchInTx_inv in Htx as (x2 & st & rf & _ & _ & Hp & Hrec & _).
    unfold mbind, B_bind. rewrite getBatchRow_eq.
    assert (Hres : reservations (db (base x1)) = reservations (db (base x2))).
    { pose proof (res_quiet hash e (OBatchOp (batchOpOf inp st rf)) (base x2) eq_refl) as H.
      unfold sameRes in H. cbn [exec] in H. unfold inTx in H. by rewrite Hrec in H. }
    intros H. right. exists id, rs, st, rf, x2. split; [done|].
    destruct (select1 _ _); by injection H as _ <-.
  - intros [= _ <-]. by left.
Qed.

Lemma batch_within es e rh mc owner ids req inp x :
  sane p → mcPolicy mc = p → planBatch rh mc owner ids req = Ok inp → sized p inp →
  keyed_ok hash (base x) → allReady es (length (gMembers inp)) (base x) →
  within p (db (base x)) → within p (db (base (CreateVMBatch hash es e inp x).2)).
Proof.
  intros Hs <- Hplan Hz Hk Hr W.
  destruct (CreateVMBatch hash es e inp x) as [r x'] eqn:E. cbn [snd].
  apply finish_process in E as [->|(id & rs & st & rf & x2 & Hp & Hres)]; [done|].
  eapply within_same; [exact Hres|]. set (x0 := set_batches _ x) in Hp.
  destruct (planBatch_Ok _ _ _ _ _ _ Hplan) as (Hprop & _ & [[Hm Ha]|[Hm Ha]]);
    unfold process in Hp; rewrite Hm in Hp; cbn [String.eqb] in Hp.
  - by eapply (atomic_within hash (mcPolicy mc) es id inp rs st rf x0).
  - change ("best_effort" =? "atomic_reservation")%string with false in Hp.
    change ("best_effort" =? "best_effort")%string with true in Hp. cbv iota in Hp.
    unfold processBestEffortBatch in Hp. rewrite Ha in Hp.
    apply bbind_Ok in Hp as ([[rs' any] last] & ? & Hp & [_ <-]%bret_Ok).
    eapply (bestEffort_within hash (mcPolicy mc) es); [done| | | | |exact Hp]; try done.
    intros m Hin. by eapply sized_fits.
Qed.

Lemma gbsteps_within x x' :
  sane p → rtc gbstep x x' → keyed_ok hash (base x) → within p (db (base x)) →
  within p (db (base x')).
Proof.
  intros Hs. induction 1 as [x|x x1 x' Hst _ IH]; intros Hk W; [done|]. apply IH.
  - eapply bsteps_store; [|done]. by eapply rtc_once, gbstep_bstep.
  - destruct Hst as [o x s' Hg Hst|es e rh mc owner ids req inp x Hp Hplan Hz Hr He].
    + eapply within_step; [done..|apply Hk|done].
    + by eapply batch_within.
Qed.

End governed.

(** C4: Admission never oversubscribes the host, with batches in play. Under a
    policy, in any execution in which single creates and batches of either mode
    come from the manager's request resolution and restarts ask for what the VM's
    reservation row holds, interleaved in any way with every other store
    operation, refusal, deletion, failed batch and controller restart: the memory
    held by unreleased reservations stays within [UsableMemoryMiB] unless
    overcommit is allowed; the vCPUs held stay within [UsableVCPU], rounded down and
    no less than zero, when that capacity is a [float64] below 2^53; and, when disk
    capacity is the one measured at startup, the disk held stays within
    [UsableDiskMiB]. The capacities and the sizes of a request, of all members of a
    batch together, are assumed to be below 2^62, and the per-VM overhead not to be
    negative. *)
Theorem never_oversubscribed_batches hash inst p x :
  sane p → rtc (gbstep hash p) (openB inst) x →
  (AllowMemoryOvercommit (pAdmission p) = false →
     0 ≤ memHeld (db (base x)) ≤ UsableMemoryMiB p) ∧
  (exact (UsableVCPU p) = true → 0 ≤ cpuHeld (db (base x)) ≤ vcpuLimit p) ∧
  (pObserveDisk p = None → 0 ≤ diskHeld (db (base x)) ≤ UsableDiskMiB p).
Proof.
  intros Hs H.
  destruct (gbsteps_within hash p _ _ Hs H (keyed_empty hash inst) (within_empty p inst))
    as [_ W2 W3 W4 W5].
  split_and!.
  - intros E. split; [|by apply W3]. apply sumZ_nonneg. intros r Hr. apply held_nonneg.
    by apply W2.
  - intros E. split; [|by apply W4]. apply sumZ_nonneg. intros r Hr. apply held_nonneg.
    by apply W2.
  - intros E. split; [|by apply W5]. apply sumZ_nonneg. intros r Hr. unfold heldDisk.
    destruct (W2 r Hr) as (_ & _ & ?). case_match; lia.
Qed.

(** A host of 7117 MiB: an atomic batch of two fits, a third VM does not. *)
Definition exMemberRequest (name : string) : BatchMemberRequest :=
  mkMemberRequest name "tpl" 1 2048 0 0 None None.
Definition exBatchRequest : CreateBatchRequest :=
  mkBatchRequest [exMemberRequest "a"; exMemberRequest "b"] "atomic_reservation" "" (Some "k").
Definition exIDs (i : nat) : string :=
  match i with 0%nat => exVM | _ => "66666666-6666-4666-8666-666666666666" end.

Definition exPlanned (key : string) (mode : string) : CreateVMBatchInput :=
  match planBatch (λ _ _ _, "h") exManager "alice" exIDs
          (mkBatchRequest [exMemberRequest "a"; exMemberRequest "b"] mode "" (Some key)) with
  | Ok inp => inp
  | Err _ => mkCreateBatch "" None "" "" "" [] None None
  end.

Definition exAtomic : BStore :=
  (CreateVMBatch exHash exEs (exEnv "") (exPlanned "k" "atomic_reservation") (openB exInst)).2.
Definition exSingle : BStore :=
  over (exec exHash (exEnv "") (OCreateVM (exPlan exVM2)) (base exAtomic)) exAtomic.

Lemma exAtomic_run : rtc (gbstep exHash exPolicy) (openB exInst) exSingle.
Proof.
  eapply rtc_l; [|apply rtc_once].
  - eapply (gb_batch exHash exPolicy exEs (exEnv "") (λ _ _ _, "h") exManager "alice" exIDs
      exBatchRequest (exPlanned "k" "atomic_reservation")); [reflexivity|reflexivity| | |].
    + split_and!; [vm_compute; reflexivity..|]. intros m Hm.
      repeat (apply elem_of_cons in Hm as [->|Hm]; [vm_compute; reflexivity|]).
      by apply elem_of_nil in Hm.
    + apply (exReady 2). lia.
    + apply readyb_spec. vm_compute. reflexivity.
  - apply gb_op with (o := OCreateVM (exPlan exVM2)); [apply exGrants_governed|].
    apply step_op; [|exact I]. apply readyb_spec. vm_compute. reflexivity.
Qed.

Lemma never_oversubscribed_batches_witness :
  memHeld (db (base exSingle)) = 4352 ∧ cpuHeld (db (base exSingle)) = 2 ∧
  (oPhase <$> rows (operations (db (base exSingle)))) =
    ["admitted"; "admitted"; "admitted"; "admission"] ∧
  0 ≤ memHeld (db (base exSingle)) ≤ UsableMemoryMiB exPolicy ∧
  vcpuLimit exPolicy = 4 ∧ 0 ≤ cpuHeld (db (base exSingle)) ≤ vcpuLimit exPolicy.
Proof.
  do 3 (split; [vm_compute; reflexivity|]).
  assert (Hs : sane exPolicy)
    by (split; [vm_compute; reflexivity|split; vm_compute; [reflexivity|discriminate]]).
  destruct (never_oversubscribed_batches exHash exInst exPolicy exSingle Hs exAtomic_run)
    as (Hm & Hc & _).
  split; [exact (Hm eq_refl)|]. split; [vm_compute; reflexivity|].
  apply Hc. vm_compute. reflexivity.
Defined.

End BatchPlan.
