(* ===== verification/Manager.v ===== *)
(** The lifecycle manager (internal/runtime/manager.go, cleanup_retry.go, runs.go):
    launch, actions, delete, startup reconciliation, exit notices, cleanup retries
    and the conclusion of runs.

    An operation is a program: a tree of calls, each of the store, of the runtime
    (the [Runtime] interface of runtime.go) or of the process itself, with what
    the code does on every answer. A store call is one transaction or one read;
    between two calls anything else can happen. *)

From S2P Require Import Prelude Events Store RunStore VmStore StoreRules Registry History Admission.
Import Events Sql Store Log Runs Vms Admission.

Local Open Scope Z_scope.

Module Manager.

(** * The runtime's answers *)

Inductive RtErr :=
  | UnavailableError (reason : string)
  | ErrLaunchPending (text : string)
  | ErrStopNotProven (text : string)
  | ErrCleanupPending (text : string)
  | Canceled (text : string)
  | RtFailed (text : string).

Definition rtText (e : RtErr) : string :=
  match e with
  | UnavailableError r => "runtime unavailable: " +:+ r
  | ErrLaunchPending t | ErrStopNotProven t | ErrCleanupPending t | Canceled t | RtFailed t => t
  end.

(** [cleanupDebt]: the VMM is proven gone and something it owned is not. *)
Definition cleanupDebt (e : RtErr) : bool :=
  match e with ErrCleanupPending _ => true | _ => false end.
Definition unavailable (e : RtErr) : bool :=
  match e with UnavailableError _ => true | _ => false end.

Record VMSpec := mkSpec {
  spVMID : string; spBootID : string; spVCPUCount : Z; spMemoryMiB : Z;
  spRootDiskMiB : Z; spWorkspaceDiskMiB : Z; spNetworkProfile : string;
  spNetworkPolicyID : string; spTemplateID : string; spTemplateDigest : string }.

(** What a goroutine the manager starts does. *)
Inductive Task :=
  | LaunchVM (vm : string)
  | StopAfterRun (vm : string)
  | GenerateReport (run : string)
  | ConcludeRun_ (run : string).

(** * Calls *)

(** Which VMs a listing is about. *)
Record VMQuery := mkQuery {
  qAfter : Z; qLimit : Z; qStates : list string; qOwner : string;
  qIncludeStoppedCleanup : bool }.

Inductive Call :=
  | SGetVM (vm : string)
  | SGetReservation (vm : string)
  | SHasCleanupDebt (vm : string)
  | SGetOperation (id : Z)
  | SActiveRunForVM (vm : string)
  | SGetRun (run : string)
  | SGetRunReport (run : string)
  | SHasRunningReportOp (run : string)
  | SListVMs (q : VMQuery)
  | SListOperationsByState (state : string)
  | SListRunsInPhases (phases : list string)
  | SCreateVM (inp : CreateVMInput)
  | STransitionVM (inp : TransitionInput)
  | SUpdateOperation (u : OperationUpdate)
  | SInsertAction (inp : ActionOperationInput)
  | SCleanupFailure (vm state reason : string)
  | SReconcileAmbiguity (vm state detail : string)
  | SReleaseVMReservations (vm : string)
  | SClearCleanupDebt (vm : string)
  | STransitionRun (inp : RunTransitionInput)
  | RAvailability
  | RLaunch (spec : VMSpec)
  | RPause (vm : string)
  | RResume (vm : string)
  | RStop (vm : string)
  | RForceStop (vm : string)
  | RRelease (vm : string)
  | CContext
  | CUUID
  | CClaim (vm : string)
  | CGo (t : Task)
  | CBeginDelete (vm : string)
  | CReport (run : string)
  | CSlot.

(** What a call answers. [Stop] reports whether it forced beside its error;
    [CContext] whether the operation's context is still live, [CClaim], [CGo] and
    [CSlot] whether the manager still takes work, [CBeginDelete] whether no other delete
    of the VM is under way. *)
Definition Ans (c : Call) : Type :=
  match c with
  | SGetVM _ | STransitionVM _ => result StoreErr VM
  | SGetReservation _ => result StoreErr Reservation
  | SHasCleanupDebt _ | SHasRunningReportOp _ => result StoreErr bool
  | SGetOperation _ | SUpdateOperation _ => result StoreErr Operation
  | SActiveRunForVM _ => result StoreErr (option Run)
  | SGetRun _ | STransitionRun _ => result StoreErr Run
  | SGetRunReport _ => result StoreErr RunReport
  | SListVMs _ => result StoreErr (list VM)
  | SListOperationsByState _ => result StoreErr (list Operation)
  | SListRunsInPhases _ => result StoreErr (list Run)
  | SCreateVM _ => result StoreErr CreateOutcome
  | SInsertAction _ => result StoreErr Z
  | SCleanupFailure _ _ _ | SReconcileAmbiguity _ _ _ | SReleaseVMReservations _
  | SClearCleanupDebt _ => result StoreErr unit
  | RAvailability | RPause _ | RResume _ | RForceStop _ | RRelease _ => option RtErr
  | RLaunch _ => result RtErr (option Images)
  | RStop _ => bool * option RtErr
  | CContext | CClaim _ | CGo _ | CBeginDelete _ | CSlot => bool
  | CUUID => string
  | CReport _ => unit
  end.

Inductive Prog (A : Type) :=
  | Ret (a : A)
  | Do (c : Call) (k : Ans c → Prog A).
Arguments Ret {A} a.
Arguments Do {A} c k.

#[export] Instance prog_ret : MRet Prog := λ A a, Ret a.
#[export] Instance prog_bind : MBind Prog := λ A B f,
  fix go p := match p with Ret a => f a | Do c k => Do c (λ r, go (k r)) end.

Definition call (c : Call) : Prog (Ans c) := Do c Ret.

(** * Transitions, as the manager writes them *)

Definition moveTo (vm to reason : string) (op : Z) : TransitionInput :=
  mkTransition vm None None to reason op None None None false false false None None None.

Section inputs.
Context (t : TransitionInput).
Let upd rev from desired stage freason relC acq relAll boot images adm :=
  mkTransition (nVMID t) rev from (nTo t) (nReason t) (nOperationID t) desired stage freason
    relC acq relAll boot images adm.
Definition pinned (rev : option Z) :=
  upd rev (nFrom t) (nDesiredState t) (nFailureStage t) (nFailureReason t) (nReleaseCompute t)
    (nAcquireCompute t) (nReleaseAll t) (nBootID t) (nImages t) (nAdmit t).
Definition from (f : string) :=
  upd (nExpectedRevision t) (Some f) (nDesiredState t) (nFailureStage t) (nFailureReason t)
    (nReleaseCompute t) (nAcquireCompute t) (nReleaseAll t) (nBootID t) (nImages t) (nAdmit t).
Definition wanting (d : string) :=
  upd (nExpectedRevision t) (nFrom t) (Some d) (nFailureStage t) (nFailureReason t)
    (nReleaseCompute t) (nAcquireCompute t) (nReleaseAll t) (nBootID t) (nImages t) (nAdmit t).
Definition failing (stage reason : string) :=
  upd (nExpectedRevision t) (nFrom t) (nDesiredState t) (Some stage) (Some reason)
    (nReleaseCompute t) (nAcquireCompute t) (nReleaseAll t) (nBootID t) (nImages t) (nAdmit t).
Definition releasing (b : bool) :=
  upd (nExpectedRevision t) (nFrom t) (nDesiredState t) (nFailureStage t) (nFailureReason t)
    b (nAcquireCompute t) (nReleaseAll t) (nBootID t) (nImages t) (nAdmit t).
Definition acquiring (adm : ReservationTotals → option AdmitErr) :=
  upd (nExpectedRevision t) (nFrom t) (nDesiredState t) (nFailureStage t) (nFailureReason t)
    (nReleaseCompute t) true (nReleaseAll t) (nBootID t) (nImages t) (Some adm).
Definition releasingAll :=
  upd (nExpectedRevision t) (nFrom t) (nDesiredState t) (nFailureStage t) (nFailureReason t)
    (nReleaseCompute t) (nAcquireCompute t) true (nBootID t) (nImages t) (nAdmit t).
Definition booting (b : string) :=
  upd (nExpectedRevision t) (nFrom t) (nDesiredState t) (nFailureStage t) (nFailureReason t)
    (nReleaseCompute t) (nAcquireCompute t) (nReleaseAll t) (Some b) (nImages t) (nAdmit t).
Definition staging (i : option Images) :=
  upd (nExpectedRevision t) (nFrom t) (nDesiredState t) (nFailureStage t) (nFailureReason t)
    (nReleaseCompute t) (nAcquireCompute t) (nReleaseAll t) (nBootID t) i (nAdmit t).
End inputs.

(** [errors.Is(err, new(store.InvalidTransitionError))], and the same of runs. *)
Definition invalidTransition (e : StoreErr) : bool :=
  match e with InvalidTransition _ _ => true | _ => false end.
Definition invalidRunTransition (e : StoreErr) : bool :=
  match e with InvalidRunTransition _ _ _ => true | _ => false end.

(** The errors of the manager's own operations. *)
Inductive ManagerErr :=
  | MStore (e : StoreErr)
  | MUnknownAction
  | MReservation (e : StoreErr)
  | MRuntime (op : string) (e : RtErr)
  | MReleaseFailed (e : RtErr)
  | MVMLive
  | MUnavailable (e : RtErr)
  | MRequest (e : RequestErr)
  | MRefused (r : AdmissionRefusal).

Section manager.
Context (errText : StoreErr → string) (reporting : bool).

(** * Runs *)

Inductive concludeTrigger :=
  triggerGuestResult | triggerVMTerminal | triggerInterrupted | triggerLaunchFail.

Definition triggerDesc (t : concludeTrigger) : string :=
  match t with
  | triggerVMTerminal => "vm reached a terminal state"
  | triggerInterrupted => "interrupted: daemon restarted; vm no longer live"
  | triggerGuestResult => "result was submitted"
  | triggerLaunchFail => "vm launch failed"
  end.

Definition triggerReason (t : concludeTrigger) : string :=
  match t with
  | triggerVMTerminal => "vm reached a terminal state"
  | triggerInterrupted => "interrupted: daemon restarted; vm no longer live"
  | triggerGuestResult => "guest result submitted"
  | triggerLaunchFail => "vm launch failed before the run started"
  end.

(** The terminal phase, who evaluated it, and why. *)
Definition evaluateRun (run : Run) (t : concludeTrigger) : string * string * string :=
  match t with
  | triggerLaunchFail => ("inconclusive", "system", "vm launch failed before the run started")
  | _ =>
    if (uCriteriaType run =? "operator_verdict")%string then
      ("inconclusive", "system", "no verdict was submitted before " +:+ triggerDesc t)
    else if (uCriteriaType run =? "guest_result")%string then
      if (uResultStatus run =? "succeeded")%string
      then ("succeeded", "guest_result", "guest reported success")
      else if (uResultStatus run =? "failed")%string
      then ("failed", "guest_result", "guest reported failure")
      else ("inconclusive", "system", "no result was recorded before " +:+ triggerDesc t)
    else if (uCriteriaType run =? "exec_exit_zero")%string then
      ("inconclusive", "system", "no exec attached; exec capability not built")
    else ("inconclusive", "system", "unknown criteria type")
  end.

Definition postConclude (run : Run) : Prog unit :=
  _ ← (if (uOnCompletion run =? "stop")%string
       then call (CGo (StopAfterRun (uVMID run))) else mret false);
  _ ← (if reporting then call (CGo (GenerateReport (uRunID run))) else mret false);
  mret tt.

(** The two pinned transitions every conclusion makes; the loser of a race reads
    the run back. *)
Definition settleRun (runID terminal reason by_ : string) : Prog (result StoreErr Run) :=
  r ← call (STransitionRun (mkRunTransition runID "concluding" terminal reason by_));
  match r with
  | Err e => if invalidRunTransition e then call (SGetRun runID) else mret (Err e)
  | Ok concluded => _ ← postConclude concluded; mret (Ok concluded)
  end.

Definition startConcluding (runID phase reason : string) (next : Prog (result StoreErr Run))
    : Prog (result StoreErr Run) :=
  r ← call (STransitionRun (mkRunTransition runID phase "concluding" reason ""));
  match r with
  | Err e => if invalidRunTransition e then call (SGetRun runID) else mret (Err e)
  | Ok _ => next
  end.

Definition concludeRun (runID : string) (t : concludeTrigger) : Prog (result StoreErr Run) :=
  r ← call (SGetRun runID);
  match r with
  | Err e => mret (Err e)
  | Ok run =>
    if terminalRunPhases (uPhase run) then mret (Ok run) else
    startConcluding runID (uPhase run) (triggerReason t) (
      r ← call (SGetRun runID);
      match r with
      | Err e => mret (Err e)
      | Ok run =>
        let '(terminal, by_, reason) := evaluateRun run t in
        settleRun runID terminal reason by_
      end)
  end.

Definition concludeRunAbort (runID reason : string) : Prog (result StoreErr Run) :=
  r ← call (SGetRun runID);
  match r with
  | Err e => mret (Err e)
  | Ok run =>
    startConcluding runID (uPhase run) "operator abort"
      (settleRun runID "aborted"
         (if (reason =? "")%string then "operator aborted the run" else reason) "operator")
  end.

Definition concludeRunWithVerdict (runID verdict reason : string) : Prog (result StoreErr Run) :=
  r ← call (SGetRun runID);
  match r with
  | Err e => mret (Err e)
  | Ok run =>
    startConcluding runID (uPhase run) "operator verdict"
      (settleRun runID verdict
         (if (reason =? "")%string then "operator verdict: " +:+ verdict else reason) "operator")
  end.

Inductive ConcludeErr :=
  | CStore (e : StoreErr) | ErrRunConcluded | ErrVerdictCriteriaMismatch | ErrConcludeArgsMissing.

Definition ofStore {A} (p : Prog (result StoreErr A)) : Prog (result ConcludeErr A) :=
  r ← p; mret (match r with Ok a => Ok a | Err e => Err (CStore e) end).

Definition ConcludeRun (runID : string) (verdict : option string) (abort : bool) (reason : string)
    : Prog (result ConcludeErr Run) :=
  r ← call (SGetRun runID);
  match r with
  | Err e => mret (Err (CStore e))
  | Ok run =>
    if terminalRunPhases (uPhase run) then mret (Err ErrRunConcluded)
    else if negb abort && isSome verdict &&
            negb (uCriteriaType run =? "operator_verdict")%string
    then mret (Err ErrVerdictCriteriaMismatch)
    else if abort then ofStore (concludeRunAbort runID reason)
    else match verdict with
    | None => mret (Err ErrConcludeArgsMissing)
    | Some v => ofStore (concludeRunWithVerdict runID v reason)
    end
  end.

(** The hooks of the VM lifecycle. *)
Definition onVMRunning (vm : string) : Prog unit :=
  r ← call (SActiveRunForVM vm);
  match r with
  | Ok (Some run) =>
    if (uPhase run =? "pending")%string then
      _ ← call (STransitionRun (mkRunTransition (uRunID run) "pending" "running" "" "")); mret tt
    else mret tt
  | _ => mret tt
  end.

Definition concludeActive (vm : string) (t : concludeTrigger) : Prog unit :=
  r ← call (SActiveRunForVM vm);
  match r with
  | Ok (Some run) =>
    if terminalRunPhases (uPhase run) then mret tt
    else _ ← concludeRun (uRunID run) t; mret tt
  | _ => mret tt
  end.

Definition onVMTerminal (vm : string) : Prog unit := concludeActive vm triggerVMTerminal.
Definition onVMLaunchFailed (vm : string) : Prog unit := concludeActive vm triggerLaunchFail.

(** * Launch *)

Definition launchFailureStage (e : RtErr) : string :=
  match e with ErrLaunchPending _ => "launch_pending" | _ => "launch" end.

(** The cleanup behind a failed launch: whether the compute may be released, and
    the reason to record. *)
Definition launchCleanup (vm stage reason : string) : Prog (bool * string) :=
  if (stage =? "launch")%string || (stage =? "running")%string then
    r ← call (RForceStop vm);
    mret (match r with
          | None => (true, reason)
          | Some e => (cleanupDebt e, reason +:+ "; cleanup: " +:+ rtText e)
          end)
  else mret (negb (stage =? "launch_pending")%string, reason).

Definition failLaunch (vm : string) (op : Z) (stage reason : string) : Prog unit :=
  '(released, reason) ← launchCleanup vm stage reason;
  let origin := if (stage =? "enqueue")%string || (stage =? "starting")%string
                then "provisioning" else "starting" in
  _ ← call (STransitionVM (releasing (failing (from (moveTo vm "failed" reason op) origin)
             stage reason) released));
  _ ← onVMLaunchFailed vm;
  _ ← call (SUpdateOperation (mkOpUpdate op stage "failed" "running"
             (Some "launch_failed") (Some reason)));
  mret tt.

Definition runLaunch (v : VM) (op : Z) (spec : string → VMSpec) : Prog unit :=
  let vm := vVMID v in
  bootID ← call CUUID;
  r ← call (STransitionVM (booting (from (moveTo vm "starting" "launch" op) "provisioning") bootID));
  match r with
  | Err e => if invalidTransition e then mret tt else failLaunch vm op "starting" (errText e)
  | Ok _ =>
    r ← call (RLaunch (spec bootID));
    match r with
    | Err e => failLaunch vm op (launchFailureStage e) (rtText e)
    | Ok staged =>
      r ← call (STransitionVM (staging (from (moveTo vm "running" "launch_complete" op) "starting")
                  staged));
      match r with
      | Err e => if invalidTransition e then mret tt else failLaunch vm op "running" (errText e)
      | Ok _ =>
        _ ← onVMRunning vm;
        _ ← call (SUpdateOperation (mkOpUpdate op "running" "succeeded" "running" None None));
        mret tt
      end
    end
  end.

(** [enqueueLaunch]: the claim, the worker and the provisioning slot. *)
Definition enqueueLaunch (v : VM) (op : Z) (spec : string → VMSpec) : Prog unit :=
  let vm := vVMID v in
  claimed ← call (CClaim vm);
  match claimed with
  | false => failLaunch vm op "enqueue" "context canceled"
  | true =>
    scheduled ← call (CGo (LaunchVM vm));
    match scheduled with
    | false => failLaunch vm op "enqueue" "manager closed before launch was scheduled"
    | true =>
      slot ← call CSlot;
      match slot with
      | true => runLaunch v op spec
      | false => failLaunch vm op "enqueue" "manager closed before slot acquired"
      end
    end
  end.

Definition launchSpec (v : VM) (inp : CreateVMInput) (boot : string) : VMSpec :=
  mkSpec (vVMID v) boot (iVCPUCount inp) (iMemoryMiB inp) (iRootDiskMiB inp)
    (iWorkspaceDiskMiB inp) (vNetworkProfile v) (vNetworkPolicyID v) (iTemplateID inp)
    (iTemplateDigest inp).

(** [CreateVM], with the launch it enqueues run behind it. *)
Definition CreateVM (requestHash : string → string → Z → Z → Z → Z → string)
    (mc : ManagerConfig) (owner vmID : string) (req : CreateRequest)
    : Prog (result ManagerErr (VM * Operation)) :=
  a ← call RAvailability;
  match a with
  | Some e => mret (Err (MUnavailable e))
  | None =>
    match planCreate requestHash mc owner vmID req with
    | Err e => mret (Err (MRequest e))
    | Ok inp =>
      r ← call (SCreateVM inp);
      match r with
      | Err e => mret (Err (MStore e))
      | Ok (RefusedNow _ x) | Ok (RefusedBefore _ x) => mret (Err (MRefused x))
      | Ok (Replayed v o) => mret (Ok (v, o))
      | Ok (Created v o) =>
        _ ← enqueueLaunch v (oOperationID o) (launchSpec v inp); mret (Ok (v, o))
      end
    end
  end.

(** * Actions *)

(** What an action returns: the row and the operation read back, and the error. *)
Definition ActionResult : Type := option VM * option Operation * option ManagerErr.

Definition okOf {A} (r : result StoreErr A) : option A :=
  match r with Ok a => Some a | Err _ => None end.

(** A typed refusal names its own cause. *)
Definition failureCause (cause : ManagerErr) (text : string) : string * string :=
  match cause with
  | MStore (ErrAdmission (Refused r)) => (Cause r, Message r)
  | _ => ("action_failed", text)
  end.

Definition causeText (vm : string) (cause : ManagerErr) : string :=
  match cause with
  | MStore e => errText e
  | MReservation e => "read reservation: " +:+ errText e
  | MRuntime op e => "runtime " +:+ op +:+ " for " +:+ vm +:+ ": " +:+ rtText e
  | _ => ""
  end.

Definition failAction (vm : string) (op : Z) (action : string) (cause : ManagerErr)
    : Prog ActionResult :=
  let '(c, msg) := failureCause cause (causeText vm cause) in
  o ← call (SUpdateOperation (mkOpUpdate op action "failed" "" (Some c) (Some msg)));
  v ← call (SGetVM vm);
  mret (okOf v, okOf o, Some cause).

Definition succeedAction (op : Z) (phase : string) (v : VM) : Prog ActionResult :=
  o ← call (SUpdateOperation (mkOpUpdate op phase "succeeded" "" None None));
  mret (match o with
        | Err e => (Some v, None, Some (MStore e))
        | Ok o => (Some v, Some o, None)
        end).

Definition rowSpec (v : VM) (boot : string) : VMSpec :=
  mkSpec (vVMID v) boot (vVCPUCount v) (vMemoryMiB v) (vRootDiskMiB v) (vWorkspaceDiskMiB v)
    (vNetworkProfile v) (vNetworkPolicyID v) (vTemplateID v) (vTemplateDigest v).

Definition startAction (p : Policy) (v : VM) (op : Z) (rev : option Z) : Prog ActionResult :=
  let vm := vVMID v in
  if negb (vObservedState v =? "stopped")%string
  then failAction vm op "start" (MStore (InvalidTransition (vObservedState v) "starting")) else
  r ← call (SGetReservation vm);
  match r with
  | Err e => failAction vm op "start" (MReservation e)
  | Ok res =>
    bootID ← call CUUID;
    r ← call (STransitionVM (acquiring (booting (wanting (pinned
          (moveTo vm "starting" "start" op) rev) "running") bootID) (restartAdmit p res)));
    match r with
    | Err e => failAction vm op "start" (MStore e)
    | Ok upd =>
      r ← call (RLaunch (rowSpec v bootID));
      match r with
      | Err e =>
        _ ← failLaunch vm op (launchFailureStage e) (rtText e);
        o ← call (SGetOperation op);
        mret (Some upd, okOf o, Some (MRuntime "launch" e))
      | Ok staged =>
        r ← call (STransitionVM (staging (moveTo vm "running" "start_complete" op) staged));
        match r with
        | Err e => failAction vm op "start" (MStore e)
        | Ok upd => _ ← onVMRunning vm; succeedAction op "running" upd
        end
      end
    end
  end.

(** The shared tail: the terminal transition, the debt it leaves and the hooks. *)
Definition actionTail (vm : string) (op : Z) (action newState reason : string)
    (rev : option Z) (release : bool) (debt : option RtErr) : Prog ActionResult :=
  r ← call (STransitionVM (releasing (wanting (pinned (moveTo vm newState reason op) rev) newState)
        release));
  match r with
  | Err e => failAction vm op action (MStore e)
  | Ok upd =>
    _ ← (match debt with
         | Some e => _ ← call (SCleanupFailure vm newState (rtText e)); mret tt
         | None => mret tt
         end);
    _ ← (if (newState =? "stopped")%string then onVMTerminal vm
         else if (newState =? "running")%string then onVMRunning vm
         else mret tt);
    succeedAction op action upd
  end.

(** [stop] and [force_stop]: through stopping, where the revision pin is spent. *)
Definition stopAction (v : VM) (op : Z) (action requested : string) (rev : option Z)
    (halt : Prog (string * option RtErr)) : Prog ActionResult :=
  let vm := vVMID v in
  let state := vObservedState v in
  if negb (existsb (String.eqb state) ["running"; "paused"; "stopping"])
  then failAction vm op action (MStore (InvalidTransition state "stopping")) else
  let finish rev :=
    '(reason, err) ← halt;
    match err with
    | Some e => if cleanupDebt e then actionTail vm op action "stopped" reason rev true (Some e)
                else failAction vm op action (MRuntime action e)
    | None => actionTail vm op action "stopped" reason rev true None
    end in
  if negb (state =? "stopping")%string then
    r ← call (STransitionVM (wanting (pinned (moveTo vm "stopping" requested op) rev) "stopped"));
    match r with
    | Err e => failAction vm op action (MStore e)
    | Ok _ => finish None
    end
  else finish rev.

Definition haltStop (vm : string) : Prog (string * option RtErr) :=
  r ← call (RStop vm);
  mret (match r with
        | (true, err) => ("forced_stop", err)
        | (false, err) => ("graceful_stop", err)
        end).

Definition haltForce (vm : string) : Prog (string * option RtErr) :=
  r ← call (RForceStop vm); mret ("forced_stop", r).

Definition doAction (p : Policy) (v : VM) (action : string) (op : Z) (rev : option Z)
    : Prog ActionResult :=
  let vm := vVMID v in
  if (action =? "start")%string then startAction p v op rev
  else if (action =? "pause")%string then
    if negb (vObservedState v =? "running")%string
    then failAction vm op action (MStore (InvalidTransition (vObservedState v) "paused")) else
    r ← call (RPause vm);
    match r with
    | Some e => failAction vm op action (MRuntime "pause" e)
    | None => actionTail vm op action "paused" "pause" rev false None
    end
  else if (action =? "resume")%string then
    if negb (vObservedState v =? "paused")%string
    then failAction vm op action (MStore (InvalidTransition (vObservedState v) "running")) else
    r ← call (RResume vm);
    match r with
    | Some e => failAction vm op action (MRuntime "resume" e)
    | None => actionTail vm op action "running" "resume" rev false None
    end
  else if (action =? "stop")%string
  then stopAction v op "stop" "stop_requested" rev (haltStop vm)
  else stopAction v op "force_stop" "force_stop_requested" rev (haltForce vm).

Definition validActions : list string := ["start"; "pause"; "resume"; "stop"; "force_stop"].

Definition Action (p : Policy) (vm action : string) (rev : option Z) : Prog ActionResult :=
  if negb (existsb (String.eqb action) validActions)
  then mret (None, None, Some MUnknownAction) else
  r ← call (SGetVM vm);
  match r with
  | Err e => mret (None, None, Some (MStore e))
  | Ok v =>
    r ← call (SInsertAction (mkActionOp (vOwner v) vm action
          (action +:+ ":" +:+ vm +:+ ":" +:+ Strconv.FormatInt (vRevision v))));
    match r with
    | Err e => mret (None, None, Some (MStore e))
    | Ok op => doAction p v action op rev
    end
  end.

(** * Delete *)

Definition DeleteResult : Type := option VM * option ManagerErr.

Definition liveStates (state : string) : bool :=
  existsb (String.eqb state) ["provisioning"; "starting"; "running"; "paused"; "stopping"].

(** The signal every delete sends before it releases. *)
Definition signalOr (v : VM) (next : Prog DeleteResult) : Prog DeleteResult :=
  r ← call (RForceStop (vVMID v));
  match r with
  | Some e =>
    _ ← call (SCleanupFailure (vVMID v) (vObservedState v) (rtText e));
    mret (Some v, Some (MRuntime "force_stop" e))
  | None => next
  end.

Definition deleteRelease (vm : string) : Prog DeleteResult :=
  r ← call (RRelease vm);
  match r with
  | Some e =>
    _ ← call (SCleanupFailure vm "deleting" (rtText e));
    mret (None, Some (MReleaseFailed e))
  | None =>
    r ← call (STransitionVM (releasingAll (wanting (moveTo vm "deleted" "deleted" 0) "deleted")));
    match r with
    | Ok v => mret (Some v, None)
    | Err e => mret (None, Some (MStore e))
    end
  end.

(** From a row that is not live: the move to deleting, the signal unless it was
    already sent, and the release. *)
Definition deleteSettled (v : VM) (pin : option Z) (signalled : bool) : Prog DeleteResult :=
  let vm := vVMID v in
  let rest v := if signalled then deleteRelease vm else signalOr v (deleteRelease vm) in
  if (vObservedState v =? "failed")%string || (vObservedState v =? "stopped")%string then
    r ← call (STransitionVM (wanting (pinned (moveTo vm "deleting" "delete_requested" 0) pin)
          "deleted"));
    match r with
    | Err e => mret (None, Some (MStore e))
    | Ok v => rest v
    end
  else rest v.

(** Past the forced stop: the row as it is now decides. *)
Definition deleteReread (vm : string) (pin : option Z) : Prog DeleteResult :=
  r ← call (SGetVM vm);
  match r with
  | Err e => mret (None, Some (MStore e))
  | Ok v => deleteSettled v pin true
  end.

Definition deleteStop (v : VM) (pin : option Z) : Prog DeleteResult :=
  let vm := vVMID v in
  signalOr v (
    r ← call (STransitionVM (releasing (wanting (pinned
          (moveTo vm "stopped" "forced_stop_for_delete" 0) pin) "deleted") true));
    match r with
    | Ok _ => deleteReread vm None
    | Err e => if invalidTransition e then deleteReread vm pin else mret (Some v, Some (MStore e))
    end).

Definition deleteLive (v : VM) (pin : option Z) : Prog DeleteResult :=
  let vm := vVMID v in
  if negb (vObservedState v =? "stopping")%string then
    r ← call (STransitionVM (wanting (pinned (moveTo vm "stopping" "forced_stop_for_delete" 0) pin)
          "deleted"));
    match r with
    | Ok v => deleteStop v None
    | Err e => if invalidTransition e then deleteStop v pin else mret (Some v, Some (MStore e))
    end
  else deleteStop v pin.

Definition Delete (vm : string) (force : bool) (pin : option Z) : Prog DeleteResult :=
  r ← call (SGetVM vm);
  match r with
  | Err e => mret (None, Some (MStore e))
  | Ok v =>
    if (vObservedState v =? "deleted")%string then mret (Some v, None) else
    first ← call (CBeginDelete vm);
    match first with
    | false => mret (Some v, None)
    | true =>
      if liveStates (vObservedState v) then
        if force then deleteLive v pin else mret (Some v, Some MVMLive)
      else deleteSettled v pin false
    end
  end.

(** * Exit notices *)

Definition NotifyVMMExit (vm bootID reason : string) (graceful : bool)
    : Prog (option StoreErr) :=
  let finish (r : result StoreErr VM) :=
    match r with
    | Ok _ => _ ← onVMTerminal vm; mret None
    | Err e => mret (if invalidTransition e then None else Some e)
    end in
  let fail := releasing (failing (moveTo vm "failed" reason 0) "vmm_exit" reason) true in
  r ← call (SGetVM vm);
  match r with
  | Err _ => mret None
  | Ok v =>
    if negb (bootID =? "")%string && negb (vCurrentBootID v =? "")%string &&
       negb (bootID =? vCurrentBootID v)%string then mret None
    else if existsb (String.eqb (vObservedState v))
              ["stopped"; "failed"; "deleted"; "deleting"; "stopping"] then mret None
    else if (vObservedState v =? "provisioning")%string || (vObservedState v =? "starting")%string
    then r ← call (STransitionVM fail); finish r
    else
      _ ← call (STransitionVM (moveTo vm "stopping" reason 0));
      if graceful
      then r ← call (STransitionVM (releasing (moveTo vm "stopped" reason 0) true)); finish r
      else r ← call (STransitionVM fail); finish r
  end.

(** * The stop behind a run's completion *)

Definition stopVMAfterRun (vm : string) : Prog unit :=
  r ← call (SGetVM vm);
  match r with
  | Err _ => mret tt
  | Ok v =>
    if (vObservedState v =? "running")%string || (vObservedState v =? "paused")%string then
      r ← call (STransitionVM (wanting (moveTo vm "stopping" "run_on_completion_stop" 0) "stopped"));
      match r with
      | Err _ => mret tt
      | Ok _ =>
        r ← call (RStop vm);
        _ ← (match r with
             | (_, Some _) => _ ← call (RForceStop vm); mret tt
             | (_, None) => mret tt
             end);
        _ ← call (STransitionVM (releasing (wanting
              (moveTo vm "stopped" "run_on_completion_stop" 0) "stopped") true));
        mret tt
      end
    else mret tt
  end.

(** * Cleanup retries *)

Definition recordRetryFailure (v : VM) (e : RtErr) : Prog unit :=
  match e with
  | Canceled _ => mret tt
  | _ =>
    _ ← call (SCleanupFailure (vVMID v) (vObservedState v)
          ("automatic cleanup remains queued (30-second sweep delay); manual DELETE remains available: "
             +:+ rtText e));
    mret tt
  end.

(** [next] while the claim's context is live. *)
Definition whileLive (next : Prog unit) : Prog unit :=
  ok ← call CContext; match ok with true => next | false => mret tt end.

Definition retryMove (v : VM) (to : string) : TransitionInput :=
  from (moveTo (vVMID v) to "cleanup_retry" 0) (vObservedState v).

Definition retryRelease (v : VM) : Prog unit :=
  let vm := vVMID v in
  let finish v :=
    _ ← call (STransitionVM (releasingAll (pinned (retryMove v "deleted") (Some (vRevision v)))));
    mret tt in
  r ← call (RRelease vm);
  match r with
  | Some e => recordRetryFailure v e
  | None => whileLive (
    if (vObservedState v =? "failed")%string then
      _ ← call (SReleaseVMReservations vm); mret tt
    else if (vObservedState v =? "stopping")%string then
      r ← call (STransitionVM (releasing (pinned (retryMove v "stopped") (Some (vRevision v))) true));
      match r with
      | Err _ => mret tt
      | Ok v =>
        r ← call (STransitionVM (retryMove v "deleting"));
        match r with Err _ => mret tt | Ok v => finish v end
      end
    else finish v)
  end.

Definition retryForce (v : VM) : Prog unit :=
  let vm := vVMID v in
  r ← call (RForceStop vm);
  match r with
  | Some e => if negb (cleanupDebt e) then recordRetryFailure v e else
      whileLive (
        if (vObservedState v =? "stopped")%string then recordRetryFailure v e
        else if (vObservedState v =? "stopping")%string &&
                negb (vDesiredState v =? "deleted")%string then recordRetryFailure v e
        else retryRelease v)
  | None => whileLive (
      if (vObservedState v =? "stopped")%string then
        _ ← call (SClearCleanupDebt vm); mret tt
      else if (vObservedState v =? "stopping")%string &&
              negb (vDesiredState v =? "deleted")%string then
        r ← call (STransitionVM (releasing (pinned (retryMove v "stopped") (Some (vRevision v)))
              true));
        match r with Ok _ => onVMTerminal vm | Err _ => mret tt end
      else retryRelease v)
  end.

Definition retryVM (vm : string) : Prog unit :=
  r ← call (SGetVM vm);
  match r with
  | Err _ => mret tt
  | Ok v =>
    if (vObservedState v =? "stopped")%string then
      p ← call (SHasCleanupDebt vm);
      match p with Ok true => retryForce v | _ => mret tt end
    else if (vObservedState v =? "failed")%string then
      r ← call (SGetReservation vm);
      match r with
      | Ok res => if rReleased res then mret tt else retryForce v
      | Err _ => mret tt
      end
    else if (vObservedState v =? "stopping")%string || (vObservedState v =? "deleting")%string
    then retryForce v
    else mret tt
  end.

(** * Startup reconciliation *)

(** What the runtime's scan found: the VMs it adopted, and those it could not
    classify, with its account. *)
Record Findings := mkFindings { adopted : gset string; ambiguous : gmap string string }.

Fixpoint forEach {A} (f : A → Prog unit) (l : list A) : Prog unit :=
  match l with [] => mret tt | x :: l => _ ← f x; forEach f l end.

Definition failOperation (o : Operation) : Prog (result StoreErr Operation) :=
  call (SUpdateOperation (mkOpUpdate (oOperationID o) (oPhase o) "failed" ""
    (Some "controller_restart")
    (Some "the controller restarted while this operation was in progress"))).

(** The first failure ends the loop and the reconciliation. *)
Fixpoint failOperations (l : list Operation) : Prog bool :=
  match l with
  | [] => mret true
  | o :: l => r ← failOperation o; match r with Ok _ => failOperations l | Err _ => mret false end
  end.

Definition reconcileVM (f : Findings) (v : VM) : Prog unit :=
  let vm := vVMID v in
  let state := vObservedState v in
  if (state =? "provisioning")%string then
    _ ← call (STransitionVM (releasing (failing (moveTo vm "failed" "controller_restart" 0)
          state "controller_restart") true));
    mret tt
  else if (state =? "starting")%string then
    r ← call (RForceStop vm);
    let '(release, reason) := match r with
      | None => (true, "controller_restart")
      | Some e => (cleanupDebt e, "controller_restart; cleanup: " +:+ rtText e)
      end in
    _ ← call (STransitionVM (releasing (failing (moveTo vm "failed" reason 0) state reason)
          release));
    mret tt
  else if (state =? "running")%string || (state =? "paused")%string then
    if decide (vm ∈ adopted f) then mret tt
    else match ambiguous f !! vm with
    | Some detail => _ ← call (SReconcileAmbiguity vm state detail); mret tt
    | None =>
      _ ← call (STransitionVM (releasing (moveTo vm "failed" "vmm_disappeared_on_restart" 0) true));
      mret tt
    end
  else if (state =? "stopping")%string then
    let settle :=
      _ ← call (STransitionVM (releasing (moveTo vm "stopped" "controller_restart" 0) true));
      mret tt in
    match ambiguous f !! vm with
    | Some detail => _ ← call (SReconcileAmbiguity vm state detail); mret tt
    | None =>
      if decide (vm ∈ adopted f) then
        r ← call (RForceStop vm);
        match r with
        | None => settle
        | Some e =>
          if unavailable e then settle
          else if cleanupDebt e then
            _ ← call (SCleanupFailure vm "stopped" (rtText e)); settle
          else _ ← call (SCleanupFailure vm "stopping" (rtText e)); mret tt
        end
      else settle
    end
  else if (state =? "deleting")%string then
    let stalled e := _ ← call (SCleanupFailure vm "deleting" (rtText e)); mret tt in
    let finish :=
      _ ← call (STransitionVM (releasingAll (wanting (moveTo vm "deleted" "controller_restart" 0)
            "deleted")));
      mret tt in
    let release :=
      r ← call (RRelease vm);
      match r with
      | None => finish
      | Some e => if unavailable e then finish else stalled e
      end in
    r ← call (RForceStop vm);
    match r with
    | None => release
    | Some e => if unavailable e then release else stalled e
    end
  else mret tt.

(** The run of a VM that is no longer live is interrupted. *)
Definition reconcileRun (run : Run) : Prog unit :=
  let interrupt := _ ← concludeRun (uRunID run) triggerInterrupted; mret tt in
  r ← call (SGetVM (uVMID run));
  match r with
  | Err _ => interrupt
  | Ok v => if (vObservedState v =? "running")%string || (vObservedState v =? "paused")%string
            then mret tt else interrupt
  end.

(** A terminal run without a report, and no report under way, gets one. *)
Definition reconcileReport (run : Run) : Prog unit :=
  r ← call (SGetRunReport (uRunID run));
  match r with
  | Err ErrReportNotFound =>
    h ← call (SHasRunningReportOp (uRunID run));
    match h with
    | Ok true => mret tt
    | _ => _ ← call (CReport (uRunID run)); mret tt
    end
  | _ => mret tt
  end.

(** Reconciliation answers whether the daemon may start. *)
Definition reconcileRuns : Prog bool :=
  r ← call (SListRunsInPhases ["pending"; "running"; "concluding"]);
  match r with
  | Err _ => mret false
  | Ok active =>
    _ ← forEach reconcileRun active;
    if reporting then
      r ← call (SListRunsInPhases ["succeeded"; "failed"; "inconclusive"; "aborted"]);
      match r with
      | Err _ => mret false
      | Ok done => _ ← forEach reconcileReport done; mret true
      end
    else mret true
  end.

Definition failAll (state : string) (next : Prog bool) : Prog bool :=
  r ← call (SListOperationsByState state);
  match r with
  | Err _ => mret false
  | Ok ops =>
    ok ← failOperations ops;
    match ok with true => next | false => mret false end
  end.

Definition Reconcile (f : Findings) : Prog bool :=
  failAll "pending" (failAll "running" (
    r ← call (SListVMs (mkQuery 0 MaxPageLimit [] "" false));
    match r with
    | Err _ => mret false
    | Ok vms => _ ← forEach (reconcileVM f) vms; reconcileRuns
    end)).

End manager.

End Manager.
