(* ===== verification/ManagerSystem.v ===== *)
(** The manager at work: its operations in progress side by side, the store they
    share, the host the runtime drives, exits of virtual machines, late launches,
    and restarts of the daemon at any point. *)

From S2P Require Import Prelude Events Store RunStore VmStore StoreRules Registry History Admission.
From S2P Require Import Manager.
Import Events Sql Store Log Runs Vms Rules Registry History Admission Manager.

Local Open Scope Z_scope.

Module ManagerSystem.

(** * The host *)

(** One VM on the host: its VMM process runs; a launch whose caller stopped
    waiting is still at work; its network, jail, state and stage directories
    exist. *)
Record HostVM := mkHostVM { alive : bool; inflight : bool; held : bool }.

Definition clean : HostVM := mkHostVM false false false.
Definition busy (h : HostVM) : bool := alive h || inflight h.

(** What happens on its own: a VMM exits, a pending launch ends either way. *)
Record settles (h h' : HostVM) : Prop := {
  se_busy : alive h' = true → busy h = true;
  se_inflight : inflight h' = true → inflight h = true;
  se_held : held h' = true → held h = true ∨ inflight h = true
}.

(** The answer proves the VMM gone. *)
Definition proven (r : option RtErr) : bool :=
  match r with None => true | Some e => cleanupDebt e end.

(** The VM a runtime call is about. *)
Definition rtOf (c : Call) : option string :=
  match c with
  | RLaunch spec => Some (spVMID spec)
  | RPause vm | RResume vm | RStop vm | RForceStop vm | RRelease vm => Some vm
  | _ => None
  end.

Definition stopped (r : option RtErr) (h h' : HostVM) : Prop :=
  if proven r then busy h' = false ∧ (held h' = true → held h = true ∨ inflight h = true)
  else settles h h'.

(** The contract of the [Runtime] interface. A launch that succeeds leaves the VMM
    running; one that is pending may still start it; one that fails otherwise can
    leave anything but a launch at work. A stop that answers nil, or
    [ErrCleanupPending], has observed the VMM gone and waited for a launch at
    work. A release that answers nil has removed what the VM held. *)
Definition hostCall (c : Call) : HostVM → Ans c → HostVM → Prop :=
  match c with
  | RLaunch _ => λ h r h',
    match r with
    | Ok _ => h' = mkHostVM true false true
    | Err (ErrLaunchPending _) => True
    | Err _ => inflight h' = true → inflight h = true
    end
  | RStop _ => λ h r h', stopped r.2 h h'
  | RForceStop _ => λ h r h', stopped r h h'
  | RRelease _ => λ h r h', settles h h' ∧ (r = None → held h' = false ∧ inflight h' = false)
  | _ => λ h _ h', settles h h'
  end.

(** * Calls *)

(** [redacted] is the redaction policy's text filter. *)

Record World := mkWorld { st : Store; host : string → HostVM }.

Section calls.
Context (hash : Envelope → string) (redacted : string → string).

Definition HasCleanupDebt (vm : string) : M bool :=
  gets (λ d, exists_ (λ v, v =? vm)%string (cleanup_debt d)).

Definition HasRunningReportOp (run : string) : M bool :=
  gets (λ d, exists_ (λ o, (oKind o =? "run.report_generate")%string &&
    (oRequestHash o =? run)%string &&
    ((oState o =? "running")%string || (oState o =? "pending")%string)) (rows (operations d))).

Definition listed (q : VMQuery) (d : DB) (v : VM) : bool :=
  (qAfter q <? vRowID v) &&
  match qStates q with
  | [] => true
  | states => existsb (String.eqb (vObservedState v)) states ||
      qIncludeStoppedCleanup q && (vObservedState v =? "stopped")%string &&
      exists_ (λ u, u =? vVMID v)%string (cleanup_debt d)
  end &&
  ((qOwner q =? "")%string || (vOwner v =? qOwner q)%string).

(** One page of the VMs a query is about, in [row_id] order. *)
Definition ListVMs (q : VMQuery) : M (list VM) :=
  let limit := if qLimit q =? 0 then DefaultPageLimit else qLimit q in
  if (limit <? 0) || (MaxPageLimit <? limit) then throw (ErrConstraint "page limit") else
  gets (λ d, take (Z.to_nat limit) (List.filter (listed q d) (rows (vms d)))).

(** [utf8.ValidString], of the bytes of a string. *)
Fixpoint ValidString (s : string) : bool :=
  let byte a := Z.of_N (Ascii.N_of_ascii a) in
  let within lo hi a := (lo <=? byte a) && (byte a <=? hi) in
  let tail := within 128 191 in
  match s with
  | "" => true
  | String a s1 =>
    if byte a <? 128 then ValidString s1
    else if within 194 223 a then
      match s1 with String b s2 => tail b && ValidString s2 | _ => false end
    else if within 224 239 a then
      match s1 with
      | String b (String c s3) =>
        within (if byte a =? 224 then 160 else 128) (if byte a =? 237 then 159 else 191) b &&
        tail c && ValidString s3
      | _ => false
      end
    else if within 240 244 a then
      match s1 with
      | String b (String c (String d s4)) =>
        within (if byte a =? 240 then 144 else 128) (if byte a =? 244 then 143 else 191) b &&
        tail c && tail d && ValidString s4
      | _ => false
      end
    else false
  end.

(** Bytes taken off the end of [s], of length [n], until it is valid. *)
Fixpoint trimmed (n : nat) (s : string) : string :=
  if ValidString s then s else
  match n with O => s | S n => trimmed n (String.substring 0 n s) end.

(** The reason as it is recorded: redacted, and at most 2048 bytes of it. *)
Definition boundedReason (reason : string) : string :=
  let reason := redacted reason in
  if (2048 <? String.length reason)%nat
  then trimmed 2045 (String.substring 0 2045 reason) +:+ "..." else reason.

Definition RecordCleanupFailure (e : Env) (vm state reason : string) : M unit :=
  if (vm =? "")%string || (state =? "")%string || (reason =? "")%string
  then throw (ErrConstraint "cleanup failure record") else
  recordVMStatement hash e "vm.cleanup_failed" vm state
    [("vm_id", JStr vm); ("state", JStr state); ("reason", JStr (boundedReason reason))].

Definition RecordReconcileAmbiguity (e : Env) (vm state detail : string) : M unit :=
  if (vm =? "")%string || (state =? "")%string || (detail =? "")%string
  then throw (ErrConstraint "reconcile ambiguity record") else
  recordVMStatement hash e "vm.reconcile_ambiguous" vm state
    [("vm_id", JStr vm); ("state", JStr state); ("detail", JStr (redacted detail))].

(** The store's part of a call; [None] for a call of another kind. *)
Definition storeCall (e : Env) (c : Call) (s : Store) : option (Ans c * Store) :=
  match c with
  | SGetVM vm => Some (GetVM vm s)
  | SGetReservation vm => Some (GetReservation vm s)
  | SHasCleanupDebt vm => Some (HasCleanupDebt vm s)
  | SGetOperation id => Some (GetOperation id s)
  | SActiveRunForVM vm => Some (ActiveRunForVM vm s)
  | SGetRun run => Some (GetRun run s)
  | SGetRunReport run => Some (GetRunReport run s)
  | SHasRunningReportOp run => Some (HasRunningReportOp run s)
  | SListVMs q => Some (ListVMs q s)
  | SListOperationsByState state => Some (ListOperationsByState state s)
  | SListRunsInPhases phases => Some (ListRunsInPhases phases s)
  | SCreateVM inp => Some (CreateVMWithOperation hash e inp s)
  | STransitionVM inp => Some (TransitionVM hash e inp s)
  | SUpdateOperation u => Some (UpdateOperation hash e u s)
  | SInsertAction inp => Some (InsertActionOperation hash e inp s)
  | SCleanupFailure vm state reason => Some (RecordCleanupFailure e vm state reason s)
  | SReconcileAmbiguity vm state detail => Some (RecordReconcileAmbiguity e vm state detail s)
  | SReleaseVMReservations vm => Some (ReleaseVMReservations e vm s)
  | SClearCleanupDebt vm => Some (ClearCleanupDebt vm s)
  | STransitionRun inp => Some (TransitionRun hash e inp s)
  | _ => None
  end.

(** The answer of a store call whose context or database fails; nothing changes. *)
Definition failAns (c : Call) : option (Ans c) :=
  match c with
  | SGetVM _ | SGetReservation _ | SHasCleanupDebt _ | SGetOperation _ | SActiveRunForVM _
  | SGetRun _ | SGetRunReport _ | SHasRunningReportOp _ | SListVMs _
  | SListOperationsByState _ | SListRunsInPhases _ | SCreateVM _ | STransitionVM _
  | SUpdateOperation _ | SInsertAction _ | SCleanupFailure _ _ _ | SReconcileAmbiguity _ _ _
  | SReleaseVMReservations _ | SClearCleanupDebt _ | STransitionRun _ => Some (Err ErrStorage)
  | _ => None
  end.

Definition procCall (c : Call) : bool :=
  match c with
  | RAvailability | CContext | CUUID | CClaim _ | CGo _ | CBeginDelete _ | CReport _ | CSlot => true
  | _ => false
  end.

Inductive callStep (c : Call) (x : World) (r : Ans c) : World → Prop :=
  | call_store e s' : ready 4 e (st x) → storeCall e c (st x) = Some (r, s') →
      callStep c x r (mkWorld s' (host x))
  | call_failed : failAns c = Some r → callStep c x r x
  | call_host vm h' : rtOf c = Some vm → hostCall c (host x vm) r h' →
      callStep c x r (mkWorld (st x) (λ u, if decide (u = vm) then h' else host x u))
  | call_proc : procCall c = true → callStep c x r x.

End calls.

(** * Operations side by side *)

Inductive Kind :=
  | KCreate (rh : string → string → Z → Z → Z → Z → string) (mc : ManagerConfig)
      (owner vm : string) (req : CreateRequest)
  | KAction (vm action : string) (rev : option Z)
  | KDelete (vm : string) (force : bool) (pin : option Z)
  | KNotify (vm bootID reason : string) (graceful : bool)
  | KAfterRun (vm : string)
  | KRetry (vm : string)
  | KConclude (run : string) (t : concludeTrigger)
  | KVerdict (run : string) (verdict : option string) (abort : bool) (reason : string).

(** The VM whose lifecycle claim an operation holds. *)
Definition target (k : Kind) : option string :=
  match k with
  | KCreate _ _ _ vm _ | KAction vm _ _ | KDelete vm _ _ | KNotify vm _ _ _ | KAfterRun vm
  | KRetry vm => Some vm
  | KConclude _ _ | KVerdict _ _ _ _ => None
  end.

Definition isRetry (k : Kind) : bool := match k with KRetry _ => true | _ => false end.

Record Job := mkJob { jKind : Kind; jProg : Prog unit }.

(** [boot]: the reconciliation that runs before anything else after a restart. *)
Record Sys := mkSys { world : World; jobs : gmap nat Job; boot : option (Prog bool) }.

Definition dropping {A} (p : Prog A) : Prog unit := _ ← p; mret tt.

Section system.
Context (hash : Envelope → string) (redacted : string → string) (errText : StoreErr → string)
  (reporting : bool) (p : Policy).

Definition program (k : Kind) : Prog unit :=
  match k with
  | KCreate rh mc owner vm req => dropping (CreateVM errText reporting rh mc owner vm req)
  | KAction vm action rev => dropping (Action errText reporting p vm action rev)
  | KDelete vm force pin => dropping (Delete vm force pin)
  | KNotify vm bootID reason graceful => dropping (NotifyVMMExit reporting vm bootID reason graceful)
  | KAfterRun vm => stopVMAfterRun vm
  | KRetry vm => retryVM reporting vm
  | KConclude run t => dropping (concludeRun reporting run t)
  | KVerdict run verdict abort reason => dropping (ConcludeRun reporting run verdict abort reason)
  end.

(** [claimLifecycle] and [claimCleanup]: a retry excludes everything else on its
    VM, and nothing else excludes anything. *)
Definition claimable (k : Kind) (js : gmap nat Job) : Prop :=
  ∀ i j, js !! i = Some j → is_Some (target k) → target (jKind j) = target k →
    isRetry k = false ∧ isRetry (jKind j) = false.

(** The store's other clients: producers of events, the run API and the report
    generator. *)
Definition clientOp (o : Op) : bool :=
  match o with
  | OAppend _ | OCreateRun _ | OProgress _ _ _ | OResult _ _ _ _ => true
  | OReport _ _ _ _ | OReportOp _ _ _ | OUpdateOperation _ => true
  | _ => false
  end.

Inductive Label :=
  | LBegin (k : Kind)
  | LCall (k : Kind) (c : Call) (r : Ans c)
  | LEnd (k : Kind)
  | LHost (vm : string)
  | LClient (o : Op)
  | LRestart (f : Findings)
  | LBoot (c : Call) (r : Ans c)
  | LUp.

Inductive mstep : Label → Sys → Sys → Prop :=
  | m_begin k i w js :
      js !! i = None → claimable k js →
      mstep (LBegin k) (mkSys w js None) (mkSys w (<[i := mkJob k (program k)]> js) None)
  | m_call k i c cont r w w' js b :
      js !! i = Some (mkJob k (Do c cont)) → callStep hash redacted c w r w' →
      mstep (LCall k c r) (mkSys w js b) (mkSys w' (<[i := mkJob k (cont r)]> js) b)
  | m_end k i w js b :
      js !! i = Some (mkJob k (Ret tt)) →
      mstep (LEnd k) (mkSys w js b) (mkSys w (base.delete i js) b)
  | m_host vm h' w js b :
      settles (host w vm) h' →
      mstep (LHost vm) (mkSys w js b)
        (mkSys (mkWorld (st w) (λ u, if decide (u = vm) then h' else host w u)) js b)
  | m_client o s' w js b :
      clientOp o = true → step hash (st w) o s' →
      mstep (LClient o) (mkSys w js b) (mkSys (mkWorld s' (host w)) js b)
  | m_restart f inst s' w js b :
      step hash (st w) (OReopen inst) s' →
      mstep (LRestart f) (mkSys w js b)
        (mkSys (mkWorld s' (host w)) ∅ (Some (Reconcile reporting f)))
  | m_boot c cont r w w' js :
      callStep hash redacted c w r w' →
      mstep (LBoot c r) (mkSys w js (Some (Do c cont))) (mkSys w' js (Some (cont r)))
  | m_up w js : mstep LUp (mkSys w js (Some (Ret true))) (mkSys w js None).

Inductive mruns (allowed : Label → Sys → Prop) : Sys → Sys → Prop :=
  | mruns_nil y : mruns allowed y y
  | mruns_snoc y1 y2 y3 l :
      mruns allowed y1 y2 → allowed l y2 → mstep l y2 y3 → mruns allowed y1 y3.

Definition fresh (inst : string) : Sys :=
  mkSys (mkWorld (Open inst emptyDB) (λ _, clean)) ∅ None.

(** * Orderly executions *)

(** The boot an exit notice names is the row's, or one of the two names none. *)
Definition currentBoot (vm bootID : string) (s : Store) : Prop :=
  ∀ v, select1 (byVMID vm) (rows (vms (db s))) = Some v →
    bootID = "" ∨ vCurrentBootID v = "" ∨ vCurrentBootID v = bootID.

(** Operations on one VM come one after the other; requests come under the policy
    and in sizes below its limit; an exit notice of the current boot is true; the
    scan at a restart finds every VMM and every launch at work; the runtime is
    available to the reconciliation; and the forced stop behind a failed
    on-completion stop proves the VMM gone. *)
Definition orderly (l : Label) (y : Sys) : Prop :=
  match l with
  | LBegin k =>
    (∀ i j, jobs y !! i = Some j → is_Some (target k) → target (jKind j) ≠ target k) ∧
    match k with
    | KCreate rh mc owner vm req => mcPolicy mc = p ∧
        ∀ inp, planCreate rh mc owner vm req = Ok inp →
          iMemoryMiB inp + ReservePerVMHostOverheadMiB (pAdmission p) < room ∧
          iRootDiskMiB inp + iWorkspaceDiskMiB inp < room
    | KNotify vm bootID _ _ =>
        currentBoot vm bootID (st (world y)) → busy (host (world y) vm) = false
    | _ => True
    end
  | LCall (KAfterRun _) c r =>
    match c return Ans c → Prop with RForceStop _ => λ r, proven r = true | _ => λ _, True end r
  | LRestart f => ∀ vm, busy (host (world y) vm) = true →
      vm ∈ adopted f ∨ is_Some (ambiguous f !! vm)
  | LBoot c r =>
    match c return Ans c → Prop with
    | RForceStop _ | RRelease _ => λ r, match r with Some e => unavailable e = false | None => True end
    | _ => λ _, True
    end r
  | _ => True
  end.

End system.

End ManagerSystem.
