(* ===== verification/ManagerView.v ===== *)
(** What one VM's operations can see of the store and the host, and what a call
    does to it. *)

From S2P Require Import Prelude Events Store RunStore VmStore StoreRules Registry History Admission.
From S2P Require Import Manager ManagerSystem.
Import Events Sql Store Log Runs Vms Rules Registry History Admission Manager ManagerSystem.

Local Open Scope Z_scope.

Module ManagerView.

(** A VM's row and reservation. *)
Record Row := mkRow {
  wState : string; wBoot : string; wComputeReleased : bool; wReleased : bool;
  wMem : Z; wCpu : Z }.

Definition rowFrom (v : VM) (r : Reservation) : Row :=
  mkRow (vObservedState v) (vCurrentBootID v) (rComputeReleased r) (rReleased r)
    (rMemoryTotalMiB r) (rVCPU r).

Definition rowOf (d : DB) (vm : string) : option Row :=
  v ← select1 (byVMID vm) (rows (vms d));
  r ← select1 (byReservation vm) (reservations d);
  Some (rowFrom v r).

Definition View : Type := option Row * HostVM.
Definition view (x : World) (vm : string) : View := (rowOf (db (st x)) vm, host x vm).

(** The part of a VM row a view shows. *)
Definition face (v : VM) : string * string * string :=
  (vVMID v, vObservedState v, vCurrentBootID v).
Definition sameFaces (d d' : DB) : Prop :=
  face <$> rows (vms d') = face <$> rows (vms d).

#[local] Instance sameFaces_preorder : PreOrder sameFaces.
Proof. split; [done|]. intros d1 d2 d3 H1 H2. unfold sameFaces in *. congruence. Qed.
#[local] Instance sameFaces_blind : LogBlind sameFaces.
Proof. split; done. Qed.

Lemma faces_select vm l l' :
  face <$> l' = face <$> l →
  (λ v, (vObservedState v, vCurrentBootID v)) <$> select1 (byVMID vm) l' =
  (λ v, (vObservedState v, vCurrentBootID v)) <$> select1 (byVMID vm) l.
Proof.
  revert l'. induction l as [|v l IH]; intros [|v' l'] H; try done.
  csimpl in H. injection H as E1 E2 E3 H. specialize (IH l' H).
  assert (Eb : byVMID vm v' = byVMID vm v) by (unfold byVMID; by rewrite E1).
  unfold select1, select in *. cbn [List.filter]. rewrite Eb.
  destruct (byVMID vm v); [|exact IH]. cbn. by rewrite E2, E3.
Qed.

Lemma rowOf_same d d' vm :
  sameFaces d d' → reservations d' = reservations d → rowOf d' vm = rowOf d vm.
Proof.
  intros Hf Hr. pose proof (faces_select vm _ _ Hf) as Hs. unfold rowOf. rewrite Hr.
  destruct (select1 (byVMID vm) (rows (vms d'))) as [v'|],
    (select1 (byVMID vm) (rows (vms d))) as [v|]; cbn in *; try done.
  injection Hs as E1 E2. destruct (select1 _ _); [|done]. cbn. unfold rowFrom. by rewrite E1, E2.
Qed.

Section store.
Context (hash : Envelope → string) (p : Policy).

Lemma keeps_face_bump vm id : keeps sameFaces (bumpVM vm id).
Proof. apply keeps_modify. intros d. unfold sameFaces. cbn. by apply fmap_update. Qed.

Ltac keeps_faces := repeat first [apply keeps_face_bump|keeps_step|apply keeps_modify; done].

Lemma faces_quiet e o s : quietOp o = true → sameFaces (db s) (db (exec hash e o s)).
Proof.
  assert (Hk : ∀ A (m : M A), keeps sameFaces m → sameFaces (db s) (db (m s).2)).
  { intros A m Hm. destruct (m s) as [r s'] eqn:E. by apply Hm in E. }
  destruct o; intros Hq; try done; cbn [exec]; apply Hk.
  - apply keeps_Append; apply _.
  - unfold UpdateOperation, scanOperationInTx. keeps_faces.
  - unfold InsertActionOperation, insertOperation. keeps_faces.
  - unfold CreateRun, lookupRunByIdempotencyKey, GetRun, insertRun, scanRunInTx. keeps_faces.
  - unfold TransitionRun, scanRunInTx. keeps_faces.
  - unfold SubmitRunProgress, GetRun. keeps_faces.
  - unfold SubmitRunResult, GetRun, scanRunInTx. keeps_faces.
  - unfold PutRunReport. keeps_faces.
  - unfold recordVMStatement. keeps_faces.
  - unfold recordBatchOp, insertOperation, scanOperationInTx. keeps_faces.
  - keeps_faces.
  - unfold InsertReportOperation, insertOperation. keeps_faces.
Qed.

(** Every VM row has its reservation. *)
Definition keyed (d : DB) : Prop := rVMID <$> reservations d = vVMID <$> rows (vms d).

Record storeOk (s : Store) : Prop := {
  ok_inv : inv hash s;
  ok_within : within p (db s);
  ok_keyed : keyed (db s)
}.

Lemma keyed_row d vm v :
  keyed d → select1 (byVMID vm) (rows (vms d)) = Some v →
  ∃ r, select1 (byReservation vm) (reservations d) = Some r ∧ rowOf d vm = Some (rowFrom v r).
Proof.
  intros Hk Hv. destruct (select1 (byReservation vm) (reservations d)) as [r|] eqn:Hr.
  - exists r. split; [done|]. unfold rowOf. by rewrite Hv, Hr.
  - apply select1_Some in Hv as [Hin Hb%String.eqb_eq].
    assert (Hx : vm ∈ rVMID <$> reservations d).
    { rewrite Hk. rewrite <- Hb. by apply list_elem_of_fmap_2. }
    apply list_elem_of_fmap in Hx as (r & -> & Hr').
    apply (proj1 (select1_None _ _) Hr) in Hr'. unfold byReservation in Hr'.
    by rewrite String.eqb_refl in Hr'.
Qed.

(** ** Moves, creations and releases *)

Definition movedView (inp : TransitionInput) (r : Row) : Row :=
  let h := heldAfter inp (wComputeReleased r, wReleased r) in
  mkRow (nTo inp) (default (wBoot r) (nBootID inp)) h.1 h.2 (wMem r) (wCpu r).

Lemma rowOf_moved e inp cur s vm :
  select1 (byVMID (nVMID inp)) (rows (vms (db s))) = Some cur →
  rowOf (db (moved hash e inp cur s)) vm =
  if decide (vm = nVMID inp) then movedView inp <$> rowOf (db s) vm else rowOf (db s) vm.
Proof.
  intros Hc. unfold rowOf. case_decide as E; [subst vm|].
  - rewrite (select1_moved hash _ _ _ _ Hc), Hc, res_moved. cbn.
    unfold updateReservation, movedView, heldAfter.
    destruct (nReleaseAll inp); [|destruct (nReleaseCompute inp); [|destruct (nAcquireCompute inp)]];
      cbn [reservations set_reservations id]; rewrite ?select1_update_own by done;
      by destruct (select1 _ (reservations (db s))).
  - by rewrite vms_moved_other, res_moved_other.
Qed.

Lemma keyed_moved e inp cur s : keyed (db s) → keyed (db (moved hash e inp cur s)).
Proof.
  unfold keyed. intros Hk. rewrite vms_moved, res_moved. unfold on_rows. cbn [rows].
  rewrite !fmap_update, <- Hk by done. unfold updateReservation.
  repeat case_match; cbn [reservations set_reservations id]; by rewrite ?fmap_update.
Qed.

Definition createdView (inp : CreateVMInput) : Row :=
  mkRow "provisioning" "" false false (iMemoryTotalMiB inp) (iVCPUCount inp).

Lemma rowOf_granted e inp s vm :
  select1 (byVMID (iVMID inp)) (rows (vms (db s))) = None →
  select1 (byReservation (iVMID inp)) (reservations (db s)) = None →
  rowOf (db (granted hash e inp s)) vm =
  if decide (vm = iVMID inp) then Some (createdView inp) else rowOf (db s) vm.
Proof.
  intros Hv Hr. destruct (vms_granted hash e inp s) as [id1 Hg].
  unfold rowOf. rewrite Hg, res_granted, !select1_app, update_app, select1_app.
  rewrite update_id by by apply select1_None. case_decide as E; [subst vm|].
  - rewrite Hv, Hr. unfold update. csimpl. rewrite byVMID_new, String.eqb_refl.
    rewrite !select1_one. change (byVMID (iVMID inp) (setVMLastEvent id1 (newVM e inp (seq (vms (db s)) + 1))))
      with (iVMID inp =? iVMID inp)%string.
    change (byReservation (iVMID inp) (newReservation e inp)) with (iVMID inp =? iVMID inp)%string.
    by rewrite String.eqb_refl.
  - assert (En : (iVMID inp =? vm)%string = false) by (apply String.eqb_neq; congruence).
    unfold update. csimpl. rewrite byVMID_new, String.eqb_refl, !select1_one.
    change (byVMID vm (setVMLastEvent id1 (newVM e inp (seq (vms (db s)) + 1))))
      with (iVMID inp =? vm)%string.
    change (byReservation vm (newReservation e inp)) with (iVMID inp =? vm)%string.
    rewrite En. by destruct (select1 (byVMID vm) _); destruct (select1 (byReservation vm) _).
Qed.

Lemma keyed_granted e inp s : keyed (db s) → keyed (db (granted hash e inp s)).
Proof.
  unfold keyed. intros Hk. destruct (vms_granted hash e inp s) as [id1 Hg].
  rewrite Hg, res_granted, fmap_update, !fmap_app, Hk by done. done.
Qed.

Definition releasedView (r : Row) : Row :=
  mkRow (wState r) (wBoot r) true true (wMem r) (wCpu r).

Definition hasFailed (vm : string) (d : DB) : bool :=
  exists_ (λ v, byVMID vm v && (vObservedState v =? "failed")%string) (rows (vms d)).

Lemma db_release e vm s :
  db (ReleaseVMReservations e vm s).2 =
  set_reservations (update (λ r, byReservation vm r && hasFailed vm (db s)) (setReleased e)) (db s).
Proof. done. Qed.

(** A release touches the reservation of a failed VM only. *)
Lemma rowOf_release e vm s u :
  keyed (db s) → NoDup (vVMID <$> rows (vms (db s))) →
  rowOf (db (ReleaseVMReservations e vm s).2) u = rowOf (db s) u ∨
  u = vm ∧ ∃ r, rowOf (db s) vm = Some r ∧ wState r = "failed" ∧
    rowOf (db (ReleaseVMReservations e vm s).2) vm = Some (releasedView r).
Proof.
  intros Hk Hnd.
  rewrite !db_release. unfold rowOf. cbn [vms reservations set_reservations].
  rewrite select1_update by done.
  destruct (select1 (byVMID u) (rows (vms (db s)))) as [v|] eqn:Hv; [|by left]. cbn.
  destruct (select1 (byReservation u) (reservations (db s))) as [r|] eqn:Hr; [|by left]. cbn.
  destruct (byReservation vm r) eqn:Hb; [|by left]. destruct (hasFailed vm (db s)) eqn:Hf; [|by left]. cbn.
  apply String.eqb_eq in Hb.
  assert (rVMID r = u) as Eu by (apply select1_Some in Hr as [_ Hu%String.eqb_eq]; done).
  assert (u = vm) as -> by congruence. right. split; [done|]. exists (rowFrom v r).
  rewrite Hv, Hr. cbn. split_and!; [done| |].
  - apply exists_spec in Hf as (v' & Hin & Hq). apply andb_true_iff in Hq as [Hb' Hq%String.eqb_eq].
    assert (v' = v) as ->; [|done].
    apply select1_Some in Hv as [Hin' Hbv]. apply String.eqb_eq in Hb', Hbv.
    apply list_elem_of_lookup in Hin as [i Hi]. apply list_elem_of_lookup in Hin' as [j Hj].
    assert (i = j) as ->; [|congruence]. eapply (NoDup_lookup (vVMID <$> rows (vms (db s)))); [done|..].
    + by rewrite list_lookup_fmap, Hi.
    + rewrite list_lookup_fmap, Hj. cbn. by rewrite Hbv, Hb'.
  - rewrite select1_update, Hr by done. cbn. unfold byReservation. by rewrite Hb, String.eqb_refl.
Qed.

Lemma keyed_release e vm s : keyed (db s) → keyed (db (ReleaseVMReservations e vm s).2).
Proof.
  intros Hk. unfold keyed. rewrite db_release. cbn [reservations set_reservations vms].
  by rewrite fmap_update.
Qed.

(** ** The store under every operation *)

Lemma keyed_same d d' :
  sameFaces d d' → reservations d' = reservations d → keyed d → keyed d'.
Proof.
  intros Hf Hr Hk. unfold keyed in *. rewrite Hr, Hk.
  assert (Hv : ∀ l : list VM, vVMID <$> l = (λ x, x.1.1) <$> (face <$> l)).
  { intros l. by rewrite <- list_fmap_compose. }
  by rewrite !Hv, Hf.
Qed.

Lemma quiet_rows e o s :
  quietOp o = true → reserves o = false →
  (keyed (db s) → keyed (db (exec hash e o s))) ∧
  ∀ vm, rowOf (db (exec hash e o s)) vm = rowOf (db s) vm.
Proof.
  intros Hq Hr. pose proof (faces_quiet e o s Hq). pose proof (res_quiet hash e o s Hr).
  split; [by apply keyed_same|]. intros vm. by apply rowOf_same.
Qed.

Lemma keyedRows_step s o s' : inv hash s → keyed (db s) → step hash s o s' → keyed (db s').
Proof.
  intros Hi Hk Hst. destruct Hst as [e o' s0 Hr Hlg]. destruct Hi as [Hl _ _].
  destruct (quietOp o') eqn:Hq.
  - destruct (reserves o') eqn:Hs; [|by apply (quiet_rows e o' s0 Hq Hs)].
    destruct o'; try done. by apply keyed_release.
  - destruct o' as [|inp|inp| | | | | | | | | | | |inp| | | |]; try done; cbn [exec].
    + destruct (CreateVMWithOperation hash e inp s0) as [[out|err] s1] eqn:E; cbn [snd];
        [|apply CreateVM_Err in E; by rewrite E].
      apply CreateVM_Ok in E as [[-> _]|(t & Ht & [(r & _ & E)|(Ha & E)])]; [done|..|done|done].
      * apply createRefused_Ok in E as (op & _ & -> & _); [|done|by eapply ready_le; [|exact Hr]].
        unfold keyed, refused in *. cbv zeta. by rewrite vms_emitted, reservations_emitted.
      * apply createGranted_Ok in E as (v & op & _ & -> & _); [|done..]. by apply keyed_granted.
    + rewrite TransitionVM_eq by (done || by eapply ready_le; [|exact Hr]).
      destruct (transitionCheck inp (db s0)); [|done]. by apply keyed_moved.
    + destruct (member_store hash e inp s0) as [E|(out & E)]; [by rewrite E|].
      apply createGranted_Ok in E as (v & op & _ & -> & _); [|done..]. by apply keyed_granted.
Qed.

Lemma storeOk_step s o s' :
  sane p → storeOk s → governed p o s → step hash s o s' → storeOk s'.
Proof.
  intros Hp [Hi Hw Hk] Hg Hs. split.
  - by eapply registry_inv_step.
  - eapply within_step; [done..|apply Hi|done].
  - by eapply keyedRows_step.
Qed.

Lemma storeOk_empty inst : storeOk (Open inst emptyDB).
Proof. split; [apply inv_empty|apply within_empty|done]. Qed.

End store.

(** * What a call shows and changes *)

(** The VM a call can change. *)
Definition aims (c : Call) : option string :=
  match c with
  | STransitionVM inp => Some (nVMID inp)
  | SCreateVM inp => Some (iVMID inp)
  | SReleaseVMReservations vm => Some vm
  | _ => rtOf c
  end.

Definition rowMatches (o : option Row) (v : VM) : Prop :=
  ∃ row, o = Some row ∧ wState row = vObservedState v ∧ wBoot row = vCurrentBootID v.

Definition viewHost (vm : string) (c : Call) (w : View) (r : Ans c) (w' : View) : Prop :=
  if decide (rtOf c = Some vm) then w'.1 = w.1 ∧ hostCall c w.2 r w'.2 else w' = w.

Definition viewCall (vm : string) (c : Call) (w : View) : Ans c → View → Prop :=
  match c with
  | SGetVM u => λ r w', w' = w ∧ ∀ v, r = Ok v → vVMID v = u ∧ (u = vm → rowMatches w.1 v)
  | SGetReservation u => λ r w', w' = w ∧ ∀ x, r = Ok x → u = vm →
      ∃ row, w.1 = Some row ∧ wMem row = rMemoryTotalMiB x ∧ wCpu row = rVCPU x ∧
        wReleased row = rReleased x
  | SListVMs _ => λ r w', w' = w ∧ ∀ l, r = Ok l → NoDup (vVMID <$> l) ∧
      ∀ v, v ∈ l → vVMID v = vm → rowMatches w.1 v
  | SCreateVM inp => λ r w',
      match r with
      | Ok (Created v _) => vVMID v = iVMID inp ∧
          if decide (vm = iVMID inp) then w.1 = None ∧ w' = (Some (createdView inp), w.2)
          else w' = w
      | _ => w' = w
      end
  | STransitionVM inp => λ r w',
      match r with
      | Err _ => w' = w
      | Ok v => vVMID v = nVMID inp ∧ vObservedState v = nTo inp ∧
          if decide (vm = nVMID inp) then
            ∃ row, w.1 = Some row ∧ transitionAllowed (wState row) (nTo inp) = true ∧
              (∀ f, nFrom inp = Some f → wState row = f) ∧
              w' = (Some (movedView inp row), w.2)
          else w' = w
      end
  | SReleaseVMReservations u => λ _ w', w' = w ∨
      u = vm ∧ ∃ row, w.1 = Some row ∧ wState row = "failed" ∧ w' = (Some (releasedView row), w.2)
  | c => λ r w', viewHost vm c w r w'
  end.

Section sim.
Context (hash : Envelope → string) (redacted : string → string) (p : Policy).

Lemma gets_some_Ok {A} (f : DB → option A) e s (r : result StoreErr A) s' :
  (o ← gets f; some o e) s = (r, s') → s' = s ∧ ∀ a, r = Ok a → f (db s) = Some a.
Proof.
  unfold mbind, M_bind, gets, some, mret, M_ret, throw. destruct (f (db s)); intros [= <- <-].
  - split; [done|]. by intros a' [= <-].
  - done.
Qed.

Lemma gets_state {A} (f : DB → A) s (r : result StoreErr A) s' : gets f s = (r, s') → s' = s.
Proof. by intros [= _ <-]. Qed.

Lemma viewHost_store vm c w r : rtOf c = None → viewHost vm c w r w.
Proof. intros E. unfold viewHost. by rewrite E, decide_False. Qed.

Lemma GetVM_view vm u x s (r : Ans (SGetVM u)) s' :
  storeOk hash p (st x) → st x = s → GetVM u s = (r, s') →
  s' = s ∧ viewCall vm (SGetVM u) (view x vm) r (view x vm).
Proof.
  intros Hok <- Hg. apply gets_some_Ok in Hg as [-> Hr]. split; [done|]. split; [done|].
  intros v Hv. apply Hr in Hv. pose proof (select1_Some _ _ _ Hv) as [_ E%String.eqb_eq].
  split; [done|]. intros ->. destruct (keyed_row _ _ _ (ok_keyed _ _ _ Hok) Hv) as (y & _ & Hrow).
  eexists. split; [exact Hrow|done].
Qed.

(** The store operation a call is, if it writes. *)
Definition opOf (c : Call) : option Op :=
  match c with
  | SCreateVM inp => Some (OCreateVM inp)
  | STransitionVM inp => Some (OTransitionVM inp)
  | SUpdateOperation u => Some (OUpdateOperation u)
  | SInsertAction inp => Some (OInsertAction inp)
  | SCleanupFailure vm state reason => Some (OStatement false vm state
      [("vm_id", JStr vm); ("state", JStr state); ("reason", JStr (boundedReason redacted reason))])
  | SReconcileAmbiguity vm state detail => Some (OStatement true vm state
      [("vm_id", JStr vm); ("state", JStr state); ("detail", JStr (redacted detail))])
  | SReleaseVMReservations vm => Some (ORelease vm)
  | SClearCleanupDebt vm => Some (OClearDebt vm)
  | STransitionRun inp => Some (OTransitionRun inp)
  | _ => None
  end.

Lemma storeCall_op e c s r s' :
  storeCall hash redacted e c s = Some (r, s') →
  s' = s ∨ ∃ o, opOf c = Some o ∧ s' = exec hash e o s ∧ legal o s.
Proof.
  destruct c; cbn [storeCall opOf]; try done; intros E%(inj Some);
    try (left; first [by apply gets_some_Ok in E as [-> _]
                     |by apply gets_state in E]);
    try (right; eexists; split; [done|]; cbn [exec]; by rewrite E).
  - left. unfold ListVMs in E. revert E. destruct (_ || _); by intros [= _ ->].
  - revert E. unfold RecordCleanupFailure. destruct (_ || _ || _); [intros [= _ <-]; by left|].
    intros E. right. eexists. split; [done|]. cbn [exec]. by rewrite E.
  - revert E. unfold RecordReconcileAmbiguity. destruct (_ || _ || _); [intros [= _ <-]; by left|].
    intros E. right. eexists. split; [done|]. cbn [exec]. by rewrite E.
Qed.

Definition governedCall (c : Call) (s : Store) : Prop :=
  match opOf c with Some o => governed p o s | None => True end.

Lemma callStep_ok c x r y :
  sane p → storeOk hash p (st x) → governedCall c (st x) → callStep hash redacted c x r y →
  storeOk hash p (st y).
Proof.
  intros Hp Hok Hg [e s' Hr Hs|Hf|vm h' _ _|_]; try done. cbn [st].
  apply storeCall_op in Hs as [->|(o & Ho & -> & Hl)]; [done|].
  unfold governedCall in Hg. rewrite Ho in Hg. eapply storeOk_step; [done..|].
  by constructor.
Qed.

Lemma CreateVM_view e inp s r s' vm :
  storeOk hash p s → ready 4 e s → CreateVMWithOperation hash e inp s = (r, s') →
  match r with
  | Ok (Created v _) => vVMID v = iVMID inp ∧
      if decide (vm = iVMID inp) then rowOf (db s) vm = None ∧ rowOf (db s') vm = Some (createdView inp)
      else rowOf (db s') vm = rowOf (db s) vm
  | _ => rowOf (db s') vm = rowOf (db s) vm
  end.
Proof.
  intros [[Hl _ _] _ _] Hr E. destruct r as [out|err]; [|apply CreateVM_Err in E; by rewrite E].
  apply CreateVM_Ok in E as [[-> Ho]|(t & _ & [(x & _ & E)|(_ & E)])]; [by destruct out|..|done|done].
  - apply createRefused_Ok in E as (op & -> & -> & _); [|done|by eapply ready_le; [|exact Hr]].
    apply rowOf_same; unfold sameFaces, refused; cbv zeta;
      by rewrite ?vms_emitted, ?reservations_emitted.
  - apply createGranted_Ok in E as (v & op & -> & -> & Hv & _ & Hn & Hnr & _); [|done..].
    apply select1_Some in Hv as [_ Hv%String.eqb_eq]. split; [done|].
    rewrite rowOf_granted by done. case_decide as E; [|done]. subst vm. split; [|done].
    unfold rowOf. by rewrite Hn.
Qed.

Lemma TransitionVM_view e inp s r s' vm :
  storeOk hash p s → ready 4 e s → TransitionVM hash e inp s = (r, s') →
  match r with
  | Err _ => rowOf (db s') vm = rowOf (db s) vm
  | Ok v => vVMID v = nVMID inp ∧ vObservedState v = nTo inp ∧
      if decide (vm = nVMID inp) then
        ∃ row, rowOf (db s) vm = Some row ∧ transitionAllowed (wState row) (nTo inp) = true ∧
          (∀ f, nFrom inp = Some f → wState row = f) ∧ rowOf (db s') vm = Some (movedView inp row)
      else rowOf (db s') vm = rowOf (db s) vm
  end.
Proof.
  intros [[Hl _ _] _ Hk] Hr. rewrite TransitionVM_eq by (done || by eapply ready_le; [|exact Hr]).
  destruct (transitionCheck inp (db s)) as [cur|err] eqn:Hc; intros [= <- <-]; [|done].
  pose proof (transitionCheck_row _ _ _ Hc) as Hrow.
  pose proof (select1_Some _ _ _ Hrow) as [_ Eid%String.eqb_eq].
  split; [done|]. split; [done|]. rewrite rowOf_moved by done. case_decide as E; [|done]. subst vm.
  destruct (keyed_row _ _ _ Hk Hrow) as (x & _ & Hx). exists (rowFrom cur x). rewrite Hx.
  split_and!; [done|by eapply check_allowed| |done]. intros f Hf. cbn.
  unfold transitionCheck in Hc. rewrite Hrow, Hf in Hc.
  destruct (f =? vObservedState cur)%string eqn:Ef; [by apply String.eqb_eq in Ef|].
  by destruct (match nExpectedRevision inp with Some _ => _ | None => _ end).
Qed.

Lemma keyed_reservation d vm r :
  keyed d → select1 (byReservation vm) (reservations d) = Some r →
  ∃ v, rowOf d vm = Some (rowFrom v r).
Proof.
  intros Hk Hr. unfold rowOf. rewrite Hr.
  destruct (select1 (byVMID vm) (rows (vms d))) as [v|] eqn:Hv; [by exists v|].
  apply select1_Some in Hr as [Hin Hb%String.eqb_eq].
  assert (Hx : vm ∈ vVMID <$> rows (vms d)).
  { rewrite <- Hk, <- Hb. by apply list_elem_of_fmap_2. }
  apply list_elem_of_fmap in Hx as (v & -> & Hv').
  apply (proj1 (select1_None _ _) Hv) in Hv'. unfold byVMID in Hv'. by rewrite String.eqb_refl in Hv'.
Qed.

Lemma sublist_filter_fmap {A B} (g : A → B) (f : A → bool) l :
  g <$> List.filter f l `sublist_of` g <$> l.
Proof. induction l as [|x l IH]; cbn; [done|]. destruct (f x); by constructor. Qed.

Lemma ListVMs_view q x (r : Ans (SListVMs q)) s' vm :
  storeOk hash p (st x) → ListVMs q (st x) = (r, s') →
  viewCall vm (SListVMs q) (view x vm) r (view x vm).
Proof.
  intros [[_ Hnd _] _ Hk] E. split; [done|]. intros l ->. revert E. unfold ListVMs.
  destruct (_ || _); [done|]. intros [= <- _]. set (n := Z.to_nat _). split.
  - rewrite fmap_take. eapply sublist_NoDup; [|apply sublist_take].
    eapply sublist_NoDup; [exact Hnd|]. apply sublist_filter_fmap.
  - intros v Hv Hid. apply elem_of_take in Hv as (i & Hi%list_elem_of_lookup_2 & _).
    apply list_elem_of_In, filter_In in Hi as [Hi%list_elem_of_In _].
    assert (Hs : select1 (byVMID vm) (rows (vms (db (st x)))) = Some v).
    { apply (select1_unique vVMID); [done..| |].
      - unfold byVMID. by rewrite Hid, String.eqb_refl.
      - intros v' _ Hb%String.eqb_eq. congruence. }
    destruct (keyed_row _ _ _ Hk Hs) as (y & _ & Hrow). eexists. split; [exact Hrow|done].
Qed.

(** A store operation that a view does not show. *)
Lemma view_quiet e o x vm :
  quietOp o = true → reserves o = false →
  view (mkWorld (exec hash e o (st x)) (host x)) vm = view x vm.
Proof. intros Hq Hr. unfold view. cbn [st host]. by rewrite (proj2 (quiet_rows hash e o (st x) Hq Hr)). Qed.

(** Every call, seen from every VM. *)
Lemma callStep_view c x r y :
  storeOk hash p (st x) → callStep hash redacted c x r y →
  ∀ vm, viewCall vm c (view x vm) r (view y vm).
Proof.
  intros Hok Hs vm. destruct Hs as [e s' Hr Hs|Hf|u h' Hu Hh|Hpc].
  - pose proof (storeCall_op _ _ _ _ _ Hs) as Hop.
    destruct c; cbn [storeCall] in Hs; try done; cbn [viewCall];
      try (destruct Hop as [E|(o & Ho & E & Hl)]; subst s'; [|try done; injection Ho as <-];
           rewrite ?view_quiet by done; by (destruct x; apply viewHost_store));
      apply (inj Some) in Hs.
    + eapply (GetVM_view vm vm0 x) in Hs as [-> ?]; [|done..]. by destruct x.
    + apply gets_some_Ok in Hs as [-> Hs]. destruct x as [s hx]. split; [done|]. intros z Hz ->.
      destruct (keyed_reservation _ _ _ (ok_keyed _ _ _ Hok) (Hs _ Hz)) as [v Hv].
      by eexists.
    + pose proof (ListVMs_view _ _ _ _ vm Hok Hs) as Hv.
      assert (s' = st x) as ->; [|by destruct x].
      revert Hs. unfold ListVMs. destruct (_ || _); by intros [= _ <-].
    + pose proof (CreateVM_view _ _ _ _ _ vm Hok Hr Hs) as Hv. unfold view. cbn [st host].
      destruct r as [[]|]; try (by rewrite Hv). destruct Hv as [? Hv]. split; [done|].
      case_decide; [destruct Hv as [-> ->]; done|by rewrite Hv].
    + pose proof (TransitionVM_view _ _ _ _ _ vm Hok Hr Hs) as Hv. unfold view. cbn [st host].
      destruct r; [|by rewrite Hv]. destruct Hv as (? & ? & Hv). split_and!; [done..|].
      case_decide; [|by rewrite Hv]. destruct Hv as (row & ? & ? & ? & ->). by exists row.
    + assert (s' = (ReleaseVMReservations e vm0 (st x)).2) as -> by (by rewrite Hs).
      unfold view. cbn [st host]. destruct (rowOf_release e vm0 (st x) vm) as [->|(-> & row & E1 & E2 & ->)];
        [apply Hok|apply (ok_inv _ _ _ Hok)|by left|]. right. split; [done|]. exists row. by rewrite E1.
  - destruct c; try done; cbn [failAns] in Hf; injection Hf as <-; cbn [viewCall];
      first [by apply viewHost_store|by left|by split|done].
  - assert (Hv : viewHost vm c (view x vm) r
      (view (mkWorld (st x) (λ v, if decide (v = u) then h' else host x v)) vm)).
    { unfold viewHost, view. cbn [st host]. rewrite Hu.
      destruct (decide (vm = u)) as [->|Hne]; [by rewrite decide_True|].
      rewrite decide_False by congruence. done. }
    by destruct c.
  - destruct c; try done; by apply viewHost_store.
Qed.

End sim.

End ManagerView.
