(* ===== verification/ManagerSafe.v ===== *)
(** A VM that every operation of the manager leaves accounted for: a Hoare logic
    over what one VM's operations see, and every operation in it. *)

From S2P Require Import Prelude Events Store RunStore VmStore StoreRules Registry History Admission.
From S2P Require Import Manager ManagerSystem ManagerView.
Import Events Sql Store Log Runs Vms Rules Registry History Admission Manager ManagerSystem ManagerView.

Local Open Scope Z_scope.

Module ManagerSafe.

(** * A VM in order *)

Definition ended (state : string) : bool :=
  existsb (String.eqb state) ["failed"; "deleting"; "deleted"].

(** What runs, or may still start to run, is paid for; a VM that was only admitted
    has not run; a reservation is given up for good by ended VMs only; and a
    deleted VM has left nothing on the host. *)
Record rowOk (row : Row) (h : HostVM) : Prop := {
  ro_busy : busy h = true → wComputeReleased row = false ∧ wReleased row = false;
  ro_new : wState row = "provisioning" →
    busy h = false ∧ wComputeReleased row = false ∧ wReleased row = false;
  ro_ended : wReleased row = true → ended (wState row) = true;
  ro_deleted : wState row = "deleted" → busy h = false ∧ held h = false
}.

Definition vmOk (w : View) : Prop :=
  match w.1 with
  | Some row => rowOk row w.2
  | None => busy w.2 = false ∧ held w.2 = false
  end.

(** What can happen to a VM between two calls of its operation. *)
Definition drift (w w' : View) : Prop := w'.1 = w.1 ∧ settles w.2 w'.2.

Lemma settles_busy h h' : settles h h' → busy h = false → busy h' = false.
Proof.
  intros [H1 H2 _] Hb. unfold busy in *. apply orb_false_iff in Hb as [Ha Hi].
  destruct (alive h'), (inflight h'); try done; rewrite ?Ha, ?Hi in *; naive_solver.
Qed.

Lemma settles_held h h' :
  settles h h' → busy h = false → held h = false → held h' = false.
Proof.
  intros [_ _ H3] [_ Hi]%orb_false_iff Hh. destruct (held h'); [|done]. naive_solver congruence.
Qed.

#[export] Instance settles_preorder : PreOrder settles.
Proof.
  split.
  - intros h. split; auto. intros E. unfold busy. by rewrite E.
  - intros h1 h2 h3 [A1 A2 A3] [B1 B2 B3]. split.
    + intros H%B1%orb_true_iff. destruct H as [H|H]; [auto|].
      apply orb_true_iff. auto.
    + auto.
    + intros [H|H]%B3; auto.
Qed.

#[export] Instance drift_preorder : PreOrder drift.
Proof.
  split; [by split|]. intros w1 w2 w3 [E1 S1] [E2 S2].
  split; [congruence|by etrans].
Qed.

Lemma vmOk_drift w w' : drift w w' → vmOk w → vmOk w'.
Proof.
  intros [E S]. unfold vmOk. rewrite E. destruct w.1 as [row|].
  - intros [H1 H2 H3 H4].
    assert (Hb : busy w'.2 = true → busy w.2 = true).
    { intros Hb. destruct (busy w.2) eqn:Eb; [done|]. by rewrite (settles_busy _ _ S Eb) in Hb. }
    split; [auto| |done|].
    + intros Hn. destruct (H2 Hn). split; [by eapply settles_busy|done].
    + intros [Hd1 Hd2]%H4. split; [by eapply settles_busy|by eapply settles_held].
  - intros [Hd1 Hd2]. split; [by eapply settles_busy|by eapply settles_held].
Qed.

Lemma allowed_ended a b :
  transitionAllowed a b = true → ended a = true → ended b = true.
Proof.
  intros Ha He. unfold ended in He. rewrite existsb_exists in He.
  destruct He as (x & Hx & ->%String.eqb_eq).
  apply existsb_exists in Ha as (y & Hy & <-%String.eqb_eq).
  by destruct Hx as [<-|[<-|[<-|[]]]]; vm_compute in Hy; destruct_or? Hy; subst.
Qed.

Lemma allowed_new a b : transitionAllowed a b = true → b ≠ "provisioning".
Proof.
  intros Ha ->. revert Ha. unfold transitionAllowed, validTransitions.
  by repeat destruct (String.eqb a _).
Qed.

(** A transition keeps a VM in order when it gives compute up for an idle VM only,
    and gives everything up for one that is deleted and bare. *)
Lemma rowOk_moved inp row h :
  rowOk row h → transitionAllowed (wState row) (nTo inp) = true →
  (nReleaseCompute inp || nReleaseAll inp = true → busy h = false) →
  (nTo inp = "deleted" → busy h = false ∧ held h = false) →
  (nReleaseAll inp = true → nTo inp = "deleted") →
  rowOk (movedView inp row) h.
Proof.
  intros [H1 H2 H3 H4] Ha Hr Hd Hall. pose proof (allowed_new _ _ Ha) as Hn.
  unfold movedView, heldAfter. split; cbn [wState wComputeReleased wReleased]; [| done | |done].
  - intros Hb. destruct (H1 Hb) as [E1 E2].
    destruct (nReleaseAll inp), (nReleaseCompute inp); cbn in *; try (rewrite Hr in Hb by done; done).
    by destruct (nAcquireCompute inp).
  - destruct (nReleaseAll inp); [by rewrite (Hall eq_refl)|].
    destruct (nReleaseCompute inp), (nAcquireCompute inp); cbn; eauto using allowed_ended.
Qed.

(** * Programs that leave a VM alone *)

Fixpoint avoids (bad : string → Prop) {A} (P : Prog A) : Prop :=
  match P with
  | Ret _ => True
  | Do c k => (∀ u, aims c = Some u → ¬ bad u) ∧ ∀ r, avoids bad (k r)
  end.

Definition quiet {A} (P : Prog A) : Prop := avoids (λ _, True) P.

Lemma avoids_bind bad {A B} (P : Prog A) (f : A → Prog B) :
  avoids bad P → (∀ a, avoids bad (f a)) → avoids bad (P ≫= f).
Proof.
  intros HP Hf. induction P as [a|c k IH]; [apply Hf|]. destruct HP as [H1 H2].
  split; [done|]. intros r. by apply IH.
Qed.

Lemma avoids_call bad c : (∀ u, aims c = Some u → ¬ bad u) → avoids bad (call c).
Proof. intros H. by split. Qed.

Lemma avoids_ret bad {A} (a : A) : avoids bad (mret a).
Proof. done. Qed.

Lemma avoids_mono (bad bad' : string → Prop) {A} (P : Prog A) :
  (∀ u, bad' u → bad u) → avoids bad P → avoids bad' P.
Proof.
  intros Hb. induction P as [a|c k IH]; [done|]. intros [H1 H2].
  split; [|intros r; by apply IH]. intros u Hu Hbad. by eapply H1, Hb.
Qed.

Lemma avoids_forEach bad {A} (f : A → Prog unit) l :
  (∀ x, x ∈ l → avoids bad (f x)) → avoids bad (forEach f l).
Proof.
  induction l as [|x l IH]; intros H; [done|]. cbn. apply avoids_bind.
  - apply H. by left.
  - intros _. apply IH. intros y Hy. apply H. by right.
Qed.

Ltac avoid :=
  repeat first
    [ apply avoids_ret
    | apply avoids_bind; [|intros]
    | apply avoids_call; by intros
    | apply avoids_call; intros ? [= <-]
    | done
    | progress cbn [mret prog_ret]
    | case_match ].

(** * What an operation must guarantee at every call *)

Section logic.
Context (p : Policy) (v : string) (only : bool) (may : ∀ c, Ans c → Prop).

(** A call stays on its VM, and asks for compute under the policy. *)
Definition owes (c : Call) (w : View) : Prop :=
  (only = true → ∀ u, aims c = Some u → u = v) ∧
  match c with
  | SCreateVM inp => iVMID inp = v → ∀ s, governed p (OCreateVM inp) s
  | STransitionVM inp => nVMID inp = v → nAcquireCompute inp = true →
      ∃ row res, w.1 = Some row ∧ wMem row = rMemoryTotalMiB res ∧ wCpu row = rVCPU res ∧
        nAdmit inp = Some (restartAdmit p res)
  | _ => True
  end.

Fixpoint wp {A} (P : Prog A) (w : View) (Q : A → View → Prop) : Prop :=
  ∀ w1, drift w w1 → vmOk w1 ∧
    match P with
    | Ret a => Q a w1
    | Do c k => owes c w1 ∧ ∀ r w2, viewCall v c w1 r w2 → may c r → wp (k r) w2 Q
    end.

Lemma wp_ok {A} (P : Prog A) w Q : wp P w Q → vmOk w.
Proof. intros H. destruct P; by apply (H w). Qed.

Lemma wp_drift {A} (P : Prog A) w w' Q : drift w w' → wp P w Q → wp P w' Q.
Proof. intros Hd H. destruct P; intros w1 H1; apply H; by etrans. Qed.

Lemma vwp_ret {A} (a : A) w Q :
  vmOk w → (∀ w', drift w w' → Q a w') → wp (mret a) w Q.
Proof. intros Hok HQ w1 H1. split; [by eapply vmOk_drift|by apply HQ]. Qed.

Lemma vwp_bind {A B} (P : Prog A) (f : A → Prog B) w Q :
  wp P w (λ a w', wp (f a) w' Q) → wp (P ≫= f) w Q.
Proof.
  revert w. induction P as [a|c k IH]; intros w H.
  - destruct (H w) as [_ H']; [done|exact H'].
  - intros w1 H1. destruct (H w1 H1) as (Hok & Ho & Hk). split; [done|]. split; [done|].
    intros r w2 Hc Hm. by apply IH, Hk.
Qed.

Lemma vwp_mono {A} (P : Prog A) w (Q Q' : A → View → Prop) :
  (∀ a w', vmOk w' → Q a w' → Q' a w') → wp P w Q → wp P w Q'.
Proof.
  intros HQ. revert w. induction P as [a|c k IH]; intros w H w1 H1.
  - destruct (H w1 H1). split; auto.
  - destruct (H w1 H1) as (Hok & Ho & Hk). split; [done|]. split; [done|].
    intros r w2 Hc Hm. by apply IH, Hk.
Qed.

(** A call that is not about a VM does not change what is seen of it. *)
Lemma viewCall_other c w r w' : aims c ≠ Some v → viewCall v c w r w' → w' = w.
Proof.
  destruct c; cbn [viewCall aims rtOf]; intros Ha H; try (by destruct H);
    try (unfold viewHost in H; by rewrite decide_False in H).
  - destruct r as [[]|]; try done. destruct H as [_ H]. by rewrite decide_False in H by congruence.
  - destruct r; [|done]. destruct H as (_ & _ & H). by rewrite decide_False in H by congruence.
  - destruct H as [->|[-> _]]; [done|]. by destruct Ha.
Qed.

Definition beyond (u : string) : Prop := only = true ∨ u = v.

(** A program that leaves the VM alone lets it drift. *)
Lemma wp_avoids {A} (P : Prog A) w (Q : A → View → Prop) :
  avoids beyond P → vmOk w → (∀ a w', drift w w' → Q a w') → wp P w Q.
Proof.
  revert w. induction P as [a|c k IH]; intros w Ha Hok HQ; [exact (vwp_ret a w Q Hok (HQ a))|].
  destruct Ha as [Ha Hk]. intros w1 H1. split; [by eapply vmOk_drift|]. split.
  - split.
    + intros E u Hu. destruct (Ha u Hu). by left.
    + destruct c; try done; intros E; exfalso; (apply (Ha v); [cbn; congruence|by right]).
  - intros r w2 Hc _. apply viewCall_other in Hc; [subst w2|].
    + apply IH; [done|by eapply vmOk_drift|]. intros a w' Hd. apply HQ. by etrans.
    + intros E. apply (Ha _ E). by right.
Qed.

(** * Knowledge about a VM *)

(** Its row; whether nothing of it runs; whether it holds nothing on the host. *)
Record Know := mkKnow { kRow : option Row; kIdle : bool; kBare : bool }.

Record knows (k : Know) (w : View) : Prop := {
  kn_row : w.1 = kRow k;
  kn_idle : kIdle k = true → busy w.2 = false;
  kn_bare : kBare k = true → held w.2 = false ∧ inflight w.2 = false
}.

Lemma knows_drift k w w' : drift w w' → knows k w → knows k w'.
Proof.
  intros [E S] [H1 H2 H3]. split; [congruence|intros; eapply settles_busy; eauto|].
  intros [Hh Hi]%H3. destruct S as [_ S2 S3]. split.
  - destruct (held w'.2); [|done]. destruct S3; [done|congruence..].
  - destruct (inflight w'.2); [|done]. rewrite S2 in Hi by done. done.
Qed.

Definition safe {A} (k : Know) (P : Prog A) (Q : A → View → Prop) : Prop :=
  ∀ w, vmOk w → knows k w → wp P w Q.

(** What a call needs to be known. *)
Definition pre (k : Know) (c : Call) : Prop :=
  match c with
  | STransitionVM inp =>
      (nReleaseCompute inp || nReleaseAll inp = true → kIdle k = true) ∧
      (nTo inp = "deleted" → kIdle k = true ∧ kBare k = true) ∧
      (nReleaseAll inp = true → nTo inp = "deleted") ∧
      (nAcquireCompute inp = true → ∃ row res, kRow k = Some row ∧
         wMem row = rMemoryTotalMiB res ∧ wCpu row = rVCPU res ∧
         nAdmit inp = Some (restartAdmit p res))
  | SCreateVM inp => ∀ s, governed p (OCreateVM inp) s
  | SReleaseVMReservations _ => kIdle k = true
  | RLaunch _ => ∃ row, kRow k = Some row ∧ wState row = "starting" ∧
      wComputeReleased row = false ∧ wReleased row = false
  | _ => True
  end.

(** What its answer adds. *)
Definition after (k : Know) (c : Call) : Ans c → (Know → Prop) → Prop :=
  match c with
  | SGetVM u => λ r C, (∀ x, r = Ok x → vVMID x = u ∧ (u = v → rowMatches (kRow k) x)) → C k
  | SGetReservation u => λ r C, (∀ x, r = Ok x → u = v → ∃ row, kRow k = Some row ∧
      wMem row = rMemoryTotalMiB x ∧ wCpu row = rVCPU x ∧ wReleased row = rReleased x) → C k
  | SListVMs _ => λ r C, (∀ l, r = Ok l → NoDup (vVMID <$> l) ∧
      ∀ x, x ∈ l → vVMID x = v → rowMatches (kRow k) x) → C k
  | SCreateVM inp => λ r C,
      match r with
      | Ok (Created x _) => vVMID x = v → C (mkKnow (Some (createdView inp)) (kIdle k) (kBare k))
      | _ => C k
      end
  | STransitionVM inp => λ r C,
      match r with
      | Err _ => C k
      | Ok x => ∀ row, kRow k = Some row → vVMID x = v → vObservedState x = nTo inp →
          transitionAllowed (wState row) (nTo inp) = true →
          (∀ f, nFrom inp = Some f → wState row = f) →
          (wReleased row = true → ended (wState row) = true) →
          (wState row = "provisioning" → wComputeReleased row = false ∧ wReleased row = false) →
          C (mkKnow (Some (movedView inp row)) (kIdle k) (kBare k))
      end
  | SReleaseVMReservations _ => λ _ C, C k ∧
      ∀ row, kRow k = Some row → wState row = "failed" →
        C (mkKnow (Some (releasedView row)) (kIdle k) (kBare k))
  | RLaunch _ => λ _ C, C (mkKnow (kRow k) false false)
  | RStop _ => λ r C, C (mkKnow (kRow k) (kIdle k || proven r.2) (kBare k))
  | RForceStop _ => λ r C, C (mkKnow (kRow k) (kIdle k || proven r) (kBare k))
  | RRelease _ => λ r C, C (mkKnow (kRow k) (kIdle k) (kBare k || bool_decide (r = None)))
  | _ => λ _ C, C k
  end.

Lemma stopped_knows k o r h h' :
  stopped r h h' → knows k (o, h) →
  knows (mkKnow (kRow k) (kIdle k || proven r) (kBare k)) (o, h').
Proof.
  unfold stopped. intros Hs Hk. destruct (proven r); rewrite ?orb_true_r, ?orb_false_r.
  - destruct Hs as [Hb Hh], Hk as [H1 H2 H3]. split; [done|done|]. intros [E1 E2]%H3.
    cbn in *. pose proof Hb as [_ Hi]%orb_false_iff. split; [|done].
    destruct (held h'); [|done]. destruct Hh; [done|congruence..].
  - apply (knows_drift _ (o, h)); [by split|]. by destruct Hk.
Qed.

Lemma released_knows k o (r : option RtErr) h h' :
  settles h h' → (r = None → held h' = false ∧ inflight h' = false) → knows k (o, h) →
  knows (mkKnow (kRow k) (kIdle k) (kBare k || bool_decide (r = None))) (o, h').
Proof.
  intros Hs Hr Hk. apply (knows_drift _ _ (o, h')) in Hk as [H1 H2 H3]; [|by split].
  split; [done|done|]. cbn [kBare]. case_bool_decide; rewrite ?orb_true_r, ?orb_false_r; auto.
Qed.

Lemma vmOk_settles o h h' : settles h h' → vmOk (o, h) → vmOk (o, h').
Proof. intros H. by apply vmOk_drift. Qed.

Lemma stopped_ok o r h h' : stopped r h h' → vmOk (o, h) → vmOk (o, h').
Proof.
  unfold stopped. destruct (proven r); [|apply vmOk_settles]. intros [Hb Hh].
  assert (Hd : busy h = false → held h = false → held h' = false).
  { intros [_ Hi]%orb_false_iff E. destruct (held h'); [|done]. destruct Hh; [done|congruence..]. }
  unfold vmOk. cbn. destruct o as [row|].
  - intros [H1 H2 H3 H4]. split; [by rewrite Hb| |done|].
    + intros [_ H]%H2. done.
    + intros [E1 E2]%H4. auto.
  - intros [E1 E2]. auto.
Qed.

(** A launch that may be running is paid for. *)
Lemma vmOk_starting row h :
  wState row = "starting" → wComputeReleased row = false → wReleased row = false →
  vmOk (Some row, h).
Proof. intros E1 E2 E3. unfold vmOk. cbn. split; rewrite ?E1, ?E3; done. Qed.

Lemma vmOk_released row h : rowOk row h → wState row = "failed" → busy h = false →
  vmOk (Some (releasedView row), h).
Proof.
  intros _ Es Hb. unfold vmOk. cbn.
  split; cbn [releasedView wState wComputeReleased wReleased]; rewrite ?Es, ?Hb; done.
Qed.

Lemma viewHost_own c o h r o' h' :
  rtOf c = Some v → viewHost v c (o, h) r (o', h') → o' = o ∧ hostCall c h r h'.
Proof. intros E. unfold viewHost. by rewrite decide_True. Qed.

(** One call, from what is known to what is known. *)
Lemma knows_call k c w r w' :
  pre k c → (∀ u, aims c = Some u → u = v) → vmOk w → knows k w → viewCall v c w r w' →
  ∀ C, after k c r C → ∃ k', C k' ∧ knows k' w' ∧ vmOk w'.
Proof.
  intros Hp Ha Hok Hk Hc C HC. pose proof (kn_row _ _ Hk) as Erow.
  destruct w as [o h], w' as [o' h']. cbn in Erow. subst o.
  destruct c; cbn [aims rtOf] in Ha;
    try (apply viewCall_other in Hc; [injection Hc as -> ->; exists k; split_and!; [exact HC|done..]|done]);
    try specialize (Ha _ eq_refl); cbn [pre after viewCall] in *.
  - destruct Hc as [[= -> ->] Hc]. exists k. split; [exact (HC Hc)|done].
  - destruct Hc as [[= -> ->] Hc]. exists k. split; [exact (HC Hc)|done].
  - destruct Hc as [[= -> ->] Hc]. exists k. split; [exact (HC Hc)|done].
  - destruct r as [[x ?| | |]|]; try (injection Hc as -> ->; by exists k).
    destruct Hc as [Ex Hc]. rewrite decide_True in Hc by done. destruct Hc as [En [= -> ->]]. cbn in En.
    eexists. split; [apply HC; congruence|]. split; [destruct Hk; by split|].
    unfold vmOk in Hok. cbn in Hok. rewrite En in Hok. destruct Hok as [H1 H2].
    unfold vmOk. cbn. split; cbn [createdView wState wComputeReleased wReleased]; rewrite ?H1; done.
  - destruct r as [x|]; [|injection Hc as -> ->; by exists k].
    destruct Hc as (Ex & Es & Hc). rewrite decide_True in Hc by done.
    destruct Hc as (row & Erow & Hal & Hfrom & [= -> ->]). cbn in Erow.
    unfold vmOk in Hok. cbn in Hok. rewrite Erow in Hok. pose proof Hok as [H1 H2 H3 H4].
    eexists. split; [apply (HC row); [congruence|congruence|done|done|done|done|] |].
    + intros [_ ?]%H2. done.
    + split; [destruct Hk; by split|]. destruct Hp as (P1 & P2 & P3 & _), Hk as [K1 K2 K3]. cbn in *.
      apply rowOk_moved; [done|done|auto| |done].
      intros [E1 E2]%P2. split; [auto|by apply K3].
  - destruct HC as [HC1 HC2]. destruct Hc as [[= -> ->]|(_ & row & E1 & E2 & [= -> ->])]; [by exists k|].
    cbn in E1. eexists. split; [by apply (HC2 row)|]. split; [destruct Hk; by split|].
    unfold vmOk in Hok. cbn in Hok. rewrite E1 in Hok.
    apply vmOk_released; [done|done|]. by apply (kn_idle _ _ Hk).
  - apply viewHost_own in Hc as [-> _]; [|cbn; congruence].
    eexists. split; [exact HC|]. split; [by split|].
    destruct Hp as (row & E & ? & ? & ?). cbn in *. rewrite E. by apply vmOk_starting.
  - apply viewHost_own in Hc as [-> Hh]; [|cbn; congruence]. exists k. split; [done|].
    split; [by eapply (knows_drift _ (_, h))|by eapply vmOk_settles].
  - apply viewHost_own in Hc as [-> Hh]; [|cbn; congruence]. exists k. split; [done|].
    split; [by eapply (knows_drift _ (_, h))|by eapply vmOk_settles].
  - apply viewHost_own in Hc as [-> Hh]; [|cbn; congruence]. eexists. split; [exact HC|].
    split; [by eapply stopped_knows|by eapply stopped_ok].
  - apply viewHost_own in Hc as [-> Hh]; [|cbn; congruence]. eexists. split; [exact HC|].
    split; [by eapply stopped_knows|by eapply stopped_ok].
  - apply viewHost_own in Hc as [-> [Hh1 Hh2]]; [|cbn; congruence]. eexists. split; [exact HC|].
    split; [by eapply released_knows|by eapply vmOk_settles].
Qed.

(** * The rules *)

Lemma safe_call {A} k c (f : Ans c → Prog A) Q :
  pre k c → (∀ u, aims c = Some u → u = v) →
  (∀ r, may c r → after k c r (λ k', safe k' (f r) Q)) → safe k (call c ≫= f) Q.
Proof.
  intros Hp Ha H w Hok Hk w1 Hd.
  apply (vmOk_drift _ _ Hd) in Hok. apply (knows_drift _ _ _ Hd) in Hk.
  split; [done|]. split.
  - split; [done|]. destruct c; try done. intros _ Hacq.
    destruct Hp as (_ & _ & _ & Hp). destruct (Hp Hacq) as (row & res & E & ?).
    exists row, res. by rewrite (kn_row _ _ Hk).
  - intros r w2 Hc Hm. destruct (knows_call _ _ _ _ _ Hp Ha Hok Hk Hc _ (H r Hm)) as (k' & Hs & Hk' & Hok').
    by apply Hs.
Qed.

Lemma safe_ret {A} k (a : A) (Q : A → View → Prop) :
  (∀ w, vmOk w → knows k w → Q a w) → safe k (mret a) Q.
Proof.
  intros HQ w Hok Hk. apply vwp_ret; [done|]. intros w' Hd.
  apply HQ; [by eapply vmOk_drift|by eapply knows_drift].
Qed.

Lemma safe_bind {A B} k (P : Prog A) (f : A → Prog B) (R : A → Know → Prop) Q :
  safe k P (λ a w, ∃ k', knows k' w ∧ R a k') → (∀ a k', R a k' → safe k' (f a) Q) →
  safe k (P ≫= f) Q.
Proof.
  intros HP Hf w Hok Hk. apply vwp_bind. eapply vwp_mono; [|by apply HP].
  intros a w' Hok' (k' & Hk' & HR). by eapply Hf.
Qed.

Lemma safe_avoid {A B} k (P : Prog A) (f : A → Prog B) Q :
  avoids beyond P → (∀ a, safe k (f a) Q) → safe k (P ≫= f) Q.
Proof.
  intros HP Hf. apply (safe_bind _ _ _ (λ _ k', k' = k)); [|by intros a k' ->].
  intros w Hok Hk. apply wp_avoids; [done|done|]. intros a w' Hd. exists k.
  split; [by eapply knows_drift|done].
Qed.

(** An operation that is done with its VM. *)
Definition over {A} (a : A) (w : View) : Prop := True.

Lemma safe_over {A} k (P : Prog A) : avoids beyond P → safe k P over.
Proof. intros HP w Hok _. by apply wp_avoids. Qed.

Lemma safe_done {A} k (a : A) : safe k (mret a) over.
Proof. by apply safe_ret. Qed.

(** What follows a part that is done with the VM. *)
Lemma safe_then {A B} k (P : Prog A) (f : A → Prog B) :
  safe k P over → (∀ a k', safe k' (f a) over) → safe k (P ≫= f) over.
Proof.
  intros H Hf. apply (safe_bind _ _ _ (λ _ _, True)); [|intros; apply Hf].
  intros w Hok Hk. eapply vwp_mono; [|by apply H]. intros a w' _ _.
  exists (mkKnow w'.1 false false). split; [by split|done].
Qed.

(** A VM that was only admitted is idle. *)
Lemma safe_new {A} k (P : Prog A) row Q :
  kRow k = Some row → wState row = "provisioning" →
  safe (mkKnow (kRow k) true (kBare k)) P Q → safe k P Q.
Proof.
  intros Er Es H w Hok Hk. apply H; [done|]. destruct Hk as [H1 H2 H3]. split; [done| |done].
  intros _. unfold vmOk in Hok. rewrite H1, Er in Hok. by apply (ro_new _ _ Hok).
Qed.

(** Knowing less is enough. *)
Lemma safe_forget {A} o i b (P : Prog A) Q :
  safe (mkKnow o false false) P Q → safe (mkKnow o i b) P Q.
Proof. intros H w Hok [H1 H2 H3]. apply H; [done|]. by split. Qed.

End logic.

Section runs.
Context (errText : StoreErr → string) (reporting : bool) (bad : string → Prop).

Lemma avoids_concludeRun run t : avoids bad (concludeRun reporting run t).
Proof. unfold concludeRun, startConcluding, settleRun, postConclude. avoid. Qed.

Lemma avoids_ConcludeRun run verdict abort reason :
  avoids bad (ConcludeRun reporting run verdict abort reason).
Proof.
  unfold ConcludeRun, concludeRunAbort, concludeRunWithVerdict, ofStore, startConcluding,
    settleRun, postConclude. avoid.
Qed.

Lemma avoids_concludeActive vm t : avoids bad (concludeActive reporting vm t).
Proof. unfold concludeActive. avoid; apply avoids_concludeRun. Qed.

Lemma avoids_onVMRunning vm : avoids bad (onVMRunning vm).
Proof. unfold onVMRunning. avoid. Qed.

Lemma avoids_failAction vm op action cause : avoids bad (failAction errText vm op action cause).
Proof. unfold failAction. avoid. Qed.

Lemma avoids_succeedAction op phase x : avoids bad (succeedAction op phase x).
Proof. unfold succeedAction. avoid. Qed.

Lemma avoids_recordRetryFailure x e : avoids bad (recordRetryFailure x e).
Proof. unfold recordRetryFailure. avoid. Qed.

Lemma avoids_reconcileRuns : avoids bad (reconcileRuns reporting).
Proof.
  unfold reconcileRuns, reconcileRun, reconcileReport. avoid;
    try (apply avoids_forEach; intros); avoid; try apply avoids_concludeRun.
Qed.

End runs.

End ManagerSafe.
