(* ===== verification/ManagerOps.v ===== *)
(** Every operation of the manager keeps its VM in order. *)

From S2P Require Import Prelude Events Store RunStore VmStore StoreRules Registry History Admission.
From S2P Require Import Manager ManagerSystem ManagerView ManagerSafe.
Import Events Sql Store Log Runs Vms Rules Registry History Admission Manager ManagerSystem ManagerView ManagerSafe.

Local Open Scope Z_scope.

Module ManagerOps.

Create HintDb quietly.
#[export] Hint Resolve avoids_concludeRun avoids_ConcludeRun avoids_concludeActive
  avoids_onVMRunning avoids_failAction avoids_succeedAction avoids_recordRetryFailure
  avoids_reconcileRuns avoids_ret : quietly.
#[export] Hint Extern 1 (avoids _ (onVMTerminal _ _)) => apply avoids_concludeActive : quietly.
#[export] Hint Extern 1 (avoids _ (onVMLaunchFailed _ _)) => apply avoids_concludeActive : quietly.

Ltac quietly := repeat first
  [ solve [eauto with quietly]
  | apply avoids_bind; [|intros]
  | apply avoids_call; by intros
  | case_match ].

(** The side conditions of a call on the operation's own VM. *)
Ltac own := intros ? [= <-]; cbn; congruence.
Ltac known :=
  split_and!; cbn; intros; try done; try congruence; try (split; congruence).

(** A call of another kind than transition, create or launch. *)
Ltac plain := apply safe_call; [exact I|first [by intros|own]|intros; cbn [after]].
Ltac finish := first [apply safe_done|apply safe_over; solve [quietly]].

Section ops.
Context (p : Policy) (v : string) (may : ∀ c, Ans c → Prop).
Context (errText : StoreErr → string) (reporting : bool).

Abbreviation safe := (safe p v true may).

(** ** Launch *)

(** The cleanup gives compute up for an idle VM only. *)
Lemma safe_launchCleanup k stage reason :
  kIdle k = true ∨ stage ∈ ["launch"; "launch_pending"; "running"] →
  safe k (launchCleanup v stage reason)
    (λ a w, ∃ k', knows k' w ∧ kRow k' = kRow k ∧ (a.1 = true → kIdle k' = true)).
Proof.
  intros Hs. unfold launchCleanup. destruct (_ || _) eqn:E.
  - plain. apply safe_ret. intros w _ Hk. eexists. split; [exact Hk|]. split; [done|].
    cbn. destruct r as [e|]; cbn; [intros ->|]; by rewrite orb_true_r.
  - apply safe_ret. intros w _ Hk. exists k. split_and!; [done..|]. cbn. intros Hn.
    destruct Hs as [?|Hs]; [done|].
    rewrite !elem_of_cons, elem_of_nil in Hs. by destruct_or! Hs; subst.
Qed.

Lemma safe_failLaunch k row op stage reason :
  kRow k = Some row →
  wState row = "provisioning" ∨ stage ∈ ["launch"; "launch_pending"; "running"] →
  safe k (failLaunch reporting v op stage reason) over.
Proof.
  intros Er Hst.
  assert (H : ∀ k', kRow k' = kRow k →
    kIdle k' = true ∨ stage ∈ ["launch"; "launch_pending"; "running"] →
    safe k' (failLaunch reporting v op stage reason) over).
  { intros k' Ek Hs. unfold failLaunch.
    eapply safe_bind; [by apply safe_launchCleanup|]. intros [b why] k1 [Ek1 Hi]. cbn in Hi.
    apply safe_call; [|own|].
    - cbn. rewrite orb_false_r. known. by apply Hi.
    - intros [x|e] _; cbn [after]; intros; finish. }
  destruct Hst as [Hs|Hs]; [|apply H; auto].
  eapply safe_new; [done..|]. apply H; auto.
Qed.

Lemma planCreate_vm rh mc owner vm req inp :
  planCreate rh mc owner vm req = Ok inp → iVMID inp = vm.
Proof.
  unfold planCreate. intros H. destruct (String.eqb _ _); [done|].
  destruct (_ !! _); [|done]. destruct (String.eqb _ _); [done|].
  destruct (_ <? _)%nat; [done|]. destruct (negb _); [done|].
  cbv zeta in H. destruct (_ || _); [done|]. by injection H as <-.
Qed.

Lemma launchStage_in e : launchFailureStage e ∈ ["launch"; "launch_pending"; "running"].
Proof. destruct e; set_solver. Qed.

Lemma safe_runLaunch k row x op spec :
  kRow k = Some row → wState row = "provisioning" →
  wComputeReleased row = false → wReleased row = false →
  vVMID x = v → (∀ b, spVMID (spec b) = v) →
  safe k (runLaunch errText reporting x op spec) over.
Proof.
  intros Er Es Ec Erel Ex Esp. unfold runLaunch. rewrite Ex. cbv zeta. plain. rename r into boot.
  apply safe_call; [known|own|]. intros [y|e] _; cbn [after].
  - intros ? E1 _ _ _ _ _ _. rewrite Er in E1. injection E1 as <-.
    apply safe_call; [|own|].
    { eexists. split; [done|]. by cbn. }
    intros [staged|e] _; cbn [after].
    + apply safe_call; [known|own|]. intros [z|e] _; cbn [after].
      * intros. finish.
      * case_match; [finish|]. eapply safe_failLaunch; [done|]. right. set_solver.
    + eapply safe_failLaunch; [done|]. right. apply launchStage_in.
  - case_match; [finish|]. eapply safe_failLaunch; [done|]. by left.
Qed.

Lemma safe_CreateVM rh mc owner req k :
  mcPolicy mc = p →
  (∀ inp, planCreate rh mc owner v req = Ok inp →
     iMemoryMiB inp + ReservePerVMHostOverheadMiB (pAdmission p) < room ∧
     iRootDiskMiB inp + iWorkspaceDiskMiB inp < room) →
  safe k (CreateVM errText reporting rh mc owner v req) over.
Proof.
  intros Hp Hroom. unfold CreateVM. plain. destruct r; [finish|].
  destruct (planCreate rh mc owner v req) as [inp|] eqn:Hpl; [|finish].
  pose proof (planCreate_vm _ _ _ _ _ _ Hpl) as Ev. destruct (Hroom _ eq_refl) as [R1 R2].
  apply safe_call; [|own|].
  { intros s. by exists rh, mc, owner, v, req. }
  intros [[x o| | |]|] _; cbn [after]; try finish. intros Ex.
  apply safe_then; [|intros; finish]. unfold enqueueLaunch. rewrite Ex. cbv zeta.
  do 3 (plain; destruct r; [|eapply safe_failLaunch; [done|]; by left]).
  by eapply safe_runLaunch.
Qed.

(** ** Actions *)

Lemma safe_startAction k x op rev :
  vVMID x = v → rowMatches (kRow k) x →
  safe k (startAction errText reporting p x op rev) over.
Proof.
  intros Ex (row & Er & Es & _). unfold startAction. rewrite Ex. cbv zeta.
  destruct (negb _) eqn:Est; [finish|]. apply negb_false_iff, String.eqb_eq in Est.
  plain. intros Hres. destruct r as [res|]; [|finish].
  destruct (Hres _ eq_refl eq_refl) as (row' & Er' & Em & Ecpu & _).
  rewrite Er in Er'. injection Er' as <-.
  plain. rename r into boot. apply safe_call; [|own|].
  { known. by exists row, res. }
  intros [y|] _; cbn [after]; [|finish]. intros row' E1 _ _ _ _ Hrel _.
  rewrite Er in E1. injection E1 as <-.
  apply safe_call; [|cbn; own|].
  { eexists. split; [done|]. cbn. split; [done|]. split; [done|].
    destruct (wReleased row); [|done]. rewrite Es, Est in Hrel. by specialize (Hrel eq_refl). }
  intros [staged|e] _; cbn [after].
  - apply safe_call; [known|own|]. intros [z|] _; cbn [after]; intros; finish.
  - apply safe_then; [|intros; finish]. eapply safe_failLaunch; [done|]. right. apply launchStage_in.
Qed.

Lemma safe_actionTail k op action newState reason rev release debt :
  (release = true → kIdle k = true) → newState ≠ "deleted" →
  safe k (actionTail errText reporting v op action newState reason rev release debt) over.
Proof.
  intros Hr Hd. unfold actionTail. apply safe_call; [|own|].
  - cbn. rewrite orb_false_r. known. by apply Hr.
  - intros [x|] _; cbn [after]; intros; finish.
Qed.

Lemma safe_haltStop k :
  safe k (haltStop v) (λ a w, ∃ k', knows k' w ∧ (proven a.2 = true → kIdle k' = true)).
Proof.
  unfold haltStop. plain. apply safe_ret. intros w _ Hk. eexists. split; [exact Hk|].
  destruct r as [[] e]; cbn; intros ->; by rewrite orb_true_r.
Qed.

Lemma safe_haltForce k :
  safe k (haltForce v) (λ a w, ∃ k', knows k' w ∧ (proven a.2 = true → kIdle k' = true)).
Proof.
  unfold haltForce. plain. apply safe_ret. intros w _ Hk. eexists. split; [exact Hk|].
  cbn; intros ->; by rewrite orb_true_r.
Qed.

Lemma safe_stopAction k x op action requested rev halt :
  vVMID x = v →
  (∀ k, safe k halt (λ a w, ∃ k', knows k' w ∧ (proven a.2 = true → kIdle k' = true))) →
  safe k (stopAction errText reporting x op action requested rev halt) over.
Proof.
  intros Ex Hh. unfold stopAction. rewrite Ex. cbv zeta. destruct (negb _); [finish|].
  assert (Hf : ∀ k rev, safe k
    ('(reason, err) ← halt;
     match err with
     | Some e => if cleanupDebt e
                 then actionTail errText reporting v op action "stopped" reason rev true (Some e)
                 else failAction errText v op action (MRuntime action e)
     | None => actionTail errText reporting v op action "stopped" reason rev true None
     end) over).
  { intros k0 rev0. eapply safe_bind; [apply Hh|]. intros [reason [e|]] k1 Hi; cbn in Hi.
    - destruct (cleanupDebt e) eqn:Ee; [|finish]. apply safe_actionTail; [|done]. auto.
    - apply safe_actionTail; [|done]. auto. }
  destruct (negb _); [|apply Hf]. apply safe_call; [known|own|].
  intros [y|] _; cbn [after]; intros; [apply Hf|finish].
Qed.

Lemma safe_Action k action rev : safe k (Action errText reporting p v action rev) over.
Proof.
  unfold Action. destruct (negb _); [finish|]. plain. intros Hx. destruct r as [x|]; [|finish].
  destruct (Hx _ eq_refl) as [Ex Hrow]. specialize (Hrow eq_refl).
  plain. destruct r as [op|]; [|finish]. unfold doAction. rewrite Ex. cbv zeta.
  destruct (action =? "start")%string; [by apply safe_startAction|].
  destruct (action =? "pause")%string.
  { destruct (negb _); [finish|]. plain. destruct r; [finish|]. by apply safe_actionTail. }
  destruct (action =? "resume")%string.
  { destruct (negb _); [finish|]. plain. destruct r; [finish|]. by apply safe_actionTail. }
  destruct (action =? "stop")%string; apply safe_stopAction; auto using safe_haltStop, safe_haltForce.
Qed.

(** ** Delete *)

Lemma safe_deleteRelease k : kIdle k = true → safe k (deleteRelease v) over.
Proof.
  intros Hi. unfold deleteRelease. plain. destruct r as [e|]; [finish|].
  apply safe_call; [|own|].
  - cbn. rewrite orb_true_r. known.
  - intros [x|] _; cbn [after]; intros; finish.
Qed.

Lemma safe_signalOr k x next :
  vVMID x = v → safe (mkKnow (kRow k) true (kBare k)) next over → safe k (signalOr x next) over.
Proof.
  intros Ex Hn. unfold signalOr. rewrite Ex. plain. destruct r as [e|]; [finish|].
  cbn [proven]. by rewrite orb_true_r.
Qed.

Lemma safe_deleteSettled k x pin signalled :
  vVMID x = v → (signalled = true → kIdle k = true) →
  safe k (deleteSettled x pin signalled) over.
Proof.
  intros Ex Hs. unfold deleteSettled. rewrite Ex. cbv zeta.
  assert (Hrest : ∀ k0 y, kIdle k0 = kIdle k → vVMID y = v →
    safe k0 (if signalled then deleteRelease v else signalOr y (deleteRelease v)) over).
  { intros k0 y E Ey. destruct signalled.
    - apply safe_deleteRelease. rewrite E. auto.
    - apply safe_signalOr; [done|]. by apply safe_deleteRelease. }
  destruct (_ || _); [|by apply Hrest]. apply safe_call; [known|own|].
  intros [y|] _; cbn [after]; intros; [by apply Hrest|finish].
Qed.

Lemma safe_deleteReread k pin : kIdle k = true → safe k (deleteReread v pin) over.
Proof.
  intros Hi. unfold deleteReread. plain. intros Hz. destruct r as [z|]; [|finish].
  apply safe_deleteSettled; [by apply Hz|done].
Qed.

Lemma safe_deleteStop k x pin : vVMID x = v → safe k (deleteStop x pin) over.
Proof.
  intros Ex. unfold deleteStop. cbv zeta. apply safe_signalOr; [done|]. rewrite Ex.
  apply safe_call; [known|own|]. intros [z|e] _; cbn [after].
  - intros. by apply safe_deleteReread.
  - case_match; [by apply safe_deleteReread|finish].
Qed.

Lemma safe_deleteLive k x pin : vVMID x = v → safe k (deleteLive x pin) over.
Proof.
  intros Ex. unfold deleteLive. rewrite Ex. cbv zeta.
  destruct (negb _); [|by apply safe_deleteStop]. apply safe_call; [known|own|].
  intros [y|e] _; cbn [after].
  - intros. by apply safe_deleteStop.
  - case_match; [by apply safe_deleteStop|finish].
Qed.

Lemma safe_Delete k force pin : safe k (Delete v force pin) over.
Proof.
  unfold Delete. plain. intros Hx. destruct r as [x|]; [|finish].
  destruct (Hx _ eq_refl) as [Ex _]. destruct (_ =? _)%string; [finish|].
  plain. destruct r; [|finish]. destruct (liveStates _).
  - destruct force; [by apply safe_deleteLive|finish].
  - by apply safe_deleteSettled.
Qed.

(** ** Exit notices *)

(** A notice of the current boot is true. *)
Lemma safe_NotifyVMMExit k bootID reason graceful :
  (∀ row, kRow k = Some row → bootID = "" ∨ wBoot row = "" ∨ wBoot row = bootID → kIdle k = true) →
  safe k (NotifyVMMExit reporting v bootID reason graceful) over.
Proof.
  intros Hcur. unfold NotifyVMMExit. cbv zeta. plain. intros Hx. destruct r as [x|]; [|finish].
  destruct (Hx _ eq_refl) as [_ Hrow]. destruct (Hrow eq_refl) as (row & Er & _ & Eb).
  destruct (_ && _) eqn:Eboot; [finish|].
  assert (Hi : kIdle k = true).
  { apply (Hcur row Er). rewrite Eb. rewrite !andb_false_iff, !negb_false_iff, !String.eqb_eq in Eboot.
    destruct Eboot as [[?|?]|?]; auto. }
  assert (Hend : ∀ k0 inp, kIdle k0 = true → nVMID inp = v → nTo inp ≠ "deleted" →
    nReleaseAll inp = false → nAcquireCompute inp = false → safe k0
    (r ← call (STransitionVM inp);
     match r with
     | Ok _ => _ ← onVMTerminal reporting v; mret None
     | Err e => mret (if invalidTransition e then None else Some e)
     end) over).
  { intros k0 inp Hi0 E1 E2 E3 E4. apply safe_call; [known|own|].
    intros [y|] _; cbn [after]; intros; finish. }
  destruct (existsb _ _); [finish|]. destruct (_ || _); [by apply Hend|].
  apply safe_call; [known|own|].
  intros [y|] _; cbn [after]; intros; destruct graceful; by apply Hend.
Qed.

(** ** The stop behind a run's completion *)

Lemma safe_stopVMAfterRun k :
  (∀ r : Ans (RForceStop v), may (RForceStop v) r → proven r = true) →
  safe k (stopVMAfterRun v) over.
Proof.
  intros Hmay. unfold stopVMAfterRun. plain. intros _. destruct r as [x|]; [|finish].
  destruct (_ || _); [|finish]. apply safe_call; [known|own|].
  intros [y|] _; cbn [after]; intros; [|finish]. plain. destruct r as [forced err].
  apply (safe_bind _ _ _ _ _ _ _ (λ _ k', kIdle k' = true)).
  - destruct err as [e|].
    + plain. apply safe_ret. intros w _ Hk. eexists. split; [exact Hk|]. cbn.
      rewrite Hmay by done. apply orb_true_r.
    + apply safe_ret. intros w _ Hk. eexists. split; [exact Hk|]. apply orb_true_r.
  - intros _ k' Hi. apply safe_call; [known|own|].
    intros [z|] _; cbn [after]; intros; finish.
Qed.

(** ** Cleanup retries *)

Lemma safe_whileLive k next : safe k next over → safe k (whileLive next) over.
Proof. intros H. unfold whileLive. plain. destruct r; [done|finish]. Qed.

Lemma safe_retryFinish k x :
  vVMID x = v → kIdle k = true → kBare k = true →
  safe k (_ ← call (STransitionVM (releasingAll (pinned (retryMove x "deleted") (Some (vRevision x)))));
          mret tt) over.
Proof.
  intros Ex Hi Hb. unfold retryMove. rewrite Ex. apply safe_call; [known|own|].
  intros [y|] _; cbn [after]; intros; finish.
Qed.

Lemma safe_retryRelease k x :
  vVMID x = v → kIdle k = true → safe k (retryRelease x) over.
Proof.
  intros Ex Hi. unfold retryRelease. cbv zeta. rewrite Ex. plain.
  destruct r as [e|]; [finish|]. apply safe_whileLive. rewrite bool_decide_true, orb_true_r by done.
  destruct (_ =? "failed")%string.
  - apply safe_call; [done|own|]. intros r _. cbn [after]. split; intros; finish.
  - destruct (_ =? "stopping")%string; [|by apply safe_retryFinish].
    unfold retryMove. rewrite Ex. apply safe_call; [known|own|].
    intros [y|] _; cbn [after]; [|finish]. intros row _ Ey _ _ _ _ _. rewrite Ey.
    apply safe_call; [known|own|]. intros [z|] _; cbn [after]; [|finish]. intros.
    by apply safe_retryFinish.
Qed.

Lemma safe_retryForce k x : vVMID x = v → safe k (retryForce reporting x) over.
Proof.
  intros Ex. unfold retryForce. cbv zeta. rewrite Ex. plain.
  destruct r as [e|]; cbn [proven].
  - destruct (cleanupDebt e); [|finish]. cbn [negb]. rewrite orb_true_r.
    apply safe_whileLive. repeat (case_match; [finish|]). by apply safe_retryRelease.
  - rewrite orb_true_r. apply safe_whileLive.
    destruct (_ =? _)%string; [finish|]. destruct (_ && _); [|by apply safe_retryRelease].
    unfold retryMove. rewrite Ex. apply safe_call; [known|own|].
    intros [z|] _; cbn [after]; intros; finish.
Qed.

Lemma safe_retryVM k : safe k (retryVM reporting v) over.
Proof.
  unfold retryVM. plain. intros Hx. destruct r as [x|]; [|finish].
  destruct (Hx _ eq_refl) as [Ex _]. destruct (_ =? _)%string.
  { plain. destruct r as [[]|]; [by apply safe_retryForce|finish..]. }
  destruct (_ =? _)%string.
  { plain. intros _. destruct r as [res|]; [|finish]. destruct (rReleased res); [finish|].
    by apply safe_retryForce. }
  destruct (_ || _); [by apply safe_retryForce|finish].
Qed.

End ops.

(** ** Startup reconciliation *)

Section reconcile.
Context (p : Policy) (v : string) (may : ∀ c, Ans c → Prop) (f : Findings) (reporting : bool).

Definition covered : bool := bool_decide (v ∈ adopted f ∨ is_Some (ambiguous f !! v)).

Hypothesis may_ForceStop : ∀ vm e, may (RForceStop vm) (Some e) → unavailable e = false.
Hypothesis may_Release : ∀ vm e, may (RRelease vm) (Some e) → unavailable e = false.

Abbreviation safe := (safe p v false may).

(** The row a restart finds: what runs was found by the scan. *)
Lemma safe_reconcileVM o b x :
  vVMID x = v → rowMatches o x →
  safe (mkKnow o (negb covered) b) (reconcileVM f x) over.
Proof.
  intros Ex (row & Er & Es & _). subst o. unfold reconcileVM. cbv zeta. rewrite Ex.
  destruct (_ =? "provisioning")%string eqn:E1.
  { apply String.eqb_eq in E1. eapply safe_new; [done|congruence|].
    apply safe_call; [known|own|]. intros [y|] _; cbn [after]; intros; finish. }
  destruct (_ =? "starting")%string.
  { plain. set (b' := _ || _). assert (Hb : ∃ r', (match r with
      | Some e => (cleanupDebt e, "controller_restart; cleanup: " +:+ rtText e)
      | None => (true, "controller_restart") end) = (proven r, r')) by (destruct r; by eexists).
    destruct Hb as [why ->]. apply safe_call; [|own|].
    - cbn. rewrite orb_false_r. known. subst b'. destruct (proven r); [|done]. apply orb_true_r.
    - intros [y|] _; cbn [after]; intros; finish. }
  assert (Hidle : v ∉ adopted f → ambiguous f !! v = None → negb covered = true).
  { intros Ha Hn. unfold covered. rewrite bool_decide_false; [done|].
    intros [?|[? ?]]; congruence. }
  destruct (_ || _).
  { case_decide as Ha; [finish|]. destruct (ambiguous f !! v) eqn:Hn; [finish|].
    apply safe_call; [known; auto|own|]. intros [y|] _; cbn [after]; intros; finish. }
  destruct (_ =? "stopping")%string.
  { assert (Hsettle : ∀ k, kIdle k = true → safe k
      (_ ← call (STransitionVM (releasing (moveTo v "stopped" "controller_restart" 0) true));
       mret tt) over).
    { intros k Hi. apply safe_call; [known|own|]. intros [y|] _; cbn [after]; intros; finish. }
    destruct (ambiguous f !! v) eqn:Hn; [finish|]. case_decide as Ha; [|by apply Hsettle, Hidle].
    plain. destruct r as [e|].
    - rewrite (may_ForceStop v e) by done. destruct (cleanupDebt e) eqn:He; [|finish].
      plain. apply Hsettle. cbn. rewrite He. apply orb_true_r.
    - apply Hsettle. apply orb_true_r. }
  destruct (_ =? "deleting")%string; [|finish].
  plain. destruct r as [e|].
  - rewrite (may_ForceStop v e) by done. finish.
  - plain. destruct r as [e|].
    + rewrite (may_Release v e) by done. finish.
    + apply safe_call; [|own|].
      * cbn. rewrite !orb_true_r. known.
      * intros [y|] _; cbn [after]; intros; finish.
Qed.

Lemma avoids_reconcileVM x : vVMID x ≠ v → avoids (beyond v false) (reconcileVM f x).
Proof.
  intros Hx.
  assert (Hc : ∀ c, aims c = None ∨ aims c = Some (vVMID x) → avoids (beyond v false) (call c)).
  { intros c Ha. apply avoids_call. intros u Hu [?| ->]; [done|]. destruct Ha; congruence. }
  unfold reconcileVM. cbv zeta.
  repeat first
    [ apply avoids_ret
    | apply avoids_bind; [|intros]
    | apply Hc; by right
    | apply Hc; by left
    | case_match
    | case_decide ].
Qed.

Lemma safe_reconcileAll o l :
  NoDup (vVMID <$> l) → (∀ x, x ∈ l → vVMID x = v → rowMatches o x) →
  safe (mkKnow o (negb covered) false) (forEach (reconcileVM f) l) over.
Proof.
  induction l as [|x l IH]; intros Hnd Hl; [finish|]. csimpl in Hnd. cbn [forEach].
  apply NoDup_cons in Hnd as [Hx Hnd]. destruct (decide (vVMID x = v)) as [E|E].
  - apply safe_then; [apply safe_reconcileVM; [done|apply Hl; [by left|done]]|].
    intros _ k'. apply safe_over, avoids_forEach. intros y Hy. apply avoids_reconcileVM.
    intros Ey. destruct Hx. rewrite E, <- Ey. by apply list_elem_of_fmap_2.
  - apply safe_avoid; [by apply avoids_reconcileVM|]. intros _. apply IH; [done|].
    intros y Hy. apply Hl. by right.
Qed.

Lemma avoids_failOperations bad ops : avoids bad (failOperations ops).
Proof.
  induction ops as [|o ops IH]; [done|]. cbn [failOperations].
  apply avoids_bind; [by split|]. intros [?|?]; [apply IH|done].
Qed.

Lemma safe_failAll k state next : safe k next over → safe k (failAll state next) over.
Proof.
  intros Hn. unfold failAll. plain. destruct r as [ops|]; [|finish].
  apply safe_avoid; [apply avoids_failOperations|]. intros []; [done|finish].
Qed.

Lemma safe_Reconcile o :
  safe (mkKnow o (negb covered) false) (Reconcile reporting f) over.
Proof.
  unfold Reconcile. do 2 apply safe_failAll. plain. intros Hl. destruct r as [l|]; [|finish].
  destruct (Hl l eq_refl) as [Hnd Hrow]. apply safe_then; [by apply safe_reconcileAll|].
  intros _ k'. finish.
Qed.

End reconcile.
End ManagerOps.
