(* ===== verification/ManagerHost.v ===== *)
(** The manager, its store and its host together: what runs is always paid for,
    and what is deleted is gone. *)

From S2P Require Import Prelude Events Store RunStore VmStore StoreRules Registry History Admission.
From S2P Require Import Manager ManagerSystem ManagerView ManagerSafe ManagerOps.
Import Events Sql Store Log Runs Vms Rules Registry History Admission Manager ManagerSystem ManagerView ManagerSafe ManagerOps.

Local Open Scope Z_scope.

Module ManagerHost.

Section host.
Context (hash : Envelope → string) (redacted : string → string) (errText : StoreErr → string)
  (reporting : bool) (p : Policy).

(** * The invariant *)

Definition mayJob (k : Kind) (c : Call) (r : Ans c) : Prop :=
  match k with
  | KAfterRun _ =>
    match c return Ans c → Prop with RForceStop _ => λ r, proven r = true | _ => λ _, True end r
  | _ => True
  end.

Definition mayBoot (c : Call) (r : Ans c) : Prop :=
  match c return Ans c → Prop with
  | RForceStop _ | RRelease _ => λ r, match r with Some e => unavailable e = false | None => True end
  | _ => λ _, True
  end r.

Definition jobOk (x : World) (j : Job) : Prop :=
  match target (jKind j) with
  | Some v => wp p v true (mayJob (jKind j)) (jProg j) (view x v) over
  | None => quiet (jProg j)
  end.

Record sysOk (y : Sys) : Prop := {
  so_store : storeOk hash p (st (world y));
  so_vms : ∀ v, vmOk (view (world y) v);
  so_jobs : ∀ i j, jobs y !! i = Some j → jobOk (world y) j;
  so_alone : ∀ i i' j j', jobs y !! i = Some j → jobs y !! i' = Some j' →
    is_Some (target (jKind j)) → target (jKind j) = target (jKind j') → i = i';
  so_boot : ∀ P, boot y = Some P → jobs y = ∅ ∧
    ∀ v, wp p v false mayBoot P (view (world y) v) over
}.

(** What a job owes at a call is what the store's budget needs. *)
Lemma owes_governed only c x v :
  owes p v only c (view x v) → aims c = Some v → governedCall redacted p c (st x).
Proof.
  intros [_ Ho] Ha. destruct c; try done; injection Ha as Ha; unfold governedCall; cbn [opOf].
  - by apply Ho.
  - intros Hacq. destruct (Ho Ha Hacq) as (row & res & E & Em & Ec & Hadm).
    unfold view, rowOf in E. cbn in E. destruct (select1 (byVMID v) _); [|done]. cbn in E.
    destruct (select1 (byReservation v) _) as [r|] eqn:Er; [|done]. injection E as <-.
    exists r. rewrite Ha. split; [done|]. rewrite Hadm. unfold restartAdmit. cbn in Em, Ec.
    by rewrite Em, Ec.
Qed.

Lemma unaimed_governed c x : aims c = None → governedCall redacted p c (st x).
Proof. by destruct c. Qed.

(** A call that reaches one VM at most leaves the others as they are. *)
Lemma callStep_others c x r y u :
  storeOk hash p (st x) → callStep hash redacted c x r y → aims c ≠ Some u → view y u = view x u.
Proof. intros Hok Hs Ha. by eapply viewCall_other, callStep_view. Qed.

Lemma jobOk_view x x' j :
  (∀ v, target (jKind j) = Some v → view x' v = view x v) → jobOk x j → jobOk x' j.
Proof. unfold jobOk. intros H. destruct (target _); [by rewrite H|done]. Qed.

Lemma jobOk_drift x x' j :
  (∀ v, drift (view x v) (view x' v)) → jobOk x j → jobOk x' j.
Proof.
  unfold jobOk. intros H. destruct (target _); [|done]. by apply wp_drift.
Qed.

Lemma viewCall_ok only may c k w r w' v :
  wp (A:=unit) p v only may (Do c k) w over → viewCall v c w r w' → may c r →
  wp p v only may (k r) w' over.
Proof. intros H Hc Hm. destruct (H w) as (_ & _ & Hk); [done|]. by apply Hk. Qed.

(** * Every step keeps it *)

Lemma jobOk_begin k y :
  storeOk hash p (st (world y)) → (∀ v, vmOk (view (world y) v)) → orderly p (LBegin k) y →
  jobOk (world y) (mkJob k (program errText reporting p k)).
Proof.
  intros Hok Hv [_ Ho].
  assert (Hsafe : ∀ v P may idle, (idle = true → busy (host (world y) v) = false) →
    safe p v true may (mkKnow (view (world y) v).1 idle false) P over →
    wp (A:=unit) p v true may P (view (world y) v) over).
  { intros v P may idle Hi H. apply H; [done|]. by split. }
  unfold jobOk. destruct k as [rh mc owner vm req| | |vm bootID reason graceful| | | |];
    cbn [jKind jProg target program] in *.
  - destruct Ho as [Hp Hroom]. apply (Hsafe _ _ _ false); [done|].
    apply safe_then; [by apply safe_CreateVM|intros; apply safe_done].
  - apply (Hsafe _ _ _ false); [done|].
    apply safe_then; [apply safe_Action|intros; apply safe_done].
  - apply (Hsafe _ _ _ false); [done|].
    apply safe_then; [apply safe_Delete|intros; apply safe_done].
  - apply (Hsafe _ _ _ (negb (busy (host (world y) vm)))); [by destruct (busy _)|].
    apply safe_then; [|intros; apply safe_done]. apply safe_NotifyVMMExit.
    cbn [kRow kIdle]. intros row Er Hb. rewrite Ho; [done|]. intros x Hx.
    destruct (keyed_row _ _ _ (ok_keyed _ _ _ Hok) Hx) as (r & _ & Hr).
    unfold view in Er. cbn in Er. rewrite Hr in Er. by injection Er as <-.
  - apply (Hsafe _ _ _ false); [done|]. by apply safe_stopVMAfterRun.
  - apply (Hsafe _ _ _ false); [done|]. apply safe_retryVM.
  - apply avoids_bind; [apply avoids_concludeRun|by intros].
  - apply avoids_bind; [apply avoids_ConcludeRun|by intros].
Qed.

Lemma sysOk_call k i c cont r w w' js b :
  sane p → sysOk (mkSys w js b) → js !! i = Some (mkJob k (Do c cont)) →
  callStep hash redacted c w r w' → mayJob k c r →
  sysOk (mkSys w' (<[i := mkJob k (cont r)]> js) b).
Proof.
  intros Hp [Hst Hv Hj Ha Hb] Hi Hc Hm. cbn [world jobs boot] in *.
  assert (Hb' : b = None).
  { destruct b as [P|]; [|done]. destruct (Hb P eq_refl) as [-> _]. done. }
  subst b. pose proof (Hj _ _ Hi) as Hjob. unfold jobOk in Hjob. cbn [jKind jProg] in Hjob.
  assert (Haim : ∀ u, aims c = Some u → target k = Some u).
  { intros u Hu. destruct (target k) as [v|] eqn:Et.
    - destruct (Hjob (view w v)) as (_ & [Ho _] & _); [done|]. by rewrite (Ho eq_refl u Hu).
    - destruct Hjob as [Hq _]. by destruct (Hq u Hu). }
  assert (Hown : ∀ v, target k = Some v → wp p v true (mayJob k) (cont r) (view w' v) over).
  { intros v Et. rewrite Et in Hjob. eapply viewCall_ok; [done| |done]. by eapply callStep_view. }
  assert (Hother : ∀ u, target k ≠ Some u → view w' u = view w u).
  { intros u Hu. eapply callStep_others; [done..|]. intros E. by apply Hu, Haim. }
  split; cbn [world jobs boot].
  - eapply callStep_ok; [done|exact Hst| |done]. destruct (aims c) as [u|] eqn:Eu.
    + pose proof (Haim u eq_refl) as Et. rewrite Et in Hjob.
      destruct (Hjob (view w u)) as (_ & Ho & _); [done|]. by eapply owes_governed.
    + by apply unaimed_governed.
  - intros u. destruct (decide (target k = Some u)) as [E|E].
    + eapply wp_ok. by apply Hown.
    + by rewrite Hother.
  - intros i' j'. destruct (decide (i' = i)) as [->|Hne].
    + rewrite lookup_insert_eq. intros [= <-]. unfold jobOk. cbn [jKind jProg].
      destruct (target k) as [v|] eqn:Et; [by apply Hown|]. by apply Hjob.
    + rewrite lookup_insert_ne by done. intros Hj'. eapply jobOk_view; [|by eapply Hj].
      intros u Hu. apply Hother. intros Et. destruct Hne. symmetry.
      eapply Ha; [exact Hi|exact Hj'|cbn; by eexists|cbn; congruence].
  - assert (Hl : ∀ i' j', (<[i:=mkJob k (cont r)]> js) !! i' = Some j' →
      ∃ j, js !! i' = Some j ∧ jKind j = jKind j').
    { intros i' j'. destruct (decide (i' = i)) as [->|Hne].
      - rewrite lookup_insert_eq. intros [= <-]. by eexists.
      - rewrite lookup_insert_ne by done. by eexists. }
    intros i1 i2 j1 j2 (j1' & E1 & K1)%Hl (j2' & E2 & K2)%Hl. rewrite <- K1, <- K2. by eapply Ha.
  - done.
Qed.

Lemma sysOk_begin k i w js :
  sysOk (mkSys w js None) → js !! i = None → orderly p (LBegin k) (mkSys w js None) →
  sysOk (mkSys w (<[i := mkJob k (program errText reporting p k)]> js) None).
Proof.
  intros [Hst Hv Hj Ha Hb] Hi Ho. split; cbn [world jobs boot] in *; [done|done| | |done].
  - intros i' j'. destruct (decide (i' = i)) as [->|Hne].
    + rewrite lookup_insert_eq. intros [= <-]. by apply (jobOk_begin k (mkSys w js None)).
    + rewrite lookup_insert_ne by done. apply Hj.
  - destruct Ho as [Ho _]. cbn [jobs] in Ho. intros i1 i2 j1 j2.
    destruct (decide (i1 = i)) as [->|H1], (decide (i2 = i)) as [->|H2];
      rewrite ?lookup_insert_eq, ?lookup_insert_ne by done; [done| | |by apply Ha].
    + intros [= <-] E2 Ht E. by destruct (Ho _ _ E2 Ht).
    + intros E1 [= <-] Ht E. cbn in E. exfalso. rewrite E in Ht. by apply (Ho _ _ E1 Ht).
Qed.

Lemma sysOk_end i w js b :
  sysOk (mkSys w js b) → sysOk (mkSys w (base.delete i js) b).
Proof.
  intros [Hst Hv Hj Ha Hb]. split; cbn [world jobs boot] in *; [done|done| | |].
  - intros i' j' [_ ?]%lookup_delete_Some. by eapply Hj.
  - intros i1 i2 j1 j2 [_ ?]%lookup_delete_Some [_ ?]%lookup_delete_Some. by eapply Ha.
  - intros P [-> ?]%Hb. by rewrite delete_empty.
Qed.

(** Steps that let every VM drift. *)
Lemma sysOk_drift w w' js b :
  sysOk (mkSys w js b) → storeOk hash p (st w') → (∀ v, drift (view w v) (view w' v)) →
  sysOk (mkSys w' js b).
Proof.
  intros [Hst Hv Hj Ha Hb] Hst' Hd. split; cbn [world jobs boot] in *; [done| | |done|].
  - intros v. by eapply vmOk_drift, Hv.
  - intros i j Hi. eapply jobOk_drift; [exact Hd|by eapply Hj].
  - intros P [-> HP]%Hb. split; [done|]. intros v. by eapply wp_drift, HP.
Qed.

Lemma drift_host vm h' w v :
  settles (host w vm) h' →
  drift (view w v) (view (mkWorld (st w) (λ u, if decide (u = vm) then h' else host w u)) v).
Proof.
  intros Hs. split; [done|]. cbn. case_decide; [by subst|done].
Qed.

Lemma drift_client o s' w v :
  quietOp o = true → reserves o = false → step hash (st w) o s' →
  drift (view w v) (view (mkWorld s' (host w)) v).
Proof.
  intros Hq Hr Hs. remember (st w) as s eqn:Es. destruct Hs as [e o s _ _]. subst s.
  split; [|done]. apply (proj2 (quiet_rows hash e o (st w) Hq Hr)).
Qed.

Lemma client_quiet o : clientOp o = true → quietOp o = true ∧ reserves o = false.
Proof. by destruct o. Qed.

Lemma quiet_governed o s : quietOp o = true → governed p o s.
Proof. by destruct o. Qed.

Lemma sysOk_restart f inst s' w js b :
  sane p → sysOk (mkSys w js b) → step hash (st w) (OReopen inst) s' →
  orderly p (LRestart f) (mkSys w js b) →
  sysOk (mkSys (mkWorld s' (host w)) ∅ (Some (Reconcile reporting f))).
Proof.
  intros Hp [Hst Hv _ _ _] Hs Ho. cbn [world jobs boot orderly] in *.
  assert (Hd : ∀ v, drift (view w v) (view (mkWorld s' (host w)) v)).
  { intros v. by apply (drift_client (OReopen inst)). }
  split; cbn [world jobs boot]; [by eapply (storeOk_step hash p _ (OReopen inst))| | | |].
  - intros v. by eapply vmOk_drift, Hv.
  - intros i j E. by rewrite lookup_empty in E.
  - intros i i' j j' E. by rewrite lookup_empty in E.
  - intros P [= <-]. split; [done|]. intros v.
    eapply (safe_Reconcile p v mayBoot f reporting); [by intros|by intros|by eapply vmOk_drift, Hv|].
    split; [done| |done]. cbn [kIdle]. unfold covered. intros Hn%negb_true_iff%bool_decide_eq_false.
    cbn. destruct (busy (host w v)) eqn:Eb; [|done]. destruct Hn. by apply Ho.
Qed.

Lemma sysOk_boot c cont r w w' js :
  sane p → sysOk (mkSys w js (Some (Do c cont))) → callStep hash redacted c w r w' → mayBoot c r →
  sysOk (mkSys w' js (Some (cont r))).
Proof.
  intros Hp [Hst Hv Hj Ha Hb] Hc Hm. cbn [world jobs boot] in *.
  destruct (Hb _ eq_refl) as [-> HP].
  assert (Hk : ∀ v, wp p v false mayBoot (cont r) (view w' v) over).
  { intros v. destruct (HP v (view w v)) as (_ & _ & Hk); [done|].
    apply Hk; [by eapply callStep_view|done]. }
  split; cbn [world jobs boot].
  - eapply callStep_ok; [done|exact Hst| |done]. destruct (aims c) as [u|] eqn:Eu.
    + destruct (HP u (view w u)) as (_ & Ho & _); [done|]. by eapply owes_governed.
    + by apply unaimed_governed.
  - intros v. by eapply wp_ok.
  - intros i j E. by rewrite lookup_empty in E.
  - intros i i' j j' E. by rewrite lookup_empty in E.
  - intros P [= <-]. done.
Qed.

Lemma sysOk_step l y y' :
  sane p → sysOk y → orderly p l y → mstep hash redacted errText reporting p l y y' → sysOk y'.
Proof.
  intros Hp Hok Ho Hs. destruct Hs.
  - by apply sysOk_begin.
  - eapply sysOk_call; [done..|]. exact Ho.
  - by apply sysOk_end.
  - eapply sysOk_drift; [done|apply Hok|]. intros v. by apply drift_host.
  - destruct (client_quiet _ H) as [Hq Hr].
    eapply sysOk_drift; [done| |by intros; eapply drift_client].
    eapply storeOk_step; [done|apply Hok|by apply quiet_governed|done].
  - by eapply sysOk_restart.
  - by eapply sysOk_boot.
  - destruct Hok as [Hst Hv Hj Ha Hb]. by split.
Qed.

Lemma sysOk_fresh inst : sysOk (fresh inst).
Proof.
  split; cbn [fresh world jobs boot]; [apply storeOk_empty|done|..|done];
    intros i **; by rewrite lookup_empty in *.
Qed.

Lemma sysOk_runs inst y :
  sane p → mruns hash redacted errText reporting p (orderly p) (fresh inst) y → sysOk y.
Proof.
  intros Hp H. remember (fresh inst) as y0 eqn:E. induction H; subst; [apply sysOk_fresh|].
  eapply sysOk_step; eauto.
Qed.

End host.

End ManagerHost.
