(* ===== verification/ManagerRuns.v ===== *)
(** Executions of the manager's system: an interpreter for concrete schedules, the
    guarantees of orderly executions, and two schedules that break them. *)

From S2P Require Import Prelude Events Store RunStore VmStore StoreRules Registry History Admission.
From S2P Require Import Manager ManagerSystem ManagerView ManagerSafe ManagerOps ManagerHost.
Import Events Sql Store Log Runs Vms Rules Registry History Admission Manager ManagerSystem ManagerView ManagerSafe ManagerOps ManagerHost.

Local Open Scope Z_scope.

Module ManagerRuns.

(** * Schedules *)

(** A runtime that does what it is asked, or one that can prove no stop. *)
Inductive Mode := Works | Resists.

Definition rtAnswer (m : Mode) (c : Call) (h : HostVM) : option (Ans c * HostVM) :=
  match c with
  | RLaunch _ => Some (Ok None, mkHostVM true false true)
  | RPause _ | RResume _ => Some (None, h)
  | RStop _ => match m with
    | Works => Some ((false, None), mkHostVM false false (held h))
    | Resists => Some ((false, Some (ErrStopNotProven "still there")), h)
    end
  | RForceStop _ => match m with
    | Works => Some (None, mkHostVM false false (held h))
    | Resists => Some (Some (ErrStopNotProven "still there"), h)
    end
  | RRelease _ => if busy h then None else Some (None, clean)
  | _ => None
  end.

Definition procAnswer (c : Call) : option (Ans c) :=
  match c with
  | RAvailability => Some None
  | CContext | CClaim _ | CGo _ | CBeginDelete _ | CSlot => Some true
  | CUUID => Some "boot"
  | CReport _ => Some tt
  | _ => None
  end.

(** One step of a schedule; a job is known by its number. *)
Inductive Act :=
  | ABegin (i : nat) (k : Kind)
  | ACall (i : nat) (m : Mode)
  | AEnd (i : nat)
  | ARestart (f : Findings) (inst : string)
  | ABoot (m : Mode)
  | AUp.

(** The system, with the VMs the host was ever asked about. *)
Record Sim := mkSim { sSys : Sys; sTouched : list string }.

Section sim.
Context (hash : Envelope → string) (redacted : string → string) (errText : StoreErr → string)
  (reporting : bool) (p : Policy) (e : Env).

Definition callRun (m : Mode) (c : Call) (x : World) : option (Ans c * World) :=
  match storeCall hash redacted e c (st x) with
  | Some (r, s') => if readyb 4 e (st x) then Some (r, mkWorld s' (host x)) else None
  | None =>
    match rtOf c with
    | Some vm =>
      '(r, h') ← rtAnswer m c (host x vm);
      Some (r, mkWorld (st x) (λ u, if decide (u = vm) then h' else host x u))
    | None => r ← procAnswer c; Some (r, x)
    end
  end.

Definition touch (c : Call) (l : list string) : list string :=
  match rtOf c with Some vm => vm :: l | None => l end.

Definition actRun (a : Act) (z : Sim) : option Sim :=
  let '(mkSim (mkSys w js b) l) := z in
  match a with
  | ABegin i k =>
    match b, js !! i with
    | None, None =>
      if bool_decide (map_Forall (λ _ j, is_Some (target k) → target (jKind j) = target k →
           isRetry k = false ∧ isRetry (jKind j) = false) js)
      then Some (mkSim (mkSys w (<[i := mkJob k (program errText reporting p k)]> js) None) l)
      else None
    | _, _ => None
    end
  | ACall i m =>
    match js !! i with
    | Some (mkJob k (Do c cont)) =>
      '(r, w') ← callRun m c w;
      Some (mkSim (mkSys w' (<[i := mkJob k (cont r)]> js) b) (touch c l))
    | _ => None
    end
  | AEnd i =>
    match js !! i with
    | Some (mkJob k (Ret tt)) => Some (mkSim (mkSys w (base.delete i js) b) l)
    | _ => None
    end
  | ARestart f inst =>
    if readyb 4 e (st w) && legalb (OReopen inst) (st w)
    then Some (mkSim (mkSys (mkWorld (exec hash e (OReopen inst) (st w)) (host w)) ∅
                 (Some (Reconcile reporting f))) l)
    else None
  | ABoot m =>
    match b with
    | Some (Do c cont) =>
      '(r, w') ← callRun m c w; Some (mkSim (mkSys w' js (Some (cont r))) (touch c l))
    | _ => None
    end
  | AUp => match b with Some (Ret true) => Some (mkSim (mkSys w js None) l) | _ => None end
  end.

(** What makes a step of a schedule an orderly one; the requests' policy apart. *)
Definition inOrder (a : Act) (z : Sim) : bool :=
  match a with
  | ABegin _ k =>
    bool_decide (map_Forall (λ _ j, target (jKind j) ≠ target k ∨ target k = None)
      (jobs (sSys z))) &&
    match k with
    | KCreate rh mc owner vm req =>
        match planCreate rh mc owner vm req with
        | Ok inp => (iMemoryMiB inp + ReservePerVMHostOverheadMiB (pAdmission p) <? room) &&
            (iRootDiskMiB inp + iWorkspaceDiskMiB inp <? room)
        | Err _ => true
        end
    | KNotify vm _ _ _ => negb (busy (host (world (sSys z)) vm))
    | _ => true
    end
  | ACall _ m | ABoot m => match m with Works => true | Resists => false end
  | ARestart f _ => forallb (λ vm, negb (busy (host (world (sSys z)) vm)) ||
      bool_decide (vm ∈ adopted f ∨ is_Some (ambiguous f !! vm))) (sTouched z)
  | _ => true
  end.

Definition underPolicy (a : Act) : Prop :=
  match a with ABegin _ (KCreate _ mc _ _ _) => mcPolicy mc = p | _ => True end.

Fixpoint inOrders (l : list Act) (z : Sim) : bool :=
  match l with
  | [] => true
  | a :: l => inOrder a z && match actRun a z with Some z' => inOrders l z' | None => true end
  end.

Fixpoint actsRun (l : list Act) (z : Sim) : option Sim :=
  match l with [] => Some z | a :: l => z' ← actRun a z; actsRun l z' end.

(** ** The interpreter runs the system *)

Definition tracked (z : Sim) : Prop :=
  ∀ u, u ∉ sTouched z → host (world (sSys z)) u = clean.

Lemma rtAnswer_ok m c h r h' : rtAnswer m c h = Some (r, h') → hostCall c h r h'.
Proof.
  destruct c; cbn; try done; intros H; try (injection H as <- <-; by cbn).
  - destruct m; injection H as <- <-; cbn; [by split; auto|by unfold stopped; cbn].
  - destruct m; injection H as <- <-; cbn; [by split; auto|by unfold stopped; cbn].
  - destruct (busy h); [done|]. injection H as <- <-. by split.
Qed.

Lemma callRun_ok m c x r x' : callRun m c x = Some (r, x') → callStep hash redacted c x r x'.
Proof.
  unfold callRun. destruct (storeCall _ _ _ _ _) as [[r0 s']|] eqn:Es.
  - destruct (readyb 4 e (st x)) eqn:Er; [|done]. intros [= <- <-].
    eapply call_store; [by apply readyb_spec|done].
  - destruct (rtOf c) as [vm|] eqn:Ec.
    + destruct (rtAnswer m c (host x vm)) as [[r0 h']|] eqn:Ea; [|done]. intros [= <- <-].
      eapply call_host; [done|by eapply rtAnswer_ok].
    + destruct (procAnswer c) eqn:Ep; [|done]. intros [= <- <-]. apply call_proc.
      by destruct c.
Qed.

Lemma callRun_tracked m c x r x' js b js' b' l :
  callRun m c x = Some (r, x') → tracked (mkSim (mkSys x js b) l) →
  tracked (mkSim (mkSys x' js' b') (touch c l)).
Proof.
  unfold callRun, touch, tracked. cbn [sSys sTouched world].
  destruct (storeCall _ _ _ _ _) as [[r0 s']|] eqn:Es.
  - destruct (readyb 4 e (st x)); [|done]. intros [= <- <-] Ht u Hu. apply Ht.
    destruct (rtOf c); [|done]. by apply not_elem_of_cons in Hu as [_ ?].
  - destruct (rtOf c) as [vm|].
    + destruct (rtAnswer m c (host x vm)) as [[r0 h']|]; [|done]. intros [= <- <-] Ht u Hu. cbn.
      apply not_elem_of_cons in Hu as [??]. rewrite decide_False by done. auto.
    + destruct (procAnswer c); [|done]. intros [= <- <-] Ht. exact Ht.
Qed.

Lemma works_job k c r x x' : callRun Works c x = Some (r, x') → mayJob k c r.
Proof.
  destruct k; try done. destruct c; try done. unfold callRun. cbn. by intros [= <- _].
Qed.

Lemma works_boot c r x x' : callRun Works c x = Some (r, x') → mayBoot c r.
Proof.
  destruct c; try done; unfold callRun; cbn; [by intros [= <- _]|].
  destruct (busy _); [done|]. by intros [= <- _].
Qed.

Lemma actRun_ok a z z' :
  actRun a z = Some z' → tracked z →
  ∃ l, mstep hash redacted errText reporting p l (sSys z) (sSys z') ∧ tracked z' ∧
    (underPolicy a → inOrder a z = true → orderly p l (sSys z)).
Proof.
  destruct z as [[w js b] l]. destruct a as [i k|i m|i|f inst|m|]; cbn [actRun]; intros H Ht.
  - destruct b, (js !! i) eqn:Ei; try done. case_bool_decide as Hc; [|done]. injection H as <-.
    exists (LBegin k). split_and!; [|done|].
    + constructor; [done|]. intros i' j Hj. by apply (Hc i').
    + cbn. intros Hu [Ho%bool_decide_eq_true Hk]%andb_true_iff. split.
      * intros i' j Hj Hs E. destruct (Ho i' j Hj) as [?|En]; [done|]. rewrite En in Hs. by destruct Hs.
      * destruct k; try done; [|by apply negb_true_iff in Hk]. split; [done|]. intros inp Hp.
        rewrite Hp in Hk. by apply andb_true_iff in Hk as [?%Z.ltb_lt ?%Z.ltb_lt].
  - destruct (js !! i) as [[k [|c cont]]|] eqn:Ei; try done.
    destruct (callRun m c w) as [[r w']|] eqn:Ec; [|done]. injection H as <-.
    exists (LCall k c r). split_and!.
    + econstructor; [done|by eapply callRun_ok].
    + by eapply callRun_tracked.
    + cbn. intros _ Hm. destruct m; [|done]. exact (works_job _ _ _ _ _ Ec).
  - destruct (js !! i) as [[k [[]|c cont]]|] eqn:Ei; try done. injection H as <-.
    exists (LEnd k). split_and!; [by constructor|done|done].
  - destruct (readyb 4 e (st w)) eqn:Er, (legalb (OReopen inst) (st w)) eqn:El; try done.
    injection H as <-. exists (LRestart f). split_and!; [|done|].
    + eapply (m_restart _ _ _ _ _ _ inst).
      apply (step_op hash e (OReopen inst)); [by apply readyb_spec|by apply legalb_spec].
    + cbn. intros _ Hf vm Hb. destruct (decide (vm ∈ l)) as [Hin|Hin].
      * rewrite forallb_forall in Hf. apply list_elem_of_In, Hf, orb_true_iff in Hin as [Hn|Hin].
        -- by rewrite Hb in Hn.
        -- by apply bool_decide_eq_true in Hin.
      * specialize (Ht vm Hin). cbn in Ht. by rewrite Ht in Hb.
  - destruct b as [[|c cont]|]; try done. destruct (callRun m c w) as [[r w']|] eqn:Ec; [|done].
    injection H as <-. exists (LBoot c r). split_and!.
    + constructor. by eapply callRun_ok.
    + by eapply callRun_tracked.
    + cbn. intros _ Hm. destruct m; [|done]. exact (works_boot _ _ _ _ Ec).
  - destruct b as [[[]|]|]; try done. injection H as <-.
    exists LUp. split_and!; [by constructor|done|done].
Qed.

Lemma mruns_trans allowed y1 y2 y3 :
  mruns hash redacted errText reporting p allowed y1 y2 →
  mruns hash redacted errText reporting p allowed y2 y3 →
  mruns hash redacted errText reporting p allowed y1 y3.
Proof.
  intros H1 H2. induction H2 as [|y y2 y4 lb _ IH Ha Hs]; [done|].
  exact (mruns_snoc _ _ _ _ _ _ _ _ _ lb (IH H1) Ha Hs).
Qed.

Lemma actsRun_ok l z z' :
  actsRun l z = Some z' → tracked z →
  mruns hash redacted errText reporting p (λ _ _, True) (sSys z) (sSys z') ∧
  (Forall underPolicy l → inOrders l z = true → mruns hash redacted errText reporting p (orderly p) (sSys z) (sSys z')).
Proof.
  revert z. induction l as [|a l IH]; intros z H Ht.
  - injection H as <-. split; constructor.
  - cbn in H. destruct (actRun a z) as [z1|] eqn:H1; [|done]. rename H into H2. cbn in H2.
    destruct (actRun_ok _ _ _ H1 Ht) as (lb & Hs & Ht1 & Ho). destruct (IH _ H2 Ht1) as [I1 I2].
    split.
    + eapply mruns_trans; [|exact I1]. eapply mruns_snoc; [constructor|done|done].
    + cbn. rewrite H1. intros [U1 U2]%Forall_cons [O1 O2]%andb_true_iff.
      eapply mruns_trans; [|by apply I2].
      eapply mruns_snoc; [constructor|by apply Ho|done].
Qed.

Lemma fresh_tracked inst : tracked (mkSim (fresh inst) []).
Proof. done. Qed.

End sim.

(** * What orderly executions guarantee *)

Lemma sumZ_submseteq {A} (f : A → Z) l l' :
  (∀ x, x ∈ l' → 0 ≤ f x) → l ⊆+ l' → sumZ f l ≤ sumZ f l'.
Proof.
  intros Hf [k Hp]%submseteq_Permutation.
  assert (Hs : ∀ a b, a ≡ₚ b → sumZ f a = sumZ f b).
  { intros a b. induction 1; rewrite ?sumZ_cons; lia. }
  rewrite (Hs _ _ Hp), sumZ_app.
  assert (0 ≤ sumZ f k); [|lia]. apply sumZ_nonneg. intros x Hx. apply Hf.
  rewrite Hp. apply elem_of_app. by right.
Qed.

(** The memory set aside for a VM. *)
Definition reservedMem (d : DB) (vm : string) : Z :=
  from_option rMemoryTotalMiB 0 (select1 (byReservation vm) (reservations d)).

(** Distinct VMs with unreleased reservations share the held memory. *)
Lemma reservedMem_held d l :
  NoDup l → NoDup (rVMID <$> reservations d) →
  (∀ r, r ∈ reservations d → 0 ≤ rMemoryTotalMiB r) →
  (∀ vm, vm ∈ l → ∃ r, select1 (byReservation vm) (reservations d) = Some r ∧
     rReleased r = false ∧ rComputeReleased r = false) →
  sumZ (reservedMem d) l ≤ memHeld d.
Proof.
  intros Hl Hd Hn Hr. set (rs := omap (λ vm, select1 (byReservation vm) (reservations d)) l).
  assert (Hrs : sumZ (reservedMem d) l = sumZ (Admission.held rMemoryTotalMiB) rs).
  { subst rs. clear Hl. induction l as [|vm l IH]; [done|].
    destruct (Hr vm) as (r & E & E1 & E2); [by left|]. csimpl. rewrite E, !sumZ_cons, IH.
    - unfold reservedMem, Admission.held. by rewrite E, E1, E2.
    - intros u Hu. apply Hr. by right. }
  rewrite Hrs. apply sumZ_submseteq.
  - intros r Hin. unfold Admission.held. specialize (Hn r Hin). repeat case_match; lia.
  - apply NoDup_submseteq.
    + subst rs. clear Hr Hrs. induction Hl as [|vm l Hvm Hl IH]; [constructor|]. csimpl.
      destruct (select1 _ _) as [r|] eqn:E; [|done]. constructor; [|done].
      intros (u & Hu & Eu)%list_elem_of_omap. apply select1_Some in E as [_ E%String.eqb_eq].
      apply select1_Some in Eu as [_ Eu%String.eqb_eq]. congruence.
    + intros r (u & _ & Eu)%list_elem_of_omap. by apply select1_Some in Eu as [? _].
Qed.

(** The row of a VM, if there is one, is in a state. *)
Definition rowReads (d : DB) (vm state : string) : Prop :=
  ∀ v, select1 (byVMID vm) (rows (vms d)) = Some v → vObservedState v = state.

Section guarantees.
Context (hash : Envelope → string) (redacted : string → string) (errText : StoreErr → string)
  (reporting : bool) (p : Policy).

(** Whatever runs, or may still start to run, has compute set aside for it. *)
Lemma sysOk_paid y vm :
  sysOk hash p y → busy (host (world y) vm) = true →
  ∃ v r, select1 (byVMID vm) (rows (vms (db (st (world y))))) = Some v ∧
    select1 (byReservation vm) (reservations (db (st (world y)))) = Some r ∧
    rReleased r = false ∧ rComputeReleased r = false ∧
    vObservedState v ∉ ["provisioning"; "deleted"].
Proof.
  intros Hok Hb. pose proof (so_vms _ _ _ Hok vm) as Hv. unfold vmOk, view, rowOf in Hv. cbn in Hv.
  destruct (select1 (byVMID vm) _) as [v|] eqn:Ev; [|by destruct Hv as [Hv _]; rewrite Hv in Hb].
  destruct (select1 (byReservation vm) _) as [r|] eqn:Er; cbn in Hv;
    [|by destruct Hv as [Hv _]; rewrite Hv in Hb].
  destruct Hv as [H1 H2 _ H4]. cbn in *. destruct (H1 Hb) as [E1 E2]. exists v, r.
  split_and!; [done..|]. rewrite !elem_of_cons, elem_of_nil.
  intros [E|[E|[]]]; [destruct (H2 E)|destruct (H4 E)]; congruence.
Qed.

(** C2: the host is never oversubscribed. In every orderly execution of the manager
    from an empty store -- any number of creates, actions, deletes, exit notices,
    cleanup retries and run conclusions, interleaved call by call across VMs, with
    runtime failures, late launches, VMM exits and daemon restarts at any point --
    each VM whose VMM runs, or whose launch is still at work, has a row and a
    reservation that has released nothing; and without memory overcommit, the
    memory set aside for any set of such VMs fits the host's usable memory. *)
Theorem host_never_oversubscribed inst y :
  sane p → mruns hash redacted errText reporting p (orderly p) (fresh inst) y →
  (∀ vm, busy (host (world y) vm) = true →
     ∃ v r, select1 (byVMID vm) (rows (vms (db (st (world y))))) = Some v ∧
       select1 (byReservation vm) (reservations (db (st (world y)))) = Some r ∧
       rReleased r = false ∧ rComputeReleased r = false ∧
       vObservedState v ∉ ["provisioning"; "deleted"]) ∧
  (AllowMemoryOvercommit (pAdmission p) = false →
   ∀ l, NoDup l → (∀ vm, vm ∈ l → busy (host (world y) vm) = true) →
     sumZ (reservedMem (db (st (world y)))) l ≤ UsableMemoryMiB p).
Proof.
  intros Hp Hr. pose proof (sysOk_runs _ _ _ _ _ _ _ Hp Hr) as Hok.
  split; [intros vm; by apply sysOk_paid|]. intros Ho l Hnd Hl.
  destruct (ok_within _ _ _ (so_store _ _ _ Hok)) as [W1 W2 W3 _ _].
  etrans; [|by apply W3]. apply reservedMem_held; [done|done| |].
  - intros r [? _]%W2. lia.
  - intros vm (v & r & _ & Er & E1 & E2 & _)%Hl%(sysOk_paid _ _ Hok). by exists r.
Qed.

(** C3: a deleted VM is gone. In every orderly execution, a VM whose row reads
    deleted, or that has no row, has no VMM, no launch at work, and no network,
    jail, state or stage directory left on the host. *)
Theorem deleted_is_gone inst y vm :
  sane p → mruns hash redacted errText reporting p (orderly p) (fresh inst) y →
  rowReads (db (st (world y))) vm "deleted" → host (world y) vm = clean.
Proof.
  intros Hp Hr Hd. pose proof (sysOk_runs _ _ _ _ _ _ _ Hp Hr) as Hok.
  assert (Hc : busy (host (world y) vm) = false ∧ held (host (world y) vm) = false).
  { pose proof (so_vms _ _ _ Hok vm) as Hv. unfold vmOk, view in Hv. cbn in Hv.
    destruct (select1 (byVMID vm) (rows (vms (db (st (world y)))))) as [v|] eqn:Ev.
    - destruct (keyed_row _ _ _ (ok_keyed _ _ _ (so_store _ _ _ Hok)) Ev) as (r & _ & Er).
      rewrite Er in Hv. by apply (ro_deleted _ _ Hv), Hd.
    - unfold rowOf in Hv. rewrite Ev in Hv. exact Hv. }
  destruct (host (world y) vm) as [[] [] []]; by destruct Hc.
Qed.

End guarantees.

(** * Schedules of two VMs on a host with room for one *)

Definition exText (_ : StoreErr) : string := "store".
Definition exNewVM (vm : string) : ManagerSystem.Kind :=
  KCreate (λ _ _ _ _ _ _, "h") exManager "alice" vm exRequest.
Definition exSim : Sim := mkSim (fresh exInst) [].
Definition exActs (l : list Act) : option Sim :=
  actsRun exHash id exText false exPolicy (exEnv "") l exSim.

(** A whole operation of [n] calls. *)
Definition whole (i : nat) (k : ManagerSystem.Kind) (n : nat) : list Act :=
  ABegin i k :: replicate n (ACall i Works) ++ [AEnd i].

(** The first VM runs and is stopped; the second takes its place; the first cannot
    start again; the daemon restarts and adopts the second; the first is deleted. *)
Definition exTurns : list Act :=
  whole 0 (exNewVM exVM) 11 ++ whole 1 (KAction exVM "stop" None) 7 ++
  whole 2 (exNewVM exVM2) 11 ++ whole 3 (KAction exVM "start" None) 7 ++
  [ARestart (mkFindings {[exVM2]} ∅) exInst2] ++ replicate 4 (ABoot Works) ++ [AUp] ++
  whole 4 (KDelete exVM false None) 6.

Lemma exPolicy_sane : sane exPolicy.
Proof. split; [vm_compute; reflexivity|split; vm_compute; [reflexivity|discriminate]]. Qed.

Definition exAfter (l : list Act) : Sys :=
  match exActs l with Some z => sSys z | None => fresh exInst end.
Definition exTurned : Sys := exAfter exTurns.

Lemma exTurned_runs :
  mruns exHash id exText false exPolicy (orderly exPolicy) (fresh exInst) exTurned.
Proof.
  unfold exTurned, exAfter, exActs. destruct (actsRun _ _ _ _ _ _ _ _) as [z|] eqn:E; [|constructor].
  apply (proj2 (actsRun_ok _ _ _ _ _ _ _ _ _ E (fresh_tracked exInst))).
  - repeat constructor.
  - vm_compute. reflexivity.
Qed.

Lemma host_never_oversubscribed_witness :
  UsableMemoryMiB exPolicy = 7117 ∧
  (vObservedState <$> rows (vms (db (st (world exTurned))))) = ["deleted"; "running"] ∧
  alive (host (world exTurned) exVM2) = true ∧
  sumZ (reservedMem (db (st (world exTurned)))) [exVM2] = 4224 ∧
  sumZ (reservedMem (db (st (world exTurned)))) [exVM2] ≤ UsableMemoryMiB exPolicy.
Proof.
  split; [vm_compute; reflexivity|]. split; [vm_compute; reflexivity|].
  split; [vm_compute; reflexivity|]. split; [vm_compute; reflexivity|].
  apply (proj2 (host_never_oversubscribed exHash id exText false exPolicy exInst exTurned
    exPolicy_sane exTurned_runs) eq_refl).
  - apply NoDup_singleton.
  - intros vm ->%list_elem_of_singleton. vm_compute. reflexivity.
Defined.

Lemma deleted_is_gone_witness : host (world exTurned) exVM = clean.
Proof.
  apply (deleted_is_gone exHash id exText false exPolicy exInst exTurned exVM
    exPolicy_sane exTurned_runs).
  intros v Hv. assert (E : (vObservedState <$>
    select1 (byVMID exVM) (rows (vms (db (st (world exTurned)))))) = Some "deleted")
    by (vm_compute; reflexivity). rewrite Hv in E. by injection E.
Defined.

(** * What goes wrong out of order *)

(** A forced delete between a launch's move to starting and its runtime call. *)
Definition exRace : list Act :=
  [ABegin 0 (exNewVM exVM)] ++ replicate 7 (ACall 0 Works) ++
  whole 1 (KDelete exVM true None) 9 ++ replicate 2 (ACall 0 Works) ++ [AEnd 0].

(** A run's on-completion stop that neither stop can prove. *)
Definition exUnproven : list Act :=
  whole 0 (exNewVM exVM) 11 ++ [ABegin 1 (KAfterRun exVM)] ++ replicate 5 (ACall 1 Resists) ++
  [AEnd 1].

Lemma exAfter_runs l :
  mruns exHash id exText false exPolicy (λ _ _, True) (fresh exInst) (exAfter l).
Proof.
  unfold exAfter. destruct (exActs l) as [z|] eqn:E; [|constructor].
  exact (proj1 (actsRun_ok _ _ _ _ _ _ _ _ _ E (fresh_tracked exInst))).
Qed.

(** operations on one VM must come one after the other: a forced delete that runs
    while a launch is about to call the runtime finds nothing to stop, answers
    success, and the launch then leaves a VMM running for a VM that reads deleted
    and whose reservation is gone. *)
Theorem delete_races_launch :
  ∃ y, mruns exHash id exText false exPolicy (λ _ _, True) (fresh exInst) y ∧ jobs y = ∅ ∧
    (vObservedState <$> rows (vms (db (st (world y))))) = ["deleted"] ∧
    (rReleased <$> reservations (db (st (world y)))) = [true] ∧
    alive (host (world y) exVM) = true.
Proof.
  exists (exAfter exRace). split; [apply exAfter_runs|]. split_and!; vm_compute; reflexivity.
Qed.

(** An on-completion stop settles the row and gives the compute back although both
    stops answered that the VMM was not observed gone. *)
Theorem unproven_stop_releases_compute :
  ∃ y, mruns exHash id exText false exPolicy (λ _ _, True) (fresh exInst) y ∧ jobs y = ∅ ∧
    (vObservedState <$> rows (vms (db (st (world y))))) = ["stopped"] ∧
    (rComputeReleased <$> reservations (db (st (world y)))) = [true] ∧
    alive (host (world y) exVM) = true.
Proof.
  exists (exAfter exUnproven). split; [apply exAfter_runs|]. split_and!; vm_compute; reflexivity.
Qed.

End ManagerRuns.
