(* ===== verification/SituationView.v ===== *)
(** What the situation engine tells: telemetry health from the newest heartbeat
    (internal/situation/telemetry_health.go) and the snapshot (engine.go). *)

From S2P Require Import Prelude Events Store RunStore VmStore StoreRules Registry History.
From S2P Require Import EventQuery AttentionStore AttentionRules AttentionRuns Situation.
From S2P Require Import Admission Manager ManagerSystem ImportHealth.
Import Events Sql Store Log Runs Vms Rules Registry History EventQuery Attention AttentionRules.
Import AttentionRuns Situation Manager ManagerSystem ImportHealth.

Local Open Scope Z_scope.

Module SituationView.

Definition TelemetryStarting : string := "starting".
Definition TelemetryHealthy : string := "healthy".
Definition TelemetryDegraded : string := "degraded".
Definition TelemetryUnavailable : string := "unavailable".
Definition HeartbeatKind : string := "guest.sensor_health".

Definition minHeartbeatInterval : Z := 1 * Second.
Definition maxHeartbeatInterval : Z := 5 * Minute.
Definition stalenessIntervals : Z := 3.

Record TelemetryHealth := mkTelemetryHealth {
  tState : string;
  tLastHeartbeatAt : string;
  tSensorsDegraded : Z
}.

Definition heartbeatInterval (data : object) : Z :=
  match field data "agent" with
  | Some (JObj agent) =>
    match field agent "heartbeat_interval_ns" with
    | Some (JStr raw) =>
      match Strconv.ParseInt raw with
      | Some ns => if ns <=? 0 then maxHeartbeatInterval
                   else Z.min (Z.max ns minHeartbeatInterval) maxHeartbeatInterval
      | None => maxHeartbeatInterval
      end
    | _ => maxHeartbeatInterval
    end
  | _ => maxHeartbeatInterval
  end.

Definition unwell (j : json) : bool :=
  match j with
  | JObj entry =>
    match field entry "state" with
    | Some (JStr s) => (s =? "degraded")%string || (s =? "unavailable")%string
    | _ => false
    end
  | _ => false
  end.

Definition countUnwellSensors (data : object) : Z :=
  match field data "sensors" with
  | Some (JArr l) => Z.of_nat (length (List.filter unwell l))
  | _ => 0
  end.

Record Snapshot := mkSnapshot {
  AsOfCursor : string;
  SinceCursor : string;
  Quiet : bool;
  VMsRunning : Z;
  VMsTotal : Z;
  SnapActiveClasses : list string;
  SensorsDegraded : Z;
  AttentionOpen : Z;
  Head : list AttentionItem
}.

Definition headLimit : nat := 10.

Inductive SnapErr := SinceInvalid (since : string) | SQuery (e : QueryErr) | SLatest | SStore.

Section view.
(** A time in the wire form; the text SQLite gives a JSON container; [fmt]'s [%q]. *)
Context (format : Z → string) (text : json → string) (quote : string → string).

Definition deriveTelemetryHealth (hb : option Envelope) (now : Z) : TelemetryHealth :=
  match hb with
  | None => mkTelemetryHealth TelemetryUnavailable "" 0
  | Some hb =>
    let data := dataOf hb in
    let n := countUnwellSensors data in
    let stale := Int.i64 (stalenessIntervals * heartbeatInterval data) <?
                 GoTime.Sub now (HostReceivedAt hb) in
    mkTelemetryHealth (if stale || (0 <? n) then TelemetryDegraded else TelemetryHealthy)
      (format (HostReceivedAt hb)) n
  end.

Definition ImporterStatus (importer : option Importer) (vmID : string) : ImportStatus :=
  match importer with Some imp => Status vmID imp | None => UnobservedStatus vmID end.

(** The deferred override: an import that fails, or a writer that refuses. *)
Definition overridden (importer : option Importer) (vmID : string) (h : TelemetryHealth)
    : TelemetryHealth :=
  let vmImport := ImporterStatus importer vmID in
  let writerFailing := match sWriter vmImport with
                       | Some w => (wState w =? "failing")%string
                       | None => false
                       end in
  if (sState vmImport =? "degraded")%string || writerFailing ||
     (sState (ImporterStatus importer "") =? "degraded")%string
  then mkTelemetryHealth TelemetryDegraded (tLastHeartbeatAt h) (tSensorsDegraded h)
  else h.

Definition VMTelemetryHealth (importer : option Importer) (now : Z) (vm : VM) (d : DB)
    : TelemetryHealth :=
  overridden importer (vVMID vm)
    (if existsb (String.eqb (vObservedState vm)) ["provisioning"; "starting"]
     then mkTelemetryHealth TelemetryStarting "" 0
     else if negb (vObservedState vm =? "running")%string
     then mkTelemetryHealth TelemetryUnavailable "" 0
     else if (vCurrentBootID vm =? "")%string
     then mkTelemetryHealth TelemetryUnavailable "" 0
     else deriveTelemetryHealth (LatestForBoot (vVMID vm) (vCurrentBootID vm) HeartbeatKind d) now).

Definition runningQuery (after : Z) : VMQuery :=
  Manager.mkQuery after MaxPageLimit ["running"] "" false.

(** The loop over the pages of running VMs. [None]: out of fuel. *)
Fixpoint sumPages (importer : option Importer) (now : VM → Z) (s : Store) (fuel : nat)
    (after total : Z) : option (option Z) :=
  match fuel with
  | O => None
  | S fuel =>
    match (ListVMs (runningQuery after) s).1 with
    | Err _ => Some None
    | Ok [] => Some (Some total)
    | Ok (v :: vs) =>
      sumPages importer now s fuel (vRowID (default v (last (v :: vs))))
        (foldl (λ t vm, t + tSensorsDegraded (VMTelemetryHealth importer (now vm) vm (db s)))
           total (v :: vs))
    end
  end.

Definition sensorsDegraded (importer : option Importer) (now : VM → Z) (s : Store) : option (option Z) :=
  sumPages importer now s (S (length (rows (vms (db s))))) 0 0.

(** [since], or [-1]. *)
Definition sinceID (since : string) : result SnapErr Z :=
  if (since =? "")%string then Ok (-1)
  else if negb (DecimalString since) then Err (SinceInvalid since)
  else match Strconv.ParseInt since with Some v => Ok v | None => Err (SinceInvalid since) end.

Definition latestOf (r : QueryResult) : option Z :=
  if (LatestEventID r =? "")%string then Some 0 else Strconv.ParseInt (LatestEventID r).

Definition probe : Query := EventQuery.mkQuery None "" "" "" "" 1 false.

(** [None]: the fold over the VMs has not ended. *)
Definition Snapshot_ (cfg : Config) (importer : option Importer) (now : VM → Z) (since : string)
    (s : AStore_) : option (result SnapErr Snapshot) :=
  match sinceID since with
  | Err e => Some (Err e)
  | Ok sid =>
    match Query_ text probe (db (abase s)) with
    | Err e => Some (Err (SQuery e))
    | Ok r =>
      match latestOf r with
      | None => Some (Err SLatest)
      | Some latest =>
        let open := CountOpenAttention s in
        let head := OpenAttentionHead headLimit s in
        match sensorsDegraded importer now (abase s) with
        | None => None
        | Some None => Some (Err SStore)
        | Some (Some degraded) =>
          Some (Ok (mkSnapshot (Strconv.FormatInt latest) since
            ((open =? 0) && ((sid <? 0) || (latest <=? sid))) 0 0
            (ActiveClasses quote cfg) degraded open head))
        end
      end
    end
  end.

End view.

(** * The order of the VM table *)

Definition rowIDs (d : DB) : list Z := vRowID <$> rows (vms d).

Record rowsOk (d : DB) : Prop := mkRowsOk {
  ro_sorted : StronglySorted Z.lt (rowIDs d);
  ro_range : ∀ v, v ∈ rows (vms d) → 1 ≤ vRowID v ≤ seq (vms d);
  ro_seq : 0 ≤ seq (vms d)
}.

Definition sameIDs (d d' : DB) : Prop := rowIDs d' = rowIDs d ∧ seq (vms d') = seq (vms d).

#[local] Instance sameIDs_preorder : PreOrder sameIDs.
Proof. split; [done|]. intros d1 d2 d3 [H1 H2] [H3 H4]. split; congruence. Qed.
#[local] Instance sameIDs_blind : LogBlind sameIDs.
Proof. split; done. Qed.

Lemma sameIDs_ok d d' : sameIDs d d' → rowsOk d → rowsOk d'.
Proof.
  intros [H1 H2] [Hs Hr Hq]. split; [by rewrite H1| |by rewrite H2].
  intros v Hv. assert (Hin : vRowID v ∈ rowIDs d) by (rewrite <- H1; by apply list_elem_of_fmap_2).
  apply list_elem_of_fmap in Hin as (v' & -> & Hv'). rewrite H2. by apply Hr.
Qed.

Lemma rowIDs_update (f : VM → VM) p (d : DB) g :
  (∀ v, vRowID (f v) = vRowID v) → vms d = on_rows (update p f) g → vRowID <$> rows (vms d) = vRowID <$> rows g.
Proof. intros Hf ->. cbn. by apply fmap_update. Qed.

Lemma keepsIDs_bump vm id : keeps sameIDs (bumpVM vm id).
Proof. apply keeps_modify. intros d. split; [|done]. unfold rowIDs. cbn. by apply fmap_update. Qed.

Ltac keeps_ids :=
  repeat first [apply keepsIDs_bump|keeps_step|apply keeps_modify; done].

Section steps.
Context (hash : Envelope → string).

Lemma ids_quiet e o s : quietOp o = true → sameIDs (db s) (db (exec hash e o s)).
Proof.
  assert (Hk : ∀ A (m : M A), keeps sameIDs m → sameIDs (db s) (db (m s).2)).
  { intros A m Hm. destruct (m s) as [r s'] eqn:E. by apply Hm in E. }
  destruct o; intros Hq; try done; cbn [exec].
  - apply Hk. apply keeps_Append; apply _.
  - apply Hk. unfold UpdateOperation, scanOperationInTx. keeps_ids.
  - apply Hk. unfold InsertActionOperation, insertOperation. keeps_ids.
  - apply Hk. unfold CreateRun, lookupRunByIdempotencyKey, GetRun, insertRun, scanRunInTx. keeps_ids.
  - apply Hk. unfold TransitionRun, scanRunInTx. keeps_ids.
  - apply Hk. unfold SubmitRunProgress, GetRun. keeps_ids.
  - apply Hk. unfold SubmitRunResult, GetRun, scanRunInTx. keeps_ids.
  - apply Hk. unfold PutRunReport. keeps_ids.
  - apply Hk. unfold recordVMStatement. keeps_ids.
  - apply Hk. unfold recordBatchOp, insertOperation, scanOperationInTx. keeps_ids.
  - apply Hk. keeps_ids.
  - apply Hk. unfold InsertReportOperation, insertOperation. keeps_ids.
Qed.

(** A granted create appends the next row. *)
Lemma granted_ids e inp s :
  rowIDs (db (granted hash e inp s)) = rowIDs (db s) ++ [seq (vms (db s)) + 1] ∧
  seq (vms (db (granted hash e inp s))) = seq (vms (db s)) + 1.
Proof.
  split.
  - unfold rowIDs. destruct (vms_granted hash e inp s) as [id1 ->]. rewrite fmap_update by done.
    by rewrite fmap_app.
  - assert (Hg : seq (vms (db (on (grantedTables e inp) s))) = seq (vms (db s)) + 1) by done.
    assert (Hb : ∀ vm id s0, seq (vms (db (on (bumped vm id) s0))) = seq (vms (db s0))) by done.
    unfold granted. cbv zeta. destruct (iRun inp) as [a|].
    + rewrite vms_ranRun. cbn [on_rows seq]. by rewrite vms_emitted, Hb, vms_emitted.
    + by rewrite vms_emitted, Hb, vms_emitted.
Qed.

Lemma granted_ok e inp s : rowsOk (db s) → rowsOk (db (granted hash e inp s)).
Proof.
  intros [Hs Hr Hq]. destruct (granted_ids e inp s) as [E1 E2]. split.
  - rewrite E1. apply StronglySorted_snoc; [done|].
    intros x (v & -> & Hv)%list_elem_of_fmap. apply Hr in Hv. lia.
  - intros v Hv. assert (Hin : vRowID v ∈ rowIDs (db (granted hash e inp s)))
      by by apply list_elem_of_fmap_2.
    rewrite E1 in Hin. rewrite E2.
    apply elem_of_app in Hin as [(v' & -> & Hv')%list_elem_of_fmap| ->%list_elem_of_singleton];
      [apply Hr in Hv'|]; lia.
  - lia.
Qed.

Lemma step_rows s o s' : step hash s o s' → log_ok hash s → rowsOk (db s) → rowsOk (db s').
Proof.
  intros [e o' s0 Hr Hlg] Hl Hok. clear s s'.
  assert (Hsame : sameIDs (db s0) (db (exec hash e o' s0)) → rowsOk (db (exec hash e o' s0)))
    by (intros H; by eapply sameIDs_ok).
  destruct (quietOp o') eqn:Hq; [by apply Hsame, ids_quiet|].
  destruct o' as [|inp|inp| | | | | | | | | | | |inp| | | |]; try done; cbn [exec] in *.
  - destruct (CreateVMWithOperation hash e inp s0) as [[out|err] s'] eqn:E; cbn [snd] in *.
    2: { apply CreateVM_Err in E. apply Hsame. by rewrite E. }
    apply CreateVM_Ok in E as [[-> _]|(t & _ & [(r & _ & E)|(_ & E)])]; [by apply Hsame|..|done|done].
    + apply createRefused_Ok in E as (op & _ & -> & _);
        [|done|by eapply ready_le; [|exact Hr]].
      apply Hsame. unfold refused, sameIDs, rowIDs. cbv zeta. by rewrite vms_emitted.
    + apply createGranted_Ok in E as (v & op & _ & -> & _ & _ & Hn & _); [|done..]. by apply granted_ok.
  - rewrite TransitionVM_eq in * by (done || by eapply ready_le; [|exact Hr]).
    destruct (transitionCheck inp (db s0)) as [cur|err] eqn:Hc; cbn [snd] in *; [|by apply Hsame].
    apply Hsame. unfold sameIDs, rowIDs. rewrite vms_moved. unfold on_rows. cbn [rows seq].
    split; [|done]. by rewrite !fmap_update.
  - destruct (member_store hash e inp s0) as [E|(out & E)]; [apply Hsame; by rewrite E|].
    apply createGranted_Ok in E as (v & op & _ & E & _ & _ & Hn & _); [|done..].
    rewrite E in *. by apply granted_ok.
Qed.

Lemma steps_rows s os s' :
  steps hash s os s' → log_ok hash s → rowsOk (db s) → rowsOk (db s').
Proof.
  induction 1 as [|s o s1 os s2 Hs _ IH]; [done|]. intros Hl Hr.
  apply IH; [by eapply step_log|by eapply step_rows].
Qed.

End steps.

(** * The fold over the pages *)

Definition running (v : VM) : bool := (vObservedState v =? "running")%string.

(** The running VMs behind a row id. *)
Definition runningAfter (a : Z) (d : DB) : list VM :=
  select (λ v, (a <? vRowID v) && running v) (rows (vms d)).

Lemma ListVMs_running a s :
  (ListVMs (runningQuery a) s).1 = Ok (take (Z.to_nat MaxPageLimit) (runningAfter a (db s))).
Proof.
  unfold ListVMs, runningAfter, select. cbn [qLimit runningQuery].
  change (MaxPageLimit =? 0) with false. cbv iota. rewrite Z.ltb_irrefl, orb_false_r.
  change (MaxPageLimit <? 0) with false. cbv iota. unfold gets. cbn [fst]. do 2 f_equal.
  apply (select_ext (listed (runningQuery a) (db s))). intros v _.
  unfold listed, running. cbn. by rewrite !orb_false_r, andb_true_r.
Qed.

Definition vordered (l : list VM) : Prop := StronglySorted Z.lt (vRowID <$> l).

Lemma vordered_select p l : vordered l → vordered (select p l).
Proof.
  unfold vordered, select. induction l as [|v l IH]; [done|]. cbn. intros H.
  apply StronglySorted_inv in H as [H Hv]. destruct (p v); [|auto]. cbn. constructor; [auto|].
  apply Forall_forall. intros x (v' & -> & Hv')%list_elem_of_fmap.
  apply elem_of_select in Hv' as [Hv' _]. rewrite Forall_forall in Hv. apply Hv.
  by apply list_elem_of_fmap_2.
Qed.

(** What lies behind the last row of a page is the rest. *)
Lemma behind_last l1 x l2 :
  vordered (l1 ++ x :: l2) → select (λ v, vRowID x <? vRowID v) (l1 ++ x :: l2) = l2.
Proof.
  unfold vordered. rewrite fmap_app. intros Hs. rewrite select_app.
  assert (H1 : ∀ v, v ∈ l1 → vRowID v < vRowID x).
  { intros v Hv. eapply StronglySorted_app_1_elem_of; [exact Hs|by apply list_elem_of_fmap_2|left]. }
  assert (H2 : ∀ v, v ∈ l2 → vRowID x < vRowID v).
  { apply StronglySorted_app_1_r in Hs. apply StronglySorted_inv in Hs as [_ Hs].
    rewrite Forall_forall in Hs. intros v Hv. apply Hs. by apply list_elem_of_fmap_2. }
  rewrite (select_none _ l1); [|intros v Hv%H1; apply Z.ltb_ge; lia].
  cbn [app]. unfold select. cbn. rewrite Z.ltb_irrefl.
  rewrite (select_ext _ (λ _, true) l2); [|intros v Hv; by apply Z.ltb_lt, H2].
  clear. unfold select. induction l2 as [|v l IH]; [done|]. cbn. by rewrite IH.
Qed.

Lemma runningAfter_next a d n v vs :
  rowsOk d → take n (runningAfter a d) = v :: vs →
  runningAfter (vRowID (default v (last (v :: vs)))) d = drop n (runningAfter a d).
Proof.
  intros [Hs _ _] E.
  assert (Hso : vordered (runningAfter a d)) by by apply vordered_select.
  destruct (exists_last (l := v :: vs)) as (l1 & x & El); [done|]. rewrite El, last_snoc.
  change (default v (Some x)) with x.
  assert (Hd : runningAfter a d = l1 ++ x :: drop n (runningAfter a d)).
  { rewrite <- (take_drop n (runningAfter a d)) at 1. by rewrite E, El, <- app_assoc. }
  rewrite Hd in Hso. apply behind_last in Hso. rewrite <- Hd in Hso.
  transitivity (select (λ v, vRowID x <? vRowID v) (runningAfter a d)); [|done]. unfold runningAfter. rewrite select_select. apply select_ext. intros y _.
  assert (Hx : a < vRowID x).
  { assert (Hin : x ∈ runningAfter a d) by (rewrite Hd; apply elem_of_app; right; left).
    apply elem_of_select in Hin as [_ Hin]. by apply andb_true_iff in Hin as [?%Z.ltb_lt _]. }
  cbv beta.
  destruct (Z.ltb_spec (vRowID x) (vRowID y)), (Z.ltb_spec a (vRowID y)); try lia;
    by destruct (running y).
Qed.

Section sum.
Context (format : Z → string) (importer : option Importer) (now : VM → Z) (s : Store).
Hypothesis rows_ok : rowsOk (db s).

(** The unwell sensors of a VM, as its own record tells them. *)
Definition unwellOf (vm : VM) : Z := tSensorsDegraded (VMTelemetryHealth format importer (now vm) vm (db s)).

Definition total (t : Z) (l : list VM) : Z := foldl (λ t vm, t + unwellOf vm) t l.

Lemma sumPages_total fuel a t :
  (length (runningAfter a (db s)) < fuel)%nat →
  sumPages format importer now s fuel a t = Some (Some (total t (runningAfter a (db s)))).
Proof.
  revert a t. induction fuel as [|fuel IH]; intros a t Hl; [lia|]. cbn [sumPages].
  rewrite ListVMs_running. destruct (take _ (runningAfter a (db s))) as [|v vs] eqn:E.
  - apply take_nil_inv in E as [E|E]; [done|]. by rewrite E.
  - rewrite IH; rewrite (runningAfter_next _ _ _ _ _ rows_ok E).
    + f_equal. f_equal. unfold total, unwellOf. rewrite <- foldl_app, <- E. by rewrite take_drop.
    + rewrite length_drop. unfold MaxPageLimit.
      assert (runningAfter a (db s) ≠ []) by (intros E'; by rewrite E' in E).
      destruct (runningAfter a (db s)); [done|]. cbn in *. lia.
Qed.

Lemma sensorsDegraded_total :
  sensorsDegraded format importer now s = Some (Some (total 0 (select running (rows (vms (db s)))))).
Proof.
  unfold sensorsDegraded.
  assert (E : runningAfter 0 (db s) = select running (rows (vms (db s)))).
  { apply select_ext. intros v Hv. apply (ro_range _ rows_ok) in Hv. by rewrite (proj2 (Z.ltb_lt _ _)) by lia. }
  rewrite sumPages_total; rewrite E; [done|]. unfold select. apply Nat.lt_succ_r, List.filter_length_le.
Qed.

End sum.
(** * The snapshot *)

#[local] Instance head_le_trans : Transitive head_le.
Proof. unfold head_le. intros a b c. lia. Qed.
#[local] Instance head_le_total : Total head_le.
Proof. unfold head_le. intros a b. lia. Qed.

Lemma open_none s : openCount s = 0 ↔ ∀ t, t ∈ items s → tAcked t = true.
Proof.
  unfold openCount. split.
  - intros H t Ht. destruct (tAcked t) eqn:E; [done|]. exfalso.
    assert (Hin : t ∈ select open_ (items s)) by (apply elem_of_select; unfold open_; by rewrite E).
    destruct (select open_ (items s)); [by apply elem_of_nil in Hin|cbn in H; lia].
  - intros H. rewrite select_none; [done|]. intros t Ht. unfold open_. by rewrite H.
Qed.

Lemma latestID_spec l :
  (∀ r, r ∈ l → 1 ≤ event_id r) →
  (∀ r, r ∈ l → event_id r ≤ latestID l) ∧ (latestID l = 0 ∧ l = [] ∨ ∃ r, r ∈ l ∧ event_id r = latestID l).
Proof.
  induction l as [|r l IH]; intros Hp; [split; [intros r Hr; by apply elem_of_nil in Hr|by left]|].
  destruct IH as [H1 H2]; [intros x Hx; apply Hp; by right|]. cbn. split.
  - intros x [->|Hx]%elem_of_cons; [lia|]. specialize (H1 x Hx). unfold latestID in *. lia.
  - right. assert (1 ≤ event_id r) by (apply Hp; left).
    fold (latestID l).
    destruct (Z.max_spec (event_id r) (latestID l)) as [[Hl E]|[Hl E]]; rewrite E.
    + destruct H2 as [[E0 _]|(x & Hx & Ex)]; [lia|]. exists x. split; [by right|done].
    + exists r. split; [left|done].
Qed.

(** The head of the queue: the first ten open items, most severe first. *)
Definition headOf (l open : list AttentionItem) : Prop :=
  StronglySorted head_le l ∧ l ⊆ open ∧ length l = Nat.min headLimit (length open) ∧
  ∀ t, t ∈ open → t ∈ l ∨ ∀ h, h ∈ l → head_le h t.

Lemma head_exact s : headOf (OpenAttentionHead headLimit s) (select open_ (items s)).
Proof.
  unfold headOf, OpenAttentionHead. set (open := select open_ (items s)).
  pose proof (merge_sort_Permutation head_le open) as Hp.
  pose proof (StronglySorted_merge_sort head_le open) as Hs.
  rewrite <- (take_drop headLimit (merge_sort head_le open)) in Hs.
  split_and!.
  - by eapply StronglySorted_app_1_l.
  - intros t Ht. rewrite <- Hp, <- (take_drop headLimit (merge_sort head_le open)).
    apply elem_of_app. by left.
  - rewrite length_take. by rewrite Hp.
  - intros t Ht. rewrite <- Hp in Ht. rewrite <- (take_drop headLimit (merge_sort head_le open)) in Ht.
    apply elem_of_app in Ht as [Ht|Ht]; [by left|right]. intros h Hh.
    by eapply StronglySorted_app_1_elem_of.
Qed.

(** C17: A snapshot is the situation. In every state an execution of the store
    reaches: a cursor that does not parse is refused and any other is answered; the
    situation is quiet exactly when no item is open and no event lies behind the
    cursor; the degraded sensors are the sum over all running VMs, page after page,
    of what each VM's own record says; the number of open items is exact, the head
    is the most severe ones, at most ten, and the cursor is the last event's. *)
Theorem snapshot_exact hash redact format text quote cfg importer now since inst s :
  asteps hash redact (openA inst) s →
  match sinceID since with
  | Err e => Snapshot_ format text quote cfg importer now since s = Some (Err e)
  | Ok sid =>
    ∃ snap, Snapshot_ format text quote cfg importer now since s = Some (Ok snap) ∧
      (Quiet snap = true ↔ (∀ t, t ∈ items s → tAcked t = true) ∧
         (sid < 0 ∨ ∀ r, r ∈ log s → event_id r ≤ sid)) ∧
      SensorsDegraded snap =
        total format importer now (abase s) 0 (select running (rows (vms (db (abase s))))) ∧
      AttentionOpen snap = Z.of_nat (length (select open_ (items s))) ∧
      headOf (Head snap) (select open_ (items s)) ∧
      ∃ c, AsOfCursor snap = Strconv.FormatInt c ∧ (∀ r, r ∈ log s → event_id r ≤ c) ∧
        (c = 0 ∧ log s = [] ∨ ∃ r, r ∈ log s ∧ event_id r = c)
  end.
Proof.
  intros Hst. destruct (asteps_base hash redact _ _ Hst (log_ok_empty hash inst)) as [os Hos].
  destruct (steps_log hash _ _ _ Hos (log_ok_empty hash inst)) as [Hl _].
  assert (Hrows : rowsOk (db (abase s))).
  { eapply steps_rows; [exact Hos|apply log_ok_empty|]. split; [constructor| |done].
    intros v Hv. by apply elem_of_nil in Hv. }
  unfold Snapshot_. destruct (sinceID since) as [sid|e]; [|done].
  destruct (latestID_spec (log s)) as [Hle Hcase].
  { intros r Hr. by apply (lo_range hash _ Hl). }
  assert (Hc : 0 ≤ latestID (log s) ≤ Int.MaxInt64).
  { pose proof (lo_seq hash _ Hl). destruct Hcase as [[-> _]|(r & Hr & <-)]; [lia|].
    pose proof (lo_range hash _ Hl r Hr). lia. }
  assert (Hq : ∃ r, Query_ text probe (db (abase s)) = Ok r ∧ latestOf r = Some (latestID (log s))).
  { unfold Query_. change (checkQuery probe) with (Ok (E := QueryErr) (0, None : option Z, [] : list string, 1)).
    eexists. split; [reflexivity|]. unfold latestOf. cbn [LatestEventID].
    destruct (Z.ltb_spec 0 (latestID (log s))).
    - rewrite (proj2 (String.eqb_neq _ _)) by apply Strconv.FormatUint_nonempty.
      by apply Strconv.ParseInt_FormatInt.
    - f_equal. lia. }
  destruct Hq as (r & -> & ->). rewrite (sensorsDegraded_total _ _ _ _ Hrows).
  eexists. split; [reflexivity|]. cbn [Quiet SensorsDegraded AttentionOpen Head AsOfCursor].
  split_and!; [|done|done|apply head_exact|by exists (latestID (log s))].
  unfold CountOpenAttention. rewrite andb_true_iff, Z.eqb_eq, open_none, orb_true_iff, Z.ltb_lt, Z.leb_le.
  split; intros [H1 H2]; (split; [done|]); destruct H2 as [H2|H2]; auto.
  - right. intros r' Hr'. specialize (Hle r' Hr'). lia.
  - destruct (Z.lt_ge_cases sid 0); [by left|right].
    destruct Hcase as [[-> E]|(r' & Hr' & <-)]; [done|by apply H2].
Qed.

Definition exViewCfg : Config := mkConfig {["lifecycle_failed" := true]} 10 true.
Definition exText (_ : json) : string := "".

Lemma exAgain_reached : asteps exHash exRedact (openA exInst) exAgain.
Proof. etrans; [exact exAcked_steps|exact exAgain_steps]. Qed.

Lemma snapshot_exact_witness :
  ∃ snap, Snapshot_ Strconv.FormatInt exText (λ q, q) exViewCfg None (λ _, 0) "2" exAgain = Some (Ok snap) ∧
    AttentionOpen snap = 1.
Proof.
  destruct (snapshot_exact exHash exRedact Strconv.FormatInt exText (λ q, q) exViewCfg None (λ _, 0) "2"
    exInst exAgain exAgain_reached) as (snap & E & Hq & _ & Ho & _).
  exists snap. split; [exact E|].
  rewrite Ho. vm_compute. reflexivity.
Defined.

(** ** Staleness *)

Lemma heartbeatInterval_bounds data :
  minHeartbeatInterval ≤ heartbeatInterval data ≤ maxHeartbeatInterval.
Proof.
  assert (minHeartbeatInterval ≤ maxHeartbeatInterval) by done.
  unfold heartbeatInterval. repeat (case_match; try lia).
Qed.

(** Whatever a guest says of its interval: silent for more than fifteen minutes it is
    not healthy, and with a beat younger than three seconds it is, unless it says a
    sensor is unwell. *)
Lemma staleness_bounds format hb now :
  0 ≤ now - HostReceivedAt hb ≤ Int.MaxInt64 →
  (15 * Minute < now - HostReceivedAt hb →
     tState (deriveTelemetryHealth format (Some hb) now) = TelemetryDegraded) ∧
  (now - HostReceivedAt hb ≤ 3 * Second → countUnwellSensors (dataOf hb) = 0 →
     tState (deriveTelemetryHealth format (Some hb) now) = TelemetryHealthy).
Proof.
  intros Hr. pose proof (heartbeatInterval_bounds (dataOf hb)) as Hb.
  cbn [deriveTelemetryHealth tState].
  rewrite GoTime.Sub_small by (unfold Int.MinInt64 in *; lia).
  assert (Hi : Int.i64 (stalenessIntervals * heartbeatInterval (dataOf hb)) =
    stalenessIntervals * heartbeatInterval (dataOf hb)).
  { apply Int.i64_small. unfold minHeartbeatInterval, maxHeartbeatInterval, Second, Minute, stalenessIntervals in *. lia. }
  rewrite Hi. unfold minHeartbeatInterval, maxHeartbeatInterval, stalenessIntervals in *. split.
  - intros Hlt. rewrite (proj2 (Z.ltb_lt _ _)); [done|]. lia.
  - intros Hle ->. rewrite (proj2 (Z.ltb_ge _ _)); [done|]. lia.
Qed.

End SituationView.
