(* ===== verification/Reports.v ===== *)
(** Run reports (internal/report/report.go, generate.go, internal/store/report.go): the
    counts of a run's window, the report, and its generator as a program of store calls. *)

From S2P Require Import Prelude Events Store RunStore VmStore StoreRules Registry History.
From S2P Require Import EventQuery AttentionStore AttentionRules AttentionRuns Admission Manager ManagerSystem.
Import Events Sql Store Log Runs Vms Rules Registry History EventQuery Attention AttentionRules.
Import AttentionRuns.

Local Open Scope Z_scope.

Module Reports.

(** * The schema *)

Record OutcomeBlock := mkOutcome {
  bStatus : string;
  bEvaluatedBy : string;
  bReason : string;
  bEvidenceLinks : list string
}.

Record TimingBlock := mkTiming {
  bCreatedAt : string;
  bStartedAt : option string;
  bConcludedAt : string
}.

Record Counted := mkCounted { nCount : Z; nReproduceQuery : string }.

Record ExecResult := mkExecResult {
  xKind : string;
  xExitCode : option Z;
  xSignal : string;
  xDurationMS : option Z
}.

Record StreamDigest := mkStreamDigest {
  sBytes : Z;
  sTruncated : bool;
  sDigest : string;
  sTail : string;
  sFullOutputLink : string
}.

Record ExecBlock := mkExecBlock {
  xExecID : string;
  xArgvPreview : string;
  xResult : ExecResult;
  xStdout : StreamDigest;
  xStderr : StreamDigest
}.

Record EventRollupRow := mkRollup { fFamily : string; fCount : Z; fReproduceQuery : string }.

Record CoverageGap := mkGap { gKind : string; gDetail : string; gEvidenceLink : string }.

Record CoverageBlock := mkCoverage { gTelemetryHealthFinal : string; gGaps : list CoverageGap }.

Record NetworkBlock := mkNetwork {
  wProfile : string;
  wFlows : Counted;
  wDNSQueries : Counted;
  wPolicyDenials : Counted
}.

Record FinalDiff := mkFinalDiff {
  dStatus : string;
  dAdded : option Z;
  dModified : option Z;
  dDeleted : option Z;
  dLink : string
}.

Record FilesystemBlock := mkFilesystem { wLiveMutationEvents : Counted; wFinalDiff : FinalDiff }.

Record ArtifactBlock := mkArtifact {
  cArtifactID : string;
  cMediaType : string;
  cByteSize : Z;
  cDigest : string;
  cLabel : string
}.

Record AttentionRow := mkAttentionRow {
  zAttentionID : string;
  zKind : string;
  zSeverity : string;
  zAcked : bool;
  zLink : string
}.

Record QualityBlock := mkQualityBlock { yTruncated : bool; yRedacted : bool; yNotes : list string }.

Record LinksBlock := mkLinks { lRun : string; lVM : string; lEvents : string; lExport : string }.

Record Report := mkReport {
  RSchemaVersion : Z;
  RRunID : string;
  RVMID : string;
  RBootIDs : list string;
  RGoal : string;
  RSuccessCriteria : string;
  ROutcome : OutcomeBlock;
  RTiming : TimingBlock;
  RExecs : list ExecBlock;
  REventRollup : list EventRollupRow;
  RCoverage : CoverageBlock;
  RNetworkSummary : NetworkBlock;
  RFilesystemSummary : FilesystemBlock;
  RArtifacts : list ArtifactBlock;
  RAttention : list AttentionRow;
  RQuality : QualityBlock;
  RLinks : LinksBlock
}.

(** * What the store counts and lists *)

Section reports.
(** The text SQLite gives a JSON container. *)
Context (text : json → string).

Definition inWindow (vm : string) (kinds : list string) (after until : Z) (r : EventRow) : bool :=
  (after <? event_id r) && (event_id r <=? until) && existsb (String.eqb (kind r)) kinds &&
  (isText (vm_id r) vm || isText (dataVMID text (payload r)) vm).

Definition CountEventsForReport (vm family : string) (after until : Z) (d : DB) : Z :=
  let kinds := KindsByFamily family in
  if (length kinds =? 0)%nat then 0
  else Z.of_nat (length (select (inWindow vm kinds after until) (rows (events d)))).

Definition forReport (vm run : string) (after until : Z) (t : AttentionItem) : bool :=
  isText (tRunID t) run ||
  (isText (tVMID t) vm && (after <? tRaisedEventID t) && (tRaisedEventID t <=? until)).

Definition ListAttentionForReport (vm run : string) (after until : Z) (s : AStore_)
    : list AttentionItem :=
  take 129 (merge_sort attention_le (select (forReport vm run after until) (items s))).

(** * Assembling a report *)

(** The store changes while a report reads it: [st i] is the store at the [i]th read. *)
Context (st : nat → AStore_).

Abbreviation dbAt i := (db (abase (st i))).

Inductive GenErr :=
  | GGetRun (e : StoreErr)
  | GNotTerminal (run phase : string)
  | GInconsistent (run : string)
  | GGetVM (e : StoreErr)
  | GQuery (e : QueryErr).

Definition bootIDOf (ev : Envelope) : option string :=
  d ← Data ev;
  match field d "boot_id" with
  | Some (JStr b) => if (b =? "")%string then None else Some b
  | _ => None
  end.

Definition addBoot (ids : list string) (ev : Envelope) : list string :=
  match bootIDOf ev with
  | Some b => if existsb (String.eqb b) ids then ids else ids ++ [b]
  | None => ids
  end.

Definition bootQuery (vm after until : string) : Query :=
  mkQuery (Some vm) "vm.state_changed" "" after until 1000 false.

(** The boots, and the index of the next read. [None]: out of fuel. *)
Fixpoint bootPages (fuel i : nat) (vm after until : string) (ids : list string)
    : option (result GenErr (list string * nat)) :=
  match fuel with
  | O => None
  | S fuel =>
    match Query_ text (bootQuery vm after until) (dbAt i) with
    | Err e => Some (Err (GQuery e))
    | Ok r =>
      let ids := fold_left addBoot (Page r) ids in
      if Z.of_nat (length (Page r)) <? 1000 then Some (Ok (ids, S i))
      else bootPages fuel (S i) vm (NextAfter r) until ids
    end
  end.

(** A page takes at least one event of the window. *)
Definition collectBootIDs (i : nat) (vm : string) (after until : Z)
    : option (result GenErr (list string * nat)) :=
  bootPages (S (length (rows (events (dbAt i))))) i vm (Strconv.FormatInt after)
    (Strconv.FormatInt until) [].

Definition reproduce (vm family : string) (after until : Z) : string :=
  "/api/v1/events?vm_id=" +:+ vm +:+ "&family=" +:+ family +:+ "&after=" +:+
  Strconv.FormatInt after +:+ "&until=" +:+ Strconv.FormatInt until.

Definition rollupRow (i : nat) (vm : string) (after until : Z) (k : nat) (family : string)
    : option EventRollupRow :=
  let n := CountEventsForReport vm family after until (dbAt (i + k)) in
  if n =? 0 then None else Some (mkRollup family n (reproduce vm family after until)).

Definition family_le (a b : EventRollupRow) : Prop := (fFamily a ≤ fFamily b)%string.
#[export] Instance family_le_dec a b : Decision (family_le a b).
Proof. unfold family_le. apply _. Defined.

Definition buildEventRollup (i : nat) (vm : string) (after until : Z) : list EventRollupRow :=
  merge_sort family_le (omap id (imap (rollupRow i vm after until) Families)).

Definition counted (i : nat) (vm family : string) (after until : Z) : Counted :=
  mkCounted (CountEventsForReport vm family after until (dbAt i)) (reproduce vm family after until).

Definition attentionRow (t : AttentionItem) : AttentionRow :=
  mkAttentionRow (Strconv.FormatInt (tAttentionID t)) (tTriggerClass t) (tSeverity t) (tAcked t)
    ("/api/v1/attention/" +:+ Strconv.FormatInt (tAttentionID t)).

Definition collectAttention (i : nat) (vm run : string) (after until : Z)
    : list AttentionRow * bool :=
  let l := ListAttentionForReport vm run after until (st i) in
  (attentionRow <$> take 128 l, (128 <? length l)%nat).

Definition evidenceLinks (r : Run) : list string :=
  ("/api/v1/events?family=run&vm_id=" +:+ uVMID r +:+ "&after=" +:+
     Strconv.FormatInt (uConcludedEventID r - 1) +:+ "&until=" +:+
     Strconv.FormatInt (uConcludedEventID r))
  :: (if (uResultJSON r =? "")%string then [] else ["/api/v1/runs/" +:+ uRunID r]).

Definition theGap : CoverageGap :=
  mkGap "guest_channel_not_built"
    "no guest telemetry channel exists in this build; guest-side facts limited to explicit submissions"
    "/api/v1/meta".

(** [Generate] up to the encoding: read 0 is the run's row, read 1 the VM's. *)
Definition buildReport (run : string) : option (result GenErr Report) :=
  match (GetRun run (abase (st 0%nat))).1 with
  | Err e => Some (Err (GGetRun e))
  | Ok r =>
    if negb (terminalRunPhases (uPhase r)) then Some (Err (GNotTerminal run (uPhase r))) else
    if uConcludedEventID r =? 0 then Some (Err (GInconsistent run)) else
    match (GetVM (uVMID r) (abase (st 1%nat))).1 with
    | Err e => Some (Err (GGetVM e))
    | Ok v =>
      let vm := uVMID r in
      let after := uCreatedEventID r in
      let until := uConcludedEventID r in
      match collectBootIDs 2 vm after until with
      | None => None
      | Some (Err e) => Some (Err e)
      | Some (Ok (boots, i)) =>
        let rollup := buildEventRollup i vm after until in
        let j := (i + length Families)%nat in
        let '(attention, truncated) := collectAttention (j + 4) vm run after until in
        Some (Ok (mkReport 1 run vm boots (uGoal r) (uCriteriaType r)
          (mkOutcome (uPhase r) (uEvaluatedBy r) (uReason r) (evidenceLinks r))
          (mkTiming (uCreatedAt r)
             (if (uStartedAt r =? "")%string then None else Some (uStartedAt r)) (uConcludedAt r))
          [] rollup (mkCoverage "unavailable" [theGap])
          (mkNetwork (vNetworkProfile v) (counted j vm "net.flow" after until)
             (counted (j + 1) vm "dns" after until) (counted (j + 2) vm "policy" after until))
          (mkFilesystem (counted (j + 3) vm "fs" after until)
             (mkFinalDiff "not_requested" None None None ""))
          [] attention
          (mkQualityBlock truncated false
             (if truncated then ["attention list capped at 128 items"] else []))
          (mkLinks ("/api/v1/runs/" +:+ run) ("/api/v1/vms/" +:+ vm)
             ("/api/v1/events?vm_id=" +:+ vm +:+ "&after=" +:+ Strconv.FormatInt after +:+
              "&until=" +:+ Strconv.FormatInt until) "")))
      end
    end
  end.

(** [json.Marshal] of a report and the SHA-256 of a text, in hexadecimal. *)
Context (marshal : Report → string) (sha256 : string → string).

Definition Generate (run : string) : option (result GenErr (string * string)) :=
  match buildReport run with
  | None => None
  | Some (Err e) => Some (Err e)
  | Some (Ok r) => Some (Ok (marshal r, "sha256:" +:+ sha256 (marshal r)))
  end.

End reports.

(** * The generator *)

Definition ofReport (run : string) (o : Operation) : bool :=
  (oKind o =? "run.report_generate")%string && (oRequestHash o =? run)%string.

Definition op_le (a b : Operation) : Prop := oOperationID a ≤ oOperationID b.
#[export] Instance op_le_dec a b : Decision (op_le a b).
Proof. unfold op_le. apply _. Defined.

(** [ORDER BY operation_id DESC LIMIT 1]. *)
Definition GetLatestReportOperation (run : string) (d : DB) : result StoreErr Operation :=
  match last (merge_sort op_le (select (ofReport run) (rows (operations d)))) with
  | Some o => Ok o
  | None => Err ErrOperationUnknown
  end.

(** The calls of the background function, and what they answer. *)
Inductive GCall :=
  | CGetRun (run : string)
  | CHasRunningReportOp (run : string)
  | CInsertReportOperation (owner vm run : string)
  | CGenerate (run : string)
  | CPutRunReport (run raw digest : string) (op : Z)
  | CUpdateOperation (u : OperationUpdate).

Definition GAns (c : GCall) : Type :=
  match c with
  | CGetRun _ => result StoreErr Run
  | CHasRunningReportOp _ => result StoreErr bool
  | CInsertReportOperation _ _ _ => result StoreErr Z
  | CGenerate _ => result GenErr (string * string)
  | CPutRunReport _ _ _ _ => result StoreErr unit
  | CUpdateOperation _ => unit
  end.

Inductive GProg := GDone | GDo (c : GCall) (k : GAns c → GProg).

Section generator.
(** The texts of errors. *)
Context (genText : GenErr → string) (storeText : StoreErr → string).

Definition reportDone (op : Z) : OperationUpdate := mkOpUpdate op "done" "succeeded" "running" None None.
Definition reportFailed (op : Z) (phase msg : string) : OperationUpdate :=
  mkOpUpdate op phase "failed" "running" (Some "report_generation_failed") (Some msg).

Definition conclude (u : OperationUpdate) : GProg := GDo (CUpdateOperation u) (λ _, GDone).

(** [MakeReportGenFn]. *)
Definition MakeReportGenFn (run : string) : GProg :=
  GDo (CGetRun run) (λ r, match r with
  | Err _ => GDone
  | Ok r =>
    GDo (CHasRunningReportOp run) (λ h, match h with
    | Err _ | Ok true => GDone
    | Ok false =>
      GDo (CInsertReportOperation (uOwner r) (uVMID r) run) (λ i, match i with
      | Err _ => GDone
      | Ok op =>
        GDo (CGenerate run) (λ g, match g with
        | Err e => conclude (reportFailed op "generating" (genText e))
        | Ok (raw, digest) =>
          GDo (CPutRunReport run raw digest op) (λ p, match p with
          | Ok _ | Err (ErrReportImmutable _) => conclude (reportDone op)
          | Err e => conclude (reportFailed op "storing" (storeText e))
          end)
        end)
      end)
    end)
  end).

End generator.

Section calls.
Context (text : json → string) (hash : Envelope → string) (redact : string → string * bool).
Context (marshal : Report → string) (sha256 : string → string).

Definition onStore {A} (m : M A) (s : AStore_) (a : result StoreErr A) (s' : AStore_) : Prop :=
  m (abase s) = (a, abase s') ∧ s' = with_base (abase s') s.

(** A call of the store; a generation reads it while it goes on changing. *)
Definition answers (e : Env) (c : GCall) : AStore_ → GAns c → AStore_ → Prop :=
  match c return AStore_ → GAns c → AStore_ → Prop with
  | CGetRun run => onStore (GetRun run)
  | CHasRunningReportOp run => onStore (ManagerSystem.HasRunningReportOp run)
  | CInsertReportOperation owner vm run => onStore (InsertReportOperation hash e owner vm run)
  | CGenerate run => λ s a s', ∃ st, st 0%nat = s ∧ (∀ i, asteps hash redact (st i) (st (S i))) ∧
      asteps hash redact (st 1%nat) s' ∧ Generate text st marshal sha256 run = Some a
  | CPutRunReport run raw digest op => onStore (PutRunReport e run raw digest op)
  | CUpdateOperation u => λ s _ s', ∃ a, onStore (UpdateOperation hash e u) s a s'
  end.

(** The generator side by side with everything else that happens to the store: its
    calls, in order. *)
Inductive gruns : GProg → AStore_ → list GCall → AStore_ → Prop :=
  | gr_done s : gruns GDone s [] s
  | gr_other p s s1 tr s2 : asteps hash redact s s1 → gruns p s1 tr s2 → gruns p s tr s2
  | gr_call e c k s a s1 tr s2 :
      aready e s → answers e c s a s1 → gruns (k a) s1 tr s2 →
      gruns (GDo c k) s (c :: tr) s2.

End calls.

End Reports.
