(* ===== verification/ReportRuns.v ===== *)
(** What a run report says is what the log says, whenever and however often the
    report is generated. *)

From S2P Require Import Prelude Text Events Store RunStore VmStore StoreRules Registry History.
From S2P Require Import RunHistory EventQuery AttentionStore AttentionRules AttentionRuns EventsAPI.
From S2P Require Import Admission Manager ManagerSystem Reports.
Import Events Sql Store Log Runs Vms Rules Registry History RunHistory EventQuery Attention.
Import AttentionRules AttentionRuns EventsAPI Reports.

Local Open Scope Z_scope.

Module ReportRuns.

(** * The window of a run *)

(** The event with an id, about a run of a VM. *)
Definition eventAt (l : list EventRow) (id : Z) (kd : string) (r : Run) (ev : EventRow) : Prop :=
  ev ∈ l ∧ event_id ev = id ∧ kind ev = kd ∧
  dataStr ev "run_id" = Some (uRunID r) ∧ dataStr ev "vm_id" = Some (uVMID r).

(** A run points at the event that created it and, once concluded, at the later event
    that concluded it. *)
Record windowOk (l : list EventRow) (r : Run) : Prop := mkWindowOk {
  wo_created : ∃ ev, eventAt l (uCreatedEventID r) "run.created" r ev;
  wo_concluded : uConcludedEventID r ≠ 0 →
    terminalRunPhases (uPhase r) = true ∧ uCreatedEventID r < uConcludedEventID r ∧
    ∃ ev, eventAt l (uConcludedEventID r) "run.state_changed" r ev ∧
      dataStr ev "to" = Some (uPhase r)
}.

Definition windowed (d : DB) : Prop := ∀ r, r ∈ rows (runs d) → windowOk (rows (events d)) r.

Lemma eventAt_app l tl id kd r ev : eventAt l id kd r ev → eventAt (l ++ tl) id kd r ev.
Proof. intros (H & ?). split; [apply elem_of_app; by left|done]. Qed.

Lemma windowOk_app l tl r : windowOk l r → windowOk (l ++ tl) r.
Proof.
  intros [(ev & H) Hc]. split; [exists ev; by apply eventAt_app|]. intros Hz.
  destruct (Hc Hz) as (Hp & Hlt & ev' & He & Ht). split_and!; [done|done|]. exists ev'.
  split; [by apply eventAt_app|done].
Qed.

(** The columns the window depends on. *)
Definition windowCols (r : Run) :=
  (uRunID r, uVMID r, uPhase r, uCreatedEventID r, uConcludedEventID r).

Lemma windowOk_cols l r r' : windowCols r' = windowCols r → windowOk l r → windowOk l r'.
Proof.
  unfold windowCols. intros [= E1 E2 E3 E4 E5] [H1 H2]. unfold eventAt in *.
  split; unfold eventAt; rewrite ?E1, ?E2, ?E3, ?E4, ?E5; done.
Qed.

Lemma terminal_final a b : terminalRunPhases a = true → runTransitionAllowed a b = false.
Proof.
  unfold terminalRunPhases. cbn [existsb]. rewrite !orb_true_iff, !String.eqb_eq.
  intros H. destruct_or! H; subst; done.
Qed.

Section steps.
Context (hash : Envelope → string).

Lemma windowed_same s s' :
  runs (db s') = runs (db s) → (∃ tl, rows (events (db s')) = rows (events (db s)) ++ tl) →
  windowed (db s) → windowed (db s').
Proof. intros Hr (tl & E) Hw r. rewrite Hr, E. intros H%Hw. by apply windowOk_app. Qed.

Lemma windowed_new d d' r :
  rows (runs d') = rows (runs d) ++ [r] → (∃ tl, rows (events d') = rows (events d) ++ tl) →
  windowOk (rows (events d')) r → windowed d → windowed d'.
Proof.
  intros Hr (tl & E) Hn Hw x. rewrite Hr. intros [H|H]%elem_of_app.
  - rewrite E. by apply windowOk_app, Hw.
  - by apply list_elem_of_singleton in H as ->.
Qed.

Lemma windowed_update d d' id f :
  rows (runs d') = update (byRunID id) f (rows (runs d)) →
  (∃ tl, rows (events d') = rows (events d) ++ tl) →
  (∀ r, r ∈ rows (runs d) → byRunID id r = true → windowOk (rows (events d')) r →
    windowOk (rows (events d')) (f r)) → windowed d → windowed d'.
Proof.
  intros Hr (tl & E) Hf Hw x. rewrite Hr. intros (y & Hy & ->)%elem_of_update.
  assert (H : windowOk (rows (events d')) y) by (rewrite E; by apply windowOk_app, Hw).
  destruct (byRunID id y) eqn:Eb; [by apply Hf|done].
Qed.

(** The event of a creation. *)
Lemma created_window e inp key rh started id s :
  windowOk (rows (events (db (emitted hash HostObserved e "run.created" (runCreatedData (newUUID e) inp) s))))
    (newRun e inp key rh started (seq (events (db s)) + 1) id).
Proof.
  split; [|done]. eexists. rewrite rows_emitted. split; [apply elem_of_app; right; left|]. done.
Qed.

Lemma events_ran e inp s :
  events (db (ranRun hash e inp s)) =
  events (db (emitted hash HostObserved e "run.created" (runCreatedData (newUUID e) inp) s)).
Proof. done. Qed.

Lemma events_on_tables f g s : events (db (on (set_vms f) (on (set_runs g) s))) = events (db s).
Proof. done. Qed.

Lemma granted_window e inp a s :
  iRun inp = Some a →
  ∃ r, rows (runs (db (granted hash e inp s))) = rows (runs (db s)) ++ [r] ∧
    windowOk (rows (events (db (granted hash e inp s)))) r.
Proof.
  intros Ha. rewrite runs_granted, Ha. eexists. split; [done|].
  unfold granted. rewrite Ha. cbv zeta.
  match goal with |- context [emitted hash HostObserved e "operation.state_changed" ?d ?x] =>
    set (s4 := emitted hash HostObserved e "operation.state_changed" d x) end.
  clearbody s4. rewrite events_ran, seq_emitted. apply created_window.
Qed.

Lemma granted_windowed e inp s out s' :
  log_ok hash s → ready 4 e s → createGranted hash e inp s = (Ok out, s') →
  (∃ tl, rows (events (db s')) = rows (events (db s)) ++ tl) →
  windowed (db s) → windowed (db s').
Proof.
  intros Hl Hr E Ht. apply createGranted_Ok in E as (v & o & _ & -> & _); [|done..].
  destruct (iRun inp) as [a|] eqn:Ha.
  - destruct (granted_window e inp a s Ha) as (r & H1 & H2). by eapply windowed_new.
  - apply windowed_same; [by rewrite runs_granted, Ha|done].
Qed.

Lemma createRun_windowed e inp s :
  log_ok hash s → ready 4 e s →
  (∃ tl, rows (events (db (CreateRun hash e inp s).2)) = rows (events (db s)) ++ tl) →
  windowed (db s) → windowed (db (CreateRun hash e inp s).2).
Proof.
  intros Hl Hr Ht. destruct (CreateRun hash e inp s) as [r s'] eqn:E. cbn [snd] in *.
  unfold CreateRun in E. fold (runLookup inp) in E. unfold mbind at 1, M_bind at 1 in E.
  destruct (runLookup inp s) as [pre s1] eqn:Hp. apply runLookup_state in Hp as ->.
  destruct pre as [[run|]|err]; [by injection E as <- <-| |by injection E as <- <-].
  destruct r as [[run b]|err]; [|apply inTx_Err in E; by rewrite E].
  apply (proj1 (inTx_Ok _ _ _ _)) in E. apply bind_Ok in E as (again & s1 & Hp & E).
  apply runLookup_state in Hp as ->. destruct again as [run'|];
    [by apply ret_Ok in E as [_ <-]|].
  rewrite emit_bind in E by (done || by eapply ready_le; [|exact Hr]).
  apply bind_Ok in E as (? & s1 & Hi & E). apply insertRun_Ok in Hi as (-> & _).
  unfold bumpVM in E. rewrite modify_bind in E. unfold scanRunInTx in E. m_inv.
  eapply windowed_new; [|done|apply created_window].
  change (runs (db (on _ (on (set_runs ?f) ?x)))) with (f (runs (db x))).
  rewrite runs_emitted. done.
Qed.

Lemma transition_windowed e inp s :
  log_ok hash s → ready 4 e s → runs_ok (rows (runs (db s))) →
  (∃ tl, rows (events (db (TransitionRun hash e inp s).2)) = rows (events (db s)) ++ tl) →
  windowed (db s) → windowed (db (TransitionRun hash e inp s).2).
Proof.
  intros Hl Hr Hok Ht. destruct (TransitionRun hash e inp s) as [[run|err] s'] eqn:E; cbn [snd] in *;
    [|apply inTx_Err in E; by rewrite E].
  apply (proj1 (inTx_Ok _ _ _ _)) in E. rewrite gets_bind, some_bind in E.
  destruct (select1 _ _) as [cur|] eqn:Hc; [|done].
  rewrite ensure_bind in E. destruct (_ || _); [|done].
  rewrite ensure_bind in E. destruct (runTransitionAllowed _ _) eqn:Ha; [|done].
  rewrite emit_bind in E by (done || by eapply ready_le; [|exact Hr]).
  rewrite modify_bind in E. unfold bumpVM in E. rewrite modify_bind in E.
  unfold scanRunInTx in E. m_inv.
  set (s1 := emitted hash HostObserved e "run.state_changed" (runChangedData inp cur) s) in *.
  eapply (windowed_update _ _ (Runs.tRunID inp) (movedRun e inp (uPhase cur) (seq (events (db s)) + 1)));
    [|done|].
  { change (runs (db (on _ (on (set_runs ?f) ?x)))) with (f (runs (db x))).
    unfold s1. rewrite runs_emitted. done. }
  rewrite events_on_tables.
  intros r Hin Hb [Hcr Hco]. assert (r = cur) as ->.
  { rewrite (select1_unique uRunID _ _ r (ro_ids _ Hok) Hin Hb) in Hc; [by simplify_eq|].
    intros r' _ E'%byRunID_spec. apply byRunID_spec in Hb. congruence. }
  split; [exact Hcr|]. unfold movedRun. cbn [uConcludedEventID uPhase uCreatedEventID].
  destruct (terminalRunPhases (tTo inp)) eqn:Hte.
  - intros _. split; [done|]. split.
    + destruct Hcr as (ev & Hev & <- & Hk & _). unfold s1 in Hev. rewrite rows_emitted in Hev.
      apply elem_of_app in Hev as [Hev|Hev]; [pose proof (lo_range hash s Hl ev Hev); lia|].
      apply list_elem_of_singleton in Hev as ->. by rewrite kind_emitted in Hk.
    + eexists. unfold s1. rewrite rows_emitted. split.
      * split; [apply elem_of_app; right; left|]. split_and!; try done; rewrite dataStr_emitted;
          unfold runChangedData; rewrite Hte; [|done]. apply byRunID_spec in Hb. cbn [uRunID]. by rewrite Hb.
      * rewrite dataStr_emitted. unfold runChangedData. by rewrite Hte.
  - intros Hz. destruct (Hco Hz) as [Hp _]. by rewrite (terminal_final _ _ Hp) in Ha.
Qed.

Lemma submission_windowed s s' id f tl :
  rows (runs (db s')) = update (byRunID id) f (rows (runs (db s))) →
  rows (events (db s')) = rows (events (db s)) ++ tl →
  (∀ r, windowCols (f r) = windowCols r) → windowed (db s) → windowed (db s').
Proof.
  intros Hr Ht Hf. eapply windowed_update; [done|by exists tl|]. intros r _ _.
  by apply windowOk_cols.
Qed.

Lemma step_windowed s o s' :
  step hash s o s' → log_ok hash s → runs_ok (rows (runs (db s))) →
  windowed (db s) → windowed (db s').
Proof.
  intros Hst Hl Hok Hw. destruct (step_log hash _ _ _ Hst Hl) as [_ (tl & Htl & _)].
  assert (Ht : ∃ tl, rows (events (db s')) = rows (events (db s)) ++ tl) by eauto.
  destruct Hst as [e o' s0 Hr Hlg]. assert (Hr1 : ready 1 e s0) by by eapply ready_le; [|exact Hr].
  destruct (touchesRuns o') eqn:Hto; [|by apply (windowed_same _ _ (runs_quiet hash e o' s0 Hto))].
  destruct o' as [|inp| | | |inp|inp|id p max|quote id p max| | | | | |inp| | | |]; try done; cbn [exec] in *.
  - destruct (CreateVMWithOperation hash e inp s0) as [[out|err] s1] eqn:E; cbn [snd] in *;
      [|apply CreateVM_Err in E; by rewrite E].
    apply CreateVM_Ok in E as [[-> _]|(t & _ & [(r & _ & E)|(_ & E)])]; [done|..|done|done].
    + apply createRefused_Ok in E as (op & _ & -> & _); [|done|done].
      apply (windowed_same s0); [|done|done]. unfold refused. cbv zeta. by rewrite runs_emitted.
    + by eapply granted_windowed.
  - by apply createRun_windowed.
  - by apply transition_windowed.
  - destruct (SubmitRunProgress hash e id p max s0) as [r s1] eqn:E. cbn [snd] in *.
    apply progress_cases in E as [[E _]|(cur & j & _ & _ & _ & _ & _ & _ & ->)]; [|..|done|done].
    + by apply (windowed_same s0).
    + eapply (submission_windowed s0 _ id); [|exact Htl| |done].
      * unfold progressed. cbv zeta. rewrite runs_on_bumped, runs_on_runs, runs_emitted. reflexivity.
      * done.
  - destruct (SubmitRunResult hash quote e id p max s0) as [r s1] eqn:E. cbn [snd] in *.
    apply result_cases in E as [[E _]|(cur & st & x & _ & _ & _ & _ & _ & ->)]; [|..|done|done].
    + by apply (windowed_same s0).
    + eapply (submission_windowed s0 _ id); [|exact Htl| |done].
      * unfold resulted. rewrite runs_on_bumped, runs_on_runs, runs_emitted. reflexivity.
      * done.
  - destruct (member_store hash e inp s0) as [E|(out & E)]; [by rewrite E|].
    by eapply granted_windowed.
Qed.

(** A concluded run's row never changes. *)
Lemma runStep_final l l' r :
  runStep l l' → runs_ok l → r ∈ l → terminalRunPhases (uPhase r) = true → r ∈ l'.
Proof.
  intros Hst Hok Hr Ht.
  assert (Hup : ∀ id f cur, select1 (byRunID id) l = Some cur → terminalRunPhases (uPhase cur) = false →
    r ∈ update (byRunID id) f l).
  { intros id f cur Hc Hn. apply elem_of_update. exists r. split; [done|].
    destruct (byRunID id r) eqn:Hb; [|done].
    assert (r = cur) as ->; [|congruence].
    rewrite (select1_unique uRunID _ _ r (ro_ids _ Hok) Hr Hb) in Hc; [by simplify_eq|].
    intros r' _ E%byRunID_spec. apply byRunID_spec in Hb. congruence. }
  assert (Ha : ∀ p, acceptsSubmissions p = true → terminalRunPhases p = false).
  { intros p. unfold acceptsSubmissions. rewrite orb_true_iff, !String.eqb_eq. by intros [->| ->]. }
  destruct Hst as [? [|x|id cur f Hc _ Hal]|id cur f Hc Hal _|id cur st f Hc Hal _ _ _];
    [done|apply elem_of_app; by left|eapply Hup; [done|]..]; [|by apply Ha..].
  apply not_true_iff_false. intros Hp. by rewrite (terminal_final _ _ Hp) in Hal.
Qed.

Lemma steps_windowed s os s' :
  steps hash s os s' → log_ok hash s → runs_ok (rows (runs (db s))) → windowed (db s) →
  log_ok hash s' ∧ runs_ok (rows (runs (db s'))) ∧ windowed (db s') ∧
  ∀ r, r ∈ rows (runs (db s)) → terminalRunPhases (uPhase r) = true → r ∈ rows (runs (db s')).
Proof.
  induction 1 as [s|s o s1 os s2 Hs _ IH]; intros Hl Hok Hw; [done|].
  destruct (step_log hash _ _ _ Hs Hl) as [Hl1 _]. pose proof (step_runs hash _ _ _ Hs Hl) as Hst.
  destruct (IH Hl1 (runStep_ok _ _ Hst Hok) (step_windowed _ _ _ Hs Hl Hok Hw)) as (H1 & H2 & H3 & H4).
  split_and!; try done. intros r Hr Ht. apply H4; [|done]. by eapply runStep_final.
Qed.

End steps.

(** * Reading a closed window *)

(** What is left of an ordered list after its first part. *)
Lemma drop_ordered n a l :
  ordered l → (∀ r, r ∈ l → a < event_id r) → (1 ≤ n)%nat →
  select (λ r, endOf a (take n l) <? event_id r) l = drop n l.
Proof.
  revert n a. induction l as [|r l IH]; intros n a Hl Ha Hn; [by destruct n|].
  apply ordered_cons in Hl as [Hl Hr]. destruct n as [|n]; [lia|]. cbn [take drop].
  rewrite endOf_cons.
  assert (Hge : event_id r ≤ endOf (event_id r) (take n l)).
  { apply endOf_ge; [by apply ordered_take|].
    intros x (i & Hx%list_elem_of_lookup_2%Hr & _)%elem_of_take. lia. }
  change (select ?p (r :: l)) with (if p r then r :: select p l else select p l). cbv beta.
  rewrite (proj2 (Z.ltb_ge _ _) Hge). destruct n as [|n].
  - cbn [take drop]. change (endOf (event_id r) []) with (event_id r).
    rewrite (select_ext _ (λ _, true)); [|by intros x Hx%Hr; apply Z.ltb_lt].
    clear. induction l; [done|]. cbn. by f_equal.
  - apply IH; [done|done|lia].
Qed.

Section window.
Context (text : json → string) (hash : Envelope → string).

Abbreviation logOf s := (rows (events (db s))).

(** The events a query asks for. *)
Definition asked (q : Query) (a : Z) (u : option Z) (ks : list string) (l : list EventRow)
    : list EventRow :=
  select (matching text a u (QVMID q) (QKind q) ks) l.

Lemma page_take q a u ks n s :
  QTail q = false → checkQuery q = Ok (a, u, ks, n) → log_ok hash s →
  let page := take (Z.to_nat n) (asked q a u ks (logOf s)) in
  ∃ next lat, Query_ text q (db s) = Ok (mkQueryResult (withCursor <$> page) next lat) ∧
    cursorOf "after" next 0 = Ok (endOf a page) ∧ (page = [] → next = QAfter q).
Proof.
  intros Ht Hq Hl page. unfold Query_. rewrite Hq, Ht. unfold pageOf.
  pose proof (log_ordered hash s Hl) as Ho.
  rewrite ordered_sort by by apply ordered_select. fold (asked q a u ks (logOf s)). fold page.
  eexists _, _. split; [reflexivity|]. split; [|by intros ->]. unfold endOf.
  destruct (last page) as [r|] eqn:E; [|by eapply checkQuery_after].
  apply cursorOf_format. apply last_Some_elem_of in E.
  assert (Hr : r ∈ logOf s).
  { unfold page in E. apply elem_of_take in E as (i & E%list_elem_of_lookup_2 & _).
    unfold asked in E. by apply elem_of_select in E as [E _]. }
  pose proof (lo_range hash s Hl r Hr). pose proof (lo_seq hash s Hl). lia.
Qed.

Lemma asked_after q a u ks l r : r ∈ asked q a u ks l → a < event_id r.
Proof. unfold asked. by intros [_ [?%Z.ltb_lt _]%andb_true_iff]%elem_of_select. Qed.

(** The next page starts where the last ended. *)
Lemma asked_next q a u ks n l :
  ordered l → (1 ≤ n)%nat →
  asked q (endOf a (take n (asked q a u ks l))) u ks l = drop n (asked q a u ks l).
Proof.
  intros Hl Hn. set (a' := endOf a (take n (asked q a u ks l))).
  assert (Ha : a ≤ a').
  { apply endOf_ge; [by apply ordered_take, ordered_select|].
    intros r (i & Hr%list_elem_of_lookup_2%asked_after & _)%elem_of_take. lia. }
  rewrite <- (drop_ordered n a (asked q a u ks l)); [|by apply ordered_select|apply asked_after|done].
  fold a'. unfold asked. rewrite select_select. apply select_ext. intros r _. unfold matching.
  destruct (Z.ltb_spec a' (event_id r)), (Z.ltb_spec a (event_id r)); rewrite ?andb_true_r, ?andb_false_r; try done; lia.
Qed.

(** A window that ends at an event of the log: what is appended later is not asked for. *)
Lemma asked_closed q a u ks s s' os ev :
  log_ok hash s → steps hash s os s' → ev ∈ logOf s → event_id ev = u →
  asked q a (Some u) ks (logOf s') = asked q a (Some u) ks (logOf s).
Proof.
  intros Hl Hs Hev <-. destruct (log_behind hash s s' os (event_id ev) Hl Hs) as (tl & -> & Htl); [eauto|].
  unfold asked. rewrite select_app, (select_none _ tl); [by rewrite app_nil_r|].
  intros r Hr%Htl. unfold matching, wanted. rewrite (proj2 (Z.leb_gt _ _)) by lia. cbn [andb].
  by rewrite andb_false_r.
Qed.

(** Pages over a closed window: the first [k] of them hold its first [k] times [n]
    events. *)
Lemma pages_closed q a u ks n L s ss :
  QTail q = false → checkQuery q = Ok (a, Some u, ks, n) → log_ok hash s → growing hash s ss →
  ordered L → (∀ x os, steps hash s os x → ∀ a, asked q a (Some u) ks (logOf x) = asked q a (Some u) ks L) →
  ∃ es c, readPages text q (db <$> s :: ss) = Ok (es, c) ∧
    es = withCursor <$> take (S (length ss) * Z.to_nat n) (asked q a (Some u) ks L).
Proof.
  revert q a s. induction ss as [|s1 ss IH]; intros q a s Ht Hq Hl Hg Ho Hc;
    pose proof (checkQuery_limit _ _ _ _ _ Hq) as Hn;
    destruct (page_take q a (Some u) ks n s Ht Hq Hl) as (next & lat & HQ & Hnext & _);
    rewrite (Hc s [] (steps_nil hash s)) in HQ, Hnext.
  - exists (withCursor <$> take (Z.to_nat n) (asked q a (Some u) ks L)), next.
    cbn [fmap list_fmap readPages]. rewrite HQ. cbn [Page NextAfter readPages afterCursor QAfter length].
    rewrite app_nil_r, Nat.mul_1_l. done.
  - destruct Hg as [[os Hs] Hg]. destruct (steps_log hash _ _ _ Hs Hl) as [Hl1 _].
    destruct (IH (afterCursor q next) _ s1 Ht (checkQuery_next q next a (Some u) ks n _ Hq Hnext) Hl1 Hg Ho)
      as (es & c & HR & Hes).
    { intros x os' Hx. apply (Hc x (os ++ os')). apply steps_app. eauto. }
    eexists _, c. split.
    { change (db <$> s :: s1 :: ss) with (db s :: (db <$> s1 :: ss)).
      cbn [readPages]. rewrite HQ. cbn [NextAfter Page]. by rewrite HR. }
    rewrite Hes. change (asked (afterCursor q next)) with (asked q). rewrite asked_next by (done || lia).
    rewrite <- fmap_app. f_equal. by rewrite take_take_drop.
Qed.

End window.

(** * The report *)

Lemma Families_sorted : StronglySorted String.le Families.
Proof. unfold Families. apply StronglySorted_merge_sort; apply _. Qed.

Lemma summary_families : Forall (λ f, f ∈ Families) ["net.flow"; "dns"; "policy"; "fs"].
Proof.
  assert (H : forallb (λ f, existsb (String.eqb f) Families) ["net.flow"; "dns"; "policy"; "fs"] = true)
    by (vm_compute; reflexivity).
  apply Forall_forall. intros f Hf. rewrite forallb_forall in H. apply list_elem_of_In, H in Hf.
  apply existsb_exists in Hf as (x & Hx & ->%String.eqb_eq). by apply list_elem_of_In.
Qed.

(** A target whose pages, read to the end at any time from [s] on, hold [n] events. *)
Definition reproduces (text : json → string) (hash : Envelope → string) (s : Store) (n : Z)
    (target : string) : Prop :=
  ∃ q, eventsQuery (params target) = Ok q ∧
    ∀ s' ss os, steps hash s os s' → growing hash s' ss →
      n ≤ DefaultPageLimit * Z.of_nat (S (length ss)) →
      ∃ es c, readPages text q (db <$> s' :: ss) = Ok (es, c) ∧ Z.of_nat (length es) = n.

Lemma addBoots_spec es ids :
  NoDup ids →
  NoDup (fold_left addBoot es ids) ∧
  ∀ b, b ∈ fold_left addBoot es ids ↔ b ∈ ids ∨ ∃ e, e ∈ es ∧ bootIDOf e = Some b.
Proof.
  revert ids. induction es as [|e es IH]; intros ids Hn; cbn [fold_left].
  { split; [done|]. intros b. set_solver. }
  assert (Hadd : NoDup (addBoot ids e) ∧ ∀ b, b ∈ addBoot ids e ↔ b ∈ ids ∨ bootIDOf e = Some b).
  { unfold addBoot. destruct (bootIDOf e) as [b|] eqn:E; [|by split; [|set_solver]].
    destruct (existsb (String.eqb b) ids) eqn:Eb.
    - split; [done|]. apply existsb_exists in Eb as (x & Hx%list_elem_of_In & <-%String.eqb_eq). set_solver.
    - assert (Hb : b ∉ ids).
      { intros Hb. apply not_true_iff_false in Eb. apply Eb, existsb_exists. exists b.
        split; [by apply list_elem_of_In|apply String.eqb_refl]. }
      split; [|set_solver]. apply NoDup_app. split_and!; [done|set_solver|apply NoDup_singleton]. }
  destruct Hadd as [Hn' Hb]. destruct (IH _ Hn') as [H1 H2]. split; [done|]. intros b.
  rewrite H2, Hb. set_solver.
Qed.

Lemma select_single p l e :
  ordered l → e ∈ l → p e = true → (∀ x, x ∈ l → p x = true → event_id x = event_id e) →
  select p l = [e].
Proof.
  intros Ho He Hp Hx'. induction l as [|x l IH]; [by apply elem_of_nil in He|].
  apply ordered_cons in Ho as [Ho Hx]. cbn. apply elem_of_cons in He as [<-|He].
  - rewrite Hp. f_equal. apply select_none. intros y Hy. apply not_true_iff_false. intros Hpy.
    pose proof (Hx y Hy). pose proof (Hx' y ltac:(by right) Hpy). lia.
  - assert (Hpx : p x = false).
    { apply not_true_iff_false. intros Hpx. pose proof (Hx e He). pose proof (Hx' x ltac:(by left) Hpx). lia. }
    rewrite Hpx. apply IH; [done|done|]. intros y Hy. apply Hx'. by right.
Qed.

Section query.
Context (text : json → string) (hash : Envelope → string).

#[local] Opaque Families KindsByFamily.

Lemma reproduce_params vm family after until :
  UUIDString vm = true → plainText family → 0 ≤ after ≤ Int.MaxInt64 → 0 ≤ until ≤ Int.MaxInt64 →
  params (reproduce vm family after until) =
    [("vm_id", vm); ("family", family); ("after", Strconv.FormatInt after);
     ("until", Strconv.FormatInt until)].
Proof.
  intros Hv Hf Ha Hu.
  rewrite <- (params_written "/api/v1/events" [("vm_id", vm); ("family", family);
    ("after", Strconv.FormatInt after); ("until", Strconv.FormatInt until)]).
  - unfold reproduce, written, written1. cbn [fst snd]. rewrite !append_assoc. reflexivity.
  - reflexivity.
  - repeat constructor; cbn [fst snd]; auto using plain_uuid, plain_decimal; repeat constructor.
Qed.

Lemma Families_kinds f :
  f ∈ Families → (length (KindsByFamily f) =? 0)%nat = false ∧ (f =? "")%string = false ∧ plainText f.
Proof.
  assert (H : forallb (λ f, negb (length (KindsByFamily f) =? 0)%nat && negb (f =? "")%string &&
    forallb plain (String.list_ascii_of_string f)) Families = true) by (vm_compute; reflexivity).
  intros Hf. rewrite forallb_forall in H. apply list_elem_of_In, H in Hf.
  rewrite !andb_true_iff, !negb_true_iff in Hf. destruct Hf as [[H1 H2] H3]. split_and!; [done|done|].
  unfold plainText. apply Forall_forall. intros a Ha. rewrite forallb_forall in H3.
  by apply H3, list_elem_of_In.
Qed.

Definition windowQuery (vm family : string) (after until : Z) : Query :=
  mkQuery (Some vm) "" family (Strconv.FormatInt after) (Strconv.FormatInt until) 0 false.

Lemma reproduce_query vm family after until :
  UUIDString vm = true → family ∈ Families → 0 ≤ after ≤ Int.MaxInt64 → 0 ≤ until ≤ Int.MaxInt64 →
  eventsQuery (params (reproduce vm family after until)) = Ok (windowQuery vm family after until) ∧
  checkQuery (windowQuery vm family after until) =
    Ok (after, Some until, KindsByFamily family, DefaultPageLimit).
Proof.
  intros Hv Hf Ha Hu. destruct (Families_kinds family Hf) as (Hk & Hne & Hp).
  assert (Hvm : (vm =? "")%string = false) by (apply String.eqb_neq; by intros ->).
  assert (Hf' : ∀ v, (Strconv.FormatInt v =? "")%string = false)
    by (intros v; apply String.eqb_neq, Strconv.FormatUint_nonempty).
  split.
  - rewrite reproduce_params by done. unfold eventsQuery.
    set (l := [_; _; _; _]).
    change (get "vm_id" l) with vm. change (get "kind" l) with "".
    change (get "family" l) with family. change (get "until" l) with (Strconv.FormatInt until).
    change (get "limit" l) with "". change (get "tail" l) with "".
    change (get "after" l) with (Strconv.FormatInt after). clear l.
    change ("" =? "")%string with true.
    rewrite Hvm, Hv, Hne, Hk, Hf', (proj2 (DecimalString_FormatInt until)) by lia. reflexivity.
  - unfold checkQuery, windowQuery. cbn [QKind QFamily QLimit QAfter QUntil].
    change ("" =? "")%string with true. rewrite Hne, Hk, !cursorOf_format by done.
    change (0 =? 0) with true. cbn [negb andb]. rewrite (proj2 (Z.leb_le 0 until)) by lia. reflexivity.
Qed.

Lemma count_asked vm family after until d :
  (length (KindsByFamily family) =? 0)%nat = false →
  CountEventsForReport text vm family after until d =
  Z.of_nat (length (asked text (windowQuery vm family after until) after (Some until)
    (KindsByFamily family) (rows (events d)))).
Proof.
  intros Hk. unfold CountEventsForReport. rewrite Hk. do 2 f_equal. unfold asked. apply select_ext.
  intros r _. unfold inWindow, matching, wanted, windowQuery. cbn [QVMID QKind].
  change ("" =? "")%string with true. rewrite Hk. cbn [orb andb].
  destruct (after <? event_id r), (event_id r <=? until); cbn [andb]; try done.
  rewrite andb_true_r. apply andb_comm.
Qed.

Definition bootEvents (vm : string) (after until : Z) (l : list EventRow) : list EventRow :=
  asked text (bootQuery vm "" "") after (Some until) [] l.

(** The parts of a report that are settled when the run is: everything but the
    profile of the VM, the attention items and the flag that there are too many. *)
Definition settledReport (r : Run) (s : AStore_) : Report :=
  let vm := uVMID r in
  let a := uCreatedEventID r in
  let u := uConcludedEventID r in
  let n f := counted text (λ _, s) 0 vm f a u in
  mkReport 1 (uRunID r) vm
    (fold_left addBoot (withCursor <$> bootEvents vm a u (rows (events (db (abase s))))) [])
    (uGoal r) (uCriteriaType r)
    (mkOutcome (uPhase r) (uEvaluatedBy r) (uReason r) (evidenceLinks r))
    (mkTiming (uCreatedAt r)
       (if (uStartedAt r =? "")%string then None else Some (uStartedAt r)) (uConcludedAt r))
    [] (buildEventRollup text (λ _, s) 0 vm a u) (mkCoverage "unavailable" [theGap])
    (mkNetwork "" (n "net.flow") (n "dns") (n "policy"))
    (mkFilesystem (n "fs") (mkFinalDiff "not_requested" None None None ""))
    [] [] (mkQualityBlock false false [])
    (mkLinks ("/api/v1/runs/" +:+ uRunID r) ("/api/v1/vms/" +:+ vm)
       ("/api/v1/events?vm_id=" +:+ vm +:+ "&after=" +:+ Strconv.FormatInt a +:+
        "&until=" +:+ Strconv.FormatInt u) "").

Definition settled (p : Report) : Report :=
  mkReport (RSchemaVersion p) (RRunID p) (RVMID p) (RBootIDs p) (RGoal p) (RSuccessCriteria p)
    (ROutcome p) (RTiming p) (RExecs p) (REventRollup p) (RCoverage p)
    (mkNetwork "" (wFlows (RNetworkSummary p)) (wDNSQueries (RNetworkSummary p))
       (wPolicyDenials (RNetworkSummary p)))
    (RFilesystemSummary p) (RArtifacts p) [] (mkQualityBlock false false []) (RLinks p).

(** ** Reads at different times *)

Context (s0 : AStore_) (r : Run) (ev : EventRow).
Context (Hl : log_ok hash (abase s0)) (Hev : ev ∈ rows (events (db (abase s0)))).
Context (Hid : event_id ev = uConcludedEventID r).
Context (Ha : 0 ≤ uCreatedEventID r ≤ Int.MaxInt64) (Hu : 0 ≤ uConcludedEventID r ≤ Int.MaxInt64).

Abbreviation vm := (uVMID r).
Abbreviation a := (uCreatedEventID r).
Abbreviation u := (uConcludedEventID r).

Definition later (s : AStore_) : Prop := ∃ os, steps hash (abase s0) os (abase s).

Lemma asked_later q c ks s :
  later s → asked text q c (Some u) ks (rows (events (db (abase s)))) =
            asked text q c (Some u) ks (rows (events (db (abase s0)))).
Proof. intros [os Hs]. by eapply asked_closed. Qed.

Lemma count_later f s :
  later s → CountEventsForReport text vm f a u (db (abase s)) =
            CountEventsForReport text vm f a u (db (abase s0)).
Proof.
  intros Hs. destruct (length (KindsByFamily f) =? 0)%nat eqn:E.
  - unfold CountEventsForReport. by rewrite E.
  - by rewrite !count_asked, asked_later.
Qed.

Lemma counted_later st i f :
  later (st i) → counted text st i vm f a u = counted text (λ _, s0) 0 vm f a u.
Proof. intros Hs. unfold counted. by rewrite count_later. Qed.

Lemma rollup_later st i :
  (∀ k, later (st k)) → buildEventRollup text st i vm a u = buildEventRollup text (λ _, s0) 0 vm a u.
Proof.
  intros Hs. unfold buildEventRollup. do 2 f_equal. apply imap_ext. intros k f _.
  unfold rollupRow. by rewrite count_later.
Qed.

Lemma bootQuery_check c z :
  cursorOf "after" c 0 = Ok z →
  checkQuery (bootQuery vm c (Strconv.FormatInt u)) = Ok (z, Some u, [], 1000).
Proof.
  intros Hc. unfold checkQuery, bootQuery. cbn [QKind QFamily QLimit QAfter QUntil].
  rewrite Hc, cursorOf_format by done. cbn. by rewrite (proj2 (Z.leb_le 0 u)) by lia.
Qed.

Lemma later_log s : later s → log_ok hash (abase s).
Proof. intros [os Hs]. by apply (steps_log hash _ _ _ Hs). Qed.

(** All boots of the window, whatever else is appended between the pages. *)
Lemma bootPages_all st fuel i c z ids :
  (∀ k, later (st k)) → cursorOf "after" c 0 = Ok z →
  (length (bootEvents vm z u (rows (events (db (abase s0))))) < fuel)%nat →
  ∃ j, bootPages text st fuel i vm c (Strconv.FormatInt u) ids =
    Some (Ok (fold_left addBoot
      (withCursor <$> bootEvents vm z u (rows (events (db (abase s0))))) ids, j)).
Proof.
  intros Hs. revert i c z ids. induction fuel as [|fuel IH]; intros i c z ids Hc Hf; [lia|].
  destruct (page_take text hash (bootQuery vm c (Strconv.FormatInt u)) _ _ _ _ (abase (st i)) eq_refl (bootQuery_check c z Hc) (later_log _ (Hs i)))
    as (next & lat & HQ & Hnext & _).
  rewrite (asked_later _ _ _ _ (Hs i)) in HQ, Hnext.
  change (asked text (bootQuery vm c (Strconv.FormatInt u)) z (Some u) [])
    with (bootEvents vm z u) in HQ, Hnext.
  set (B := bootEvents vm z u _) in *. cbn [bootPages]. rewrite HQ. cbn [Page NextAfter].
  rewrite length_fmap, length_take. change (Z.to_nat 1000) with 1000%nat in *.
  destruct (Z.ltb_spec (Z.of_nat (1000 `min` length B)) 1000) as [Hlt|Hge].
  - exists (S i). rewrite take_ge by lia. done.
  - assert (Hb : bootEvents vm (endOf z (take 1000 B)) u (rows (events (db (abase s0)))) = drop 1000 B).
    { apply asked_next; [by apply (log_ordered hash)|lia]. }
    destruct (IH (S i) next _ (fold_left addBoot (withCursor <$> take 1000 B) ids) Hnext) as [j Hj].
    { rewrite Hb, length_drop. lia. }
    exists j. rewrite Hj, Hb, <- fold_left_app, <- fmap_app, take_drop. done.
Qed.

Lemma collectBootIDs_all st i :
  (∀ k, later (st k)) →
  ∃ j, collectBootIDs text st i vm a u =
    Some (Ok (fold_left addBoot
      (withCursor <$> bootEvents vm a u (rows (events (db (abase s0))))) [], j)).
Proof.
  intros Hs. apply bootPages_all; [done|by apply cursorOf_format|].
  unfold bootEvents. rewrite <- (asked_later _ _ _ _ (Hs i)). unfold asked, select.
  pose proof (List.filter_length_le (matching text a (Some u) (QVMID (bootQuery vm "" ""))
    (QKind (bootQuery vm "" "")) []) (rows (events (db (abase (st i)))))). lia.
Qed.

(** The report of a concluded run, from reads at any times after its conclusion. *)
Lemma buildReport_settled st v :
  (∀ k, later (st k)) →
  select1 (byRunID (uRunID r)) (rows (runs (db (abase (st 0%nat))))) = Some r →
  terminalRunPhases (uPhase r) = true → uConcludedEventID r ≠ 0 →
  select1 (byVMID vm) (rows (vms (db (abase (st 1%nat))))) = Some v →
  ∃ rep, buildReport text st (uRunID r) = Some (Ok rep) ∧ settled rep = settledReport r s0.
Proof.
  intros Hs Hr Ht Hz Hv. unfold buildReport, GetRun, GetVM, mbind, M_bind, gets, some, mret, M_ret.
  cbn [fst]. rewrite Hr. cbn [fst]. rewrite Ht. cbn [negb]. rewrite (proj2 (Z.eqb_neq _ _) Hz), Hv.
  cbn [fst]. destruct (collectBootIDs_all st 2 Hs) as [j ->].
  destruct (collectAttention st _ vm _ a u) as [att tr]. eexists. split; [reflexivity|].
  unfold settled, settledReport. cbn [RSchemaVersion RRunID RVMID RBootIDs RGoal RSuccessCriteria
    ROutcome RTiming RExecs REventRollup RCoverage RNetworkSummary RFilesystemSummary RArtifacts RLinks
    wFlows wDNSQueries wPolicyDenials].
  rewrite rollup_later by done. by rewrite !(counted_later st) by apply Hs.
Qed.

(** ** Counts *)

Lemma count_reproduces f :
  UUIDString vm = true → f ∈ Families →
  reproduces text hash (abase s0) (CountEventsForReport text vm f a u (db (abase s0)))
    (reproduce vm f a u).
Proof.
  intros Hv Hf. destruct (reproduce_query vm f a u Hv Hf Ha Hu) as [Hq Hc].
  destruct (Families_kinds f Hf) as (Hk & _ & _). exists (windowQuery vm f a u). split; [done|].
  intros s ss os Hs Hg Hn. rewrite count_asked in * by done.
  set (q := windowQuery vm f a u) in *. set (L := rows (events (db (abase s0)))) in *.
  destruct (pages_closed text hash q a u (KindsByFamily f) DefaultPageLimit L s ss eq_refl Hc)
    as (es & c & HR & Hes).
  - by apply (steps_log hash _ _ _ Hs).
  - done.
  - by apply (log_ordered hash).
  - intros x os' Hx z. by eapply asked_closed; [exact Hl|apply steps_app; eauto|exact Hev|].
  - exists es, c. split; [done|]. rewrite Hes, length_fmap, length_take.
    change (Z.to_nat DefaultPageLimit) with 200%nat. unfold DefaultPageLimit in Hn. lia.
Qed.

(** ** The rollup *)

Definition rowFor (f : string) : option EventRollupRow := rollupRow text (λ _, s0) 0 vm a u 0 f.

Lemma rollup_rows :
  buildEventRollup text (λ _, s0) 0 vm a u = merge_sort family_le (omap rowFor Families).
Proof.
  unfold buildEventRollup. generalize Families. intros l.
  change (imap (rollupRow text (λ _, s0) 0 vm a u) l) with (imap (const rowFor) l).
  rewrite imap_const. f_equal. induction l as [|f l IH]; [done|]. cbn. unfold id.
  destruct (rowFor f); [by f_equal|done].
Qed.

Lemma rowFor_spec f row :
  rowFor f = Some row ↔
  CountEventsForReport text vm f a u (db (abase s0)) ≠ 0 ∧
  row = mkRollup f (CountEventsForReport text vm f a u (db (abase s0))) (reproduce vm f a u).
Proof.
  unfold rowFor, rollupRow. cbv zeta. destruct (Z.eqb_spec (CountEventsForReport text vm f a u (db (abase s0))) 0);
    naive_solver.
Qed.

#[local] Instance family_le_trans : Transitive family_le.
Proof. intros x y z. unfold family_le. apply transitivity. Qed.
#[local] Instance family_le_total : Total family_le.
Proof. intros x y. unfold family_le. apply total, _. Qed.

(** The families are ordered, and so are the rows. *)
Lemma rows_sorted l : StronglySorted String.le l → StronglySorted family_le (omap rowFor l).
Proof.
  induction 1 as [|f l _ IH Hf]; [constructor|]. cbn. destruct (rowFor f) as [row|] eqn:E; [|done].
  constructor; [done|]. apply Forall_forall. intros row' (f' & Hf' & E')%list_elem_of_omap.
  apply rowFor_spec in E as [_ ->]. apply rowFor_spec in E' as [_ ->]. unfold family_le. cbn.
  rewrite Forall_forall in Hf. by apply Hf.
Qed.

Lemma rollup_sorted : buildEventRollup text (λ _, s0) 0 vm a u = omap rowFor Families.
Proof.
  rewrite rollup_rows. apply (StronglySorted_unique_strong family_le).
  - intros x y Hx (g & _ & Ey)%list_elem_of_omap H1 H2. rewrite merge_sort_Permutation in Hx.
    apply list_elem_of_omap in Hx as (f & _ & Ex).
    apply rowFor_spec in Ex as [_ ->]. apply rowFor_spec in Ey as [_ ->]. unfold family_le in *.
    cbn [fFamily] in *. by rewrite (anti_symm String.le f g H1 H2).
  - apply StronglySorted_merge_sort; apply _.
  - apply rows_sorted, Families_sorted.
  - apply merge_sort_Permutation.
Qed.

Lemma rollup_families :
  fFamily <$> buildEventRollup text (λ _, s0) 0 vm a u =
  filter (λ f, CountEventsForReport text vm f a u (db (abase s0)) ≠ 0) Families.
Proof.
  rewrite rollup_sorted. generalize Families. intros l. induction l as [|f l IH]; [done|].
  rewrite filter_cons. cbn [omap list_omap].
  destruct (rowFor f) as [row|] eqn:E.
  - apply rowFor_spec in E as [E ->]. rewrite decide_True by done. rewrite fmap_cons. by f_equal.
  - rewrite decide_False; [done|]. intros Hn.
    by rewrite (proj2 (rowFor_spec f _) (conj Hn eq_refl)) in E.
Qed.

Lemma rollup_reproduces row :
  UUIDString vm = true → row ∈ buildEventRollup text (λ _, s0) 0 vm a u →
  0 < fCount row ∧ reproduces text hash (abase s0) (fCount row) (fReproduceQuery row).
Proof.
  intros Hv. rewrite rollup_sorted. intros (f & Hf & [Hn ->]%rowFor_spec)%list_elem_of_omap.
  cbn [fCount fReproduceQuery]. split; [|by apply count_reproduces].
  destruct (Families_kinds f Hf) as (Hk & _ & _). rewrite count_asked in * by done. lia.
Qed.

Lemma count_nonzero f :
  CountEventsForReport text vm f a u (db (abase s0)) ≠ 0 ↔
  select (inWindow text vm (KindsByFamily f) a u) (rows (events (db (abase s0)))) ≠ [].
Proof.
  unfold CountEventsForReport. destruct (KindsByFamily f) as [|k ks] eqn:E.
  - cbn [length Nat.eqb]. split; [done|]. intros H. destruct H. apply select_none.
    intros x _. unfold inWindow. cbn [existsb]. by rewrite andb_false_r.
  - cbn [length Nat.eqb]. destruct (select _ _); cbn [length]; [done|]. split; [done|lia].
Qed.

(** ** Boots *)

Lemma bootEvents_spec l b :
  (∃ e, e ∈ withCursor <$> bootEvents vm a u l ∧ bootIDOf e = Some b) ↔
  ∃ x, x ∈ l ∧ a < event_id x ≤ u ∧ kind x = "vm.state_changed" ∧
    (vm_id x = Some vm ∨ dataVMID text (payload x) = Some vm) ∧ bootIDOf (payload x) = Some b.
Proof.
  assert (Hx : ∀ x, matching text a (Some u) (Some vm) "vm.state_changed" [] x = true ↔
    a < event_id x ≤ u ∧ kind x = "vm.state_changed" ∧
    (vm_id x = Some vm ∨ dataVMID text (payload x) = Some vm)).
  { intros x. unfold matching, wanted. cbn [length Nat.eqb orb].
    change ("vm.state_changed" =? "")%string with false. cbn [orb].
    rewrite !andb_true_iff, orb_true_iff, Z.ltb_lt, Z.leb_le, String.eqb_eq.
    assert (Hi : ∀ o, isText o vm = true ↔ o = Some vm).
    { intros [y|]; cbn; [rewrite String.eqb_eq; naive_solver|done]. }
    rewrite !Hi. naive_solver. }
  split.
  - intros (e & (x & -> & Hin)%list_elem_of_fmap & Hb). apply elem_of_select in Hin as [Hin Hm%Hx].
    exists x. naive_solver.
  - intros (x & Hin & Hi & Hk & Hv & Hb). exists (withCursor x). split; [|done].
    apply list_elem_of_fmap_2, elem_of_select. split; [done|]. apply Hx. done.
Qed.

(** ** The event behind the outcome *)

Definition outcomeLink : string :=
  "/api/v1/events?family=run&vm_id=" +:+ vm +:+ "&after=" +:+
  Strconv.FormatInt (u - 1) +:+ "&until=" +:+ Strconv.FormatInt u.

Definition outcomeQuery : Query :=
  mkQuery (Some vm) "" "run" (Strconv.FormatInt (u - 1)) (Strconv.FormatInt u) 0 false.

Lemma outcome_query :
  UUIDString vm = true → 1 ≤ u →
  eventsQuery (params outcomeLink) = Ok outcomeQuery ∧
  checkQuery outcomeQuery = Ok (u - 1, Some u, KindsByFamily "run", DefaultPageLimit).
Proof.
  intros Hv Hp.
  assert (Hvm : (vm =? "")%string = false) by (apply String.eqb_neq; intros E; by rewrite E in Hv).
  assert (Hf' : ∀ v, (Strconv.FormatInt v =? "")%string = false)
    by (intros v; apply String.eqb_neq, Strconv.FormatUint_nonempty).
  destruct (Families_kinds "run") as (Hk & _ & _).
  { apply list_elem_of_In. vm_compute. tauto. }
  set (l := [("family", "run"); ("vm_id", vm); ("after", Strconv.FormatInt (u - 1));
    ("until", Strconv.FormatInt u)]).
  assert (Hl' : params outcomeLink = l).
  { rewrite <- (params_written "/api/v1/events" l).
    - unfold outcomeLink, l, written, written1. cbn [fst snd]. rewrite !append_assoc. reflexivity.
    - reflexivity.
    - unfold l. repeat constructor; cbn [fst snd]; auto using plain_uuid; try apply plain_decimal; try lia; repeat constructor. }
  split.
  - rewrite Hl'. unfold eventsQuery.
    change (get "vm_id" l) with vm. change (get "kind" l) with "".
    change (get "family" l) with "run". change (get "until" l) with (Strconv.FormatInt u).
    change (get "limit" l) with "". change (get "tail" l) with "".
    change (get "after" l) with (Strconv.FormatInt (u - 1)). clear l Hl'.
    change ("" =? "")%string with true. change ("run" =? "")%string with false.
    rewrite Hvm, Hv. cbn [negb andb]. rewrite Hk, Hf', (proj2 (DecimalString_FormatInt u)) by lia. reflexivity.
  - unfold checkQuery, outcomeQuery. cbn [QKind QFamily QLimit QAfter QUntil].
    change ("" =? "")%string with true. change ("run" =? "")%string with false. cbv iota.
    rewrite Hk, !cursorOf_format by lia.
    change (0 =? 0) with true. cbn [negb andb]. rewrite (proj2 (Z.leb_le 0 u)) by lia. reflexivity.
Qed.

Lemma outcome_event s os :
  UUIDString vm = true → kind ev = "run.state_changed" → dataStr ev "vm_id" = Some vm →
  steps hash (abase s0) os s →
  ∃ next lat, handleEvents text outcomeLink (db s) =
    EventsResponse (mkQueryResult [withCursor ev] next lat).
Proof.
  intros Hv Hk Hd Hs. assert (Hp : 1 ≤ u).
  { pose proof (lo_range hash _ Hl ev Hev). lia. }
  destruct (outcome_query Hv Hp) as [Hq Hc]. destruct (steps_log hash _ _ _ Hs Hl) as [Hls (tl & Etl & _)].
  destruct (page_take text hash outcomeQuery _ _ _ _ s eq_refl Hc Hls) as (next & lat & HQ & _).
  exists next, lat. unfold handleEvents. rewrite Hq, HQ. do 3 f_equal.
  assert (E : asked text outcomeQuery (u - 1) (Some u) (KindsByFamily "run") (rows (events (db s))) = [ev]).
  { apply select_single; [by apply (log_ordered hash)|rewrite Etl; apply elem_of_app; by left| |].
    - unfold matching, wanted, outcomeQuery. cbn [QVMID QKind].
      rewrite (proj2 (Z.ltb_lt _ _)), (proj2 (Z.leb_le _ _)) by lia.
      assert (Hdv : isText (dataVMID text (payload ev)) vm = true).
      { unfold dataStr in Hd. unfold dataVMID. destruct (Data (payload ev)) as [o|]; [|done].
        cbn. destruct (field o "vm_id") as [[]|]; try done. simplify_eq. cbn. apply String.eqb_refl. }
      rewrite Hdv, Hk, orb_true_r. vm_compute. reflexivity.
    - intros x _. unfold matching, wanted. rewrite !andb_true_iff, Z.ltb_lt, Z.leb_le. lia. }
  rewrite E. reflexivity.
Qed.

End query.

(** * Theorems *)

Section theorems.
Context (text : json → string) (hash : Envelope → string) (redact : string → string * bool).
Context (inst : string).

(** Reads, one after the other, of a store that goes on changing. *)
Definition reading (st : nat → AStore_) : Prop :=
  asteps hash redact (openA inst) (st 0%nat) ∧ ∀ i, asteps hash redact (st i) (st (S i)).

Record conclusion (s : AStore_) (r : Run) (ev : EventRow) : Prop := {
  cn_log : log_ok hash (abase s);
  cn_event : ev ∈ log s;
  cn_id : event_id ev = uConcludedEventID r;
  cn_kind : kind ev = "run.state_changed";
  cn_run : dataStr ev "run_id" = Some (uRunID r);
  cn_vm : dataStr ev "vm_id" = Some (uVMID r);
  cn_to : dataStr ev "to" = Some (uPhase r);
  cn_after : 0 ≤ uCreatedEventID r ≤ Int.MaxInt64;
  cn_until : 0 ≤ uConcludedEventID r ≤ Int.MaxInt64
}.

Lemma reached_windowed s :
  asteps hash redact (openA inst) s →
  log_ok hash (abase s) ∧ runs_ok (rows (runs (db (abase s)))) ∧ windowed (db (abase s)).
Proof.
  intros Hst. destruct (asteps_base hash redact _ _ Hst (log_ok_empty hash inst)) as [os Hos].
  destruct (steps_windowed hash _ _ _ Hos (log_ok_empty hash inst)) as (H1 & H2 & H3 & _); [|by intros ? ?%elem_of_nil|done].
  split; [constructor|]. by intros ? ? ?%elem_of_nil.
Qed.

Lemma reached_conclusion s run r :
  asteps hash redact (openA inst) s →
  select1 (byRunID run) (rows (runs (db (abase s)))) = Some r → uConcludedEventID r ≠ 0 →
  uRunID r = run ∧ ∃ ev, conclusion s r ev.
Proof.
  intros Hst Hr Hz. destruct (reached_windowed s Hst) as (Hl & _ & Hw).
  apply select1_Some in Hr as [Hr Hid%byRunID_spec]. split; [done|].
  destruct (Hw r Hr) as [(ev0 & H0 & Hi0 & _) Hc]. destruct (Hc Hz) as (_ & _ & ev & (H1 & H2 & H3 & H4 & H5) & H6).
  exists ev. pose proof (lo_range hash _ Hl _ H0). pose proof (lo_range hash _ Hl _ H1).
  pose proof (lo_seq hash _ Hl). split; try done; lia.
Qed.

Lemma reading_later st i : reading st → later hash (st 0%nat) (st i).
Proof.
  intros [H0 Hs]. assert (Hi : asteps hash redact (st 0%nat) (st i)).
  { induction i as [|i IH]; [apply rtc_refl|]. by etrans. }
  apply (asteps_base hash redact _ _ Hi). by apply reached_windowed.
Qed.

Lemma reached_inv s : asteps hash redact (openA inst) s → inv hash (abase s).
Proof.
  intros Hst. destruct (asteps_base hash redact _ _ Hst (log_ok_empty hash inst)) as [os Hos].
  clear Hst. assert (H : ∀ s1 s2 os, steps hash s1 os s2 → inv hash s1 → inv hash s2).
  { clear. induction 1 as [|s o s1 os s2 Hs _ IH]; [done|]. intros Hi. apply IH. by eapply registry_inv_step. }
  by eapply H; [exact Hos|apply inv_empty].
Qed.

(** What a report needs is still there later. *)
Lemma run_stays s s' r :
  asteps hash redact (openA inst) s → asteps hash redact s s' →
  select1 (byRunID (uRunID r)) (rows (runs (db (abase s)))) = Some r →
  terminalRunPhases (uPhase r) = true →
  select1 (byRunID (uRunID r)) (rows (runs (db (abase s')))) = Some r.
Proof.
  intros H0 H1 Hr Ht. destruct (reached_windowed s H0) as (Hl & Hok & Hw).
  destruct (asteps_base hash redact _ _ H1 Hl) as [os Hos].
  destruct (steps_windowed hash _ _ _ Hos Hl Hok Hw) as (_ & Hok' & _ & Hf).
  apply select1_Some in Hr as [Hr Hb].
  apply (select1_unique uRunID _ _ r (ro_ids _ Hok')); [by apply Hf|done|].
  intros r' _ E%byRunID_spec. done.
Qed.

Lemma vm_stays s s' vm v :
  asteps hash redact (openA inst) s → asteps hash redact s s' →
  select1 (byVMID vm) (rows (vms (db (abase s)))) = Some v →
  ∃ v', select1 (byVMID vm) (rows (vms (db (abase s')))) = Some v'.
Proof.
  intros H0 H1 Hv. pose proof (reached_inv s H0) as Hi.
  destruct (asteps_base hash redact _ _ H1 (inv_log hash _ Hi)) as [os Hos].
  apply select1_Some in Hv as [Hv Hb].
  destruct (steps_desc hash _ _ _ v Hos Hi Hv) as (v' & Hv' & n & E & _).
  destruct (select1 (byVMID vm) (rows (vms (db (abase s'))))) as [x|] eqn:Es; [by exists x|].
  apply (proj1 (select1_None _ _) Es) in Hv'. unfold byVMID in *. by rewrite E, Hb in Hv'.
Qed.

(** What a report was made from. *)
Lemma buildReport_Ok st run rep :
  buildReport text st run = Some (Ok rep) →
  ∃ r v, select1 (byRunID run) (rows (runs (db (abase (st 0%nat))))) = Some r ∧
    terminalRunPhases (uPhase r) = true ∧ uConcludedEventID r ≠ 0 ∧
    select1 (byVMID (uVMID r)) (rows (vms (db (abase (st 1%nat))))) = Some v.
Proof.
  unfold buildReport, GetRun, GetVM, mbind, M_bind, gets, some, mret, M_ret, throw. cbn [fst].
  destruct (select1 (byRunID run) _) as [r|]; [|done]. cbn [fst].
  destruct (terminalRunPhases (uPhase r)) eqn:Ht; cbn [negb]; [|done].
  destruct (Z.eqb_spec (uConcludedEventID r) 0) as [|Hz]; [done|].
  destruct (select1 (byVMID (uVMID r)) _) as [v|] eqn:Hv; [|done]. intros _. by exists r, v.
Qed.

End theorems.

(** The counts of a report outside its rollup. *)
Definition summaryCounts (p : Report) : list Counted :=
  [wFlows (RNetworkSummary p); wDNSQueries (RNetworkSummary p); wPolicyDenials (RNetworkSummary p);
   wLiveMutationEvents (RFilesystemSummary p)].

(** A boot the VM went through between two events. *)
Definition bootedIn (text : json → string) (vm : string) (after until : Z) (l : list EventRow)
    (b : string) : Prop :=
  ∃ ev, ev ∈ l ∧ after < event_id ev ≤ until ∧ kind ev = "vm.state_changed" ∧
    (vm_id ev = Some vm ∨ dataVMID text (payload ev) = Some vm) ∧ bootIDOf (payload ev) = Some b.

(** C19: A report does not depend on when it is made. Once a run has been reported on, a
    generation that starts at any later time, while the store goes on changing,
    succeeds and makes the same report, except for the VM's network profile, the
    attention items and the note that there are too many of them. *)
Theorem report_stable text hash redact inst st st' run rep :
  reading hash redact inst st → reading hash redact inst st' →
  asteps hash redact (st 1%nat) (st' 0%nat) → buildReport text st run = Some (Ok rep) →
  ∃ rep', buildReport text st' run = Some (Ok rep') ∧ settled rep' = settled rep.
Proof.
  intros Hrd Hrd' Hlt Hb. destruct (buildReport_Ok text st run rep Hb) as (r & v & Hr & Ht & Hz & Hv).
  destruct (reached_conclusion hash redact inst _ run r (proj1 Hrd) Hr Hz) as [<- [ev Hc]].
  assert (H1 : asteps hash redact (openA inst) (st 1%nat)) by (etrans; [apply Hrd|apply Hrd]).
  assert (H01 : asteps hash redact (st 0%nat) (st' 0%nat)) by (etrans; [apply Hrd|exact Hlt]).
  pose proof (run_stays hash redact inst _ _ r (proj1 Hrd) H01 Hr Ht) as Hr'.
  destruct (vm_stays hash redact inst (st 1%nat) (st' 1%nat) (uVMID r) v H1) as [v' Hv'];
    [by etrans; [exact Hlt|apply Hrd']|done|].
  assert (Hl : ∀ k, later hash (st 0%nat) (st' k)).
  { intros k. destruct (reading_later hash redact inst st' k Hrd') as [os Hos].
    destruct (asteps_base hash redact _ _ H01 (cn_log hash _ _ _ Hc)) as [os0 Hos0].
    exists (os0 ++ os). apply steps_app. eauto. }
  destruct Hc.
  destruct (buildReport_settled text hash (st 0%nat) r ev cn_log0 cn_event0 cn_id0 cn_after0 cn_until0 st v)
    as (rep1 & Hb1 & Hs1); [by intros k; apply (reading_later hash redact inst)|assumption..|].
  destruct (buildReport_settled text hash (st 0%nat) r ev cn_log0 cn_event0 cn_id0 cn_after0 cn_until0 st' v')
    as (rep2 & Hb2 & Hs2); [assumption..|].
  exists rep2. split; [exact Hb2|]. rewrite Hb in Hb1. injection Hb1 as <-. by rewrite Hs1, Hs2.
Qed.

(** C18: A run's report says what the log says, and every count in it can be reproduced.
    Take any execution and reads of the store at any later times while it goes on
    changing. A concluded run of a VM with a well-formed id gets a report. Each row of
    its rollup and each count of its summaries carries a target that the events
    endpoint accepts, and whoever pages through it, then or later, gets exactly that
    many events; the rollup has a row for exactly the families with events in the
    run's window, in order. The boots are those of the window's state changes, each
    once. The first evidence link answers with one event: the one that concluded this
    run with the reported status. *)
Theorem report_reproducible text hash redact inst st run r v :
  reading hash redact inst st →
  select1 (byRunID run) (rows (runs (db (abase (st 0%nat))))) = Some r →
  terminalRunPhases (uPhase r) = true → uConcludedEventID r ≠ 0 →
  select1 (byVMID (uVMID r)) (rows (vms (db (abase (st 1%nat))))) = Some v →
  UUIDString (uVMID r) = true →
  ∃ rep, buildReport text st run = Some (Ok rep) ∧
    (∀ row, row ∈ REventRollup rep → 0 < fCount row ∧
       reproduces text hash (abase (st 0%nat)) (fCount row) (fReproduceQuery row)) ∧
    (∀ c, c ∈ summaryCounts rep →
       reproduces text hash (abase (st 0%nat)) (nCount c) (nReproduceQuery c)) ∧
    fFamily <$> REventRollup rep =
      filter (λ f, select (inWindow text (uVMID r) (KindsByFamily f) (uCreatedEventID r)
                     (uConcludedEventID r)) (log (st 0%nat)) ≠ []) Families ∧
    NoDup (RBootIDs rep) ∧
    (∀ b, b ∈ RBootIDs rep ↔
       bootedIn text (uVMID r) (uCreatedEventID r) (uConcludedEventID r) (log (st 0%nat)) b) ∧
    ∃ link rest ev, bEvidenceLinks (ROutcome rep) = link :: rest ∧
      kind ev = "run.state_changed" ∧ dataStr ev "run_id" = Some run ∧
      dataStr ev "to" = Some (bStatus (ROutcome rep)) ∧
      ∀ s os, steps hash (abase (st 0%nat)) os s →
        ∃ next lat, handleEvents text link (db s) =
          EventsResponse (mkQueryResult [withCursor ev] next lat).
Proof.
  intros Hrd Hr Ht Hz Hv Hu.
  destruct (reached_conclusion hash redact inst _ run r (proj1 Hrd) Hr Hz) as [<- [ev []]].
  destruct (buildReport_settled text hash (st 0%nat) r ev cn_log0 cn_event0 cn_id0 cn_after0 cn_until0 st v)
    as (rep & Hb & Hs); [by intros k; apply (reading_later hash redact inst)|done..|].
  exists rep. split; [done|].
  assert (Hroll : REventRollup rep = buildEventRollup text (λ _, st 0%nat) 0 (uVMID r) (uCreatedEventID r)
    (uConcludedEventID r)) by exact (f_equal REventRollup Hs).
  assert (Hboot : RBootIDs rep = RBootIDs (settledReport text r (st 0%nat))) by exact (f_equal RBootIDs Hs).
  unfold settledReport in Hboot. cbn [RBootIDs] in Hboot.
  assert (Hsum : summaryCounts rep = summaryCounts (settledReport text r (st 0%nat))) by exact (f_equal summaryCounts Hs).
  assert (Hout : ROutcome rep = ROutcome (settledReport text r (st 0%nat))) by exact (f_equal ROutcome Hs).
  split_and!.
  - rewrite Hroll. intros row. by apply (rollup_reproduces text hash (st 0%nat) r ev).
  - rewrite Hsum. unfold summaryCounts, settledReport.
    cbn [RNetworkSummary RFilesystemSummary wFlows wDNSQueries wPolicyDenials wLiveMutationEvents].
    apply Forall_forall. pose proof summary_families as H. rewrite !Forall_cons in H.
    destruct H as (H1 & H2 & H3 & H4 & _).
    repeat (apply Forall_cons; split); [..|apply Forall_nil_2];
      unfold counted; cbn [nCount nReproduceQuery];
      apply (count_reproduces text hash (st 0%nat) r ev cn_log0 cn_event0 cn_id0 cn_after0 cn_until0);
      assumption.
  - rewrite Hroll, rollup_families by assumption. apply list_filter_iff. intros f. apply count_nonzero.
  - rewrite Hboot. apply (addBoots_spec _ [] NoDup_nil_2).
  - intros b. rewrite Hboot, (proj2 (addBoots_spec _ [] NoDup_nil_2)). unfold bootedIn.
    rewrite <- bootEvents_spec by assumption. split; [|intros H; right; exact H].
    intros [H|H]; [destruct (not_elem_of_nil b H)|exact H].
  - rewrite Hout. eexists (outcomeLink r), _, ev. split; [reflexivity|].
    split; [exact cn_kind0|]. split; [exact cn_run0|]. split; [exact cn_to0|]. intros s os Hst.
    apply (outcome_event text hash (st 0%nat) r ev cn_log0 cn_event0 cn_id0 cn_after0 cn_until0 s os); assumption.
Qed.

(** * An execution *)

(** A VM boots, its run is reported to the attention queue and concludes; later the
    item is acknowledged. *)
Definition exBoot : string := "55555555-5555-4555-8555-555555555555".
Definition exStart : TransitionInput :=
  mkTransition exVM None (Some "provisioning") "starting" "test" 1 None None None false false false
    (Some exBoot) None None.
Definition exNotice : RaiseInput :=
  mkRaise "run_concluded" SeverityNeedsDecision (Some exVM) (Some exRun) "run ended" "recorded" [] []
    true 10 "" 0.

Definition exRunOps : list (Env * AOp) :=
  [(exEnv exRun, ABase (OCreateVM (exCreate None (λ _, None) exVM)));
   (exEnv "", ABase (OTransitionVM exStart));
   (exEnv "", ABase (OTransitionRun (exPhase "running")));
   (exEnv "", ARaise exNotice);
   (exEnv "", ABase (OTransitionRun (exPhase "concluding")));
   (exEnv "", ABase (OTransitionRun (exPhase "succeeded")))].

Definition legalAll (o : AOp) (s : AStore_) : bool :=
  match o with
  | ABase o => legalb o (abase s) && forallb (λ k, negb (attentionKind k)) (opKinds o)
  | _ => true
  end.

Fixpoint arun (l : list (Env * AOp)) (s : AStore_) : option AStore_ :=
  match l with
  | [] => Some s
  | (e, o) :: l =>
    if areadyb e s && legalAll o s then arun l (aexec exHash exRedact e o s) else None
  end.

Lemma arun_steps l s s' : arun l s = Some s' → asteps exHash exRedact s s'.
Proof.
  revert s. induction l as [|[e o] l IH]; intros s; cbn [arun]; [intros [= <-]; apply rtc_refl|].
  destruct (areadyb e s) eqn:Hr; [|done]. destruct (legalAll o s) eqn:Ho; [|done]. cbn [andb].
  intros E. eapply rtc_l; [|by apply IH]. exists o. constructor.
  - by apply areadyb_spec.
  - destruct o as [o| | | |]; try done. cbn in Ho. apply andb_true_iff in Ho as [H1 H2].
    split; [by apply legalb_spec|]. intros k. unfold kindIn.
    intros (x & Hx & ->%String.eqb_eq)%existsb_exists. rewrite forallb_forall in H2.
    by apply negb_true_iff, H2.
Qed.

Definition exDone : AStore_ := default (openA exInst) (arun exRunOps (openA exInst)).
Definition exSeen : AStore_ := aexec exHash exRedact (exEnv "") (AAck 1) exDone.

Lemma exDone_steps : asteps exHash exRedact (openA exInst) exDone.
Proof. apply (arun_steps exRunOps). unfold exDone. vm_compute. reflexivity. Qed.

Lemma exSeen_steps : asteps exHash exRedact exDone exSeen.
Proof. apply (arun_steps [(exEnv "", AAck 1)]). vm_compute. reflexivity. Qed.

(** The item is acknowledged after the first read. *)
Definition exReads (i : nat) : AStore_ := match i with O => exDone | S _ => exSeen end.

Lemma exReads_reading : reading exHash exRedact exInst exReads.
Proof.
  split; [exact exDone_steps|]. intros [|i]; [exact exSeen_steps|apply rtc_refl].
Qed.

Lemma exDone_reading : reading exHash exRedact exInst (λ _, exDone).
Proof. split; [exact exDone_steps|intros i; apply rtc_refl]. Qed.

Definition exJSON (_ : json) : string := "".
Definition exRow : Run :=
  default (mkRun 0 "" "" "" "" "" "" false "" "" "" "" "" "" 0 None "" 0 0 "" "" "" "")
    (select1 (byRunID exRun) (rows (runs (db (abase exDone))))).

Lemma exRow_eq : select1 (byRunID exRun) (rows (runs (db (abase exDone)))) = Some exRow.
Proof. vm_compute. reflexivity. Qed.

Lemma report_reproducible_witness :
  ∃ rep, buildReport exJSON exReads exRun = Some (Ok rep) ∧ NoDup (RBootIDs rep) ∧
    (∀ b, b ∈ RBootIDs rep ↔ bootedIn exJSON (uVMID exRow) (uCreatedEventID exRow)
       (uConcludedEventID exRow) (log exDone) b).
Proof.
  assert (Hv : ∃ v, select1 (byVMID (uVMID exRow)) (rows (vms (db (abase exSeen)))) = Some v).
  { vm_compute. eexists. reflexivity. }
  destruct Hv as [v Hv].
  assert (Ht : terminalRunPhases (uPhase exRow) = true) by (vm_compute; reflexivity).
  assert (Hz : uConcludedEventID exRow ≠ 0) by (vm_compute; discriminate).
  assert (Hu : UUIDString (uVMID exRow) = true) by (vm_compute; reflexivity).
  destruct (report_reproducible exJSON exHash exRedact exInst exReads exRun exRow v exReads_reading
    exRow_eq Ht Hz Hv Hu) as (rep & Hb & _ & _ & _ & Hn & Hm & _).
  exists rep. split; [exact Hb|]. split; [exact Hn|exact Hm].
Defined.

Lemma exSeen_reading : reading exHash exRedact exInst (λ _, exSeen).
Proof. split; [etrans; [exact exDone_steps|exact exSeen_steps]|intros i; apply rtc_refl]. Qed.

Definition exReport (s : AStore_) : Report :=
  match buildReport exJSON (λ _, s) exRun with
  | Some (Ok r) => r
  | _ => settledReport exJSON exRow s
  end.

Lemma report_stable_witness :
  ∃ rep', buildReport exJSON (λ _, exSeen) exRun = Some (Ok rep') ∧
    settled rep' = settled (exReport exDone).
Proof.
  assert (Hb : buildReport exJSON (λ _, exDone) exRun = Some (Ok (exReport exDone))).
  { vm_compute. reflexivity. }
  exact (report_stable exJSON exHash exRedact exInst (λ _, exDone) (λ _, exSeen) exRun (exReport exDone)
    exDone_reading exSeen_reading exSeen_steps Hb).
Defined.

(** The exceptions are real: an acknowledgement changes the report, and with it the
    digest of any encoding that shows the flag. *)
Lemma report_depends_on_time :
  (zAcked <$> RAttention (exReport exDone)) = [false] ∧
  (zAcked <$> RAttention (exReport exSeen)) = [true].
Proof. split; vm_compute; reflexivity. Qed.

End ReportRuns.
