(* ===== verification/ReportGen.v ===== *)
(** The report generator beside everything else that happens to the store. *)

From S2P Require Import Prelude Text Events Store RunStore VmStore StoreRules Registry History.
From S2P Require Import RunHistory EventQuery AttentionStore AttentionRules AttentionRuns EventsAPI.
From S2P Require Import Admission Manager ManagerSystem Reports ReportRuns.
Import Events Sql Store Log Runs Vms Rules Registry History RunHistory EventQuery Attention.
Import AttentionRules AttentionRuns EventsAPI Reports ReportRuns.

Local Open Scope Z_scope.

Module ReportGen.

(** * Stored reports *)

Definition stored (run : string) (d : DB) : option RunReport := select1 (byReport run) (run_reports d).

(** A stored report stays. *)
Definition kept (d d' : DB) : Prop := ∀ run p, stored run d = Some p → stored run d' = Some p.

#[local] Instance kept_preorder : PreOrder kept.
Proof. split; [by intros d run p|]. intros d1 d2 d3 H1 H2 run p H. by apply H2, H1. Qed.
#[local] Instance kept_blind : LogBlind kept.
Proof. split; unfold kept, stored; intros; done. Qed.

Ltac keeps_reports :=
  repeat first [keeps_step|apply keeps_modify; intros ?; try unfold updateReservation;
    repeat case_match; by intros ? ?].

Section steps.
Context (hash : Envelope → string).

Lemma keeps_Put e run rep dig op : keeps kept (PutRunReport e run rep dig op).
Proof.
  unfold PutRunReport. keeps_tac. apply keeps_modify. intros d run' p. unfold stored.
  cbn [run_reports set_run_reports]. apply select1_app_l.
Qed.

Lemma reports_step e o s : kept (db s) (db (exec hash e o s)).
Proof.
  assert (Hk : ∀ A (m : M A), keeps kept m → kept (db s) (db (m s).2)).
  { intros A m Hm. destruct (m s) as [r s'] eqn:E. by apply Hm in E. }
  destruct o; cbn [exec]; try (by intros ? ?); apply Hk;
    [apply keeps_Append; apply _|..]; try apply keeps_Put;
    unfold CreateVMWithOperation, createInTx, lookupByIdempotencyKey, replayInTx,
      GetOperation, GetVM, createRefused, createGranted,
      insertVM, insertReservation, createRunInTx, TransitionVM, acquireCompute,
      UpdateOperation, InsertActionOperation, InsertReportOperation, CreateRun, lookupRunByIdempotencyKey,
      TransitionRun, SubmitRunProgress, SubmitRunResult, recordVMStatement,
      ReleaseVMReservations, ClearCleanupDebt, recordBatchOp, scanVMInTx, scanOperationInTx,
      scanRunInTx, bumpVM, reservationTotalsInTx, insertRun, GetRun, insertOperation; keeps_reports.
Qed.

Lemma reports_steps s os s' : steps hash s os s' → kept (db s) (db s').
Proof. induction 1 as [s|s o s1 os s2 [] _ IH]; [done|]. etrans; [apply reports_step|done]. Qed.

End steps.

(** * The generator's calls *)

Section calls.
Context (text : json → string) (hash : Envelope → string) (redact : string → string * bool).
Context (marshal : Report → string) (sha256 : string → string).
Context (genText : GenErr → string) (storeText : StoreErr → string).

Abbreviation reached := (asteps hash redact).
Abbreviation answers_ := (answers text hash redact marshal sha256).
Abbreviation gruns_ := (gruns text hash redact marshal sha256).

Lemma kept_reached s s' :
  log_ok hash (abase s) → reached s s' → kept (db (abase s)) (db (abase s')).
Proof.
  intros Hl Hs. destruct (asteps_base hash redact _ _ Hs Hl) as [os Hos].
  by apply (reports_steps hash _ _ _ Hos).
Qed.

(** Calls that write are operations of the store. *)
Lemma onStore_op {A} (m : M A) e o s a s' :
  aready e s → alegal o s → (∀ b, ∃ x, o = ABase x ∧ exec hash e x b = (m b).2) →
  onStore m s a s' → reached s s'.
Proof.
  intros Hr Hl Ho [E ->]. destruct (Ho (abase s)) as (x & -> & Ex).
  apply rtc_once. exists (ABase x).
  replace (with_base (abase s') s) with (aexec hash redact e (ABase x) s); [by constructor|].
  cbn [aexec]. by rewrite Ex, E.
Qed.

Lemma onStore_read {A} (m : M A) s a s' :
  (m (abase s)).2 = abase s → onStore m s a s' → s' = s.
Proof. intros Hm [E ->]. rewrite E in Hm. cbn in Hm. rewrite Hm. by destruct s. Qed.

Lemma quietKinds l k :
  forallb (λ k, negb (attentionKind k)) l = true → kindIn l k → attentionKind k = false.
Proof.
  intros H. unfold kindIn. intros (x & Hx & ->%String.eqb_eq)%existsb_exists.
  rewrite forallb_forall in H. by apply negb_true_iff, H.
Qed.

Lemma answers_reached e c s a s' : aready e s → answers_ e c s a s' → reached s s'.
Proof.
  intros Hr. destruct c as [run|run|owner vm run|run|run raw dig op|u]; cbn [answers].
  - intros ->%onStore_read; [apply rtc_refl|]. unfold GetRun, mbind, M_bind, gets, some, mret, M_ret, throw.
    by destruct (select1 _ _).
  - intros ->%onStore_read; [apply rtc_refl|done].
  - apply (onStore_op _ e (ABase (OReportOp owner vm run))); [done| |by eexists].
    split; [done|]. intros k. by apply quietKinds.
  - intros (st & <- & Hst & Hl & _). etrans; [apply Hst|exact Hl].
  - apply (onStore_op _ e (ABase (OReport run raw dig op))); [done| |by eexists].
    split; [done|]. intros k. by apply quietKinds.
  - intros [b Hb]. revert Hb. apply (onStore_op _ e (ABase (OUpdateOperation u))); [done| |by eexists].
    split; [done|]. intros k. by apply quietKinds.
Qed.

Lemma gruns_reached p s tr s' : gruns_ p s tr s' → reached s s'.
Proof.
  induction 1 as [s|p s s1 tr s2 H _ IH|e c k s a s1 tr s2 Hr Ha _ IH]; [apply rtc_refl|by etrans|].
  etrans; [by eapply answers_reached|done].
Qed.

(** The next call, after whatever else happened. *)
Lemma gruns_next p s tr s' :
  gruns_ p s tr s' →
  match p with
  | GDone => tr = []
  | GDo c k =>
    ∃ e s1 a s2 tr', reached s s1 ∧ aready e s1 ∧ answers_ e c s1 a s2 ∧ tr = c :: tr' ∧
      gruns_ (k a) s2 tr' s'
  end.
Proof.
  induction 1 as [s|p s s1 tr s2 H _ IH|e c k s a s1 tr s2 Hr Ha Hg _]; [done|..].
  - destruct p as [|c k]; [done|]. destruct IH as (e & s3 & a & s4 & tr' & H1 & H2).
    exists e, s3, a, s4, tr'. split; [by etrans|done].
  - exists e, s, a, s1, tr. split; [apply rtc_refl|done].
Qed.

(** A report is stored by the put, or was there. *)
Lemma put_stored e run raw dig op s a s' :
  answers_ e (CPutRunReport run raw dig op) s a s' →
  (a = Ok tt ∧ stored run (db (abase s')) = Some (mkRunReport run raw dig op (sqlNow e))) ∨
  ∃ p, a = Err (ErrReportImmutable (pDigest p)) ∧ stored run (db (abase s')) = Some p.
Proof.
  intros [E _]. unfold PutRunReport, inTx in E. rewrite gets_bind in E.
  destruct (select1 (byReport run) (run_reports (db (abase s)))) as [p|] eqn:Es.
  - right. exists p. injection E as <- <-. done.
  - left. injection E as <- <-. split; [done|]. unfold stored.
    cbn [run_reports set_run_reports db on]. rewrite select1_app, Es.
    unfold select1, select, byReport. cbn [List.filter pRunID]. by rewrite String.eqb_refl.
Qed.

Lemma conclude_calls u s tr s' : gruns_ (conclude u) s tr s' → tr = [CUpdateOperation u].
Proof.
  intros (e & s1 & a & s2 & tr' & _ & _ & _ & -> & H%gruns_next)%gruns_next. by rewrite H.
Qed.

(** What a generation of a concluded run answers. *)
Lemma generate_answers inst s r v s1 e a s2 :
  reached (openA inst) s → reached s s1 →
  select1 (byRunID (uRunID r)) (rows (runs (db (abase s)))) = Some r →
  terminalRunPhases (uPhase r) = true → uConcludedEventID r ≠ 0 →
  select1 (byVMID (uVMID r)) (rows (vms (db (abase s)))) = Some v →
  answers_ e (CGenerate (uRunID r)) s1 a s2 →
  ∃ rep, settled rep = settledReport text r s ∧
    a = Ok (marshal rep, "sha256:" +:+ sha256 (marshal rep)).
Proof.
  intros H0 H1 Hr Ht Hz Hv (st & Es & Hst & _ & HG).
  assert (Hs : ∀ k, reached s (st k)).
  { intros k. induction k as [|k IH]; [by rewrite Es|]. etrans; [exact IH|apply Hst]. }
  destruct (reached_conclusion hash redact inst s _ r H0 Hr Hz) as [_ [ev []]].
  destruct (vm_stays hash redact inst s (st 1%nat) (uVMID r) v H0 (Hs 1%nat) Hv) as [v' Hv'].
  destruct (buildReport_settled text hash s r ev cn_log0 cn_event0 cn_id0 cn_after0 cn_until0 st v')
    as (rep & Hb & Hset); [|by apply (run_stays hash redact inst s)|assumption..|].
  { intros k. by apply (asteps_base hash redact). }
  exists rep. split; [exact Hset|]. unfold Generate in HG. rewrite Hb in HG. by injection HG as <-.
Qed.

Lemma getRun_answers e run r s a s' :
  select1 (byRunID run) (rows (runs (db (abase s)))) = Some r →
  answers_ e (CGetRun run) s a s' → a = Ok r.
Proof.
  intros Hr [E _]. unfold GetRun, mbind, M_bind, gets, some in E. rewrite Hr in E. by injection E as <- _.
Qed.

End calls.

(** C20: Generating a report stores one, for good. Let a run be concluded and its VM's
    row exist, and let its generator run beside everything else that happens to the
    store, other generators included. If it gets as far as generating, it succeeds: it
    offers the store the encoding of a report with the settled contents under the
    SHA-256 of that encoding and marks its operation as succeeded, and from its end on
    the run has one report that never changes: the one it made, unless another was
    already stored when it offered its own. *)
Theorem report_stored text hash redact marshal sha256 genText storeText inst run r v s tr s' :
  asteps hash redact (openA inst) s →
  select1 (byRunID run) (rows (runs (db (abase s)))) = Some r →
  terminalRunPhases (uPhase r) = true → uConcludedEventID r ≠ 0 →
  select1 (byVMID (uVMID r)) (rows (vms (db (abase s)))) = Some v →
  gruns text hash redact marshal sha256 (MakeReportGenFn genText storeText run) s tr s' →
  CGenerate run ∈ tr →
  ∃ op rep p, settled rep = settledReport text r s ∧
    let digest := "sha256:" +:+ sha256 (marshal rep) in
    tr = [CGetRun run; CHasRunningReportOp run; CInsertReportOperation (uOwner r) (uVMID r) run;
          CGenerate run; CPutRunReport run (marshal rep) digest op; CUpdateOperation (reportDone op)] ∧
    (∀ s'', asteps hash redact s' s'' → stored run (db (abase s'')) = Some p) ∧
    ((∃ now, p = mkRunReport run (marshal rep) digest op now) ∨
     ∃ e s1 s2, asteps hash redact s s1 ∧ asteps hash redact s2 s' ∧
       answers text hash redact marshal sha256 e (CPutRunReport run (marshal rep) digest op) s1
         (Err (ErrReportImmutable (pDigest p))) s2).
Proof.
  intros H0 Hr Ht Hz Hv Hg Hin.
  assert (run = uRunID r) as -> by by apply select1_Some in Hr as [_ ?%byRunID_spec].
  assert (Hl : log_ok hash (abase s)) by by apply (reached_windowed hash redact inst).
  apply gruns_next in Hg as (e1 & x1 & a1 & y1 & t1 & R1 & A1 & B1 & -> & Hg).
  pose proof (answers_reached _ _ _ _ _ _ _ _ _ _ A1 B1) as S1.
  apply (getRun_answers _ _ _ _ _ _ _ r) in B1 as ->; [|by apply (run_stays hash redact inst s)].
  apply gruns_next in Hg as (e2 & x2 & a2 & y2 & t2 & R2 & A2 & B2 & -> & Hg).
  pose proof (answers_reached _ _ _ _ _ _ _ _ _ _ A2 B2) as S2.
  destruct a2 as [[]|]; [apply gruns_next in Hg as ->; set_solver| |apply gruns_next in Hg as ->; set_solver].
  apply gruns_next in Hg as (e3 & x3 & a3 & y3 & t3 & R3 & A3 & B3 & -> & Hg).
  pose proof (answers_reached _ _ _ _ _ _ _ _ _ _ A3 B3) as S3.
  destruct a3 as [op|]; [|apply gruns_next in Hg as ->; set_solver].
  apply gruns_next in Hg as (e4 & x4 & a4 & y4 & t4 & R4 & A4 & B4 & -> & Hg).
  pose proof (answers_reached _ _ _ _ _ _ _ _ _ _ A4 B4) as S4.
  assert (R : asteps hash redact s x4) by (do 6 (etrans; [eassumption|]); exact R4).
  destruct (generate_answers _ _ _ _ _ inst s r v x4 e4 a4 y4 H0 R Hr Ht Hz Hv B4) as (rep & Hset & ->).
  apply gruns_next in Hg as (e5 & x5 & a5 & y5 & t5 & R5 & A5 & B5 & -> & Hg).
  pose proof (answers_reached _ _ _ _ _ _ _ _ _ _ A5 B5) as S5.
  pose proof (gruns_reached _ _ _ _ _ _ _ _ _ Hg) as S6.
  assert (Hl5 : log_ok hash (abase y5)).
  { apply (reached_windowed hash redact inst). do 4 (etrans; [eassumption|]). exact S5. }
  assert (Hfin : ∀ p, stored (uRunID r) (db (abase y5)) = Some p →
    ∀ s'', asteps hash redact s' s'' → stored (uRunID r) (db (abase s'')) = Some p).
  { intros p Hp s'' Hs''. apply (kept_reached hash redact y5); [done| |done]. by etrans. }
  exists op, rep. destruct (put_stored _ _ _ _ _ _ _ _ _ _ _ _ _ B5) as [[-> Hp]|(p & -> & Hp)].
  all: eexists; split; [exact Hset|]; cbv zeta; apply conclude_calls in Hg as ->;
    split; [reflexivity|]; split; [exact (Hfin _ Hp)|].
  - left. by eexists.
  - right. exists e5, x5, y5. split; [|split; [exact S6|exact B5]].
    do 2 (etrans; [eassumption|]). exact R5.
Qed.

(** A generator alone with a concluded run. *)
Definition exMarshal (rep : Report) : string := "{}".
Definition exSha (raw : string) : string := "ab".
Definition exGen : GProg := MakeReportGenFn (λ _, "") (λ _, "") exRun.

Definition onBase {A} (m : M A) (s : AStore_) : AStore_ := with_base (m (abase s)).2 s.
Definition exOpened : AStore_ :=
  onBase (InsertReportOperation exHash (exEnv "") (uOwner exRow) (uVMID exRow) exRun) exDone.
Definition exOpID : Z :=
  match (InsertReportOperation exHash (exEnv "") (uOwner exRow) (uVMID exRow) exRun (abase exDone)).1 with
  | Ok id => id
  | Err _ => 0
  end.
Definition exPut : AStore_ := onBase (PutRunReport (exEnv "") exRun "{}" "sha256:ab" exOpID) exOpened.
Definition exClosed : AStore_ := onBase (UpdateOperation exHash (exEnv "") (reportDone exOpID)) exPut.
Definition exCalls : list GCall :=
  [CGetRun exRun; CHasRunningReportOp exRun; CInsertReportOperation (uOwner exRow) (uVMID exRow) exRun;
   CGenerate exRun; CPutRunReport exRun "{}" "sha256:ab" exOpID; CUpdateOperation (reportDone exOpID)].

Lemma onStore_onBase {A} (m : M A) s a : (m (abase s)).1 = a → onStore m s a (onBase m s).
Proof. intros <-. unfold onStore, onBase. cbn. split; [by destruct (m (abase s))|done]. Qed.

Lemma onStore_same {A} (m : M A) s a : m (abase s) = (a, abase s) → onStore m s a s.
Proof. intros E. split; [exact E|]. by destruct s. Qed.

(** One call, its hypotheses evaluated. *)
Lemma ex_call c k s a s1 tr s2 :
  areadyb (exEnv "") s = true → answers exJSON exHash exRedact exMarshal exSha (exEnv "") c s a s1 →
  gruns exJSON exHash exRedact exMarshal exSha (k a) s1 tr s2 →
  gruns exJSON exHash exRedact exMarshal exSha (GDo c k) s (c :: tr) s2.
Proof. intros H%areadyb_spec. by apply gr_call. Qed.

Lemma exGetRun : GetRun exRun (abase exDone) = (Ok exRow, abase exDone).
Proof. vm_compute. reflexivity. Qed.
Lemma exHasRunning : ManagerSystem.HasRunningReportOp exRun (abase exDone) = (Ok false, abase exDone).
Proof. vm_compute. reflexivity. Qed.
Lemma exOpened_answer :
  (InsertReportOperation exHash (exEnv "") (uOwner exRow) (uVMID exRow) exRun (abase exDone)).1 = Ok exOpID.
Proof. vm_compute. reflexivity. Qed.
Lemma exPut_answer :
  (PutRunReport (exEnv "") exRun "{}" "sha256:ab" exOpID (abase exOpened)).1 = Ok tt.
Proof. vm_compute. reflexivity. Qed.
Lemma exGenerate :
  Generate exJSON (λ _, exOpened) exMarshal exSha exRun = Some (Ok ("{}", "sha256:ab")).
Proof. vm_compute. reflexivity. Qed.
Lemma exDone_ready : areadyb (exEnv "") exDone = true.
Proof. vm_compute. reflexivity. Qed.
Lemma exOpened_ready : areadyb (exEnv "") exOpened = true.
Proof. vm_compute. reflexivity. Qed.
Lemma exPut_ready : areadyb (exEnv "") exPut = true.
Proof. vm_compute. reflexivity. Qed.

Lemma exGen_runs : gruns exJSON exHash exRedact exMarshal exSha exGen exDone exCalls exClosed.
Proof.
  eapply ex_call; [exact exDone_ready|exact (onStore_same _ _ _ exGetRun)|]. cbv beta iota.
  eapply ex_call; [exact exDone_ready|exact (onStore_same _ _ _ exHasRunning)|]. cbv beta iota.
  eapply ex_call; [exact exDone_ready|exact (onStore_onBase _ _ _ exOpened_answer)|]. cbv beta iota.
  eapply (ex_call _ _ _ _ exOpened); [exact exOpened_ready| |].
  { exists (λ _, exOpened). split; [exact eq_refl|]. split; [intros _; apply rtc_refl|].
    split; [apply rtc_refl|exact exGenerate]. }
  cbv beta iota.
  eapply ex_call; [exact exOpened_ready|exact (onStore_onBase _ _ _ exPut_answer)|]. cbv beta iota.
  eapply (ex_call (CUpdateOperation (reportDone exOpID)) _ _ tt exClosed); [exact exPut_ready| |apply gr_done].
  eexists. exact (onStore_onBase (UpdateOperation exHash (exEnv "") (reportDone exOpID)) exPut _ eq_refl).
Qed.

Lemma report_stored_witness :
  ∃ p, ∀ s'', asteps exHash exRedact exClosed s'' → stored exRun (db (abase s'')) = Some p.
Proof.
  assert (Hv : ∃ v, select1 (byVMID (uVMID exRow)) (rows (vms (db (abase exDone)))) = Some v).
  { vm_compute. eexists. reflexivity. }
  destruct Hv as [v Hv].
  assert (Ht : terminalRunPhases (uPhase exRow) = true) by (vm_compute; reflexivity).
  assert (Hz : uConcludedEventID exRow ≠ 0) by (vm_compute; discriminate).
  assert (Hin : CGenerate exRun ∈ exCalls) by (do 3 constructor 2; constructor 1).
  destruct (report_stored exJSON exHash exRedact exMarshal exSha (λ _, "") (λ _, "") exInst exRun exRow v
    exDone exCalls exClosed exDone_steps exRow_eq Ht Hz Hv exGen_runs Hin) as (op & rep & p & _ & _ & H & _).
  exists p. exact H.
Defined.

End ReportGen.
