(* ===== verification/BatchLaunch.v ===== *)
(** The launches behind a batch (internal/runtime/batch.go): one goroutine per
    admitted member, the coordinator they share, the stop wave of a batch that
    stops on failure, and the last write of the batch's operation. *)

From S2P Require Import Prelude Events Store RunStore VmStore StoreRules Registry History.
From S2P Require Import Admission.
From S2P Require Import Manager ManagerSystem.
Import Events Sql Store Log Runs Vms Rules Registry History Admission Manager ManagerSystem.

Local Open Scope Z_scope.

Module BatchLaunch.

(** * Calls *)

(** What the goroutines do to the coordinator, each under its mutex or in one
    atomic operation: [stopWaveStarted]; the test-and-set of [stopped]; the counts
    of outcomes; the countdown, which answers what is left; the two loads. *)
Inductive CoordCall :=
  | KStopWaveStarted
  | KStartWave
  | KCount (ok : bool)
  | KCountdown
  | KSucceeded
  | KFailed.

Inductive BCall :=
  | BBase (c : Call)
  | BCoord (k : CoordCall).

Definition CoordAns (k : CoordCall) : Type :=
  match k with
  | KStopWaveStarted | KStartWave => bool
  | KCount _ => unit
  | KCountdown | KSucceeded | KFailed => Z
  end.

Definition BAns (c : BCall) : Type :=
  match c with BBase c => Ans c | BCoord k => CoordAns k end.

Inductive BProg (A : Type) :=
  | BRet (a : A)
  | BDo (c : BCall) (k : BAns c → BProg A).
Arguments BRet {A} a.
Arguments BDo {A} c k.

#[export] Instance bprog_ret : MRet BProg := λ A a, BRet a.
#[export] Instance bprog_bind : MBind BProg := λ A B f,
  fix go p := match p with BRet a => f a | BDo c k => BDo c (λ r, go (k r)) end.

Definition doCall (c : Call) : BProg (Ans c) := BDo (BBase c) BRet.
Definition doCoord (k : CoordCall) : BProg (CoordAns k) := BDo (BCoord k) BRet.

(** A program of the manager, run by a member. *)
Fixpoint embed {A} (p : Prog A) : BProg A :=
  match p with Ret a => BRet a | Do c k => BDo (BBase c) (λ r, embed (k r)) end.

(** * The member's goroutine *)

Record batchLaunchMember := mkLaunch {
  lmVM : VM;
  lmOp : Z;
  lmSpec : string → VMSpec
}.

Section batch.
Context (errText : StoreErr → string) (reporting : bool).
Context (onFailure : string) (batchOpID : Z) (members : list batchLaunchMember).

Definition waveCause : string := "batch_stop_successful".

(** The wave fails a launch that is still running, and leaves one that ended. *)
Definition failOp (op : Z) : BProg unit :=
  _ ← doCall (SUpdateOperation (mkOpUpdate op "stopped" "failed" "running" (Some waveCause)
        (Some "sibling member failed, on_failure=stop_successful")));
  mret tt.

Definition alreadyDown (state : string) : bool :=
  existsb (String.eqb state) ["stopped"; "failed"; "deleting"; "deleted"].

(** The read-act loop of the wave on one sibling. *)
Fixpoint stopAttempts (attempts : nat) (vm : string) (op : Z) : BProg unit :=
  match attempts with
  | O => mret tt
  | S attempts =>
    r ← doCall (SGetVM vm);
    match r with
    | Err _ => mret tt
    | Ok v =>
      let state := vObservedState v in
      if alreadyDown state then mret tt
      else if (state =? "stopping")%string then failOp op
      else
        r ← doCall (STransitionVM (from (moveTo vm "stopping" waveCause op) state));
        match r with
        | Err _ => stopAttempts attempts vm op
        | Ok _ =>
          stopErr ← (if (state =? "provisioning")%string then mret None
                     else r ← doCall (RStop vm); mret (r.2));
          match stopErr with
          | Some e =>
            if cleanupDebt e then
              r ← doCall (STransitionVM (releasing (from (moveTo vm "stopped" waveCause op) "stopping")
                    true));
              match r with
              | Err _ => stopAttempts attempts vm op
              | Ok _ =>
                _ ← doCall (SCleanupFailure vm "stopped" (rtText e));
                _ ← embed (onVMTerminal reporting vm);
                failOp op
              end
            else
              _ ← doCall (SCleanupFailure vm "stopping" (rtText e));
              failOp op
          | None =>
            r ← doCall (STransitionVM (releasing (from (moveTo vm "stopped" waveCause op) "stopping")
                  true));
            match r with
            | Err _ => stopAttempts attempts vm op
            | Ok _ => _ ← embed (onVMTerminal reporting vm); failOp op
            end
          end
        end
    end
  end.

(** The wave over the siblings; a claim that is refused ends it. *)
Fixpoint stopWave (failedVMID : string) (ms : list batchLaunchMember) : BProg unit :=
  match ms with
  | [] => mret tt
  | m :: ms =>
    if (vVMID (lmVM m) =? failedVMID)%string then stopWave failedVMID ms
    else
      claimed ← doCall (CClaim (vVMID (lmVM m)));
      match claimed with
      | false => mret tt
      | true => _ ← stopAttempts 3 (vVMID (lmVM m)) (lmOp m); stopWave failedVMID ms
      end
  end.

Definition stopSiblings (failedVMID : string) : BProg unit :=
  if negb (onFailure =? "stop_successful")%string then mret tt
  else
    first ← doCoord KStartWave;
    match first with
    | false => mret tt
    | true => stopWave failedVMID members
    end.

(** A launch that fails stops the siblings. *)
Definition failMember (m : batchLaunchMember) (stage reason : string) : BProg bool :=
  _ ← embed (failLaunch reporting (vVMID (lmVM m)) (lmOp m) stage reason);
  _ ← stopSiblings (vVMID (lmVM m));
  mret false.

Definition runBatchMemberLaunch (m : batchLaunchMember) : BProg bool :=
  let vm := vVMID (lmVM m) in
  let op := lmOp m in
  bootID ← doCall CUUID;
  r ← doCall (STransitionVM (booting (from (moveTo vm "starting" "launch" op) "provisioning") bootID));
  match r with
  | Err e => if invalidTransition e then mret false else failMember m "starting" (errText e)
  | Ok _ =>
    r ← doCall (RLaunch (lmSpec m bootID));
    match r with
    | Err e => failMember m (launchFailureStage e) (rtText e)
    | Ok staged =>
      r ← doCall (STransitionVM (staging (from (moveTo vm "running" "launch_complete" op) "starting")
                  staged));
      match r with
      | Err e => if invalidTransition e then mret false else failMember m "running" (errText e)
      | Ok _ =>
        _ ← embed (onVMRunning vm);
        _ ← doCall (SUpdateOperation (mkOpUpdate op "running" "succeeded" "running" None None));
        mret true
      end
    end
  end.

(** * The batch's operation *)

Definition finalUpdate (succeeded failed : Z) : OperationUpdate :=
  if (onFailure =? "stop_successful")%string && (0 <? failed) then
    mkOpUpdate batchOpID "complete" "failed" "running" (Some "member_failed")
      (Some ("batch stopped: " +:+ Strconv.FormatInt failed +:+ " of " +:+
             Strconv.FormatInt (Z.of_nat (length members)) +:+
             " members did not complete (on_failure=stop_successful)"))
  else if 0 <? succeeded then mkOpUpdate batchOpID "complete" "succeeded" "running" None None
  else
    mkOpUpdate batchOpID "complete" "failed" "running" (Some "all_members_failed")
      (Some "every admitted batch member failed to launch").

Definition finalize : BProg unit :=
  if batchOpID =? 0 then mret tt
  else
    succeeded ← doCoord KSucceeded;
    failed ← doCoord KFailed;
    _ ← doCall (SUpdateOperation (finalUpdate succeeded failed));
    mret tt.

Definition memberDone (ok : bool) : BProg unit :=
  _ ← doCoord (KCount ok);
  left ← doCoord KCountdown;
  if negb (left =? 0) then mret tt else finalize.

(** [CreateBatch]'s loop body for one member, with the goroutine it starts. *)
Definition launchMember (m : batchLaunchMember) : BProg unit :=
  let vm := vVMID (lmVM m) in
  let fail reason := _ ← embed (failLaunch reporting vm (lmOp m) "enqueue" reason); memberDone false in
  claimed ← doCall (CClaim vm);
  match claimed with
  | false => fail "context canceled"
  | true =>
    scheduled ← doCall (CGo (LaunchVM vm));
    match scheduled with
    | false => fail "manager closed before launch was scheduled"
    | true =>
      slot ← doCall CSlot;
      match slot with
      | false => fail "manager closed before slot acquired"
      | true =>
        wave ← doCoord KStopWaveStarted;
        match wave with
        | true => memberDone false
        | false => ok ← runBatchMemberLaunch m; memberDone ok
        end
      end
    end
  end.

End batch.

(** * The goroutines side by side *)

Record batchCoord := mkCoord {
  stopped_ : bool;
  succeeded_ : Z;
  failed_ : Z;
  remaining_ : Z
}.

(** [newBatchCoord] *)
Definition newBatchCoord (total : nat) : batchCoord := mkCoord false 0 0 (Z.of_nat total).

Definition coordStep (k : CoordCall) (c : batchCoord) : CoordAns k * batchCoord :=
  match k with
  | KStopWaveStarted => (stopped_ c, c)
  | KStartWave => (negb (stopped_ c), mkCoord true (succeeded_ c) (failed_ c) (remaining_ c))
  | KCount true =>
    (tt, mkCoord (stopped_ c) (Int.i64 (succeeded_ c + 1)) (failed_ c) (remaining_ c))
  | KCount false =>
    (tt, mkCoord (stopped_ c) (succeeded_ c) (Int.i64 (failed_ c + 1)) (remaining_ c))
  | KCountdown =>
    (Int.i64 (remaining_ c - 1),
     mkCoord (stopped_ c) (succeeded_ c) (failed_ c) (Int.i64 (remaining_ c - 1)))
  | KSucceeded => (succeeded_ c, c)
  | KFailed => (failed_ c, c)
  end.

(** The members' programs, by position. *)
Record BSys := mkBSys { world : World; coord_ : batchCoord; jobs : list (BProg unit) }.

(** What an execution shows: the calls of the members and what they answered. *)
Inductive Event :=
  | EBase (i : nat) (c : Call) (r : Ans c)
  | ECoord (i : nat) (k : CoordCall) (r : CoordAns k)
  | EOther.

Section system.
Context (hash : Envelope → string) (redacted : string → string).

Inductive bmove : Event → BSys → BSys → Prop :=
  | bm_base i c k r w w' co js :
      js !! i = Some (BDo (BBase c) k) → callStep hash redacted c w r w' →
      bmove (EBase i c r) (mkBSys w co js) (mkBSys w' co (<[i := k r]> js))
  | bm_coord i c k w co js :
      js !! i = Some (BDo (BCoord c) k) →
      bmove (ECoord i c (coordStep c co).1) (mkBSys w co js)
        (mkBSys w (coordStep c co).2 (<[i := k (coordStep c co).1]> js))
  | bm_store o s' w co js :
      step hash (st w) o s' →
      bmove EOther (mkBSys w co js) (mkBSys (mkWorld s' (host w)) co js)
  | bm_host vm h' w co js :
      settles (host w vm) h' →
      bmove EOther (mkBSys w co js)
        (mkBSys (mkWorld (st w) (λ u, if decide (u = vm) then h' else host w u)) co js).

Inductive bruns : BSys → list Event → BSys → Prop :=
  | bruns_nil y : bruns y [] y
  | bruns_snoc y1 tr y2 ev y3 : bruns y1 tr y2 → bmove ev y2 y3 → bruns y1 (tr ++ [ev]) y3.

End system.

(** * Schedules *)

(** One move of the member at a position: the environment of a store call, what
    the runtime does to its VM and answers, or what the process answers. *)
Inductive RtAnswer := Launched (images : option Images) | LaunchFails (text : string) | Stops.

Inductive Turn :=
  | TStore (i : nat) (e : Env)
  | THost (i : nat) (a : RtAnswer) (h : HostVM)
  | TProc (i : nat) (b : bool) (u : string)
  | TCoord (i : nat).

#[export] Instance HostVM_eq_dec : EqDecision HostVM.
Proof. solve_decision. Defined.

Definition rtAnswer (a : RtAnswer) (c : Call) : option (Ans c) :=
  match c with
  | RLaunch _ => match a with
    | Launched i => Some (Ok i) | LaunchFails t => Some (Err (RtFailed t)) | Stops => None end
  | RStop _ => match a with Stops => Some (false, None) | _ => None end
  | RForceStop _ => match a with Stops => Some None | _ => None end
  | _ => None
  end.

(** The answer and the host are within the runtime's contract. *)
Definition rtAllows (a : RtAnswer) (h h' : HostVM) : bool :=
  match a with
  | Launched _ => bool_decide (h' = mkHostVM true false true)
  | LaunchFails _ => implb (inflight h') (inflight h)
  | Stops => negb (busy h') && implb (held h') (held h || inflight h)
  end.

Definition procAnswer (b : bool) (u : string) (c : Call) : option (Ans c) :=
  match c with
  | CClaim _ | CGo _ | CSlot => Some b
  | CUUID => Some u
  | _ => None
  end.

Section schedule.
Context (hash : Envelope → string) (redacted : string → string).

Definition turn (t : Turn) (y : BSys) : option (Event * BSys) :=
  let w := world y in
  match t with
  | TStore i e =>
    match jobs y !! i with
    | Some (BDo (BBase c) k) =>
      if readyb 4 e (st w) then
        match storeCall hash redacted e c (st w) with
        | Some (r, s') => Some (EBase i c r,
            mkBSys (mkWorld s' (host w)) (coord_ y) (<[i := k r]> (jobs y)))
        | None => None
        end
      else None
    | _ => None
    end
  | THost i a h =>
    match jobs y !! i with
    | Some (BDo (BBase c) k) =>
      match rtOf c, rtAnswer a c with
      | Some vm, Some r =>
        if rtAllows a (host w vm) h then Some (EBase i c r,
          mkBSys (mkWorld (st w) (λ u, if decide (u = vm) then h else host w u)) (coord_ y)
            (<[i := k r]> (jobs y)))
        else None
      | _, _ => None
      end
    | _ => None
    end
  | TProc i b u =>
    match jobs y !! i with
    | Some (BDo (BBase c) k) =>
      match procAnswer b u c with
      | Some r => Some (EBase i c r, mkBSys w (coord_ y) (<[i := k r]> (jobs y)))
      | None => None
      end
    | _ => None
    end
  | TCoord i =>
    match jobs y !! i with
    | Some (BDo (BCoord c) k) =>
      Some (ECoord i c (coordStep c (coord_ y)).1,
            mkBSys w (coordStep c (coord_ y)).2 (<[i := k (coordStep c (coord_ y)).1]> (jobs y)))
    | _ => None
    end
  end.

Fixpoint turns (ts : list Turn) (tr : list Event) (y : BSys) : option (list Event * BSys) :=
  match ts with
  | [] => Some (tr, y)
  | t :: ts =>
    match turn t y with Some (ev, y') => turns ts (tr ++ [ev]) y' | None => None end
  end.

Lemma rtAllows_spec a c vm r h h' :
  rtOf c = Some vm → rtAnswer a c = Some r → rtAllows a h h' = true → hostCall c h r h'.
Proof.
  intros _ Hr Ha. destruct c; try done; destruct a; cbn in Hr; simplify_eq; cbn in *.
  - by apply bool_decide_eq_true in Ha.
  - intros E. rewrite E in Ha. done.
  - unfold stopped, proven. cbn. apply andb_true_iff in Ha as [Hb Hh].
    apply negb_true_iff in Hb. split; [done|]. intros E. rewrite E in Hh. by apply orb_true_iff.
  - unfold stopped, proven. cbn. apply andb_true_iff in Ha as [Hb Hh].
    apply negb_true_iff in Hb. split; [done|]. intros E. rewrite E in Hh. by apply orb_true_iff.
Qed.

Lemma turn_move t y ev y' : turn t y = Some (ev, y') → bmove hash redacted ev y y'.
Proof.
  destruct y as [w co js], t as [i e|i a h|i b u|i]; cbn [turn world jobs coord_];
    destruct (js !! i) as [[|[c|c] k]|] eqn:Hj; try done.
  - destruct (readyb 4 e (st w)) eqn:Hr; [|done].
    destruct (storeCall _ _ _ _ _) as [[r s']|] eqn:Hs; [|done]. intros [= <- <-].
    eapply (bm_base hash redacted i c k r w (mkWorld s' (host w))); [done|].
    by eapply call_store; [apply readyb_spec|].
  - destruct (rtOf c) as [vm|] eqn:Hv; [|done]. destruct (rtAnswer a c) as [r|] eqn:Hr; [|done].
    destruct (rtAllows _ _ _) eqn:Ha; [|done]. intros [= <- <-].
    eapply (bm_base hash redacted i c k r w); [done|]. eapply call_host; [done|].
    by eapply rtAllows_spec.
  - destruct (procAnswer b u c) as [r|] eqn:Hr; [|done]. intros [= <- <-].
    eapply (bm_base hash redacted i c k r w w); [done|]. apply call_proc. by destruct c.
  - intros [= <- <-]. by apply (bm_coord hash redacted i c k w co js).
Qed.

Lemma turns_runs y0 ts tr y tr' y' :
  bruns hash redacted y0 tr y → turns ts tr y = Some (tr', y') → bruns hash redacted y0 tr' y'.
Proof.
  revert tr y. induction ts as [|t ts IH]; intros tr y H; cbn; [by intros [= <- <-]|].
  destruct (turn t y) as [[ev y1]|] eqn:E; [|done]. apply IH.
  eapply bruns_snoc; [done|by eapply turn_move].
Qed.

End schedule.

(** A batch whose admitted members start to launch. *)
Definition launching errText reporting onFailure batchOpID members (w : World) : BSys :=
  mkBSys w (newBatchCoord (length members))
    (launchMember errText reporting onFailure batchOpID members <$> members).

End BatchLaunch.
