(* ===== verification/BatchWave.v ===== *)
(** The end of a batch: its operation is written once, by the last member to
    finish, from counts that no other member changes any more. *)

From S2P Require Import Prelude Events Store RunStore VmStore StoreRules Registry History.
From S2P Require Import Admission.
From S2P Require Import Manager ManagerSystem BatchLaunch.
Import Events Sql Store Log Runs Vms Rules Registry History Admission Manager ManagerSystem.
Import BatchLaunch.

Local Open Scope Z_scope.

Module BatchWave.

(** * What an execution shows *)

(** A member's report. *)
Definition reportOf (ev : Event) : option (nat * bool) :=
  match ev with ECoord i (KCount ok) _ => Some (i, ok) | _ => None end.

(** A write of the batch's operation. *)
Definition finalOf (batchOpID : Z) (ev : Event) : option OperationUpdate :=
  match ev with
  | EBase _ (SUpdateOperation u) _ => if wOperationID u =? batchOpID then Some u else None
  | _ => None
  end.

(** A move of a VM to running that the store took. *)
Definition ranOf (ev : Event) : option (nat * string) :=
  match ev with
  | EBase i (STransitionVM inp) (Ok _) =>
    if (nTo inp =? "running")%string then Some (i, nVMID inp) else None
  | _ => None
  end.

Definition reports (tr : list Event) : list (nat * bool) := omap reportOf tr.
Definition finals (batchOpID : Z) (tr : list Event) : list OperationUpdate :=
  omap (finalOf batchOpID) tr.
Definition outcomes (b : bool) (tr : list Event) : Z :=
  Z.of_nat (length (List.filter (λ r, Bool.eqb r.2 b) (reports tr))).

(** * The shape of a member's program *)

Section shape.
Context (onFailure : string) (batchOpID : Z) (members : list batchLaunchMember).
Context (vm : string).

Definition pDone (p : BProg unit) : Prop :=
  match p with BRet _ => True | BDo _ _ => False end.
Definition pWrite (s f : Z) (p : BProg unit) : Prop :=
  match p with
  | BDo (BBase (SUpdateOperation u)) k =>
    u = finalUpdate onFailure batchOpID members s f ∧ ∀ r, pDone (k r)
  | _ => False
  end.
Definition pLoaded (s : Z) (p : BProg unit) : Prop :=
  match p with BDo (BCoord KFailed) k => ∀ f, pWrite s f (k f) | _ => False end.
Definition pLast (p : BProg unit) : Prop :=
  match p with BDo (BCoord KSucceeded) k => ∀ s, pLoaded s (k s) | _ => False end.
Definition pCounted (p : BProg unit) : Prop :=
  match p with
  | BDo (BCoord KCountdown) k => ∀ n, if n =? 0 then pLast (k n) else pDone (k n)
  | _ => False
  end.
Definition pReport (l : bool) (p : BProg unit) : Prop :=
  match p with
  | BDo (BCoord (KCount ok)) k => (ok = true → l = true) ∧ ∀ r, pCounted (k r)
  | _ => False
  end.

(** Calls before the report: none on the counts, none on the batch's operation. *)
Definition benign (c : BCall) : Prop :=
  match c with
  | BBase (SUpdateOperation u) => wOperationID u ≠ batchOpID
  | BBase _ | BCoord KStopWaveStarted | BCoord KStartWave => True
  | BCoord _ => False
  end.

(** The answer shows the member's VM running. *)
Definition shows (c : BCall) : BAns c → bool :=
  match c with
  | BBase (STransitionVM inp) => λ r,
    match r with
    | Ok _ => (nTo inp =? "running")%string && (nVMID inp =? vm)%string
    | Err _ => false
    end
  | _ => λ _, false
  end.

(** A member that has not reported: whatever is answered, it reports in the end,
    and a success only when its VM was moved to running. *)
Fixpoint pBusy (l : bool) (p : BProg unit) : Prop :=
  pReport l p ∨
  match p with
  | BRet _ => False
  | BDo c k => benign c ∧ ∀ r, pBusy (l || shows c r) (k r)
  end.

(** The same of a part of the program, up to its result. *)
Fixpoint pPart {A} (Q : bool → A → Prop) (l : bool) (p : BProg A) : Prop :=
  match p with
  | BRet a => Q l a
  | BDo c k => benign c ∧ ∀ r, pPart Q (l || shows c r) (k r)
  end.

Lemma pPart_mono {A} (Q Q' : bool → A → Prop) l p :
  (∀ l a, Q l a → Q' l a) → pPart Q l p → pPart Q' l p.
Proof.
  intros H. revert l. induction p as [a|c k IH]; intros l; cbn; [apply H|].
  intros [Hb Hk]. split; [done|]. intros r. by apply IH.
Qed.

Lemma pPart_bind {A C} (Q : bool → A → Prop) (Q' : bool → C → Prop) l (p : BProg A) f :
  pPart Q l p → (∀ l a, Q l a → pPart Q' l (f a)) → pPart Q' l (p ≫= f).
Proof.
  intros Hp Hf. revert l Hp. induction p as [a|c k IH]; intros l; cbn; [apply Hf|].
  intros [Hb Hk]. split; [done|]. intros r. by apply IH.
Qed.

Lemma pBusy_bind {A} (Q : bool → A → Prop) l (p : BProg A) f :
  pPart Q l p → (∀ l a, Q l a → pBusy l (f a)) → pBusy l (p ≫= f).
Proof.
  intros Hp Hf. revert l Hp. induction p as [a|c k IH]; intros l; cbn; [apply Hf|].
  intros [Hb Hk]. right. split; [done|]. intros r. by apply IH.
Qed.

(** What was shown stays shown. *)
Lemma pPart_shown {A} (Q : bool → A → Prop) (p : BProg A) :
  pPart (λ _ _, True) true p → pPart (λ l _, l = true) true p.
Proof.
  induction p as [a|c k IH]; cbn; [done|]. intros [Hb Hk]. split; [done|]. intros r. by apply IH.
Qed.

Definition anyPart {A} (p : BProg A) : Prop := ∀ l, pPart (λ _ _, True) l p.

Lemma any_ret {A} (a : A) : anyPart (BRet a).
Proof. done. Qed.
Lemma any_bind {A C} (p : BProg A) (f : A → BProg C) :
  anyPart p → (∀ a, anyPart (f a)) → anyPart (p ≫= f).
Proof. intros Hp Hf l. eapply pPart_bind; [apply Hp|]. intros l' a _. apply Hf. Qed.
Lemma any_base c : benign (BBase c) → anyPart (doCall c).
Proof. intros H l. by split. Qed.

Lemma part_base {A} (Q : bool → A → Prop) l c (f : Ans c → BProg A) :
  benign (BBase c) → (∀ r, pPart Q (l || shows (BBase c) r) (f r)) →
  pPart Q l (doCall c ≫= f).
Proof. intros H Hf. by split. Qed.

Lemma busy_base l c (f : Ans c → BProg unit) :
  benign (BBase c) → (∀ r, pBusy (l || shows (BBase c) r) (f r)) → pBusy l (doCall c ≫= f).
Proof. intros H Hf. right. by split. Qed.
Lemma busy_coord l k (f : CoordAns k → BProg unit) :
  benign (BCoord k) → (∀ r, pBusy (l || false) (f r)) → pBusy l (doCoord k ≫= f).
Proof. intros H Hf. right. by split. Qed.

(** ** Programs of the manager *)

Fixpoint allCalls {A} (P : Call → Prop) (p : Prog A) : Prop :=
  match p with Ret _ => True | Do c k => P c ∧ ∀ r, allCalls P (k r) end.

Lemma allCalls_bind {A C} P (p : Prog A) (f : A → Prog C) :
  allCalls P p → (∀ a, allCalls P (f a)) → allCalls P (p ≫= f).
Proof.
  intros Hp Hf. induction p as [a|c k IH]; cbn; [apply Hf|]. destruct Hp as [Hc Hk].
  split; [done|]. intros r. by apply IH.
Qed.

Lemma any_embed {A} (p : Prog A) : allCalls (λ c, benign (BBase c)) p → anyPart (embed p).
Proof.
  intros H l. revert l H. induction p as [a|c k IH]; intros l; cbn; [done|].
  intros [Hc Hk]. split; [done|]. intros r. by apply IH.
Qed.

End shape.

Ltac calls_tac :=
  repeat match goal with
  | |- allCalls _ (Ret _) => exact I
  | |- allCalls _ (mret _) => exact I
  | |- allCalls _ (call _) => split; [|intros ?; exact I]
  | |- allCalls _ (_ ≫= _) => apply allCalls_bind; [|intros ?]
  | |- allCalls _ (match ?x with _ => _ end) => destruct x
  | |- benign _ (BBase _) => first [exact I|assumption]
  end.

Section member.
Context (errText : StoreErr → string) (reporting : bool).
Context (onFailure : string) (batchOpID : Z) (members : list batchLaunchMember).
Hypothesis opsDiffer : ∀ m, m ∈ members → lmOp m ≠ batchOpID.

Abbreviation quiet := (allCalls (λ c, benign batchOpID (BBase c))).

Lemma quiet_conclude run t : quiet (concludeRun reporting run t).
Proof. unfold concludeRun, startConcluding, settleRun, postConclude. calls_tac. Qed.

Lemma quiet_active v t : quiet (concludeActive reporting v t).
Proof. unfold concludeActive. calls_tac; apply quiet_conclude. Qed.

Lemma quiet_running v : quiet (onVMRunning v).
Proof. unfold onVMRunning. calls_tac. Qed.

Lemma quiet_failLaunch v op stage reason :
  op ≠ batchOpID → quiet (failLaunch reporting v op stage reason).
Proof.
  intros Hop. unfold failLaunch, launchCleanup, onVMLaunchFailed. calls_tac.
  apply quiet_active.
Qed.

Section parts.
Context (vm : string).

Abbreviation any := (anyPart batchOpID vm).

Ltac any_tac :=
  repeat match goal with
  | |- any (BRet _) => apply any_ret
  | |- any (mret _) => apply any_ret
  | |- any (doCall _) => apply any_base; first [exact I|assumption]
  | |- any (embed _) => apply any_embed
  | |- any (_ ≫= _) => apply any_bind; [|intros ?]
  | |- any (let _ := _ in _) => cbv zeta
  | |- any (match ?x with _ => _ end) => destruct x
  end.

Lemma any_failOp op : op ≠ batchOpID → any (failOp op).
Proof. intros H. unfold failOp. any_tac. Qed.

Lemma any_stopAttempts n v op : op ≠ batchOpID → any (stopAttempts reporting n v op).
Proof.
  intros H. induction n as [|n IH]; cbn [stopAttempts]; any_tac;
    first [by apply any_failOp|exact IH|apply quiet_active].
Qed.

Lemma any_stopWave failed ms :
  (∀ m, m ∈ ms → lmOp m ≠ batchOpID) → any (stopWave reporting failed ms).
Proof.
  induction ms as [|m ms IH]; intros H; cbn [stopWave]; any_tac.
  - apply IH. intros. apply H. by right.
  - apply any_stopAttempts, H. left.
  - apply IH. intros. apply H. by right.
Qed.

Lemma any_stopSiblings failed : any (stopSiblings reporting onFailure members failed).
Proof.
  unfold stopSiblings. any_tac; [|by apply any_stopWave]. intros l. by split.
Qed.

Lemma failMember_part m stage reason :
  m ∈ members → any (failMember reporting onFailure members m stage reason).
Proof.
  intros Hm. unfold failMember. any_tac; [by apply quiet_failLaunch, opsDiffer|].
  apply any_stopSiblings.
Qed.

(** A part whose result is a refusal may end anywhere. *)
Lemma refusing {A} (p : BProg A) (f : A → BProg bool) l :
  any p → (∀ a, f a = BRet false) → pPart batchOpID vm (λ l ok, ok = true → l = true) l (p ≫= f).
Proof. intros Hp Hf. eapply pPart_bind; [apply Hp|]. intros l' a _. by rewrite Hf. Qed.

Lemma failMember_false m stage reason l :
  m ∈ members →
  pPart batchOpID vm (λ l ok, ok = true → l = true) l
    (failMember reporting onFailure members m stage reason).
Proof.
  intros Hm. unfold failMember. eapply pPart_bind.
  { apply any_embed. by apply quiet_failLaunch, opsDiffer. }
  intros l' _ _. apply refusing; [apply any_stopSiblings|done].
Qed.

Lemma launch_part m :
  m ∈ members → vVMID (lmVM m) = vm →
  pPart batchOpID vm (λ l ok, ok = true → l = true) false
    (runBatchMemberLaunch errText reporting onFailure members m).
Proof.
  intros Hm Hv. unfold runBatchMemberLaunch. cbv zeta.
  apply part_base; [done|]. intros boot. apply part_base; [done|]. intros [v1|e1].
  2: { destruct (invalidTransition e1); [done|]. by apply failMember_false. }
  apply part_base; [done|]. intros [staged|e2]; [|by apply failMember_false].
  apply part_base; [done|]. intros [v3|e3].
  2: { destruct (invalidTransition e3); [done|]. by apply failMember_false. }
  cbn [shows orb nTo nVMID staging from moveTo]. rewrite Hv, !String.eqb_refl.
  eapply pPart_bind.
  { apply (pPart_shown _ _ (λ _ _, True)). apply any_embed, quiet_running. }
  intros l' _ ->. apply part_base; [by apply opsDiffer|]. done.
Qed.

End parts.

Lemma memberDone_report ok l :
  batchOpID ≠ 0 → (ok = true → l = true) →
  pReport onFailure batchOpID members l (memberDone onFailure batchOpID members ok).
Proof.
  intros Hb Hok. split; [done|]. intros [] n.
  destruct (n =? 0) eqn:En; cbn; rewrite En; cbn; [|done].
  unfold finalize. rewrite (proj2 (Z.eqb_neq _ _) Hb). intros s f. by split.
Qed.

Lemma report_busy vm l p :
  pReport onFailure batchOpID members l p → pBusy onFailure batchOpID members vm l p.
Proof. intros H. destruct p; [done|]. by left. Qed.

Lemma launchMember_busy m :
  batchOpID ≠ 0 → m ∈ members →
  pBusy onFailure batchOpID members (vVMID (lmVM m)) false
    (launchMember errText reporting onFailure batchOpID members m).
Proof.
  intros Hb Hm. unfold launchMember. cbv zeta.
  assert (Hd : ∀ l ok, (ok = true → l = true) → pBusy onFailure batchOpID members
    (vVMID (lmVM m)) l (memberDone onFailure batchOpID members ok)).
  { intros l ok H. by apply report_busy, memberDone_report. }
  assert (Hf : ∀ l reason, pBusy onFailure batchOpID members (vVMID (lmVM m)) l
    (_ ← embed (failLaunch reporting (vVMID (lmVM m)) (lmOp m) "enqueue" reason);
     memberDone onFailure batchOpID members false)).
  { intros l reason. eapply pBusy_bind.
    - apply any_embed. by apply quiet_failLaunch, opsDiffer.
    - intros l' _ _. by apply Hd. }
  do 3 (apply busy_base; [done|]; intros [|]; [|apply Hf]).
  apply busy_coord; [done|]. intros [|]; [by apply Hd|].
  eapply (pBusy_bind _ _ _ _ (λ l ok, ok = true → l = true));
    [exact (launch_part _ m Hm eq_refl)|]. intros l' ok H. by apply Hd.
Qed.

(** * The invariant *)

(** Where a member is: before its report; counted; the last one, before and after
    its loads; done. *)
Inductive Status :=
  | SBusy (shown : bool)
  | SCounted
  | SLast
  | SLoaded (s : Z)
  | SWrite (s f : Z)
  | SDone.

Definition shape (vm : string) (t : Status) : BProg unit → Prop :=
  match t with
  | SBusy l => pBusy onFailure batchOpID members vm l
  | SCounted => pCounted onFailure batchOpID members
  | SLast => pLast onFailure batchOpID members
  | SLoaded s => pLoaded onFailure batchOpID members s
  | SWrite s f => pWrite onFailure batchOpID members s f
  | SDone => pDone
  end.

Definition waiting (t : Status) : Z := match t with SBusy _ | SCounted => 1 | _ => 0 end.
Definition unreported (t : Status) : Z := match t with SBusy _ => 1 | _ => 0 end.
Definition closing (t : Status) : Z :=
  match t with SLast | SLoaded _ | SWrite _ _ => 1 | _ => 0 end.

(** The values a closing member has read are the counts. *)
Definition current (ok failed : Z) (t : Status) : Prop :=
  match t with
  | SLoaded s => s = ok
  | SWrite s f => s = ok ∧ f = failed
  | _ => True
  end.

Record ends (tr : list Event) (co : batchCoord) (js : list (BProg unit)) (sts : list Status)
    : Prop := mkEnds {
  en_jobs : length js = length members;
  en_sts : length sts = length members;
  en_shapes i t p m : sts !! i = Some t → js !! i = Some p → members !! i = Some m →
    shape (vVMID (lmVM m)) t p;
  en_remaining : remaining_ co = sumZ waiting sts;
  en_ok : succeeded_ co = outcomes true tr;
  en_failed : failed_ co = outcomes false tr;
  en_reported : outcomes true tr + outcomes false tr + sumZ unreported sts =
    Z.of_nat (length members);
  en_closing : sumZ closing sts + Z.of_nat (length (finals batchOpID tr)) =
    (if remaining_ co =? 0 then 1 else 0);
  en_current i t : sts !! i = Some t → current (outcomes true tr) (outcomes false tr) t;
  en_final u : u ∈ finals batchOpID tr →
    u = finalUpdate onFailure batchOpID members (outcomes true tr) (outcomes false tr);
  en_shown i m : sts !! i = Some (SBusy true) → members !! i = Some m →
    (i, vVMID (lmVM m)) ∈ omap ranOf tr;
  en_range i ok : (i, ok) ∈ reports tr → is_Some (members !! i);
  en_who i t : sts !! i = Some t → unreported t = 0 → ∃ ok, (i, ok) ∈ reports tr;
  en_true i m : (i, true) ∈ reports tr → members !! i = Some m →
    (i, vVMID (lmVM m)) ∈ omap ranOf tr
}.

Lemma sumZ_insert {A} (f : A → Z) l i a b :
  l !! i = Some a → sumZ f (<[i := b]> l) = sumZ f l - f a + f b.
Proof.
  revert i. induction l as [|x l IH]; intros [|i] H; cbn in H; simplify_eq.
  - cbn. lia.
  - change (<[S i := b]> (x :: l)) with (x :: <[i := b]> l). rewrite !sumZ_cons, (IH _ H). lia.
Qed.

Lemma waiting_pos sts i t : sts !! i = Some t → waiting t = 1 → 1 ≤ sumZ waiting sts.
Proof.
  intros H E. rewrite <- (list_insert_id sts i t H), (sumZ_insert _ _ _ _ _ H).
  assert (0 ≤ sumZ waiting (<[i := SDone]> sts)); [apply sumZ_nonneg; intros [] _; cbn; lia|].
  rewrite (sumZ_insert _ _ _ _ _ H) in H0. cbn in H0. lia.
Qed.

Lemma closing_nonneg sts : 0 ≤ sumZ closing sts.
Proof. apply sumZ_nonneg. intros [] _; cbn; lia. Qed.

Lemma no_closing sts i t : sumZ closing sts = 0 → sts !! i = Some t → closing t = 0.
Proof.
  intros E H. pose proof (closing_nonneg (<[i := SDone]> sts)) as Hp.
  rewrite (sumZ_insert _ _ _ _ _ H), E in Hp. destruct t; cbn in *; lia.
Qed.

Lemma omap_one {A C} (f : A → option C) x :
  omap f [x] = match f x with Some y => [y] | None => [] end.
Proof. done. Qed.

Lemma reports_snoc tr ev : reports (tr ++ [ev]) = reports tr ++ omap reportOf [ev].
Proof. apply omap_app. Qed.
Lemma finals_snoc tr ev :
  finals batchOpID (tr ++ [ev]) = finals batchOpID tr ++ omap (finalOf batchOpID) [ev].
Proof. apply omap_app. Qed.
Lemma ran_snoc tr ev : omap ranOf (tr ++ [ev]) = omap ranOf tr ++ omap ranOf [ev].
Proof. apply omap_app. Qed.

Lemma outcomes_quiet b tr ev : reportOf ev = None → outcomes b (tr ++ [ev]) = outcomes b tr.
Proof. intros E. unfold outcomes. rewrite reports_snoc. cbn. by rewrite E, app_nil_r. Qed.

Lemma outcomes_report b tr ev i ok :
  reportOf ev = Some (i, ok) →
  outcomes b (tr ++ [ev]) = outcomes b tr + (if Bool.eqb ok b then 1 else 0).
Proof.
  intros E. unfold outcomes. rewrite reports_snoc, List.filter_app, length_app. cbn.
  rewrite E. cbn. destruct (Bool.eqb ok b); cbn; lia.
Qed.

(** A member moves on without a report. *)
Lemma ends_quiet tr co co' js sts i t t' p m ev :
  ends tr co js sts → sts !! i = Some t → members !! i = Some m →
  shape (vVMID (lmVM m)) t' p → reportOf ev = None →
  succeeded_ co' = succeeded_ co → failed_ co' = failed_ co →
  remaining_ co' = remaining_ co - waiting t + waiting t' →
  unreported t' = unreported t →
  closing t' + Z.of_nat (length (omap (finalOf batchOpID) [ev])) - closing t +
    (if remaining_ co =? 0 then 1 else 0) = (if remaining_ co' =? 0 then 1 else 0) →
  current (outcomes true tr) (outcomes false tr) t' →
  (∀ u, u ∈ omap (finalOf batchOpID) [ev] →
    u = finalUpdate onFailure batchOpID members (outcomes true tr) (outcomes false tr)) →
  (t' = SBusy true → t = SBusy true ∨ ranOf ev = Some (i, vVMID (lmVM m))) →
  ends (tr ++ [ev]) co' (<[i := p]> js) (<[i := t']> sts).
Proof.
  intros [E1 E2 E3 E4 E5 E6 E7 E8 E9 E10 E11 E14 E13 E12] Ht Hm Hp Hq Hs Hf Hr Hu Hc Hcur Hfin Hsh.
  split; rewrite ?length_insert, ?(outcomes_quiet _ _ _ Hq), ?finals_snoc, ?length_app; try done.
  - intros j t0 p0 m0 Hj Hjp Hjm. destruct (decide (j = i)) as [->|Hne].
    + rewrite list_lookup_insert_eq in Hj by by eapply lookup_lt_Some.
      assert (i < length js)%nat by (rewrite E1; by eapply lookup_lt_Some).
      rewrite list_lookup_insert_eq in Hjp by done. by simplify_eq.
    + rewrite list_lookup_insert_ne in Hj by done. rewrite list_lookup_insert_ne in Hjp by done.
      by eapply E3.
  - by rewrite (sumZ_insert _ _ _ _ _ Ht), <- E4.
  - by rewrite Hs.
  - by rewrite Hf.
  - rewrite (sumZ_insert _ _ _ _ _ Ht), Hu. lia.
  - rewrite (sumZ_insert _ _ _ _ _ Ht), Nat2Z.inj_add. lia.
  - intros j t0 Hj. destruct (decide (j = i)) as [->|Hne].
    + rewrite list_lookup_insert_eq in Hj by by eapply lookup_lt_Some. by simplify_eq.
    + rewrite list_lookup_insert_ne in Hj by done. by eapply E9.
  - intros u [Hin|Hin]%elem_of_app; [by apply E10|by apply Hfin].
  - intros j m0 Hj Hjm. rewrite ran_snoc, elem_of_app. destruct (decide (j = i)) as [->|Hne].
    + rewrite list_lookup_insert_eq in Hj by by eapply lookup_lt_Some. simplify_eq.
      destruct (Hsh eq_refl) as [->|Hran]; [left; by apply E11|right].
      cbn. rewrite Hran. by apply list_elem_of_singleton.
    + rewrite list_lookup_insert_ne in Hj by done. left. by apply E11.
  - intros j ok. rewrite reports_snoc. cbn. rewrite Hq, app_nil_r. apply E14.
  - intros j t0 Hj Hu0. rewrite reports_snoc. cbn. rewrite Hq, app_nil_r.
    destruct (decide (j = i)) as [->|Hne].
    + rewrite list_lookup_insert_eq in Hj by by eapply lookup_lt_Some. simplify_eq.
      eapply E13; [done|congruence].
    + rewrite list_lookup_insert_ne in Hj by done. by eapply E13.
  - intros j m0. rewrite reports_snoc, ran_snoc. cbn. rewrite Hq, app_nil_r, elem_of_app.
    intros Hj Hjm. left. by apply E12.
Qed.

(** While a member waits, no member closes. *)
Lemma waiting_open tr co js sts i t :
  ends tr co js sts → sts !! i = Some t → waiting t = 1 →
  1 ≤ remaining_ co ∧ sumZ closing sts = 0 ∧ finals batchOpID tr = [].
Proof.
  intros [E1 E2 E3 E4 E5 E6 E7 E8 E9 E10 E11 E14 E13 E12] Ht Hw. pose proof (waiting_pos _ _ _ Ht Hw).
  pose proof (closing_nonneg sts). rewrite (proj2 (Z.eqb_neq (remaining_ co) 0)) in E8 by lia.
  split_and!; [lia..|]. destruct (finals batchOpID tr); [done|]. cbn [length] in E8. lia.
Qed.

(** A member reports. *)
Lemma ends_report tr co co' js sts i l p m ok :
  ends tr co js sts → sts !! i = Some (SBusy l) → members !! i = Some m →
  pCounted onFailure batchOpID members p → (ok = true → l = true) →
  succeeded_ co' = succeeded_ co + (if ok then 1 else 0) →
  failed_ co' = failed_ co + (if ok then 0 else 1) → remaining_ co' = remaining_ co →
  ends (tr ++ [ECoord i (KCount ok) tt]) co' (<[i := p]> js) (<[i := SCounted]> sts).
Proof.
  intros He Ht Hm Hp Hok Hs Hf Hr.
  destruct (waiting_open _ _ _ _ _ _ He Ht eq_refl) as (Hrem & Hcl & Hfin).
  destruct He as [E1 E2 E3 E4 E5 E6 E7 E8 E9 E10 E11 E14 E13 E12].
  assert (Ho : ∀ b, outcomes b (tr ++ [ECoord i (KCount ok) tt]) =
    outcomes b tr + (if Bool.eqb ok b then 1 else 0)) by (intros; by eapply outcomes_report).
  split; rewrite ?length_insert, ?Ho, ?finals_snoc, ?Hfin; try done.
  - intros j t0 p0 m0 Hj Hjp Hjm. destruct (decide (j = i)) as [->|Hne].
    + rewrite list_lookup_insert_eq in Hj by by eapply lookup_lt_Some.
      assert (i < length js)%nat by (rewrite E1; by eapply lookup_lt_Some).
      rewrite list_lookup_insert_eq in Hjp by done. by simplify_eq.
    + rewrite list_lookup_insert_ne in Hj by done. rewrite list_lookup_insert_ne in Hjp by done.
      by eapply E3.
  - rewrite (sumZ_insert _ _ _ _ _ Ht), Hr, E4. cbn. lia.
  - rewrite Hs, E5. by destruct ok.
  - rewrite Hf, E6. by destruct ok.
  - rewrite (sumZ_insert _ _ _ _ _ Ht). cbn [unreported]. destruct ok; cbn; lia.
  - rewrite (sumZ_insert _ _ _ _ _ Ht), Hcl, Hr. cbn.
    by rewrite (proj2 (Z.eqb_neq (remaining_ co) 0)) by lia.
  - intros j t0 Hj. destruct (decide (j = i)) as [->|Hne].
    + rewrite list_lookup_insert_eq in Hj by by eapply lookup_lt_Some. by simplify_eq.
    + rewrite list_lookup_insert_ne in Hj by done.
      pose proof (no_closing _ _ _ Hcl Hj). by destruct t0.
  - intros u Hu. by apply elem_of_nil in Hu.
  - intros j m0 Hj Hjm. rewrite ran_snoc, app_nil_r.
    destruct (decide (j = i)) as [->|Hne].
    + by rewrite list_lookup_insert_eq in Hj by by eapply lookup_lt_Some.
    + rewrite list_lookup_insert_ne in Hj by done. by apply E11.
  - intros j b. rewrite reports_snoc. intros [Hj|Hj%list_elem_of_singleton]%elem_of_app;
      [by eapply E14|]. injection Hj as -> _. by rewrite Hm.
  - intros j t0 Hj Hu0. rewrite reports_snoc. destruct (decide (j = i)) as [->|Hne].
    + exists ok. apply elem_of_app. right. by apply list_elem_of_singleton.
    + rewrite list_lookup_insert_ne in Hj by done. destruct (E13 _ _ Hj Hu0) as [b Hb].
      exists b. apply elem_of_app. by left.
  - intros j m0. rewrite reports_snoc, ran_snoc, app_nil_r.
    intros [Hj|Hj%list_elem_of_singleton]%elem_of_app Hjm; [by apply E12|].
    injection Hj as -> <-. specialize (Hok eq_refl). subst l. by apply E11.
Qed.

Hypothesis small : Z.of_nat (length members) ≤ Int.MaxInt64.
Context (hash : Envelope → string) (redacted : string → string).

Lemma ends_other tr co js sts : ends tr co js sts → ends (tr ++ [EOther]) co js sts.
Proof.
  intros [E1 E2 E3 E4 E5 E6 E7 E8 E9 E10 E11 E14 E13 E12].
  split; rewrite ?(outcomes_quiet _ _ EOther eq_refl), ?finals_snoc, ?reports_snoc, ?ran_snoc,
    ?app_nil_r; done.
Qed.

Lemma ends_base tr w co js sts i c k r w' :
  ends tr co js sts → js !! i = Some (BDo (BBase c) k) → callStep hash redacted c w r w' →
  ∃ sts', ends (tr ++ [EBase i c r]) co (<[i := k r]> js) sts'.
Proof.
  intros He Hj _. pose proof He as [E1 E2 E3 _ _ _ _ _ E9 _ _ _ _ _].
  assert (i < length members)%nat by (rewrite <- E1; by eapply lookup_lt_Some).
  destruct (lookup_lt_is_Some_2 sts i ltac:(lia)) as [t Ht].
  destruct (lookup_lt_is_Some_2 members i ltac:(lia)) as [m Hm].
  pose proof (E3 _ _ _ _ Ht Hj Hm) as Hsh. destruct t as [l| | | |s f|]; try done.
  - destruct Hsh as [[]|[Hb Hk]].
    assert (Hfin : finalOf batchOpID (EBase i c r) = None).
    { destruct c; try done. cbn in *. by rewrite (proj2 (Z.eqb_neq _ _)). }
    exists (<[i := SBusy (l || shows (vVMID (lmVM m)) (BBase c) r)]> sts).
    apply (ends_quiet tr co co js sts i (SBusy l) _ (k r) m); [done..|apply Hk|done|done|done| |done
      | |done| |].
    + cbn. lia.
    + rewrite omap_one, Hfin. cbn. lia.
    + rewrite omap_one, Hfin. by intros u ?%elem_of_nil.
    + intros [= E]. destruct l; [by left|right]. cbn in E. destruct c; try done.
      cbn in r. destruct r; [|done]. apply andb_true_iff in E as [E1' E2'%String.eqb_eq].
      cbn. by rewrite E1', E2'.
  - assert (Hc : ∃ u, BBase c = BBase (SUpdateOperation u)) by (destruct c; try done; eauto).
    destruct c; try done. destruct Hsh as [-> Hk].
    exists (<[i := SDone]> sts). pose proof (E9 _ _ Ht) as [-> ->].
    assert (Hop : wOperationID (finalUpdate onFailure batchOpID members
      (outcomes true tr) (outcomes false tr)) = batchOpID).
    { unfold finalUpdate. by repeat case_match. }
    apply (ends_quiet tr co co js sts i (SWrite (outcomes true tr) (outcomes false tr)) SDone
      (k r) m); [done..|apply Hk|done|done|done| |done| |done| |done].
    + cbn. lia.
    + rewrite omap_one. cbn [finalOf]. rewrite Hop, Z.eqb_refl. cbn. lia.
    + rewrite omap_one. cbn [finalOf]. rewrite Hop, Z.eqb_refl.
      by intros u ->%list_elem_of_singleton.
Qed.

Lemma ends_coord tr co js sts i c k :
  ends tr co js sts → js !! i = Some (BDo (BCoord c) k) →
  ∃ sts', ends (tr ++ [ECoord i c (coordStep c co).1]) (coordStep c co).2
    (<[i := k (coordStep c co).1]> js) sts'.
Proof.
  intros He Hj. pose proof He as [E1 E2 E3 E4 E5 E6 E7 E8 E9 _ _ _ _ _].
  assert (i < length members)%nat by (rewrite <- E1; by eapply lookup_lt_Some).
  destruct (lookup_lt_is_Some_2 sts i ltac:(lia)) as [t Ht].
  destruct (lookup_lt_is_Some_2 members i ltac:(lia)) as [m Hm].
  pose proof (E3 _ _ _ _ Ht Hj Hm) as Hsh. destruct t as [l| | |s'|s' f'|]; try done.
  - destruct Hsh as [Hsh|[Hb Hk]].
    + destruct c as [| |ok| | |]; try done. destruct Hsh as [Hok Hk].
      exists (<[i := SCounted]> sts).
      assert (Hsum : 1 ≤ sumZ unreported sts).
      { assert (Hp : 0 ≤ sumZ unreported (<[i := SDone]> sts))
          by (apply sumZ_nonneg; intros [] _; cbn; lia).
        rewrite (sumZ_insert _ _ _ _ _ Ht) in Hp. cbn in Hp. lia. }
      assert (0 ≤ outcomes true tr ∧ 0 ≤ outcomes false tr) as [? ?] by (unfold outcomes; lia).
      destruct ok; cbn [coordStep fst snd];
        (apply (ends_report tr co _ js sts i l (k tt) m); [done|done|done|apply Hk|done| | |done]);
        cbn; rewrite ?Int.i64_small; unfold Int.MaxInt64 in *; lia.
    + assert (Hq : reportOf (ECoord i c (coordStep c co).1) = None) by by destruct c.
      exists (<[i := SBusy (l || false)]> sts).
      apply (ends_quiet tr co _ js sts i (SBusy l) (SBusy (l || false)) _ m);
        [done..| |done| | | |done| |done| |].
      * destruct c; try done; apply Hk.
      * by destruct c.
      * by destruct c.
      * destruct c; try done; cbn; lia.
      * destruct c; try done; cbn; lia.
      * destruct c; try done; cbn; by intros u ?%elem_of_nil.
      * rewrite orb_false_r. intros [= ->]. by left.
  - destruct c; try done. destruct (waiting_open _ _ _ _ _ _ He Ht eq_refl) as (Hrem & Hcl & Hfin).
    assert (Hle : remaining_ co ≤ Z.of_nat (length members)).
    { rewrite E4, <- E2. clear. induction sts as [|t sts IH]; [done|].
      rewrite sumZ_cons. cbn [length]. destruct t; cbn [waiting]; lia. }
    assert (Hsm : Int.i64 (remaining_ co - 1) = remaining_ co - 1)
      by (apply Int.i64_small; unfold Int.MaxInt64 in *; lia).
    cbn [coordStep fst snd]. rewrite Hsm. specialize (Hsh (remaining_ co - 1)).
    assert (E0 : (remaining_ co =? 0) = false) by (apply Z.eqb_neq; lia).
    destruct (remaining_ co - 1 =? 0) eqn:En.
    + exists (<[i := SLast]> sts).
      apply (ends_quiet tr co _ js sts i SCounted SLast _ m);
        [done..| |done| |done| |done]; [cbn; lia|cbn; rewrite E0, En; cbn; lia|by intros u ?%elem_of_nil].
    + exists (<[i := SDone]> sts).
      apply (ends_quiet tr co _ js sts i SCounted SDone _ m);
        [done..| |done| |done| |done]; [cbn; lia|cbn; rewrite E0, En; cbn; lia|by intros u ?%elem_of_nil].
  - destruct c; try done. exists (<[i := SLoaded (succeeded_ co)]> sts). cbn [coordStep fst snd].
    apply (ends_quiet tr co co js sts i SLast _ _ m);
      [done..|apply Hsh|done|done|done|cbn; lia|done|cbn; lia|done|by intros u ?%elem_of_nil|done].
  - destruct c; try done. exists (<[i := SWrite s' (failed_ co)]> sts). cbn [coordStep fst snd].
    pose proof (E9 _ _ Ht) as ->.
    apply (ends_quiet tr co co js sts i (SLoaded (outcomes true tr)) _ _ m);
      [done..|apply Hsh|done|done|done|cbn; lia|done|cbn; lia|done|by intros u ?%elem_of_nil|done].
Qed.

(** When the operation is written, or all members are through. *)
Lemma ends_closed tr co js sts :
  ends tr co js sts →
  (length (finals batchOpID tr) ≤ 1)%nat ∧
  (Forall pDone js → length (finals batchOpID tr) = 1%nat) ∧
  (finals batchOpID tr ≠ [] →
    outcomes true tr + outcomes false tr = Z.of_nat (length members) ∧
    ∀ i m, members !! i = Some m → ∃ ok, (i, ok) ∈ reports tr).
Proof.
  intros He. pose proof He as [E1 E2 E3 E4 E5 E6 E7 E8 E9 E10 E11 E14 E13 E12].
  pose proof (closing_nonneg sts) as Hcl.
  assert (Hnone : sumZ waiting sts = 0 →
    sumZ unreported sts = 0 ∧ ∀ i t, sts !! i = Some t → unreported t = 0).
  { intros Hw. assert (Hall : ∀ i t, sts !! i = Some t → unreported t = 0).
    { intros i t Ht. destruct t; try done. pose proof (waiting_pos _ _ _ Ht eq_refl). lia. }
    split; [|done]. rewrite (sumZ_ext_in unreported (λ _, 0)).
    - clear. induction sts as [|? ? IH]; [done|]. by rewrite sumZ_cons, IH.
    - intros t [i Hi]%list_elem_of_lookup. by eapply Hall. }
  split_and!.
  - destruct (remaining_ co =? 0); lia.
  - intros Hd. assert (Hst : ∀ i t, sts !! i = Some t → t = SDone).
    { intros i t Ht. assert (i < length members)%nat by (rewrite <- E2; by eapply lookup_lt_Some).
      destruct (lookup_lt_is_Some_2 js i ltac:(lia)) as [p Hp].
      destruct (lookup_lt_is_Some_2 members i ltac:(lia)) as [m Hm].
      pose proof (E3 _ _ _ _ Ht Hp Hm) as Hsh. rewrite Forall_lookup in Hd.
      pose proof (Hd _ _ Hp) as Hdp. destruct p; [|done]. destruct t; try done; by destruct Hsh. }
    assert (Hz : ∀ f, f SDone = 0 → sumZ f sts = 0).
    { intros f Hf. rewrite (sumZ_ext_in f (λ _, 0)).
      - clear. induction sts as [|? ? IH]; [done|]. by rewrite sumZ_cons, IH.
      - intros t [i Hi]%list_elem_of_lookup. by rewrite (Hst _ _ Hi). }
    rewrite (Hz closing eq_refl) in E8. rewrite E4, (Hz waiting eq_refl) in E8. cbn in E8. lia.
  - intros Hne. assert (Hw : sumZ waiting sts = 0).
    { rewrite <- E4. destruct (remaining_ co =? 0) eqn:E; [by apply Z.eqb_eq|].
      destruct (finals batchOpID tr); [done|]. cbn [length] in E8. lia. }
    destruct (Hnone Hw) as [Hu Hall]. split; [lia|]. intros i m Hm.
    assert (i < length sts)%nat by (rewrite E2; by eapply lookup_lt_Some).
    destruct (lookup_lt_is_Some_2 sts i ltac:(lia)) as [t Ht]. by eapply E13, Hall.
Qed.

Lemma ends_start w :
  batchOpID ≠ 0 → members ≠ [] →
  ends [] (newBatchCoord (length members))
    (jobs (launching errText reporting onFailure batchOpID members w))
    (replicate (length members) (SBusy false)).
Proof.
  intros Hb Hne. assert (Hsum : ∀ f n, sumZ f (replicate n (SBusy false)) =
    Z.of_nat n * f (SBusy false)).
  { intros f n. induction n as [|n IH]; [done|]. cbn [replicate]. rewrite sumZ_cons, IH. lia. }
  assert (Hp : 0 < Z.of_nat (length members)) by (destruct members; [done|cbn; lia]).
  split; cbn [jobs launching newBatchCoord remaining_ succeeded_ failed_]; try done.
  - by rewrite length_fmap.
  - by rewrite length_replicate.
  - intros i t p m [-> _]%lookup_replicate Hj Hm. rewrite list_lookup_fmap, Hm in Hj.
    injection Hj as <-. apply launchMember_busy; [done|]. by eapply list_elem_of_lookup_2.
  - rewrite Hsum. cbn. lia.
  - change (outcomes _ []) with 0. rewrite Hsum. cbn. lia.
  - rewrite Hsum. cbn. rewrite (proj2 (Z.eqb_neq _ _)) by lia. lia.
  - intros i t [-> _]%lookup_replicate. done.
  - by intros u ?%elem_of_nil.
  - by intros i m [? _]%lookup_replicate.
  - by intros i ok ?%elem_of_nil.
  - by intros i t [-> _]%lookup_replicate.
  - by intros i m ?%elem_of_nil.
Qed.

Lemma ends_runs tr w y :
  batchOpID ≠ 0 → members ≠ [] →
  bruns hash redacted (launching errText reporting onFailure batchOpID members w) tr y →
  ∃ sts, ends tr (coord_ y) (jobs y) sts.
Proof.
  intros Hb Hne H. remember (launching _ _ _ _ _ w) as y0 eqn:E.
  induction H as [y1|y1 tr y2 ev y3 _ IH Hm]; subst; [by eexists; apply ends_start|].
  destruct (IH eq_refl) as [sts Hs]. clear IH.
  destruct Hm as [i c k r w1 w2 co js Hj Hc|i c k w1 co js Hj|o s' w1 co js Hst|vm h' w1 co js Hh];
    cbn [coord_ jobs] in *.
  - by eapply ends_base.
  - by eapply ends_coord.
  - exists sts. by apply ends_other.
  - exists sts. by apply ends_other.
Qed.

End member.
Lemma outcomes_pos b tr : 0 < outcomes b tr ↔ ∃ i, (i, b) ∈ reports tr.
Proof.
  unfold outcomes. split.
  - intros H. destruct (List.filter _ _) as [|[i ok] l] eqn:E; [done|]. exists i.
    assert (Hin : List.In (i, ok) (List.filter (λ r, Bool.eqb r.2 b) (reports tr)))
      by (rewrite E; by left).
    apply filter_In in Hin as [Hin Hb]. apply Bool.eqb_prop in Hb. cbn in Hb. subst.
    by apply list_elem_of_In.
  - intros [i Hi]. apply list_elem_of_In in Hi.
    assert (Hin : List.In (i, b) (List.filter (λ r, Bool.eqb r.2 b) (reports tr)))
      by (apply filter_In; split; [done|apply Bool.eqb_reflx]).
    destruct (List.filter _ _); [done|]. cbn. lia.
Qed.

(** * An example: the wave overtakes a launch *)

Definition exMemberA : CreateVMInput :=
  mkCreateVM "11111111-1111-4111-8111-111111111111" "a" "alice" "tpl" "sha256:00" 2 2048 4096 1024
    2176 "default" "open" None "vm.create" None "" (λ _, None) None.
Definition exMemberB : CreateVMInput :=
  mkCreateVM "22222222-2222-4222-8222-222222222222" "b" "alice" "tpl" "sha256:00" 2 2048 4096 1024
    2176 "default" "open" None "vm.create" None "" (λ _, None) None.

(** The store behind a batch of two: both VMs are provisioning, the operations are
    1, 2 and, of the batch, 3. *)
Definition exAdmitted : Store :=
  foldl (λ s o, exec exHash (exEnv "") o s) (Open exInst emptyDB)
    [OMember exMemberA; OMember exMemberB;
     OBatchOp (mkBatchOp "alice" None "h" "running" None)].

Definition exLaunching (inp : CreateVMInput) (op : Z) : batchLaunchMember :=
  mkLaunch (newVM (exEnv "") inp op) op (launchSpec (newVM (exEnv "") inp op) inp).
Definition exMembers : list batchLaunchMember := [exLaunching exMemberA 1; exLaunching exMemberB 2].

Definition exErr (e : StoreErr) : string := "store error".
Definition exStart : BSys :=
  launching exErr false "stop_successful" 3 exMembers (mkWorld exAdmitted (λ _, clean)).

(** A member up to its runtime call. *)
Definition exEnqueue (i : nat) : list Turn :=
  [TProc i true ""; TProc i true ""; TProc i true ""; TCoord i; TProc i true "boot";
   TStore i (exEnv "")].

(** Both members are about to launch; the first launch fails and its wave stops
    the second VM, of which nothing runs yet; then the second launch begins. *)
Definition exSchedule : list Turn :=
  exEnqueue 0 ++ exEnqueue 1 ++
  [THost 0 (LaunchFails "no kvm") clean; THost 0 Stops clean] ++
  replicate 3 (TStore 0 (exEnv "")) ++
  [TCoord 0; TProc 0 true ""; TStore 0 (exEnv ""); TStore 0 (exEnv ""); THost 0 Stops clean] ++
  replicate 3 (TStore 0 (exEnv "")) ++ [TCoord 0; TCoord 0] ++
  [THost 1 (Launched None) (mkHostVM true false true); TStore 1 (exEnv ""); TCoord 1; TCoord 1;
   TCoord 1; TCoord 1; TStore 1 (exEnv "")].

Definition exEnd : list Event * BSys :=
  default ([], exStart) (turns exHash id exSchedule [] exStart).

Lemma exEnd_turns : turns exHash id exSchedule [] exStart = Some exEnd.
Proof. vm_compute. reflexivity. Qed.

Lemma exEnd_runs : bruns exHash id exStart exEnd.1 exEnd.2.
Proof.
  eapply (turns_runs exHash id exStart exSchedule [] exStart); [constructor|].
  rewrite exEnd_turns. by destruct exEnd.
Qed.

(** * The end of a batch *)

(** The batch's operation is written at most once, and exactly once when all
    members are through; by then every member has reported, a reported success is
    a VM that was moved to running, and the write gives the counts. *)
Lemma batch_ends errText reporting hash redacted onFailure batchOpID members w tr y :
  batchOpID ≠ 0 → members ≠ [] → Z.of_nat (length members) ≤ Int.MaxInt64 →
  (∀ m, m ∈ members → lmOp m ≠ batchOpID) →
  bruns hash redacted (launching errText reporting onFailure batchOpID members w) tr y →
  (length (finals batchOpID tr) ≤ 1)%nat ∧
  (Forall pDone (jobs y) → length (finals batchOpID tr) = 1%nat) ∧
  ∀ u, u ∈ finals batchOpID tr →
    u = finalUpdate onFailure batchOpID members (outcomes true tr) (outcomes false tr) ∧
    wIfState u = "running" ∧
    outcomes true tr + outcomes false tr = Z.of_nat (length members) ∧
    (∀ i m, members !! i = Some m → ∃ ok, (i, ok) ∈ reports tr ∧
      (ok = true → (i, vVMID (lmVM m)) ∈ omap ranOf tr)) ∧
    (wState u = "succeeded" → ∃ i m, members !! i = Some m ∧
      (i, vVMID (lmVM m)) ∈ omap ranOf tr) ∧
    (wState u = "succeeded" → onFailure = "stop_successful" → ∀ i m, members !! i = Some m →
      (i, vVMID (lmVM m)) ∈ omap ranOf tr).
Proof.
  intros Hb Hne Hsm Hops Hr.
  destruct (ends_runs errText reporting onFailure batchOpID members Hops Hsm hash redacted
    tr w y Hb Hne Hr) as [sts He].
  destruct (ends_closed _ _ _ _ _ _ _ He) as (Hone & Hall & Hend).
  split; [done|]. split; [done|]. intros u Hu.
  destruct (Hend ltac:(by intros E; rewrite E in Hu; apply elem_of_nil in Hu)) as [Hsum Hwho].
  pose proof (en_final _ _ _ _ _ _ _ He u Hu) as Hf. split; [done|].
  split; [rewrite Hf; unfold finalUpdate; by repeat case_match|]. split; [done|].
  assert (Hrep : ∀ i m, members !! i = Some m → ∃ ok, (i, ok) ∈ reports tr ∧
    (ok = true → (i, vVMID (lmVM m)) ∈ omap ranOf tr)).
  { intros i m Hm. destruct (Hwho i m Hm) as [ok Hok]. exists ok. split; [done|].
    intros ->. by eapply (en_true _ _ _ _ _ _ _ He). }
  split; [done|]. split.
  - intros Hs. assert (Hpos : 0 < outcomes true tr).
    { rewrite Hf in Hs. unfold finalUpdate in Hs. destruct (_ && _); [done|].
      destruct (0 <? outcomes true tr) eqn:E; [by apply Z.ltb_lt|done]. }
    apply outcomes_pos in Hpos as [i Hi].
    destruct (en_range _ _ _ _ _ _ _ He _ _ Hi) as [m Hm]. exists i, m. split; [done|].
    by eapply (en_true _ _ _ _ _ _ _ He).
  - intros Hs -> i m Hm. destruct (Hrep i m Hm) as ([|] & Hok & Hran); [by apply Hran|].
    exfalso. assert (0 < outcomes false tr) as Hpos by (apply outcomes_pos; eauto). rewrite Hf in Hs. unfold finalUpdate in Hs.
    rewrite (proj2 (Z.ltb_lt 0 _) Hpos) in Hs. done.
Qed.

Lemma exEnd_done : Forall pDone (jobs exEnd.2).
Proof.
  assert (E : jobs exEnd.2 = [BRet tt; BRet tt]) by (vm_compute; reflexivity).
  rewrite E. by repeat constructor.
Qed.

(** The stop wave can overtake a launch. In a batch of two with
    [stop_successful], under the runtime's contract and with nothing else at work,
    one member's launch fails while the other has moved to starting and not yet
    reached the runtime. The wave moves the other VM to stopping, its stop finds
    nothing, and the VM is settled at stopped with its compute released; then its
    launch goes through, and the refused move to running makes the member walk
    away. All members are through, and a VMM runs that the registry holds stopped
    and no reservation pays for. *)
Theorem stop_wave_overtakes_launch :
  bruns exHash id exStart exEnd.1 exEnd.2 ∧ Forall pDone (jobs exEnd.2) ∧
  alive (host (world exEnd.2) (iVMID exMemberB)) = true ∧
  vObservedState <$> select1 (byVMID (iVMID exMemberB))
    (rows (vms (db (st (world exEnd.2))))) = Some "stopped" ∧
  rComputeReleased <$> select1 (byReservation (iVMID exMemberB))
    (reservations (db (st (world exEnd.2)))) = Some true.
Proof.
  split; [exact exEnd_runs|]. split; [exact exEnd_done|].
  split_and!; vm_compute; reflexivity.
Qed.

End BatchWave.
