(* ===== verification/BatchEnd.v ===== *)
(** A batch from request to end: [CreateBatch] of internal/runtime/batch.go with
    the store behind it and the launches it starts. *)

From S2P Require Import Prelude Events Store RunStore VmStore StoreRules Registry History.
From S2P Require Import Idempotency Admission BatchStore BatchRules BatchRuns BatchPlan.
From S2P Require Import Manager ManagerSystem BatchLaunch BatchWave.
Import Events Sql Store Log Runs Vms Rules Registry History Idempotency Admission Batches
  BatchRules BatchRuns BatchPlan Manager ManagerSystem BatchLaunch BatchWave.

Local Open Scope Z_scope.

Module BatchEnd.

(** * The operation *)

(** The spec of a member's launch: what was resolved, on the row as inserted. *)
Definition memberSpec (v : VM) (si : BatchMemberInput) (tpl : Template) (boot : string) : VMSpec :=
  mkSpec (vVMID v) boot (kVCPUCount si) (kMemoryMiB si) (kRootDiskMiB si) (kWorkspaceDiskMiB si)
    (vNetworkProfile v) (vNetworkPolicyID v) (TemplateID tpl) (Digest tpl).

(** The admitted members, with what their launch needs. *)
Fixpoint launchable (mc : ManagerConfig) (reqs : list BatchMemberRequest)
    (resolved : list BatchMemberInput) (rs : list BatchMemberResult)
    : list batchLaunchMember :=
  match rs, reqs, resolved with
  | r :: rs, q :: reqs, si :: resolved =>
    let rest := launchable mc reqs resolved rs in
    match rVM r, rOperation r, mcTemplates mc !! uTemplateID q with
    | Some v, Some o, Some tpl => mkLaunch v (oOperationID o) (memberSpec v si tpl) :: rest
    | _, _, _ => rest
    end
  | _, _, _ => []
  end.

Inductive BatchAnswer :=
  | BatchClosed
  | BatchUnavailable (e : RtErr)
  | BatchBad (e : BatchRequestErr)
  | BatchFailed (e : BatchErr)
  | BatchMade (z : CreateVMBatchResult) (launches : list batchLaunchMember).

Section create.
Context (hash : Envelope → string).
Context (rh : string → string → list memberSig → string) (mc : ManagerConfig).

(** What is answered, and the launches started behind it. *)
Definition CreateBatch (closing : bool) (availability : option RtErr) (owner : string)
    (ids : nat → string) (es : nat → Env) (e : Env) (req : CreateBatchRequest) (x : BStore)
    : BatchAnswer * BStore :=
  if closing then (BatchClosed, x) else
  match availability with
  | Some err => (BatchUnavailable err, x)
  | None =>
    match planBatch rh mc owner ids req with
    | Err err => (BatchBad err, x)
    | Ok inp =>
      match CreateVMBatch hash es e inp x with
      | (Err err, x') => (BatchFailed err, x')
      | (Ok z, x') =>
        (BatchMade z (if zIsReplay z then []
                      else launchable mc (wMembers req) (gMembers inp) (zMembers z)), x')
      end
    end
  end.

(** [batchOpID] of the coordinator. *)
Definition batchOpID (z : CreateVMBatchResult) : Z :=
  match zBatchOp z with Some o => oOperationID o | None => 0 end.

Lemma launchable_results reqs resolved rs m :
  m ∈ launchable mc reqs resolved rs →
  ∃ r v o, r ∈ rs ∧ rVM r = Some v ∧ rOperation r = Some o ∧
    lmVM m = v ∧ lmOp m = oOperationID o.
Proof.
  revert reqs resolved. induction rs as [|r rs IH]; intros [|q reqs] [|si resolved] Hm;
    cbn in Hm; try by apply elem_of_nil in Hm.
  assert (Hrest : m ∈ launchable mc reqs resolved rs → ∃ r0 v o, r0 ∈ r :: rs ∧
    rVM r0 = Some v ∧ rOperation r0 = Some o ∧ lmVM m = v ∧ lmOp m = oOperationID o).
  { intros (r0 & v & o & Hr & ?)%IH. exists r0, v, o. split; [by right|done]. }
  destruct (rVM r) as [v|] eqn:Ev; [|by apply Hrest]. destruct (rOperation r) as [o|] eqn:Eo;
    [|by apply Hrest]. destruct (mcTemplates mc !! _); [|by apply Hrest].
  apply elem_of_cons in Hm as [->|Hm]; [|by apply Hrest]. exists r, v, o.
  split_and!; [left|done..].
Qed.

Lemma launchable_length reqs resolved rs :
  (length (launchable mc reqs resolved rs) ≤ length rs)%nat.
Proof.
  revert reqs resolved. induction rs as [|r rs IH]; intros [|q reqs] [|si resolved]; cbn; try lia.
  specialize (IH reqs resolved). repeat case_match; cbn; lia.
Qed.

(** What a batch starts meets what its coordinator needs. *)
Lemma CreateBatch_launches inst closing avail owner ids es e req x z ms x' :
  bsteps hash (openB inst) x →
  (∀ inp, planBatch rh mc owner ids req = Ok inp →
     allReady es (length (gMembers inp)) (base x) ∧ ready (cost inp) e (base x)) →
  CreateBatch closing avail owner ids es e req x = (BatchMade z ms, x') → ms ≠ [] →
  batchOpID z ≠ 0 ∧ (∀ m, m ∈ ms → lmOp m ≠ batchOpID z) ∧
  (length ms ≤ length (wMembers req))%nat.
Proof.
  intros Hs Hrd. unfold CreateBatch. destruct closing; [done|]. destruct avail; [done|].
  destruct (planBatch rh mc owner ids req) as [inp|] eqn:Hp; [|done].
  destruct (CreateVMBatch hash es e inp x) as [[z'|] x1] eqn:Hc; [|done].
  intros [= <- <- <-] Hne. destruct (zIsReplay z') eqn:Hrep; [done|].
  destruct (Hrd inp eq_refl) as [Hr He].
  destruct (bsteps_store hash _ _ Hs (keyed_empty hash inst)) as [Hk [os Hos]].
  apply CreateVMBatch_cases in Hc as
    [(b & _ & Hz & _)|[(z2 & o & [= <-] & _ & Ho & Hrec & _)|(err & q & ? & _)]];
    [..|done|done|done|done].
  { exfalso. unfold replayOf in Hz. repeat case_match; try done. by simplify_eq. }
  destruct Hrec as [_ _ _ _ _ Rid Roth _ Rout _]. unfold batchOpID. rewrite Ho. split_and!.
  - pose proof (opsUp_steps hash _ _ _ Hos) as Hup. unfold opsUp in Hup. cbn in Hup. lia.
  - intros m (r & v & p & Hr' & _ & Hop & _ & ->)%launchable_results.
    pose proof (Roth r p Hr' Hop). lia.
  - etrans; [apply launchable_length|]. rewrite <- (Forall2_length _ _ _ Rout).
    apply planBatch_length in Hp. by rewrite Hp.
Qed.

End create.

(** * The end *)

(** C11: The operation of a batch is concluded once, by its last member, from what
    every member did. Take any execution of the store with batches, a
    [CreateBatch] that admits members, and then any interleaving of their
    launches, whatever the runtime answers and whatever else happens to the store
    and on the host. The batch's operation is written at most once, and exactly
    once when all members are through; by then every member has reported, and one
    that reported success had its VM moved to running; the write is made of the
    counts of these reports. So a batch that ends as succeeded has a VM that
    reached running, and under [stop_successful] all of its VMs did. The write is
    conditional on the operation still running, which keeps a conclusion that was
    there before. *)
Theorem batch_concluded hash rh mc redacted errText reporting inst closing avail owner ids es e
    req x z ms x' h tr y :
  bsteps hash (openB inst) x →
  (∀ inp, planBatch rh mc owner ids req = Ok inp →
     allReady es (length (gMembers inp)) (base x) ∧ ready (cost inp) e (base x)) →
  CreateBatch hash rh mc closing avail owner ids es e req x = (BatchMade z ms, x') →
  ms ≠ [] → Z.of_nat (length (wMembers req)) ≤ Int.MaxInt64 →
  bruns hash redacted
    (launching errText reporting (onFailureOf req) (batchOpID z) ms (mkWorld (base x') h)) tr y →
  (length (finals (batchOpID z) tr) ≤ 1)%nat ∧
  (Forall pDone (jobs y) → length (finals (batchOpID z) tr) = 1%nat) ∧
  ∀ u, u ∈ finals (batchOpID z) tr →
    u = finalUpdate (onFailureOf req) (batchOpID z) ms (outcomes true tr) (outcomes false tr) ∧
    wIfState u = "running" ∧
    outcomes true tr + outcomes false tr = Z.of_nat (length ms) ∧
    (∀ i m, ms !! i = Some m → ∃ ok, (i, ok) ∈ reports tr ∧
      (ok = true → (i, vVMID (lmVM m)) ∈ omap ranOf tr)) ∧
    (wState u = "succeeded" → ∃ i m, ms !! i = Some m ∧
      (i, vVMID (lmVM m)) ∈ omap ranOf tr) ∧
    (wState u = "succeeded" → onFailureOf req = "stop_successful" → ∀ i m, ms !! i = Some m →
      (i, vVMID (lmVM m)) ∈ omap ranOf tr).
Proof.
  intros Hs Hrd Hc Hne Hsm Hr.
  destruct (CreateBatch_launches hash rh mc inst closing avail owner ids es e req x z ms x'
    Hs Hrd Hc Hne) as (Hz & Hops & Hlen).
  eapply batch_ends; [done|done|lia|done|exact Hr].
Qed.

(** Two members of a batch that stops on failure; the first launch fails. *)
Definition exStopRequest : CreateBatchRequest :=
  mkBatchRequest [exMemberRequest "a"; exMemberRequest "b"] "atomic_reservation"
    "stop_successful" (Some "k").
Definition exRh (mode onFailure : string) (sigs : list memberSig) : string := "h".
Definition exCreated : BatchAnswer * BStore :=
  CreateBatch exHash exRh exManager false None "alice" exIDs exEs (exEnv "") exStopRequest
    (openB exInst).
Definition exZ : CreateVMBatchResult :=
  match exCreated.1 with BatchMade z _ => z | _ => exResult end.
Definition exMs : list batchLaunchMember :=
  match exCreated.1 with BatchMade _ ms => ms | _ => [] end.

Lemma exCreated_ok : exCreated = (BatchMade exZ exMs, exCreated.2).
Proof. vm_compute. reflexivity. Qed.

Definition exBegin : BSys :=
  launching exErr false (onFailureOf exStopRequest) (batchOpID exZ) exMs
    (mkWorld (base exCreated.2) (λ _, clean)).
Definition exFinish : list Event * BSys :=
  default ([], exBegin) (turns exHash id exSchedule [] exBegin).

Lemma exFinish_runs : bruns exHash id exBegin exFinish.1 exFinish.2.
Proof.
  eapply (turns_runs exHash id exBegin exSchedule [] exBegin); [constructor|].
  assert (E : turns exHash id exSchedule [] exBegin = Some exFinish) by (vm_compute; reflexivity).
  rewrite E. by destruct exFinish.
Qed.

Lemma exFinish_done : Forall pDone (jobs exFinish.2).
Proof.
  assert (E : jobs exFinish.2 = [BRet tt; BRet tt]) by (vm_compute; reflexivity).
  rewrite E. by repeat constructor.
Qed.

Lemma exPlan_ready inp :
  planBatch exRh exManager "alice" exIDs exStopRequest = Ok inp →
  allReady exEs (length (gMembers inp)) (base (openB exInst)) ∧
  ready (cost inp) (exEnv "") (base (openB exInst)).
Proof.
  intros H. apply planBatch_length in H. unfold cost. rewrite H.
  split; [apply (exReady 2); lia|]. apply readyb_spec. vm_compute. reflexivity.
Qed.

Lemma batch_concluded_witness :
  (wState <$> finals (batchOpID exZ) exFinish.1) = ["failed"] ∧
  length (finals (batchOpID exZ) exFinish.1) = 1%nat.
Proof.
  split; [vm_compute; reflexivity|].
  refine (proj1 (proj2 (batch_concluded exHash exRh exManager id exErr false exInst false None
    "alice" exIDs exEs (exEnv "") exStopRequest (openB exInst) exZ exMs exCreated.2 (λ _, clean)
    exFinish.1 exFinish.2 (rtc_refl _ _) exPlan_ready exCreated_ok _ _ exFinish_runs))
    exFinish_done).
  - intros E. assert (length exMs = 2%nat) as H2 by (vm_compute; reflexivity). by rewrite E in H2.
  - vm_compute. discriminate.
Defined.

End BatchEnd.
